(* ===== verification/_CoqProject ===== *)
-Q . S2P
Prelude.v
OrderedMap.v
Util.v
IBNode.v
IBStack.v
IBTree.v
IBRepr.v
IBStackFacts.v
IBLoc.v
IBSearch.v
IBWalk.v
IBGet.v
IBAdd.v
IBBalance.v
IBIterate.v
IBCommit.v
IBUpdate.v
IBRange.v
IBTrans.v
IBDelta.v
IBSync.v
IBPersist.v
NodeBytes.v
IBProps.v
BlockKey.v
Codec.v
Backend.v
TreeLocation.v
NameInBlock.v
Storage.v
StorageInv.v
StorageProps.v
Paths.v
FileBackend.v
TreeBackend.v
TreeStore.v
TreeAlloc.v
TreeBlocks.v
TreeProps.v
FsState.v
Inode.v
FileIO.v
FileRep.v
FileRead.v
FileWrite.v
FsOps.v
FileProps.v
DirRep.v
Directory.v
DirProps.v
FsUser.v
UserProps.v
UserSession.v
Connector.v
Server.v
IBDiff.v
Merge.v
MergeFacts.v
MergeProps.v
Hugger.v
HuggerFlush.v
LinkedList.v
Cart.v
CartFacts.v
CartProps.v
Msgp.v
Encoders.v
EncoderProps.v
TreeFlush.v
TreeNodes.v
TreeDisk.v
TreeSave.v
TreeRecover.v
TreeKeep.v
TreeDevice.v
TreeDurable.v
MapRunner.v
Limiter.v
Locks.v
Channels.v
