(* ===== verification/Prelude.v ===== *)
(** * go-tfhfs: a verification library

    go-tfhfs is a file system that keeps everything, metadata, directories and file contents, in
    one copy-on-write B+ tree of byte strings.  The nodes of the tree and the extents of the files
    are blocks of a storage, which counts references to them and writes them through a codec to a
    backend: a file, a database, memory, or a flat device that is itself managed by such a tree.

    ** The parts and how they interact

      connector, server (src/connector, src/server)   synchronise the file systems of two servers
        |  blocks, names, merge
      fs (src/fs)                    operations of the kernel on inodes, directories, open files
        |  transactions, merge
      hugger (src/ibtree/hugger)     the current root of a tree; transactions, retries, flushing
        |  TreeBackend
      ibtree (src/ibtree)            the copy-on-write tree, its cursor, commit and differences
        |  blocks by id
      storage (src/storage)          reference counts, dirty blocks, names, the write-back cache
        |  Backend
      codec, backends (src/codec, src/storage)   encryption, compression; memory, device
      util (src/util)                locks, limited parallelism, serialised callbacks

    ** The common ground

    - [Prelude] (this file): results of Go code ([res]: a value, a panic, or a loop the model cut
      off), their monad, lists, strings, integers of fixed width, tactics and hints.
    - [OrderedMap]: byte strings in the order of Go, and sorted association lists with lookup,
      insertion, deletion, ranges and neighbours: the abstract specification of a tree.
    - [Util]: src/util/util.go.

    ** The tree: src/ibtree

    Model: [IBNode] (ibtree.go, nodedata.go: nodes, sizes, structure checks), [IBStack]
    (ibstack.go: the cursor with its splits, merges and rebalancing), [IBTree] (ibtree.go,
    ibtransaction.go: lookups, Set, Delete, DeleteRange, transactions, subtrees), [IBDelta]
    (delta.go), [IBPersist] (CommitTo, the TreeBackend interface as a class, dummybackend.go).

    Proof: [IBRepr] says what a node, a path and a cursor hold; [IBStackFacts], [IBLoc],
    [IBSearch], [IBWalk], [IBGet], [IBAdd], [IBBalance], [IBIterate], [IBCommit], [IBUpdate],
    [IBRange] take one operation each; [IBTrans] collects them for transactions, [IBSync] says that
    nodes with an id are what is stored under it, [IBDiff] describes differences by key.

    [IBProps]: every history of transaction operations refines the ordered map; lookups, Set,
    Delete and DeleteRange one by one, with their panics; a committed tree loads to the same map;
    IterateDelta reports exactly the difference; operations keep unsaved and stored nodes apart and
    pass the code's own structure check, which accepts exactly the trees with ordered keys.  Its module [IBFindings]: runs outside the conditions that
    panic.

    ** Transactions and flushing: src/ibtree/hugger

    [Hugger]: any number of Update2 calls and flushes interleave as steps; the final content is a
    serial execution of the callbacks that committed, and all calls return.  [HuggerFlush]: the
    hugger as a TreeBackend over the storage and a node cache, while the storage drops blocks that
    are not in use at any time; after Flush, and whatever expires then, the name refers to a root
    that loads to the current content, and the block of that root is the only one held.  The node
    cache there is any map that returns only what was put in.

    ** Templates: src/xxx, instantiated by the build

    [LinkedList]: the doubly linked list of list.go as a heap of elements; every operation refines
    the list of values.  [Cart], [CartFacts], [CartProps]: the node cache of cart.go with its four
    lists in one heap; every history of calls that clears no key with a value (which breaks the cache)
    returns, answers are what was last set, and the sizes stay bounded: a cache as [HuggerFlush] needs
    it.  [Channels]: the unbounded channel of
    ichannel.go delivers in order and loses no wake-up, the future of future.go calls its callback
    once, the free list of atomiclist.go is a stack without locks, each at the grain of its locks
    and atomic accesses; the generated instances of all templates; and the backend of
    storage/maprunnerbackend.go, which applies every call once but not in order.

    ** Storage: src/storage, src/codec

    - [Codec]: encrypting, compressing and chained codecs and their round trip.
    - [Backend]: the Backend interface as a record of operations with the laws [BlockStoreOk]; the
      in-memory, proxy and codec backends.  [NameInBlock]: names kept in a block.
    - [Storage]: the storage with its heap of blocks, jobs and goroutine; [StorageInv] its
      invariant, and that the loops of a flush end; [StorageProps]: a flush ends, and unless it panics
      it leaves the backend with what is in memory.
    - [TreeLocation], [TreeBackend]: the device backend: locations, superblocks, free space,
      blocks; the file in memory, and the file of the operating system, which behaves the same.  [TreeStore]: the ordered map it lives in, as the class [TxStore] with the laws
      [TxStoreOk], which sorted lists satisfy.  [TreeAlloc], [TreeBlocks]: the invariants of the
      allocator and of the blocks.  [TreeProps]: allocations are disjoint and accounted for, the log
      of pending operations rebuilds the free lists, the backend is a block store.
    - [TreeFlush]: the nodes of that tree on its own device: SaveNode, LoadNode, Flush with the purge
      of old nodes and the superblock, Init; [NodeBytes]: nodedata.go.  [TreeNodes]: stored trees, what
      a purge frees; [TreeDisk], [TreeSave]: the bytes of the device, and the invariant with nodes
      and superblocks; [TreeRecover]: a flush and a start; [TreeKeep], [TreeDevice]: block operations and
      histories.  [TxNodesOk] is what the backend relies on of the trees, the module [TreeChunks] of
      [TreeDevice] an implementation that shares stored leaves.  [TreeDurable]: histories of calls, flushes
      and restarts on a device refine a map from ids to blocks, and Init finds what was flushed, with
      the generated encoders.  The theorems are about logs that fit the superblock area.
    - [Paths]: paths of files, and a disk as a map from paths to files and directories.  [FileBackend]:
      the backend of storage/file/file.go on such a disk, whose histories refine maps of blocks and
      names; the sizes of directory.go; the choice of codec and backend in factory.go.

    ** Encodings: the generated marshallers

    [Msgp] states the functions of the msgp library that the generated code calls, as a class with
    the laws of its documentation; [Encoders] has MarshalMsg, UnmarshalMsg and Msgsize of every
    stored type; [EncoderProps]: values round trip, also with bytes after them, and fit in the
    announced size.  A concrete library discharges the laws.

    ** File system: src/fs

    - [BlockKey]: keys, their parts and their order.  [FsState], [Inode], [FileIO], [FsOps]: the
      state, inode.go, fh.go, and the handlers of ops.go.
    - [FileRep], [FileRead], [FileWrite], [FileProps]: an open file is a list of bytes; Read and
      Write refine the operations on it, over both representations of a file and their change.
    - [DirRep], [Directory], [DirProps]: directories are a map from directory and name to child;
      adding, removing and finding entries refines it and keeps the link counts.
      The module [FsFindings] of [FileProps]: runs that show where handlers differ from what they
      promise.
    - [FsUser]: fsuser.go, the calls on paths.  [UserProps]: looking up a path walks the directories
      along it.  [UserSession]: a file that is opened, read, written, seeked and closed behaves as
      bytes with a position.
    - [Merge], [MergeFacts], [MergeProps]: the three-way merge against a specification per key.

    ** Synchronisation: src/connector, src/server

    [Connector]: Run with its two directions, and the goroutines that copy blocks, as steps; the
    servers are the class [FsClient] with the laws [FsClientOk] and [FsClientLive], and a call may
    fail before or after the server did its work.  A root is handed over only when everything below
    it is there, and a copy over a network without failures ends.  [Server]: the handlers over an
    abstract storage (blocks with their status, open handles, names) and any tree that satisfies
    [TxStoreOk]; they satisfy those laws.  The end of the file shows what an interrupted copy
    leaves behind, and has the references that the file system reports for its blocks.

    ** Concurrency helpers: src/util

    [MapRunner]: callbacks of a key never overlap, all run, and a Close that waits for them returns; of
    two that wait one may hang.  [Limiter]: the limits hold, there is no deadlock, and everybody is
    served once no new calls come; an Exclusive may starve otherwise.  [Locks]: the recursive mutex, the mutex with checks for debugging and the
    map of mutexes exclude.

    ** Bounds and fuel

    Integers are [Z] with the conversions of the code written out.  Loops that are not structural
    take a number of turns, and the theorems give the turns that suffice: the rebalancing pass of
    the tree takes [commit_fuel], a function of the entries and the height; IterateDelta takes
    [delta_fuel], the sum of both trees; Read and Write take one turn per extent; the replacement
    loops of the node cache take [replace_fuel], three turns per cached entry; the loops of a storage
    flush take [loop_fuel] of the blocks below the dirty ones, along the references, which lead down
    as ids are hashes; the purge of a device takes one more than the height of its tree.  A tree has at
    most as many levels as the arrays of the cursor.  Files are bounded by 2^62 bytes and devices by
    2^60, where the offsets of the code still fit; a write has less than 2^32 bytes, as its count is
    of 32 bits.  Loops of Go over maps take their order as a parameter, so that the theorems hold for
    every order; those of a storage flush range over maps that change meanwhile, as [Storage] says.

    ** Parameters

    AES-GCM, LZ4, PBKDF2, SHA-256 and the msgp library are not part of the sources: they are
    arguments, with the round trips the code relies on as hypotheses.  The components that store
    encoded values take the encoders as arguments with their round trip, which [EncoderProps]
    proves for the generated code.  Theorems that need distinct ids for distinct contents say so
    for the contents at hand.

    ** Not modelled

    - Close of the backends; the goroutine, Flush and Close of fs.go; CommitUntilSucceeds of the
      hugger.
    - The HTTP set-up of the server, src/cmd (command lines), src/pb (generated RPC stubs), the
      versions of the encoders on streams (EncodeMsg, DecodeMsg: never called), the badger backend (a
      third-party database), mlog (debug output).
*)
From stdpp Require Import base list sets strings sorting.
From Stdlib Require Import ZArith Lia.

(** ** Results of Go code

    A Go call either returns, or panics (an explicit [log.Panic], an index out
    of range, a nil dereference).  [NoFuel] marks a loop that was cut off by the
    bound of its model; the theorems show that it does not occur. *)

Inductive res (A : Type) : Type :=
| Ok (a : A)
| Panic (msg : string)
| NoFuel.
Arguments Ok {A} a.
Arguments Panic {A} msg.
Arguments NoFuel {A}.

Definition res_bind {A B : Type} (m : res A) (k : A → res B) : res B :=
  match m with
  | Ok a => k a
  | Panic msg => Panic msg
  | NoFuel => NoFuel
  end.

Definition is_Ok {A : Type} (m : res A) : bool :=
  match m with Ok _ => true | _ => false end.

Definition is_Panic {A : Type} (m : res A) : bool :=
  match m with Panic _ => true | _ => false end.

Declare Scope go_scope.
Delimit Scope go_scope with go.
Notation "'let!' x ':=' m 'in' k" := (res_bind m (fun x => k))
  (at level 10, x pattern, m at level 100, k at level 200) : go_scope.
Open Scope go_scope.

(** A nil pointer that is dereferenced panics. *)
Definition deref {A : Type} (p : option A) : res A :=
  match p with
  | Some a => Ok a
  | None => Panic "invalid memory address or nil pointer dereference"
  end.

(** ** Arrays and slices *)

(** [a[i]] for a natural index: out of range is a run-time panic. *)
Definition go_index {A : Type} (l : list A) (i : nat) : res A :=
  match l !! i with
  | Some a => Ok a
  | None => Panic "index out of range"
  end.

(** [a[i] = x]. *)
Definition go_update {A : Type} (l : list A) (i : nat) (x : A) : res (list A) :=
  if decide (i < length l) then Ok (<[i := x]> l) else Panic "index out of range".

(** [l[i]] for a Go [int] index, which may be negative. *)
Definition go_at {A : Type} (l : list A) (i : Z) : res A :=
  if (i <? 0)%Z then Panic "index out of range" else go_index l (Z.to_nat i).

(** [l[:k]] and [l[k:]] on a slice whose capacity is its length. *)
Definition slice_to {A : Type} (l : list A) (k : Z) : res (list A) :=
  if (k <? 0)%Z || (Z.of_nat (length l) <? k)%Z
  then Panic "slice bounds out of range"
  else Ok (take (Z.to_nat k) l).

Definition slice_from {A : Type} (l : list A) (k : Z) : res (list A) :=
  if (k <? 0)%Z || (Z.of_nat (length l) <? k)%Z
  then Panic "slice bounds out of range"
  else Ok (drop (Z.to_nat k) l).

(** [sort.Search] of the Go standard library: binary search for the least
    index in [[0, n)] at which [f] holds, [n] when there is none.  The interval
    halves at every turn, so [n] turns are enough. *)
Fixpoint sort_Search_loop (fuel : nat) (f : nat → bool) (i j : nat) : nat :=
  match fuel with
  | O => i
  | S fuel' =>
      if i <? j then
        let h := (i + j) / 2 in
        if f h then sort_Search_loop fuel' f i h
        else sort_Search_loop fuel' f (S h) j
      else i
  end.

Definition sort_Search (n : nat) (f : nat → bool) : nat :=
  sort_Search_loop n f 0 n.

(** [strings.Repeat]. *)
Fixpoint string_repeat (s : string) (n : nat) : string :=
  match n with
  | O => ""
  | S n' => s +:+ string_repeat s n'
  end.

(** ** Machine integers *)

Definition uint64_max : Z := 18446744073709551615.
Definition wrap64 (z : Z) : Z := (z mod 18446744073709551616)%Z.
Definition in_uint64 (z : Z) : Prop := (0 ≤ z < 18446744073709551616)%Z.

(** ** Generic lemmas *)

#[export] Instance Ok_inj {A : Type} : Inj (=) (=) (@Ok A).
Proof. by intros x y [= ->]. Qed.

Lemma res_bind_Ok {A B : Type} (m : res A) (k : A → res B) b :
  res_bind m k = Ok b ↔ ∃ a, m = Ok a ∧ k a = Ok b.
Proof.
  destruct m as [a| |]; simpl; split.
  - eauto.
  - by intros (? & [= <-] & ?).
  - done.
  - by intros (? & ? & ?).
  - done.
  - by intros (? & ? & ?).
Qed.

Lemma go_index_Ok {A : Type} (l : list A) i a : l !! i = Some a → go_index l i = Ok a.
Proof. unfold go_index. by intros ->. Qed.

Lemma go_at_Ok {A : Type} (l : list A) (i : nat) a :
  l !! i = Some a → go_at l (Z.of_nat i) = Ok a.
Proof.
  intros H. unfold go_at. destruct (Z.ltb_spec (Z.of_nat i) 0); [lia|].
  rewrite Nat2Z.id. by apply go_index_Ok.
Qed.

Lemma go_update_Ok {A : Type} (l : list A) i x :
  i < length l → go_update l i x = Ok (<[i := x]> l).
Proof. intros H. unfold go_update. by rewrite decide_True. Qed.

Lemma slice_to_Ok {A : Type} (l : list A) (k : nat) :
  k ≤ length l → slice_to l (Z.of_nat k) = Ok (take k l).
Proof.
  intros H. unfold slice_to.
  destruct (Z.ltb_spec (Z.of_nat k) 0); [lia|].
  destruct (Z.ltb_spec (Z.of_nat (length l)) (Z.of_nat k)); [lia|].
  simpl. by rewrite Nat2Z.id.
Qed.

Lemma slice_from_Ok {A : Type} (l : list A) (k : nat) :
  k ≤ length l → slice_from l (Z.of_nat k) = Ok (drop k l).
Proof.
  intros H. unfold slice_from.
  destruct (Z.ltb_spec (Z.of_nat k) 0); [lia|].
  destruct (Z.ltb_spec (Z.of_nat (length l)) (Z.of_nat k)); [lia|].
  simpl. by rewrite Nat2Z.id.
Qed.

(** The split of a list around one of its elements. *)
Lemma list_split_at {A : Type} (l : list A) i a :
  l !! i = Some a → l = take i l ++ a :: drop (S i) l.
Proof. intros H. symmetry. by apply take_drop_middle. Qed.

Lemma Forall2_take_drop_split {A B : Type} (P : A → B → Prop) l k i a :
  Forall2 P l k → l !! i = Some a →
  ∃ b, k !! i = Some b ∧ P a b ∧
       Forall2 P (take i l) (take i k) ∧ Forall2 P (drop (S i) l) (drop (S i) k).
Proof.
  intros HF Hl. destruct (Forall2_lookup_l _ _ _ _ _ HF Hl) as (b & Hb & HP).
  exists b. split_and!; [done|done| |]; [by apply Forall2_take|by apply Forall2_drop].
Qed.

Lemma sort_Search_loop_spec f fuel i j n :
  (∀ a b, a ≤ b → b < n → f a = true → f b = true) →
  j - i ≤ fuel → i ≤ j → j ≤ n →
  (∀ a, a < i → f a = false) → (∀ a, j ≤ a → a < n → f a = true) →
  let r := sort_Search_loop fuel f i j in
  r ≤ n ∧ (∀ a, a < r → f a = false) ∧ (∀ a, r ≤ a → a < n → f a = true).
Proof.
  intros Hmono. revert i j. induction fuel as [|fuel IH]; intros i j Hf Hij Hjn Hlo Hhi;
    cbn [sort_Search_loop].
  - assert (i = j) as -> by lia. auto with lia.
  - destruct (Nat.ltb_spec i j) as [Hlt|Hge].
    + assert (i ≤ (i + j) / 2 < j) as [Hh1 Hh2].
      { split; [apply Nat.div_le_lower_bound|apply Nat.Div0.div_lt_upper_bound]; lia. }
      destruct (f ((i + j) / 2)) eqn:Efh.
      * apply IH; [lia..|done|]. intros a Ha Han. apply (Hmono ((i + j) / 2)); auto with lia.
      * apply IH; [lia..| |done]. intros a Ha.
        destruct (f a) eqn:Efa; [|done].
        rewrite (Hmono a ((i + j) / 2)) in Efh; [done|lia..|done].
    + assert (i = j) as -> by lia. auto with lia.
Qed.

(** [sort.Search] on a monotone predicate returns the boundary. *)
Lemma sort_Search_spec f n :
  (∀ a b, a ≤ b → b < n → f a = true → f b = true) →
  let r := sort_Search n f in
  r ≤ n ∧ (∀ a, a < r → f a = false) ∧ (∀ a, r ≤ a → a < n → f a = true).
Proof.
  intros Hmono. apply sort_Search_loop_spec; auto with lia.
Qed.

(** ** Automation *)

Create HintDb go discriminated.
#[export] Hint Resolve go_index_Ok go_at_Ok go_update_Ok slice_to_Ok slice_from_Ok : go.

(** Step through a bind whose first part is known to return. *)
Ltac go_step :=
  match goal with
  | |- context [res_bind (Ok _) _] => simpl res_bind
  | H : ?m = Ok _ |- context [res_bind ?m _] => rewrite H; simpl res_bind
  end.

(** Invert a bind that returned. *)
Ltac go_inv :=
  repeat match goal with
  | H : res_bind _ _ = Ok _ |- _ =>
      let a := fresh "a" in let E := fresh "E" in
      apply res_bind_Ok in H as (a & E & H)
  | H : Ok _ = Ok _ |- _ => injection H as H; try subst
  | H : Panic _ = Ok _ |- _ => discriminate H
  | H : NoFuel = Ok _ |- _ => discriminate H
  end.
