(* ===== verification/OrderedMap.v ===== *)
(** * Byte-string keys and the ordered map they index

    Go compares strings bytewise; [kltb] is that order.  The second half is the
    abstract specification of a tree: a strictly sorted association list with
    its lookup, update, deletion and neighbour queries.  The tree components
    refine these functions. *)
From stdpp Require Import base list sets strings sorting.
From Stdlib Require Import ZArith Lia Ascii.
From S2P Require Import Prelude.

(** ** The order of Go strings *)

Definition kltb (a b : string) : bool :=
  match String.compare a b with Lt => true | _ => false end.
Definition kleb (a b : string) : bool := negb (kltb b a).
Definition keqb (a b : string) : bool := String.eqb a b.

Definition klt (a b : string) : Prop := kltb a b = true.

Abbreviation kv := (string * string)%type.

Definition kvlt (p q : kv) : Prop := klt p.1 q.1.

(** ** Abstract ordered map *)

Definition sorted_kvs (l : list kv) : Prop := StronglySorted kvlt l.

Definition below (k : string) (l : list kv) : list kv :=
  List.filter (fun p => kltb p.1 k) l.
Definition above (k : string) (l : list kv) : list kv :=
  List.filter (fun p => kltb k p.1) l.
Definition at_key (k : string) (l : list kv) : list kv :=
  List.filter (fun p => keqb p.1 k) l.

Definition om_get (k : string) (l : list kv) : option string :=
  match at_key k l with
  | p :: _ => Some p.2
  | [] => None
  end.
Definition om_set (k v : string) (l : list kv) : list kv := below k l ++ (k, v) :: above k l.
Definition om_delete (k : string) (l : list kv) : list kv := below k l ++ above k l.
Definition om_delete_range (k1 k2 : string) (l : list kv) : list kv := below k1 l ++ above k2 l.
Definition om_next (k : string) (l : list kv) : option string :=
  match above k l with p :: _ => Some p.1 | [] => None end.
Definition om_prev (k : string) (l : list kv) : option string :=
  match last (below k l) with Some p => Some p.1 | None => None end.

(** ** The order is a strict total order *)

Lemma string_compare_refl s : String.compare s s = Eq.
Proof.
  induction s as [|a s IH]; [done|]. simpl.
  assert (Ascii.compare a a = Eq) as -> by (unfold Ascii.compare; apply N.compare_refl).
  done.
Qed.

Lemma ascii_compare_lt_trans a b c :
  Ascii.compare a b = Lt → Ascii.compare b c = Lt → Ascii.compare a c = Lt.
Proof. unfold Ascii.compare. rewrite !N.compare_lt_iff. lia. Qed.

Lemma ascii_compare_eq a b : Ascii.compare a b = Eq → a = b.
Proof.
  unfold Ascii.compare. rewrite N.compare_eq_iff. intros H.
  by rewrite <- (ascii_N_embedding a), <- (ascii_N_embedding b), H.
Qed.

Lemma klt_trans a b c : klt a b → klt b c → klt a c.
Proof.
  unfold klt, kltb. revert b c. induction a as [|x a IH]; intros [|y b] [|z c]; simpl; try done.
  destruct (Ascii.compare x y) eqn:Exy; destruct (Ascii.compare y z) eqn:Eyz; try done.
  - apply ascii_compare_eq in Exy as ->. rewrite Eyz. apply IH.
  - apply ascii_compare_eq in Exy as ->. by rewrite Eyz.
  - apply ascii_compare_eq in Eyz as ->. by rewrite Exy.
  - by rewrite (ascii_compare_lt_trans _ _ _ Exy Eyz).
Qed.

Lemma klt_irrefl a : ¬ klt a a.
Proof. unfold klt, kltb. by rewrite string_compare_refl. Qed.

Lemma klt_asym a b : klt a b → ¬ klt b a.
Proof. intros H1 H2. by eapply klt_irrefl, klt_trans. Qed.

Lemma klt_total a b : klt a b ∨ a = b ∨ klt b a.
Proof.
  unfold klt, kltb. rewrite (String.compare_antisym b a).
  destruct (String.compare a b) eqn:E; simpl; auto.
  right; left. by apply String.compare_eq_iff.
Qed.

Lemma kltb_false a b : kltb a b = false ↔ a = b ∨ klt b a.
Proof.
  split.
  - intros H. destruct (klt_total a b) as [Hlt|[->|Hlt]]; auto. unfold klt in Hlt. congruence.
  - intros [->|H]; apply not_true_iff_false; [apply klt_irrefl|by apply klt_asym].
Qed.

Lemma keqb_eq a b : keqb a b = true ↔ a = b.
Proof. apply String.eqb_eq. Qed.

Lemma keqb_refl a : keqb a a = true.
Proof. by apply keqb_eq. Qed.

Lemma keqb_neq a b : keqb a b = false ↔ a ≠ b.
Proof. apply String.eqb_neq. Qed.

Lemma klt_ne a b : klt a b → a ≠ b.
Proof. intros H ->. by eapply klt_irrefl. Qed.

Lemma kleb_true a b : kleb a b = true ↔ a = b ∨ klt a b.
Proof. unfold kleb. rewrite negb_true_iff, kltb_false. naive_solver. Qed.

Lemma kleb_false a b : kleb a b = false ↔ klt b a.
Proof. unfold kleb. by rewrite negb_false_iff. Qed.

#[export] Instance kvlt_trans : Transitive kvlt.
Proof. intros ???. apply klt_trans. Qed.

Create HintDb okey discriminated.
#[export] Hint Resolve klt_trans klt_irrefl klt_asym klt_ne : okey.

(** ** Filters of concatenations *)

Lemma below_app k l1 l2 : below k (l1 ++ l2) = below k l1 ++ below k l2.
Proof. apply List.filter_app. Qed.
Lemma above_app k l1 l2 : above k (l1 ++ l2) = above k l1 ++ above k l2.
Proof. apply List.filter_app. Qed.
Lemma at_key_app k l1 l2 : at_key k (l1 ++ l2) = at_key k l1 ++ at_key k l2.
Proof. apply List.filter_app. Qed.

(** All keys of a list on one side of a key. *)
Definition all_lt (l : list kv) (k : string) : Prop := ∀ p, p ∈ l → klt p.1 k.
Definition all_gt (l : list kv) (k : string) : Prop := ∀ p, p ∈ l → klt k p.1.

Lemma all_lt_nil k : all_lt [] k.
Proof. intros p []%not_elem_of_nil. Qed.
Lemma all_gt_nil k : all_gt [] k.
Proof. intros p []%not_elem_of_nil. Qed.

Lemma all_lt_app l1 l2 k : all_lt (l1 ++ l2) k ↔ all_lt l1 k ∧ all_lt l2 k.
Proof. unfold all_lt. setoid_rewrite elem_of_app. naive_solver. Qed.
Lemma all_gt_app l1 l2 k : all_gt (l1 ++ l2) k ↔ all_gt l1 k ∧ all_gt l2 k.
Proof. unfold all_gt. setoid_rewrite elem_of_app. naive_solver. Qed.

Lemma all_lt_trans l k k' : all_lt l k → klt k k' → all_lt l k'.
Proof. intros H Hk p Hp. eapply klt_trans; eauto. Qed.
Lemma all_gt_trans l k k' : all_gt l k → klt k' k → all_gt l k'.
Proof. intros H Hk p Hp. eapply klt_trans; eauto. Qed.

Lemma filter_id {A : Type} (f : A → bool) l :
  (∀ x, x ∈ l → f x = true) → List.filter f l = l.
Proof.
  induction l as [|x l IH]; intros H; [done|]. simpl.
  rewrite (H x) by set_solver. f_equal. apply IH. set_solver.
Qed.

Lemma filter_nil {A : Type} (f : A → bool) l :
  (∀ x, x ∈ l → f x = false) → List.filter f l = [].
Proof.
  induction l as [|x l IH]; intros H; [done|]. simpl.
  rewrite (H x) by set_solver. apply IH. set_solver.
Qed.

Lemma below_all_lt l k : all_lt l k → below k l = l.
Proof. intros H. apply filter_id. apply H. Qed.
Lemma below_all_gt l k : all_gt l k → below k l = [].
Proof. intros H. apply filter_nil. intros p Hp. apply kltb_false. right. by apply H. Qed.
Lemma above_all_gt l k : all_gt l k → above k l = l.
Proof. intros H. apply filter_id. apply H. Qed.
Lemma above_all_lt l k : all_lt l k → above k l = [].
Proof. intros H. apply filter_nil. intros p Hp. apply kltb_false. right. by apply H. Qed.
Lemma at_key_all_lt l k : all_lt l k → at_key k l = [].
Proof. intros H. apply filter_nil. intros p Hp. apply keqb_neq, klt_ne. by apply H. Qed.
Lemma at_key_all_gt l k : all_gt l k → at_key k l = [].
Proof.
  intros H. apply filter_nil. intros p Hp. apply keqb_neq. intros <-.
  by eapply klt_irrefl, H.
Qed.

(** ** Sortedness of concatenations *)

Lemma sorted_kvs_app l1 l2 :
  sorted_kvs (l1 ++ l2) ↔
  sorted_kvs l1 ∧ sorted_kvs l2 ∧ ∀ p q, p ∈ l1 → q ∈ l2 → kvlt p q.
Proof. unfold sorted_kvs. rewrite StronglySorted_app. naive_solver. Qed.

Lemma sorted_kvs_cons p l : sorted_kvs (p :: l) ↔ all_gt l p.1 ∧ sorted_kvs l.
Proof.
  unfold sorted_kvs. split.
  - intros H. apply StronglySorted_inv in H as [H1 H2]. split; [|done].
    intros q Hq. rewrite Forall_forall in H2. by apply H2.
  - intros [H1 H2]. constructor; [done|]. apply Forall_forall. intros q Hq. by apply H1.
Qed.

Lemma sorted_kvs_nil : sorted_kvs [].
Proof. constructor. Qed.

Lemma sorted_kvs_mid l1 p l2 :
  sorted_kvs (l1 ++ p :: l2) ↔
  sorted_kvs l1 ∧ sorted_kvs l2 ∧ all_lt l1 p.1 ∧ all_gt l2 p.1.
Proof.
  rewrite sorted_kvs_app, sorted_kvs_cons. unfold all_lt, all_gt, kvlt. split.
  - intros (H1 & [H2 H3] & H4). split_and!; try done. intros q Hq. apply H4; set_solver.
  - intros (H1 & H2 & H3 & H4). split_and!; try done.
    intros q r Hq [->|Hr]%elem_of_cons; [by apply H3|]. eapply klt_trans; eauto.
Qed.

Lemma filter_elem_of {A : Type} (f : A → bool) l x :
  x ∈ List.filter f l ↔ x ∈ l ∧ f x = true.
Proof. rewrite !list_elem_of_In. apply List.filter_In. Qed.

Lemma all_lt_below k l : all_lt (below k l) k.
Proof. intros p [_ Hp]%filter_elem_of. done. Qed.
Lemma all_gt_above k l : all_gt (above k l) k.
Proof. intros p [_ Hp]%filter_elem_of. done. Qed.

Lemma sorted_filter (f : kv → bool) l : sorted_kvs l → sorted_kvs (List.filter f l).
Proof.
  induction l as [|p l IH]; intros H; [done|].
  apply sorted_kvs_cons in H as [H1 H2]. simpl.
  destruct (f p); [|auto]. apply sorted_kvs_cons. split; [|auto].
  intros q [Hq _]%filter_elem_of. by apply H1.
Qed.

Lemma sorted_below k l : sorted_kvs l → sorted_kvs (below k l).
Proof. apply sorted_filter. Qed.
Lemma sorted_above k l : sorted_kvs l → sorted_kvs (above k l).
Proof. apply sorted_filter. Qed.

(** ** The specification preserves sortedness *)

Lemma om_set_sorted k v l : sorted_kvs l → sorted_kvs (om_set k v l).
Proof.
  intros H. apply sorted_kvs_mid. split_and!; auto using sorted_below, sorted_above.
  - apply all_lt_below.
  - apply all_gt_above.
Qed.

Lemma om_delete_range_sorted k1 k2 l :
  kleb k1 k2 = true → sorted_kvs l → sorted_kvs (om_delete_range k1 k2 l).
Proof.
  intros Hle H. apply sorted_kvs_app. split_and!; auto using sorted_below, sorted_above.
  intros p q Hp Hq. apply all_lt_below in Hp. apply all_gt_above in Hq. unfold kvlt.
  apply kleb_true in Hle as [->|Hle]; [by eapply klt_trans|].
  eapply klt_trans; [done|]. by eapply klt_trans.
Qed.

Lemma om_delete_sorted k l : sorted_kvs l → sorted_kvs (om_delete k l).
Proof. apply om_delete_range_sorted. by apply kleb_true; left. Qed.

(** ** Map laws of the specification *)

Lemma at_key_elem k l p : p ∈ at_key k l ↔ p ∈ l ∧ p.1 = k.
Proof. unfold at_key. rewrite filter_elem_of. by rewrite keqb_eq. Qed.

Lemma om_get_Some k v l : sorted_kvs l → om_get k l = Some v ↔ (k, v) ∈ l.
Proof.
  intros Hs. unfold om_get. split.
  - destruct (at_key k l) as [|p l'] eqn:E; [done|]. intros [= <-].
    assert (p ∈ at_key k l) as [Hp <-]%at_key_elem by (rewrite E; set_solver).
    by destruct p.
  - intros Hin. apply list_elem_of_split in Hin as (l1 & l2 & ->).
    apply sorted_kvs_mid in Hs as (_ & _ & H1 & H2). simpl in *.
    rewrite at_key_app, at_key_all_lt by done. simpl. by rewrite keqb_refl.
Qed.

Lemma om_get_None k l : om_get k l = None ↔ ∀ v, (k, v) ∉ l.
Proof.
  unfold om_get. split.
  - destruct (at_key k l) eqn:E; [|done]. intros _ v Hin.
    assert ((k, v) ∈ at_key k l) as H by (by apply at_key_elem). rewrite E in H. set_solver.
  - intros H. destruct (at_key k l) as [|[k' v'] l'] eqn:E; [done|].
    assert ((k', v') ∈ at_key k l) as [Hin Hk]%at_key_elem by (rewrite E; set_solver).
    simpl in Hk. subst. by destruct (H v').
Qed.

Lemma om_get_set_eq k v l : om_get k (om_set k v l) = Some v.
Proof.
  unfold om_get, om_set. rewrite at_key_app, (at_key_all_lt (below k l)) by apply all_lt_below.
  simpl. by rewrite keqb_refl.
Qed.

Lemma at_key_filter_ne (f : kv → bool) k l :
  (∀ p, p.1 = k → f p = true) → at_key k (List.filter f l) = at_key k l.
Proof.
  intros Hf. induction l as [|p l IH]; [done|]. simpl.
  destruct (f p) eqn:E; simpl; destruct (keqb p.1 k) eqn:E2; rewrite ?IH; try done.
  apply keqb_eq in E2. rewrite Hf in E by done. done.
Qed.

Lemma at_key_below_above k k' l :
  k ≠ k' → at_key k' (below k l) ++ at_key k' (above k l) = at_key k' l.
Proof.
  intros Hne. destruct (klt_total k k') as [Hlt|[->|Hlt]]; [| done |].
  - rewrite (at_key_all_lt (below k l)), app_nil_l.
    + apply at_key_filter_ne. intros p Hp. by rewrite Hp.
    + eapply all_lt_trans; [apply all_lt_below|done].
  - rewrite (at_key_all_gt (above k l)), app_nil_r.
    + apply at_key_filter_ne. intros p Hp. by rewrite Hp.
    + eapply all_gt_trans; [apply all_gt_above|done].
Qed.

Lemma om_get_set_ne k k' v l : k ≠ k' → om_get k' (om_set k v l) = om_get k' l.
Proof.
  intros Hne. unfold om_get, om_set. rewrite at_key_app. simpl.
  rewrite (proj2 (keqb_neq k k')) by done. by rewrite at_key_below_above.
Qed.

Lemma om_get_delete_eq k l : om_get k (om_delete k l) = None.
Proof.
  apply om_get_None. intros v [[_ H]%filter_elem_of|[_ H]%filter_elem_of]%elem_of_app;
    by eapply klt_irrefl.
Qed.

Lemma om_get_delete_ne k k' l : k ≠ k' → om_get k' (om_delete k l) = om_get k' l.
Proof.
  intros Hne. unfold om_get, om_delete. rewrite at_key_app. by rewrite at_key_below_above.
Qed.

Lemma filter_disjoint_length {A : Type} (f g : A → bool) l :
  (∀ a, f a && g a = false) →
  length (List.filter f l) + length (List.filter g l) ≤ length l.
Proof.
  intros Hd. induction l as [|a l IH]; simpl; [lia|]. specialize (Hd a).
  destruct (f a), (g a); simpl in *; try done; lia.
Qed.

(** ** Operations at a split of the list

    A search splits the list into the entries below a key and the others. *)

Definition all_ge (l : list kv) (k : string) : Prop := ∀ p, p ∈ l → kleb k p.1 = true.

Lemma all_ge_app l1 l2 k : all_ge (l1 ++ l2) k ↔ all_ge l1 k ∧ all_ge l2 k.
Proof. unfold all_ge. setoid_rewrite elem_of_app. naive_solver. Qed.

Lemma all_gt_ge l k : all_gt l k → all_ge l k.
Proof. intros H p Hp. apply kleb_true. right. by apply H. Qed.

Lemma all_ge_tail l p k : sorted_kvs (p :: l) → all_ge (p :: l) k → all_gt l k.
Proof.
  intros [Hs _]%sorted_kvs_cons Hge q Hq.
  assert (kleb k p.1 = true) as [->|Hk]%kleb_true by (apply Hge; set_solver); [by apply Hs|].
  eapply klt_trans; [done|]. by apply Hs.
Qed.

Lemma all_ge_head_ne l p k :
  sorted_kvs (p :: l) → all_ge (p :: l) k → p.1 ≠ k → all_gt (p :: l) k.
Proof.
  intros Hs Hge Hne q [->|Hq]%elem_of_cons.
  - assert (kleb k p.1 = true) as [->|Hk]%kleb_true by (apply Hge; set_solver); done.
  - by eapply all_ge_tail.
Qed.

Lemma sorted_kvs_app_r l1 l2 : sorted_kvs (l1 ++ l2) → sorted_kvs l2.
Proof. by intros (_ & ? & _)%sorted_kvs_app. Qed.
Lemma sorted_kvs_app_l l1 l2 : sorted_kvs (l1 ++ l2) → sorted_kvs l1.
Proof. by intros (? & _ & _)%sorted_kvs_app. Qed.

Section split.
Context (k : string) (l1 l2 : list kv).
Hypothesis Hs : sorted_kvs (l1 ++ l2).
Hypothesis H1 : all_lt l1 k.

Lemma om_get_split : all_ge l2 k →
  om_get k (l1 ++ l2) =
  match l2 with p :: _ => if keqb p.1 k then Some p.2 else None | [] => None end.
Proof.
  intros H2. unfold om_get. rewrite at_key_app, (at_key_all_lt l1) by done. simpl.
  destruct l2 as [|p l]; [done|]. apply sorted_kvs_app_r in Hs.
  destruct (keqb p.1 k) eqn:E; simpl; rewrite E; [done|].
  rewrite at_key_all_gt; [done|]. by eapply all_ge_tail.
Qed.

Lemma om_set_split v : all_gt l2 k → om_set k v (l1 ++ l2) = l1 ++ (k, v) :: l2.
Proof.
  intros H2. unfold om_set. rewrite below_app, above_app.
  rewrite (below_all_lt l1), (below_all_gt l2), (above_all_lt l1), (above_all_gt l2) by done.
  by rewrite app_nil_r.
Qed.

Lemma om_delete_split : all_gt l2 k → om_delete k (l1 ++ l2) = l1 ++ l2.
Proof.
  intros H2. unfold om_delete. rewrite below_app, above_app.
  rewrite (below_all_lt l1), (below_all_gt l2), (above_all_lt l1), (above_all_gt l2) by done.
  by rewrite app_nil_r.
Qed.

Lemma om_next_split : all_gt l2 k →
  om_next k (l1 ++ l2) = match l2 with p :: _ => Some p.1 | [] => None end.
Proof.
  intros H2. unfold om_next. rewrite above_app, (above_all_lt l1), (above_all_gt l2) by done.
  done.
Qed.

Lemma om_prev_split : all_ge l2 k →
  om_prev k (l1 ++ l2) = match last l1 with Some p => Some p.1 | None => None end.
Proof.
  intros H2. unfold om_prev. rewrite below_app, (below_all_lt l1) by done.
  replace (below k l2) with (@nil kv); [by rewrite app_nil_r|]. symmetry. apply filter_nil.
  intros p Hp. specialize (H2 p Hp). unfold kleb in H2. by apply negb_true_iff in H2.
Qed.

End split.

Section split_at.
Context (k v0 : string) (l1 l2 : list kv).
Hypothesis Hs : sorted_kvs (l1 ++ (k, v0) :: l2).

Lemma at_split_sides : all_lt l1 k ∧ all_gt l2 k.
Proof. by apply sorted_kvs_mid in Hs as (_ & _ & ? & ?). Qed.

Lemma below_split_at : below k (l1 ++ (k, v0) :: l2) = l1.
Proof.
  destruct at_split_sides as [H1 H2]. rewrite below_app, (below_all_lt l1) by done. simpl.
  rewrite (proj2 (kltb_false k k)) by auto.
  by rewrite (below_all_gt l2), app_nil_r.
Qed.

Lemma above_split_at : above k (l1 ++ (k, v0) :: l2) = l2.
Proof.
  destruct at_split_sides as [H1 H2]. rewrite above_app, (above_all_lt l1) by done. simpl.
  rewrite (proj2 (kltb_false k k)) by auto. by apply above_all_gt.
Qed.

Lemma om_set_split_at v : om_set k v (l1 ++ (k, v0) :: l2) = l1 ++ (k, v) :: l2.
Proof. unfold om_set. by rewrite below_split_at, above_split_at. Qed.

Lemma om_delete_split_at : om_delete k (l1 ++ (k, v0) :: l2) = l1 ++ l2.
Proof. unfold om_delete. by rewrite below_split_at, above_split_at. Qed.

Lemma om_next_split_at :
  om_next k (l1 ++ (k, v0) :: l2) = match l2 with p :: _ => Some p.1 | [] => None end.
Proof. unfold om_next. by rewrite above_split_at. Qed.

End split_at.
