(* ===== verification/Util.v ===== *)
(** * Byte strings and small helpers (src/util/util.go)

    Byte slices and strings are [string]; a byte is an [ascii].  Integers are [Z],
    kept in range by the callers; the big-endian writers take the value modulo
    the width, as the conversions of the code do. *)
From stdpp Require Import base list sets strings sorting.
From Stdlib Require Import ZArith Lia Ascii.
From S2P Require Import Prelude OrderedMap.

(** ** The code *)

(** [byte(z)]. *)
Definition byte_chr (z : Z) : ascii := ascii_of_N (Z.to_N (z mod 256)).
Definition chr_byte (c : ascii) : Z := Z.of_N (N_of_ascii c).

(** [binary.BigEndian.PutUint64] and its 32-bit sibling: the most significant byte
    first. *)
Fixpoint be_bytes (n : nat) (z : Z) : string :=
  match n with
  | O => ""
  | S n' => String (byte_chr (Z.shiftr z (8 * Z.of_nat n'))) (be_bytes n' z)
  end.

(** [binary.BigEndian.Uint64(b)]: the value of the first [n] bytes; a shorter
    slice panics. *)
Fixpoint be_read_acc (n : nat) (acc : Z) (s : string) : res Z :=
  match n, s with
  | O, _ => Ok acc
  | S n', String c s' => be_read_acc n' (Z.lor (Z.shiftl acc 8) (chr_byte c)) s'
  | S _, EmptyString => Panic "index out of range"
  end.
Definition be_read (n : nat) (s : string) : res Z := be_read_acc n 0 s.

Definition ConcatBytes (bytes : list string) : string := foldr String.append "" bytes.
Definition Uint32Bytes (n : Z) : string := be_bytes 4 n.
Definition Uint64Bytes (n : Z) : string := be_bytes 8 n.

Definition IMin (i : Z) (ints : list Z) : Z :=
  fold_left (λ i v, if (v <? i)%Z then v else i) ints i.
Definition IMax (i : Z) (ints : list Z) : Z :=
  fold_left (λ i v, if (i <? v)%Z then v else i) ints i.

(** The first argument is not looked at. *)
Fixpoint IOr (i : Z) (ints : list Z) : Z :=
  match ints with
  | [] => 0
  | v :: ints' => if (v =? 0)%Z then IOr i ints' else v
  end.
Fixpoint SOr (i : string) (strings : list string) : string :=
  match strings with
  | [] => ""
  | v :: strings' => if keqb v "" then SOr i strings' else v
  end.

(** [s[:k]] and [s[k:]] on strings. *)
Definition str_to (s : string) (k : nat) : res string :=
  if String.length s <? k then Panic "slice bounds out of range" else Ok (String.substring 0 k s).
Definition str_from (s : string) (k : nat) : res string :=
  if String.length s <? k then Panic "slice bounds out of range"
  else Ok (String.substring k (String.length s - k) s).

(** ** Strings *)

Lemma str_app_cons x (a b : string) : String x a +:+ b = String x (a +:+ b).
Proof. done. Qed.
Lemma str_app_assoc (a b c : string) : (a +:+ b) +:+ c = a +:+ (b +:+ c).
Proof. induction a as [|x a IH]; [done|]. by rewrite !str_app_cons, IH. Qed.
Lemma str_app_nil (a : string) : a +:+ "" = a.
Proof. induction a as [|x a IH]; [done|]. by rewrite str_app_cons, IH. Qed.
Lemma str_length_app (a b : string) :
  String.length (a +:+ b) = String.length a + String.length b.
Proof. induction a as [|x a IH]; [done|]. rewrite str_app_cons. simpl. by rewrite IH. Qed.

Lemma substring_0_app (a b : string) : String.substring 0 (String.length a) (a +:+ b) = a.
Proof.
  induction a as [|x a IH]; [by destruct b|]. rewrite str_app_cons. simpl. by rewrite IH.
Qed.
Lemma substring_all (a : string) : String.substring 0 (String.length a) a = a.
Proof. pose proof (substring_0_app a "") as H. by rewrite str_app_nil in H. Qed.
Lemma substring_skip_app (a b : string) k :
  String.substring (String.length a) k (a +:+ b) = String.substring 0 k b.
Proof. induction a as [|x a IH]; [done|]. rewrite str_app_cons. simpl. by rewrite IH. Qed.

Lemma str_to_app a b : str_to (a +:+ b) (String.length a) = Ok a.
Proof.
  unfold str_to. rewrite str_length_app.
  destruct (Nat.ltb_spec (String.length a + String.length b) (String.length a)); [lia|].
  by rewrite substring_0_app.
Qed.
Lemma str_from_app a b : str_from (a +:+ b) (String.length a) = Ok b.
Proof.
  unfold str_from. rewrite str_length_app.
  destruct (Nat.ltb_spec (String.length a + String.length b) (String.length a)); [lia|].
  rewrite substring_skip_app.
  replace (String.length a + String.length b - String.length a) with (String.length b) by lia.
  by rewrite substring_all.
Qed.

(** The order of strings, byte by byte. *)
Lemma kltb_cons x y a b :
  kltb (String x a) (String y b) = (chr_byte x <? chr_byte y)%Z || ((chr_byte x =? chr_byte y)%Z && kltb a b).
Proof.
  unfold kltb, chr_byte. simpl. unfold Ascii.compare.
  destruct (N.compare_spec (N_of_ascii x) (N_of_ascii y)) as [E|E|E].
  - rewrite E, Z.ltb_irrefl, Z.eqb_refl. done.
  - rewrite (proj2 (Z.ltb_lt _ _)) by lia. done.
  - rewrite (proj2 (Z.ltb_ge _ _)), (proj2 (Z.eqb_neq _ _)) by lia. done.
Qed.

(** Common prefixes do not matter for the order. *)
Lemma kltb_prefix p a b : kltb (p +:+ a) (p +:+ b) = kltb a b.
Proof.
  induction p as [|x p IH]; [done|]. by rewrite !str_app_cons, kltb_cons, Z.ltb_irrefl, Z.eqb_refl.
Qed.

Lemma kltb_nil a : kltb a "" = false.
Proof. by destruct a. Qed.
Lemma kltb_nil_cons x a : kltb "" (String x a) = true.
Proof. done. Qed.

(** ** Big-endian integers *)

Lemma chr_byte_range c : (0 ≤ chr_byte c < 256)%Z.
Proof. unfold chr_byte. pose proof (N_ascii_bounded c). lia. Qed.

Lemma byte_chr_byte z : chr_byte (byte_chr z) = (z mod 256)%Z.
Proof.
  unfold chr_byte, byte_chr. pose proof (Z.mod_pos_bound z 256).
  rewrite N_ascii_embedding by lia. lia.
Qed.

Lemma be_bytes_length n z : String.length (be_bytes n z) = n.
Proof. induction n as [|n IH]; simpl; [done|]. by rewrite IH. Qed.

Lemma lor_shift_byte acc b :
  (0 ≤ acc)%Z → (0 ≤ b < 256)%Z → Z.lor (Z.shiftl acc 8) b = (acc * 256 + b)%Z.
Proof.
  intros Ha Hb. assert (Z.land (Z.shiftl acc 8) b = 0)%Z as E.
  2:{ pose proof (Z.add_lor_land (Z.shiftl acc 8) b) as H. rewrite E in H.
      rewrite Z.shiftl_mul_pow2 in * by lia. change (2 ^ 8)%Z with 256%Z in *. lia. }
  - apply Z.bits_inj'. intros k Hk. rewrite Z.land_spec, Z.shiftl_spec, Z.bits_0 by done.
    destruct (Z.ltb_spec k 8).
    + by rewrite Z.testbit_neg_r by lia.
    + rewrite (Z.bits_above_log2 b); [by rewrite andb_false_r|lia|].
      destruct (Z.eq_dec b 0) as [->|]; [simpl; lia|]. apply Z.log2_lt_pow2; [lia|].
      eapply Z.lt_le_trans; [apply Hb|]. change 256%Z with (2 ^ 8)%Z. apply Z.pow_le_mono_r; lia.
Qed.

Definition width (n : nat) : Z := (256 ^ Z.of_nat n)%Z.

Lemma width_S n : width (S n) = (256 * width n)%Z.
Proof. unfold width. rewrite Nat2Z.inj_succ, Z.pow_succ_r; lia. Qed.
Lemma width_pos n : (0 < width n)%Z.
Proof. unfold width. apply Z.pow_pos_nonneg; lia. Qed.
Lemma shiftr_width z n : Z.shiftr z (8 * Z.of_nat n) = (z / width n)%Z.
Proof.
  rewrite Z.shiftr_div_pow2 by lia. unfold width. f_equal.
  rewrite Z.pow_mul_r by lia. done.
Qed.

(** The bytes of a value from its parts. *)
Lemma be_bytes_mod n z z' : (z mod width n = z' mod width n)%Z → be_bytes n z = be_bytes n z'.
Proof.
  revert z z'. induction n as [|n IH]; intros z z' Hz; [done|]. simpl. rewrite !shiftr_width.
  pose proof (width_pos n) as Hw. rewrite width_S in Hz.
  assert (∀ x, (x mod (256 * width n) = width n * ((x / width n) mod 256) + x mod width n)%Z) as Hdec.
  { intros x. rewrite (Z.mul_comm 256), Z.rem_mul_r by lia. lia. }
  rewrite !Hdec in Hz.
  pose proof (Z.mod_pos_bound z (width n) Hw). pose proof (Z.mod_pos_bound z' (width n) Hw).
  assert ((z / width n) mod 256 = (z' / width n) mod 256 ∧ z mod width n = z' mod width n)%Z as [E1 E2].
  { apply (Z.div_mod_unique (width n)); lia. }
  f_equal; [unfold byte_chr; by rewrite E1|by apply IH].
Qed.

Lemma be_read_acc_bytes n acc z s :
  (0 ≤ acc)%Z → be_read_acc n acc (be_bytes n z +:+ s) = Ok (acc * width n + z mod width n)%Z.
Proof.
  revert acc. induction n as [|n IH]; intros acc Ha.
  - simpl. unfold width. simpl. rewrite Z.mod_1_r. f_equal. lia.
  - simpl be_bytes. rewrite str_app_cons. cbn [be_read_acc].
    rewrite lor_shift_byte by (done || apply chr_byte_range). rewrite byte_chr_byte, shiftr_width.
    pose proof (Z.mod_pos_bound (z / width n) 256).
    rewrite IH by lia. f_equal. rewrite width_S. pose proof (width_pos n).
    rewrite (Z.mul_comm 256 (width n)), Z.rem_mul_r by lia. lia.
Qed.

(** Reading back what was written. *)
Lemma be_read_bytes n z s :
  (0 ≤ z < width n)%Z → be_read n (be_bytes n z +:+ s) = Ok z.
Proof.
  intros Hz. unfold be_read. rewrite be_read_acc_bytes by lia. f_equal.
  rewrite Z.mod_small by done. lia.
Qed.

(** The byte order is the numeric order. *)
Lemma be_bytes_order n a b s s' :
  (0 ≤ a < width n)%Z → (0 ≤ b < width n)%Z →
  kltb (be_bytes n a +:+ s) (be_bytes n b +:+ s') = (a <? b)%Z || ((a =? b)%Z && kltb s s').
Proof.
  revert a b. induction n as [|n IH]; intros a b Ha Hb.
  - unfold width in *. simpl in *. assert (a = b) as -> by lia.
    rewrite Z.ltb_irrefl, Z.eqb_refl. done.
  - simpl be_bytes. rewrite !str_app_cons, kltb_cons, !byte_chr_byte, !shiftr_width.
    rewrite width_S in *. pose proof (width_pos n) as Hw.
    assert (0 ≤ a / width n < 256)%Z as Ha'.
    { split; [apply Z.div_pos; lia|]. apply Z.div_lt_upper_bound; lia. }
    assert (0 ≤ b / width n < 256)%Z as Hb'.
    { split; [apply Z.div_pos; lia|]. apply Z.div_lt_upper_bound; lia. }
    rewrite !(Z.mod_small (_ / _)) by done.
    rewrite (be_bytes_mod n a (a mod width n)), (be_bytes_mod n b (b mod width n))
      by (by rewrite Z.mod_mod by lia).
    rewrite IH by (apply Z.mod_pos_bound; lia).
    pose proof (Z.div_mod a (width n)). pose proof (Z.div_mod b (width n)).
    pose proof (Z.mod_pos_bound a (width n) Hw). pose proof (Z.mod_pos_bound b (width n) Hw).
    destruct (Z.ltb_spec (a / width n) (b / width n)), (Z.eqb_spec (a / width n) (b / width n)),
      (Z.ltb_spec (a mod width n) (b mod width n)), (Z.eqb_spec (a mod width n) (b mod width n)),
      (Z.ltb_spec a b), (Z.eqb_spec a b); simpl; try done; exfalso; nia.
Qed.

Lemma be_bytes_ltb n a b :
  (0 ≤ a < width n)%Z → (0 ≤ b < width n)%Z → kltb (be_bytes n a) (be_bytes n b) = (a <? b)%Z.
Proof.
  intros Ha Hb. rewrite <- (str_app_nil (be_bytes n a)), <- (str_app_nil (be_bytes n b)).
  rewrite be_bytes_order by done. by rewrite kltb_nil, andb_false_r, orb_false_r.
Qed.

Lemma be_bytes_inj n a b :
  (0 ≤ a < width n)%Z → (0 ≤ b < width n)%Z → be_bytes n a = be_bytes n b → a = b.
Proof.
  intros Ha Hb E. pose proof (be_read_bytes n a "" Ha) as H1.
  rewrite E, be_read_bytes in H1 by done. congruence.
Qed.

Lemma width_8 : width 8 = 18446744073709551616%Z.
Proof. done. Qed.

(** ** A printable encoding of positive numbers

    With a [Countable] type it gives a concrete codec, for examples. *)
Fixpoint pos_string (p : positive) : string :=
  match p with
  | xH => "h"
  | xO p => String "o"%char (pos_string p)
  | xI p => String "i"%char (pos_string p)
  end.
Fixpoint string_pos (s : string) : option positive :=
  match s with
  | String "h"%char EmptyString => Some xH
  | String "o"%char s' => xO <$> string_pos s'
  | String "i"%char s' => xI <$> string_pos s'
  | _ => None
  end.
Lemma string_pos_string p : string_pos (pos_string p) = Some p.
Proof. induction p as [p IH|p IH|]; simpl; [by rewrite IH..|done]. Qed.
