(* ===== verification/IBNode.v ===== *)
(** * ibtree nodes (src/ibtree/ibtree.go, nodedata.go, ibtree_greenpack*.go)

    The data of the functional B+ tree: a [Node] with its children, each child
    an entry that carries a key, a value and, when the subtree below it has been
    changed in memory, that subtree.  An interior entry without an in-memory
    subtree names a stored block, which the tree's backend loads.

    Nodes are never changed after they are published, so a pointer to a node is
    modelled by the node itself. *)
From stdpp Require Import base list sets strings sorting.
From Stdlib Require Import ZArith Lia.
From S2P Require Import Prelude OrderedMap.

Abbreviation BlockId := string (only parsing).
Abbreviation Key := string (only parsing).

(** ** Data *)

Inductive Node : Type :=
| mkNode (leafy : bool) (children : list NodeDataChild) (bid : option BlockId)
with NodeDataChild : Type :=
| mkChild (key : Key) (value : string) (child : option Node).

Definition Leafy (n : Node) : bool := let 'mkNode l _ _ := n in l.
Definition Children (n : Node) : list NodeDataChild := let 'mkNode _ c _ := n in c.
Definition blockId (n : Node) : option BlockId := let 'mkNode _ _ b := n in b.
Definition cKey (c : NodeDataChild) : Key := let 'mkChild k _ _ := c in k.
Definition cValue (c : NodeDataChild) : string := let 'mkChild _ v _ := c in v.
Definition childNode (c : NodeDataChild) : option Node := let 'mkChild _ _ n := c in n.

(** The persisted part of a node: the entries without their subtrees. *)
Record NodeData : Type := mkNodeData {
  nd_Leafy : bool;
  nd_Children : list (Key * string)
}.

Definition child_of_pair (p : Key * string) : NodeDataChild := mkChild p.1 p.2 None.
Definition pair_of_child (c : NodeDataChild) : Key * string := (cKey c, cValue c).

Definition node_of_data (bid : option BlockId) (nd : NodeData) : Node :=
  mkNode (nd_Leafy nd) (map child_of_pair (nd_Children nd)) bid.
Definition data_of_node (n : Node) : NodeData :=
  mkNodeData (Leafy n) (map pair_of_child (Children n)).

(** ** Equality of nodes and entries

    Pointer comparisons of the source are comparisons of (immutable) values. *)

Fixpoint node_eqb (a b : Node) {struct a} : bool :=
  match a, b with
  | mkNode l1 c1 b1, mkNode l2 c2 b2 =>
      Bool.eqb l1 l2 &&
      (fix go (x y : list NodeDataChild) {struct x} : bool :=
         match x, y with
         | [], [] => true
         | u :: x', v :: y' => child_eqb u v && go x' y'
         | _, _ => false
         end) c1 c2 &&
      bool_decide (b1 = b2)
  end
with child_eqb (a b : NodeDataChild) {struct a} : bool :=
  match a, b with
  | mkChild k1 v1 n1, mkChild k2 v2 n2 =>
      keqb k1 k2 && keqb v1 v2 &&
      match n1, n2 with
      | None, None => true
      | Some m1, Some m2 => node_eqb m1 m2
      | _, _ => false
      end
  end.

Definition ochild_eqb (a b : option NodeDataChild) : bool :=
  match a, b with
  | Some x, Some y => child_eqb x y
  | None, None => true
  | _, _ => false
  end.

(** ** Sizes (NodeData.Msgsize)

    The widths of the message-pack primitives belong to the greenpack library. *)

Class MsgpSizes := {
  BoolSize : Z;
  ArrayHeaderSize : Z;
  StringPrefixSize : Z
}.

Class MsgpSizesOk `{MsgpSizes} : Prop := {
  BoolSize_nonneg : (0 ≤ BoolSize)%Z;
  ArrayHeaderSize_nonneg : (0 ≤ ArrayHeaderSize)%Z;
  StringPrefixSize_nonneg : (0 ≤ StringPrefixSize)%Z
}.

Section sizes.
Context `{MsgpSizes}.

Definition slen (s : string) : Z := Z.of_nat (String.length s).

Definition entry_size (k v : string) : Z :=
  (1 + StringPrefixSize + slen k + StringPrefixSize + slen v)%Z.

Definition child_size (c : NodeDataChild) : Z := entry_size (cKey c) (cValue c).

Definition node_overhead : Z := (1 + BoolSize + ArrayHeaderSize)%Z.

Fixpoint children_size (cl : list NodeDataChild) : Z :=
  match cl with
  | [] => 0
  | c :: cl' => child_size c + children_size cl'
  end%Z.

Definition Msgsize (n : Node) : Z := (node_overhead + children_size (Children n))%Z.

End sizes.

(** ** Structure check (NodeData.CheckNodeStructure) *)

Fixpoint CheckNodeStructure_loop (prev : option Key) (cl : list NodeDataChild) : res unit :=
  match cl with
  | [] => Ok tt
  | c :: cl' =>
      if keqb (cKey c) "" then Panic "tree broke: empty key"
      else
        match prev with
        | Some k0 =>
            if kleb (cKey c) k0 then Panic "tree broke: keys out of order"
            else CheckNodeStructure_loop (Some (cKey c)) cl'
        | None => CheckNodeStructure_loop (Some (cKey c)) cl'
        end
  end.

Definition CheckNodeStructure (n : Node) : res unit :=
  CheckNodeStructure_loop None (Children n).

(** ** The tree configuration (type Tree) *)

Definition hashSize : nat := 32.
Definition minimumNodeMaximumSize : Z := 512.
Definition maximumTreeDepth : nat := 10.

Record Tree : Type := mkTree {
  NodeMaximumSize : Z;
  halfSize : Z;
  smallSize : Z;
  backend : option (BlockId → option NodeData);
  placeholderValue : string
}.


Definition setNodeMaximumSize (maximumSize : Z) (t : Tree) : Tree :=
  let half := Z.quot maximumSize 2 in
  mkTree maximumSize half (Z.quot half 2) (backend t) (placeholderValue t).

(** [Tree{NodeMaximumSize: n}.Init(backend)]. *)
Definition Tree_Init (nodeMaximumSize : Z) (be : option (BlockId → option NodeData)) : Tree :=
  let maximumSize :=
    if (nodeMaximumSize <? minimumNodeMaximumSize)%Z then minimumNodeMaximumSize
    else nodeMaximumSize in
  let t := setNodeMaximumSize maximumSize (mkTree 0 0 0 None "") in
  mkTree (NodeMaximumSize t) (halfSize t) (smallSize t) be
    ("hash-" +:+ string_repeat "x" (hashSize - 5)).

Definition NewRoot : Node := mkNode true [] None.

Section tree.
Context (t : Tree).

(** Tree.LoadRoot: nil when the backend has no such node. *)
Definition LoadRoot (bid : BlockId) : res (option Node) :=
  match backend t with
  | None => Panic "invalid memory address or nil pointer dereference"
  | Some load =>
      match load bid with
      | None => Ok None
      | Some nd => Ok (Some (node_of_data (Some bid) nd))
      end
  end.

(** The subtree of an entry: in memory, or loaded (Node.childNode). *)
Definition resolve (c : NodeDataChild) : res (option Node) :=
  match childNode c with
  | Some n => Ok (Some n)
  | None =>
      match backend t with
      | None => Ok None
      | Some load =>
          let bid := cValue c in
          match load bid with
          | None => Panic "childNode - backend LoadNode failed"
          | Some nd => Ok (Some (node_of_data (Some bid) nd))
          end
      end
  end.

Definition Node_childNode (n : Node) (idx : Z) : res (option Node) :=
  let! c := go_at (Children n) idx in
  resolve c.

End tree.

(** ** Iteration over the in-memory part of a tree *)

Fixpoint iterateLeafFirst {S : Type} (f : Node → S → res S) (n : Node) (s : S)
    {struct n} : res S :=
  let! s1 :=
    (fix go (cl : list NodeDataChild) (s : S) {struct cl} : res S :=
       match cl with
       | [] => Ok s
       | mkChild _ _ sub :: cl' =>
           let! s' := match sub with
                      | Some m => iterateLeafFirst f m s
                      | None => Ok s
                      end in
           go cl' s'
       end) (let 'mkNode _ c _ := n in c) s in
  f n s1.

Definition checkTreeStructure (n : Node) : res unit :=
  iterateLeafFirst (fun m _ => CheckNodeStructure m) n tt.

Definition nestedNodeCount (n : Node) : res nat :=
  iterateLeafFirst (fun _ cnt => Ok (S cnt)) n 0.

(** ** Induction over nodes and entries *)

Section node_ind.
Context (P : Node → Prop) (Q : NodeDataChild → Prop).
Hypothesis Hnode : ∀ l cl b, Forall Q cl → P (mkNode l cl b).
Hypothesis Hleaf : ∀ k v, Q (mkChild k v None).
Hypothesis Hsub : ∀ k v m, P m → Q (mkChild k v (Some m)).

Fixpoint node_ind' (n : Node) : P n :=
  match n with
  | mkNode l cl b =>
      Hnode l cl b
        ((fix go (cl : list NodeDataChild) : Forall Q cl :=
            match cl with
            | [] => List.Forall_nil Q
            | c :: cl' => List.Forall_cons Q c cl' (child_ind' c) (go cl')
            end) cl)
  end
with child_ind' (c : NodeDataChild) : Q c :=
  match c with
  | mkChild k v None => Hleaf k v
  | mkChild k v (Some m) => Hsub k v m (node_ind' m)
  end.

End node_ind.

Definition node_eqb_ok (a : Node) : Prop := ∀ b, node_eqb a b = true ↔ a = b.
Definition child_eqb_ok (a : NodeDataChild) : Prop := ∀ b, child_eqb a b = true ↔ a = b.

Lemma node_eqb_ok_step l cl b : Forall child_eqb_ok cl → node_eqb_ok (mkNode l cl b).
Proof.
  intros HF [l2 cl2 b2]. cbn [node_eqb].
  rewrite !andb_true_iff, eqb_true_iff, bool_decide_eq_true.
  set (go := fix go (x y : list NodeDataChild) {struct x} : bool := _).
  assert (∀ cl2, go cl cl2 = true ↔ cl = cl2) as Hgo.
  { clear cl2. induction HF as [|c cl Hc HF IH]; intros [|c2 cl2]; simpl; try done.
    rewrite andb_true_iff, (Hc c2), IH. naive_solver. }
  rewrite Hgo. naive_solver.
Qed.

Lemma node_child_eqb_ok : (∀ n, node_eqb_ok n) ∧ (∀ c, child_eqb_ok c).
Proof.
  assert (∀ k v, child_eqb_ok (mkChild k v None)) as H2.
  { intros k v [k2 v2 [m|]]; cbn [child_eqb]; rewrite !andb_true_iff, ?keqb_eq; naive_solver. }
  assert (∀ k v m, node_eqb_ok m → child_eqb_ok (mkChild k v (Some m))) as H3.
  { intros k v m Hm [k2 v2 [m2|]]; cbn [child_eqb];
      rewrite !andb_true_iff, ?keqb_eq, ?(Hm m2); naive_solver. }
  split.
  - apply (node_ind' node_eqb_ok child_eqb_ok); auto using node_eqb_ok_step.
  - apply (child_ind' node_eqb_ok child_eqb_ok); auto using node_eqb_ok_step.
Qed.

Lemma node_eqb_eq a b : node_eqb a b = true ↔ a = b.
Proof. apply node_child_eqb_ok. Qed.
Lemma child_eqb_eq a b : child_eqb a b = true ↔ a = b.
Proof. apply node_child_eqb_ok. Qed.
Lemma child_eqb_refl a : child_eqb a a = true.
Proof. by apply child_eqb_eq. Qed.
Lemma node_eqb_refl a : node_eqb a a = true.
Proof. by apply node_eqb_eq. Qed.

Lemma ochild_eqb_eq a b : ochild_eqb a b = true ↔ a = b.
Proof. destruct a, b; simpl; rewrite ?child_eqb_eq; naive_solver. Qed.

#[export] Instance NodeDataChild_eq_dec : EqDecision NodeDataChild.
Proof.
  intros a b. destruct (child_eqb a b) eqn:E.
  - left. by apply child_eqb_eq.
  - right. intros ->. by rewrite child_eqb_refl in E.
Defined.

#[export] Instance Node_eq_dec : EqDecision Node.
Proof.
  intros a b. destruct (node_eqb a b) eqn:E.
  - left. by apply node_eqb_eq.
  - right. intros ->. by rewrite node_eqb_refl in E.
Defined.

(** ** Lemmas on sizes and on the structure check *)

Section sizes_facts.
Context `{Hsz : MsgpSizes} `{!MsgpSizesOk}.

Lemma children_size_app l1 l2 :
  children_size (l1 ++ l2) = (children_size l1 + children_size l2)%Z.
Proof. induction l1 as [|c l1 IH]; simpl; lia. Qed.

Lemma child_size_pos c : (0 < child_size c)%Z.
Proof.
  unfold child_size, entry_size, slen. pose proof StringPrefixSize_nonneg. lia.
Qed.

Lemma children_size_nonneg l : (0 ≤ children_size l)%Z.
Proof. induction l as [|c l IH]; simpl; [lia|]. pose proof (child_size_pos c). lia. Qed.

Lemma children_size_bound B l :
  Forall (λ c, (child_size c ≤ B)%Z) l → (children_size l ≤ B * Z.of_nat (length l))%Z.
Proof. induction 1 as [|c l Hc HF IH]; simpl; lia. Qed.

End sizes_facts.

Lemma CheckNodeStructure_loop_Ok prev cl :
  Forall (λ c, cKey c ≠ "") cl →
  match prev with Some k => ∀ c, c ∈ cl → klt k (cKey c) | None => True end →
  StronglySorted (λ a b, klt (cKey a) (cKey b)) cl →
  CheckNodeStructure_loop prev cl = Ok tt.
Proof.
  revert prev. induction cl as [|c cl IH]; intros prev Hne Hprev Hs; [done|]. simpl.
  apply Forall_cons in Hne as [Hc Hne]. apply StronglySorted_inv in Hs as [Hs Hall].
  rewrite (proj2 (keqb_neq _ _)) by done.
  assert (CheckNodeStructure_loop (Some (cKey c)) cl = Ok tt) as Hrec.
  { apply IH; [done| |done]. intros c' Hc'. rewrite Forall_forall in Hall. by apply Hall. }
  destruct prev as [k0|]; [|done].
  rewrite (proj2 (kleb_false _ _)); [done|]. apply Hprev. set_solver.
Qed.

Lemma CheckNodeStructure_loop_inv prev cl :
  CheckNodeStructure_loop prev cl = Ok tt →
  Forall (λ c, cKey c ≠ "") cl ∧
  StronglySorted (λ a b, klt (cKey a) (cKey b)) cl ∧
  match prev with Some k => ∀ c, c ∈ cl → klt k (cKey c) | None => True end.
Proof.
  revert prev. induction cl as [|c cl IH]; intros prev H.
  - split_and!; [done|constructor|]. destruct prev; [|done]. set_solver.
  - simpl in H. destruct (keqb (cKey c) "") eqn:Ek; [done|]. apply keqb_neq in Ek.
    assert (CheckNodeStructure_loop (Some (cKey c)) cl = Ok tt ∧
            match prev with Some k => klt k (cKey c) | None => True end) as [Hrec Hp].
    { destruct prev as [k0|]; [|done]. destruct (kleb (cKey c) k0) eqn:E; [done|].
      by apply kleb_false in E. }
    apply IH in Hrec as (H1 & H2 & H3). split_and!.
    + by constructor.
    + constructor; [done|]. apply Forall_forall. apply H3.
    + destruct prev as [k0|]; [|done]. intros c' [->|Hc']%elem_of_cons; [done|].
      eapply klt_trans; eauto.
Qed.
