(* ===== verification/IBStack.v ===== *)
(** * The cursor of the tree (src/ibtree/ibstack.go)

    A [Stack] is a path from the root of a tree to a current node, kept in two
    arrays of fixed length.  Mutations rewrite the current node (nodes are
    copied, never changed) and [pop] rewrites the parents on the way up.  Nodes
    below the current one are a cache of the last walk.

    Every operation takes the stack and returns the new one; a run-time panic of
    the code is [Panic].  Loops that walk the path are bounded by the array
    length, which the code's own indexing enforces; the rebalancing loop of
    [commit] takes its bound as an argument. *)
From stdpp Require Import base list sets strings sorting.
From Stdlib Require Import ZArith Lia.
From S2P Require Import Prelude OrderedMap IBNode.

Record Stack : Type := mkStack {
  nodes : list (option Node);
  indexes : list Z;
  top : nat;
  maxtop : nat;
  smallCount : Z
}.

#[export] Instance Stack_eq_dec : EqDecision Stack.
Proof. solve_decision. Defined.

Definition emptyStack : Stack :=
  mkStack (replicate maximumTreeDepth None) (replicate maximumTreeDepth 0%Z) 0 0 0.

Definition with_nodes (ns : list (option Node)) (st : Stack) : Stack :=
  mkStack ns (indexes st) (top st) (maxtop st) (smallCount st).
Definition with_indexes (ix : list Z) (st : Stack) : Stack :=
  mkStack (nodes st) ix (top st) (maxtop st) (smallCount st).
Definition with_top (k : nat) (st : Stack) : Stack :=
  mkStack (nodes st) (indexes st) k (maxtop st) (smallCount st).
Definition with_maxtop (k : nat) (st : Stack) : Stack :=
  mkStack (nodes st) (indexes st) (top st) k (smallCount st).
Definition with_smallCount (c : Z) (st : Stack) : Stack :=
  mkStack (nodes st) (indexes st) (top st) (maxtop st) c.

(** The bound of the loops along the path: one more than the array length. *)
Definition depth_fuel : nat := S maximumTreeDepth.
Arguments depth_fuel : simpl never.

Section stack.
Context `{MsgpSizes} (t : Tree).

(** ** Accessors *)

Definition node_ptr (st : Stack) : res (option Node) := go_index (nodes st) (top st).
Definition node (st : Stack) : res Node :=
  let! p := node_ptr st in deref p.
Definition index (st : Stack) : res Z := go_index (indexes st) (top st).

Definition child (st : Stack) : res (option NodeDataChild) :=
  let! n := node st in
  let! i := index st in
  let cl := Children n in
  if (i <? 0)%Z || (Z.of_nat (length cl) <=? i)%Z then Ok None
  else let! c := go_at cl i in Ok (Some c).

(** ** Index and cache *)

Definition invalidateSubNodes (st : Stack) : Stack :=
  with_maxtop (top st)
    (with_nodes
       (imap (λ i n, if (top st <? i) && (i <=? maxtop st) then None else n) (nodes st)) st).

Definition setIndex (idx : Z) (st : Stack) : res Stack :=
  let! cur := index st in
  if (idx =? cur)%Z then Ok st
  else
    let! ix := go_update (indexes st) (top st) idx in
    Ok (invalidateSubNodes (with_indexes ix st)).

Definition nextIndex (st : Stack) : res Stack :=
  let! cur := index st in
  setIndex (cur + 1) st.

Definition Reset (st : Stack) : res Stack :=
  let! r := go_index (nodes st) 0 in
  match r with
  | None => Panic "Reset() on uninitialized Stack"
  | Some _ =>
      if 0 <? top st then Panic "uncommitted state in reset"
      else setIndex 0 st
  end.

Definition Stack_childNode (idx : Z) (st : Stack) : res (option Node) :=
  let! n := node st in
  if (idx <? 0)%Z || (Z.of_nat (length (Children n)) <=? idx)%Z then Ok None
  else
    let! cur := index st in
    if (cur =? idx)%Z then
      let! cached := go_index (nodes st) (S (top st)) in
      match cached with
      | Some m => Ok (Some m)
      | None => Node_childNode t n idx
      end
    else Node_childNode t n idx.

(** ** Moving along the path *)

Definition push (idx : Z) (nd : option Node) (st : Stack) : res Stack :=
  let! st := setIndex idx st in
  let st := with_top (S (top st)) st in
  let st := if maxtop st <? top st then with_maxtop (top st) st else st in
  let! ns := go_update (nodes st) (top st) nd in
  setIndex 0 (with_nodes ns st).

Definition popNode (st : Stack) : res (option Node * Stack) :=
  let! n := node_ptr st in
  match top st with
  | O => Panic "popped beyond top! madness!"
  | S k => Ok (n, with_top k st)
  end.

Definition pushIndex (idx : Z) (st : Stack) : res Stack :=
  let! n := Stack_childNode idx st in
  push idx n st.

Definition pushCurrentIndex (st : Stack) : res Stack :=
  let! idx := index st in
  pushIndex idx st.

(** ** Rewriting the current node *)

Definition rewriteNodeChildren (children : list NodeDataChild) (st : Stack) : res Stack :=
  let! o := node st in
  let n := mkNode (Leafy o) children None in
  let! ns := go_update (nodes st) (top st) (Some n) in
  let st := invalidateSubNodes (with_nodes ns st) in
  let st := if Leafy n && (Msgsize n <=? smallSize t)%Z
            then with_smallCount (smallCount st + 1) st else st in
  let! _ := CheckNodeStructure n in
  Ok st.

(** A copy of the slice has the same elements. *)
Definition rewriteNodeChildrenWithCopyOf (ochildren : list NodeDataChild) (st : Stack)
  : res Stack :=
  rewriteNodeChildren ochildren st.

(** The new slice is the old one up to [idx], the new child if there is one,
    and the old one from [oidx]. *)
Definition rewriteAtIndex (replace : bool) (c : option NodeDataChild) (st : Stack) : res Stack :=
  let! n := node st in
  let! idx := index st in
  match replace, c with
  | false, None => Panic "nonsense argument - non-replace with nil?"
  | _, _ =>
      let oidx := if replace then (idx + 1)%Z else idx in
      if (idx <? 0)%Z then Panic "index out of range"
      else
        let! before := slice_to (Children n) idx in
        let! after := slice_from (Children n) oidx in
        rewriteNodeChildren (before ++ match c with Some x => [x] | None => [] end ++ after) st
  end.

Definition mkSubtreeChild (k : Key) (n : Node) : NodeDataChild :=
  mkChild k (placeholderValue t) (Some n).

Definition pop (st : Stack) : res Stack :=
  let! r := popNode st in
  let '(p, st) := r in
  let! n := deref p in
  match Children n with
  | c0 :: _ => rewriteAtIndex true (Some (mkSubtreeChild (cKey c0) n)) st
  | [] => rewriteAtIndex true None st
  end.

Fixpoint pop_all (fuel : nat) (st : Stack) : res Stack :=
  match top st with
  | O => Ok st
  | S _ =>
      match fuel with
      | O => NoFuel
      | S fuel' => let! st := pop st in pop_all fuel' st
      end
  end.

(** ** Search *)

Definition search_leaf_index (key : Key) (cl : list NodeDataChild) : Z :=
  Z.of_nat (sort_Search (length cl)
    (λ i, match cl !! i with Some c => kleb key (cKey c) | None => true end)).

Definition search_interior_index (key : Key) (cl : list NodeDataChild) : Z :=
  let idx := (Z.of_nat (sort_Search (length cl)
    (λ i, match cl !! i with Some c => kltb key (cKey c) | None => true end)) - 1)%Z in
  if (idx <? 0)%Z then 0%Z else idx.

Fixpoint search_loop (fuel : nat) (key : Key) (n : Node) (st : Stack) : res Stack :=
  match fuel with
  | O => NoFuel
  | S fuel' =>
      if Leafy n then setIndex (search_leaf_index key (Children n)) st
      else
        let idx := search_interior_index key (Children n) in
        let! cn := Stack_childNode idx st in
        match cn with
        | None => Panic "nil child node"
        | Some m =>
            let! st := push idx (Some m) st in
            search_loop fuel' key m st
        end
  end.

Definition search (key : Key) (st : Stack) : res Stack :=
  let! p := go_index (nodes st) 0 in
  let! n := deref p in
  search_loop depth_fuel key n (with_top 0 st).

(** ** Walking over the leaves *)

(** Down the last (first) entries to a leaf; [last] selects the direction. *)
Fixpoint descend (fuel : nat) (last : bool) (idx : Z) (st : Stack) : res (Z * Stack) :=
  match fuel with
  | O => NoFuel
  | S fuel' =>
      let! n := node st in
      if Leafy n then Ok (idx, st)
      else
        let! st := pushIndex idx st in
        let! n := node st in
        descend fuel' last (if last then Z.of_nat (length (Children n)) - 1 else 0)%Z st
  end.

Fixpoint goPreviousLeaf_loop (fuel : nat) (st : Stack) : res (bool * Stack) :=
  match fuel with
  | O => NoFuel
  | S fuel' =>
      let! i := index st in
      let idx := (i - 1)%Z in
      if (0 <=? idx)%Z then
        let! r := descend depth_fuel true idx st in
        let '(idx, st) := r in
        let! st := setIndex idx st in
        Ok (true, st)
      else if top st =? 0 then
        if (i =? 0)%Z then
          let! st := setIndex (-1) st in
          Ok (true, st)
        else Ok (false, st)
      else
        let! r := popNode st in
        goPreviousLeaf_loop fuel' r.2
  end.

Definition goPreviousLeaf (st : Stack) : res (bool * Stack) :=
  goPreviousLeaf_loop depth_fuel st.

Fixpoint goNextLeaf_loop (fuel : nat) (st : Stack) : res (bool * Stack) :=
  match fuel with
  | O => NoFuel
  | S fuel' =>
      let! i := index st in
      let idx := (i + 1)%Z in
      let! n := node st in
      let lidx := Z.of_nat (length (Children n)) in
      if (idx <? lidx)%Z then
        let! st :=
          if Leafy n then setIndex idx st
          else let! r := descend depth_fuel false idx st in Ok r.2 in
        Ok (true, invalidateSubNodes st)
      else if top st =? 0 then
        if (i =? lidx)%Z then Ok (false, st)
        else
          let! st := setIndex lidx st in
          Ok (true, st)
      else
        let! r := popNode st in
        goNextLeaf_loop fuel' r.2
  end.

Definition goNextLeaf (st : Stack) : res (bool * Stack) :=
  goNextLeaf_loop depth_fuel st.

(** ** Iteration over the changed nodes, leaves first *)

(** The first entry from index [i] on that satisfies [p]. *)
Fixpoint find_from (p : NodeDataChild → bool) (i : nat) (cl : list NodeDataChild)
  : option (nat * NodeDataChild) :=
  match cl with
  | [] => None
  | c :: cl' => if p c then Some (i, c) else find_from p (S i) cl'
  end.

Definition has_interior_subtree (c : NodeDataChild) : bool :=
  match childNode c with Some m => negb (Leafy m) | None => false end.
Definition has_subtree (c : NodeDataChild) : bool :=
  match childNode c with Some _ => true | None => false end.

Fixpoint goDownLeft_loop (fuel : nat) (st : Stack) : res Stack :=
  match fuel with
  | O => NoFuel
  | S fuel' =>
      let! n := node st in
      match find_from has_interior_subtree 0 (Children n) with
      | None => Ok st
      | Some (i, c) =>
          let! st := push (Z.of_nat i) (childNode c) st in
          goDownLeft_loop fuel' st
      end
  end.

Definition goDownLeft (st : Stack) : res Stack := goDownLeft_loop depth_fuel st.

Fixpoint goDownLeftAny_loop (fuel : nat) (idx : Z) (st : Stack) : res Stack :=
  match fuel with
  | O => NoFuel
  | S fuel' =>
      let! n := node st in
      if Leafy n then Ok st
      else
        let! v := Stack_childNode idx st in
        let! st := push idx v st in
        goDownLeftAny_loop fuel' 0 st
  end.

Definition goDownLeftAny (st : Stack) : res Stack :=
  let! idx := index st in
  goDownLeftAny_loop depth_fuel idx st.

Definition moveRight (st : Stack) : res (bool * Stack) :=
  let! n := node st in
  let! i := index st in
  let start := Z.to_nat (i + 1) in
  match find_from has_subtree start (drop start (Children n)) with
  | Some (j, c) =>
      if has_interior_subtree c then
        let! st := pushIndex (Z.of_nat j) st in
        let! st := goDownLeft st in
        Ok (true, st)
      else
        let! st := setIndex (Z.of_nat j) st in
        Ok (true, st)
  | None =>
      if top st =? 0 then Ok (false, st)
      else
        let! st := pop st in
        Ok (true, st)
  end.

Fixpoint iterateMutating_loop (fuel : nat) (f : Stack → res Stack) (st : Stack) : res Stack :=
  match fuel with
  | O => NoFuel
  | S fuel' =>
      let! on := child st in
      match on with
      | None => Panic "invalid memory address or nil pointer dereference"
      | Some onc =>
          let! st := if has_subtree onc then f st else Ok st in
          let! cur := child st in
          if ochild_eqb cur on then
            let! r := moveRight st in
            let '(moved, st) := r in
            if moved then
              let! nn := child st in
              if ochild_eqb on nn then Panic "moveRight returned same child"
              else iterateMutating_loop fuel' f st
            else Ok st
          else iterateMutating_loop fuel' f st
      end
  end.

Definition iterateMutatingChildLeafFirst (fuel : nat) (f : Stack → res Stack) (st : Stack)
  : res (Node * Stack) :=
  let! st := Reset st in
  let! n := node st in
  if Leafy n then Ok (n, st)
  else
    let! st := goDownLeft st in
    let! st := iterateMutating_loop fuel f st in
    let! st := pop_all depth_fuel st in
    let! p := go_index (nodes st) 0 in
    let! r := deref p in
    Ok (r, st).

(** ** Rebalancing *)

Definition moveFrom (ofs : Z) (sib : Node) (st : Stack) : res Stack :=
  let! c0 := child st in
  let! c0 := deref c0 in
  let nd := childNode c0 in
  let! oi := index st in
  let si := (ofs + oi)%Z in
  let scl := Children sib in
  let! clc :=
    if (ofs =? -1)%Z then
      let cofs := (Z.of_nat (length scl) - 1)%Z in
      let! cl := slice_to scl cofs in
      let! c := go_at scl cofs in
      Ok (cl, c)
    else
      let! cl := slice_from scl 1 in
      let! c := go_at scl 0 in
      Ok (cl, c) in
  let '(cl, c) := clc in
  let! st := push si (Some sib) st in
  let! st := rewriteNodeChildrenWithCopyOf cl st in
  let! st := pop st in
  let! st := push oi nd st in
  let! n := deref nd in
  let! st := if (ofs =? -1)%Z then setIndex 0 st
             else setIndex (Z.of_nat (length (Children n))) st in
  let! st := rewriteAtIndex false (Some c) st in
  pop st.

Definition mergeTo (ofs : Z) (sib : Node) (st : Stack) : res Stack :=
  let! n := node st in
  let clen1 := length (Children n) in
  let! oi := index st in
  let si := (ofs + oi)%Z in
  let! c0 := child st in
  let! c0 := deref c0 in
  let! own := deref (childNode c0) in
  let mycl := Children own in
  let cl := Children sib in
  let! st := rewriteAtIndex true None st in
  let! n := node st in
  let clen2 := length (Children n) in
  if clen1 <=? clen2 then Panic "broken mergeTo, bad! (p1)"
  else
    let si := if (0 <? ofs)%Z then (si - 1)%Z else si in
    let! st := push si (Some sib) st in
    let ncl := if (ofs =? -1)%Z then cl ++ mycl else mycl ++ cl in
    let! st := rewriteNodeChildren ncl st in
    let! st := pop st in
    let! n := node st in
    if clen2 =? length (Children n) then Ok st
    else Panic "broken mergeTo, bad!".

(** The callback of [commit]: restore the size of one changed subtree. *)
Definition balanceChild (st : Stack) : res Stack :=
  let! c := child st in
  let! c := deref c in
  let! n := deref (childNode c) in
  let s := Msgsize n in
  if (smallSize t <=? s)%Z then Ok st
  else
    let! idx := index st in
    let! n1 := Stack_childNode (idx - 1) st in
    let! n2 := Stack_childNode (idx + 1) st in
    let '(n1, ofs) :=
      match n1, n2 with
      | Some a, Some b =>
          if (Msgsize a <? Msgsize b)%Z then (Some b, 1%Z) else (Some a, (-1)%Z)
      | None, _ => (n2, 1%Z)
      | Some a, None => (Some a, (-1)%Z)
      end in
    match n1 with
    | None => Ok st
    | Some sib =>
        if (Msgsize sib <? halfSize t)%Z then mergeTo ofs sib st
        else moveFrom ofs sib st
    end.

(** The subtrees of all entries of the current node. *)
Fixpoint all_childNodes (cnt : nat) (i : nat) (st : Stack) : res (list Node) :=
  match cnt with
  | O => Ok []
  | S cnt' =>
      let! cn := Stack_childNode (Z.of_nat i) st in
      let! m := deref cn in
      let! rest := all_childNodes cnt' (S i) st in
      Ok (m :: rest)
  end.

Definition sum_Msgsize (ns : list Node) : Z := foldr (λ n s, Msgsize n + s)%Z 0%Z ns.

(** The root check of [commit]. *)
Definition collapseRoot (st : Stack) : res (Node * Stack) :=
  let! n := node st in
  if negb (Leafy n) && (Msgsize n <? smallSize t)%Z then
    let! cns := all_childNodes (length (Children n)) 0 st in
    if (sum_Msgsize cns <=? NodeMaximumSize t)%Z then
      let cl := concat (map Children cns) in
      let leafy := existsb Leafy cns in
      let! st := rewriteNodeChildren cl st in
      let! n := node st in
      if leafy then
        let n := mkNode true (Children n) (blockId n) in
        let! ns := go_update (nodes st) (top st) (Some n) in
        Ok (n, with_nodes ns st)
      else Ok (n, st)
    else Ok (n, st)
  else Ok (n, st).

Definition commit (fuel : nat) (st : Stack) : res (Node * Stack) :=
  let! st := pop_all depth_fuel st in
  if (smallCount st =? 0)%Z then
    let! n := node st in Ok (n, st)
  else
    let! r := iterateMutatingChildLeafFirst fuel balanceChild st in
    let! r := collapseRoot r.2 in
    let '(n, st) := r in
    Ok (n, with_smallCount 0 st).

(** ** Insertion with splits *)

Fixpoint addChildAt (fuel : nat) (c : NodeDataChild) (st : Stack) : res Stack :=
  match fuel with
  | O => NoFuel
  | S fuel' =>
      let! st := rewriteAtIndex false (Some c) st in
      let! nd := node st in
      if (Msgsize nd <=? NodeMaximumSize t)%Z then Ok st
      else
        let i := length (Children nd) / 2 in
        let nodec := take i (Children nd) in
        let nextc := drop i (Children nd) in
        let! st := rewriteNodeChildren nodec st in
        let next := mkNode (Leafy nd) nextc None in
        let! nc0 := go_index nextc 0 in
        let nextchild := mkSubtreeChild (cKey nc0) next in
        if 0 <? top st then
          let! st := pop st in
          let! st := nextIndex st in
          addChildAt fuel' nextchild st
        else
          let! nd := node st in
          let! c0 := go_index nodec 0 in
          let mechild := mkSubtreeChild (cKey c0) nd in
          let! ns := go_update (nodes st) 0 (Some (mkNode false [mechild; nextchild] None)) in
          Ok (invalidateSubNodes (with_nodes ns st))
  end.

End stack.
