(* ===== verification/IBTree.v ===== *)
(** * Tree operations (src/ibtree/ibtree.go, ibtransaction.go)

    The methods of [Node] that take a caller's stack, the [Transaction] that
    owns one, and the [SubTree] view of the keys with a common prefix. *)
From stdpp Require Import base list sets strings sorting.
From Stdlib Require Import ZArith Lia.
From S2P Require Import Prelude OrderedMap IBNode IBStack.

Section ops.
Context `{MsgpSizes} (t : Tree).

(** ** Node methods *)

Definition Node_search (self : Node) (key : Key) (st : Stack) : res Stack :=
  let! p := go_index (nodes st) 0 in
  let! st :=
    match p with
    | None => let! ns := go_update (nodes st) 0 (Some self) in Ok (with_nodes ns st)
    | Some n0 => if node_eqb self n0 then Ok st else Panic "historic/wrong self"
    end in
  if 0 <? top st then Panic "leftover stack"
  else search t key st.

Definition searchLesser (self : Node) (key : Key) (st : Stack) : res Stack :=
  let! st := Node_search self key st in
  let! c := child st in
  let move := match c with None => true | Some x => kleb key (cKey x) end in
  if move then let! r := goPreviousLeaf t st in Ok r.2 else Ok st.

Definition searchGreater (self : Node) (key : Key) (st : Stack) : res Stack :=
  let! st := Node_search self key st in
  let! c := child st in
  let move := match c with None => true | Some x => keqb (cKey x) key end in
  if move then let! r := goNextLeaf t st in Ok r.2 else Ok st.

Definition Get (self : Node) (key : Key) (st : Stack) : res (option string * Stack) :=
  let! st := Node_search self key st in
  let! c := child st in
  let st := with_top 0 st in
  match c with
  | None => Ok (None, st)
  | Some x => if keqb (cKey x) key then Ok (Some (cValue x), st) else Ok (None, st)
  end.

Definition NextKey (self : Node) (key : Key) (st : Stack) : res (option Key * Stack) :=
  let! st := searchGreater self key st in
  let! c := child st in
  Ok (cKey <$> c, with_top 0 st).

Definition PrevKey (self : Node) (key : Key) (st : Stack) : res (option Key * Stack) :=
  let! st := searchLesser self key st in
  let! c := child st in
  Ok (cKey <$> c, with_top 0 st).

Definition Node_Set (fuel : nat) (self : Node) (key : Key) (value : string) (st : Stack)
  : res (Node * Stack) :=
  let! st := Node_search self key st in
  let nc := mkChild key value None in
  let! c := child st in
  let! st :=
    match c with
    | None => addChildAt t depth_fuel nc st
    | Some x =>
        if keqb (cKey x) key then
          if keqb (cValue x) value then Ok st else rewriteAtIndex t true (Some nc) st
        else addChildAt t depth_fuel nc st
    end in
  commit t fuel st.

Definition Node_Delete (fuel : nat) (self : Node) (key : Key) (st : Stack)
  : res (Node * Stack) :=
  let! st := Node_search self key st in
  let! c := child st in
  match c with
  | None => Panic "ibp.Delete: Key missing"
  | Some x =>
      if keqb (cKey x) key then
        let! st := rewriteAtIndex t true None st in
        commit t fuel st
      else Panic "ibp.Delete: Key missing"
  end.

(** The number of levels on which two walks agree. *)
Fixpoint common_levels (cnt i : nat) (ix1 ix2 : list Z) : res nat :=
  match cnt with
  | O => Ok i
  | S cnt' =>
      let! a := go_index ix1 i in
      let! b := go_index ix2 i in
      if (a =? b)%Z then common_levels cnt' (S i) ix1 ix2 else Ok i
  end.

(** Drop everything left of the path below level [unique]. *)
Fixpoint trimLeft (fuel unique : nat) (st : Stack) : res Stack :=
  if unique <? top st then
    match fuel with
    | O => NoFuel
    | S fuel' =>
        let! idx := index st in
        let! st :=
          if (0 <? idx)%Z then
            let! n := node st in
            let! cl := slice_from (Children n) idx in
            rewriteNodeChildrenWithCopyOf t cl st
          else Ok st in
        let! st := pop t st in
        trimLeft fuel' unique st
    end
  else Ok st.

(** Drop everything right of the path below level [unique]. *)
Fixpoint trimRight (fuel unique : nat) (st : Stack) : res Stack :=
  if unique <? top st then
    match fuel with
    | O => NoFuel
    | S fuel' =>
        let! n := node st in
        let cl := Children n in
        let! idx := index st in
        let! st :=
          if (idx <? Z.of_nat (length cl) - 1)%Z then
            let! cl := slice_to cl (idx + 1) in
            rewriteNodeChildrenWithCopyOf t cl st
          else Ok st in
        let! st := pop t st in
        trimRight fuel' unique st
    end
  else Ok st.

Definition Node_DeleteRange (fuel : nat) (self : Node) (key1 key2 : Key) (st2 : Stack)
  : res (Node * Stack) :=
  if kltb key2 key1 then Panic "ibt.DeleteRange: first key more than second key"
  else
    let st2 := with_top 0 st2 in
    let! st := searchLesser self key1 st2 in
    let! st2 := searchGreater self key2 st2 in
    if bool_decide (st = st2) then commit t fuel st2
    else
      let! unique := common_levels (top st) 0 (indexes st) (indexes st2) in
      if bool_decide (indexes st = indexes st2) then commit t fuel st2
      else
        let! st2 := trimLeft depth_fuel unique st2 in
        let! st := trimRight depth_fuel unique st in
        let! n2 := node st2 in
        let cl := Children n2 in
        let! idx1 := go_index (indexes st) (top st) in
        let! idx2 := go_index (indexes st2) (top st) in
        let! ncl :=
          if (idx1 <? 0)%Z then slice_from cl idx2
          else
            let! before := slice_to cl idx1 in
            let! after := slice_from cl idx2 in
            let! c := child st in
            match c with
            | None => Panic "tree broke: nil child"
            | Some x => Ok (before ++ x :: after)
            end in
        let! st2 := rewriteNodeChildren t ncl st2 in
        commit t fuel st2.

(** ** Transaction *)

Record Transaction : Type := mkTransaction { stack : Stack }.

Definition NewTransaction (root : option Node) : res Transaction :=
  match root with
  | None => Panic "nil root"
  | Some r => Ok (mkTransaction (with_nodes (<[0 := Some r]> (nodes emptyStack)) emptyStack))
  end.

Definition Root (tr : Transaction) : res Node := node (stack tr).

Definition tr_Get (key : Key) (tr : Transaction) : res (option string * Transaction) :=
  let! root := Root tr in
  let! r := Get root key (stack tr) in
  Ok (r.1, mkTransaction r.2).

Definition tr_NextKey (key : Key) (tr : Transaction) : res (option Key * Transaction) :=
  let! root := Root tr in
  let! r := NextKey root key (stack tr) in
  Ok (r.1, mkTransaction r.2).

Definition tr_PrevKey (key : Key) (tr : Transaction) : res (option Key * Transaction) :=
  let! root := Root tr in
  let! r := PrevKey root key (stack tr) in
  Ok (r.1, mkTransaction r.2).

Definition tr_Set (fuel : nat) (key : Key) (value : string) (tr : Transaction)
  : res Transaction :=
  let! root := Root tr in
  let! r := Node_Set fuel root key value (stack tr) in
  Ok (mkTransaction r.2).

Definition tr_Delete (fuel : nat) (key : Key) (tr : Transaction) : res Transaction :=
  let! root := Root tr in
  let! r := Node_Delete fuel root key (stack tr) in
  Ok (mkTransaction r.2).

Definition tr_DeleteRange (fuel : nat) (key1 key2 : Key) (tr : Transaction) : res Transaction :=
  let! root := Root tr in
  let! r := Node_DeleteRange fuel root key1 key2 (stack tr) in
  Ok (mkTransaction r.2).

(** ** SubTree *)

Definition addTreePrefix (treePrefix key : Key) : Key := treePrefix +:+ key.

Definition stripTreePrefix (treePrefix : Key) (key : option Key) : res (option Key) :=
  match key with
  | None => Ok None
  | Some s =>
      if String.length s <? String.length treePrefix then Panic "slice bounds out of range"
      else if negb (keqb (String.substring 0 (String.length treePrefix) s) treePrefix) then Ok None
      else Ok (Some (String.substring (String.length treePrefix)
                       (String.length s - String.length treePrefix) s))
  end.

Definition sub_Get (treePrefix key : Key) (tr : Transaction) :=
  tr_Get (addTreePrefix treePrefix key) tr.

Definition sub_Set (fuel : nat) (treePrefix key : Key) (value : string) (tr : Transaction) :=
  tr_Set fuel (addTreePrefix treePrefix key) value tr.

Definition sub_Delete (fuel : nat) (treePrefix key : Key) (tr : Transaction) :=
  tr_Delete fuel (addTreePrefix treePrefix key) tr.

Definition sub_DeleteRange (fuel : nat) (treePrefix key1 key2 : Key) (tr : Transaction) :=
  tr_DeleteRange fuel (addTreePrefix treePrefix key1) (addTreePrefix treePrefix key2) tr.

Definition sub_NextKey (treePrefix key : Key) (tr : Transaction)
  : res (option Key * Transaction) :=
  let! r := tr_NextKey (addTreePrefix treePrefix key) tr in
  let! k := stripTreePrefix treePrefix r.1 in
  Ok (k, r.2).

Definition sub_PrevKey (treePrefix key : Key) (tr : Transaction)
  : res (option Key * Transaction) :=
  let! r := tr_PrevKey (addTreePrefix treePrefix key) tr in
  let! k := stripTreePrefix treePrefix r.1 in
  Ok (k, r.2).

End ops.
