(* ===== verification/IBRepr.v ===== *)
(** * What a tree and a cursor represent

    [nrepr h n l]: the node [n] is the root of a subtree of height [h] with all
    its leaves on one level, and its leaf entries, in order, are the list [l].
    [crepr h fs lb la]: the path [fs] leads to a hole of height [h]; the entries
    left and right of the hole are [lb] and [la].  [At st fs n i] reads the path,
    the current node and its index out of the arrays of a stack, and states that
    the nodes cached below the current one are what loading would give. *)
From stdpp Require Import base list sets strings sorting.
From Stdlib Require Import ZArith Lia.
From S2P Require Import Prelude OrderedMap IBNode IBStack.

Section repr.
Context `{Hsz : MsgpSizes} (t : Tree) (B : Z).

(** ** Representation of nodes *)

(** An entry the tree may hold: a key, and a size within the bound [B], both as
    a leaf entry and as the key of an interior entry. *)
Definition kv_ok (p : kv) : Prop :=
  p.1 ≠ "" ∧ (entry_size p.1 p.2 ≤ B)%Z ∧ (entry_size p.1 (placeholderValue t) ≤ B)%Z.

Fixpoint erepr (h : nat) (c : NodeDataChild) (lc : list kv) {struct h} : Prop :=
  (child_size c ≤ B)%Z ∧ (∃ v rest, lc = (cKey c, v) :: rest) ∧
  match h with
  | O => childNode c = None ∧ lc = [(cKey c, cValue c)]
  | S h' => ∃ m, resolve t c = Ok (Some m) ∧ Leafy m = (h' =? 0) ∧
                 ∃ ls, Forall2 (erepr h') (Children m) ls ∧ lc = concat ls
  end.

Arguments erepr : simpl never.

Definition nrepr (h : nat) (n : Node) (l : list kv) : Prop :=
  Leafy n = (h =? 0) ∧ ∃ ls, Forall2 (erepr h) (Children n) ls ∧ l = concat ls.

Fixpoint crepr (h : nat) (fs : list (Node * Z)) (lb la : list kv) {struct fs} : Prop :=
  match fs with
  | [] => lb = [] ∧ la = []
  | (n, i) :: fs' =>
      ∃ cl1 c cl2 ls1 ls2 lb' la',
        Leafy n = false ∧ Children n = cl1 ++ c :: cl2 ∧ i = Z.of_nat (length cl1) ∧
        Forall2 (erepr (S h)) cl1 ls1 ∧ Forall2 (erepr (S h)) cl2 ls2 ∧
        crepr (S h) fs' lb' la' ∧ lb = lb' ++ concat ls1 ∧ la = concat ls2 ++ la'
  end.

Definition kvs_ok (l : list kv) : Prop := sorted_kvs l ∧ Forall kv_ok l.

(** ** Reading a stack *)

Record Path (st : Stack) (fs : list (Node * Z)) (n : Node) (i : Z) : Prop := mkPath {
  path_nodes_len : length (nodes st) = maximumTreeDepth;
  path_indexes_len : length (indexes st) = maximumTreeDepth;
  path_top : top st = length fs;
  path_maxtop : top st ≤ maxtop st;
  path_node : nodes st !! top st = Some (Some n);
  path_index : indexes st !! top st = Some i;
  path_frames : ∀ j f, fs !! j = Some f →
    nodes st !! (top st - S j) = Some (Some f.1) ∧ indexes st !! (top st - S j) = Some f.2;
  path_beyond : ∀ j, maxtop st < j → j < maximumTreeDepth → nodes st !! j = Some None
}.

Definition Cache (st : Stack) : Prop :=
  ∀ j m, top st ≤ j → nodes st !! S j = Some (Some m) →
    ∃ p i c, nodes st !! j = Some (Some p) ∧ indexes st !! j = Some (Z.of_nat i) ∧
             Children p !! i = Some c ∧ resolve t c = Ok (Some m).

Definition At (st : Stack) (fs : list (Node * Z)) (n : Node) (i : Z) : Prop :=
  Path st fs n i ∧ Cache st.

(** The entry that takes the place of a rewritten subtree, none if it is empty. *)
Definition newc (n : Node) : list NodeDataChild :=
  match Children n with
  | c0 :: _ => [mkSubtreeChild t (cKey c0) n]
  | [] => []
  end.

(** ** Facts on [erepr] and [nrepr] *)

Lemma erepr_S h c lc :
  erepr (S h) c lc ↔
  (child_size c ≤ B)%Z ∧ (∃ v rest, lc = (cKey c, v) :: rest) ∧
  ∃ m, resolve t c = Ok (Some m) ∧ nrepr h m lc.
Proof. done. Qed.

Lemma erepr_head h c lc : erepr h c lc → ∃ v rest, lc = (cKey c, v) :: rest.
Proof. destruct h; intros (_ & ? & _); done. Qed.

Lemma erepr_size h c lc : erepr h c lc → (child_size c ≤ B)%Z.
Proof. destruct h; intros (? & _); done. Qed.

Lemma erepr_not_nil h c lc : erepr h c lc → lc ≠ [].
Proof. intros (v & r & ->)%erepr_head. done. Qed.

Lemma erepr_leaf k v : kv_ok (k, v) → erepr 0 (mkChild k v None) [(k, v)].
Proof. intros (_ & Hsz' & _). simpl in *. split_and!; eauto. Qed.

Lemma erepr_fun h c l1 l2 : erepr h c l1 → erepr h c l2 → l1 = l2.
Proof.
  revert c l1 l2. induction h as [|h IH]; intros c l1 l2 (_ & _ & H1) (_ & _ & H2).
  - destruct H1 as [_ ->], H2 as [_ ->]. done.
  - destruct H1 as (m & Hm & _ & ls & Hls & ->), H2 as (m' & Hm' & _ & ls' & Hls' & ->).
    assert (m' = m) as -> by congruence. clear Hm Hm'. f_equal. revert ls' Hls'.
    induction Hls as [|c' l' cl ls Hc HF IHF]; intros ls' H; inversion H; subst; [done|].
    f_equal; eauto.
Qed.

Lemma Forall2_erepr_fun h cl ls ls' :
  Forall2 (erepr h) cl ls → Forall2 (erepr h) cl ls' → ls = ls'.
Proof.
  intros H. revert ls'.
  induction H as [|c l cl ls Hc HF IH]; intros ls' H'; inversion H'; subst; [done|].
  f_equal; eauto using erepr_fun.
Qed.

Lemma nrepr_fun h n l1 l2 : nrepr h n l1 → nrepr h n l2 → l1 = l2.
Proof.
  intros (_ & ls & H1 & ->) (_ & ls' & H2 & ->). f_equal. by eapply Forall2_erepr_fun.
Qed.

Lemma nrepr_height h h' n l l' : nrepr h n l → nrepr h' n l' → l ≠ [] → h = h'.
Proof.
  revert h' n l l'. induction h as [|h IH]; intros [|h'] n l l' [H1 H1'] [H2 H2'] Hne;
    try done; simpl in *; try congruence.
  destruct H1' as (ls & HF & ->), H2' as (ls' & HF' & ->).
  destruct (Children n) as [|c cl]; [inversion HF; subst; done|].
  apply Forall2_cons_inv_l in HF as (lc & ls0 & Hc & _ & ->).
  apply Forall2_cons_inv_l in HF' as (lc' & ls0' & Hc' & _ & ->).
  pose proof (erepr_not_nil _ _ _ Hc).
  apply erepr_S in Hc as (_ & _ & m & Hm & Hmr).
  apply erepr_S in Hc' as (_ & _ & m' & Hm' & Hmr').
  assert (m' = m) as -> by congruence. f_equal. by eapply IH.
Qed.

Lemma erepr_height h h' c l l' : erepr h c l → erepr h' c l' → childNode c ≠ None → h = h'.
Proof.
  intros H1 H2 Hc. destruct h as [|h], h' as [|h']; try done.
  - destruct H1 as (_ & _ & ? & _). done.
  - destruct H2 as (_ & _ & ? & _). done.
  - pose proof (erepr_not_nil _ _ _ H1).
    apply erepr_S in H1 as (_ & _ & m & Hm & Hmr).
    apply erepr_S in H2 as (_ & _ & m' & Hm' & Hmr').
    assert (m' = m) as -> by congruence. f_equal. by eapply nrepr_height.
Qed.

Lemma nrepr_Leafy_S h n l : nrepr (S h) n l → Leafy n = false.
Proof. intros [H _]. done. Qed.

Lemma nrepr_Leafy_0 n l : nrepr 0 n l → Leafy n = true.
Proof. intros [H _]. done. Qed.

Lemma nrepr_leafy_true h n l : nrepr h n l → Leafy n = true → h = 0.
Proof. intros [H1 _] H2. rewrite H1 in H2. by apply Nat.eqb_eq in H2. Qed.

Lemma nrepr_leafy_false h n l : nrepr h n l → Leafy n = false → ∃ h', h = S h'.
Proof. intros [H1 _] H2. rewrite H1 in H2. destruct h; [done|]. eauto. Qed.

Lemma nrepr_mk h b cl x ls :
  b = (h =? 0) → Forall2 (erepr h) cl ls → nrepr h (mkNode b cl x) (concat ls).
Proof. intros -> HF. split; [done|]. eauto. Qed.

Lemma Forall2_erepr_nil h cl ls : Forall2 (erepr h) cl ls → concat ls = [] → cl = [].
Proof.
  destruct 1 as [|c lc cl ls Hc HF]; [done|]. simpl. intros [Hnil _]%app_nil.
  by apply erepr_not_nil in Hc.
Qed.

Lemma nrepr_nil_children h n : nrepr h n [] → Children n = [].
Proof. intros (_ & ls & HF & Hls). by eapply Forall2_erepr_nil. Qed.

Lemma nrepr_children_nil h n l : nrepr h n l → Children n = [] → l = [].
Proof. intros (_ & ls & HF & ->) Hn. rewrite Hn in HF. by inversion HF. Qed.

Lemma nrepr_head h n c cl l :
  nrepr h n l → Children n = c :: cl → ∃ v rest, l = (cKey c, v) :: rest.
Proof.
  intros (_ & ls & HF & ->) Hn. rewrite Hn in HF.
  apply Forall2_cons_inv_l in HF as (lc & ls' & Hc & _ & ->).
  apply erepr_head in Hc as (v & r & ->). simpl. eauto.
Qed.

(** ** Keys of entries *)

Lemma kvs_ok_app l1 l2 : kvs_ok (l1 ++ l2) → kvs_ok l1 ∧ kvs_ok l2.
Proof.
  unfold kvs_ok. rewrite sorted_kvs_app, Forall_app. naive_solver.
Qed.

Lemma kvs_ok_app_l l1 l2 : kvs_ok (l1 ++ l2) → kvs_ok l1.
Proof. intros H. by apply kvs_ok_app in H as []. Qed.
Lemma kvs_ok_app_r l1 l2 : kvs_ok (l1 ++ l2) → kvs_ok l2.
Proof. intros H. by apply kvs_ok_app in H as []. Qed.

Lemma erepr_key_in h c lc : erepr h c lc → ∃ v, (cKey c, v) ∈ lc.
Proof. intros (v & r & ->)%erepr_head. exists v. set_solver. Qed.

Lemma erepr_keys_sorted h cl ls :
  Forall2 (erepr h) cl ls → kvs_ok (concat ls) →
  Forall (λ c, cKey c ≠ "") cl ∧ StronglySorted (λ a b, klt (cKey a) (cKey b)) cl.
Proof.
  induction 1 as [|c lc cl ls Hc HF IH]; intros Hok; [split; constructor|].
  simpl in Hok. destruct Hok as [Hs Ho].
  apply sorted_kvs_app in Hs as (Hs1 & Hs2 & Hlt). apply Forall_app in Ho as [Ho1 Ho2].
  destruct IH as [IH1 IH2]; [done|].
  destruct (erepr_key_in _ _ _ Hc) as [v Hv]. split.
  - constructor; [|done]. rewrite Forall_forall in Ho1. by apply (Ho1 (cKey c, v)).
  - constructor; [done|]. apply Forall_forall. intros c' Hc'.
    apply list_elem_of_lookup in Hc' as [i Hi].
    destruct (Forall2_lookup_l _ _ _ _ _ HF Hi) as (lc' & Hlc' & Hc').
    destruct (erepr_key_in _ _ _ Hc') as [v' Hv'].
    apply (Hlt (cKey c, v) (cKey c', v')); [done|].
    rewrite list_elem_of_In. apply in_concat. exists lc'. split.
    + rewrite <- list_elem_of_In. by eapply list_elem_of_lookup_2.
    + by rewrite <- list_elem_of_In.
Qed.

Lemma check_erepr h b cl x ls :
  Forall2 (erepr h) cl ls → kvs_ok (concat ls) → CheckNodeStructure (mkNode b cl x) = Ok tt.
Proof.
  intros HF Hok. destruct (erepr_keys_sorted _ _ _ HF Hok).
  by apply CheckNodeStructure_loop_Ok.
Qed.

Lemma newc_repr h n l :
  nrepr h n l → Forall kv_ok l →
  ∃ ls, Forall2 (erepr (S h)) (newc n) ls ∧ concat ls = l.
Proof.
  intros Hn Hok. unfold newc. destruct (Children n) as [|c0 cl] eqn:Ecl.
  - exists []. split; [constructor|]. symmetry. by eapply nrepr_children_nil.
  - destruct (nrepr_head _ _ _ _ _ Hn Ecl) as (v & rest & ->).
    exists [(cKey c0, v) :: rest]. split; [|simpl; by rewrite app_nil_r].
    constructor; [|constructor]. apply erepr_S. unfold mkSubtreeChild. simpl. split_and!.
    + apply Forall_cons in Hok as [(_ & _ & H) _]. done.
    + eauto.
    + exists n. done.
Qed.



End repr.

Arguments erepr : simpl never.
Arguments nrepr : simpl never.
