(* ===== verification/IBStackFacts.v ===== *)
(** * Behaviour of the stack primitives

    Each primitive of [IBStack] on a stack read by [Path] or [At]: it returns,
    and the path, current node and index of the result are known. *)
From stdpp Require Import base list sets strings sorting.
From Stdlib Require Import ZArith Lia.
From S2P Require Import Prelude OrderedMap IBNode IBStack IBRepr.

Section facts.
Context `{Hsz : MsgpSizes} (t : Tree) (B : Z).

(** ** Reading *)

Lemma path_depth st fs n i : Path st fs n i → length fs < maximumTreeDepth.
Proof.
  intros HP. rewrite <- (path_top _ _ _ _ HP), <- (path_nodes_len _ _ _ _ HP).
  apply lookup_lt_is_Some. rewrite (path_node _ _ _ _ HP). eauto.
Qed.

Lemma path_maxtop_lt st fs n i : Path st fs n i → top st < maximumTreeDepth.
Proof. intros HP. rewrite (path_top _ _ _ _ HP). by eapply path_depth. Qed.

Lemma node_ptr_Path st fs n i : Path st fs n i → node_ptr st = Ok (Some n).
Proof. intros HP. apply go_index_Ok, HP. Qed.

Lemma node_Path st fs n i : Path st fs n i → node st = Ok n.
Proof. intros HP. unfold node. by rewrite (node_ptr_Path _ _ _ _ HP). Qed.

Lemma index_Path st fs n i : Path st fs n i → index st = Ok i.
Proof. intros HP. apply go_index_Ok, HP. Qed.

Lemma child_Path_in st fs n (i : nat) c :
  Path st fs n (Z.of_nat i) → Children n !! i = Some c → child st = Ok (Some c).
Proof.
  intros HP Hc. unfold child. rewrite (node_Path _ _ _ _ HP), (index_Path _ _ _ _ HP).
  cbn [res_bind]. pose proof (lookup_lt_Some _ _ _ Hc).
  destruct (Z.ltb_spec (Z.of_nat i) 0); [lia|].
  destruct (Z.leb_spec (Z.of_nat (length (Children n))) (Z.of_nat i)); [lia|].
  simpl. by rewrite (go_at_Ok _ _ _ Hc).
Qed.

Lemma child_Path_out st fs n i :
  Path st fs n i → (i < 0 ∨ Z.of_nat (length (Children n)) ≤ i)%Z → child st = Ok None.
Proof.
  intros HP Hi. unfold child. rewrite (node_Path _ _ _ _ HP), (index_Path _ _ _ _ HP).
  cbn [res_bind].
  destruct (Z.ltb_spec i 0); [done|].
  destruct (Z.leb_spec (Z.of_nat (length (Children n))) i); [done|lia].
Qed.

Lemma root_of_Path st n i : Path st [] n i → go_index (nodes st) 0 = Ok (Some n).
Proof.
  intros HP. apply go_index_Ok. pose proof (path_node _ _ _ _ HP) as H.
  by rewrite (path_top _ _ _ _ HP) in H.
Qed.

(** ** Cache invalidation *)

Lemma lookup_invalidate st j :
  nodes (invalidateSubNodes st) !! j =
  (λ n, if (top st <? j) && (j <=? maxtop st) then None else n) <$> nodes st !! j.
Proof. unfold invalidateSubNodes. simpl. by rewrite list_lookup_imap. Qed.

Lemma invalidate_low st j :
  j ≤ top st → nodes (invalidateSubNodes st) !! j = nodes st !! j.
Proof.
  intros Hj. rewrite lookup_invalidate. destruct (Nat.ltb_spec (top st) j); [lia|]. simpl.
  by destruct (nodes st !! j).
Qed.

Lemma invalidate_At st fs n i : Path st fs n i → At t (invalidateSubNodes st) fs n i.
Proof.
  intros HP. pose proof HP as [H1 H2 H3 H4 H5 H6 H7 H8].
  assert (∀ j, top st < j → j < maximumTreeDepth →
            nodes (invalidateSubNodes st) !! j = Some None) as Hhigh.
  { intros j Hj Hd. rewrite lookup_invalidate.
    destruct (Nat.ltb_spec (top st) j); [|lia]. simpl.
    destruct (Nat.leb_spec j (maxtop st)).
    - destruct (nodes st !! j) eqn:E; [done|]. apply lookup_ge_None in E. lia.
    - by rewrite H8 by lia. }
  split.
  - split; try done.
    + simpl. by rewrite length_imap.
    + rewrite invalidate_low by done. done.
    + intros j f Hf. rewrite invalidate_low by (simpl; lia). by apply H7.
  - intros j m Hj Hm. simpl in Hj.
    destruct (decide (S j < maximumTreeDepth)) as [Hd|Hd].
    + rewrite Hhigh in Hm by lia. done.
    + rewrite lookup_ge_None_2 in Hm; [done|]. simpl. rewrite length_imap. lia.
Qed.

Lemma invalidate_smallCount st : smallCount (invalidateSubNodes st) = smallCount st.
Proof. done. Qed.

(** ** setIndex, nextIndex, Reset *)

Lemma with_indexes_Path st fs n i j :
  Path st fs n i → Path (with_indexes (<[top st := j]> (indexes st)) st) fs n j.
Proof.
  intros [H1 H2 H3 H4 H5 H6 H7 H8]. split; simpl; try done.
  - by rewrite length_insert.
  - apply list_lookup_insert_eq. by eapply lookup_lt_Some.
  - intros k f Hf. destruct (H7 k f Hf) as [Ha Hb]. split; [done|].
    apply lookup_lt_Some in Hf. rewrite list_lookup_insert_ne by lia. done.
Qed.

Lemma setIndex_At st fs n i j :
  At t st fs n i →
  ∃ st', setIndex j st = Ok st' ∧ At t st' fs n j ∧ smallCount st' = smallCount st.
Proof.
  intros [HP HC]. unfold setIndex. rewrite (index_Path _ _ _ _ HP). cbn [res_bind].
  destruct (Z.eqb_spec j i) as [->|Hne]; [by exists st|].
  rewrite go_update_Ok by (rewrite (path_indexes_len _ _ _ _ HP); by eapply path_maxtop_lt).
  eexists. split; [done|]. split; [|done].
  by eapply invalidate_At, with_indexes_Path.
Qed.

Lemma nextIndex_At st fs n i :
  At t st fs n i →
  ∃ st', nextIndex st = Ok st' ∧ At t st' fs n (i + 1)%Z ∧ smallCount st' = smallCount st.
Proof.
  intros HA. unfold nextIndex. rewrite (index_Path _ _ _ _ (proj1 HA)). cbn [res_bind].
  by eapply setIndex_At.
Qed.

Lemma Reset_At st n i :
  At t st [] n i →
  ∃ st', Reset st = Ok st' ∧ At t st' [] n 0%Z ∧ smallCount st' = smallCount st.
Proof.
  intros HA. unfold Reset. rewrite (root_of_Path _ _ _ (proj1 HA)). cbn [res_bind].
  rewrite (path_top _ _ _ _ (proj1 HA)). simpl. by apply (setIndex_At _ _ _ i).
Qed.

(** ** Subtrees of the current node *)

Lemma Node_childNode_lookup n (j : nat) c :
  Children n !! j = Some c → Node_childNode t n (Z.of_nat j) = resolve t c.
Proof. intros Hc. unfold Node_childNode. by rewrite (go_at_Ok _ _ _ Hc). Qed.

Lemma Stack_childNode_At st fs n i (j : nat) c m :
  At t st fs n i → S (length fs) < maximumTreeDepth →
  Children n !! j = Some c → resolve t c = Ok (Some m) →
  Stack_childNode t (Z.of_nat j) st = Ok (Some m).
Proof.
  intros [HP HC] Hd Hc Hm. unfold Stack_childNode. rewrite (node_Path _ _ _ _ HP).
  cbn [res_bind]. pose proof (lookup_lt_Some _ _ _ Hc).
  destruct (Z.ltb_spec (Z.of_nat j) 0); [lia|].
  destruct (Z.leb_spec (Z.of_nat (length (Children n))) (Z.of_nat j)); [lia|]. cbn [orb].
  rewrite (index_Path _ _ _ _ HP). cbn [res_bind].
  rewrite (Node_childNode_lookup _ _ _ Hc), Hm.
  destruct (Z.eqb_spec i (Z.of_nat j)) as [->|Hne]; [|done].
  pose proof HP as [HP1 _ HP3 _ HP5 HP6 _ _].
  destruct (nodes st !! S (top st)) as [[m'|]|] eqn:E.
  - rewrite (go_index_Ok _ _ _ E). cbn [res_bind].
    destruct (HC _ _ (le_n _) E) as (p & i' & c' & Hp & Hi' & Hc' & Hr).
    rewrite HP5 in Hp. injection Hp as <-. rewrite HP6 in Hi'. injection Hi' as Hi'.
    apply Nat2Z.inj in Hi' as <-. congruence.
  - by rewrite (go_index_Ok _ _ _ E).
  - apply lookup_ge_None in E. lia.
Qed.

Lemma Stack_childNode_out st fs n i j :
  Path st fs n i → (j < 0 ∨ Z.of_nat (length (Children n)) ≤ j)%Z →
  Stack_childNode t j st = Ok None.
Proof.
  intros HP Hj. unfold Stack_childNode. rewrite (node_Path _ _ _ _ HP). cbn [res_bind].
  destruct (Z.ltb_spec j 0); [done|].
  destruct (Z.leb_spec (Z.of_nat (length (Children n))) j); [done|lia].
Qed.

(** ** push *)

Lemma push_At st fs n i (j : nat) c m :
  At t st fs n i → S (length fs) < maximumTreeDepth →
  Children n !! j = Some c → resolve t c = Ok (Some m) →
  ∃ st', push (Z.of_nat j) (Some m) st = Ok st' ∧
         At t st' ((n, Z.of_nat j) :: fs) m 0%Z ∧ smallCount st' = smallCount st.
Proof.
  intros HA Hd Hc Hm. unfold push.
  destruct (setIndex_At st fs n i (Z.of_nat j) HA) as (st1 & -> & [HP HC] & Hsc).
  cbn [res_bind]. pose proof HP as [H1 H2 H3 H4 H5 H6 H7 H8].
  set (st2 := if maxtop (with_top (S (top st1)) st1) <? top (with_top (S (top st1)) st1)
              then _ else _).
  assert (nodes st2 = nodes st1) as En by (unfold st2; by destruct (_ <? _)).
  assert (indexes st2 = indexes st1) as Ei by (unfold st2; by destruct (_ <? _)).
  assert (top st2 = S (top st1)) as Et by (unfold st2; by destruct (_ <? _)).
  assert (smallCount st2 = smallCount st1) as Es by (unfold st2; by destruct (_ <? _)).
  assert (maxtop st2 = Nat.max (maxtop st1) (S (top st1))) as Em.
  { unfold st2. simpl. destruct (Nat.ltb_spec (maxtop st1) (S (top st1))); simpl; lia. }
  clearbody st2. rewrite go_update_Ok by (rewrite En, Et, H1; lia). cbn [res_bind].
  assert (is_Some (indexes st1 !! S (top st1))) as [i1 Hi1].
  { apply lookup_lt_is_Some. rewrite H2. lia. }
  assert (At t (with_nodes (<[top st2 := Some m]> (nodes st2)) st2)
             ((n, Z.of_nat j) :: fs) m i1) as HA2.
  { split.
    - split; simpl.
      + by rewrite length_insert, En.
      + by rewrite Ei.
      + by rewrite Et, H3.
      + lia.
      + apply list_lookup_insert_eq. rewrite En, Et, H1. lia.
      + by rewrite Ei, Et.
      + rewrite Ei, Et, En. intros [|k] f Hf; simpl in Hf.
        * injection Hf as <-. simpl. rewrite Nat.sub_0_r, list_lookup_insert_ne by lia. done.
        * destruct (H7 k f Hf) as [Ha Hb]. simpl. split; [|done].
          rewrite list_lookup_insert_ne by lia. done.
      + intros k Hk Hkd. rewrite En, Et, list_lookup_insert_ne by lia. apply H8; lia.
    - intros k m' Hk Hm'. simpl in *. rewrite En, Et in *. rewrite Ei.
      rewrite list_lookup_insert_ne in Hm' by lia.
      destruct (HC k m') as (p & i' & c' & Hp & Hi' & Hc' & Hr); [lia|done|].
      destruct (decide (k = S (top st1))) as [->|Hne].
      + exists m, i', c'. rewrite list_lookup_insert_eq by lia. split; [done|].
        destruct (HC (top st1) p) as (p0 & i0 & c0 & Hp0 & Hi0 & Hc0 & Hr0); [lia|done|].
        rewrite H5 in Hp0. injection Hp0 as <-. rewrite H6 in Hi0. injection Hi0 as Hi0.
        apply Nat2Z.inj in Hi0 as <-. rewrite Hc in Hc0. injection Hc0 as <-.
        assert (p = m) as -> by congruence. done.
      + exists p, i', c'. rewrite list_lookup_insert_ne by lia. done. }
  destruct (setIndex_At _ _ _ _ 0%Z HA2) as (st3 & -> & HA3 & Hs3).
  exists st3. split; [done|]. split; [done|]. rewrite Hs3. simpl. congruence.
Qed.

Lemma pushIndex_At st fs n i (j : nat) c m :
  At t st fs n i → S (length fs) < maximumTreeDepth →
  Children n !! j = Some c → resolve t c = Ok (Some m) →
  ∃ st', pushIndex t (Z.of_nat j) st = Ok st' ∧
         At t st' ((n, Z.of_nat j) :: fs) m 0%Z ∧ smallCount st' = smallCount st.
Proof.
  intros HA Hd Hc Hm. unfold pushIndex.
  rewrite (Stack_childNode_At _ _ _ _ _ _ _ HA Hd Hc Hm). cbn [res_bind].
  by eapply push_At.
Qed.

(** ** popNode *)

Lemma popNode_Path st p j fs n i :
  Path st ((p, j) :: fs) n i →
  ∃ st', popNode st = Ok (Some n, st') ∧ Path st' fs p j ∧ smallCount st' = smallCount st.
Proof.
  intros HP. pose proof HP as [H1 H2 H3 H4 H5 H6 H7 H8]. unfold popNode.
  rewrite (node_ptr_Path _ _ _ _ HP). cbn [res_bind]. simpl in H3.
  destruct (top st) as [|k] eqn:Et; [done|]. injection H3 as H3.
  eexists. split; [done|]. split; [|done]. destruct (H7 0 (p, j)) as [Ha Hb]; [done|].
  replace (S k - 1) with k in * by lia.
  split; simpl; try done; [lia|].
  intros q f Hf. destruct (H7 (S q) f Hf) as [Hc Hd]. done.
Qed.

Lemma popNode_At st p (j : nat) fs n i c :
  At t st ((p, Z.of_nat j) :: fs) n i → Children p !! j = Some c → resolve t c = Ok (Some n) →
  ∃ st', popNode st = Ok (Some n, st') ∧ At t st' fs p (Z.of_nat j) ∧
         smallCount st' = smallCount st.
Proof.
  intros [HP HC] Hc Hr. destruct (popNode_Path _ _ _ _ _ _ HP) as (st' & Hpop & HP' & Hs).
  exists st'. split; [done|]. split; [|done]. split; [done|].
  assert (nodes st' = nodes st ∧ indexes st' = indexes st ∧ top st = S (top st')) as (En & Ei & Et).
  { unfold popNode in Hpop. rewrite (node_ptr_Path _ _ _ _ HP) in Hpop. simpl in Hpop.
    destruct (top st) eqn:E; [done|]. injection Hpop as <-. done. }
  intros k m Hk Hm. rewrite En, Ei in *.
  destruct (decide (k = top st')) as [->|Hne].
  - exists p, j, c. pose proof (path_node _ _ _ _ HP') as Hp. rewrite En in Hp.
    pose proof (path_index _ _ _ _ HP') as Hi. rewrite Ei in Hi.
    rewrite <- Et, (path_node _ _ _ _ HP) in Hm. injection Hm as <-. done.
  - apply HC; [lia|done].
Qed.

(** ** Rewriting the current node *)

Lemma rewriteNodeChildren_At cl st fs n i :
  Path st fs n i → CheckNodeStructure (mkNode (Leafy n) cl None) = Ok tt →
  ∃ st', rewriteNodeChildren t cl st = Ok st' ∧
         At t st' fs (mkNode (Leafy n) cl None) i ∧
         smallCount st' =
           (smallCount st +
            if Leafy n && (Msgsize (mkNode (Leafy n) cl None) <=? smallSize t) then 1 else 0)%Z.
Proof.
  intros HP Hchk. unfold rewriteNodeChildren. rewrite (node_Path _ _ _ _ HP).
  cbn [res_bind]. pose proof HP as [H1 H2 H3 H4 H5 H6 H7 H8].
  rewrite go_update_Ok by (rewrite H1; by eapply path_maxtop_lt). cbn [res_bind].
  rewrite Hchk. cbn [res_bind Leafy].
  set (n' := mkNode (Leafy n) cl None).
  set (st1 := with_nodes (<[top st := Some n']> (nodes st)) st).
  assert (Path st1 fs n' i) as HP1.
  { unfold st1. split; simpl; try done.
    - by rewrite length_insert.
    - apply list_lookup_insert_eq. by eapply lookup_lt_Some.
    - intros k f Hf. destruct (H7 k f Hf) as [Ha Hb]. split; [|done].
      apply lookup_lt_Some in Hf. rewrite list_lookup_insert_ne by lia. done.
    - intros k Hk Hd. rewrite list_lookup_insert_ne by lia. by apply H8. }
  pose proof (invalidate_At _ _ _ _ HP1) as [HP2 HC2].
  eexists. split; [done|].
  assert (∀ z, At t (with_smallCount z (invalidateSubNodes st1)) fs n' i) as Hsc.
  { intros z. split; [|exact HC2]. destruct HP2. by split. }
  destruct (Leafy n && _) eqn:E; simpl; (split; [|simpl; lia]).
  - apply Hsc.
  - by split.
Qed.

(** Insert, replace and delete at the current index. *)

Lemma rewriteAtIndex_At (replace : bool) c cl1 old cl2 st fs n :
  Path st fs n (Z.of_nat (length cl1)) →
  Children n = cl1 ++ (if replace then [old] else []) ++ cl2 →
  (replace = false → c ≠ None) →
  CheckNodeStructure (mkNode (Leafy n) (cl1 ++ option_list c ++ cl2) None) = Ok tt →
  ∃ st', rewriteAtIndex t replace c st = Ok st' ∧
         At t st' fs (mkNode (Leafy n) (cl1 ++ option_list c ++ cl2) None)
            (Z.of_nat (length cl1)) ∧
         smallCount st' =
           (smallCount st +
            if Leafy n && (Msgsize (mkNode (Leafy n) (cl1 ++ option_list c ++ cl2) None)
                             <=? smallSize t) then 1 else 0)%Z.
Proof.
  intros HP Hcl Hrep Hchk. unfold rewriteAtIndex.
  rewrite (node_Path _ _ _ _ HP), (index_Path _ _ _ _ HP). cbn [res_bind].
  replace (match c with Some x => [x] | None => [] end) with (option_list c) by by destruct c.
  destruct (rewriteNodeChildren_At _ _ _ _ _ HP Hchk) as (st' & Hst' & H).
  exists st'. split; [|exact H].
  assert (slice_to (Children n) (Z.of_nat (length cl1)) = Ok cl1) as Hto.
  { rewrite slice_to_Ok by (rewrite Hcl, length_app; lia). by rewrite Hcl, take_app_length. }
  assert (slice_from (Children n)
            (if replace then Z.of_nat (length cl1) + 1 else Z.of_nat (length cl1))%Z
          = Ok cl2) as Hfrom.
  { destruct replace.
    - replace (Z.of_nat (length cl1) + 1)%Z with (Z.of_nat (S (length cl1))) by lia.
      rewrite slice_from_Ok by (rewrite Hcl, !length_app; simpl; lia).
      rewrite Hcl, (app_assoc cl1 [old] cl2), drop_app_length'; [done|].
      rewrite length_app. simpl. lia.
    - rewrite slice_from_Ok by (rewrite Hcl, !length_app; lia).
      rewrite Hcl. simpl ([] ++ cl2). by rewrite drop_app_length. }
  destruct (Z.ltb_spec (Z.of_nat (length cl1)) 0); [lia|].
  destruct replace, c as [c|]; [| | |by destruct Hrep];
    rewrite Hto; cbn [res_bind]; rewrite Hfrom; done.
Qed.

(** ** pop *)

Lemma pop_At st p cl1 old cl2 fs n i :
  Path st ((p, Z.of_nat (length cl1)) :: fs) n i →
  Children p = cl1 ++ old :: cl2 → Leafy p = false →
  CheckNodeStructure (mkNode false (cl1 ++ newc t n ++ cl2) None) = Ok tt →
  ∃ st', pop t st = Ok st' ∧
         At t st' fs (mkNode false (cl1 ++ newc t n ++ cl2) None) (Z.of_nat (length cl1)) ∧
         smallCount st' = smallCount st.
Proof.
  intros HP Hcl HL Hchk. unfold pop.
  destruct (popNode_Path _ _ _ _ _ _ HP) as (st1 & -> & HP1 & Hs). cbn [res_bind deref].
  assert (∀ c, newc t n = option_list c →
     ∃ st', rewriteAtIndex t true c st1 = Ok st' ∧
         At t st' fs (mkNode false (cl1 ++ newc t n ++ cl2) None) (Z.of_nat (length cl1)) ∧
         smallCount st' = smallCount st) as H.
  { intros c Hc. rewrite Hc in *.
    destruct (rewriteAtIndex_At true c cl1 old cl2 _ _ _ HP1) as (st' & Hst' & HA & Hsc);
      [done|done|by rewrite HL|].
    rewrite HL in *. exists st'. split; [done|]. split; [done|]. rewrite Hsc. simpl. lia. }
  unfold newc in *. destruct (Children n) as [|c0 cl].
  - by apply (H None).
  - by apply (H (Some _)).
Qed.

End facts.
