(* ===== verification/IBLoc.v ===== *)
(** * A cursor in a well-formed tree

    [Loc h st fs n i lb ln la]: the stack [st] stands at node [n] of height [h]
    with index [i]; the entries left of [n], in [n] and right of [n] are [lb],
    [ln] and [la], and together they are a sorted list of admissible entries.
    Moving and rewriting a cursor keeps this; [pop] keeps the whole list. *)
From stdpp Require Import base list sets strings sorting.
From Stdlib Require Import ZArith Lia.
From S2P Require Import Prelude OrderedMap IBNode IBStack IBRepr IBStackFacts.

Section loc.
Context `{Hsz : MsgpSizes} (t : Tree) (B : Z).

Record Loc (h : nat) (st : Stack) (fs : list (Node * Z)) (n : Node) (i : Z)
    (lb ln la : list kv) : Prop := mkLoc {
  loc_at : At t st fs n i;
  loc_ctx : crepr t B h fs lb la;
  loc_node : nrepr t B h n ln;
  loc_ok : kvs_ok t B (lb ++ ln ++ la);
  loc_depth : h + length fs < maximumTreeDepth
}.

(** The path leads, entry by entry, to the current node. *)
Fixpoint clean (h : nat) (fs : list (Node * Z)) (n : Node) : Prop :=
  match fs with
  | [] => True
  | (p, j) :: fs' =>
      ∃ (k : nat) c lc, j = Z.of_nat k ∧ Children p !! k = Some c ∧ erepr t B (S h) c lc ∧
                        resolve t c = Ok (Some n) ∧ clean (S h) fs' p
  end.

Definition root_of (fs : list (Node * Z)) (n : Node) : Node :=
  match last fs with Some f => f.1 | None => n end.

Lemma root_of_cons f fs n : root_of (f :: fs) n = root_of fs f.1.
Proof. unfold root_of. rewrite last_cons. by destruct (last fs). Qed.

Lemma Loc_path h st fs n i lb ln la : Loc h st fs n i lb ln la → Path st fs n i.
Proof. by intros [[]]. Qed.

Lemma Loc_setIndex h st fs n i lb ln la j :
  Loc h st fs n i lb ln la →
  ∃ st', setIndex j st = Ok st' ∧ Loc h st' fs n j lb ln la ∧ smallCount st' = smallCount st.
Proof.
  intros [H1 H2 H3 H4 H5]. destruct (setIndex_At _ _ _ _ _ j H1) as (st' & ? & ? & ?).
  exists st'. split; [done|]. split; [|done]. by split.
Qed.

(** ** Entering a subtree *)

Lemma Loc_push_gen (op : Z → Stack → res Stack) h st fs n i lb ln la cl1 c cl2 :
  (∀ m, resolve t c = Ok (Some m) →
     ∃ st', op (Z.of_nat (length cl1)) st = Ok st' ∧
       At t st' ((n, Z.of_nat (length cl1)) :: fs) m 0%Z ∧ smallCount st' = smallCount st) →
  Loc (S h) st fs n i lb ln la →
  Children n = cl1 ++ c :: cl2 →
  ∃ m st' ls1 lc ls2,
    resolve t c = Ok (Some m) ∧
    op (Z.of_nat (length cl1)) st = Ok st' ∧
    Forall2 (erepr t B (S h)) cl1 ls1 ∧ erepr t B (S h) c lc ∧ Forall2 (erepr t B (S h)) cl2 ls2 ∧
    ln = concat ls1 ++ lc ++ concat ls2 ∧
    Loc h st' ((n, Z.of_nat (length cl1)) :: fs) m 0%Z (lb ++ concat ls1) lc (concat ls2 ++ la) ∧
    smallCount st' = smallCount st.
Proof.
  intros Hop [H1 H2 H3 H4 H5] Hcl. destruct H3 as (HL & ls & HF & ->).
  rewrite Hcl in HF. apply Forall2_app_inv_l in HF as (ls1 & ls' & HF1 & HF' & ->).
  apply Forall2_cons_inv_l in HF' as (lc & ls2 & Hc & HF2 & ->).
  rewrite concat_app in *. simpl in *.
  pose proof Hc as (_ & _ & m & Hm & Hmr)%erepr_S.
  destruct (Hop m Hm) as (st' & Hst' & HA & Hs).
  exists m, st', ls1, lc, ls2. split_and!; try done.
  split; try done.
  - simpl. exists cl1, c, cl2, ls1, ls2, lb, la. done.
  - rewrite <- !app_assoc in *. done.
  - simpl. lia.
Qed.

Lemma Loc_push h st fs n i lb ln la cl1 c cl2 m :
  Loc (S h) st fs n i lb ln la →
  Children n = cl1 ++ c :: cl2 → resolve t c = Ok (Some m) →
  ∃ st' ls1 lc ls2,
    push (Z.of_nat (length cl1)) (Some m) st = Ok st' ∧
    Forall2 (erepr t B (S h)) cl1 ls1 ∧ erepr t B (S h) c lc ∧ Forall2 (erepr t B (S h)) cl2 ls2 ∧
    ln = concat ls1 ++ lc ++ concat ls2 ∧
    Loc h st' ((n, Z.of_nat (length cl1)) :: fs) m 0%Z (lb ++ concat ls1) lc (concat ls2 ++ la) ∧
    smallCount st' = smallCount st.
Proof.
  intros HL Hcl Hm.
  destruct (Loc_push_gen (λ i, push i (Some m)) h st fs n i lb ln la cl1 c cl2)
    as (m' & st' & ls1 & lc & ls2 & Hm' & H); [|done|done|].
  - intros m' Hm'. assert (m' = m) as -> by congruence.
    eapply push_At; [apply HL| |by rewrite Hcl, list_lookup_middle|done].
    pose proof (loc_depth _ _ _ _ _ _ _ _ HL). lia.
  - assert (m' = m) as -> by congruence. exists st', ls1, lc, ls2. exact H.
Qed.

Lemma Loc_pushIndex h st fs n i lb ln la cl1 c cl2 :
  Loc (S h) st fs n i lb ln la →
  Children n = cl1 ++ c :: cl2 →
  ∃ m st' ls1 lc ls2,
    resolve t c = Ok (Some m) ∧
    pushIndex t (Z.of_nat (length cl1)) st = Ok st' ∧
    Forall2 (erepr t B (S h)) cl1 ls1 ∧ erepr t B (S h) c lc ∧ Forall2 (erepr t B (S h)) cl2 ls2 ∧
    ln = concat ls1 ++ lc ++ concat ls2 ∧
    Loc h st' ((n, Z.of_nat (length cl1)) :: fs) m 0%Z (lb ++ concat ls1) lc (concat ls2 ++ la) ∧
    smallCount st' = smallCount st.
Proof.
  intros HL Hcl. apply (Loc_push_gen (pushIndex t) h st fs n i); [|done|done].
  intros m Hm. eapply pushIndex_At; [apply HL| |by rewrite Hcl, list_lookup_middle|done].
  pose proof (loc_depth _ _ _ _ _ _ _ _ HL). lia.
Qed.

Lemma clean_push h fs n m cl1 c cl2 lc :
  clean (S h) fs n → Children n = cl1 ++ c :: cl2 → erepr t B (S h) c lc →
  resolve t c = Ok (Some m) → clean h ((n, Z.of_nat (length cl1)) :: fs) m.
Proof.
  intros Hcl Hch Hc Hm. exists (length cl1), c, lc. split_and!; try done.
  by rewrite Hch, list_lookup_middle.
Qed.

(** ** Leaving an unchanged subtree *)

Lemma Loc_popNode h st p j fs n i lb ln la :
  Loc h st ((p, j) :: fs) n i lb ln la → clean h ((p, j) :: fs) n →
  ∃ st' cl1 c cl2 ls1 ls2 lb' la',
    popNode st = Ok (Some n, st') ∧ j = Z.of_nat (length cl1) ∧
    Children p = cl1 ++ c :: cl2 ∧
    Forall2 (erepr t B (S h)) cl1 ls1 ∧ erepr t B (S h) c ln ∧
    Forall2 (erepr t B (S h)) cl2 ls2 ∧
    lb = lb' ++ concat ls1 ∧ la = concat ls2 ++ la' ∧
    Loc (S h) st' fs p j lb' (concat ls1 ++ ln ++ concat ls2) la' ∧
    clean (S h) fs p ∧ smallCount st' = smallCount st.
Proof.
  intros [H1 H2 H3 H4 H5] (k & c & lc & -> & Hc & Hcr & Hm & Hcl).
  destruct H2 as (cl1 & c' & cl2 & ls1 & ls2 & lb' & la' & HLp & Hch & Hk & HF1 & HF2 & Hctx & -> & ->).
  apply Nat2Z.inj in Hk as ->. rewrite Hch, list_lookup_middle in Hc by done. injection Hc as ->.
  destruct (popNode_At t st p (length cl1) fs n i c) as (st' & Hpop & HA & Hs);
    [done|by rewrite Hch, list_lookup_middle|done|].
  assert (lc = ln) as ->.
  { pose proof Hcr as (_ & _ & m & Hm' & Hmr)%erepr_S.
    assert (m = n) as -> by congruence. by eapply nrepr_fun. }
  exists st', cl1, c, cl2, ls1, ls2, lb', la'. split_and!; try done.
  split; try done.
  - split; [by rewrite HLp|]. exists (ls1 ++ ln :: ls2). split.
    + rewrite Hch. apply Forall2_app; [done|]. by constructor.
    + by rewrite concat_app.
  - rewrite <- !app_assoc in *. done.
  - simpl in *. lia.
Qed.

(** ** Rewriting the current node, and leaving a rewritten subtree *)

Lemma Loc_rewriteNodeChildren h st fs n i lb ln la cl ls :
  Loc h st fs n i lb ln la →
  Forall2 (erepr t B h) cl ls → kvs_ok t B (lb ++ concat ls ++ la) →
  ∃ st', rewriteNodeChildren t cl st = Ok st' ∧
    Loc h st' fs (mkNode (Leafy n) cl None) i lb (concat ls) la ∧
    smallCount st' =
      (smallCount st +
       if Leafy n && (Msgsize (mkNode (Leafy n) cl None) <=? smallSize t) then 1 else 0)%Z.
Proof.
  intros [H1 H2 H3 H4 H5] HF Hok.
  destruct (rewriteNodeChildren_At t cl st fs n i) as (st' & Hst' & HA & Hs).
  - apply H1.
  - eapply check_erepr; [done|]. by eapply kvs_ok_app_l, kvs_ok_app_r.
  - exists st'. split; [done|]. split; [|done]. split; try done.
    apply nrepr_mk; [|done]. by destruct H3.
Qed.

Lemma Loc_rewriteAtIndex (replace : bool) c h st fs n lb ln la cl1 old cl2 ls :
  Loc h st fs n (Z.of_nat (length cl1)) lb ln la →
  Children n = cl1 ++ (if replace then [old] else []) ++ cl2 →
  (replace = false → c ≠ None) →
  Forall2 (erepr t B h) (cl1 ++ option_list c ++ cl2) ls → kvs_ok t B (lb ++ concat ls ++ la) →
  ∃ st', rewriteAtIndex t replace c st = Ok st' ∧
    Loc h st' fs (mkNode (Leafy n) (cl1 ++ option_list c ++ cl2) None)
        (Z.of_nat (length cl1)) lb (concat ls) la ∧
    smallCount st' =
      (smallCount st +
       if Leafy n && (Msgsize (mkNode (Leafy n) (cl1 ++ option_list c ++ cl2) None)
                        <=? smallSize t) then 1 else 0)%Z.
Proof.
  intros [H1 H2 H3 H4 H5] Hcl Hrep HF Hok.
  destruct (rewriteAtIndex_At t replace c cl1 old cl2 st fs n) as (st' & Hst' & HA & Hs);
    [apply H1|done|done| |].
  - eapply check_erepr; [done|]. by eapply kvs_ok_app_l, kvs_ok_app_r.
  - exists st'. split; [done|]. split; [|done]. split; try done.
    apply nrepr_mk; [|done]. by destruct H3.
Qed.

Lemma Loc_pop h st p j fs n i lb ln la :
  Loc h st ((p, j) :: fs) n i lb ln la →
  ∃ st' cl1 old cl2 ls1 lsn ls2 lb' la',
    pop t st = Ok st' ∧ j = Z.of_nat (length cl1) ∧ Children p = cl1 ++ old :: cl2 ∧
    Forall2 (erepr t B (S h)) cl1 ls1 ∧ Forall2 (erepr t B (S h)) (newc t n) lsn ∧
    Forall2 (erepr t B (S h)) cl2 ls2 ∧ concat lsn = ln ∧
    lb = lb' ++ concat ls1 ∧ la = concat ls2 ++ la' ∧
    Loc (S h) st' fs (mkNode false (cl1 ++ newc t n ++ cl2) None) j
        lb' (concat ls1 ++ ln ++ concat ls2) la' ∧
    smallCount st' = smallCount st.
Proof.
  intros [H1 H2 H3 H4 H5].
  destruct H2 as (cl1 & old & cl2 & ls1 & ls2 & lb' & la' & HLp & Hch & -> & HF1 & HF2 & Hctx & -> & ->).
  destruct (newc_repr t B h n ln) as (lsn & HFn & Hlsn); [done| |].
  { destruct H4 as [_ H4]. rewrite !Forall_app in H4. naive_solver. }
  assert (Forall2 (erepr t B (S h)) (cl1 ++ newc t n ++ cl2) (ls1 ++ lsn ++ ls2)) as HF.
  { by repeat apply Forall2_app. }
  assert (concat (ls1 ++ lsn ++ ls2) = concat ls1 ++ ln ++ concat ls2) as Hc.
  { by rewrite !concat_app, Hlsn. }
  assert (kvs_ok t B (lb' ++ (concat ls1 ++ ln ++ concat ls2) ++ la')) as Hok.
  { rewrite <- !app_assoc in *. done. }
  destruct (pop_At t st p cl1 old cl2 fs n i) as (st' & Hpop & HA & Hs);
    [apply H1|done|done| |].
  { eapply check_erepr; [done|]. rewrite Hc. by eapply kvs_ok_app_l, kvs_ok_app_r. }
  exists st', cl1, old, cl2, ls1, lsn, ls2, lb', la'. split_and!; try done.
  split; try done.
  - rewrite <- Hc. by apply nrepr_mk.
  - simpl in *. lia.
Qed.

(** Leaving all rewritten subtrees: the tree holds the same list. *)
Lemma Loc_pop_all fuel h st fs n i lb ln la :
  Loc h st fs n i lb ln la → length fs ≤ fuel →
  ∃ st' n' i', pop_all t fuel st = Ok st' ∧
    Loc (h + length fs) st' [] n' i' [] (lb ++ ln ++ la) [] ∧
    smallCount st' = smallCount st ∧ (fs = [] → st' = st ∧ n' = n).
Proof.
  revert h st fs n i lb ln la. induction fuel as [|fuel IH]; intros h st fs n i lb ln la HL Hf;
    pose proof (path_top _ _ _ _ (Loc_path _ _ _ _ _ _ _ _ HL)) as Ht.
  - destruct fs; [|simpl in Hf; lia]. simpl in *. rewrite Ht. exists st, n, i.
    destruct (loc_ctx _ _ _ _ _ _ _ _ HL) as [-> ->]. rewrite Nat.add_0_r, app_nil_r. done.
  - destruct fs as [|[p j] fs]; simpl pop_all; rewrite Ht; simpl length.
    + exists st, n, i. destruct (loc_ctx _ _ _ _ _ _ _ _ HL) as [-> ->].
      rewrite Nat.add_0_r, app_nil_r. done.
    + destruct (Loc_pop _ _ _ _ _ _ _ _ _ _ HL)
        as (st1 & cl1 & old & cl2 & ls1 & lsn & ls2 & lb' & la' & Hpop & _ & _ & _ & _ & _ & _ &
            -> & -> & HL1 & Hs1).
      rewrite Hpop. cbn [res_bind]. simpl in Hf.
      destruct (IH _ _ _ _ _ _ _ _ HL1) as (st' & n' & i' & -> & HL' & Hs' & _); [lia|].
      exists st', n', i'. split; [done|]. split_and!; [|congruence|done].
      rewrite Nat.add_succ_r. simpl in HL'. rewrite <- !app_assoc in *. done.
Qed.

(** ** Reading a located cursor *)

Lemma Loc_node_eq {h st fs n i lb ln la} : Loc h st fs n i lb ln la → node st = Ok n.
Proof. intros HL. by eapply node_Path, Loc_path. Qed.
Lemma Loc_index_eq {h st fs n i lb ln la} : Loc h st fs n i lb ln la → index st = Ok i.
Proof. intros HL. by eapply index_Path, Loc_path. Qed.
Lemma Loc_top_eq {h st fs n i lb ln la} : Loc h st fs n i lb ln la → top st = length fs.
Proof. intros HL. by eapply path_top, Loc_path. Qed.
Lemma Loc_child_eq {h st fs n lb ln la cl1 c cl2} :
  Loc h st fs n (Z.of_nat (length cl1)) lb ln la → Children n = cl1 ++ c :: cl2 →
  child st = Ok (Some c).
Proof.
  intros HL Hch. eapply child_Path_in; [by eapply Loc_path|]. by rewrite Hch, list_lookup_middle.
Qed.
Lemma Loc_childNode_eq {h st fs n i lb ln la cl1 c cl2 m} :
  Loc (S h) st fs n i lb ln la → Children n = cl1 ++ c :: cl2 → resolve t c = Ok (Some m) →
  Stack_childNode t (Z.of_nat (length cl1)) st = Ok (Some m).
Proof.
  intros HL Hch Hm. eapply Stack_childNode_At; [apply HL| | |done].
  - pose proof (loc_depth _ _ _ _ _ _ _ _ HL). lia.
  - by rewrite Hch, list_lookup_middle.
Qed.

(** Leaving a rewritten subtree whose surroundings are known. *)
Lemma Loc_pop_known h st p cl1 old cl2 fs n i lb ln la ls1 ls2 c0 cl0 :
  Loc h st ((p, Z.of_nat (length cl1)) :: fs) n i (lb ++ concat ls1) ln (concat ls2 ++ la) →
  Children p = cl1 ++ old :: cl2 → Children n = c0 :: cl0 →
  Forall2 (erepr t B (S h)) cl1 ls1 → Forall2 (erepr t B (S h)) cl2 ls2 →
  crepr t B (S h) fs lb la →
  ∃ st', pop t st = Ok st' ∧
    erepr t B (S h) (mkSubtreeChild t (cKey c0) n) ln ∧
    Loc (S h) st' fs (mkNode false (cl1 ++ mkSubtreeChild t (cKey c0) n :: cl2) None)
        (Z.of_nat (length cl1)) lb (concat ls1 ++ ln ++ concat ls2) la.
Proof.
  intros [H1 H2 H3 H4 H5] Hch Hn HF1 HF2 Hctx.
  destruct (newc_repr t B h n ln) as (lsn & HFn & Hlsn); [done| |].
  { destruct H4 as [_ H4]. rewrite !Forall_app in H4. naive_solver. }
  assert (newc t n = [mkSubtreeChild t (cKey c0) n]) as En by (unfold newc; by rewrite Hn).
  rewrite En in HFn. inversion HFn as [|? lc ? ? He HF0]; subst. inversion HF0; subst.
  simpl in H3, H4, H1, H2 |- *. rewrite app_nil_r in *.
  assert (Forall2 (erepr t B (S h)) (cl1 ++ mkSubtreeChild t (cKey c0) n :: cl2)
            (ls1 ++ lc :: ls2)) as HF.
  { apply Forall2_app; [done|]. by constructor. }
  assert (concat (ls1 ++ lc :: ls2) = concat ls1 ++ lc ++ concat ls2) as Hc by (by rewrite concat_app).
  assert (Leafy p = false) as HLp.
  { simpl in H2. destruct H2 as (? & ? & ? & ? & ? & ? & ? & ? & _). done. }
  assert (kvs_ok t B (lb ++ (concat ls1 ++ lc ++ concat ls2) ++ la)) as Hok.
  { rewrite <- !app_assoc in *. done. }
  destruct (pop_At t st p cl1 old cl2 fs n i) as (st' & Hpop & HA & Hs);
    [apply H1|done|done| |].
  { rewrite En. eapply check_erepr; [done|]. rewrite Hc. by eapply kvs_ok_app_l, kvs_ok_app_r. }
  exists st'. split_and!; [done|done|]. rewrite En in HA. split; try done.
  - rewrite <- Hc. by apply nrepr_mk.
  - simpl in *. lia.
Qed.

End loc.
