(* ===== verification/IBSearch.v ===== *)
(** * Search and iteration over the leaves

    [search] goes to the leaf, and the position in it, where a key is or would
    be; [goNextLeaf] and [goPreviousLeaf] move a cursor by one leaf entry. *)
From stdpp Require Import base list sets strings sorting.
From Stdlib Require Import ZArith Lia.
From S2P Require Import Prelude OrderedMap IBNode IBStack IBRepr IBStackFacts IBLoc.

Section search.
Context `{Hsz : MsgpSizes} (t : Tree) (B : Z).

Abbreviation kvs_of := (map pair_of_child).

(** ** Leaves *)

Lemma erepr_0_kvs cl ls : Forall2 (erepr t B 0) cl ls → concat ls = kvs_of cl.
Proof.
  induction 1 as [|c lc cl ls Hc HF IH]; [done|]. simpl. rewrite IH.
  destruct Hc as (_ & _ & _ & ->). done.
Qed.

Lemma nrepr_0_kvs n l : nrepr t B 0 n l → l = kvs_of (Children n).
Proof. intros (_ & ls & HF & ->). by apply erepr_0_kvs. Qed.

(** ** The two binary searches *)

Lemma sorted_children_mono cl (P : Key → bool) :
  StronglySorted (λ a b, klt (cKey a) (cKey b)) cl →
  (∀ k k', klt k k' → P k = true → P k' = true) →
  ∀ a b, a ≤ b → b < length cl →
    match cl !! a with Some c => P (cKey c) | None => true end = true →
    match cl !! b with Some c => P (cKey c) | None => true end = true.
Proof.
  intros Hs HP a b Hab Hb Ha.
  destruct (cl !! b) as [cb|] eqn:Eb; [|done].
  destruct (decide (a = b)) as [->|Hne]; [by rewrite Eb in Ha|].
  destruct (cl !! a) as [ca|] eqn:Ea; [|apply lookup_ge_None in Ea; lia].
  eapply HP; [|done].
  apply list_split_at in Ea. rewrite Ea in Hs, Eb.
  apply StronglySorted_app in Hs as (_ & _ & Hs).
  apply StronglySorted_inv in Hs as [_ Hs]. rewrite Forall_forall in Hs. apply Hs.
  assert (length (take a cl) = a) as Hl.
  { rewrite length_take. lia. }
  rewrite lookup_app_r in Eb by lia. rewrite Hl in Eb.
  destruct (b - a) as [|d] eqn:E; [lia|]. simpl in Eb. by eapply list_elem_of_lookup_2.
Qed.

Lemma search_boundary cl (P : Key → bool) :
  StronglySorted (λ a b, klt (cKey a) (cKey b)) cl →
  (∀ k k', klt k k' → P k = true → P k' = true) →
  let r := sort_Search (length cl)
    (λ i, match cl !! i with Some c => P (cKey c) | None => true end) in
  ∃ cl1 cl2, cl = cl1 ++ cl2 ∧ r = length cl1 ∧
    (∀ c, c ∈ cl1 → P (cKey c) = false) ∧ (∀ c, c ∈ cl2 → P (cKey c) = true).
Proof.
  intros Hs HP r.
  destruct (sort_Search_spec
    (λ i, match cl !! i with Some c => P (cKey c) | None => true end) (length cl))
    as (Hr & Hlo & Hhi).
  { by apply sorted_children_mono. }
  fold r in Hr, Hlo, Hhi. exists (take r cl), (drop r cl).
  split_and!; [by rewrite take_drop|rewrite length_take; lia| |].
  - intros c Hc. apply list_elem_of_lookup in Hc as [i Hi].
    apply lookup_take_Some in Hi as [Hi Hir].
    specialize (Hlo i Hir). by rewrite Hi in Hlo.
  - intros c Hc. apply list_elem_of_lookup in Hc as [i Hi].
    rewrite lookup_drop in Hi. specialize (Hhi (r + i)). rewrite Hi in Hhi.
    apply Hhi; [lia|]. by eapply lookup_lt_Some.
Qed.

Lemma search_leaf_index_spec key cl :
  StronglySorted (λ a b, klt (cKey a) (cKey b)) cl →
  ∃ cl1 cl2, cl = cl1 ++ cl2 ∧ search_leaf_index key cl = Z.of_nat (length cl1) ∧
    (∀ c, c ∈ cl1 → klt (cKey c) key) ∧ (∀ c, c ∈ cl2 → kleb key (cKey c) = true).
Proof.
  intros Hs. destruct (search_boundary cl (kleb key) Hs) as (cl1 & cl2 & Hcl & Hr & H1 & H2).
  { intros k k' Hk [->|Hle]%kleb_true; apply kleb_true; right; [done|]. by eapply klt_trans. }
  exists cl1, cl2. split_and!; try done.
  - unfold search_leaf_index. by rewrite Hr.
  - intros c Hc. apply kleb_false. by apply H1.
Qed.

Lemma search_interior_index_spec key cl :
  StronglySorted (λ a b, klt (cKey a) (cKey b)) cl → cl ≠ [] →
  ∃ cl1 c cl2, cl = cl1 ++ c :: cl2 ∧ search_interior_index key cl = Z.of_nat (length cl1) ∧
    (cl1 = [] ∨ kleb (cKey c) key = true) ∧ (∀ c', c' ∈ cl2 → klt key (cKey c')).
Proof.
  intros Hs Hne. destruct (search_boundary cl (kltb key) Hs) as (cl1 & cl2 & Hcl & Hr & H1 & H2).
  { intros k k' Hk Hlt. by eapply klt_trans. }
  unfold search_interior_index. rewrite Hr. clear Hr.
  destruct cl1 as [|c0 cl1' _] using rev_ind.
  - destruct cl2 as [|c cl2]; [done|]. exists [], c, cl2. split_and!; try done.
    + auto.
    + intros c' Hc'. apply H2. set_solver.
  - exists cl1', c0, cl2. rewrite length_app. simpl.
    destruct (Z.ltb_spec (Z.of_nat (length cl1' + 1) - 1) 0); [lia|].
    split_and!; [by rewrite Hcl, <- app_assoc|lia| |done].
    right. specialize (H1 c0). unfold kleb. rewrite H1; [done|]. set_solver.
Qed.

(** ** Search *)

Lemma in_concat_elem {A : Type} (ls : list (list A)) (x : A) :
  x ∈ concat ls ↔ ∃ l, l ∈ ls ∧ x ∈ l.
Proof.
  rewrite list_elem_of_In, in_concat. setoid_rewrite list_elem_of_In. done.
Qed.

(** Bounds on entry keys carry over to everything below them. *)
Lemma erepr_all_gt h cl ls key :
  Forall2 (erepr t B h) cl ls → kvs_ok t B (concat ls) →
  (∀ c, c ∈ cl → klt key (cKey c)) → all_gt (concat ls) key.
Proof.
  intros HF [Hs _] Hk p Hp. apply in_concat_elem in Hp as (lc & Hlc & Hp).
  apply list_elem_of_lookup in Hlc as [i Hi].
  destruct (Forall2_lookup_r _ _ _ _ _ HF Hi) as (c & Hc & Her).
  apply list_split_at in Hi. rewrite Hi, concat_app in Hs. simpl in Hs.
  apply sorted_kvs_app_r, sorted_kvs_app_l in Hs.
  apply erepr_head in Her as (v & rest & ->).
  assert (klt key (cKey c)) as Hkc by (apply Hk; by eapply list_elem_of_lookup_2).
  apply elem_of_cons in Hp as [->|Hp]; [done|].
  apply sorted_kvs_cons in Hs as [Hs _]. eapply klt_trans; [done|]. by apply Hs.
Qed.

(** Everything left of an entry is below the entry's key. *)
Lemma erepr_all_lt h c lc lb key :
  erepr t B h c lc → sorted_kvs (lb ++ lc) → kleb (cKey c) key = true → all_lt lb key.
Proof.
  intros (v & rest & ->)%erepr_head Hs Hk p Hp.
  apply sorted_kvs_mid in Hs as (_ & _ & Hs & _). simpl in Hs.
  apply kleb_true in Hk as [<-|Hk]; [by apply Hs|].
  eapply klt_trans; [|done]. by apply Hs.
Qed.

Lemma search_loop_spec fuel key h st fs n i lb ln la :
  Loc t B h st fs n i lb ln la → clean t B h fs n →
  all_lt lb key → all_gt la key → (h = 0 ∨ ln ≠ []) → h < fuel →
  ∃ st' fs' leaf cl1 cl2 lb' la',
    search_loop t fuel key n st = Ok st' ∧
    Loc t B 0 st' fs' leaf (Z.of_nat (length cl1)) lb' (kvs_of (cl1 ++ cl2)) la' ∧
    clean t B 0 fs' leaf ∧ Children leaf = cl1 ++ cl2 ∧
    lb ++ ln ++ la = (lb' ++ kvs_of cl1) ++ (kvs_of cl2 ++ la') ∧
    all_lt (lb' ++ kvs_of cl1) key ∧ all_ge (kvs_of cl2) key ∧ all_gt la' key ∧
    length fs' = h + length fs ∧ root_of fs' leaf = root_of fs n ∧
    smallCount st' = smallCount st.
Proof.
  revert h st fs n i lb ln la.
  induction fuel as [|fuel IH]; intros h st fs n i lb ln la HL Hcl Hlb Hla Hne Hf; [lia|].
  cbn [search_loop]. pose proof HL as [HA Hctx Hn Hok Hd].
  pose proof Hn as (HLf & ls & HF & Hln).
  assert (kvs_ok t B (concat ls)) as Hokn.
  { rewrite <- Hln. by eapply kvs_ok_app_l, kvs_ok_app_r. }
  destruct (erepr_keys_sorted _ _ _ _ _ HF Hokn) as [_ Hks].
  destruct h as [|h].
  - rewrite HLf. cbn [Nat.eqb].
    destruct (search_leaf_index_spec key _ Hks) as (cl1 & cl2 & Hch & Hidx & H1 & H2).
    rewrite Hidx.
    destruct (Loc_setIndex t B _ _ _ _ _ _ _ _ (Z.of_nat (length cl1)) HL) as (st' & -> & HL' & Hs).
    assert (ln = kvs_of (cl1 ++ cl2)) as Hkn by (rewrite <- Hch; by apply nrepr_0_kvs).
    rewrite Hkn in HL'.
    exists st', fs, n, cl1, cl2, lb, la. split_and!; try done.
    + rewrite Hkn, map_app, <- !app_assoc. done.
    + apply all_lt_app. split; [done|]. intros p Hp.
      apply list_elem_of_fmap in Hp as (c & -> & Hc). by apply H1.
    + intros p Hp. apply list_elem_of_fmap in Hp as (c & -> & Hc). by apply H2.
  - rewrite HLf. cbn [Nat.eqb].
    destruct Hne as [?|Hne]; [done|].
    destruct (search_interior_index_spec key (Children n) Hks) as (cl1 & c & cl2 & Hch & Hidx & H1 & H2).
    { intros Hnil. apply Hne. by eapply nrepr_children_nil. }
    rewrite Hidx. rewrite Hch in HF.
    apply Forall2_app_inv_l in HF as (ls1 & ls' & HF1 & HF' & ->).
    apply Forall2_cons_inv_l in HF' as (lc & ls2 & Hc & HF2 & ->).
    pose proof Hc as (_ & _ & m & Hm & Hmr)%erepr_S.
    rewrite (Stack_childNode_At t st fs n i (length cl1) c m); [|done|lia| |done].
    2:{ by rewrite Hch, list_lookup_middle. }
    cbn [res_bind].
    destruct (Loc_push t B _ _ _ _ _ _ _ _ _ _ _ _ HL Hch Hm)
      as (st1 & ls1' & lc' & ls2' & -> & HF1' & Hc' & HF2' & Heq & HL1 & Hs1).
    assert (ls1' = ls1) as -> by (by eapply Forall2_erepr_fun).
    assert (lc' = lc) as -> by (by eapply erepr_fun).
    assert (ls2' = ls2) as -> by (by eapply Forall2_erepr_fun).
    cbn [res_bind]. clear HF1' Hc' HF2'. rewrite concat_app in Hokn. simpl in Hokn.
    destruct (IH _ _ _ _ _ _ _ _ HL1) as
      (st' & fs' & leaf & d1 & d2 & lb' & la' & Hst' & HL' & Hcl' & Hchl & Hsplit & G1 & G2 & G3 & G4 & G5 & G6).
    + by eapply clean_push.
    + apply all_lt_app. split; [done|]. destruct H1 as [->|H1].
      * inversion HF1. subst. apply all_lt_nil.
      * eapply erepr_all_lt; [done| |done]. destruct Hokn as [Hokn _].
        rewrite app_assoc in Hokn. by apply sorted_kvs_app_l in Hokn.
    + apply all_gt_app. split; [|done]. eapply erepr_all_gt; [done| |done].
      by eapply kvs_ok_app_r, kvs_ok_app_r.
    + right. by eapply erepr_not_nil.
    + lia.
    + exists st', fs', leaf, d1, d2, lb', la'. split_and!; try done.
      * rewrite <- Hsplit, Heq, <- !app_assoc. done.
      * rewrite G4. simpl. lia.
      * rewrite G5, root_of_cons. done.
      * congruence.
Qed.

(** The cursor at the position of a key in a tree. *)
Definition Found (key : Key) (st : Stack) (root : Node) (l : list kv) : Prop :=
  ∃ fs leaf cl1 cl2 lb la,
    Loc t B 0 st fs leaf (Z.of_nat (length cl1)) lb (kvs_of (cl1 ++ cl2)) la ∧
    clean t B 0 fs leaf ∧ Children leaf = cl1 ++ cl2 ∧
    l = (lb ++ kvs_of cl1) ++ (kvs_of cl2 ++ la) ∧
    all_lt (lb ++ kvs_of cl1) key ∧ all_ge (kvs_of cl2) key ∧ all_gt la key ∧
    root_of fs leaf = root.

Lemma search_Found key h st root i l :
  Loc t B h st [] root i [] l [] → (h = 0 ∨ l ≠ []) →
  ∃ st', search t key st = Ok st' ∧ Found key st' root l ∧ smallCount st' = smallCount st ∧
         top st' = h.
Proof.
  intros HL Hne. unfold search. rewrite (root_of_Path _ _ _ (Loc_path _ _ _ _ _ _ _ _ _ _ HL)).
  cbn [res_bind deref].
  assert (with_top 0 st = st) as ->.
  { pose proof (path_top _ _ _ _ (Loc_path _ _ _ _ _ _ _ _ _ _ HL)) as Ht.
    destruct st; simpl in *. by rewrite Ht. }
  destruct (search_loop_spec depth_fuel key h st [] root i [] l [])
    as (st' & fs' & leaf & cl1 & cl2 & lb & la & Hst & HL' & Hcl & Hch & Hl & H1 & H2 & H3 & H4 & H5 & H6);
    try done.
  - apply all_lt_nil.
  - apply all_gt_nil.
  - pose proof (loc_depth _ _ _ _ _ _ _ _ _ _ HL). unfold depth_fuel. simpl in *. lia.
  - exists st'. split; [done|]. split_and!; [|done|].
    + exists fs', leaf, cl1, cl2, lb, la. split_and!; try done.
      by rewrite app_nil_r in Hl.
    + rewrite (path_top _ _ _ _ (Loc_path _ _ _ _ _ _ _ _ _ _ HL')), H4. simpl. lia.
Qed.

End search.
