(* ===== verification/IBWalk.v ===== *)
(** * Walking to the next and previous leaf entry *)
From stdpp Require Import base list sets strings sorting.
From Stdlib Require Import ZArith Lia.
From S2P Require Import Prelude OrderedMap IBNode IBStack IBRepr IBStackFacts IBLoc IBSearch.

Section walk.
Context `{Hsz : MsgpSizes} (t : Tree) (B : Z).

Abbreviation kvs_of := (map pair_of_child).

(** ** Back to the root without changes *)

Lemma popNode_with_top st p st' :
  popNode st = Ok (p, st') → with_top 0 st' = with_top 0 st.
Proof.
  unfold popNode. destruct (node_ptr st); simpl; try done.
  destruct (top st); [done|]. by intros [= <- <-].
Qed.

Lemma Loc_with_top h st fs n i lb ln la :
  Loc t B h st fs n i lb ln la → clean t B h fs n →
  ∃ i', Loc t B (h + length fs) (with_top 0 st) [] (root_of fs n) i' [] (lb ++ ln ++ la) [].
Proof.
  revert h st n i lb ln la. induction fs as [|[p j] fs IH]; intros h st n i lb ln la HL Hcl.
  - exists i. pose proof (path_top _ _ _ _ (Loc_path _ _ _ _ _ _ _ _ _ _ HL)) as Ht.
    assert (with_top 0 st = st) as -> by (destruct st; simpl in *; by rewrite Ht).
    destruct (loc_ctx _ _ _ _ _ _ _ _ _ _ HL) as [-> ->].
    simpl. rewrite Nat.add_0_r, app_nil_r. done.
  - destruct (Loc_popNode _ _ _ _ _ _ _ _ _ _ _ _ HL Hcl)
      as (st' & cl1 & c & cl2 & ls1 & ls2 & lb' & la' & Hpop & -> & Hch & HF1 & Hc & HF2 & -> & -> & HL' & Hcl' & _).
    destruct (IH _ _ _ _ _ _ _ HL' Hcl') as [i' HL2].
    exists i'. rewrite root_of_cons. rewrite (popNode_with_top _ _ _ Hpop) in HL2.
    simpl length. rewrite Nat.add_succ_r. simpl in HL2. rewrite <- !app_assoc in *. done.
Qed.

(** ** Cursors between two leaf entries *)

(** [Before st root l1 l2]: the cursor is at the first entry of [l2]. *)
Definition Before (st : Stack) (root : Node) (l1 l2 : list kv) : Prop :=
  ∃ fs leaf cl1 c cl2 lb la,
    Loc t B 0 st fs leaf (Z.of_nat (length cl1)) lb (kvs_of (cl1 ++ c :: cl2)) la ∧
    clean t B 0 fs leaf ∧ Children leaf = cl1 ++ c :: cl2 ∧
    l1 = lb ++ kvs_of cl1 ∧ l2 = kvs_of (c :: cl2) ++ la ∧ root_of fs leaf = root.

(** [AtEnd]: the cursor is at the root, past its last entry; [AtStart]: before
    its first. *)
Definition AtEnd (h : nat) (st : Stack) (root : Node) (l : list kv) : Prop :=
  Loc t B h st [] root (Z.of_nat (length (Children root))) [] l [].
Definition AtStart (h : nat) (st : Stack) (root : Node) (l : list kv) : Prop :=
  Loc t B h st [] root (-1)%Z [] l [].

Lemma Before_child st root l1 l2 :
  Before st root l1 l2 → ∃ c l2', child st = Ok (Some c) ∧ l2 = pair_of_child c :: l2'.
Proof.
  intros (fs & leaf & cl1 & c & cl2 & lb & la & HL & _ & Hch & _ & -> & _).
  exists c, (kvs_of cl2 ++ la). split; [|done].
  eapply child_Path_in; [by eapply Loc_path|]. by rewrite Hch, list_lookup_middle.
Qed.

(** ** Descending *)

Lemma descend_spec fuel (lst : bool) h st fs n i lb ln la cl1 c cl2 ls1 lc ls2 :
  Loc t B h st fs n i lb ln la → clean t B h fs n → Children n = cl1 ++ c :: cl2 →
  Forall2 (erepr t B h) cl1 ls1 → erepr t B h c lc → Forall2 (erepr t B h) cl2 ls2 →
  h < fuel →
  ∃ st' fs' leaf i' d1 d d2 lb' la',
    descend t fuel lst (Z.of_nat (length cl1)) st = Ok (Z.of_nat (length d1), st') ∧
    Loc t B 0 st' fs' leaf i' lb' (kvs_of (d1 ++ d :: d2)) la' ∧
    clean t B 0 fs' leaf ∧ Children leaf = d1 ++ d :: d2 ∧
    (if lst then
       lb' ++ kvs_of (d1 ++ [d]) = (lb ++ concat ls1) ++ lc ∧ kvs_of d2 ++ la' = concat ls2 ++ la
     else
       lb' ++ kvs_of d1 = lb ++ concat ls1 ∧ kvs_of (d :: d2) ++ la' = lc ++ concat ls2 ++ la) ∧
    (lst = false → h ≠ 0 → i' = Z.of_nat (length d1)) ∧
    root_of fs' leaf = root_of fs n ∧ length fs' = h + length fs ∧
    smallCount st' = smallCount st.
Proof.
  revert h st fs n i lb ln la cl1 c cl2 ls1 lc ls2. induction fuel as [|fuel IH];
    intros h st fs n i lb ln la cl1 c cl2 ls1 lc ls2 HL Hcl Hch HF1 Hc HF2 Hf; [lia|].
  cbn [descend]. rewrite (node_Path _ _ _ _ (Loc_path _ _ _ _ _ _ _ _ _ _ HL)).
  cbn [res_bind]. pose proof (loc_node _ _ _ _ _ _ _ _ _ _ HL) as Hn.
  rewrite (proj1 Hn). destruct h as [|h]; cbn [Nat.eqb].
  - apply nrepr_0_kvs in Hn. rewrite Hch in Hn. subst ln.
    exists st, fs, n, i, cl1, c, cl2, lb, la. split_and!; try done.
    rewrite (erepr_0_kvs _ _ _ _ HF1), (erepr_0_kvs _ _ _ _ HF2).
    destruct Hc as (_ & _ & _ & ->). destruct lst; [|done].
    rewrite map_app, <- app_assoc. done.
  - destruct (Loc_pushIndex _ _ _ _ _ _ _ _ _ _ _ _ _ HL Hch)
      as (m & st1 & ls1' & lc' & ls2' & Hm & -> & HF1' & Hc' & HF2' & _ & HL1 & Hs1).
    assert (ls1' = ls1) as -> by (by eapply Forall2_erepr_fun).
    assert (lc' = lc) as -> by (by eapply erepr_fun).
    assert (ls2' = ls2) as -> by (by eapply Forall2_erepr_fun).
    cbn [res_bind]. rewrite (node_Path _ _ _ _ (Loc_path _ _ _ _ _ _ _ _ _ _ HL1)).
    cbn [res_bind].
    pose proof (loc_node _ _ _ _ _ _ _ _ _ _ HL1) as (_ & lsm & HFm & Hlc).
    assert (Children m ≠ []) as Hmne.
    { intros E. rewrite E in HFm. inversion HFm; subst. by apply erepr_not_nil in Hc'. }
    assert (∃ e1 e e2, Children m = e1 ++ e :: e2 ∧
              (if lst then Z.of_nat (length (Children m)) - 1 else 0)%Z = Z.of_nat (length e1) ∧
              (if lst then e2 = [] else e1 = [])) as (e1 & e & e2 & He & Hidx & Hee).
    { destruct lst.
      - destruct (Children m) as [|e e1 _] using rev_ind; [done|].
        exists e1, e, []. rewrite length_app. simpl. split_and!; [done|lia|done].
      - destruct (Children m) as [|e e2]; [done|]. by exists [], e, e2. }
    rewrite Hidx. rewrite He in HFm.
    apply Forall2_app_inv_l in HFm as (k1 & k' & HG1 & HG' & ->).
    apply Forall2_cons_inv_l in HG' as (ke & k2 & He' & HG2 & ->).
    rewrite concat_app in Hlc. simpl in Hlc.
    destruct (IH _ _ _ _ _ _ _ _ e1 e e2 k1 ke k2 HL1) as
      (st' & fs' & leaf & i' & d1 & d & d2 & lb' & la' & Hd & HL' & Hcl' & Hchl & Hcont & Hi & Hr & Hlen & Hs);
      try done; [by eapply clean_push|lia|].
    exists st', fs', leaf, i', d1, d, d2, lb', la'. split_and!; try done.
    + destruct lst.
      * subst e2. inversion HG2; subst k2. simpl in *. rewrite app_nil_r in Hlc.
        destruct Hcont as [Hc1 Hc2]. rewrite Hc1, Hlc, <- !app_assoc. done.
      * subst e1. inversion HG1; subst k1. simpl in *.
        destruct Hcont as [Hc1 Hc2]. rewrite app_nil_r in Hc1.
        rewrite Hc1, Hc2, Hlc, <- !app_assoc. done.
    + intros -> _. destruct (decide (h = 0)) as [->|Hh0]; [|by apply Hi].
      (* the child is a leaf: the push left its index at 0 *)
      destruct fuel as [|fuel']; [lia|]. cbn [descend] in Hd.
      rewrite (node_Path _ _ _ _ (Loc_path _ _ _ _ _ _ _ _ _ _ HL1)) in Hd. cbn [res_bind] in Hd.
      rewrite (nrepr_Leafy_0 _ _ _ _ (loc_node _ _ _ _ _ _ _ _ _ _ HL1)) in Hd.
      injection Hd as Hd1 <-.
      pose proof (path_index _ _ _ _ (Loc_path _ _ _ _ _ _ _ _ _ _ HL')) as Hx.
      rewrite (path_index _ _ _ _ (Loc_path _ _ _ _ _ _ _ _ _ _ HL1)) in Hx.
      injection Hx as <-. rewrite Hee in Hd1. simpl in Hd1. done.
    + rewrite Hr, root_of_cons. done.
    + rewrite Hlen. simpl. lia.
    + congruence.
Qed.

(** ** Next entry *)

Lemma goNextLeaf_loop_spec fuel h st fs n i lb ln la cl1 cl2 ls1 ls2 :
  Loc t B h st fs n i lb ln la → clean t B h fs n → Children n = cl1 ++ cl2 →
  Forall2 (erepr t B h) cl1 ls1 → Forall2 (erepr t B h) cl2 ls2 →
  (i + 1 = Z.of_nat (length cl1) ∨ (cl2 = [] ∧ i = Z.of_nat (length cl1)))%Z →
  length fs < fuel →
  ∃ b st', goNextLeaf_loop t fuel st = Ok (b, st') ∧ smallCount st' = smallCount st ∧
    (if decide (concat ls2 ++ la = []) then
       AtEnd (h + length fs) st' (root_of fs n) (lb ++ ln ++ la)
     else Before st' (root_of fs n) (lb ++ concat ls1) (concat ls2 ++ la)).
Proof.
  revert h st fs n i lb ln la cl1 cl2 ls1 ls2. induction fuel as [|fuel IH];
    intros h st fs n i lb ln la cl1 cl2 ls1 ls2 HL Hcl Hch HF1 HF2 Hi Hf; [lia|].
  cbn [goNextLeaf_loop]. pose proof (Loc_path _ _ _ _ _ _ _ _ _ _ HL) as HP.
  rewrite (index_Path _ _ _ _ HP), (node_Path _ _ _ _ HP). cbn [res_bind].
  assert (length (Children n) = length cl1 + length cl2) as El by (by rewrite Hch, length_app).
  rewrite El. destruct cl2 as [|c cl2].
  - (* nothing right of the cursor in this node *)
    inversion HF2; subst ls2. simpl in *.
    destruct (Z.ltb_spec (i + 1) (Z.of_nat (length cl1 + 0))); [lia|].
    rewrite (path_top _ _ _ _ HP).
    destruct fs as [|[p j] fs].
    + simpl. destruct (loc_ctx _ _ _ _ _ _ _ _ _ _ HL) as [-> ->]. simpl.
      destruct (Z.eqb_spec i (Z.of_nat (length cl1 + 0))) as [->|Hne].
      * exists false, st. split; [done|]. split; [done|]. unfold AtEnd.
        unfold root_of; simpl. by rewrite El, (Nat.add_0_r h), app_nil_r.
      * destruct (Loc_setIndex _ _ _ _ _ _ _ _ _ _ (Z.of_nat (length cl1 + 0)) HL) as (st' & -> & HL' & Hs).
        exists true, st'. split; [done|]. split; [done|]. unfold AtEnd.
        unfold root_of; simpl. by rewrite El, (Nat.add_0_r h), app_nil_r.
    + simpl. destruct (Loc_popNode _ _ _ _ _ _ _ _ _ _ _ _ HL Hcl)
        as (st' & e1 & c & e2 & k1 & k2 & lb' & la' & Hpop & -> & Hchp & HG1 & Hc & HG2 & -> & -> & HL' & Hcl' & Hs).
      rewrite Hpop. cbn [res_bind snd].
      destruct (IH (S h) st' fs p _ lb' _ la' (e1 ++ [c]) e2 (k1 ++ [ln]) k2 HL' Hcl')
        as (b & st2 & Hst2 & Hs2 & Hpos).
      { by rewrite <- app_assoc. }
      { apply Forall2_app; [done|]. by constructor. }
      { done. }
      { rewrite length_app. simpl. lia. }
      { simpl in Hf. lia. }
      exists b, st2. split; [done|]. split; [congruence|].
      rewrite root_of_cons. simpl fst.
      rewrite concat_app in Hpos. simpl in Hpos. rewrite app_nil_r, <- !app_assoc in *.
      destruct (decide _).
      * rewrite Nat.add_succ_r. simpl in Hpos. done.
      * assert (concat ls1 = ln) as ->.
        { destruct (loc_node _ _ _ _ _ _ _ _ _ _ HL) as (_ & ls & HF & ->).
          f_equal. rewrite Hch, ?app_nil_r in HF. by eapply Forall2_erepr_fun. }
        done.
  - (* the next entry, or the first below it *)
    destruct Hi as [Hi|[? _]]; [|done].
    destruct (Z.ltb_spec (i + 1) (Z.of_nat (length cl1 + length (c :: cl2))));
      [|simpl in *; lia].
    apply Forall2_cons_inv_l in HF2 as (lc & ls2' & Hc & HF2 & ->).
    assert (concat (lc :: ls2') ++ la ≠ []) as Hne.
    { simpl. intros [[Hnil _]%app_nil _]%app_nil. by apply erepr_not_nil in Hc. }
    rewrite Hi. pose proof (loc_node _ _ _ _ _ _ _ _ _ _ HL) as Hn.
    rewrite (proj1 Hn). destruct h as [|h]; cbn [Nat.eqb].
    + destruct (Loc_setIndex _ _ _ _ _ _ _ _ _ _ (Z.of_nat (length cl1)) HL) as (st' & -> & HL' & Hs).
      cbn [res_bind]. exists true, (invalidateSubNodes st'). split; [done|]. split; [done|].
      rewrite decide_False by done.
      apply nrepr_0_kvs in Hn. rewrite Hch in Hn. subst ln.
      exists fs, n, cl1, c, cl2, lb, la. split_and!; try done.
      * destruct HL' as [[? ?] ? ? ? ?]. split; try done. by apply invalidate_At.
      * by rewrite (erepr_0_kvs _ _ _ _ HF1).
      * simpl. rewrite (erepr_0_kvs _ _ _ _ HF2). destruct Hc as (_ & _ & _ & ->). done.
    + destruct (descend_spec depth_fuel false (S h) st fs n i lb ln la cl1 c cl2 ls1 lc ls2')
        as (st' & fs' & leaf & i' & d1 & d & d2 & lb' & la' & -> & HL' & Hcl' & Hchl & [Hc1 Hc2] & Hi' & Hr & Hlen & Hs);
        try done.
      { pose proof (loc_depth _ _ _ _ _ _ _ _ _ _ HL). unfold depth_fuel. lia. }
      cbn [res_bind snd]. exists true, (invalidateSubNodes st'). split; [done|]. split; [done|].
      rewrite decide_False by done.
      rewrite (Hi' eq_refl) in HL' by done.
      exists fs', leaf, d1, d, d2, lb', la'. split_and!; try done.
      * destruct HL' as [[? ?] ? ? ? ?]. split; try done. by apply invalidate_At.
      * rewrite Hc2. simpl. by rewrite <- app_assoc.
Qed.

(** ** Previous entry *)

Lemma goPreviousLeaf_loop_spec fuel h st fs n cl1 cl2 lb ln la ls1 ls2 :
  Loc t B h st fs n (Z.of_nat (length cl1)) lb ln la → clean t B h fs n →
  Children n = cl1 ++ cl2 →
  Forall2 (erepr t B h) cl1 ls1 → Forall2 (erepr t B h) cl2 ls2 →
  length fs < fuel →
  ∃ b st', goPreviousLeaf_loop t fuel st = Ok (b, st') ∧ smallCount st' = smallCount st ∧
    match last (lb ++ concat ls1) with
    | None => AtStart (h + length fs) st' (root_of fs n) (lb ++ ln ++ la)
    | Some p => ∃ l1, lb ++ concat ls1 = l1 ++ [p] ∧
                      Before st' (root_of fs n) l1 (p :: concat ls2 ++ la)
    end.
Proof.
  revert h st fs n lb ln la cl1 cl2 ls1 ls2. induction fuel as [|fuel IH];
    intros h st fs n lb ln la cl1 cl2 ls1 ls2 HL Hcl Hch HF1 HF2 Hf; [lia|].
  cbn [goPreviousLeaf_loop]. pose proof (Loc_path _ _ _ _ _ _ _ _ _ _ HL) as HP.
  rewrite (index_Path _ _ _ _ HP). cbn [res_bind].
  destruct cl1 as [|c cl1 _] using rev_ind.
  - (* nothing left of the cursor in this node *)
    inversion HF1; subst ls1. simpl. rewrite app_nil_r. simpl in HL.
    rewrite (path_top _ _ _ _ HP). destruct fs as [|[p j] fs].
    + simpl. destruct (Loc_setIndex _ _ _ _ _ _ _ _ _ _ (-1)%Z HL) as (st' & -> & HL' & Hs).
      exists true, st'. split; [done|]. split; [done|].
      destruct (loc_ctx _ _ _ _ _ _ _ _ _ _ HL) as [-> ->]. simpl.
      unfold AtStart. rewrite Nat.add_0_r, app_nil_r. done.
    + simpl. destruct (Loc_popNode _ _ _ _ _ _ _ _ _ _ _ _ HL Hcl)
        as (st' & e1 & c & e2 & k1 & k2 & lb' & la' & Hpop & -> & Hchp & HG1 & Hc & HG2 & -> & -> & HL' & Hcl' & Hs).
      rewrite Hpop. cbn [res_bind snd].
      destruct (IH (S h) st' fs p lb' _ la' e1 (c :: e2) k1 (ln :: k2) HL' Hcl')
        as (b & st2 & Hst2 & Hs2 & Hpos); try done.
      { by constructor. }
      { simpl in Hf. lia. }
      exists b, st2. split; [done|]. split; [congruence|].
      rewrite root_of_cons. simpl fst. simpl concat in Hpos.
      assert (concat ls2 = ln) as Els.
      { destruct (loc_node _ _ _ _ _ _ _ _ _ _ HL) as (_ & ls & HF & ->).
        f_equal. rewrite Hch in HF. by eapply Forall2_erepr_fun. }
      rewrite Els. rewrite <- !app_assoc in *.
      destruct (last (lb' ++ concat k1)) as [q|].
      * done.
      * rewrite Nat.add_succ_r. done.
  - (* the previous entry, or the last below it *)
    apply Forall2_app_inv_l in HF1 as (k1 & k' & HG1 & HG' & ->).
    apply Forall2_cons_inv_l in HG' as (lc & k2 & Hc & HG2 & ->). inversion HG2; subst k2.
    rewrite length_app. simpl length.
    destruct (Z.leb_spec 0 (Z.of_nat (length cl1 + 1) - 1)); [|lia].
    replace (Z.of_nat (length cl1 + 1) - 1)%Z with (Z.of_nat (length cl1)) by lia.
    rewrite <- app_assoc in Hch. simpl in Hch.
    destruct (descend_spec depth_fuel true h st fs n _ lb ln la cl1 c cl2 k1 lc ls2 HL)
      as (st' & fs' & leaf & i' & d1 & d & d2 & lb' & la' & -> & HL' & Hcl' & Hchl & [Hc1 Hc2] & _ & Hr & Hlen & Hs);
      try done.
    { pose proof (loc_depth _ _ _ _ _ _ _ _ _ _ HL). unfold depth_fuel. lia. }
    cbn [res_bind].
    destruct (Loc_setIndex _ _ _ _ _ _ _ _ _ _ (Z.of_nat (length d1)) HL') as (st2 & -> & HL2 & Hs2).
    cbn [res_bind]. exists true, st2. split; [done|]. split; [congruence|].
    rewrite concat_app. simpl. rewrite app_nil_r, (app_assoc lb (concat k1) lc).
    rewrite <- Hc1, map_app, app_assoc. simpl. rewrite last_snoc.
    exists (lb' ++ kvs_of d1). split; [done|].
    exists fs', leaf, d1, d, d2, lb', la'. split_and!; try done.
    simpl. by rewrite Hc2.
Qed.


End walk.
