(* ===== verification/IBGet.v ===== *)
(** * Lookups (Node.Get, NextKey, PrevKey and the search below them)

    [Rest h st root l]: the stack [st] is at rest at the root of a tree of height
    [h] that holds the sorted list [l]; this is the state between two operations
    of a transaction.  Lookups answer what the list answers, and leave the stack
    at rest on the same tree. *)
From stdpp Require Import base list sets strings sorting.
From Stdlib Require Import ZArith Lia.
From S2P Require Import Prelude OrderedMap IBNode IBStack IBTree IBRepr IBStackFacts IBLoc IBSearch IBWalk.

Section get.
Context `{Hsz : MsgpSizes} (t : Tree) (B : Z).

Abbreviation kvs_of := (map pair_of_child).

Definition Rest (h : nat) (st : Stack) (root : Node) (l : list kv) : Prop :=
  (∃ i, Loc t B h st [] root i [] l []) ∧ smallCount st = 0%Z ∧ (h = 0 ∨ l ≠ []).

Lemma Rest_top h st root l : Rest h st root l → top st = 0.
Proof. intros [[i HL] _]. by rewrite (path_top _ _ _ _ (Loc_path _ _ _ _ _ _ _ _ _ _ HL)). Qed.

Lemma Rest_sorted h st root l : Rest h st root l → sorted_kvs l.
Proof.
  intros [[i HL] _]. destruct (loc_ok _ _ _ _ _ _ _ _ _ _ HL) as [Hs _].
  by rewrite app_nil_r in Hs.
Qed.

Lemma Rest_kvs_ok h st root l : Rest h st root l → kvs_ok t B l.
Proof.
  intros [[i HL] _]. pose proof (loc_ok _ _ _ _ _ _ _ _ _ _ HL) as H.
  by rewrite app_nil_r in H.
Qed.

Lemma Rest_node h st root l : Rest h st root l → node st = Ok root.
Proof. intros [[i HL] _]. by eapply node_Path, Loc_path. Qed.

Lemma Rest_nrepr h st root l : Rest h st root l → nrepr t B h root l.
Proof. intros [[i HL] _]. by apply HL. Qed.

(** A cursor anywhere in an unchanged tree is at rest once its top is reset. *)
Lemma Loc_Rest h st fs n i lb ln la root :
  Loc t B h st fs n i lb ln la → clean t B h fs n → smallCount st = 0%Z →
  root_of fs n = root → (h + length fs = 0 ∨ lb ++ ln ++ la ≠ []) →
  Rest (h + length fs) (with_top 0 st) root (lb ++ ln ++ la).
Proof.
  intros HL Hcl Hs <- Hne. destruct (Loc_with_top _ _ _ _ _ _ _ _ _ _ HL Hcl) as [i' HL'].
  split; [by exists i'|]. done.
Qed.

Lemma Node_search_Found key h st root l :
  Rest h st root l →
  ∃ st', Node_search t root key st = Ok st' ∧ Found t B key st' root l ∧
         smallCount st' = 0%Z ∧ top st' = h.
Proof.
  intros HR. pose proof HR as [[i HL] [Hs Hne]]. unfold Node_search.
  rewrite (root_of_Path _ _ _ (Loc_path _ _ _ _ _ _ _ _ _ _ HL)). cbn [res_bind].
  rewrite node_eqb_refl. cbn [res_bind].
  rewrite (Rest_top _ _ _ _ HR). cbn [Nat.ltb Nat.leb].
  destruct (search_Found t B key h st root i l HL Hne) as (st' & Hst' & HF & Hs' & Ht).
  exists st'. split_and!; [done|done|congruence|done].
Qed.

Lemma Found_Rest key h st root l :
  Found t B key st root l → smallCount st = 0%Z → top st = h → (h = 0 ∨ l ≠ []) →
  Rest h (with_top 0 st) root l.
Proof.
  intros (fs & leaf & cl1 & cl2 & lb & la & HL & Hcl & Hch & -> & _ & _ & _ & Hr) Hs Ht Hne.
  rewrite (path_top _ _ _ _ (Loc_path _ _ _ _ _ _ _ _ _ _ HL)) in Ht. subst h.
  pose proof (Loc_Rest _ _ _ _ _ _ _ _ _ HL Hcl Hs Hr) as H.
  rewrite map_app, <- !app_assoc in *. by apply H.
Qed.

Lemma Found_child key st root l :
  Found t B key st root l →
  ∃ c, child st = Ok c ∧ om_get key l =
    match c with Some x => if keqb (cKey x) key then Some (cValue x) else None | None => None end.
Proof.
  intros (fs & leaf & cl1 & cl2 & lb & la & HL & Hcl & Hch & -> & H1 & H2 & H3 & Hr).
  pose proof (Loc_path _ _ _ _ _ _ _ _ _ _ HL) as HP.
  pose proof (loc_ok _ _ _ _ _ _ _ _ _ _ HL) as [Hok _]. rewrite map_app, <- !app_assoc in Hok.
  rewrite <- app_assoc in *. rewrite (app_assoc lb) in Hok |- *.
  rewrite om_get_split; [|done|done|by apply all_ge_app; auto using all_gt_ge].
  destruct cl2 as [|c cl2].
  - exists None. split.
    + apply (child_Path_out _ _ _ _ HP). right. rewrite Hch, app_nil_r. lia.
    + simpl. destruct la as [|p la]; [done|].
      assert (klt key p.1) as Hp by (apply H3; set_solver).
      rewrite (proj2 (keqb_neq _ _)); [done|]. intros E. rewrite E in Hp. by eapply klt_irrefl.
  - exists (Some c). split; [|done].
    eapply child_Path_in; [done|]. by rewrite Hch, list_lookup_middle.
Qed.

Theorem Get_om key h st root l :
  Rest h st root l →
  ∃ st', Get t root key st = Ok (om_get key l, st') ∧ Rest h st' root l.
Proof.
  intros HR. destruct (Node_search_Found key _ _ _ _ HR) as (st1 & H1 & HF & Hs & Ht).
  unfold Get. rewrite H1. cbn [res_bind].
  destruct (Found_child _ _ _ _ HF) as (c & Hc & Hget). rewrite Hc. cbn [res_bind].
  exists (with_top 0 st1). split.
  - rewrite Hget. destruct c as [x|]; [|done]. by destruct (keqb (cKey x) key).
  - eapply Found_Rest; [done|done|done|]. apply HR.
Qed.

(** ** NextKey and PrevKey *)

Lemma Before_Rest h st root l1 l2 :
  Before t B st root l1 l2 → smallCount st = 0%Z → (∃ l, nrepr t B h root l) → l2 ≠ [] →
  Rest h (with_top 0 st) root (l1 ++ l2).
Proof.
  intros (fs & leaf & cl1 & c & cl2 & lb & la & HL & Hcl & Hch & -> & -> & Hr) Hs [l Hl] Hne.
  assert (lb ++ kvs_of (cl1 ++ c :: cl2) ++ la
          = (lb ++ kvs_of cl1) ++ kvs_of (c :: cl2) ++ la) as E.
  { by rewrite map_app, <- !app_assoc. }
  rewrite <- E. assert (h = 0 + length fs) as ->.
  { destruct (Loc_with_top _ _ _ _ _ _ _ _ _ _ HL Hcl) as [i' HL']. rewrite Hr in HL'.
    symmetry. eapply nrepr_height; [apply HL'|done|]. rewrite E. by destruct lb, cl1. }
  apply (Loc_Rest _ _ _ _ _ _ _ _ _ HL Hcl Hs Hr). right. rewrite E. by destruct lb, cl1.
Qed.

Lemma AtEnd_Rest h st root l :
  AtEnd t B h st root l → smallCount st = 0%Z → (h = 0 ∨ l ≠ []) → Rest h st root l.
Proof. intros HE Hs Hne. split; [by eexists|]. done. Qed.

Lemma AtEnd_child h st root l : AtEnd t B h st root l → child st = Ok None.
Proof.
  intros HE. eapply child_Path_out; [by eapply Loc_path|]. right. lia.
Qed.

Lemma AtStart_child h st root l : AtStart t B h st root l → child st = Ok None.
Proof.
  intros HE. eapply child_Path_out; [by eapply Loc_path|]. left. lia.
Qed.

Lemma with_top_id st : top st = 0 → with_top 0 st = st.
Proof. destruct st; simpl. by intros ->. Qed.

(** Where [searchGreater] leaves the cursor: at the first entry above the key. *)
Lemma searchGreater_spec key h st root l :
  Rest h st root l →
  ∃ st' l1, searchGreater t root key st = Ok st' ∧ smallCount st' = 0%Z ∧
    l = l1 ++ above key l ∧
    if decide (above key l = []) then AtEnd t B h st' root l
    else Before t B st' root l1 (above key l).
Proof.
  intros HR. destruct (Node_search_Found key _ _ _ _ HR) as (st1 & H1 & HF & Hs & Ht).
  unfold searchGreater. rewrite H1. cbn [res_bind].
  destruct HF as (fs & leaf & cl1 & cl2 & lb & la & HL & Hcl & Hch & -> & G1 & G2 & G3 & Hr).
  pose proof (Loc_path _ _ _ _ _ _ _ _ _ _ HL) as HP.
  pose proof (path_top _ _ _ _ HP) as Htop.
  pose proof (Rest_sorted _ _ _ _ HR) as Hsrt.
  pose proof (loc_node _ _ _ _ _ _ _ _ _ _ HL) as (_ & ls & HFl & Hls).
  assert (length fs < depth_fuel) as Hfuel.
  { pose proof (loc_depth _ _ _ _ _ _ _ _ _ _ HL). unfold depth_fuel. lia. }
  rewrite Hch in HFl. destruct cl2 as [|c cl2].
  - rewrite (child_Path_out _ _ _ _ HP) by (right; rewrite Hch, app_nil_r; lia).
    cbn [res_bind].
    destruct (goNextLeaf_loop_spec t B depth_fuel 0 st1 fs leaf _ lb _ la cl1 [] ls [] HL Hcl Hch)
      as (b & st' & Hgo & Hs' & Hpos); [by rewrite app_nil_r in HFl|by constructor|by right|done|].
    unfold goNextLeaf. rewrite Hgo. cbn [res_bind snd]. exists st', (lb ++ kvs_of cl1).
    rewrite app_nil_r in HFl. rewrite app_nil_r in Hls. simpl in Hpos, Hsrt |- *.
    assert (above key ((lb ++ kvs_of cl1) ++ la) = la) as ->.
    { rewrite above_app, (above_all_lt _ _ G1). simpl. by apply above_all_gt. }
    split_and!; [done|congruence|done|].
    destruct (decide (la = [])) as [->|].
    + rewrite Hr, <- Htop, Ht, !app_nil_r in Hpos. by rewrite app_nil_r.
    + rewrite Hr in Hpos. by rewrite Hls.
  - rewrite (child_Path_in _ _ _ _ c HP) by (by rewrite Hch, list_lookup_middle).
    cbn [res_bind]. simpl map in Hsrt |- *. rewrite <- app_comm_cons in *.
    destruct (keqb (cKey c) key) eqn:Ek.
    + apply keqb_eq in Ek. subst key.
      assert (∀ l1 l2, sorted_kvs (l1 ++ pair_of_child c :: l2) →
                above (cKey c) (l1 ++ pair_of_child c :: l2) = l2) as Habove
        by (intros; by apply above_split_at).
      rewrite Habove by done.
      rewrite (cons_middle c), app_assoc in HFl, Hch.
      apply Forall2_app_inv_l in HFl as (ls1 & ls2 & HF1 & HF2 & ->).
      destruct (goNextLeaf_loop_spec t B depth_fuel 0 st1 fs leaf _ lb _ la (cl1 ++ [c]) cl2 ls1 ls2
                  HL Hcl Hch HF1 HF2) as (b & st' & Hgo & Hs' & Hpos);
        [left; rewrite length_app; simpl; lia|done|].
      unfold goNextLeaf. rewrite Hgo. cbn [res_bind snd].
      rewrite (erepr_0_kvs _ _ _ _ HF1), (erepr_0_kvs _ _ _ _ HF2), Hr, !map_app in Hpos.
      exists st', (lb ++ kvs_of cl1 ++ [pair_of_child c]).
      split_and!; [done|congruence|by rewrite <- !app_assoc|].
      destruct (decide _) as [E|_]; [|done].
      rewrite <- Htop, Ht in Hpos. simpl in Hpos.
      by rewrite <- !app_assoc in *.
    + apply keqb_neq in Ek.
      assert (all_gt (pair_of_child c :: kvs_of cl2 ++ la) key) as Hgt.
      { apply all_ge_head_ne; [by eapply sorted_kvs_app_r| |done].
        rewrite app_comm_cons. apply all_ge_app. auto using all_gt_ge. }
      rewrite above_app, (above_all_lt _ _ G1), (above_all_gt _ _ Hgt).
      exists st1, (lb ++ kvs_of cl1). split_and!; try done.
      rewrite decide_False by done. by exists fs, leaf, cl1, c, cl2, lb, la.
Qed.

(** Where [searchLesser] leaves the cursor: at the last entry below the key. *)
Lemma searchLesser_spec key h st root l :
  Rest h st root l →
  ∃ st', searchLesser t root key st = Ok st' ∧ smallCount st' = 0%Z ∧
    match last (below key l) with
    | None => AtStart t B h st' root l
    | Some p => ∃ l1 l2, below key l = l1 ++ [p] ∧ l = l1 ++ p :: l2 ∧
                         Before t B st' root l1 (p :: l2)
    end.
Proof.
  intros HR. destruct (Node_search_Found key _ _ _ _ HR) as (st1 & H1 & HF & Hs & Ht).
  unfold searchLesser. rewrite H1. cbn [res_bind].
  destruct HF as (fs & leaf & cl1 & cl2 & lb & la & HL & Hcl & Hch & -> & G1 & G2 & G3 & Hr).
  pose proof (Loc_path _ _ _ _ _ _ _ _ _ _ HL) as HP.
  pose proof (path_top _ _ _ _ HP) as Htop.
  pose proof (loc_node _ _ _ _ _ _ _ _ _ _ HL) as (_ & ls & HFl & Hls).
  assert (below key ((lb ++ kvs_of cl1) ++ kvs_of cl2 ++ la) = lb ++ kvs_of cl1) as Hbelow.
  { rewrite below_app, (below_all_lt _ _ G1), below_app, (below_all_gt la) by done.
    replace (below key (kvs_of cl2)) with (@nil kv); [by rewrite !app_nil_r|]. symmetry.
    apply filter_nil. intros p Hp. specialize (G2 p Hp). by apply negb_true_iff in G2. }
  rewrite Hbelow.
  rewrite Hch in HFl. apply Forall2_app_inv_l in HFl as (ls1 & ls2 & HF1 & HF2 & ->).
  destruct (goPreviousLeaf_loop_spec t B depth_fuel 0 st1 fs leaf cl1 cl2 lb _ la ls1 ls2
              HL Hcl Hch HF1 HF2) as (b & st' & Hgo & Hs' & Hpos).
  { pose proof (loc_depth _ _ _ _ _ _ _ _ _ _ HL). unfold depth_fuel. lia. }
  rewrite (erepr_0_kvs _ _ _ _ HF1), (erepr_0_kvs _ _ _ _ HF2), Hr in Hpos.
  exists st'. split_and!; [|congruence|].
  - assert (∃ c, child st1 = Ok c ∧
              match c with None => true | Some x => kleb key (cKey x) end = true)
      as (c & -> & Hmove).
    { destruct cl2 as [|c cl2].
      - exists None. split; [|done]. eapply child_Path_out; [done|].
        right. rewrite Hch, app_nil_r. lia.
      - exists (Some c). split; [eapply child_Path_in; [done|]; by rewrite Hch, list_lookup_middle|].
        apply (G2 (pair_of_child c)). set_solver. }
    cbn [res_bind]. rewrite Hmove. unfold goPreviousLeaf. by rewrite Hgo.
  - destruct (last (lb ++ kvs_of cl1)) as [p|].
    + destruct Hpos as (l1 & E & HB). exists l1, (kvs_of cl2 ++ la). split_and!; [done| |done].
      by rewrite E, <- app_assoc.
    + rewrite <- Htop, Ht in Hpos. simpl in Hpos. rewrite map_app, <- !app_assoc in *. done.
Qed.

Lemma NextKey_om key h st root l :
  Rest h st root l →
  ∃ st', NextKey t root key st = Ok (om_next key l, st') ∧ Rest h st' root l.
Proof.
  intros HR. destruct (searchGreater_spec key _ _ _ _ HR) as (st1 & l1 & H1 & Hs & Hl & Hpos).
  unfold NextKey. rewrite H1. cbn [res_bind]. unfold om_next.
  destruct (decide (above key l = [])) as [E|E].
  - rewrite (AtEnd_child _ _ _ _ Hpos). exists (with_top 0 st1). rewrite E. split; [done|].
    assert (Rest h st1 root l) as HR1 by (apply AtEnd_Rest; [done..|apply HR]).
    by rewrite with_top_id by (by eapply Rest_top).
  - destruct (Before_child _ _ _ _ _ _ Hpos) as (c & l2 & -> & E2). exists (with_top 0 st1).
    rewrite E2 at 1. split; [done|].
    assert (Rest h (with_top 0 st1) root (l1 ++ above key l)) as HR'; [|by rewrite <- Hl in HR'].
    apply Before_Rest; [done|done| |done]. exists l. by eapply Rest_nrepr.
Qed.

Lemma PrevKey_om key h st root l :
  Rest h st root l →
  ∃ st', PrevKey t root key st = Ok (om_prev key l, st') ∧ Rest h st' root l.
Proof.
  intros HR. destruct (searchLesser_spec key _ _ _ _ HR) as (st1 & H1 & Hs & Hpos).
  unfold PrevKey. rewrite H1. cbn [res_bind]. unfold om_prev.
  destruct (last (below key l)) as [p|].
  - destruct Hpos as (l1 & l2 & _ & -> & HB).
    destruct (Before_child _ _ _ _ _ _ HB) as (c & l2' & -> & [= ->]). exists (with_top 0 st1).
    split; [done|]. apply Before_Rest; [done|done| |done]. eexists. by eapply Rest_nrepr.
  - rewrite (AtStart_child _ _ _ _ Hpos). exists (with_top 0 st1). split; [done|].
    assert (Rest h st1 root l) as HR1 by (split; [by eexists|]; split; [done|apply HR]).
    by rewrite with_top_id by (by eapply Rest_top).
Qed.

End get.
