(* ===== verification/IBAdd.v ===== *)
(** * Insertion with splits (Stack.addChildAt)

    The new entry is inserted at the cursor; a node that grows beyond
    [NodeMaximumSize] is split in the middle and the second half is inserted in
    the parent, up to a new root.  An entry of at most [B] bytes fits in a node,
    so that both halves of a split are non-empty. *)
From stdpp Require Import base list sets strings sorting.
From Stdlib Require Import ZArith Lia.
From S2P Require Import Prelude OrderedMap IBNode IBStack IBRepr IBStackFacts IBLoc.

Section add.
Context `{Hsz : MsgpSizes} (t : Tree) (B : Z).
Hypothesis HBmax : (node_overhead + B ≤ NodeMaximumSize t)%Z.

Lemma kvs_ok_drop_mid l1 l2 l3 : kvs_ok t B (l1 ++ l2 ++ l3) → kvs_ok t B (l1 ++ l3).
Proof.
  unfold kvs_ok. rewrite !sorted_kvs_app, !Forall_app.
  intros [(H1 & (H2 & H3 & H4) & H5) (F1 & F2 & F3)]. split_and!; try done.
  intros x y Hx Hy. apply H5; [done|]. apply elem_of_app. by right.
Qed.

(** The two halves of a node that is too large have entries. *)
Lemma oversized_halves h cl ls b x :
  Forall2 (erepr t B h) cl ls → (0 < B)%Z →
  (NodeMaximumSize t < Msgsize (mkNode b cl x))%Z →
  ∃ c0 cl0 d0 dl0, take (length cl / 2) cl = c0 :: cl0 ∧ drop (length cl / 2) cl = d0 :: dl0.
Proof.
  intros HF HB Hs. unfold Msgsize in Hs. simpl in Hs.
  assert (2 ≤ length cl) as Hlen.
  { destruct HF as [|c lc cl ls Hc HF]; simpl in *; [lia|].
    apply erepr_size in Hc. destruct cl; simpl in *; lia. }
  assert (1 ≤ length cl / 2) by (apply Nat.div_le_lower_bound; lia).
  assert (length cl / 2 < length cl) by (apply Nat.Div0.div_lt_upper_bound; lia).
  generalize dependent (length cl / 2). intros k Hk1 Hk2.
  destruct (take k cl) as [|c0 cl0] eqn:E1.
  { apply (f_equal length) in E1. rewrite length_take_le in E1; simpl in E1; lia. }
  destruct (drop k cl) as [|d0 dl0] eqn:E2.
  { apply (f_equal length) in E2. rewrite length_drop in E2. simpl in E2. lia. }
  by eexists _, _, _, _.
Qed.

(** The subtree entry for a half. *)
Lemma subtree_erepr h b c0 cl0 ls :
  b = (h =? 0) → Forall2 (erepr t B h) (c0 :: cl0) ls → Forall (kv_ok t B) (concat ls) →
  erepr t B (S h) (mkSubtreeChild t (cKey c0) (mkNode b (c0 :: cl0) None)) (concat ls).
Proof.
  intros Hb HF Hok.
  destruct (newc_repr t B h (mkNode b (c0 :: cl0) None) (concat ls)) as (ls' & HF' & Hc);
    [by apply nrepr_mk|done|].
  unfold newc in HF'. simpl in HF'. inversion HF' as [|? ? ? ? He HF'']; subst.
  inversion HF''; subst. simpl in Hc. rewrite app_nil_r in Hc. by subst.
Qed.

(** A fresh root over two halves. *)
Lemma Loc_new_root h st n i ln root ls :
  Loc t B h st [] n i [] ln [] → nrepr t B (S h) root ls → kvs_ok t B ls →
  S h < maximumTreeDepth →
  Loc t B (S h) (invalidateSubNodes (with_nodes (<[0 := Some root]> (nodes st)) st))
      [] root i [] ls [].
Proof.
  intros [[HP HC] _ Hn Hok Hd] Hroot Hls Hdepth. split; try done.
  - apply invalidate_At. destruct HP as [H1 H2 H3 H4 H5 H6 H7 H8]. simpl in H3.
    split; simpl; try done.
    + by rewrite length_insert.
    + rewrite H3. apply list_lookup_insert_eq. rewrite H1. unfold maximumTreeDepth. lia.
    + intros j Hj Hjd. rewrite list_lookup_insert_ne by lia. by apply H8.
  - by rewrite app_nil_r.
  - simpl. lia.
Qed.

Lemma addChildAt_spec fuel c h st fs n lb ln la cl1 cl2 ls1 lc ls2 :
  Loc t B h st fs n (Z.of_nat (length cl1)) lb ln la →
  Children n = cl1 ++ cl2 →
  Forall2 (erepr t B h) cl1 ls1 → erepr t B h c lc → Forall2 (erepr t B h) cl2 ls2 →
  kvs_ok t B (lb ++ (concat ls1 ++ lc ++ concat ls2) ++ la) →
  length fs < fuel → S (h + length fs) < maximumTreeDepth → (0 < B)%Z →
  ∃ st' h' fs' n' i' lb' ln' la',
    addChildAt t fuel c st = Ok st' ∧ Loc t B h' st' fs' n' i' lb' ln' la' ∧
    lb' ++ ln' ++ la' = lb ++ (concat ls1 ++ lc ++ concat ls2) ++ la ∧
    h + length fs ≤ h' + length fs' ≤ S (h + length fs).
Proof.
  revert c h st fs n lb ln la cl1 cl2 ls1 lc ls2. induction fuel as [|fuel IH];
    intros c h st fs n lb ln la cl1 cl2 ls1 lc ls2 HL Hch HF1 Hc HF2 Hok Hf Hd HB; [lia|].
  cbn [addChildAt].
  assert (Forall2 (erepr t B h) (cl1 ++ [c] ++ cl2) (ls1 ++ [lc] ++ ls2)) as HF.
  { apply Forall2_app; [done|]. by constructor. }
  assert (concat (ls1 ++ [lc] ++ ls2) = concat ls1 ++ lc ++ concat ls2) as Hcc.
  { by rewrite concat_app. }
  destruct (Loc_rewriteAtIndex t B false (Some c) h st fs n lb ln la cl1 c cl2 (ls1 ++ [lc] ++ ls2))
    as (st1 & -> & HL1 & Hs1); [done|done|done|done|by rewrite Hcc|].
  cbn [res_bind]. simpl option_list in *.
  rewrite (node_Path _ _ _ _ (Loc_path _ _ _ _ _ _ _ _ _ _ HL1)). cbn [res_bind Children].
  rewrite Hcc in HL1.
  destruct (Z.leb_spec (Msgsize (mkNode (Leafy n) (cl1 ++ [c] ++ cl2) None)) (NodeMaximumSize t))
    as [Hfit|Hbig].
  { exists st1, h, fs, (mkNode (Leafy n) (cl1 ++ [c] ++ cl2) None), (Z.of_nat (length cl1)),
      lb, (concat ls1 ++ lc ++ concat ls2), la. split_and!; try done; lia. }
  pose proof (proj1 (loc_node _ _ _ _ _ _ _ _ _ _ HL)) as Hleafy.
  destruct (oversized_halves _ _ _ _ _ HF HB Hbig) as (c0 & cl0 & d0 & dl0 & E1 & E2).
  set (cl := cl1 ++ [c] ++ cl2) in *. set (ls := ls1 ++ [lc] ++ ls2) in *.
  set (k := length cl / 2) in *.
  assert (Forall2 (erepr t B h) (c0 :: cl0) (take k ls)) as HFa by (rewrite <- E1; by apply Forall2_take).
  assert (Forall2 (erepr t B h) (d0 :: dl0) (drop k ls)) as HFb by (rewrite <- E2; by apply Forall2_drop).
  assert (concat (take k ls) ++ concat (drop k ls) = concat ls) as Hsplit
    by (by rewrite <- concat_app, take_drop).
  rewrite <- Hcc, <- Hsplit in Hok. rewrite <- !app_assoc in Hok.
  assert (Forall (kv_ok t B) (concat (take k ls)) ∧ Forall (kv_ok t B) (concat (drop k ls)))
    as [Hoka Hokb].
  { destruct Hok as [_ Ho]. rewrite !Forall_app in Ho. naive_solver. }
  rewrite E1, E2.
  destruct (Loc_rewriteNodeChildren t B h st1 fs (mkNode (Leafy n) cl None) _ lb _ la
              (c0 :: cl0) (take k ls) HL1 HFa) as (st2 & -> & HL2 & _).
  { rewrite (app_assoc lb) in Hok |- *. by eapply kvs_ok_drop_mid. }
  cbn [res_bind go_index lookup list_lookup]. simpl Leafy in *.
  pose proof (subtree_erepr h (Leafy n) d0 dl0 _ Hleafy HFb Hokb) as Hnext.
  rewrite (path_top _ _ _ _ (Loc_path _ _ _ _ _ _ _ _ _ _ HL2)).
  destruct fs as [|[p j] fs].
  - (* the root is split *)
    simpl length. cbn [Nat.ltb Nat.leb].
    pose proof (Loc_path _ _ _ _ _ _ _ _ _ _ HL2) as HP2.
    rewrite (node_Path _ _ _ _ HP2). cbn [res_bind].
    rewrite go_update_Ok by (rewrite (path_nodes_len _ _ _ _ HP2); unfold maximumTreeDepth; lia).
    cbn [res_bind].
    pose proof (subtree_erepr h (Leafy n) c0 cl0 _ Hleafy HFa Hoka) as Hme.
    destruct (loc_ctx _ _ _ _ _ _ _ _ _ _ HL2) as [-> ->]. simpl in Hok, Hd |- *.
    rewrite app_nil_r in Hok |- *.
    eexists _, (S h), [], _, _, [], (concat (take k ls) ++ concat (drop k ls)), [].
    split; [done|]. split; [|split; [|simpl; lia]].
    + eapply Loc_new_root; [done| |done|lia].
      assert (concat (take k ls) ++ concat (drop k ls)
              = concat [concat (take k ls); concat (drop k ls)]) as ->
        by (simpl; by rewrite app_nil_r).
      apply nrepr_mk; [done|]. constructor; [done|]. constructor; [done|]. constructor.
    + rewrite app_nil_r. simpl. by rewrite Hsplit, Hcc.
  - (* the second half goes to the parent *)
    cbn [length Nat.ltb Nat.leb].
    destruct (Loc_pop _ _ _ _ _ _ _ _ _ _ _ _ HL2)
      as (st3 & p1 & old & p2 & ks1 & ksn & ks2 & lb' & la' & -> & -> & Hchp & HG1 & HGn & HG2 &
          Hksn & -> & -> & HL3 & _).
    cbn [res_bind]. unfold nextIndex.
    rewrite (index_Path _ _ _ _ (Loc_path _ _ _ _ _ _ _ _ _ _ HL3)). cbn [res_bind].
    assert (newc t (mkNode (Leafy n) (c0 :: cl0) None)
            = [mkSubtreeChild t (cKey c0) (mkNode (Leafy n) (c0 :: cl0) None)]) as Enewc by done.
    destruct (Loc_setIndex _ _ _ _ _ _ _ _ _ _ (Z.of_nat (length p1) + 1)%Z HL3) as (st4 & -> & HL4 & _).
    cbn [res_bind].
    replace (Z.of_nat (length p1) + 1)%Z
      with (Z.of_nat (length (p1 ++ newc t (mkNode (Leafy n) (c0 :: cl0) None)))) in HL4
      by (rewrite length_app, Enewc; simpl; lia).
    destruct (IH (mkSubtreeChild t (cKey d0) (mkNode (Leafy n) (d0 :: dl0) None)) (S h) st4 fs _ lb' _ la'
                (p1 ++ newc t (mkNode (Leafy n) (c0 :: cl0) None)) p2
                (ks1 ++ ksn) (concat (drop k ls)) ks2 HL4)
      as (st' & h' & fs' & n' & i' & lb2 & ln2 & la2 & Hadd & HL' & Heq & Hh).
    + simpl. by rewrite <- app_assoc.
    + by apply Forall2_app.
    + done.
    + done.
    + rewrite concat_app, Hksn. rewrite <- !app_assoc in *. done.
    + simpl in Hf. lia.
    + simpl in Hd. lia.
    + done.
    + exists st', h', fs', n', i', lb2, ln2, la2. split_and!; try done; [|simpl in *; lia..].
      rewrite Heq, concat_app, Hksn, <- Hcc, <- Hsplit, <- !app_assoc. done.
Qed.

End add.
