(* ===== verification/IBBalance.v ===== *)
(** * Restoring the size of one subtree (the callback of Stack.commit)

    [Pos h st fs n lb la cl1 c cl2 ls1 lc ls2]: the cursor [st] is at the entry
    [c] of an interior node [n] of height [S h]; the entries left and right of
    [c] are [cl1] and [cl2], and what the entries hold is [ls1], [lc], [ls2].

    [mergeTo] and [moveFrom] keep the list the tree holds, and the entry at the
    cursor holds strictly more afterwards. *)
From stdpp Require Import base list sets strings sorting.
From Stdlib Require Import ZArith Lia.
From S2P Require Import Prelude OrderedMap IBNode IBStack IBRepr IBStackFacts IBLoc IBAdd.

Section balance.
Context `{Hsz : MsgpSizes} (t : Tree) (B : Z).

Record Pos (h : nat) (st : Stack) (fs : list (Node * Z)) (n : Node) (lb la : list kv)
    (cl1 : list NodeDataChild) (c : NodeDataChild) (cl2 : list NodeDataChild)
    (ls1 : list (list kv)) (lc : list kv) (ls2 : list (list kv)) : Prop := mkPos {
  pos_loc : Loc t B (S h) st fs n (Z.of_nat (length cl1)) lb (concat ls1 ++ lc ++ concat ls2) la;
  pos_children : Children n = cl1 ++ c :: cl2;
  pos_left : Forall2 (erepr t B (S h)) cl1 ls1;
  pos_entry : erepr t B (S h) c lc;
  pos_right : Forall2 (erepr t B (S h)) cl2 ls2
}.

(** A cursor in an interior node with a valid index is at a position. *)
Lemma Loc_Pos h st fs n lb ln la cl1 c cl2 :
  Loc t B (S h) st fs n (Z.of_nat (length cl1)) lb ln la → Children n = cl1 ++ c :: cl2 →
  ∃ ls1 lc ls2, ln = concat ls1 ++ lc ++ concat ls2 ∧ Pos h st fs n lb la cl1 c cl2 ls1 lc ls2.
Proof.
  intros HL Hch. pose proof (loc_node _ _ _ _ _ _ _ _ _ _ HL) as (_ & ls & HF & ->).
  rewrite Hch in HF. apply Forall2_app_inv_l in HF as (ls1 & ls' & HF1 & HF' & ->).
  apply Forall2_cons_inv_l in HF' as (lc & ls2 & Hc & HF2 & ->).
  rewrite concat_app in HL. exists ls1, lc, ls2. split; [by rewrite concat_app|]. by split.
Qed.

(** ** Editing one subtree: enter it, change its entries, leave it *)

Lemma Pos_edit (g : Stack → res Stack) h st fs n i lb la cl1 c cl2 ls1 lc ls2 m c0 cl0 ls' :
  Loc t B (S h) st fs n i lb (concat ls1 ++ lc ++ concat ls2) la →
  Children n = cl1 ++ c :: cl2 →
  Forall2 (erepr t B (S h)) cl1 ls1 → erepr t B (S h) c lc →
  Forall2 (erepr t B (S h)) cl2 ls2 → resolve t c = Ok (Some m) →
  kvs_ok t B (lb ++ (concat ls1 ++ concat ls' ++ concat ls2) ++ la) →
  (∀ st1 fs1 lb1 la1, Loc t B h st1 fs1 m 0 lb1 lc la1 → kvs_ok t B (lb1 ++ concat ls' ++ la1) →
     ∃ st2 i2, g st1 = Ok st2 ∧
       Loc t B h st2 fs1 (mkNode (Leafy m) (c0 :: cl0) None) i2 lb1 (concat ls') la1) →
  let c' := mkSubtreeChild t (cKey c0) (mkNode (Leafy m) (c0 :: cl0) None) in
  ∃ st1 st2 st', push (Z.of_nat (length cl1)) (Some m) st = Ok st1 ∧ g st1 = Ok st2 ∧
    pop t st2 = Ok st' ∧
    Pos h st' fs (mkNode false (cl1 ++ c' :: cl2) None) lb la cl1 c' cl2 ls1 (concat ls') ls2.
Proof.
  intros HL Hch HF1 Hc HF2 Hm Hok Hg c'.
  destruct (Loc_push _ _ _ _ _ _ _ _ _ _ _ _ _ _ HL Hch Hm)
    as (st1 & k1 & kc & k2 & Hpush & HG1 & Hkc & HG2 & _ & HL1 & _).
  assert (k1 = ls1) as -> by (by eapply Forall2_erepr_fun).
  assert (kc = lc) as -> by (by eapply erepr_fun).
  assert (k2 = ls2) as -> by (by eapply Forall2_erepr_fun).
  destruct (Hg _ _ _ _ HL1) as (st2 & i2 & Hg2 & HL2).
  { rewrite <- !app_assoc in *. done. }
  destruct (Loc_pop_known t B h st2 n cl1 c cl2 fs _ i2 lb _ la ls1 ls2 c0 cl0 HL2 Hch)
    as (st' & Hpop & He & HL'); [done|done|done|by apply HL|].
  exists st1, st2, st'. split_and!; try done.
Qed.

(** ** mergeTo *)

(** Removing the entry at the cursor of an interior node. *)
Lemma Pos_remove h st fs n lb la cl1 c cl2 ls1 lc ls2 :
  Pos h st fs n lb la cl1 c cl2 ls1 lc ls2 →
  ∃ st', rewriteAtIndex t true None st = Ok st' ∧
    Loc t B (S h) st' fs (mkNode false (cl1 ++ cl2) None) (Z.of_nat (length cl1))
        lb (concat ls1 ++ concat ls2) la.
Proof.
  intros [HL Hch HF1 Hc HF2].
  destruct (Loc_rewriteAtIndex t B true None (S h) st fs n lb _ la cl1 c cl2 (ls1 ++ ls2) HL)
    as (st' & Hst & HL' & _); [done|done|by apply Forall2_app| |].
  - rewrite concat_app. pose proof (loc_ok _ _ _ _ _ _ _ _ _ _ HL) as Hok.
    rewrite <- !app_assoc in *. rewrite app_assoc in Hok |- *. by eapply kvs_ok_drop_mid.
  - exists st'. split; [done|]. rewrite concat_app in HL'. simpl in HL'.
    by rewrite (nrepr_Leafy_S _ _ _ _ _ (loc_node _ _ _ _ _ _ _ _ _ _ HL)) in HL'.
Qed.

(** The entries of a resolved entry. *)
Lemma erepr_children h c lc :
  erepr t B (S h) c lc →
  ∃ m c0 cl0 ls, resolve t c = Ok (Some m) ∧ Leafy m = (h =? 0) ∧ Children m = c0 :: cl0 ∧
    Forall2 (erepr t B h) (c0 :: cl0) ls ∧ lc = concat ls.
Proof.
  intros Hc. pose proof (erepr_not_nil _ _ _ _ _ Hc) as Hne.
  apply erepr_S in Hc as (_ & _ & m & Hm & HLf & ls & HF & ->).
  destruct (Children m) as [|c0 cl0] eqn:E; [by inversion HF; subst|].
  by exists m, c0, cl0, ls.
Qed.

(** What the two directions share: the entry to remove is gone, its neighbour
    [s] takes all entries. *)
Lemma merge_into h st fs n i lb la cl1 s cl2 ls1 sl ls2 m c0 cl0 ls' :
  Loc t B (S h) st fs n i lb (concat ls1 ++ sl ++ concat ls2) la →
  Children n = cl1 ++ s :: cl2 →
  Forall2 (erepr t B (S h)) cl1 ls1 → erepr t B (S h) s sl → Forall2 (erepr t B (S h)) cl2 ls2 →
  resolve t s = Ok (Some m) → Forall2 (erepr t B h) (c0 :: cl0) ls' →
  kvs_ok t B (lb ++ (concat ls1 ++ concat ls' ++ concat ls2) ++ la) →
  let c' := mkSubtreeChild t (cKey c0) (mkNode (Leafy m) (c0 :: cl0) None) in
  ∃ st1 st2 st', push (Z.of_nat (length cl1)) (Some m) st = Ok st1 ∧
    rewriteNodeChildren t (c0 :: cl0) st1 = Ok st2 ∧ pop t st2 = Ok st' ∧
    Pos h st' fs (mkNode false (cl1 ++ c' :: cl2) None) lb la cl1 c' cl2 ls1 (concat ls') ls2.
Proof.
  intros HL Hch HF1 Hs HF2 Hm HF' Hok. eapply Pos_edit; try done.
  intros st1 fs1 lb1 la1 HL1 Hok1.
  destruct (Loc_rewriteNodeChildren t B h st1 fs1 m 0 lb1 sl la1 (c0 :: cl0) ls' HL1 HF' Hok1)
    as (st2 & H2 & HL2 & _). by exists st2, 0%Z.
Qed.

(** [mergeTo] with the left or the right neighbour: one entry for the two. *)
Definition merged (h : nat) (st' : Stack) (fs : list (Node * Z)) (lb la : list kv)
    (cl1 cl2 : list NodeDataChild) (ls1 : list (list kv)) (l : list kv) (ls2 : list (list kv)) : Prop :=
  ∃ n' c', Pos h st' fs n' lb la cl1 c' cl2 ls1 l ls2.

Lemma mergeTo_left h st fs n lb la cl1 s c cl2 ls1 sl lc ls2 m own :
  Pos h st fs n lb la (cl1 ++ [s]) c cl2 (ls1 ++ [sl]) lc ls2 →
  resolve t s = Ok (Some m) → childNode c = Some own →
  ∃ st', mergeTo t (-1) m st = Ok st' ∧ merged h st' fs lb la cl1 cl2 ls1 (sl ++ lc) ls2.
Proof.
  intros HP Hm Hown. pose proof HP as [HL Hch HF1 Hc HF2]. unfold mergeTo.
  rewrite (Loc_node_eq _ _ HL), (Loc_index_eq _ _ HL), (Loc_child_eq _ _ HL Hch).
  cbn [res_bind deref]. rewrite Hown. cbn [res_bind deref].
  destruct (Pos_remove _ _ _ _ _ _ _ _ _ _ _ _ HP) as (st1 & -> & HL1). cbn [res_bind].
  rewrite (Loc_node_eq _ _ HL1). cbn [res_bind Children]. rewrite Hch.
  destruct (Nat.leb_spec (length ((cl1 ++ [s]) ++ c :: cl2)) (length ((cl1 ++ [s]) ++ cl2)));
    [rewrite !length_app in *; simpl in *; lia|].
  replace (-1 + Z.of_nat (length (cl1 ++ [s])))%Z with (Z.of_nat (length cl1))
    by (rewrite length_app; simpl; lia).
  cbn [Z.ltb Z.compare Z.eqb Pos.eqb].
  apply Forall2_app_inv_l in HF1 as (k1 & k2 & HF1 & HFs & Ek).
  apply Forall2_cons_inv_l in HFs as (k3 & ? & Hs & HF0 & ->). inversion HF0; subst.
  apply app_inj_tail in Ek as [<- <-].
  destruct (erepr_children _ _ _ Hc) as (own' & e0 & el0 & lso & Hown' & HLo & Hcho & HFo & ->).
  assert (own' = own) as -> by (unfold resolve in Hown'; rewrite Hown in Hown'; congruence).
  destruct (erepr_children _ _ _ Hs) as (m' & d0 & dl0 & lsm & Hm' & HLm & Hchm & HFm & ->).
  assert (m' = m) as -> by congruence.
  rewrite <- app_assoc in HL1. rewrite concat_app in HL1. simpl in HL1.
  rewrite app_nil_r, <- app_assoc in HL1.
  pose proof (loc_ok _ _ _ _ _ _ _ _ _ _ HL) as Hok.
  destruct (merge_into h st1 fs _ _ lb la cl1 s cl2 ls1 (concat lsm) ls2 m d0
              (dl0 ++ e0 :: el0) (lsm ++ lso) HL1) as (st2 & st3 & st' & -> & H3 & Hpop & HP');
    [done|done|done|done|done| | |].
  { rewrite app_comm_cons. by apply Forall2_app. }
  { rewrite !concat_app in *. simpl in Hok. rewrite app_nil_r, <- !app_assoc in *. done. }
  cbn [res_bind]. rewrite Hchm, Hcho. simpl app. rewrite H3. cbn [res_bind].
  rewrite Hpop. cbn [res_bind]. rewrite (Loc_node_eq _ _ (pos_loc _ _ _ _ _ _ _ _ _ _ _ _ HP')).
  cbn [res_bind Children]. rewrite concat_app in HP'.
  rewrite (proj2 (Nat.eqb_eq _ _)) by (rewrite !length_app; simpl; lia).
  exists st'. split; [done|]. by eexists _, _.
Qed.

Lemma mergeTo_right h st fs n lb la cl1 c s cl2 ls1 lc sl ls2 m own :
  Pos h st fs n lb la cl1 c (s :: cl2) ls1 lc (sl :: ls2) →
  resolve t s = Ok (Some m) → childNode c = Some own →
  ∃ st', mergeTo t 1 m st = Ok st' ∧ merged h st' fs lb la cl1 cl2 ls1 (lc ++ sl) ls2.
Proof.
  intros HP Hm Hown. pose proof HP as [HL Hch HF1 Hc HF2]. unfold mergeTo.
  rewrite (Loc_node_eq _ _ HL), (Loc_index_eq _ _ HL), (Loc_child_eq _ _ HL Hch).
  cbn [res_bind deref]. rewrite Hown. cbn [res_bind deref].
  destruct (Pos_remove _ _ _ _ _ _ _ _ _ _ _ _ HP) as (st1 & -> & HL1). cbn [res_bind].
  rewrite (Loc_node_eq _ _ HL1). cbn [res_bind Children]. rewrite Hch.
  destruct (Nat.leb_spec (length (cl1 ++ c :: s :: cl2)) (length (cl1 ++ s :: cl2)));
    [rewrite !length_app in *; simpl in *; lia|].
  cbn [Z.ltb Z.compare Z.eqb Pos.eqb].
  replace (1 + Z.of_nat (length cl1) - 1)%Z with (Z.of_nat (length cl1)) by lia.
  apply Forall2_cons in HF2 as [Hs HF2].
  destruct (erepr_children _ _ _ Hc) as (own' & e0 & el0 & lso & Hown' & HLo & Hcho & HFo & ->).
  assert (own' = own) as -> by (unfold resolve in Hown'; rewrite Hown in Hown'; congruence).
  destruct (erepr_children _ _ _ Hs) as (m' & d0 & dl0 & lsm & Hm' & HLm & Hchm & HFm & ->).
  assert (m' = m) as -> by congruence.
  pose proof (loc_ok _ _ _ _ _ _ _ _ _ _ HL) as Hok.
  destruct (merge_into h st1 fs _ _ lb la cl1 s cl2 ls1 (concat lsm) ls2 m e0
              (el0 ++ d0 :: dl0) (lso ++ lsm) HL1) as (st2 & st3 & st' & -> & H3 & Hpop & HP');
    [done|done|done|done|done| | |].
  { rewrite app_comm_cons. by apply Forall2_app. }
  { rewrite !concat_app in *. simpl in Hok. rewrite <- !app_assoc in *. done. }
  cbn [res_bind]. rewrite Hchm, Hcho. simpl app. rewrite H3. cbn [res_bind].
  rewrite Hpop. cbn [res_bind]. rewrite (Loc_node_eq _ _ (pos_loc _ _ _ _ _ _ _ _ _ _ _ _ HP')).
  cbn [res_bind Children]. rewrite concat_app in HP'.
  rewrite (proj2 (Nat.eqb_eq _ _)) by (rewrite !length_app; simpl; lia).
  exists st'. split; [done|]. by eexists _, _.
Qed.

(** ** moveFrom *)

(** Entering an entry, inserting [e] between [o1] and [o2], leaving it. *)
Lemma insert_edit h st fs n i lb la cl1 c cl2 ls1 ls2 own o1 o2 lo1 lo2 e le c0 cl0 :
  Loc t B (S h) st fs n i lb (concat ls1 ++ concat (lo1 ++ lo2) ++ concat ls2) la →
  Children n = cl1 ++ c :: cl2 →
  Forall2 (erepr t B (S h)) cl1 ls1 → erepr t B (S h) c (concat (lo1 ++ lo2)) →
  Forall2 (erepr t B (S h)) cl2 ls2 → resolve t c = Ok (Some own) →
  Children own = o1 ++ o2 → Forall2 (erepr t B h) o1 lo1 → Forall2 (erepr t B h) o2 lo2 →
  erepr t B h e le → o1 ++ e :: o2 = c0 :: cl0 →
  kvs_ok t B (lb ++ (concat ls1 ++ concat (lo1 ++ le :: lo2) ++ concat ls2) ++ la) →
  let c' := mkSubtreeChild t (cKey c0) (mkNode (Leafy own) (c0 :: cl0) None) in
  ∃ st1 st2 st3 st', push (Z.of_nat (length cl1)) (Some own) st = Ok st1 ∧
    setIndex (Z.of_nat (length o1)) st1 = Ok st2 ∧
    rewriteAtIndex t false (Some e) st2 = Ok st3 ∧ pop t st3 = Ok st' ∧
    Pos h st' fs (mkNode false (cl1 ++ c' :: cl2) None) lb la cl1 c' cl2 ls1
        (concat (lo1 ++ le :: lo2)) ls2.
Proof.
  intros HL Hch HF1 Hc HF2 Hown Hcho HFo1 HFo2 He Heq Hok c'.
  destruct (Pos_edit (λ st1, let! st2 := setIndex (Z.of_nat (length o1)) st1 in
                             rewriteAtIndex t false (Some e) st2)
              h st fs n i lb la cl1 c cl2 ls1 _ ls2 own c0 cl0 (lo1 ++ le :: lo2) HL)
    as (st1 & st3 & st' & H1 & H2 & H3 & HP); try done.
  - intros st1 fs1 lb1 la1 HL1 Hok1.
    destruct (Loc_setIndex _ _ _ _ _ _ _ _ _ _ (Z.of_nat (length o1)) HL1) as (st2 & -> & HL2 & _).
    cbn [res_bind].
    destruct (Loc_rewriteAtIndex t B false (Some e) h st2 fs1 own lb1 _ la1 o1 e o2
                (lo1 ++ le :: lo2) HL2) as (st3 & H3 & HL3 & _); [done|done| |done|].
    + apply Forall2_app; [done|]. by constructor.
    + exists st3, (Z.of_nat (length o1)). split; [done|]. simpl in HL3. by rewrite Heq in HL3.
  - cbv beta in H2. apply res_bind_Ok in H2 as (st2 & H2 & H2').
    by exists st1, st2, st3, st'.
Qed.

(** Entering an entry, keeping some of its entries, leaving it. *)
Lemma moveFrom_left h st fs n lb la cl1 s c cl2 ls1 lc ls2 m own c0 cl0 e lsc le :
  Pos h st fs n lb la (cl1 ++ [s]) c cl2 (ls1 ++ [concat lsc ++ le]) lc ls2 →
  resolve t s = Ok (Some m) → childNode c = Some own →
  Children m = (c0 :: cl0) ++ [e] → Forall2 (erepr t B h) (c0 :: cl0) lsc → erepr t B h e le →
  ∃ st' n' s' c' k, moveFrom t (-1) m st = Ok st' ∧
    c' = mkSubtreeChild t k (mkNode (Leafy own) (e :: Children own) None) ∧
    Pos h st' fs n' lb la (cl1 ++ [s']) c' cl2 (ls1 ++ [concat lsc]) (le ++ lc) ls2.
Proof.
  intros HP Hm Hown Hchm HFm He. pose proof HP as [HL Hch HF1 Hc HF2]. unfold moveFrom.
  rewrite (Loc_index_eq _ _ HL), (Loc_child_eq _ _ HL Hch). cbn [res_bind deref].
  rewrite Hown. cbn [Z.eqb Pos.eqb]. rewrite Hchm.
  replace (Z.of_nat (length ((c0 :: cl0) ++ [e])) - 1)%Z with (Z.of_nat (length (c0 :: cl0)))
    by (rewrite length_app; simpl; lia).
  rewrite slice_to_Ok by (rewrite length_app; lia).
  rewrite take_app_length. cbn [res_bind].
  rewrite (go_at_Ok _ _ e) by (by rewrite list_lookup_middle). cbn [res_bind].
  replace (-1 + Z.of_nat (length (cl1 ++ [s])))%Z with (Z.of_nat (length cl1))
    by (rewrite length_app; simpl; lia).
  apply Forall2_app_inv_l in HF1 as (k1 & k2 & HF1 & HFs & Ek).
  apply Forall2_cons_inv_l in HFs as (k3 & ? & Hs & HF0 & ->). inversion HF0; subst.
  apply app_inj_tail in Ek as [<- <-].
  destruct (erepr_children _ _ _ Hc) as (own' & e0 & el0 & lso & Hown' & HLo & Hcho & HFo & ->).
  assert (own' = own) as -> by (unfold resolve in Hown'; rewrite Hown in Hown'; congruence).
  pose proof (loc_ok _ _ _ _ _ _ _ _ _ _ HL) as Hok.
  rewrite concat_app in Hok, HL. simpl in Hok, HL. rewrite app_nil_r in Hok, HL.
  repeat rewrite <- app_assoc in Hok. repeat rewrite <- app_assoc in HL.
  destruct (merge_into h st fs n (Z.of_nat (length (cl1 ++ [s]))) lb la cl1 s (c :: cl2) ls1 (concat lsc ++ le) (concat lso :: ls2) m
              c0 cl0 lsc) as (st1 & st2 & st3 & -> & H2 & H3 & HP3);
    [by rewrite <- app_assoc|by rewrite <- app_assoc in Hch|done|done|by constructor|done|done| |].
  { simpl. rewrite <- !app_assoc. rewrite (app_assoc (concat ls1)), (app_assoc lb).
    eapply (kvs_ok_drop_mid _ _ _ le). by rewrite <- !app_assoc. }
  cbn [res_bind]. unfold rewriteNodeChildrenWithCopyOf. rewrite H2. cbn [res_bind].
  rewrite H3. cbn [res_bind]. destruct HP3 as [HL3 Hch3 HF13 Hc3 HF23].
  set (s' := mkSubtreeChild t (cKey c0) (mkNode (Leafy m) (c0 :: cl0) None)) in *.
  destruct (insert_edit h st3 fs (mkNode false (cl1 ++ s' :: c :: cl2) None) (Z.of_nat (length cl1))
     lb la (cl1 ++ [s']) c cl2 (ls1 ++ [concat lsc]) ls2 own
     [] (e0 :: el0) [] lso e le e (e0 :: el0)) as (st4 & st5 & st6 & st' & H4 & H5 & H6 & H7 & HP');
    try done.
  { rewrite concat_app. simpl. rewrite app_nil_r, <- app_assoc. done. }
  { simpl. by rewrite <- app_assoc. }
  { apply Forall2_app; [done|]. by constructor. }
  { rewrite concat_app. simpl. rewrite app_nil_r, <- !app_assoc. done. }
  rewrite length_app in H4 |- *. cbn [length] in H4 |- *. rewrite H4. cbn [res_bind].
  cbn [deref res_bind]. change (Z.of_nat (length [])) with 0%Z in H5. rewrite H5. cbn [res_bind]. rewrite H6. cbn [res_bind]. rewrite H7.
  rewrite Hcho. eexists _, _, _, _, _. split; [done|]. split; [done|]. exact HP'.
Qed.

Lemma moveFrom_right h st fs n lb la cl1 c s cl2 ls1 lc ls2 m own e c0 cl0 le lsc :
  Pos h st fs n lb la cl1 c (s :: cl2) ls1 lc ((le ++ concat lsc) :: ls2) →
  resolve t s = Ok (Some m) → childNode c = Some own →
  Children m = e :: c0 :: cl0 → erepr t B h e le → Forall2 (erepr t B h) (c0 :: cl0) lsc →
  ∃ st' n' c' s', moveFrom t 1 m st = Ok st' ∧
    Pos h st' fs n' lb la cl1 c' (s' :: cl2) ls1 (lc ++ le) (concat lsc :: ls2).
Proof.
  intros HP Hm Hown Hchm He HFm. pose proof HP as [HL Hch HF1 Hc HF2]. unfold moveFrom.
  rewrite (Loc_index_eq _ _ HL), (Loc_child_eq _ _ HL Hch). cbn [res_bind deref].
  rewrite Hown. cbn [Z.eqb Pos.eqb]. rewrite Hchm.
  pose proof (slice_from_Ok (e :: c0 :: cl0) 1 ltac:(simpl; lia)) as Hsl.
  change (Z.of_nat 1) with 1%Z in Hsl. rewrite Hsl. cbn [res_bind drop].
  change (go_at (e :: c0 :: cl0) 0) with (Ok e). cbn [res_bind].
  replace (1 + Z.of_nat (length cl1))%Z with (Z.of_nat (length (cl1 ++ [c])))
    by (rewrite length_app; simpl; lia).
  apply Forall2_cons in HF2 as [Hs HF2].
  destruct (erepr_children _ _ _ Hc) as (own' & e0 & el0 & lso & Hown' & HLo & Hcho & HFo & ->).
  assert (own' = own) as -> by (unfold resolve in Hown'; rewrite Hown in Hown'; congruence).
  pose proof (loc_ok _ _ _ _ _ _ _ _ _ _ HL) as Hok.
  simpl in Hok, HL. repeat rewrite <- app_assoc in Hok. repeat rewrite <- app_assoc in HL.
  destruct (merge_into h st fs n (Z.of_nat (length cl1)) lb la (cl1 ++ [c]) s cl2 (ls1 ++ [concat lso])
              (le ++ concat lsc) ls2 m
              c0 cl0 lsc) as (st1 & st2 & st3 & -> & H2 & H3 & HP3); try done.
  { rewrite concat_app. simpl. by rewrite app_nil_r, <- !app_assoc. }
  { by rewrite <- app_assoc. }
  { apply Forall2_app; [done|]. by constructor. }
  { rewrite concat_app. simpl. rewrite app_nil_r, <- !app_assoc.
    rewrite (app_assoc (concat ls1)), (app_assoc lb).
    eapply (kvs_ok_drop_mid _ _ _ le). by rewrite <- !app_assoc. }
  cbn [res_bind]. unfold rewriteNodeChildrenWithCopyOf. rewrite H2. cbn [res_bind].
  rewrite H3. cbn [res_bind]. destruct HP3 as [HL3 Hch3 HF13 Hc3 HF23].
  set (s' := mkSubtreeChild t (cKey c0) (mkNode (Leafy m) (c0 :: cl0) None)) in *.
  rewrite concat_app in HL3. simpl in HL3. rewrite app_nil_r, <- !app_assoc in HL3.
  destruct (insert_edit h st3 fs (mkNode false (cl1 ++ c :: s' :: cl2) None)
     (Z.of_nat (length (cl1 ++ [c])))
     lb la cl1 c (s' :: cl2) ls1 (concat lsc :: ls2) own
     (e0 :: el0) [] lso [] e le e0 (el0 ++ [e])) as (st4 & st5 & st6 & st' & H4 & H5 & H6 & H7 & HP');
    try done.
  { rewrite app_nil_r. done. }
  { by rewrite app_nil_r. }
  { by constructor. }
  { by rewrite app_nil_r. }
  { rewrite concat_app. simpl. rewrite app_nil_r, <- !app_assoc. done. }
  rewrite H4. cbn [res_bind deref]. rewrite Hcho, H5. cbn [res_bind]. rewrite H6. cbn [res_bind].
  rewrite H7. rewrite concat_app in HP'. simpl in HP'. rewrite app_nil_r in HP'.
  eexists _, _, _, _. split; [done|]. exact HP'.
Qed.

End balance.
