(* ===== verification/IBIterate.v ===== *)
(** * The rebalancing pass (Stack.iterateMutatingChildLeafFirst)

    The pass walks over the changed interior entries, leaves first, and restores
    the size of each.  It keeps the list the tree holds, never panics and ends:
    every turn moves right in the list, or up, or merges with a left neighbour,
    or lets a small node grow.  Entries are small against half a node
    ([HBhalf]), so that a node of half size or more has two entries to share. *)
From stdpp Require Import base list sets strings sorting.
From Stdlib Require Import ZArith Lia.
From S2P Require Import Prelude OrderedMap IBNode IBStack IBRepr IBStackFacts IBLoc IBAdd IBBalance.

Section iterate.
Context `{Hsz : MsgpSizes} `{!MsgpSizesOk} (t : Tree) (B : Z).
Hypothesis HBhalf : (node_overhead + B < halfSize t)%Z.

(** ** The callback *)

(** How far the subtree of an entry is from the size to reach. *)
Definition work (c : NodeDataChild) : nat :=
  match childNode c with
  | Some m => Z.to_nat (smallSize t - Msgsize m)
  | None => 0
  end.

(** The order in which the pass advances within a node. *)
Definition advances (cl1 : list NodeDataChild) (c : NodeDataChild) (ls2 : list (list kv))
    (cl1' : list NodeDataChild) (c' : NodeDataChild) (ls2' : list (list kv)) : Prop :=
  length (concat ls2') < length (concat ls2) ∨
  (length (concat ls2') = length (concat ls2) ∧
   (length cl1' < length cl1 ∨ (length cl1' = length cl1 ∧ work c' < work c))).

Lemma half_two h b cl x ls :
  Forall2 (erepr t B h) cl ls → (halfSize t ≤ Msgsize (mkNode b cl x))%Z → cl ≠ [] →
  2 ≤ length cl.
Proof.
  intros HF Hs Hne. unfold Msgsize in Hs. simpl in Hs.
  destruct HF as [|c lc cl ls Hc HF]; [done|]. apply erepr_size in Hc.
  destruct cl; simpl in *; lia.
Qed.

(** The ends of a node of half size or more. *)
Lemma half_ends h s sl m :
  erepr t B (S h) s sl → resolve t s = Ok (Some m) → (halfSize t ≤ Msgsize m)%Z →
  (∃ c0 cl0 e lsc le, Children m = (c0 :: cl0) ++ [e] ∧ Forall2 (erepr t B h) (c0 :: cl0) lsc ∧
     erepr t B h e le ∧ sl = concat lsc ++ le) ∧
  (∃ e c0 cl0 le lsc, Children m = e :: c0 :: cl0 ∧ erepr t B h e le ∧
     Forall2 (erepr t B h) (c0 :: cl0) lsc ∧ sl = le ++ concat lsc).
Proof.
  intros Hs Hm Hbig.
  destruct (erepr_children _ _ _ _ _ Hs) as (m' & d0 & dl & ls & Hm' & _ & Hch & HF & ->).
  assert (m' = m) as -> by congruence. destruct m as [b cl x]. simpl in Hch. subst cl.
  assert (2 ≤ length (d0 :: dl)) as H2 by (by eapply half_two).
  destruct dl as [|d1 dl]; [simpl in H2; lia|]. split.
  - destruct (d1 :: dl) as [|e cl0 _] eqn:E using rev_ind; [done|]. simpl Children.
    rewrite app_comm_cons in HF. apply Forall2_app_inv_l in HF as (lsc & le' & HF1 & HF2 & ->).
    apply Forall2_cons_inv_l in HF2 as (le & ? & He & HF0 & ->). inversion HF0; subst.
    exists d0, cl0, e, lsc, le. split_and!; try done. rewrite concat_app. simpl.
    by rewrite app_nil_r.
  - apply Forall2_cons_inv_l in HF as (le & lsc & He & HF & ->).
    exists d0, d1, dl, le, lsc. done.
Qed.

Lemma erepr_concat_pos h cl ls : Forall2 (erepr t B h) cl ls → length cl ≤ length (concat ls).
Proof.
  induction 1 as [|c lc cl ls Hc HF IH]; simpl; [lia|]. rewrite length_app.
  apply erepr_not_nil in Hc. destruct lc; simpl; [done|lia].
Qed.

Definition rebalanced (h : nat) (fs : list (Node * Z)) (lb la : list kv)
    (cl1 : list NodeDataChild) (c : NodeDataChild) (ls1 : list (list kv)) (lc : list kv)
    (ls2 : list (list kv)) (st' : Stack) : Prop :=
  ∃ n' cl1' c' cl2' ls1' lc' ls2',
    Pos t B h st' fs n' lb la cl1' c' cl2' ls1' lc' ls2' ∧
    concat ls1' ++ lc' ++ concat ls2' = concat ls1 ++ lc ++ concat ls2 ∧ lc' ≠ lc ∧
    advances cl1 c ls2 cl1' c' ls2'.

(** With the left neighbour. *)
Lemma balance_left h st fs n lb la cl1 s c cl2 ls1 sl lc ls2 m own :
  Pos t B h st fs n lb la (cl1 ++ [s]) c cl2 (ls1 ++ [sl]) lc ls2 →
  erepr t B (S h) s sl → resolve t s = Ok (Some m) → childNode c = Some own →
  (Msgsize own < smallSize t)%Z →
  ∃ st', (if Msgsize m <? halfSize t then mergeTo t (-1) m st else moveFrom t (-1) m st)%Z = Ok st' ∧
    rebalanced h fs lb la (cl1 ++ [s]) c (ls1 ++ [sl]) lc ls2 st'.
Proof.
  intros HP Hs Hm Hown Hsmall. pose proof (erepr_not_nil _ _ _ _ _ Hs) as Hslne.
  destruct (Z.ltb_spec (Msgsize m) (halfSize t)) as [_|Hbig].
  - destruct (mergeTo_left _ _ _ _ _ _ _ _ _ _ _ _ _ _ _ _ _ _ HP Hm Hown)
      as (st' & Hst & n' & c' & HP'). exists st'. split; [done|].
    exists n', cl1, c', cl2, ls1, (sl ++ lc), ls2. split_and!; [done| | |].
    + rewrite concat_app. simpl. by rewrite app_nil_r, <- !app_assoc.
    + intros E%(f_equal length). rewrite length_app in E. destruct sl; [done|]. simpl in E. lia.
    + right. split; [done|]. left. rewrite length_app. simpl. lia.
  - destruct (half_ends _ _ _ _ Hs Hm Hbig) as [(c0 & cl0 & e & lsc & le & Hch & HF & He & ->) _].
    destruct (moveFrom_left _ _ _ _ _ _ _ _ _ _ _ _ _ _ _ _ _ _ _ _ _ _ HP Hm Hown Hch HF He)
      as (st' & n' & s' & c' & k & Hst & -> & HP'). exists st'. split; [done|].
    pose proof (erepr_not_nil _ _ _ _ _ He) as Hlene.
    eexists n', (cl1 ++ [s']), _, cl2, (ls1 ++ [concat lsc]), (le ++ lc), ls2.
    split_and!; [done| | |].
    + rewrite !concat_app. simpl. by rewrite !app_nil_r, <- !app_assoc.
    + intros E%(f_equal length). rewrite length_app in E. destruct le; [done|]. simpl in E. lia.
    + right. split; [done|]. right. rewrite !length_app. split; [done|].
      unfold work. rewrite Hown. simpl. unfold Msgsize in *. simpl.
      pose proof (child_size_pos e). lia.
Qed.

(** With the right neighbour. *)
Lemma balance_right h st fs n lb la cl1 c s cl2 ls1 lc sl ls2 m own :
  Pos t B h st fs n lb la cl1 c (s :: cl2) ls1 lc (sl :: ls2) →
  erepr t B (S h) s sl → resolve t s = Ok (Some m) → childNode c = Some own →
  ∃ st', (if Msgsize m <? halfSize t then mergeTo t 1 m st else moveFrom t 1 m st)%Z = Ok st' ∧
    rebalanced h fs lb la cl1 c ls1 lc (sl :: ls2) st'.
Proof.
  intros HP Hs Hm Hown. pose proof (erepr_not_nil _ _ _ _ _ Hs) as Hslne.
  destruct (Z.ltb_spec (Msgsize m) (halfSize t)) as [_|Hbig].
  - destruct (mergeTo_right _ _ _ _ _ _ _ _ _ _ _ _ _ _ _ _ _ _ HP Hm Hown)
      as (st' & Hst & n' & c' & HP'). exists st'. split; [done|].
    exists n', cl1, c', cl2, ls1, (lc ++ sl), ls2. split_and!; [done| | |].
    + simpl. by rewrite <- !app_assoc.
    + intros E%(f_equal length). rewrite length_app in E. destruct sl; [done|]. simpl in E. lia.
    + left. simpl. rewrite length_app. destruct sl; [done|]. simpl. lia.
  - destruct (half_ends _ _ _ _ Hs Hm Hbig) as [_ (e & c0 & cl0 & le & lsc & Hch & He & HF & ->)].
    destruct (moveFrom_right _ _ _ _ _ _ _ _ _ _ _ _ _ _ _ _ _ _ _ _ _ _ HP Hm Hown Hch He HF)
      as (st' & n' & c' & s' & Hst & HP'). exists st'. split; [done|].
    pose proof (erepr_not_nil _ _ _ _ _ He) as Hlene.
    exists n', cl1, c', (s' :: cl2), ls1, (lc ++ le), (concat lsc :: ls2). split_and!; [done| | |].
    + simpl. by rewrite <- !app_assoc.
    + intros E%(f_equal length). rewrite length_app in E. destruct le; [done|]. simpl in E. lia.
    + left. simpl. rewrite !length_app. destruct le; [done|]. simpl. lia.
Qed.

(** The neighbours as the code finds them. *)
Lemma Pos_left_node h st fs n lb la cl1 c cl2 ls1 lc ls2 :
  Pos t B h st fs n lb la cl1 c cl2 ls1 lc ls2 →
  (cl1 = [] ∧ Stack_childNode t (Z.of_nat (length cl1) - 1) st = Ok None) ∨
  ∃ cl0 s ls0 sl m, cl1 = cl0 ++ [s] ∧ ls1 = ls0 ++ [sl] ∧ erepr t B (S h) s sl ∧
    resolve t s = Ok (Some m) ∧ Stack_childNode t (Z.of_nat (length cl1) - 1) st = Ok (Some m).
Proof.
  intros [HL Hch HF1 Hc HF2]. destruct cl1 as [|s cl0 _] using rev_ind.
  - left. split; [done|]. eapply Stack_childNode_out; [by eapply Loc_path|]. simpl. lia.
  - right. apply Forall2_app_inv_l in HF1 as (ls0 & k2 & HF1 & HFs & ->).
    apply Forall2_cons_inv_l in HFs as (sl & ? & Hs & HF0 & ->). inversion HF0; subst.
    pose proof Hs as (_ & _ & m & Hm & _)%erepr_S.
    exists cl0, s, ls0, sl, m. split_and!; try done.
    replace (Z.of_nat (length (cl0 ++ [s])) - 1)%Z with (Z.of_nat (length cl0))
      by (rewrite length_app; simpl; lia).
    eapply Loc_childNode_eq; [done| |done]. by rewrite Hch, <- app_assoc.
Qed.

Lemma Pos_right_node h st fs n lb la cl1 c cl2 ls1 lc ls2 :
  Pos t B h st fs n lb la cl1 c cl2 ls1 lc ls2 →
  (cl2 = [] ∧ Stack_childNode t (Z.of_nat (length cl1) + 1) st = Ok None) ∨
  ∃ s cl0 sl ls0 m, cl2 = s :: cl0 ∧ ls2 = sl :: ls0 ∧ erepr t B (S h) s sl ∧
    resolve t s = Ok (Some m) ∧ Stack_childNode t (Z.of_nat (length cl1) + 1) st = Ok (Some m).
Proof.
  intros [HL Hch HF1 Hc HF2]. destruct cl2 as [|s cl0].
  - left. split; [done|]. eapply Stack_childNode_out; [by eapply Loc_path|].
    rewrite Hch, length_app. simpl. lia.
  - right. apply Forall2_cons_inv_l in HF2 as (sl & ls0 & Hs & HF2 & ->).
    pose proof Hs as (_ & _ & m & Hm & _)%erepr_S.
    exists s, cl0, sl, ls0, m. split_and!; try done.
    replace (Z.of_nat (length cl1) + 1)%Z with (Z.of_nat (length (cl1 ++ [c])))
      by (rewrite length_app; simpl; lia).
    eapply Loc_childNode_eq; [done| |done]. by rewrite Hch, <- app_assoc.
Qed.

Lemma balanceChild_spec h st fs n lb la cl1 c cl2 ls1 lc ls2 own :
  Pos t B h st fs n lb la cl1 c cl2 ls1 lc ls2 → childNode c = Some own →
  ∃ st', balanceChild t st = Ok st' ∧
    (st' = st ∨ rebalanced h fs lb la cl1 c ls1 lc ls2 st').
Proof.
  intros HP Hown. pose proof (pos_loc _ _ _ _ _ _ _ _ _ _ _ _ _ _ HP) as HL.
  pose proof (pos_children _ _ _ _ _ _ _ _ _ _ _ _ _ _ HP) as Hch.
  unfold balanceChild. rewrite (Loc_child_eq _ _ HL Hch). cbn [res_bind deref].
  rewrite Hown. cbn [res_bind deref].
  destruct (Z.leb_spec (smallSize t) (Msgsize own)) as [_|Hsmall]; [by exists st; auto|].
  rewrite (Loc_index_eq _ _ HL). cbn [res_bind].
  destruct (Pos_left_node _ _ _ _ _ _ _ _ _ _ _ _ HP)
    as [[-> ->]|(cl0 & s & ls0 & sl & m & -> & -> & Hs & Hm & ->)]; cbn [res_bind];
  (destruct (Pos_right_node _ _ _ _ _ _ _ _ _ _ _ _ HP)
    as [[-> ->]|(s2 & cl02 & sl2 & ls02 & m2 & -> & -> & Hs2 & Hm2 & ->)]; cbn [res_bind]).
  - by exists st; auto.
  - destruct (balance_right _ _ _ _ _ _ _ _ _ _ _ _ _ _ _ _ HP Hs2 Hm2 Hown) as (st' & Hst & HR).
    rewrite Hst. exists st'. auto.
  - destruct (balance_left _ _ _ _ _ _ _ _ _ _ _ _ _ _ _ _ HP Hs Hm Hown Hsmall) as (st' & Hst & HR).
    rewrite Hst. exists st'. auto.
  - destruct (Msgsize m <? Msgsize m2)%Z.
    + destruct (balance_right _ _ _ _ _ _ _ _ _ _ _ _ _ _ _ _ HP Hs2 Hm2 Hown) as (st' & Hst & HR).
      rewrite Hst. exists st'. auto.
    + destruct (balance_left _ _ _ _ _ _ _ _ _ _ _ _ _ _ _ _ HP Hs Hm Hown Hsmall) as (st' & Hst & HR).
      rewrite Hst. exists st'. auto.
Qed.

(** ** Moving to the next changed entry *)

Lemma find_from_Some p i cl j c :
  find_from p i cl = Some (j, c) →
  ∃ cl1 cl2, cl = cl1 ++ c :: cl2 ∧ j = i + length cl1 ∧ p c = true.
Proof.
  revert i. induction cl as [|d cl IH]; intros i Hfind; [done|]. simpl in Hfind.
  destruct (p d) eqn:E.
  - injection Hfind as <- <-. exists [], cl. simpl. split_and!; [done|lia|done].
  - apply IH in Hfind as (cl1 & cl2 & -> & -> & Hp). exists (d :: cl1), cl2.
    simpl. split_and!; [done|lia|done].
Qed.

Lemma has_interior_subtree_true c :
  has_interior_subtree c = true → ∃ m, childNode c = Some m ∧ Leafy m = false.
Proof.
  unfold has_interior_subtree. destruct (childNode c) as [m|]; [|done].
  intros Hl. exists m. by apply negb_true_iff in Hl.
Qed.

(** Down to a node without changed interior entries; nothing is passed. *)
Lemma goDownLeft_spec fuel h st fs n lb ln la :
  Loc t B (S h) st fs n 0 lb ln la → ln ≠ [] → h < fuel →
  ∃ st' h' fs' n' c cl2 lc ls2 lb' la',
    goDownLeft_loop fuel st = Ok st' ∧ Pos t B h' st' fs' n' lb' la' [] c cl2 [] lc ls2 ∧
    lb' ++ (lc ++ concat ls2) ++ la' = lb ++ ln ++ la ∧
    length (concat ls2 ++ la') < length (ln ++ la) ∧ (∃ x, lb' = lb ++ x) ∧
    S h' + length fs' = S h + length fs.
Proof.
  revert h st fs n lb ln la. induction fuel as [|fuel IH];
    intros h st fs n lb ln la HL Hne Hf; [lia|]. cbn [goDownLeft_loop].
  rewrite (Loc_node_eq _ _ HL). cbn [res_bind].
  destruct (find_from has_interior_subtree 0 (Children n)) as [[i c]|] eqn:Efind.
  - apply find_from_Some in Efind as (cl1 & cl2 & Hch & Hi & Hsub). simpl in Hi. subst i.
    apply has_interior_subtree_true in Hsub as (m & Hcm & HLm). rewrite Hcm.
    destruct (Loc_push _ _ _ _ _ _ _ _ _ _ _ _ _ m HL Hch)
      as (st1 & ls1 & lc & ls2 & -> & HF1 & Hc & HF2 & -> & HL1 & _).
    { unfold resolve. by rewrite Hcm. }
    cbn [res_bind]. pose proof (erepr_not_nil _ _ _ _ _ Hc) as Hlc.
    destruct (nrepr_leafy_false _ _ _ _ _ (loc_node _ _ _ _ _ _ _ _ _ _ HL1) HLm) as [h' ->].
    destruct (IH _ _ _ _ _ _ _ HL1 Hlc) as
      (st' & h2 & fs' & n' & c' & cl2' & lc' & ls2' & lb' & la' & Hgo & HP & Heq & Hlt & [x ->] & Hlen); [lia|].
    eexists st', h2, fs', n', c', cl2', lc', ls2', _, la'. split_and!; try done.
    + rewrite Heq, <- !app_assoc. done.
    + rewrite !length_app in *. lia.
    + exists (concat ls1 ++ x). by rewrite app_assoc.
    + simpl in *. lia.
  - destruct (Children n) as [|c cl2] eqn:Hch.
    { by pose proof (nrepr_children_nil _ _ _ _ _ (loc_node _ _ _ _ _ _ _ _ _ _ HL) Hch). }
    destruct (Loc_Pos t B h st fs n lb ln la [] c cl2 HL Hch) as (ls1 & lc & ls2 & -> & HP).
    pose proof (pos_left _ _ _ _ _ _ _ _ _ _ _ _ _ _ HP) as HF. inversion HF; subst ls1.
    pose proof (erepr_not_nil _ _ _ _ _ (pos_entry _ _ _ _ _ _ _ _ _ _ _ _ _ _ HP)) as Hlc.
    exists st, h, fs, n, c, cl2, lc, ls2, lb, la. simpl. split_and!; try done.
    + rewrite !length_app. destruct lc; [done|]. simpl. lia.
    + exists []. by rewrite app_nil_r.
Qed.

(** An entry further right is a different entry. *)
Lemma entries_differ l1 l2 l3 h h' c c' lc lc' :
  kvs_ok t B (l1 ++ lc ++ l2 ++ lc' ++ l3) → erepr t B h c lc → erepr t B h' c' lc' → c' ≠ c.
Proof.
  intros [Hs _] Hc Hc' ->.
  apply erepr_head in Hc as (v & r & ->). apply erepr_head in Hc' as (v' & r' & ->).
  rewrite app_assoc in Hs. apply sorted_kvs_app in Hs as (_ & _ & Hlt).
  apply (klt_irrefl (cKey c)). apply (Hlt (cKey c, v) (cKey c, v')); set_solver.
Qed.

(** The subtree an entry leads to is not that entry. *)
Lemma parent_differs h c lc c' lc' :
  erepr t B (S h) c lc → erepr t B (S (S h)) c' lc' → c' ≠ c.
Proof.
  intros Hc Hc' ->. pose proof (erepr_not_nil _ _ _ _ _ Hc) as Hne.
  apply erepr_S in Hc as (_ & _ & m & Hm & Hmr).
  apply erepr_S in Hc' as (_ & _ & m' & Hm' & Hmr').
  assert (m' = m) as -> by congruence.
  pose proof (nrepr_height _ _ _ _ _ _ _ Hmr Hmr' Hne). lia.
Qed.

Definition moved_on (h : nat) (fs : list (Node * Z)) (l : list kv) (c : NodeDataChild)
    (rest : nat) (st' : Stack) : Prop :=
  ∃ h' fs' n' lb' la' cl1' c' cl2' ls1' lc' ls2',
    Pos t B h' st' fs' n' lb' la' cl1' c' cl2' ls1' lc' ls2' ∧
    lb' ++ (concat ls1' ++ lc' ++ concat ls2') ++ la' = l ∧ c' ≠ c ∧
    S h' + length fs' = S h + length fs ∧
    (length (concat ls2' ++ la') < rest ∨ (length (concat ls2' ++ la') ≤ rest ∧ h < h')).

Lemma moveRight_spec h st fs n lb la cl1 c cl2 ls1 lc ls2 :
  Pos t B h st fs n lb la cl1 c cl2 ls1 lc ls2 →
  ∃ b st', moveRight t st = Ok (b, st') ∧
    if (b : bool)
    then moved_on h fs (lb ++ (concat ls1 ++ lc ++ concat ls2) ++ la) c
           (length (concat ls2 ++ la)) st'
    else st' = st ∧ fs = [].
Proof.
  intros [HL Hch HF1 Hc HF2]. unfold moveRight.
  rewrite (Loc_node_eq _ _ HL), (Loc_index_eq _ _ HL). cbn [res_bind].
  replace (Z.to_nat (Z.of_nat (length cl1) + 1)) with (length (cl1 ++ [c]))
    by (rewrite length_app; simpl; lia).
  assert (drop (length (cl1 ++ [c])) (Children n) = cl2) as ->.
  { rewrite Hch. replace (cl1 ++ c :: cl2) with ((cl1 ++ [c]) ++ cl2) by (by rewrite <- app_assoc).
    by rewrite drop_app_length. }
  pose proof (loc_ok _ _ _ _ _ _ _ _ _ _ HL) as Hok.
  destruct (find_from has_subtree _ cl2) as [[j d]|] eqn:Efind.
  - apply find_from_Some in Efind as (x1 & x2 & -> & -> & Hsub).
    apply Forall2_app_inv_l in HF2 as (k1 & k' & HG1 & HG' & ->).
    apply Forall2_cons_inv_l in HG' as (ld & k2 & Hd & HG2 & ->).
    assert (Children n = ((cl1 ++ [c]) ++ x1) ++ d :: x2) as Hchd by (by rewrite Hch, <- !app_assoc).
    rewrite <- length_app.
    assert (Forall2 (erepr t B (S h)) ((cl1 ++ [c]) ++ x1) ((ls1 ++ [lc]) ++ k1)) as HFl.
    { apply Forall2_app; [|done]. apply Forall2_app; [done|]. by constructor. }
    assert (concat ((ls1 ++ [lc]) ++ k1) = concat ls1 ++ lc ++ concat k1) as Hcc.
    { rewrite !concat_app. simpl. by rewrite app_nil_r, <- app_assoc. }
    pose proof (erepr_not_nil _ _ _ _ _ Hd) as Hldne.
    destruct (has_interior_subtree d) eqn:Eint.
    + (* into the next changed subtree *)
      apply has_interior_subtree_true in Eint as (m & Hdm & HLm).
      destruct (Loc_pushIndex _ _ _ _ _ _ _ _ _ _ _ _ _ HL Hchd)
        as (m' & st1 & q1 & qc & q2 & Hm' & -> & HQ1 & Hqc & HQ2 & _ & HL1 & _).
      assert (m' = m) as -> by (unfold resolve in Hm'; rewrite Hdm in Hm'; congruence).
      assert (q1 = (ls1 ++ [lc]) ++ k1) as -> by (by eapply Forall2_erepr_fun).
      assert (qc = ld) as -> by (by eapply erepr_fun).
      assert (q2 = k2) as -> by (by eapply Forall2_erepr_fun).
      cbn [res_bind].
      destruct (nrepr_leafy_false _ _ _ _ _ (loc_node _ _ _ _ _ _ _ _ _ _ HL1) HLm) as [h' ->].
      destruct (goDownLeft_spec depth_fuel _ _ _ _ _ _ _ HL1 Hldne) as
        (st' & h2 & fs' & n' & c' & cl2' & lc' & ls2' & lb' & la' & Hgo & HP & Heq & Hlt & [x ->] & Hlen).
      { pose proof (loc_depth _ _ _ _ _ _ _ _ _ _ HL1). unfold depth_fuel. simpl in *. lia. }
      unfold goDownLeft. rewrite Hgo. cbn [res_bind]. exists true, st'. split; [done|].
      exists h2, fs', n'. eexists _, la', [], c', cl2', [], lc', ls2'.
      rewrite Hcc in Heq, HP. rewrite concat_app in Hok |- *. simpl in Hok, Heq |- *.
      split_and!; [exact HP| | | |].
      * rewrite <- !app_assoc in *. done.
      * eapply (entries_differ (lb ++ concat ls1) (concat k1 ++ x) (concat ls2' ++ la'));
          [|done|by eapply pos_entry].
        rewrite <- !app_assoc in *. rewrite Heq. done.
      * simpl in Hlen. lia.
      * left. rewrite !length_app in *. lia.
    + (* the next changed leaf *)
      destruct (Loc_setIndex _ _ _ _ _ _ _ _ _ _ (Z.of_nat (length ((cl1 ++ [c]) ++ x1))) HL)
        as (st' & -> & HL' & _).
      cbn [res_bind]. exists true, st'. split; [done|].
      exists h, fs, n, lb, la, ((cl1 ++ [c]) ++ x1), d, x2, ((ls1 ++ [lc]) ++ k1), ld, k2.
      rewrite Hcc. rewrite concat_app in Hok, HL' |- *. simpl in Hok, HL' |- *.
      split_and!; try done.
      * split; try done. rewrite Hcc. rewrite <- !app_assoc in *. done.
      * by rewrite <- !app_assoc.
      * eapply (entries_differ (lb ++ concat ls1) (concat k1)); [|done|done].
        rewrite <- !app_assoc in *. done.
      * left. rewrite !length_app in *. destruct ld; [done|]. simpl. lia.
  - (* up *)
    rewrite (Loc_top_eq _ _ HL). destruct fs as [|[p j] fs]; [by exists false, st|].
    cbn [length Nat.eqb].
    destruct (Loc_pop _ _ _ _ _ _ _ _ _ _ _ _ HL)
      as (st' & p1 & old & p2 & ks1 & ksn & ks2 & lb' & la' & -> & -> & Hchp & HG1 & HGn & HG2 &
          Hksn & -> & -> & HL' & _).
    cbn [res_bind]. exists true, st'. split; [done|].
    destruct (Children n) as [|c0 cl0] eqn:Ecl; [by destruct cl1|].
    assert (newc t n = [mkSubtreeChild t (cKey c0) n]) as En by (unfold newc; by rewrite Ecl).
    rewrite En in HGn, HL'. apply Forall2_cons_inv_l in HGn as (ln & ? & Hn & HG0 & ->).
    inversion HG0; subst. simpl in Hksn. rewrite app_nil_r in Hksn. subst ln.
    eexists (S h), fs, _, lb', la', p1, (mkSubtreeChild t (cKey c0) n), p2, ks1, _, ks2.
    split_and!; [by split|by rewrite <- !app_assoc|by eapply parent_differs|simpl; lia|].
    right. rewrite !length_app. lia.
Qed.

(** ** The loop ends *)

(** Turns left: entries right of the cursor, levels above it, entries left of it
    in its node, bytes its subtree may still grow; in this order. *)
Definition turns (L A d i w : nat) : nat :=
  ((A * S maximumTreeDepth + d) * S L + i) * S (Z.to_nat (smallSize t)) + w.

(** Enough turns for any position in a tree that holds [L] entries. *)
Definition commit_fuel (L : nat) : nat :=
  S (turns L L maximumTreeDepth L (Z.to_nat (smallSize t))).

Lemma turns_step L A d i w A' d' i' w' :
  d' ≤ maximumTreeDepth → i' ≤ L → w' ≤ Z.to_nat (smallSize t) →
  (A' < A ∨ (A' ≤ A ∧ (d' < d ∨ (d' = d ∧ (i' < i ∨ (i' = i ∧ w' < w)))))) →
  turns L A' d' i' w' < turns L A d i w.
Proof.
  unfold turns. generalize maximumTreeDepth as D, (Z.to_nat (smallSize t)) as W.
  intros D W Hd Hi Hw Hlex.
  assert (A' * S D + d' < A * S D + d ∨
          (A' * S D + d' ≤ A * S D + d ∧ (i' < i ∨ (i' = i ∧ w' < w)))) as H1.
  { destruct Hlex as [?|[? [?|[-> ?]]]]; [left; nia|left; nia|right; nia]. }
  assert ((A' * S D + d') * S L + i' < (A * S D + d) * S L + i ∨
          ((A' * S D + d') * S L + i' ≤ (A * S D + d) * S L + i ∧ w' < w)) as H2.
  { destruct H1 as [?|[? [?|[-> ?]]]]; [left; nia|left; nia|right; nia]. }
  destruct H2 as [?|[? ?]]; nia.
Qed.

Lemma work_bound c : work c ≤ Z.to_nat (smallSize t).
Proof.
  unfold work. destruct (childNode c) as [m|]; [|lia].
  pose proof (children_size_nonneg (Children m)). unfold Msgsize, node_overhead.
  pose proof BoolSize_nonneg. pose proof ArrayHeaderSize_nonneg. lia.
Qed.

(** The position of the cursor, as turns left. *)
Definition pos_turns (L h : nat) (cl1 : list NodeDataChild) (c : NodeDataChild)
    (ls2 : list (list kv)) (la : list kv) : nat :=
  turns L (length (concat ls2 ++ la)) (maximumTreeDepth - h) (length cl1) (work c).

Lemma Pos_index_bound h st fs n lb la cl1 c cl2 ls1 lc ls2 l :
  Pos t B h st fs n lb la cl1 c cl2 ls1 lc ls2 →
  lb ++ (concat ls1 ++ lc ++ concat ls2) ++ la = l → length cl1 ≤ length l.
Proof.
  intros HP <-. pose proof (erepr_concat_pos _ _ _ (pos_left _ _ _ _ _ _ _ _ _ _ _ _ _ _ HP)).
  rewrite !length_app. lia.
Qed.

Lemma pos_turns_fuel h st fs n lb la cl1 c cl2 ls1 lc ls2 l :
  Pos t B h st fs n lb la cl1 c cl2 ls1 lc ls2 →
  lb ++ (concat ls1 ++ lc ++ concat ls2) ++ la = l →
  pos_turns (length l) h cl1 c ls2 la < commit_fuel (length l).
Proof.
  intros HP Hl. pose proof (Pos_index_bound _ _ _ _ _ _ _ _ _ _ _ _ _ HP Hl).
  pose proof (work_bound c). unfold pos_turns, commit_fuel.
  assert (length (concat ls2 ++ la) ≤ length l) by (rewrite <- Hl, !length_app; lia).
  unfold turns. apply Nat.lt_succ_r. repeat apply Nat.add_le_mono; try lia.
  repeat (apply Nat.mul_le_mono; [|lia]).
  repeat apply Nat.add_le_mono; try lia. repeat (apply Nat.mul_le_mono; [|lia]).
  apply Nat.add_le_mono; [|lia]. apply Nat.mul_le_mono; lia.
Qed.

Lemma iterateMutating_loop_spec fuel h st fs n lb la cl1 c cl2 ls1 lc ls2 l :
  Pos t B h st fs n lb la cl1 c cl2 ls1 lc ls2 →
  lb ++ (concat ls1 ++ lc ++ concat ls2) ++ la = l →
  pos_turns (length l) h cl1 c ls2 la < fuel →
  ∃ st' n' i', iterateMutating_loop t fuel (balanceChild t) st = Ok st' ∧
    Loc t B (S h + length fs) st' [] n' i' [] l [].
Proof.
  revert h st fs n lb la cl1 c cl2 ls1 lc ls2. induction fuel as [|fuel IH];
    intros h st fs n lb la cl1 c cl2 ls1 lc ls2 HP Hl Hf; [lia|].
  cbn [iterateMutating_loop]. pose proof HP as [HL Hch HF1 Hc HF2].
  rewrite (Loc_child_eq _ _ HL Hch). cbn [res_bind].
  assert (∃ st1, (if has_subtree c then balanceChild t st else Ok st) = Ok st1 ∧
            (st1 = st ∨ rebalanced h fs lb la cl1 c ls1 lc ls2 st1)) as (st1 & -> & Hst1).
  { unfold has_subtree. destruct (childNode c) as [own|] eqn:Hown; [|by eauto].
    by eapply balanceChild_spec. }
  cbn [res_bind]. destruct Hst1 as [->|(n' & cl1' & c' & cl2' & ls1' & lc' & ls2' & HP' & Heq & Hne & Hadv)].
  - (* in balance: move on *)
    rewrite (Loc_child_eq _ _ HL Hch). cbn [res_bind].
    rewrite (proj2 (ochild_eqb_eq _ _)) by done.
    destruct (moveRight_spec _ _ _ _ _ _ _ _ _ _ _ _ HP) as (b & st' & -> & Hmove).
    cbn [res_bind]. destruct b.
    + destruct Hmove as (h' & fs' & n' & lb' & la' & cl1' & c' & cl2' & ls1' & lc' & ls2' &
        HP' & Heq & Hne & Hh & Hlt). rewrite Hl in Heq.
      rewrite (Loc_child_eq _ _ (pos_loc _ _ _ _ _ _ _ _ _ _ _ _ _ _ HP')
                 (pos_children _ _ _ _ _ _ _ _ _ _ _ _ _ _ HP')). cbn [res_bind].
      destruct (ochild_eqb (Some c) (Some c')) eqn:Ecc.
      { apply ochild_eqb_eq in Ecc. congruence. }
      destruct (IH _ _ _ _ _ _ _ _ _ _ _ _ HP' Heq) as (st2 & n2 & i2 & H2 & HL2).
      { eapply Nat.lt_le_trans; [|apply Nat.lt_succ_r, Hf]. unfold pos_turns.
        pose proof (loc_depth _ _ _ _ _ _ _ _ _ _ HL).
        apply turns_step; [lia|by eapply Pos_index_bound|apply work_bound|].
        destruct Hlt as [?|[? ?]]; [by left|right; split; [done|left; lia]]. }
      exists st2, n2, i2. rewrite Hh in HL2. done.
    + destruct Hmove as [-> ->]. simpl in *.
      destruct (loc_ctx _ _ _ _ _ _ _ _ _ _ HL) as [-> ->].
      rewrite app_nil_r in Hl. simpl in Hl. subst l.
      exists st, n, (Z.of_nat (length cl1)). split; [done|]. by rewrite Nat.add_0_r.
  - (* rebalanced: the same position again *)
    pose proof HP' as [HL' Hch' HF1' Hc' HF2'].
    rewrite (Loc_child_eq _ _ HL' Hch'). cbn [res_bind].
    destruct (ochild_eqb (Some c') (Some c)) eqn:Ecc.
    { apply ochild_eqb_eq in Ecc. injection Ecc as ->. exfalso. by eapply Hne, erepr_fun. }
    destruct (IH _ _ _ _ _ _ _ _ _ _ _ _ HP') as (st2 & n2 & i2 & H2 & HL2).
    + by rewrite Heq.
    + eapply Nat.lt_le_trans; [|apply Nat.lt_succ_r, Hf]. unfold pos_turns.
      apply turns_step; [lia| |apply work_bound|].
      * eapply Pos_index_bound; [done|]. by rewrite Heq.
      * rewrite !length_app. destruct Hadv as [?|[? [?|[? ?]]]]; [left; lia|right..];
          (split; [lia|]); right; (split; [done|]); [by left|by right].
    + by exists st2, n2, i2.
Qed.

Lemma iterateMutating_spec fuel h st n i l :
  Loc t B h st [] n i [] l [] → (h = 0 ∨ l ≠ []) → commit_fuel (length l) ≤ fuel →
  ∃ st' n' i', iterateMutatingChildLeafFirst t fuel (balanceChild t) st = Ok (n', st') ∧
    Loc t B h st' [] n' i' [] l [].
Proof.
  intros HL Hne Hfuel. unfold iterateMutatingChildLeafFirst.
  destruct (Reset_At t st n i (loc_at _ _ _ _ _ _ _ _ _ _ HL)) as (st1 & -> & HA1 & _).
  cbn [res_bind]. assert (Loc t B h st1 [] n 0 [] l []) as HL1.
  { destruct HL; by split. }
  rewrite (Loc_node_eq _ _ HL1). cbn [res_bind].
  rewrite (proj1 (loc_node _ _ _ _ _ _ _ _ _ _ HL1)). destruct h as [|h]; cbn [Nat.eqb].
  { by exists st1, n, 0%Z. }
  destruct Hne as [?|Hne]; [done|].
  destruct (goDownLeft_spec depth_fuel h st1 [] n [] l [] HL1 Hne) as
    (st2 & h' & fs' & n' & c & cl2 & lc & ls2 & lb' & la' & Hgo & HP & Heq & _ & _ & Hlen).
  { pose proof (loc_depth _ _ _ _ _ _ _ _ _ _ HL1). unfold depth_fuel. simpl in *. lia. }
  rewrite app_nil_r in Heq. simpl in Heq. unfold goDownLeft. rewrite Hgo. cbn [res_bind].
  destruct (iterateMutating_loop_spec fuel _ _ _ _ _ _ _ _ _ _ _ _ l HP) as (st3 & n3 & i3 & -> & HL3).
  { by simpl. }
  { eapply Nat.lt_le_trans; [|done]. by eapply pos_turns_fuel. }
  cbn [res_bind]. rewrite Hlen in HL3. simpl in HL3. rewrite Nat.add_0_r in HL3.
  destruct (Loc_pop_all t B depth_fuel _ _ _ _ _ _ _ _ HL3) as (st4 & n4 & i4 & -> & HL4 & _ & Hid);
    [simpl; lia|].
  destruct (Hid eq_refl) as [-> ->]. cbn [res_bind].
  rewrite (root_of_Path _ _ _ (Loc_path _ _ _ _ _ _ _ _ _ _ HL3)). cbn [res_bind deref].
  by exists st3, n3, i3.
Qed.

End iterate.
