(* ===== verification/IBCommit.v ===== *)
(** * Commit (Stack.commit) and the root check

    [commit] leaves the cursor at the root of a tree that holds what the tree of
    the cursor held: the subtrees on the path are written back, the pass of
    [IBIterate] runs if some leaf became small, and a root with few entries is
    replaced by the entries of its children. *)
From stdpp Require Import base list sets strings sorting.
From Stdlib Require Import ZArith Lia.
From S2P Require Import Prelude OrderedMap IBNode IBStack IBTree IBRepr IBStackFacts IBLoc IBSearch IBWalk IBGet IBAdd IBBalance IBIterate.

Section commit.
Context `{Hsz : MsgpSizes} `{!MsgpSizesOk} (t : Tree) (B : Z).
Hypothesis HBhalf : (node_overhead + B < halfSize t)%Z.

(** ** Collapsing the root *)

Lemma all_childNodes_spec h st fs n i lb ln la cl1 cl2 ls2 :
  Loc t B (S h) st fs n i lb ln la → Children n = cl1 ++ cl2 →
  Forall2 (erepr t B (S h)) cl2 ls2 →
  ∃ ms lss, all_childNodes t (length cl2) (length cl1) st = Ok ms ∧ length ms = length cl2 ∧
    Forall (λ m, Leafy m = (h =? 0)) ms ∧
    Forall2 (erepr t B h) (concat (map Children ms)) lss ∧ concat lss = concat ls2.
Proof.
  intros HL. revert cl1 ls2. induction cl2 as [|c cl2 IH]; intros cl1 ls2 Hch HF.
  - inversion HF; subst. by exists [], [].
  - apply Forall2_cons_inv_l in HF as (lc & ls2' & Hc & HF & ->).
    apply erepr_S in Hc as (_ & _ & m & Hm & HLm & lsm & HFm & ->).
    cbn [length all_childNodes]. rewrite (Loc_childNode_eq _ _ HL Hch Hm). cbn [res_bind deref].
    destruct (IH (cl1 ++ [c]) ls2') as (ms & lss & Hall & Hlen & HFl & HFc & Hcc);
      [by rewrite <- app_assoc|done|].
    rewrite length_app, Nat.add_1_r in Hall. rewrite Hall. cbn [res_bind].
    exists (m :: ms), (lsm ++ lss). split_and!; [done|simpl; lia|by constructor| |].
    + simpl. by apply Forall2_app.
    + rewrite concat_app. simpl. by rewrite Hcc.
Qed.

Lemma existsb_Leafy h ms :
  Forall (λ m, Leafy m = (h =? 0)) ms → ms ≠ [] → existsb Leafy ms = (h =? 0).
Proof.
  intros HF Hne. destruct HF as [|m ms Hm HF]; [done|]. simpl. rewrite Hm.
  destruct (h =? 0) eqn:E; [done|]. simpl. clear Hm Hne.
  induction HF as [|m' ms Hm' HF IH]; [done|]. simpl. by rewrite Hm'.
Qed.

(** Replacing the root by a node with the same entries keeps the cursor valid. *)
Lemma At_same_children st n n' i :
  At t st [] n i → Children n' = Children n →
  At t (with_nodes (<[top st := Some n']> (nodes st)) st) [] n' i.
Proof.
  intros [HP HC] Hch. pose proof HP as [H1 H2 H3 H4 H5 H6 H7 H8].
  pose proof (lookup_lt_Some _ _ _ H5) as Hlt. split.
  - split; simpl; try done.
    + by rewrite length_insert.
    + by apply list_lookup_insert_eq.
    + intros j Hj Hd. rewrite list_lookup_insert_ne by lia. by apply H8.
  - intros j m Hj Hm. simpl in *. rewrite list_lookup_insert_ne in Hm by lia.
    destruct (HC j m Hj Hm) as (p & k & c & Hp & Hk & Hc & Hr).
    destruct (decide (j = top st)) as [->|Hne].
    + exists n', k, c. rewrite list_lookup_insert_eq by done.
      assert (p = n) as -> by congruence. by rewrite Hch.
    + exists p, k, c. by rewrite list_lookup_insert_ne by lia.
Qed.

Lemma collapseRoot_spec h st n i l :
  Loc t B h st [] n i [] l [] → (h = 0 ∨ l ≠ []) →
  ∃ n' st' h' i', collapseRoot t st = Ok (n', st') ∧ Loc t B h' st' [] n' i' [] l [] ∧
    h' ≤ h ∧ (h' = 0 ∨ l ≠ []).
Proof.
  intros HL Hne. unfold collapseRoot. rewrite (Loc_node_eq _ _ HL). cbn [res_bind].
  pose proof (loc_node _ _ _ _ _ _ _ _ _ _ HL) as (HLn & ls & HF & Hl).
  destruct (negb (Leafy n) && (Msgsize n <? smallSize t)%Z) eqn:Esmall;
    [|exists n, st, h, i; split_and!; [done|done|lia|done]].
  apply andb_true_iff in Esmall as [Hint _]. rewrite HLn in Hint.
  destruct h as [|h]; [done|]. destruct Hne as [?|Hne]; [done|].
  destruct (all_childNodes_spec h st [] n i [] l [] [] (Children n) ls HL eq_refl HF)
    as (ms & lss & Hall & Hlen & HFl & HFc & Hcc).
  simpl in Hall. rewrite Hall. cbn [res_bind].
  destruct (sum_Msgsize ms <=? NodeMaximumSize t)%Z; 
    [|exists n, st, (S h), i; split_and!; [done|done|lia|by right]].
  pose proof (loc_ok _ _ _ _ _ _ _ _ _ _ HL) as Hok. rewrite app_nil_r in Hok. simpl in Hok.
  destruct (rewriteNodeChildren_At t (concat (map Children ms)) st [] n i) as (st1 & -> & HA & _).
  { apply HL. }
  { eapply check_erepr; [done|]. by rewrite Hcc, <- Hl. }
  cbn [res_bind]. rewrite (node_Path _ _ _ _ (proj1 HA)). cbn [res_bind].
  assert (ms ≠ []) as Hms.
  { intros ->. inversion HFc; subst. apply Hne. by rewrite <- Hcc. }
  rewrite (existsb_Leafy h ms HFl Hms).
  assert (∀ b, b = (h =? 0) → nrepr t B h (mkNode b (concat (map Children ms)) None) l) as Hn'.
  { intros b Hb. rewrite Hl, <- Hcc. by apply nrepr_mk. }
  assert (h + 0 < maximumTreeDepth) by (pose proof (loc_depth _ _ _ _ _ _ _ _ _ _ HL); simpl in *; lia).
  destruct h as [|h]; cbn [Nat.eqb].
  - rewrite go_update_Ok by (eapply lookup_lt_Some, path_node, HA). cbn [res_bind].
    eexists _, _, 0, i. split; [done|]. split; [|split; [lia|by left]].
    split; [by eapply At_same_children|done|by apply Hn'|by rewrite app_nil_r|done].
  - eexists _, st1, (S h), i. split; [done|]. split; [|split; [lia|by right]].
    split; [done|done| |by rewrite app_nil_r|done].
    rewrite HLn. by apply Hn'.
Qed.

(** ** Commit *)

Lemma commit_spec fuel h st fs n i lb ln la l :
  Loc t B h st fs n i lb ln la → lb ++ ln ++ la = l →
  (h + length fs = 0 ∨ l ≠ []) → commit_fuel t (length l) ≤ fuel →
  ∃ root st' h', commit t fuel st = Ok (root, st') ∧ Rest t B h' st' root l ∧
    h' ≤ h + length fs.
Proof.
  intros HL Hl Hne Hfuel. unfold commit.
  destruct (Loc_pop_all t B depth_fuel _ _ _ _ _ _ _ _ HL) as (st1 & n1 & i1 & -> & HL1 & Hs1 & _).
  { pose proof (loc_depth _ _ _ _ _ _ _ _ _ _ HL). unfold depth_fuel. lia. }
  rewrite Hl in HL1. cbn [res_bind].
  destruct (Z.eqb_spec (smallCount st1) 0) as [Hs0|_].
  - rewrite (Loc_node_eq _ _ HL1). cbn [res_bind]. exists n1, st1, (h + length fs).
    split; [done|]. split; [|lia]. split; [by eexists|]. done.
  - destruct (iterateMutating_spec t B HBhalf fuel _ _ _ _ _ HL1 Hne Hfuel)
      as (st2 & n2 & i2 & -> & HL2). cbn [res_bind snd].
    destruct (collapseRoot_spec _ _ _ _ _ HL2 Hne) as (n3 & st3 & h3 & i3 & -> & HL3 & Hh & Hne3).
    cbn [res_bind]. exists n3, (with_smallCount 0 st3), h3. split; [done|]. split; [|done].
    split; [|done]. exists i3. destruct HL3 as [[HP HC] ? ? ? ?]. split; try done.
    split; [|done]. by destruct HP.
Qed.

End commit.
