(* ===== verification/IBUpdate.v ===== *)
(** * Updates (Node.Set, Node.Delete)

    [Set] and [Delete] act on the list a tree holds as the insertion and the
    deletion of an ordered map; the new tree is at rest again. *)
From stdpp Require Import base list sets strings sorting.
From Stdlib Require Import ZArith Lia.
From S2P Require Import Prelude OrderedMap IBNode IBStack IBTree IBRepr IBStackFacts IBLoc IBSearch IBWalk IBGet IBAdd IBBalance IBIterate IBCommit.

(** The sizes of a tree whose entries take at most [B] bytes: an entry is less
    than half of a node, and fits in a node. *)
Class TreeOk `{MsgpSizes} (t : Tree) (B : Z) : Prop := {
  tree_sizes : MsgpSizesOk;
  tree_half : (node_overhead + B < halfSize t)%Z;
  tree_max : (node_overhead + B ≤ NodeMaximumSize t)%Z
}.

Section update.
Context `{Hsz : MsgpSizes} (t : Tree) (B : Z) `{!TreeOk t B}.

#[local] Instance update_sizes : MsgpSizesOk := tree_sizes (t := t) (B := B).

Abbreviation kvs_of := (map pair_of_child).

Lemma kvs_of_pair c : pair_of_child c = (cKey c, cValue c).
Proof. done. Qed.

Lemma om_set_kvs_ok key value l :
  kvs_ok t B l → kv_ok t B (key, value) → kvs_ok t B (om_set key value l).
Proof.
  intros [Hs Hok] Hkv. split; [by apply om_set_sorted|]. rewrite Forall_forall in Hok.
  apply Forall_forall. intros p. unfold om_set. rewrite elem_of_app, elem_of_cons.
  intros [[Hp _]%filter_elem_of|[->|[Hp _]%filter_elem_of]]; auto.
Qed.

Lemma kvs_ok_sub f l : kvs_ok t B l → kvs_ok t B (List.filter f l).
Proof.
  intros [Hs Hok]. split; [by apply sorted_filter|]. rewrite Forall_forall in *.
  intros p [Hp _]%filter_elem_of. auto.
Qed.

Lemma om_delete_range_kvs_ok k1 k2 l :
  kltb k2 k1 = false → kvs_ok t B l → kvs_ok t B (om_delete_range k1 k2 l).
Proof.
  intros Hk [Hs Hok]. split; [apply om_delete_range_sorted; [|done]; unfold kleb; by rewrite Hk|]. rewrite Forall_forall in *.
  intros p. unfold om_delete_range. rewrite elem_of_app.
  intros [[Hp _]%filter_elem_of|[Hp _]%filter_elem_of]; auto.
Qed.

Lemma kv_ok_B_pos p : kv_ok t B p → (0 < B)%Z.
Proof.
  intros (_ & Hsize & _). unfold entry_size, slen in Hsize.
  pose proof StringPrefixSize_nonneg. lia.
Qed.

(** ** Set *)

(** A new key is inserted at the position the search found. *)
Lemma insert_spec fuel key value h st fs leaf cl1 cl2 lb la :
  Loc t B 0 st fs leaf (Z.of_nat (length cl1)) lb (kvs_of (cl1 ++ cl2)) la →
  Children leaf = cl1 ++ cl2 → length fs = h → S h < maximumTreeDepth →
  kv_ok t B (key, value) → kvs_ok t B ((lb ++ kvs_of cl1) ++ (key, value) :: kvs_of cl2 ++ la) →
  commit_fuel t (length ((lb ++ kvs_of cl1) ++ (key, value) :: kvs_of cl2 ++ la)) ≤ fuel →
  ∃ root' st' h',
    (let! st := addChildAt t depth_fuel (mkChild key value None) st in commit t fuel st)
      = Ok (root', st') ∧
    Rest t B h' st' root' ((lb ++ kvs_of cl1) ++ (key, value) :: kvs_of cl2 ++ la) ∧ h' ≤ S h.
Proof.
  intros HL Hch <- Hd Hkv Hok Hfuel.
  pose proof (loc_node _ _ _ _ _ _ _ _ _ _ HL) as (_ & ls & HF & _).
  rewrite Hch in HF. apply Forall2_app_inv_l in HF as (ls1 & ls2 & HF1 & HF2 & ->).
  assert ((lb ++ kvs_of cl1) ++ (key, value) :: kvs_of cl2 ++ la
          = lb ++ (concat ls1 ++ [(key, value)] ++ concat ls2) ++ la) as E.
  { rewrite (erepr_0_kvs _ _ _ _ HF1), (erepr_0_kvs _ _ _ _ HF2).
    rewrite <- !app_assoc. done. }
  rewrite E in Hok, Hfuel |- *.
  destruct (addChildAt_spec t B tree_max depth_fuel (mkChild key value None) 0 st fs leaf lb _ la
              cl1 cl2 ls1 [(key, value)] ls2 HL Hch HF1)
    as (st1 & h1 & fs1 & n1 & i1 & lb1 & ln1 & la1 & -> & HL1 & Heq & Hh); try done.
  { by apply erepr_leaf. }
  { pose proof (loc_depth _ _ _ _ _ _ _ _ _ _ HL). unfold depth_fuel. lia. }
  { by eapply kv_ok_B_pos. }
  cbn [res_bind].
  destruct (commit_spec t B tree_half fuel _ _ _ _ _ _ _ _ _ HL1 Heq) as (r & st' & h' & Hc & HR & Hh').
  { right. by destruct lb, (concat ls1). }
  { done. }
  exists r, st', h'. split_and!; [done|done|]. simpl in Hh. lia.
Qed.

Lemma Node_Set_om fuel key value h st root l :
  Rest t B h st root l → kv_ok t B (key, value) → S h < maximumTreeDepth →
  commit_fuel t (length (om_set key value l)) ≤ fuel →
  ∃ root' st' h', Node_Set t fuel root key value st = Ok (root', st') ∧
    Rest t B h' st' root' (om_set key value l) ∧ h' ≤ S h.
Proof.
  intros HR Hkv Hd Hfuel. pose proof (om_set_kvs_ok _ _ _ (Rest_kvs_ok _ _ _ _ _ _ HR) Hkv) as Hok.
  pose proof (Rest_sorted _ _ _ _ _ _ HR) as Hsrt.
  destruct (Node_search_Found t B key _ _ _ _ HR) as (st1 & H1 & HF & Hs & Ht).
  unfold Node_Set. rewrite H1. cbn [res_bind].
  destruct HF as (fs & leaf & cl1 & cl2 & lb & la & HL & Hcl & Hch & -> & G1 & G2 & G3 & Hr).
  rewrite (Loc_top_eq _ _ HL) in Ht.
  destruct cl2 as [|c cl2].
  - rewrite (child_Path_out _ _ _ _ (Loc_path _ _ _ _ _ _ _ _ _ _ HL))
      by (right; rewrite Hch, app_nil_r; lia).
    cbn [res_bind]. simpl in *. rewrite om_set_split in * by done.
    by eapply (insert_spec fuel key value h st1 fs leaf cl1 []).
  - rewrite (Loc_child_eq _ _ HL Hch). cbn [res_bind]. simpl map in *. rewrite <- app_comm_cons in *.
    destruct (keqb (cKey c) key) eqn:Ek.
    + apply keqb_eq in Ek. subst key. rewrite kvs_of_pair in *.
      rewrite om_set_split_at in Hok, Hfuel |- * by done.
      assert (∃ st2 n2, (if keqb (cValue c) value then Ok st1
                else rewriteAtIndex t true (Some (mkChild (cKey c) value None)) st1) = Ok st2 ∧
              Loc t B 0 st2 fs n2 (Z.of_nat (length cl1)) lb
                (kvs_of cl1 ++ (cKey c, value) :: kvs_of cl2) la) as (st2 & n2 & -> & HL2).
      { rewrite map_app in HL. destruct (keqb (cValue c) value) eqn:Ev.
        - apply keqb_eq in Ev. subst value. by exists st1, leaf.
        - pose proof (loc_node _ _ _ _ _ _ _ _ _ _ HL) as (_ & ls & HF & _).
          rewrite Hch in HF. apply Forall2_app_inv_l in HF as (ls1 & ls' & HF1 & HF' & ->).
          apply Forall2_cons_inv_l in HF' as (lc & ls2 & Hc & HF2 & ->).
          assert (concat (ls1 ++ [(cKey c, value)] :: ls2)
                  = kvs_of cl1 ++ (cKey c, value) :: kvs_of cl2) as E.
          { rewrite concat_app. simpl.
            by rewrite (erepr_0_kvs _ _ _ _ HF1), (erepr_0_kvs _ _ _ _ HF2). }
          destruct (Loc_rewriteAtIndex t B true (Some (mkChild (cKey c) value None)) 0 st1 fs leaf lb _ la
                      cl1 c cl2 (ls1 ++ [(cKey c, value)] :: ls2) HL) as (st2 & H2 & HL2 & _); try done.
          + apply Forall2_app; [done|]. constructor; [by apply erepr_leaf|done].
          + rewrite E. rewrite <- !app_assoc in *. done.
          + eexists st2, _. split; [done|]. by rewrite E in HL2. }
      cbn [res_bind].
      destruct (commit_spec t B tree_half fuel _ _ _ _ _ _ _ _
                  ((lb ++ kvs_of cl1) ++ (cKey c, value) :: kvs_of cl2 ++ la) HL2)
        as (r & st' & h' & Hc & HR' & Hh'); [by rewrite <- !app_assoc|by right; destruct lb, cl1|done|].
      exists r, st', h'. split_and!; [done|done|simpl in *; lia].
    + apply keqb_neq in Ek.
      assert (all_gt (pair_of_child c :: kvs_of cl2 ++ la) key) as Hgt.
      { apply all_ge_head_ne; [by eapply sorted_kvs_app_r| |done].
        rewrite app_comm_cons. apply all_ge_app. auto using all_gt_ge. }
      rewrite om_set_split in Hok, Hfuel |- * by done.
      by eapply (insert_spec fuel key value h st1 fs leaf cl1 (c :: cl2)).
Qed.

(** ** Delete *)

Lemma Node_Delete_om fuel key v h st root l :
  Rest t B h st root l → om_get key l = Some v → (h = 0 ∨ om_delete key l ≠ []) →
  commit_fuel t (length (om_delete key l)) ≤ fuel →
  ∃ root' st' h', Node_Delete t fuel root key st = Ok (root', st') ∧
    Rest t B h' st' root' (om_delete key l) ∧ h' ≤ h.
Proof.
  intros HR Hget Hne Hfuel. pose proof (Rest_kvs_ok _ _ _ _ _ _ HR) as Hok.
  pose proof (Rest_sorted _ _ _ _ _ _ HR) as Hsrt.
  destruct (Node_search_Found t B key _ _ _ _ HR) as (st1 & H1 & HF & Hs & Ht).
  unfold Node_Delete. rewrite H1. cbn [res_bind].
  destruct (Found_child _ _ _ _ _ _ HF) as (oc & Hoc & Hg). rewrite Hg in Hget.
  destruct oc as [c|]; [|done]. destruct (keqb (cKey c) key) eqn:Ek; [|done].
  rewrite Hoc. cbn [res_bind]. rewrite Ek. apply keqb_eq in Ek. subst key.
  destruct HF as (fs & leaf & cl1 & cl2 & lb & la & HL & Hcl & Hch & -> & G1 & G2 & G3 & Hr).
  rewrite (Loc_top_eq _ _ HL) in Ht.
  destruct cl2 as [|c' cl2].
  { rewrite (child_Path_out _ _ _ _ (Loc_path _ _ _ _ _ _ _ _ _ _ HL)) in Hoc;
      [done|right; rewrite Hch, app_nil_r; lia]. }
  rewrite (Loc_child_eq _ _ HL Hch) in Hoc. injection Hoc as ->.
  simpl map in *. rewrite <- app_comm_cons, kvs_of_pair in *.
  rewrite om_delete_split_at in Hne, Hfuel |- * by done.
  pose proof (loc_node _ _ _ _ _ _ _ _ _ _ HL) as (_ & ls & HF & _).
  rewrite Hch in HF. apply Forall2_app_inv_l in HF as (ls1 & ls' & HF1 & HF' & ->).
  apply Forall2_cons_inv_l in HF' as (lc & ls2 & Hc & HF2 & ->).
  assert (concat (ls1 ++ ls2) = kvs_of cl1 ++ kvs_of cl2) as E.
  { by rewrite concat_app, (erepr_0_kvs _ _ _ _ HF1), (erepr_0_kvs _ _ _ _ HF2). }
  destruct (Loc_rewriteAtIndex t B true None 0 st1 fs leaf lb _ la cl1 c cl2 (ls1 ++ ls2) HL)
    as (st2 & -> & HL2 & _); [done|done|by apply Forall2_app| |].
  { rewrite E. rewrite <- !app_assoc in *. rewrite app_assoc in Hok |- *.
    by eapply (kvs_ok_drop_mid t B _ [(cKey c, cValue c)]). }
  cbn [res_bind]. rewrite E in HL2.
  destruct (commit_spec t B tree_half fuel _ _ _ _ _ _ _ _ ((lb ++ kvs_of cl1) ++ kvs_of cl2 ++ la) HL2)
    as (r & st' & h' & Hcm & HR' & Hh'); [by rewrite <- !app_assoc|simpl; by rewrite Ht|done|].
  exists r, st', h'. split_and!; [done|done|simpl in *; lia].
Qed.

(** A missing key is refused. *)
Lemma Node_Delete_missing fuel key h st root l :
  Rest t B h st root l → om_get key l = None →
  Node_Delete t fuel root key st = Panic "ibp.Delete: Key missing".
Proof.
  intros HR Hget. destruct (Node_search_Found t B key _ _ _ _ HR) as (st1 & H1 & HF & Hs & Ht).
  unfold Node_Delete. rewrite H1. cbn [res_bind].
  destruct (Found_child _ _ _ _ _ _ HF) as (oc & Hoc & Hg). rewrite Hoc. cbn [res_bind].
  rewrite Hget in Hg. destruct oc as [c|]; [|done]. by destruct (keqb (cKey c) key).
Qed.

End update.
