(* ===== verification/IBRange.v ===== *)
(** * Range deletion (Node.DeleteRange)

    Two cursors of one tree: the last entry below the first key and the first
    entry above the second key.  Below the level where their paths part, the
    right cursor loses what is left of it and the left cursor what is right of
    it; at that level the two halves are joined. *)
From stdpp Require Import base list sets strings sorting.
From Stdlib Require Import ZArith Lia.
From S2P Require Import Prelude OrderedMap IBNode IBStack IBTree IBRepr IBStackFacts IBLoc IBSearch IBWalk IBGet IBAdd IBBalance IBIterate IBCommit IBUpdate.

Section range.
Context `{Hsz : MsgpSizes} (t : Tree) (B : Z) `{!TreeOk t B}.

#[local] Instance range_sizes : MsgpSizesOk := tree_sizes (t := t) (B := B).

Abbreviation kvs_of := (map pair_of_child).

(** ** Trimming below a level *)

(** The node of a path and its index, [k] levels up. *)
Definition frame_up (fs : list (Node * Z)) (n : Node) (i : Z) (k : nat) : option (Node * Z) :=
  ((n, i) :: fs) !! k.

Lemma kvs_ok_trim_l l1 l2 l3 : kvs_ok t B (l1 ++ l2 ++ l3) → kvs_ok t B (l1 ++ l3).
Proof. apply kvs_ok_drop_mid. Qed.

(** Dropping the entries right of the cursor. *)
Lemma keep_left h st fs n lb ln la cl1 c cl2 ls1 lc :
  Loc t B h st fs n (Z.of_nat (length cl1)) lb ln la → Children n = cl1 ++ c :: cl2 →
  Forall2 (erepr t B h) cl1 ls1 → erepr t B h c lc →
  ∃ st1 n1, (if (Z.of_nat (length cl1) <? Z.of_nat (length (Children n)) - 1)%Z
      then let! cl := slice_to (Children n) (Z.of_nat (length cl1) + 1) in
           rewriteNodeChildrenWithCopyOf t cl st
      else Ok st) = Ok st1 ∧
    Loc t B h st1 fs n1 (Z.of_nat (length cl1)) lb (concat ls1 ++ lc) la ∧
    Children n1 = cl1 ++ [c].
Proof.
  intros HL Hch HF1 Hc. pose proof (loc_node _ _ _ _ _ _ _ _ _ _ HL) as (_ & ls & HF & Hln).
  rewrite Hch in HF. apply Forall2_app_inv_l in HF as (k1 & k' & HG1 & HG' & ->).
  apply Forall2_cons_inv_l in HG' as (kc & k2 & Hkc & HG2 & ->).
  assert (k1 = ls1) as -> by (by eapply Forall2_erepr_fun).
  assert (kc = lc) as -> by (by eapply erepr_fun).
  rewrite concat_app in Hln. simpl in Hln.
  destruct (Z.ltb_spec (Z.of_nat (length cl1)) (Z.of_nat (length (Children n)) - 1)) as [Hlt|Hge].
  - replace (Z.of_nat (length cl1) + 1)%Z with (Z.of_nat (length (cl1 ++ [c])))
      by (rewrite length_app; simpl; lia).
    assert (Children n = (cl1 ++ [c]) ++ cl2) as Hch2 by (by rewrite <- app_assoc).
    rewrite Hch2, slice_to_Ok by (rewrite (length_app (cl1 ++ [c])); lia).
    rewrite take_app_length. cbn [res_bind]. unfold rewriteNodeChildrenWithCopyOf.
    destruct (Loc_rewriteNodeChildren t B h st fs n _ lb ln la (cl1 ++ [c]) (ls1 ++ [lc]) HL)
      as (st1 & -> & HL1 & _).
    + apply Forall2_app; [done|]. by constructor.
    + rewrite concat_app. simpl. rewrite app_nil_r.
      pose proof (loc_ok _ _ _ _ _ _ _ _ _ _ HL) as Hok. rewrite Hln in Hok.
      rewrite <- !app_assoc in *. rewrite (app_assoc (concat ls1)), (app_assoc lb) in Hok |- *.
      by eapply kvs_ok_drop_mid.
    + eexists st1, _. split; [done|]. rewrite concat_app in HL1. simpl in HL1.
      rewrite app_nil_r in HL1. by split.
  - assert (cl2 = []) as ->.
    { rewrite Hch, length_app in Hge. destruct cl2; [done|]. simpl in Hge. lia. }
    inversion HG2; subst. simpl in HL. rewrite app_nil_r in HL. by exists st, n.
Qed.

(** Dropping the entries left of the cursor. *)
Lemma keep_right h st fs n lb ln la cl1 cl2 ls2 :
  Loc t B h st fs n (Z.of_nat (length cl1)) lb ln la → Children n = cl1 ++ cl2 →
  Forall2 (erepr t B h) cl2 ls2 →
  ∃ st1 n1 i1, (if (0 <? Z.of_nat (length cl1))%Z
      then let! n := node st in
           let! cl := slice_from (Children n) (Z.of_nat (length cl1)) in
           rewriteNodeChildrenWithCopyOf t cl st
      else Ok st) = Ok st1 ∧
    Loc t B h st1 fs n1 i1 lb (concat ls2) la ∧ Children n1 = cl2.
Proof.
  intros HL Hch HF2. pose proof (loc_node _ _ _ _ _ _ _ _ _ _ HL) as (_ & ls & HF & Hln).
  rewrite Hch in HF. apply Forall2_app_inv_l in HF as (ls1 & k2 & HF1 & HG2 & ->).
  assert (k2 = ls2) as -> by (by eapply Forall2_erepr_fun).
  rewrite concat_app in Hln.
  destruct (Z.ltb_spec 0 (Z.of_nat (length cl1))) as [Hlt|Hge].
  - rewrite (Loc_node_eq _ _ HL). cbn [res_bind].
    rewrite Hch, slice_from_Ok by (rewrite length_app; lia).
    rewrite drop_app_length. cbn [res_bind]. unfold rewriteNodeChildrenWithCopyOf.
    destruct (Loc_rewriteNodeChildren t B h st fs n _ lb ln la cl2 ls2 HL HF2)
      as (st1 & -> & HL1 & _).
    + pose proof (loc_ok _ _ _ _ _ _ _ _ _ _ HL) as Hok. rewrite Hln in Hok.
      rewrite <- !app_assoc in *. by eapply kvs_ok_drop_mid.
    + eexists st1, _, _. by split.
  - destruct cl1; [|simpl in Hge; lia]. inversion HF1; subst. simpl in *. by eexists st, n, _.
Qed.

Lemma newc_cons n : Children n ≠ [] → ∃ k, newc t n = [mkSubtreeChild t k n].
Proof. intros Hn. unfold newc. destruct (Children n); [done|]. eauto. Qed.

(** The path of a rewritten parent is that of the parent but for its node. *)
Lemma frame_up_pop (P : Node → Prop) fs n i p p' j k q z :
  frame_up fs p' j k = Some (q, z) → P q → (k = 0 → P p) →
  ∃ q', frame_up ((p, j) :: fs) n i (S k) = Some (q', z) ∧ P q'.
Proof.
  unfold frame_up. intros Hfr HPq H0. destruct k as [|k]; simpl in *.
  - injection Hfr as <- <-. exists p. auto.
  - by exists q.
Qed.

(** The left part of a trimmed cursor: everything up to the cursor is kept. *)
Lemma trimRight_spec fuel u h st fs n lb ln la cl1 c cl2 ls1 lc :
  Loc t B h st fs n (Z.of_nat (length cl1)) lb ln la → Children n = cl1 ++ c :: cl2 →
  Forall2 (erepr t B h) cl1 ls1 → erepr t B h c lc →
  u ≤ length fs → length fs - u ≤ fuel →
  ∃ st' n' cl1' c' cl2' ls1' lc' lb' ln' la' p,
    let k := length fs - u in
    trimRight t fuel u st = Ok st' ∧
    Loc t B (h + k) st' (drop k fs) n' (Z.of_nat (length cl1')) lb' ln' la' ∧
    Children n' = cl1' ++ c' :: cl2' ∧
    Forall2 (erepr t B (h + k)) cl1' ls1' ∧ erepr t B (h + k) c' lc' ∧
    lb' ++ concat ls1' ++ lc' = lb ++ concat ls1 ++ lc ∧
    frame_up fs n (Z.of_nat (length cl1)) k = Some (p, Z.of_nat (length cl1')) ∧
    (∃ x y, Children p = cl1' ++ x :: y) ∧ (u = length fs → ∃ y, Children p = cl1' ++ c' :: y).
Proof.
  revert u h st fs n lb ln la cl1 c cl2 ls1 lc. induction fuel as [|fuel IH];
    intros u h st fs n lb ln la cl1 c cl2 ls1 lc HL Hch HF1 Hc Hu Hf.
  - assert (u = length fs) as -> by lia. rewrite Nat.sub_diag. cbn [trimRight].
    rewrite (Loc_top_eq _ _ HL), Nat.ltb_irrefl.
    exists st, n, cl1, c, cl2, ls1, lc, lb, ln, la, n. simpl. rewrite Nat.add_0_r.
    split_and!; try done; [by exists c, cl2|intros _; by exists cl2].
  - cbn [trimRight]. rewrite (Loc_top_eq _ _ HL). destruct (Nat.ltb_spec u (length fs)) as [Hlt|Hge].
    2:{ assert (u = length fs) as -> by lia. rewrite Nat.sub_diag.
        exists st, n, cl1, c, cl2, ls1, lc, lb, ln, la, n. simpl. rewrite Nat.add_0_r.
        split_and!; try done; [by exists c, cl2|intros _; by exists cl2]. }
    destruct fs as [|[p j] fs]; [simpl in Hlt; lia|].
    rewrite (Loc_node_eq _ _ HL), (Loc_index_eq _ _ HL). cbn [res_bind].
    destruct (keep_left h st ((p, j) :: fs) n lb ln la cl1 c cl2 ls1 lc HL Hch HF1 Hc)
      as (st1 & n1 & -> & HL1 & Hch1). cbn [res_bind].
    destruct (Loc_pop _ _ _ _ _ _ _ _ _ _ _ _ HL1)
      as (st2 & p1 & old & p2 & ks1 & ksn & ks2 & lb' & la' & -> & -> & Hchp & HG1 & HGn & HG2 &
          Hksn & -> & -> & HL2 & _).
    cbn [res_bind]. destruct (newc_cons n1) as [k0 Ek]; [rewrite Hch1; by destruct cl1|]. rewrite Ek in HGn, HL2.
    apply Forall2_cons_inv_l in HGn as (ln1 & ? & Hn1 & HG0 & ->).
    inversion HG0; subst. simpl in Hksn. rewrite app_nil_r in Hksn. subst ln1.
    simpl length in Hf, Hu, Hlt.
    destruct (IH u (S h) st2 fs _ lb' _ la' p1 (mkSubtreeChild t k0 n1) p2 ks1
                (concat ls1 ++ lc) HL2)
      as (st' & n' & cl1' & c' & cl2' & ls1' & lc' & lb2 & ln2 & la2 & q & Ht & HL' & Hch' & HF1' &
          Hc' & Heq & Hfr & (x & y & Hq) & _); [done|done|done|lia|lia|].
    exists st', n', cl1', c', cl2', ls1', lc', lb2, ln2, la2.
    simpl length. replace (S (length fs) - u) with (S (length fs - u)) by lia.
    rewrite Nat.add_succ_r.
    destruct (frame_up_pop (λ q, ∃ x y, Children q = cl1' ++ x :: y) fs n (Z.of_nat (length cl1))
                p _ _ _ _ _ Hfr) as (q' & Hq' & x' & y' & Hx').
    { by exists x, y. }
    { intros E0. rewrite E0 in Hfr. injection Hfr as <- Hz%Nat2Z.inj. simpl in Hq.
      apply app_inj_1 in Hq as [-> _]; [|done]. by exists old, p2. }
    exists q'. cbn zeta. split_and!; try done.
    + rewrite Heq, <- !app_assoc. done.
    + by exists x', y'.
    + lia.
Qed.

(** The right part of a trimmed cursor: everything from the cursor on is kept. *)
Lemma trimLeft_spec fuel u h st fs n lb ln la cl1 cl2 ls2 :
  Loc t B h st fs n (Z.of_nat (length cl1)) lb ln la → Children n = cl1 ++ cl2 →
  Forall2 (erepr t B h) cl2 ls2 → (cl2 ≠ [] ∨ u = length fs) →
  u ≤ length fs → length fs - u ≤ fuel →
  ∃ st' n' cl1' cl2' ls2' lb' ln' la' p,
    let k := length fs - u in
    trimLeft t fuel u st = Ok st' ∧
    Loc t B (h + k) st' (drop k fs) n' (Z.of_nat (length cl1')) lb' ln' la' ∧
    Children n' = cl1' ++ cl2' ∧ Forall2 (erepr t B (h + k)) cl2' ls2' ∧
    concat ls2' ++ la' = concat ls2 ++ la ∧
    frame_up fs n (Z.of_nat (length cl1)) k = Some (p, Z.of_nat (length cl1')) ∧
    ((∃ r x y, cl2' = r :: y ∧ Children p = cl1' ++ x :: y) ∨ (cl2 = [] ∧ cl2' = [] ∧ Children p = cl1')) ∧
    (u = length fs → Children p = cl1' ++ cl2').
Proof.
  revert u h st fs n lb ln la cl1 cl2 ls2. induction fuel as [|fuel IH];
    intros u h st fs n lb ln la cl1 cl2 ls2 HL Hch HF2 Hne Hu Hf.
  - assert (u = length fs) as -> by lia. rewrite Nat.sub_diag. cbn [trimLeft].
    rewrite (Loc_top_eq _ _ HL), Nat.ltb_irrefl.
    exists st, n, cl1, cl2, ls2, lb, ln, la, n. simpl. rewrite Nat.add_0_r.
    split_and!; try done.
    destruct cl2 as [|c cl2]; [right; by rewrite app_nil_r in Hch|left; by exists c, c, cl2].
  - cbn [trimLeft]. rewrite (Loc_top_eq _ _ HL). destruct (Nat.ltb_spec u (length fs)) as [Hlt|Hge].
    2:{ assert (u = length fs) as -> by lia. rewrite Nat.sub_diag.
        exists st, n, cl1, cl2, ls2, lb, ln, la, n. simpl. rewrite Nat.add_0_r.
        split_and!; try done.
    destruct cl2 as [|c cl2]; [right; by rewrite app_nil_r in Hch|left; by exists c, c, cl2]. }
    destruct fs as [|[p j] fs]; [simpl in Hlt; lia|].
    rewrite (Loc_index_eq _ _ HL). cbn [res_bind].
    destruct (keep_right h st ((p, j) :: fs) n lb ln la cl1 cl2 ls2 HL Hch HF2)
      as (st1 & n1 & i1 & -> & HL1 & Hch1). cbn [res_bind].
    destruct (Loc_pop _ _ _ _ _ _ _ _ _ _ _ _ HL1)
      as (st2 & p1 & old & p2 & ks1 & ksn & ks2 & lb' & la' & -> & -> & Hchp & HG1 & HGn & HG2 &
          Hksn & -> & -> & HL2 & _).
    cbn [res_bind]. destruct (newc_cons n1) as [k0 Ek].
    { rewrite Hch1. destruct Hne as [?|Hne]; [done|]. lia. }
    rewrite Ek in HGn, HL2. simpl length in Hf, Hu, Hlt.
    destruct (IH u (S h) st2 fs _ lb' _ la' p1 (mkSubtreeChild t k0 n1 :: p2) (ksn ++ ks2) HL2)
      as (st' & n' & cl1' & cl2' & ls2' & lb2 & ln2 & la2 & q & Ht & HL' & Hch' & HF2' &
          Heq & Hfr & Hq & _); [done|by apply Forall2_app with (l1 := [_])|by left|lia|lia|].
    exists st', n', cl1', cl2', ls2', lb2, ln2, la2.
    simpl length. replace (S (length fs) - u) with (S (length fs - u)) by lia.
    rewrite Nat.add_succ_r.
    destruct Hq as [Hq|(? & _ & _)]; [|done].
    destruct (frame_up_pop (λ q, ∃ r x y, cl2' = r :: y ∧ Children q = cl1' ++ x :: y) fs n
                (Z.of_nat (length cl1)) p _ _ _ _ _ Hfr Hq) as (q' & Hq' & Hx').
    { intros E0. rewrite E0 in Hfr. injection Hfr as <- Hz%Nat2Z.inj.
      destruct Hq as (r & x & y & -> & Hq). simpl in Hq.
      apply app_inj_1 in Hq as [-> Hq]; [|done]. injection Hq as _ ->. by exists r, old, y. }
    exists q'. cbn zeta. split_and!; try done.
    + rewrite Heq, concat_app, Hksn, <- !app_assoc. done.
    + by left.
    + lia.
Qed.

(** ** The shared part of two paths *)

Lemma crepr_fun h fs lb la lb2 la2 :
  crepr t B h fs lb la → crepr t B h fs lb2 la2 → lb = lb2 ∧ la = la2.
Proof.
  revert h lb la lb2 la2. induction fs as [|[p j] fs IH]; intros h lb la lb2 la2 H1 H2.
  - destruct H1 as [-> ->], H2 as [-> ->]. done.
  - destruct H1 as (c1 & c & c2 & k1 & k2 & b & a & _ & Hch & -> & F1 & F2 & Hr & -> & ->).
    destruct H2 as (c1' & c' & c2' & k1' & k2' & b' & a' & _ & Hch' & Hj & F1' & F2' & Hr' & -> & ->).
    rewrite Hch in Hch'. apply Nat2Z.inj in Hj. apply app_inj_1 in Hch' as [<- [= <- <-]]; [|done].
    destruct (IH _ _ _ _ _ Hr Hr') as [-> ->].
    by rewrite (Forall2_erepr_fun _ _ _ _ _ _ F1 F1'), (Forall2_erepr_fun _ _ _ _ _ _ F2 F2').
Qed.

Lemma frame_at st fs n i k p z :
  Path st fs n i → frame_up fs n i k = Some (p, z) →
  nodes st !! (top st - k) = Some (Some p) ∧ indexes st !! (top st - k) = Some z.
Proof.
  intros HP Hk. unfold frame_up in Hk. destruct k as [|k]; simpl in Hk.
  - injection Hk as <- <-. rewrite Nat.sub_0_r. split; apply HP.
  - by apply (path_frames _ _ _ _ HP k (p, z)).
Qed.

(** A clean path is determined by its root and its indexes. *)
Lemma clean_frames h fs n i k :
  clean t B h fs n → k < length fs →
  ∃ p kk m w c, frame_up fs n i (S k) = Some (p, Z.of_nat kk) ∧ frame_up fs n i k = Some (m, w) ∧
    Children p !! kk = Some c ∧ resolve t c = Ok (Some m).
Proof.
  revert h n i k. induction fs as [|[p j] fs IH]; intros h n i k Hcl Hk; [simpl in Hk; lia|].
  destruct Hcl as (kk & c & lc & -> & Hc & _ & Hm & Hcl). destruct k as [|k].
  - by exists p, kk, n, i, c.
  - simpl in Hk. destruct (IH _ _ (Z.of_nat kk) k Hcl) as (q & k2 & m & w & c2 & H1 & H2 & H3 & H4);
      [lia|]. by exists q, k2, m, w, c2.
Qed.

Lemma clean_nodes st h fs n i j :
  Path st fs n i → clean t B h fs n → j < top st →
  ∃ p kk m c, nodes st !! j = Some (Some p) ∧ indexes st !! j = Some (Z.of_nat kk) ∧
    Children p !! kk = Some c ∧ resolve t c = Ok (Some m) ∧ nodes st !! S j = Some (Some m).
Proof.
  intros HP Hcl Hj. pose proof (path_top _ _ _ _ HP) as Ht.
  destruct (clean_frames h fs n i (top st - S j) Hcl) as (p & kk & m & w & c & H1 & H2 & H3 & H4);
    [lia|].
  destruct (frame_at _ _ _ _ _ _ _ HP H1) as [N1 I1].
  destruct (frame_at _ _ _ _ _ _ _ HP H2) as [N2 _].
  replace (top st - S (top st - S j)) with j in N1, I1 by lia.
  replace (top st - (top st - S j)) with (S j) in N2 by lia.
  by exists p, kk, m, c.
Qed.

Lemma root_node st fs n i : Path st fs n i → nodes st !! 0 = Some (Some (root_of fs n)).
Proof.
  intros HP. pose proof (path_top _ _ _ _ HP) as Ht. unfold root_of.
  destruct fs as [|f fs _] using rev_ind; simpl.
  - rewrite <- (path_node _ _ _ _ HP). by rewrite Ht.
  - rewrite last_snoc. destruct (path_frames _ _ _ _ HP (length fs) f) as [Hn _].
    + by rewrite list_lookup_middle.
    + rewrite Ht, length_app in Hn. simpl in Hn.
      by replace (length fs + 1 - S (length fs)) with 0 in Hn by lia.
Qed.

Lemma same_nodes st st2 h h2 fs fs2 n n2 i i2 u :
  Path st fs n i → clean t B h fs n → Path st2 fs2 n2 i2 → clean t B h2 fs2 n2 →
  root_of fs n = root_of fs2 n2 → u ≤ top st → u ≤ top st2 →
  (∀ j, j < u → indexes st !! j = indexes st2 !! j) →
  ∀ j, j ≤ u → nodes st !! j = nodes st2 !! j.
Proof.
  intros HP Hcl HP2 Hcl2 Hr Hu Hu2 Hix j. induction j as [|j IH]; intros Hj.
  - by rewrite (root_node _ _ _ _ HP), (root_node _ _ _ _ HP2), Hr.
  - destruct (clean_nodes _ _ _ _ _ j HP Hcl) as (p & k & m & c & N1 & I1 & C1 & R1 & M1); [lia|].
    destruct (clean_nodes _ _ _ _ _ j HP2 Hcl2) as (p' & k' & m' & c' & N2 & I2 & C2 & R2 & M2); [lia|].
    rewrite IH in N1 by lia. rewrite Hix in I1 by lia.
    assert (p' = p) as -> by congruence.
    assert (k' = k) as -> by (apply Nat2Z.inj; congruence). congruence.
Qed.

Lemma same_frames st st2 fs fs2 n n2 i i2 u :
  Path st fs n i → Path st2 fs2 n2 i2 → u ≤ length fs → u ≤ length fs2 →
  (∀ j, j < u → indexes st !! j = indexes st2 !! j) →
  (∀ j, j ≤ u → nodes st !! j = nodes st2 !! j) →
  drop (length fs - u) fs = drop (length fs2 - u) fs2.
Proof.
  intros HP HP2 Hu Hu2 Hix Hnd. pose proof (path_top _ _ _ _ HP) as Ht.
  pose proof (path_top _ _ _ _ HP2) as Ht2.
  apply (list_eq_same_length _ _ u); [rewrite length_drop; lia..|].
  intros j f f2 Hj Hf Hf2. rewrite lookup_drop in Hf, Hf2.
  destruct (path_frames _ _ _ _ HP _ _ Hf) as [N1 I1].
  destruct (path_frames _ _ _ _ HP2 _ _ Hf2) as [N2 I2].
  replace (top st - S (length fs - u + j)) with (u - S j) in N1, I1 by lia.
  replace (top st2 - S (length fs2 - u + j)) with (u - S j) in N2, I2 by lia.
  rewrite Hnd in N1 by lia. rewrite Hix in I1 by lia.
  destruct f, f2; simpl in *; congruence.
Qed.

Lemma common_levels_spec cnt i ix1 ix2 :
  i + cnt ≤ length ix1 → i + cnt ≤ length ix2 →
  ∃ u, common_levels cnt i ix1 ix2 = Ok u ∧ i ≤ u ≤ i + cnt ∧
    (∀ j, i ≤ j → j < u → ix1 !! j = ix2 !! j) ∧ (u < i + cnt → ix1 !! u ≠ ix2 !! u).
Proof.
  revert i. induction cnt as [|cnt IH]; intros i H1 H2; cbn [common_levels].
  - exists i. split; [done|]. split_and!; [lia|lia|lia|lia].
  - destruct (lookup_lt_is_Some_2 ix1 i) as [a Ha]; [lia|].
    destruct (lookup_lt_is_Some_2 ix2 i) as [b Hb]; [lia|].
    rewrite (go_index_Ok _ _ _ Ha), (go_index_Ok _ _ _ Hb). cbn [res_bind].
    destruct (Z.eqb_spec a b) as [->|Hne].
    + destruct (IH (S i)) as (u & Hu & Hle & Heq & Hdiff); [lia..|].
      exists u. split; [done|]. split; [lia|]. split.
      * intros j Hj Hju. destruct (decide (j = i)) as [->|]; [congruence|]. apply Heq; lia.
      * intros ?. apply Hdiff. lia.
    + exists i. split; [done|]. split_and!; [lia|lia|lia|]. intros _. congruence.
Qed.

(** The left part ends before the right part begins. *)
Lemma parts_ordered h b c1 x1 y1 a2 x2 y2 x ls1 lc r lsy lsp (lb la : nat) :
  Forall2 (erepr t B h) (Children (mkNode b (c1 ++ x1 :: y1) x)) lsp →
  c1 ++ x1 :: y1 = a2 ++ x2 :: y2 →
  Forall2 (erepr t B h) c1 ls1 → lc ≠ [] → r ≠ [] → Forall2 (erepr t B h) y2 lsy →
  (lb + length (concat ls1) + length (lc : list kv)) +
    (length (r : list kv) + length (concat lsy) + la) ≤ lb + length (concat lsp) + la →
  length c1 ≤ length a2.
Proof.
  simpl. intros HFp Heq HF1 Hlc Hr HFy Hsum.
  destruct (decide (length c1 ≤ length a2)) as [|Hgt]; [done|]. exfalso.
  assert (∃ z, c1 = a2 ++ x2 :: z ∧ y2 = z ++ x1 :: y1) as (z & -> & ->).
  { apply app_eq_inv in Heq as [(z & -> & Hz)|(z & -> & Hz)].
    - destruct z as [|w z]; simpl in Hz; [rewrite app_nil_r in Hgt; lia|].
      injection Hz as <- ->. by exists z.
    - rewrite length_app in Hgt. lia. }
  apply Forall2_app_inv_l in HF1 as (k1 & k2 & G1 & G2 & ->).
  apply Forall2_cons_inv_l in G2 as (kx & kz & Gx & Gz & ->).
  apply Forall2_app_inv_l in HFy as (kz' & k3 & Gz' & G3 & ->).
  assert (kz' = kz) as -> by (by eapply Forall2_erepr_fun).
  assert (lsp = (k1 ++ kx :: kz) ++ k3) as ->.
  { eapply Forall2_erepr_fun; [exact HFp|]. apply Forall2_app; [|done].
    apply Forall2_app; [done|]. by constructor. }
  rewrite !concat_app in Hsum. simpl in Hsum. rewrite !length_app in Hsum.
  destruct lc, r; simpl in *; try done. lia.
Qed.

(** What the tree holds around a node of an unchanged path. *)
Lemma level_repr k h st fs n i lb ln la p z :
  Loc t B h st fs n i lb ln la → clean t B h fs n → frame_up fs n i k = Some (p, z) →
  ∃ lb' lp la', crepr t B (h + k) (drop k fs) lb' la' ∧ nrepr t B (h + k) p lp ∧
    lb' ++ lp ++ la' = lb ++ ln ++ la.
Proof.
  revert h st fs n i lb ln la. induction k as [|k IH]; intros h st fs n i lb ln la HL Hcl Hfr.
  - injection Hfr as <- <-. exists lb, ln, la. rewrite Nat.add_0_r. split_and!; try apply HL. done.
  - destruct fs as [|[q j] fs]; [done|].
    destruct (Loc_popNode _ _ _ _ _ _ _ _ _ _ _ _ HL Hcl)
      as (st' & cl1 & c & cl2 & ls1 & ls2 & lb' & la' & _ & -> & _ & _ & _ & _ & -> & -> & HL' & Hcl' & _).
    destruct (IH _ _ _ _ _ _ _ _ HL' Hcl' Hfr) as (b & lp & a & H1 & H2 & H3).
    exists b, lp, a. rewrite Nat.add_succ_r. split_and!; try done. rewrite H3, <- !app_assoc. done.
Qed.

(** ** The two cursors *)

Definition LeftCur (h : nat) (st : Stack) (root : Node) (l lbelow : list kv) : Prop :=
  ∃ hh fs n i lb ln la, Loc t B hh st fs n i lb ln la ∧ clean t B hh fs n ∧
    root_of fs n = root ∧ hh + length fs = h ∧ lb ++ ln ++ la = l ∧
    ((fs = [] ∧ i = (-1)%Z ∧ lbelow = []) ∨
     ∃ cl1 c cl2 ls1 lc, hh = 0 ∧ i = Z.of_nat (length cl1) ∧ Children n = cl1 ++ c :: cl2 ∧
       Forall2 (erepr t B hh) cl1 ls1 ∧ erepr t B hh c lc ∧ lb ++ concat ls1 ++ lc = lbelow).

Definition RightCur (h : nat) (st : Stack) (root : Node) (l labove : list kv) : Prop :=
  ∃ hh fs n lb ln la cl1 cl2 ls2, Loc t B hh st fs n (Z.of_nat (length cl1)) lb ln la ∧
    clean t B hh fs n ∧ root_of fs n = root ∧ hh + length fs = h ∧ lb ++ ln ++ la = l ∧
    Children n = cl1 ++ cl2 ∧ Forall2 (erepr t B hh) cl2 ls2 ∧
    ((hh = 0 ∧ cl2 ≠ []) ∨ (fs = [] ∧ cl2 = [])) ∧ concat ls2 ++ la = labove.

Lemma Before_cursor h st root l1 l2 :
  Before t B st root l1 l2 → (∃ l, nrepr t B h root l) →
  ∃ fs n lb la cl1 c cl2 ls1 ls2,
    Loc t B 0 st fs n (Z.of_nat (length cl1)) lb (kvs_of (cl1 ++ c :: cl2)) la ∧
    clean t B 0 fs n ∧ root_of fs n = root ∧ length fs = h ∧
    lb ++ kvs_of (cl1 ++ c :: cl2) ++ la = l1 ++ l2 ∧ Children n = cl1 ++ c :: cl2 ∧
    Forall2 (erepr t B 0) cl1 ls1 ∧ erepr t B 0 c [pair_of_child c] ∧
    Forall2 (erepr t B 0) cl2 ls2 ∧
    l1 = lb ++ concat ls1 ∧ l2 = pair_of_child c :: concat ls2 ++ la.
Proof.
  intros (fs & n & cl1 & c & cl2 & lb & la & HL & Hcl & Hch & -> & -> & Hr) [l Hl].
  pose proof (loc_node _ _ _ _ _ _ _ _ _ _ HL) as (_ & ls & HF & _).
  rewrite Hch in HF. apply Forall2_app_inv_l in HF as (ls1 & ls' & HF1 & HF' & ->).
  apply Forall2_cons_inv_l in HF' as (lc & ls2 & Hc & HF2 & ->).
  assert (lc = [pair_of_child c]) as -> by (by destruct Hc as (_ & _ & _ & ->)).
  exists fs, n, lb, la, cl1, c, cl2, ls1, ls2. split_and!; try done.
  - destruct (Loc_with_top _ _ _ _ _ _ _ _ _ _ HL Hcl) as [i' HL']. rewrite Hr in HL'.
    eapply (nrepr_height t B _ _ root); [apply HL'|done|]. rewrite map_app. by destruct lb, cl1.
  - by rewrite map_app, <- !app_assoc.
  - by rewrite (erepr_0_kvs _ _ _ _ HF1).
  - simpl. by rewrite (erepr_0_kvs _ _ _ _ HF2).
Qed.

Lemma searchLesser_cursor key h st root l :
  Rest t B h st root l →
  ∃ st', searchLesser t root key st = Ok st' ∧ LeftCur h st' root l (below key l).
Proof.
  intros HR. destruct (searchLesser_spec t B key _ _ _ _ HR) as (st' & Hst & Hs & Hpos).
  exists st'. split; [done|]. destruct (last (below key l)) as [p|] eqn:El.
  - destruct Hpos as (l1 & l2 & Hb & Hl & HB).
    destruct (Before_cursor h _ _ _ _ HB) as
      (fs & n & lb & la & cl1 & c & cl2 & ls1 & ls2 & HL & Hcl & Hr & Hlen & Hall & Hch & HF1 & Hc & HF2 &
       -> & [= -> ->]); [exists l; by eapply Rest_nrepr|].
    exists 0, fs, n, (Z.of_nat (length cl1)), lb, (kvs_of (cl1 ++ c :: cl2)), la.
    split_and!; try done; [by rewrite Hall|].
    right. exists cl1, c, cl2, ls1, [pair_of_child c]. split_and!; try done.
    by rewrite Hb, <- app_assoc.
  - apply last_None in El. rewrite El.
    exists h, [], root, (-1)%Z, [], l, []. split_and!; [done|done|done|simpl; lia|by rewrite app_nil_r|by left].
Qed.

Lemma searchGreater_cursor key h st root l :
  Rest t B h st root l →
  ∃ st', searchGreater t root key st = Ok st' ∧ RightCur h st' root l (above key l) ∧
    smallCount st' = 0%Z.
Proof.
  intros HR. destruct (searchGreater_spec t B key _ _ _ _ HR) as (st' & l1 & Hst & Hs & Hl & Hpos).
  exists st'. split; [done|]. split; [|done]. destruct (decide (above key l = [])) as [E|E].
  - rewrite E. exists h, [], root, [], l, [], (Children root), [], [].
    split_and!; [done|done|done|simpl; lia|by rewrite app_nil_r|by rewrite app_nil_r|done|by right|done].
  - destruct (Before_cursor h _ _ _ _ Hpos) as
      (fs & n & lb & la & cl1 & c & cl2 & ls1 & ls2 & HL & Hcl & Hr & Hlen & Hall & Hch & HF1 & Hc & HF2 &
       E1 & E2); [exists l; by eapply Rest_nrepr|].
    exists 0, fs, n, lb, (kvs_of (cl1 ++ c :: cl2)), la, cl1, (c :: cl2), ([pair_of_child c] :: ls2).
    split_and!; try done; [by rewrite Hall|by constructor|by left].
Qed.

(** ** Joining the halves *)

(** The tail of [DeleteRange], from the level [u] on. *)
Definition join (u : nat) (st st2 : Stack) : res Stack :=
  let! st2 := trimLeft t depth_fuel u st2 in
  let! st := trimRight t depth_fuel u st in
  let! n2 := node st2 in
  let cl := Children n2 in
  let! idx1 := go_index (indexes st) (top st) in
  let! idx2 := go_index (indexes st2) (top st) in
  let! ncl :=
    if (idx1 <? 0)%Z then slice_from cl idx2
    else
      let! before := slice_to cl idx1 in
      let! after := slice_from cl idx2 in
      let! c := child st in
      match c with
      | None => Panic "tree broke: nil child"
      | Some x => Ok (before ++ x :: after)
      end in
  rewriteNodeChildren t ncl st2.

Definition joined (h : nat) (r : res Stack) (l : list kv) : Prop :=
  ∃ st' h' fs n i lb ln la, r = Ok st' ∧ Loc t B h' st' fs n i lb ln la ∧
    lb ++ ln ++ la = l ∧ h' + length fs = h.

Lemma Loc_fs_depth {h st fs n i lb ln la} : Loc t B h st fs n i lb ln la → length fs ≤ depth_fuel.
Proof. intros HL. pose proof (loc_depth _ _ _ _ _ _ _ _ _ _ HL). unfold depth_fuel. lia. Qed.

(** Nothing is kept on the left. *)
Lemma join_left_end h st st2 root l labove n i ln :
  Loc t B h st [] n (-1)%Z [] ln [] → RightCur h st2 root l labove →
  kvs_ok t B labove → i = (-1)%Z →
  indexes st ≠ indexes st2 ∧ joined h (join 0 st st2) labove.
Proof.
  intros HL (hh & fs & n2 & lb & ln2 & la & cl1 & cl2 & ls2 & HL2 & Hcl & Hr & Hh & Hl & Hch & HF2 & Hend & <-)
    Hok ->.
  destruct (trimLeft_spec depth_fuel 0 hh st2 fs n2 lb ln2 la cl1 cl2 ls2 HL2 Hch HF2)
    as (st2' & n2' & cl1' & cl2' & ls2' & lb' & ln' & la' & p & Ht & HL' & Hch' & HF2' & Heq & Hfr & _).
  { destruct Hend as [[_ ?]|[-> _]]; [by left|by right]. }
  { lia. }
  { pose proof (Loc_fs_depth HL2). lia. }
  rewrite Nat.sub_0_r in HL', HF2', Hfr. rewrite drop_all in HL'.
  pose proof (Loc_path _ _ _ _ _ _ _ _ _ _ HL) as HP. pose proof (path_top _ _ _ _ HP) as Htop.
  pose proof (Loc_path _ _ _ _ _ _ _ _ _ _ HL') as HP'. pose proof (path_top _ _ _ _ HP') as Htop'.
  simpl in Htop, Htop'. split.
  - intros E. destruct (frame_at _ _ _ _ _ _ _ (Loc_path _ _ _ _ _ _ _ _ _ _ HL2) Hfr) as [_ Hix].
    rewrite (Loc_top_eq _ _ HL2), Nat.sub_diag, <- E in Hix.
    pose proof (path_index _ _ _ _ HP) as Hix2. rewrite Htop, Hix in Hix2. injection Hix2. lia.
  - unfold join. rewrite Ht. cbn [res_bind].
    assert (trimRight t depth_fuel 0 st = Ok st) as ->.
    { unfold depth_fuel. cbn [trimRight]. by rewrite Htop. }
    cbn [res_bind]. rewrite (Loc_node_eq _ _ HL'). cbn [res_bind].
    rewrite (go_index_Ok _ _ _ (path_index _ _ _ _ HP)). cbn [res_bind].
    pose proof (path_index _ _ _ _ HP') as Hix. rewrite Htop' in Hix.
    rewrite Htop, (go_index_Ok _ _ _ Hix). cbn [res_bind Z.ltb Z.compare].
    rewrite Hch', slice_from_Ok by (rewrite length_app; lia). rewrite drop_app_length.
    cbn [res_bind]. destruct (loc_ctx _ _ _ _ _ _ _ _ _ _ HL') as [-> ->].
    rewrite app_nil_r in Heq.
    destruct (Loc_rewriteNodeChildren t B _ st2' [] n2' _ [] ln' [] cl2' ls2' HL' HF2')
      as (stF & HstF & HLF & _).
    { rewrite app_nil_r. simpl. by rewrite Heq. }
    eexists stF, _, [], _, _, [], _, []. split; [done|]. split; [exact HLF|].
    split; [by rewrite app_nil_r|simpl; lia].
Qed.

(** The walk that reached the end of the root shares no level with another. *)
Lemma level_in_both h st st2 hh fs fs2 n n2 i (d1 : list NodeDataChild) u :
  Path st fs n i → clean t B hh fs n → Path st2 fs2 n2 (Z.of_nat (length d1)) →
  root_of fs n = root_of fs2 n2 →
  length fs = h → (length fs2 = h ∨ (fs2 = [] ∧ Children n2 = d1)) → u ≤ length fs →
  (∀ j, j < u → indexes st !! j = indexes st2 !! j) → u ≤ length fs2.
Proof.
  intros HP Hcl HP2 Hroot Hh [Hh2|[-> Hd]] Hu Hsame; [lia|].
  destruct u as [|u]; [simpl; lia|]. exfalso.
  pose proof (path_top _ _ _ _ HP) as Htop. pose proof (path_top _ _ _ _ HP2) as Htop2.
  destruct (clean_nodes _ _ _ _ _ 0 HP Hcl) as (p & k & m & c & N1 & I1 & C1 & _); [lia|].
  rewrite (root_node _ _ _ _ HP), Hroot in N1. injection N1 as <-.
  pose proof (path_index _ _ _ _ HP2) as I2. rewrite Htop2 in I2. simpl in I2.
  rewrite Hsame, I2 in I1 by lia. injection I1 as I1%Nat2Z.inj.
  apply lookup_lt_Some in C1. unfold root_of in C1. simpl in C1. rewrite Hd in C1. lia.
Qed.

(** At the level where the paths part, the left index is less than the right. *)
Lemma indexes_ordered hu u p lp lb la c1 x1 y1 a2 R2 ls1 lc lsR (lbelow labove l : list kv) top1 :
  nrepr t B hu p lp → lb ++ lp ++ la = l →
  Children p = c1 ++ x1 :: y1 → Forall2 (erepr t B hu) c1 ls1 → lc ≠ [] →
  lb ++ concat ls1 ++ lc = lbelow →
  ((∃ r x y, R2 = r :: y ∧ Children p = a2 ++ x :: y) ∨ (R2 = [] ∧ Children p = a2)) →
  Forall2 (erepr t B hu) R2 lsR → concat lsR ++ la = labove →
  length lbelow + length labove ≤ length l →
  (u < top1 → length c1 ≠ length a2) →
  (u = top1 → erepr t B hu x1 lc ∧ Children p = a2 ++ R2) → u ≤ top1 →
  length c1 < length a2.
Proof.
  intros Hp Hl Hch HF1 Hlc Hbelow HR HFR Habove Hlen Hdiff Hleaf Hu.
  assert (length c1 = length a2 → u = top1 → False) as Heq.
  { intros E Eu. destruct (Hleaf Eu) as [Hx1 HchR]. destruct Hp as (_ & lsp & HFp & ->).
    rewrite Hch in HchR. apply app_inj_1 in HchR as [<- <-]; [|done].
    assert (lsp = ls1 ++ lsR) as ->.
    { eapply Forall2_erepr_fun; [exact HFp|]. rewrite Hch. by apply Forall2_app. }
    rewrite <- Hl, <- Hbelow, <- Habove, concat_app, !length_app in Hlen.
    destruct lc; [done|]. simpl in Hlen. lia. }
  assert (length c1 ≤ length a2) as Hle.
  { destruct HR as [(r & x & y & -> & Hch2)|[-> Hch2]].
    - apply Forall2_cons_inv_l in HFR as (lr & lsy & Hr & HFy & ->).
      destruct Hp as (_ & lsp & HFp & ->).
      eapply (parts_ordered hu true c1 x1 y1 a2 x y None ls1 lc lr lsy lsp (length lb) (length la));
        [by rewrite Hch in HFp|congruence|done|done|by eapply erepr_not_nil|done|].
      rewrite <- Hl, <- Hbelow, <- Habove in Hlen. simpl in Hlen. rewrite !length_app in Hlen. lia.
    - rewrite <- Hch2, Hch, length_app. lia. }
  destruct (decide (length c1 = length a2)) as [E|]; [|lia].
  destruct (decide (u = top1)); [by exfalso; apply Heq|]. exfalso. apply Hdiff; [lia|done].
Qed.

(** The final rewrite. *)
Lemma join_rewrite hu st st2 fs n1 n2 c1 c' x1 a2 R2 p y lb1 ln1 la1 lb2 ln2 la2 ls1 lc lsR :
  Loc t B hu st fs n1 (Z.of_nat (length c1)) lb1 ln1 la1 → Children n1 = c1 ++ c' :: x1 →
  Loc t B hu st2 fs n2 (Z.of_nat (length a2)) lb2 ln2 la2 → Children n2 = a2 ++ R2 →
  Children p = c1 ++ y → (∃ z, Children p = a2 ++ z) → length c1 < length a2 →
  Forall2 (erepr t B hu) c1 ls1 → erepr t B hu c' lc → Forall2 (erepr t B hu) R2 lsR →
  kvs_ok t B (lb2 ++ (concat ls1 ++ lc ++ concat lsR) ++ la2) →
  joined (hu + length fs)
    (let! n2 := node st2 in
     let cl := Children n2 in
     let! idx1 := go_index (indexes st) (top st) in
     let! idx2 := go_index (indexes st2) (top st) in
     let! ncl :=
       if (idx1 <? 0)%Z then slice_from cl idx2
       else
         let! before := slice_to cl idx1 in
         let! after := slice_from cl idx2 in
         let! c := child st in
         match c with
         | None => Panic "tree broke: nil child"
         | Some x => Ok (before ++ x :: after)
         end in
     rewriteNodeChildren t ncl st2) (lb2 ++ (concat ls1 ++ lc ++ concat lsR) ++ la2).
Proof.
  intros HL1 Hch1 HL2 Hch2 Hp1 [z Hp2] Hlt HF1 Hc HFR Hok.
  rewrite (Loc_node_eq _ _ HL2). cbn [res_bind].
  pose proof (Loc_index_eq _ _ HL1) as E1. unfold index in E1. rewrite E1. cbn [res_bind].
  pose proof (Loc_index_eq _ _ HL2) as E2. unfold index in E2.
  rewrite (Loc_top_eq _ _ HL2) in E2. rewrite (Loc_top_eq _ _ HL1), E2. cbn [res_bind].
  destruct (Z.ltb_spec (Z.of_nat (length c1)) 0); [lia|].
  rewrite Hch2, slice_to_Ok by (rewrite length_app; lia). cbn [res_bind].
  rewrite slice_from_Ok by (rewrite length_app; lia). cbn [res_bind].
  rewrite drop_app_length, (Loc_child_eq _ _ HL1 Hch1). cbn [res_bind].
  assert (take (length c1) (a2 ++ R2) = c1) as ->.
  { rewrite take_app_le by lia. rewrite <- (take_app_le a2 z) by lia.
    by rewrite <- Hp2, Hp1, take_app_length. }
  assert (concat (ls1 ++ lc :: lsR) = concat ls1 ++ lc ++ concat lsR) as E by (by rewrite concat_app).
  destruct (Loc_rewriteNodeChildren t B hu st2 fs n2 _ lb2 ln2 la2 (c1 ++ c' :: R2) (ls1 ++ lc :: lsR) HL2)
    as (stF & HstF & HLF & _).
  { apply Forall2_app; [done|]. by constructor. }
  { by rewrite E. }
  eexists stF, hu, fs, _, _, lb2, _, la2. split; [done|]. split; [exact HLF|]. by rewrite E.
Qed.

(** Both cursors are at an entry, or the right one is past the end. *)
Lemma join_both h st st2 root l lbelow labove fs n lb ln la cl1 c cl2 ls1 lc :
  Loc t B 0 st fs n (Z.of_nat (length cl1)) lb ln la → clean t B 0 fs n → root_of fs n = root →
  length fs = h → lb ++ ln ++ la = l → Children n = cl1 ++ c :: cl2 →
  Forall2 (erepr t B 0) cl1 ls1 → erepr t B 0 c lc → lb ++ concat ls1 ++ lc = lbelow →
  RightCur h st2 root l labove →
  length lbelow + length labove ≤ length l → kvs_ok t B (lbelow ++ labove) →
  ∃ u, common_levels (top st) 0 (indexes st) (indexes st2) = Ok u ∧
    indexes st ≠ indexes st2 ∧ joined h (join u st st2) (lbelow ++ labove).
Proof.
  intros HL Hcl Hroot Hh Hl Hch HF1 Hc Hbelow
    (hh & fs2 & n2 & lb2 & ln2 & la2 & d1 & d2 & ks2 & HL2 & Hcl2 & Hroot2 & Hh2 & Hl2 & Hch2 & HF2 & Hend & Habove)
    Hlen Hok.
  pose proof (Loc_path _ _ _ _ _ _ _ _ _ _ HL) as HP. pose proof (path_top _ _ _ _ HP) as Htop.
  pose proof (Loc_path _ _ _ _ _ _ _ _ _ _ HL2) as HP2. pose proof (path_top _ _ _ _ HP2) as Htop2.
  destruct (common_levels_spec (top st) 0 (indexes st) (indexes st2)) as (u & Hu & Hle & Hsame & Hdiff).
  { rewrite (path_indexes_len _ _ _ _ HP). pose proof (path_maxtop_lt _ _ _ _ HP). lia. }
  { rewrite (path_indexes_len _ _ _ _ HP2). pose proof (path_maxtop_lt _ _ _ _ HP). lia. }
  assert (∀ j, j < u → indexes st !! j = indexes st2 !! j) as Hsame' by (intros; apply Hsame; lia).
  exists u. split; [done|].
  assert (u ≤ length fs2) as Hu2.
  { eapply (level_in_both h st st2 0 fs fs2 n n2 _ d1 u HP Hcl HP2); [congruence|done| |lia|done].
    destruct Hend as [[-> _]|[-> ->]]; [by left|right]. by rewrite app_nil_r in Hch2. }
  pose proof (same_nodes _ _ _ _ _ _ _ _ _ _ u HP Hcl HP2 Hcl2 ltac:(congruence) ltac:(lia)
                ltac:(lia) Hsame') as Hnodes.
  pose proof (same_frames _ _ _ _ _ _ _ _ u HP HP2 ltac:(lia) Hu2 Hsame' Hnodes) as Hfs.
  destruct (trimRight_spec depth_fuel u 0 st fs n lb ln la cl1 c cl2 ls1 lc HL Hch HF1 Hc)
    as (st' & n' & cl1' & c' & cl2' & ls1' & lc' & lb' & ln' & la' & p & Ht & HL' & Hch' & HF1' & Hc' &
        Heq & Hfr & (x1 & y1 & Hp1) & Hleaf1); [lia|pose proof (Loc_fs_depth HL); lia|].
  destruct (trimLeft_spec depth_fuel u hh st2 fs2 n2 lb2 ln2 la2 d1 d2 ks2 HL2 Hch2 HF2)
    as (st2' & n2' & a2 & R2 & lsR & lb2' & ln2' & la2' & p2 & Ht2 & HL2' & Hch2' & HFR &
        Heq2 & Hfr2 & HR2 & Hleaf2);
    [destruct Hend as [[_ ?]|[-> _]]; [by left|right; simpl in *; lia]|done|pose proof (Loc_fs_depth HL2); lia|].
  replace (hh + (length fs2 - u)) with (0 + (length fs - u)) in HL2', HFR by lia.
  rewrite <- Hfs in HL2'. set (hu := 0 + (length fs - u)) in *.
  destruct (frame_at _ _ _ _ _ _ _ HP Hfr) as [N1 I1].
  destruct (frame_at _ _ _ _ _ _ _ HP2 Hfr2) as [N2 I2].
  replace (top st - (length fs - u)) with u in N1, I1 by lia.
  replace (top st2 - (length fs2 - u)) with u in N2, I2 by lia.
  assert (p2 = p) as -> by (rewrite Hnodes in N1 by lia; congruence).
  destruct (level_repr _ _ _ _ _ _ _ _ _ _ _ HL Hcl Hfr) as (lbu & lp & lau & Hctx & Hp & Hlu).
  destruct (crepr_fun _ _ _ _ _ _ Hctx (loc_ctx _ _ _ _ _ _ _ _ _ _ HL')) as [<- <-].
  destruct (crepr_fun _ _ _ _ _ _ Hctx (loc_ctx _ _ _ _ _ _ _ _ _ _ HL2')) as [<- <-].
  assert (length cl1' < length a2) as Hlt.
  { eapply (indexes_ordered hu u p lp lbu lau cl1' x1 y1 a2 R2 ls1' lc' lsR lbelow labove l (top st));
      try done; [congruence|by eapply erepr_not_nil|congruence| |congruence| | |lia].
    - destruct HR2 as [?|(_ & -> & ?)]; [by left|by right].
    - intros Hlt E. apply Hdiff; [lia|]. by rewrite I1, I2, E.
    - intros Eu. destruct (Hleaf1 ltac:(lia)) as [y Hy]. split.
      + rewrite Hy in Hp1. apply app_inj_1 in Hp1 as [_ [= <- _]]; [|done]. done.
      + apply Hleaf2. destruct Hend as [[-> _]|[-> _]]; simpl in *; lia. }
  split.
  - intros E. rewrite E, I2 in I1. injection I1. lia.
  - unfold join. rewrite Ht2. cbn [res_bind]. rewrite Ht. cbn [res_bind].
    assert (lbelow ++ labove = lbu ++ (concat ls1' ++ lc' ++ concat lsR) ++ lau) as E.
    { rewrite <- Hbelow, <- Heq, <- Habove, <- Heq2, <- !app_assoc. done. }
    rewrite E in Hok |- *.
    assert (h = hu + length (drop (length fs - u) fs)) as -> by (rewrite length_drop; lia).
    eapply (join_rewrite hu st' st2' _ n' n2' cl1' c' cl2' a2 R2 p); try done.
    destruct HR2 as [(r & x & y & _ & Hx)|(_ & -> & Hx)]; [by eexists|].
    exists []. by rewrite app_nil_r.
Qed.

Lemma Node_DeleteRange_om fuel key1 key2 h st root l :
  Rest t B h st root l → kltb key2 key1 = false →
  (h = 0 ∨ om_delete_range key1 key2 l ≠ []) →
  commit_fuel t (length (om_delete_range key1 key2 l)) ≤ fuel →
  ∃ root' st' h', Node_DeleteRange t fuel root key1 key2 st = Ok (root', st') ∧
    Rest t B h' st' root' (om_delete_range key1 key2 l) ∧ h' ≤ h.
Proof.
  intros HR Hk Hne Hfuel. unfold Node_DeleteRange. rewrite Hk.
  pose proof (om_delete_range_kvs_ok t B _ _ _ Hk (Rest_kvs_ok _ _ _ _ _ _ HR)) as Hok.
  rewrite (with_top_id st) by (by eapply Rest_top).
  destruct (searchLesser_cursor key1 _ _ _ _ HR) as (st1 & -> & HLC). cbn [res_bind].
  destruct (searchGreater_cursor key2 _ _ _ _ HR) as (st2 & -> & HRC & Hs2). cbn [res_bind].
  assert (length (below key1 l) + length (above key2 l) ≤ length l) as Hlen.
  { apply filter_disjoint_length. intros q. destruct (kltb q.1 key1) eqn:E1; [|done].
    destruct (kltb key2 q.1) eqn:E2; [|done]. exfalso.
    assert (klt key2 key1) as E3 by (by eapply klt_trans). unfold klt in E3. congruence. }
  assert (∃ u, common_levels (top st1) 0 (indexes st1) (indexes st2) = Ok u ∧
            indexes st1 ≠ indexes st2 ∧ joined h (join u st1 st2) (om_delete_range key1 key2 l))
    as (u & Hu & Hix & stF & hF & fsF & nF & iF & lbF & lnF & laF & Hj & HLF & HlF & HhF).
  { destruct HLC as (hh & fs & n & i & lb & ln & la & HL & Hcl & Hr & Hh & Hl & [(-> & -> & Hb)|
      (cl1 & c & cl2 & ls1 & lc & -> & -> & Hch & HF1 & Hc & Hb)]).
    - exists 0. destruct (loc_ctx _ _ _ _ _ _ _ _ _ _ HL) as [-> ->].
      simpl in Hh. rewrite Nat.add_0_r in Hh. subst hh.
      unfold om_delete_range in *. rewrite Hb in *. simpl in *.
      destruct (join_left_end h st1 st2 root l (above key2 l) n (-1)%Z ln HL HRC Hok eq_refl) as [? ?].
      split; [|done]. by rewrite (Loc_top_eq _ _ HL).
    - by eapply join_both. }
  rewrite bool_decide_false by congruence. rewrite Hu. cbn [res_bind].
  rewrite bool_decide_false by done.
  unfold join in Hj.
  apply res_bind_Ok in Hj as (sR & E1 & Hj). rewrite E1. cbn [res_bind].
  apply res_bind_Ok in Hj as (sL & E2 & Hj). rewrite E2. cbn [res_bind].
  apply res_bind_Ok in Hj as (nR & E3 & Hj). rewrite E3. cbn [res_bind].
  apply res_bind_Ok in Hj as (i1 & E4 & Hj). rewrite E4. cbn [res_bind].
  apply res_bind_Ok in Hj as (i2 & E5 & Hj). rewrite E5. cbn [res_bind].
  apply res_bind_Ok in Hj as (ncl & E6 & Hj). rewrite E6. cbn [res_bind]. rewrite Hj. cbn [res_bind].
  destruct (commit_spec t B tree_half fuel _ _ _ _ _ _ _ _ _ HLF HlF) as (r & st' & h' & Hcm & HR' & Hh');
    [by rewrite HhF|done|].
  exists r, st', h'. split_and!; [done|done|lia].
Qed.

(** A reversed range is refused. *)
Lemma Node_DeleteRange_reversed fuel key1 key2 st root :
  klt key2 key1 →
  Node_DeleteRange t fuel root key1 key2 st
    = Panic "ibt.DeleteRange: first key more than second key".
Proof. unfold Node_DeleteRange, klt. by intros ->. Qed.

End range.
