(* ===== verification/IBTrans.v ===== *)
(** * Transactions as ordered maps (src/ibtree/ibtransaction.go)

    [TrRepr tr h l]: the transaction [tr] holds the sorted list [l] in a tree of
    height [h].  Every operation of a transaction is the operation of the ordered
    map on that list; no operation panics, and each ends within the given number
    of turns.  The conditions are the sizes of [TreeOk], a key that is not empty
    and an entry within the bound, room for one more level, and, for the
    deletions, that an interior root is not emptied (see [IBFindings]). *)
From stdpp Require Import base list sets strings sorting.
From Stdlib Require Import ZArith Lia.
From S2P Require Import Prelude OrderedMap IBNode IBStack IBTree IBRepr IBStackFacts IBLoc IBSearch IBWalk IBGet IBAdd IBBalance IBIterate IBCommit IBUpdate IBRange.

(** ** The widths of the msgp library, and the smallest tree, for examples *)

Module Demo.
#[export] Instance msgp : MsgpSizes :=
  {| BoolSize := 1; ArrayHeaderSize := 5; StringPrefixSize := 5 |}.
#[export] Instance msgp_ok : MsgpSizesOk.
Proof. split; simpl; lia. Qed.
Definition tree : Tree := Tree_Init 512 None.
Definition bound : Z := 200.
#[export] Instance tree_ok : TreeOk tree bound.
Proof. split; [exact msgp_ok|vm_compute; done|vm_compute; done]. Qed.
End Demo.

Section trans.
Context `{Hsz : MsgpSizes} (t : Tree) (B : Z) `{!TreeOk t B}.

Definition TrRepr (tr : Transaction) (h : nat) (l : list kv) : Prop :=
  ∃ root, Rest t B h (stack tr) root l.

Lemma TrRepr_Root tr h l root :
  Rest t B h (stack tr) root l → Root tr = Ok root.
Proof. apply Rest_node. Qed.

(** ** Starting a transaction *)

Lemma start_Rest root h l :
  nrepr t B h root l → kvs_ok t B l → (h = 0 ∨ l ≠ []) → h < maximumTreeDepth →
  Rest t B h (with_nodes (<[0 := Some root]> (nodes emptyStack)) emptyStack) root l.
Proof.
  intros Hn Hok Hne Hd. split; [|done]. exists 0%Z. split; try done.
  - split.
    + split; simpl; try done. intros j Hj Hjd. destruct j as [|j]; [lia|]. simpl.
      change (replicate 9 (@None Node) !! j = Some None).
      apply lookup_replicate_2. unfold maximumTreeDepth in *. lia.
    + intros j m _ Hm. exfalso. simpl in Hm.
      change (replicate 9 (@None Node) !! j = Some (Some m)) in Hm.
      by apply lookup_replicate in Hm as [? _].
  - by rewrite app_nil_r.
  - simpl. lia.
Qed.

Lemma NewTransaction_repr root h l :
  nrepr t B h root l → kvs_ok t B l → (h = 0 ∨ l ≠ []) → h < maximumTreeDepth →
  ∃ tr, NewTransaction (Some root) = Ok tr ∧ TrRepr tr h l.
Proof. intros. eexists. split; [done|]. exists root. by apply start_Rest. Qed.

Lemma NewRoot_nrepr : nrepr t B 0 NewRoot [].
Proof. by apply (nrepr_mk t B 0 true [] None []). Qed.

Lemma kvs_ok_nil : kvs_ok t B [].
Proof. split; constructor. Qed.

(** ** The operations *)

Lemma tr_Get_repr key tr h l :
  TrRepr tr h l → ∃ tr', tr_Get t key tr = Ok (om_get key l, tr') ∧ TrRepr tr' h l.
Proof.
  intros [root HR]. destruct (Get_om t B key _ _ _ _ HR) as (st' & Hg & HR').
  unfold tr_Get. rewrite (TrRepr_Root _ _ _ _ HR). cbn [res_bind]. rewrite Hg.
  eexists. split; [done|]. by exists root.
Qed.

Lemma tr_NextKey_repr key tr h l :
  TrRepr tr h l → ∃ tr', tr_NextKey t key tr = Ok (om_next key l, tr') ∧ TrRepr tr' h l.
Proof.
  intros [root HR]. destruct (NextKey_om t B key _ _ _ _ HR) as (st' & Hg & HR').
  unfold tr_NextKey. rewrite (TrRepr_Root _ _ _ _ HR). cbn [res_bind]. rewrite Hg.
  eexists. split; [done|]. by exists root.
Qed.

Lemma tr_PrevKey_repr key tr h l :
  TrRepr tr h l → ∃ tr', tr_PrevKey t key tr = Ok (om_prev key l, tr') ∧ TrRepr tr' h l.
Proof.
  intros [root HR]. destruct (PrevKey_om t B key _ _ _ _ HR) as (st' & Hg & HR').
  unfold tr_PrevKey. rewrite (TrRepr_Root _ _ _ _ HR). cbn [res_bind]. rewrite Hg.
  eexists. split; [done|]. by exists root.
Qed.

Lemma tr_Set_repr fuel key value tr h l :
  TrRepr tr h l → kv_ok t B (key, value) → S h < maximumTreeDepth →
  commit_fuel t (length (om_set key value l)) ≤ fuel →
  ∃ tr' h', tr_Set t fuel key value tr = Ok tr' ∧ TrRepr tr' h' (om_set key value l) ∧ h' ≤ S h.
Proof.
  intros [root HR] Hkv Hd Hf.
  destruct (Node_Set_om t B fuel _ _ _ _ _ _ HR Hkv Hd Hf) as (r & st' & h' & Hs & HR' & Hh).
  unfold tr_Set. rewrite (TrRepr_Root _ _ _ _ HR). cbn [res_bind]. rewrite Hs.
  eexists _, h'. split; [done|]. split; [|done]. by exists r.
Qed.

Lemma tr_Delete_repr fuel key v tr h l :
  TrRepr tr h l → om_get key l = Some v → (h = 0 ∨ om_delete key l ≠ []) →
  commit_fuel t (length (om_delete key l)) ≤ fuel →
  ∃ tr' h', tr_Delete t fuel key tr = Ok tr' ∧ TrRepr tr' h' (om_delete key l) ∧ h' ≤ h.
Proof.
  intros [root HR] Hg Hne Hf.
  destruct (Node_Delete_om t B fuel _ _ _ _ _ _ HR Hg Hne Hf) as (r & st' & h' & Hs & HR' & Hh).
  unfold tr_Delete. rewrite (TrRepr_Root _ _ _ _ HR). cbn [res_bind]. rewrite Hs.
  eexists _, h'. split; [done|]. split; [|done]. by exists r.
Qed.

Lemma tr_Delete_missing_repr fuel key tr h l :
  TrRepr tr h l → om_get key l = None →
  tr_Delete t fuel key tr = Panic "ibp.Delete: Key missing".
Proof.
  intros [root HR] Hg. unfold tr_Delete. rewrite (TrRepr_Root _ _ _ _ HR). cbn [res_bind].
  by rewrite (Node_Delete_missing t B fuel _ _ _ _ _ HR Hg).
Qed.

Lemma tr_DeleteRange_repr fuel key1 key2 tr h l :
  TrRepr tr h l → kltb key2 key1 = false → (h = 0 ∨ om_delete_range key1 key2 l ≠ []) →
  commit_fuel t (length (om_delete_range key1 key2 l)) ≤ fuel →
  ∃ tr' h', tr_DeleteRange t fuel key1 key2 tr = Ok tr' ∧
    TrRepr tr' h' (om_delete_range key1 key2 l) ∧ h' ≤ h.
Proof.
  intros [root HR] Hk Hne Hf.
  destruct (Node_DeleteRange_om t B fuel _ _ _ _ _ _ HR Hk Hne Hf) as (r & st' & h' & Hs & HR' & Hh).
  unfold tr_DeleteRange. rewrite (TrRepr_Root _ _ _ _ HR). cbn [res_bind]. rewrite Hs.
  eexists _, h'. split; [done|]. split; [|done]. by exists r.
Qed.

(** ** The structure check of the whole in-memory tree *)

Lemma iterate_check_node n : ∀ h l, nrepr t B h n l → kvs_ok t B l → checkTreeStructure n = Ok tt.
Proof.
  unfold checkTreeStructure.
  apply (node_ind' (λ n, ∀ h l, nrepr t B h n l → kvs_ok t B l →
           iterateLeafFirst (λ m _, CheckNodeStructure m) n tt = Ok tt)
         (λ c, ∀ h lc m, erepr t B h c lc → kvs_ok t B lc → childNode c = Some m →
           iterateLeafFirst (λ m _, CheckNodeStructure m) m tt = Ok tt)).
  - intros b cl x HQ h l (Hb & ls & HF & ->) Hok. cbn [iterateLeafFirst].
    set (go := fix go (cl : list NodeDataChild) (s : unit) {struct cl} : res unit := _).
    assert (∀ cl ls, Forall (λ c, ∀ h lc m, erepr t B h c lc → kvs_ok t B lc → childNode c = Some m →
              iterateLeafFirst (λ m _, CheckNodeStructure m) m tt = Ok tt) cl →
              Forall2 (erepr t B h) cl ls → kvs_ok t B (concat ls) → go cl tt = Ok tt) as Hgo.
    { clear. intros cl ls HQ HF. induction HF as [|c lc cl ls Hc HF IH]; intros Hok; [done|].
      apply Forall_cons in HQ as [Hq HQ]. simpl in Hok. apply kvs_ok_app in Hok as [Hok1 Hok2].
      destruct c as [k v [m|]]; cbn.
      - rewrite (Hq h lc m Hc Hok1 eq_refl). cbn [res_bind]. by apply IH.
      - by apply IH. }
    simpl Children in HF. rewrite (Hgo cl ls HQ HF Hok). cbn [res_bind].
    by eapply (check_erepr t B h b cl x).
  - done.
  - intros k v m IH h lc m' Hc Hok [= ->]. destruct h as [|h].
    + destruct Hc as (_ & _ & ? & _). done.
    + apply erepr_S in Hc as (_ & _ & m2 & [= <-] & Hm2). by eapply IH.
Qed.

End trans.
