(* ===== verification/IBDelta.v ===== *)
(** * Differences between two trees (src/ibtree/delta.go)

    [IterateDelta] walks two trees in step and reports every leaf entry that was
    added, removed or changed.  It skips a pair of entries that are the same
    struct; two in-memory subtrees are the same when their pointers are, which is
    the parameter [ptr_eq] below: equal pointers point to equal nodes.

    The calls of the callback are the difference of the two lists the trees hold,
    in key order, and applying them to the old list gives the new one. *)
From stdpp Require Import base list sets strings sorting.
From Stdlib Require Import ZArith Lia.
From S2P Require Import Prelude OrderedMap IBNode IBStack IBTree IBRepr IBStackFacts IBLoc IBSearch IBWalk IBGet.

(** ** The code *)

Section delta.
Context (t : Tree) (ptr_eq : Node → Node → bool).

(** [*c == *c0]. *)
Definition same_child (a b : NodeDataChild) : bool :=
  keqb (cKey a) (cKey b) && keqb (cValue a) (cValue b) &&
  match childNode a, childNode b with
  | None, None => true
  | Some m, Some m' => ptr_eq m m'
  | _, _ => false
  end.

Abbreviation event := (option NodeDataChild * option NodeDataChild)%type.

Definition up_and_next (st : Stack) : res Stack :=
  let! r := popNode st in nextIndex r.2.

Fixpoint delta_loop (fuel : nat) (st0 st : Stack) : res (list event) :=
  match fuel with
  | O => NoFuel
  | S fuel' =>
      let! c0 := child st0 in
      if negb (bool_decide (is_Some c0)) && (0 <? top st0) then
        let! st0 := up_and_next st0 in
        delta_loop fuel' st0 st
      else
        let! c := child st in
        if negb (bool_decide (is_Some c)) && (0 <? top st) then
          let! st := up_and_next st in
          delta_loop fuel' st0 st
        else
          let! n := node st in
          let! n0 := node st0 in
          match c, c0 with
          | None, None => Ok []
          | Some x, None =>
              if negb (Leafy n) then
                let! st := pushCurrentIndex t st in
                delta_loop fuel' st0 st
              else
                let! st := nextIndex st in
                let! evs := delta_loop fuel' st0 st in
                Ok ((None, Some x) :: evs)
          | None, Some x0 =>
              if negb (Leafy n0) then
                let! st0 := pushCurrentIndex t st0 in
                delta_loop fuel' st0 st
              else
                let! st0 := nextIndex st0 in
                let! evs := delta_loop fuel' st0 st in
                Ok ((Some x0, None) :: evs)
          | Some x, Some x0 =>
              if Bool.eqb (Leafy n) (Leafy n0) && same_child x x0 then
                let! st0 := nextIndex st0 in
                let! st := nextIndex st in
                delta_loop fuel' st0 st
              else if negb (keqb (cKey x) (cKey x0)) then
                if kltb (cKey x0) (cKey x) then
                  if negb (Leafy n0) then
                    let! st0 := pushCurrentIndex t st0 in
                    delta_loop fuel' st0 st
                  else
                    let! st0 := nextIndex st0 in
                    let! evs := delta_loop fuel' st0 st in
                    Ok ((Some x0, None) :: evs)
                else
                  if negb (Leafy n) then
                    let! st := pushCurrentIndex t st in
                    delta_loop fuel' st0 st
                  else
                    let! st := nextIndex st in
                    let! evs := delta_loop fuel' st0 st in
                    Ok ((None, Some x) :: evs)
              else if negb (Leafy n0) || negb (Leafy n) then
                let! st0 := if negb (Leafy n0) then pushCurrentIndex t st0 else Ok st0 in
                let! st := if negb (Leafy n) then pushCurrentIndex t st else Ok st in
                delta_loop fuel' st0 st
              else
                let! st0 := nextIndex st0 in
                let! st := nextIndex st in
                let! evs := delta_loop fuel' st0 st in
                Ok ((Some x0, Some x) :: evs)
          end
  end.

Definition root_stack (n : Node) : Stack :=
  with_nodes (<[0 := Some n]> (nodes emptyStack)) emptyStack.

(** [self.IterateDelta(original, cb)]: the arguments of the calls of [cb]. *)
Definition IterateDelta (fuel : nat) (self original : Node) : res (list event) :=
  delta_loop fuel (root_stack original) (root_stack self).

End delta.

(** ** The difference of two sorted lists *)

Fixpoint om_diff (l0 : list kv) : list kv → list (option kv * option kv) :=
  match l0 with
  | [] => map (λ p, (None, Some p))
  | p0 :: l0' =>
      fix inner (l : list kv) : list (option kv * option kv) :=
        match l with
        | [] => (Some p0, None) :: om_diff l0' []
        | p :: l' =>
            if keqb p.1 p0.1 then
              (if keqb p.2 p0.2 then [] else [(Some p0, Some p)]) ++ om_diff l0' l'
            else if kltb p0.1 p.1 then (Some p0, None) :: om_diff l0' l
            else (None, Some p) :: inner l'
        end
  end.

Lemma om_diff_nil_l p l : om_diff [] (p :: l) = (None, Some p) :: om_diff [] l.
Proof. done. Qed.
Lemma om_diff_nil_r p0 l0 : om_diff (p0 :: l0) [] = (Some p0, None) :: om_diff l0 [].
Proof. done. Qed.
Lemma om_diff_cons p0 l0 p l :
  om_diff (p0 :: l0) (p :: l) =
  if keqb p.1 p0.1 then
    (if keqb p.2 p0.2 then [] else [(Some p0, Some p)]) ++ om_diff l0 l
  else if kltb p0.1 p.1 then (Some p0, None) :: om_diff l0 (p :: l)
  else (None, Some p) :: om_diff (p0 :: l0) l.
Proof. done. Qed.

Lemma om_diff_same l l0 l1 : om_diff (l ++ l0) (l ++ l1) = om_diff l0 l1.
Proof.
  induction l as [|p l IH]; [done|]. rewrite <- !app_comm_cons, om_diff_cons, !keqb_refl. done.
Qed.

(** Applying a difference. *)
Definition apply_event (e : option kv * option kv) (l : list kv) : list kv :=
  match e with
  | (_, Some p) => om_set p.1 p.2 l
  | (Some p0, None) => om_delete p0.1 l
  | (None, None) => l
  end.

Definition apply_delta (es : list (option kv * option kv)) (l : list kv) : list kv :=
  fold_left (λ l e, apply_event e l) es l.

Lemma apply_delta_app es1 es2 l : apply_delta (es1 ++ es2) l = apply_delta es2 (apply_delta es1 l).
Proof. apply fold_left_app. Qed.

Lemma sorted_skip pre p l : sorted_kvs (pre ++ p :: l) → sorted_kvs (pre ++ l).
Proof.
  rewrite !sorted_kvs_app, sorted_kvs_cons. intros (H1 & [_ H2] & H3). split_and!; try done.
  intros x y Hx Hy. apply H3; set_solver.
Qed.

Lemma sorted_swap pre p l :
  sorted_kvs (pre ++ l) → all_lt pre p.1 → all_gt l p.1 → sorted_kvs (pre ++ p :: l).
Proof.
  rewrite !sorted_kvs_app, sorted_kvs_cons. intros (H1 & H2 & H3) Hlt Hgt. split_and!; try done.
  intros x y Hx [->|Hy]%elem_of_cons; [by apply Hlt|by apply H3].
Qed.

Lemma om_diff_apply pre l0 l :
  sorted_kvs (pre ++ l0) → sorted_kvs (pre ++ l) →
  apply_delta (om_diff l0 l) (pre ++ l0) = pre ++ l.
Proof.
  remember (length l0 + length l) as k eqn:Hk. revert pre l0 l Hk.
  induction k as [k IH] using lt_wf_ind. intros pre l0 l -> Hs0 Hs.
  destruct l0 as [|p0 l0], l as [|p l].
  - done.
  - rewrite om_diff_nil_l. change (apply_delta (?e :: ?es) ?x) with (apply_delta es (apply_event e x)).
    cbn [apply_event]. pose proof Hs as (H1 & H2 & H3 & H4)%sorted_kvs_mid.
    rewrite (om_set_split p.1 pre []) by (done || apply all_gt_nil).
    replace (pre ++ [(p.1, p.2)]) with ((pre ++ [p]) ++ []) by (destruct p; by rewrite app_nil_r).
    rewrite (IH (length l)); [by rewrite <- app_assoc|simpl; lia|done| |by rewrite <- app_assoc].
    rewrite app_nil_r. rewrite (cons_middle p), app_assoc in Hs. by apply sorted_kvs_app_l in Hs.
  - rewrite om_diff_nil_r. change (apply_delta (?e :: ?es) ?x) with (apply_delta es (apply_event e x)).
    cbn [apply_event]. destruct p0 as [k0 v0]. simpl fst. rewrite om_delete_split_at by done.
    apply (IH (length l0)); [simpl; lia|simpl; lia|by eapply sorted_skip|done].
  - rewrite om_diff_cons. destruct p0 as [k0 v0], p as [k1 v1]; simpl fst; simpl snd.
    pose proof Hs0 as (A1 & A2 & A3 & A4)%sorted_kvs_mid.
    pose proof Hs as (B1 & B2 & B3 & B4)%sorted_kvs_mid. simpl in A3, A4, B3, B4.
    destruct (keqb k1 k0) eqn:Ek; [apply keqb_eq in Ek; subst k1|apply keqb_neq in Ek].
    + rewrite apply_delta_app.
      assert (apply_delta (if keqb v1 v0 then [] else [(Some (k0, v0), Some (k0, v1))])
                (pre ++ (k0, v0) :: l0) = pre ++ (k0, v1) :: l0) as ->.
      { destruct (keqb v1 v0) eqn:Ev; [apply keqb_eq in Ev; by subst|].
        cbn [apply_delta fold_left apply_event]. simpl fst; simpl snd. by rewrite om_set_split_at. }
      rewrite (cons_middle (k0, v1) pre l0), (cons_middle (k0, v1) pre l), !app_assoc.
      apply (IH (length l0 + length l)); [simpl; lia|done| |by rewrite <- app_assoc].
      rewrite <- app_assoc. simpl. by eapply sorted_swap; [eapply sorted_skip| |].
    + destruct (kltb k0 k1) eqn:Elt; change (apply_delta (?e :: ?es) ?x) with (apply_delta es (apply_event e x));
        cbn [apply_event]; simpl fst; simpl snd.
      * rewrite om_delete_split_at by done.
        apply (IH (length l0 + length ((k1, v1) :: l))); [simpl; lia|done|by eapply sorted_skip|done].
      * apply kltb_false in Elt as [->|Elt]; [done|].
        assert (all_gt ((k0, v0) :: l0) k1) as Hgt.
        { intros q [->|Hq]%elem_of_cons; [done|]. eapply klt_trans; [done|]. by apply A4. }
        rewrite om_set_split by done.
        rewrite (cons_middle (k1, v1) pre ((k0, v0) :: l0)), (cons_middle (k1, v1) pre l), !app_assoc.
        apply (IH (length ((k0, v0) :: l0) + length l)); [simpl; lia|done| |by rewrite <- app_assoc].
        rewrite <- app_assoc. simpl. by apply sorted_swap.
Qed.

(** ** The walk reports the difference *)

Section delta_facts.
Context `{Hsz : MsgpSizes} (t : Tree) (B : Z) (ptr_eq : Node → Node → bool).
Hypothesis ptr_eq_sound : ∀ m m', ptr_eq m m' = true → m = m'.

Abbreviation kvs_of := (map pair_of_child).

(** A cursor whose remaining entries are [r]; [w] is the work left. *)
Definition Rem (st : Stack) (r : list kv) (w : nat) : Prop :=
  ∃ h fs n cl1 cl2 lb ln la ls2,
    Loc t B h st fs n (Z.of_nat (length cl1)) lb ln la ∧ clean t B h fs n ∧
    Children n = cl1 ++ cl2 ∧ Forall2 (erepr t B h) cl2 ls2 ∧ r = concat ls2 ++ la ∧
    w = length r * (2 * maximumTreeDepth + 2) +
        (match cl2 with [] => maximumTreeDepth + 1 + length fs | _ => h end).

(** The states of such a cursor and what can be done in them. *)
Inductive RemView (st : Stack) (r : list kv) (w : nat) : Prop :=
| rv_up st' w' :
    child st = Ok None → 0 < top st → up_and_next st = Ok st' → Rem st' r w' → w' < w →
    RemView st r w
| rv_end n : child st = Ok None → top st = 0 → r = [] → node st = Ok n → RemView st r w
| rv_entry h n c lc r' :
    child st = Ok (Some c) → node st = Ok n → Leafy n = (h =? 0) → erepr t B h c lc →
    r = lc ++ r' →
    (∃ st' w', nextIndex st = Ok st' ∧ Rem st' r' w' ∧ w' < w) →
    (h ≠ 0 → ∃ st' w', pushCurrentIndex t st = Ok st' ∧ Rem st' r w' ∧ w' < w) →
    RemView st r w.

Lemma Rem_next h st fs n lb ln la cl1 c cl2 lc ls2 :
  Loc t B h st fs n (Z.of_nat (length cl1)) lb ln la → clean t B h fs n →
  Children n = cl1 ++ c :: cl2 → erepr t B h c lc → Forall2 (erepr t B h) cl2 ls2 →
  ∃ st' w', nextIndex st = Ok st' ∧ Rem st' (concat ls2 ++ la) w' ∧
    w' < length (lc ++ concat ls2 ++ la) * (2 * maximumTreeDepth + 2) ∧
    (w' < length (concat ls2 ++ la) * (2 * maximumTreeDepth + 2) + maximumTreeDepth + 2 + length fs).
Proof.
  intros HL Hcl Hch Hc HF2. unfold nextIndex. rewrite (Loc_index_eq _ _ HL). cbn [res_bind].
  destruct (Loc_setIndex _ _ _ _ _ _ _ _ _ _ (Z.of_nat (length cl1) + 1)%Z HL) as (st' & -> & HL' & _).
  replace (Z.of_nat (length cl1) + 1)%Z with (Z.of_nat (length (cl1 ++ [c]))) in HL'
    by (rewrite length_app; simpl; lia).
  pose proof (loc_depth _ _ _ _ _ _ _ _ _ _ HL) as Hd. apply erepr_not_nil in Hc.
  eexists st', _. split; [done|]. split.
  - exists h, fs, n, (cl1 ++ [c]), cl2, lb, ln, la, ls2. split_and!; try done.
    by rewrite <- app_assoc.
  - rewrite (length_app lc). destruct lc; [done|]. simpl length.
    unfold maximumTreeDepth in *. destruct cl2; lia.
Qed.

Lemma Rem_view st r w : Rem st r w → RemView st r w.
Proof.
  intros (h & fs & n & cl1 & cl2 & lb & ln & la & ls2 & HL & Hcl & Hch & HF2 & -> & ->).
  pose proof (loc_depth _ _ _ _ _ _ _ _ _ _ HL) as Hd.
  destruct cl2 as [|c cl2].
  - assert (child st = Ok None) as Hc.
    { eapply child_Path_out; [by eapply Loc_path|]. right. rewrite Hch, app_nil_r. lia. }
    inversion HF2; subst ls2. pose proof (Loc_top_eq _ _ HL) as Ht. destruct fs as [|[p j] fs].
    + destruct (loc_ctx _ _ _ _ _ _ _ _ _ _ HL) as [-> ->].
      eapply rv_end; [done|done|done|]. by eapply Loc_node_eq.
    + destruct (Loc_popNode _ _ _ _ _ _ _ _ _ _ _ _ HL Hcl)
        as (st' & e1 & c & e2 & k1 & k2 & lb' & la' & Hpop & -> & Hchp & HG1 & Hcc & HG2 & -> & -> & HL' & Hcl' & _).
      destruct (Rem_next _ _ _ _ _ _ _ _ _ _ _ _ HL' Hcl' Hchp Hcc HG2)
        as (st2 & w' & Hnext & HR & _ & Hw).
      eapply rv_up; [done|by rewrite Ht; simpl; lia| |exact HR|cbn [length concat app]; lia].
      unfold up_and_next. rewrite Hpop. done.
  - apply Forall2_cons_inv_l in HF2 as (lc & ls2' & Hc & HF2 & ->).
    destruct (Rem_next _ _ _ _ _ _ _ _ _ _ _ _ HL Hcl Hch Hc HF2) as (st' & w' & Hnext & HR & Hw & _).
    simpl concat. rewrite <- app_assoc.
    eapply (rv_entry _ _ _ h n c lc (concat ls2' ++ la)).
    + by eapply Loc_child_eq.
    + by eapply Loc_node_eq.
    + apply (loc_node _ _ _ _ _ _ _ _ _ _ HL).
    + done.
    + done.
    + exists st', w'. split_and!; [done|done|lia].
    + intros Hh. destruct h as [|h]; [done|].
      unfold pushCurrentIndex. rewrite (Loc_index_eq _ _ HL). cbn [res_bind].
      destruct (Loc_pushIndex _ _ _ _ _ _ _ _ _ _ _ _ _ HL Hch)
        as (m & st2 & k1 & kc & k2 & Hm & Hpush & HG1 & Hkc & HG2 & _ & HL2 & _).
      assert (kc = lc) as -> by (by eapply erepr_fun).
      assert (k2 = ls2') as -> by (by eapply Forall2_erepr_fun).
      pose proof (loc_node _ _ _ _ _ _ _ _ _ _ HL2) as (_ & lsm & HFm & Elc).
      pose proof (erepr_not_nil _ _ _ _ _ Hkc) as Hne.
      exists st2. eexists. split; [done|]. split.
      * exists h, ((n, Z.of_nat (length cl1)) :: fs), m, [], (Children m). eexists _, lc, _, lsm.
        split_and!; [exact HL2|by eapply clean_push|done|done|by rewrite <- Elc|reflexivity].
      * destruct (Children m) eqn:Em; [|lia].
        inversion HFm; subst lsm. by rewrite Elc in Hne.
Qed.

Lemma Rem_root h n l :
  nrepr t B h n l → kvs_ok t B l → h < maximumTreeDepth → 
  Loc t B h (root_stack n) [] n 0 [] l [] →
  ∃ w, Rem (root_stack n) l w ∧ w < (length l + 1) * (2 * maximumTreeDepth + 2).
Proof.
  intros (_ & ls & HF & ->) Hok Hd HL. eexists. split.
  - exists h, [], n, [], (Children n), [], (concat ls), [], ls.
    split_and!; try done. by rewrite app_nil_r.
  - simpl length. unfold maximumTreeDepth in *. destruct (Children n); lia.
Qed.

(** ** The loop *)

Definition kv_event (e : option NodeDataChild * option NodeDataChild) : option kv * option kv :=
  (pair_of_child <$> e.1, pair_of_child <$> e.2).

Lemma same_child_eq a b : same_child ptr_eq a b = true → a = b.
Proof.
  unfold same_child. rewrite !andb_true_iff, !keqb_eq. intros [[Hk Hv] Hn].
  destruct a as [k v [m|]], b as [k' v' [m'|]]; simpl in *; subst; try done.
  by rewrite (ptr_eq_sound _ _ Hn).
Qed.

(** Entries of the same struct in nodes of one kind hold the same. *)
Lemma same_content h h0 c lc lc0 :
  erepr t B h c lc → erepr t B h0 c lc0 → (h =? 0) = (h0 =? 0) → lc = lc0.
Proof.
  intros Hc Hc0 Hh. destruct h as [|h], h0 as [|h0]; try done.
  - by eapply erepr_fun.
  - pose proof (erepr_not_nil _ _ _ _ _ Hc) as Hne.
    apply erepr_S in Hc as (_ & _ & m & Hm & Hmr).
    apply erepr_S in Hc0 as (_ & _ & m' & Hm' & Hmr'). assert (m' = m) as -> by congruence.
    assert (h = h0) as -> by (by eapply nrepr_height). by eapply nrepr_fun.
Qed.

Lemma erepr_leaf_inv c lc h :
  erepr t B h c lc → (h =? 0) = true → lc = [pair_of_child c] ∧ childNode c = None.
Proof. destruct h; [|done]. intros (_ & _ & ? & ->) _. done. Qed.

(** What the loop does when it reports an entry and moves on. *)
Definition reports (fuel : nat) (st0 st : Stack) (es : list (option kv * option kv)) : Prop :=
  ∃ evs, delta_loop t ptr_eq fuel st0 st = Ok evs ∧ map kv_event evs = es.

Lemma report_cons fuel st0 st e es (m : res (list (option NodeDataChild * option NodeDataChild))) :
  reports fuel st0 st es →
  m = (let! evs := delta_loop t ptr_eq fuel st0 st in Ok (e :: evs)) →
  ∃ evs, m = Ok evs ∧ map kv_event evs = kv_event e :: es.
Proof.
  intros (evs & Hevs & <-) ->. rewrite Hevs. cbn [res_bind]. by eexists.
Qed.

(** Both cursors at an entry. *)
Lemma delta_loop_entries fuel st0 st r0 r w0 w h0 n0 c0 lc0 r0' h n c lc r' :
  (∀ st0 st r0 r w0 w, Rem st0 r0 w0 → Rem st r w → w0 + w < fuel → reports fuel st0 st (om_diff r0 r)) →
  Rem st0 r0 w0 → Rem st r w → w0 + w < S fuel →
  child st0 = Ok (Some c0) → node st0 = Ok n0 → Leafy n0 = (h0 =? 0) → erepr t B h0 c0 lc0 → r0 = lc0 ++ r0' →
  (∃ st' w', nextIndex st0 = Ok st' ∧ Rem st' r0' w' ∧ w' < w0) →
  (h0 ≠ 0 → ∃ st' w', pushCurrentIndex t st0 = Ok st' ∧ Rem st' r0 w' ∧ w' < w0) →
  child st = Ok (Some c) → node st = Ok n → Leafy n = (h =? 0) → erepr t B h c lc → r = lc ++ r' →
  (∃ st' w', nextIndex st = Ok st' ∧ Rem st' r' w' ∧ w' < w) →
  (h ≠ 0 → ∃ st' w', pushCurrentIndex t st = Ok st' ∧ Rem st' r w' ∧ w' < w) →
  reports (S fuel) st0 st (om_diff r0 r).
Proof.
  intros IH HR0 HR Hf Hc0 Hn0 HL0 He0 -> (s0 & v0 & Hx0 & HRx0 & Hv0) Hpush0
    Hc Hn HL He -> (s1 & v1 & Hx1 & HRx1 & Hv1) Hpush.
  unfold reports. cbn [delta_loop]. rewrite Hc0. cbn [res_bind].
  rewrite bool_decide_true by done. cbn [negb andb]. rewrite Hc. cbn [res_bind].
  rewrite bool_decide_true by done. cbn [negb andb]. rewrite Hn, Hn0. cbn [res_bind].
  rewrite HL, HL0.
  destruct (Bool.eqb (h =? 0) (h0 =? 0) && same_child ptr_eq c c0) eqn:Esame.
  { apply andb_true_iff in Esame as [Eh Ec%same_child_eq]. apply eqb_prop in Eh. subst c0.
    rewrite (same_content _ _ _ _ _ He He0 Eh), om_diff_same.
    rewrite Hx0. cbn [res_bind]. rewrite Hx1. cbn [res_bind]. eapply IH; [done|done|lia]. }
  destruct (erepr_head _ _ _ _ _ He) as (v & rest & Elc).
  destruct (erepr_head _ _ _ _ _ He0) as (v' & rest0 & Elc0).
  destruct (keqb (cKey c) (cKey c0)) eqn:Ek; cbn [negb].
  - (* the same key *)
    apply keqb_eq in Ek. destruct (h0 =? 0) eqn:Eh0, (h =? 0) eqn:Eh; cbn [negb orb].
    + apply (erepr_leaf_inv _ _ _ He0) in Eh0 as [-> Hcn0].
      apply (erepr_leaf_inv _ _ _ He) in Eh as [-> Hcn].
      rewrite <- !app_comm_cons, om_diff_cons. simpl fst. rewrite Ek, keqb_refl.
      assert (keqb (cValue c) (cValue c0) = false) as Ev.
      { unfold same_child in Esame. rewrite Ek, keqb_refl, Hcn, Hcn0 in Esame. simpl in Esame.
        by rewrite andb_true_r in Esame. }
      unfold pair_of_child at 1 2. simpl snd. rewrite Ev, Hx0. cbn [res_bind]. rewrite Hx1. cbn [res_bind].
      eapply (report_cons fuel s0 s1 (Some c0, Some c)); [eapply IH; [done|done|lia]|done].
    + apply Nat.eqb_neq in Eh. destruct (Hpush Eh) as (s2 & v2 & -> & HR2 & Hv2).
      cbn [res_bind]. eapply IH; [done|done|lia].
    + apply Nat.eqb_neq in Eh0. destruct (Hpush0 Eh0) as (s2 & v2 & -> & HR2 & Hv2).
      cbn [res_bind]. eapply IH; [done|done|lia].
    + apply Nat.eqb_neq in Eh, Eh0. destruct (Hpush0 Eh0) as (s2 & v2 & -> & HR2 & Hv2).
      cbn [res_bind]. destruct (Hpush Eh) as (s3 & v3 & -> & HR3 & Hv3).
      cbn [res_bind]. eapply IH; [done|done|lia].
  - destruct (kltb (cKey c0) (cKey c)) eqn:Elt.
    + (* the original has a lower key *)
      destruct (h0 =? 0) eqn:Eh0; cbn [negb].
      * apply (erepr_leaf_inv _ _ _ He0) in Eh0 as [-> Hcn0]. rewrite Hx0. cbn [res_bind].
        rewrite Elc in *. rewrite <- !app_comm_cons, om_diff_cons. simpl fst. rewrite Ek, Elt.
        eapply (report_cons fuel s0 st (Some c0, None)); [|done].
        rewrite app_comm_cons. eapply IH; [done|done|lia].
      * apply Nat.eqb_neq in Eh0. destruct (Hpush0 Eh0) as (s2 & v2 & -> & HR2 & Hv2).
        cbn [res_bind]. eapply IH; [done|done|lia].
    + (* the new tree has a lower key *)
      destruct (h =? 0) eqn:Eh; cbn [negb].
      * apply (erepr_leaf_inv _ _ _ He) in Eh as [-> Hcn]. rewrite Hx1. cbn [res_bind].
        rewrite Elc0 in *. rewrite <- !app_comm_cons, om_diff_cons. simpl fst. rewrite Ek, Elt.
        eapply (report_cons fuel st0 s1 (None, Some c)); [|done].
        rewrite app_comm_cons. eapply IH; [done|done|lia].
      * apply Nat.eqb_neq in Eh. destruct (Hpush Eh) as (s2 & v2 & -> & HR2 & Hv2).
        cbn [res_bind]. eapply IH; [done|done|lia].
Qed.

Lemma delta_loop_spec fuel st0 st r0 r w0 w :
  Rem st0 r0 w0 → Rem st r w → w0 + w < fuel → reports fuel st0 st (om_diff r0 r).
Proof.
  revert st0 st r0 r w0 w. induction fuel as [|fuel IH]; intros st0 st r0 r w0 w HR0 HR Hf; [lia|].
  destruct (Rem_view _ _ _ HR0) as
    [st0' w0' Hc0 Ht0 Hup0 HR0' Hw0|n0 Hc0 Ht0 Hr0 Hn0|h0 n0 c0 lc0 r0' Hc0 Hn0 HL0 He0 Hr0 Hnext0 Hpush0].
  { unfold reports. cbn [delta_loop]. rewrite Hc0. cbn [res_bind].
    rewrite bool_decide_false by (by intros []). rewrite (proj2 (Nat.ltb_lt _ _) Ht0). cbn [negb andb].
    rewrite Hup0. cbn [res_bind]. eapply IH; [done|done|lia]. }
  all: destruct (Rem_view _ _ _ HR) as
    [st' w' Hc Ht Hup HR' Hw|n Hc Ht Hr Hn|h n c lc r' Hc Hn HL He Hr Hnext Hpush].
  6: by eapply delta_loop_entries.
  all: unfold reports; cbn [delta_loop]; rewrite Hc0; cbn [res_bind];
    rewrite ?Ht0, ?Nat.ltb_irrefl, ?andb_false_r; rewrite ?bool_decide_true by done;
    cbn [negb andb]; rewrite Hc; cbn [res_bind].
  1,4: rewrite bool_decide_false by (by intros []); rewrite (proj2 (Nat.ltb_lt _ _) Ht); cbn [negb andb];
    rewrite Hup; cbn [res_bind]; eapply IH; [done|done|lia].
  all: rewrite ?Ht, ?Nat.ltb_irrefl, ?andb_false_r; rewrite ?bool_decide_true by done;
    cbn [negb andb]; rewrite Hn, Hn0; cbn [res_bind].
  - subst. by exists [].
  - subst r0 r. rewrite HL. destruct (h =? 0) eqn:Eh; cbn [negb].
    + apply (erepr_leaf_inv _ _ _ He) in Eh as [-> Hcn].
      destruct Hnext as (s1 & v1 & -> & HR1 & Hv1). cbn [res_bind]. simpl app. rewrite om_diff_nil_l.
      eapply (report_cons fuel st0 s1 (None, Some c)); [eapply IH; [done|done|lia]|done].
    + apply Nat.eqb_neq in Eh. destruct (Hpush Eh) as (s2 & v2 & -> & HR2 & Hv2).
      cbn [res_bind]. eapply IH; [done|done|lia].
  - subst r0 r. rewrite HL0. destruct (h0 =? 0) eqn:Eh; cbn [negb].
    + apply (erepr_leaf_inv _ _ _ He0) in Eh as [-> Hcn].
      destruct Hnext0 as (s1 & v1 & -> & HR1 & Hv1). cbn [res_bind]. simpl app. rewrite om_diff_nil_r.
      eapply (report_cons fuel s1 st (Some c0, None)); [eapply IH; [done|done|lia]|done].
    + apply Nat.eqb_neq in Eh. destruct (Hpush0 Eh) as (s2 & v2 & -> & HR2 & Hv2).
      cbn [res_bind]. eapply IH; [done|done|lia].
Qed.

(** Turns enough for two trees. *)
Definition delta_fuel (l0 l : list kv) : nat :=
  (length l0 + length l + 2) * (2 * maximumTreeDepth + 2).

Lemma IterateDelta_spec fuel h h0 self original l l0 :
  nrepr t B h self l → nrepr t B h0 original l0 →
  Loc t B h (root_stack self) [] self 0 [] l [] →
  Loc t B h0 (root_stack original) [] original 0 [] l0 [] →
  delta_fuel l0 l ≤ fuel →
  ∃ evs, IterateDelta t ptr_eq fuel self original = Ok evs ∧ map kv_event evs = om_diff l0 l.
Proof.
  intros Hn Hn0 HL HL0 Hfuel.
  pose proof (loc_ok _ _ _ _ _ _ _ _ _ _ HL) as Hok. rewrite app_nil_r in Hok. simpl in Hok.
  pose proof (loc_ok _ _ _ _ _ _ _ _ _ _ HL0) as Hok0. rewrite app_nil_r in Hok0. simpl in Hok0.
  pose proof (loc_depth _ _ _ _ _ _ _ _ _ _ HL). pose proof (loc_depth _ _ _ _ _ _ _ _ _ _ HL0).
  simpl in *.
  destruct (Rem_root h self l) as (w & HR & Hw); [done|done|lia|done|].
  destruct (Rem_root h0 original l0) as (w0 & HR0 & Hw0); [done|done|lia|done|].
  eapply delta_loop_spec; [done|done|]. unfold delta_fuel in Hfuel. lia.
Qed.

End delta_facts.
