(* ===== verification/IBSync.v ===== *)
(** * Stored and unsaved nodes

    A node that carries a block id is exactly what the backend holds under that
    id; every other node is unsaved, and what hangs below it in memory is again
    such a node.  Every operation of the stack keeps this, so that [CommitTo]
    (see [IBPersist]) may skip the nodes that carry an id. *)
From stdpp Require Import base list sets strings sorting.
From Stdlib Require Import ZArith Lia.
From S2P Require Import Prelude OrderedMap IBNode IBStack IBTree.

Inductive synced (load : BlockId → option NodeData) : Node → Prop :=
| synced_new leafy cl :
    (∀ c m, c ∈ cl → childNode c = Some m → synced load m) →
    synced load (mkNode leafy cl None)
| synced_stored b nd : load b = Some nd → synced load (node_of_data (Some b) nd).

Definition csynced (load : BlockId → option NodeData) (c : NodeDataChild) : Prop :=
  ∀ m, childNode c = Some m → synced load m.

Lemma synced_children load n : synced load n → Forall (csynced load) (Children n).
Proof.
  destruct 1 as [leafy cl H|b nd Hb]; apply Forall_forall.
  - intros c Hc m Hm. by eapply H.
  - intros c Hc m Hm. simpl in Hc. apply list_elem_of_fmap in Hc as (p & -> & _). done.
Qed.

Lemma synced_mk load leafy cl : Forall (csynced load) cl → synced load (mkNode leafy cl None).
Proof. rewrite Forall_forall. intros H. constructor. intros c m Hc. by apply H. Qed.

Lemma slice_to_Forall {A : Type} (P : A → Prop) l k l' :
  slice_to l k = Ok l' → Forall P l → Forall P l'.
Proof. unfold slice_to. destruct (_ || _); [done|]. intros [= <-]. by apply Forall_take. Qed.
Lemma slice_from_Forall {A : Type} (P : A → Prop) l k l' :
  slice_from l k = Ok l' → Forall P l → Forall P l'.
Proof. unfold slice_from. destruct (_ || _); [done|]. intros [= <-]. by apply Forall_drop. Qed.
Lemma go_at_Forall {A : Type} (P : A → Prop) l k x : go_at l k = Ok x → Forall P l → P x.
Proof.
  unfold go_at, go_index. destruct (_ <? _)%Z; [done|].
  destruct (l !! Z.to_nat k) eqn:E; [|done]. intros [= ->] HF.
  by apply (proj1 (Forall_lookup _ _) HF _ _ E).
Qed.

Section sync.
Context `{MsgpSizes} (t : Tree) (load : BlockId → option NodeData).
Hypothesis Hload : backend t = Some load ∨ backend t = None.

Definition Snd (st : Stack) : Prop := Forall (λ p, ∀ n, p = Some n → synced load n) (nodes st).

Lemma resolve_synced c m : csynced load c → resolve t c = Ok (Some m) → synced load m.
Proof.
  unfold resolve. intros Hc. destruct (childNode c) as [m'|] eqn:E; [intros [= <-]; by apply Hc|].
  destruct Hload as [-> | ->]; [|done].
  destruct (load (cValue c)) as [nd|] eqn:El; [|done]. intros [= <-]. by constructor.
Qed.

(** ** The pieces of a stack *)

Lemma Snd_index st i p : Snd st → go_index (nodes st) i = Ok p → ∀ n, p = Some n → synced load n.
Proof.
  unfold go_index. intros HS. destruct (nodes st !! i) as [q|] eqn:E; [|done]. intros [= <-].
  by apply (proj1 (Forall_lookup _ _) HS i).
Qed.

Lemma Snd_node st n : Snd st → node st = Ok n → synced load n.
Proof.
  unfold node. intros HS Hn. go_inv. destruct a as [m|]; [|done]. simpl in Hn. go_inv.
  by eapply (Snd_index st (top st)).
Qed.

Lemma Snd_child st c : Snd st → child st = Ok (Some c) → csynced load c.
Proof.
  unfold child. intros HS Hc. go_inv. apply Snd_node in E; [|done].
  apply synced_children in E. destruct (_ || _); [done|]. go_inv.
  by eapply go_at_Forall.
Qed.

Lemma go_update_In {A : Type} (P : A → Prop) l i x l' :
  go_update l i x = Ok l' → Forall P l → P x → Forall P l'.
Proof.
  unfold go_update. destruct (decide _); [|done]. intros [= <-] HF Hx.
  by apply Forall_insert.
Qed.

Lemma Snd_with_nodes st ns :
  Forall (λ p, ∀ n, p = Some n → synced load n) ns → Snd (with_nodes ns st).
Proof. done. Qed.

Lemma Snd_invalidate st : Snd st → Snd (invalidateSubNodes st).
Proof.
  intros HS. apply Forall_lookup. intros i p. unfold invalidateSubNodes. simpl.
  rewrite list_lookup_imap. destruct (nodes st !! i) as [q|] eqn:E; [|done]. simpl.
  intros [= <-]. destruct (_ && _); [done|]. by apply (proj1 (Forall_lookup _ _) HS _ _ E).
Qed.

Lemma Snd_setIndex i st st' : setIndex i st = Ok st' → Snd st → Snd st'.
Proof.
  unfold setIndex. intros Hs HS. go_inv. destruct (_ =? _)%Z; go_inv; [done|].
  by apply Snd_invalidate.
Qed.

Lemma Snd_nextIndex st st' : nextIndex st = Ok st' → Snd st → Snd st'.
Proof. unfold nextIndex. intros Hs HS. go_inv. by eapply Snd_setIndex. Qed.

Lemma Snd_Reset st st' : Reset st = Ok st' → Snd st → Snd st'.
Proof.
  unfold Reset. intros Hs HS. go_inv. destruct a; [|done]. destruct (_ <? _); [done|].
  by eapply Snd_setIndex.
Qed.

Lemma Snd_push i nd st st' :
  push i nd st = Ok st' → Snd st → (∀ n, nd = Some n → synced load n) → Snd st'.
Proof.
  unfold push. intros Hp HS Hnd. go_inv. apply (Snd_setIndex _ _ _ E) in HS.
  eapply Snd_setIndex; [done|]. apply Snd_with_nodes.
  eapply go_update_In; [done| |done]. destruct (_ <? _); done.
Qed.

Lemma Snd_popNode st n st' :
  popNode st = Ok (n, st') → Snd st → Snd st' ∧ (∀ m, n = Some m → synced load m).
Proof.
  unfold popNode, node_ptr. intros Hp HS. go_inv. destruct (top st) eqn:Et; [done|].
  injection Hp as <- <-. split; [done|]. by eapply Snd_index.
Qed.

Lemma Snd_childNode i st r :
  Stack_childNode t i st = Ok r → Snd st → ∀ m, r = Some m → synced load m.
Proof.
  unfold Stack_childNode, Node_childNode. intros Hc HS m ->. go_inv.
  pose proof (Snd_node _ _ HS E) as Hn. apply synced_children in Hn.
  destruct (_ || _); [done|]. go_inv.
  assert (∀ c, go_at (Children a) i = Ok c → csynced load c) as Hcs
    by (intros c Hat; by eapply go_at_Forall).
  destruct (_ =? _)%Z; go_inv.
  - destruct a1 as [m'|]; [injection Hc as ->; by eapply (Snd_index st (S (top st)))|].
    go_inv. eapply resolve_synced; [|done]. by apply Hcs.
  - eapply resolve_synced; [|done]. by apply Hcs.
Qed.

Lemma Snd_pushIndex i st st' : pushIndex t i st = Ok st' → Snd st → Snd st'.
Proof.
  unfold pushIndex. intros Hp HS. go_inv. eapply Snd_push; [done|done|].
  by eapply Snd_childNode.
Qed.

(** ** Rewriting *)

Lemma Snd_rewriteNodeChildren cl st st' :
  rewriteNodeChildren t cl st = Ok st' → Snd st → Forall (csynced load) cl → Snd st'.
Proof.
  unfold rewriteNodeChildren. intros Hr HS Hcl. go_inv.
  assert (Snd (invalidateSubNodes (with_nodes a0 st))) as HS'.
  { apply Snd_invalidate, Snd_with_nodes. eapply go_update_In; [done|done|].
    intros n [= <-]. by apply synced_mk. }
  destruct (_ && _); done.
Qed.

Lemma Snd_rewriteAtIndex rep c st st' :
  rewriteAtIndex t rep c st = Ok st' → Snd st → (∀ x, c = Some x → csynced load x) → Snd st'.
Proof.
  unfold rewriteAtIndex. intros Hr HS Hc. go_inv.
  pose proof (synced_children _ _ (Snd_node _ _ HS E)) as Hcl.
  assert (∃ b e, rewriteNodeChildren t (b ++ match c with Some x => [x] | None => [] end ++ e) st = Ok st' ∧
            Forall (csynced load) b ∧ Forall (csynced load) e) as (b & e & Hrw & Hb & He).
  { destruct rep, c; try done; (destruct (_ <? _)%Z; [done|]); go_inv;
      (do 2 eexists; split; [done|]; split; [by eapply slice_to_Forall|by eapply slice_from_Forall]). }
  eapply Snd_rewriteNodeChildren; [done|done|]. apply Forall_app. split; [done|].
  apply Forall_app. split; [|done]. destruct c; [|constructor]. constructor; [by apply Hc|constructor].
Qed.

Lemma csynced_subtree k n : synced load n → csynced load (mkSubtreeChild t k n).
Proof. intros Hn m [= <-]. done. Qed.

Lemma Snd_pop st st' : pop t st = Ok st' → Snd st → Snd st'.
Proof.
  unfold pop. intros Hp HS. go_inv. destruct a as [p st1]. go_inv.
  destruct (Snd_popNode _ _ _ E HS) as [HS1 Hp1]. destruct p as [n|]; [|done]. simpl in E0. go_inv.
  destruct (Children a); (eapply Snd_rewriteAtIndex; [done|done|]); [done|].
  intros x [= <-]. apply csynced_subtree. by apply Hp1.
Qed.

Lemma Snd_pop_all fuel st st' : pop_all t fuel st = Ok st' → Snd st → Snd st'.
Proof.
  revert st. induction fuel as [|fuel IH]; intros st; simpl; destruct (top st); try done;
    [by intros [= ->]..|]. intros Hp HS. go_inv. eapply IH; [done|]. by eapply Snd_pop.
Qed.

(** ** Searching and walking *)

Lemma Snd_search_loop fuel key n st st' :
  search_loop t fuel key n st = Ok st' → Snd st → Snd st'.
Proof.
  revert n st. induction fuel as [|fuel IH]; intros n st Hs HS; [done|]. cbn [search_loop] in Hs.
  destruct (Leafy n); [by eapply Snd_setIndex|]. go_inv. destruct a as [m|]; [|done]. go_inv.
  eapply IH; [done|]. eapply Snd_push; [done|done|]. by eapply Snd_childNode.
Qed.

Lemma Snd_search key st st' : search t key st = Ok st' → Snd st → Snd st'.
Proof. unfold search. intros Hs HS. go_inv. by eapply Snd_search_loop. Qed.

Lemma Snd_descend fuel b i st r : descend t fuel b i st = Ok r → Snd st → Snd r.2.
Proof.
  revert i st. induction fuel as [|fuel IH]; intros i st Hs HS; [done|]. cbn [descend] in Hs.
  go_inv. destruct (Leafy a); go_inv; [done|]. eapply IH; [done|]. by eapply Snd_pushIndex.
Qed.

Lemma Snd_goPreviousLeaf fuel st r : goPreviousLeaf_loop t fuel st = Ok r → Snd st → Snd r.2.
Proof.
  revert st. induction fuel as [|fuel IH]; intros st Hs HS; [done|]. cbn [goPreviousLeaf_loop] in Hs.
  go_inv. destruct (_ <=? _)%Z.
  - go_inv. destruct a0 as [i st1]. go_inv. apply Snd_descend in E0; [|done].
    by eapply Snd_setIndex.
  - destruct (_ =? _).
    + destruct (_ =? _)%Z; go_inv; [|done]. by eapply Snd_setIndex.
    + go_inv. destruct a0 as [n st1]. eapply IH; [done|]. by eapply Snd_popNode.
Qed.

Lemma Snd_goNextLeaf fuel st r : goNextLeaf_loop t fuel st = Ok r → Snd st → Snd r.2.
Proof.
  revert st. induction fuel as [|fuel IH]; intros st Hs HS; [done|]. cbn [goNextLeaf_loop] in Hs.
  go_inv. destruct (_ <? _)%Z.
  - go_inv. apply Snd_invalidate. destruct (Leafy a0); [by eapply Snd_setIndex|].
    go_inv. match goal with E : descend _ _ _ _ _ = Ok _ |- _ => by apply Snd_descend in E end.
  - destruct (_ =? _).
    + destruct (_ =? _)%Z; go_inv; [done|]. by eapply Snd_setIndex.
    + go_inv. destruct a1 as [n st1]. eapply IH; [done|]. by eapply Snd_popNode.
Qed.

Lemma find_from_elem p i cl j c : find_from p i cl = Some (j, c) → c ∈ cl.
Proof.
  revert i. induction cl as [|d cl IH]; intros i Hf; [done|]. simpl in Hf.
  destruct (p d); [injection Hf as _ <-; left|right; by eapply IH].
Qed.

Lemma Snd_goDownLeft fuel st st' : goDownLeft_loop fuel st = Ok st' → Snd st → Snd st'.
Proof.
  revert st. induction fuel as [|fuel IH]; intros st Hs HS; [done|]. cbn [goDownLeft_loop] in Hs.
  go_inv. pose proof (synced_children _ _ (Snd_node _ _ HS E)) as Hcl. rewrite Forall_forall in Hcl.
  destruct (find_from _ _ _) as [[j c]|] eqn:Ef; go_inv; [|done].
  eapply IH; [done|]. eapply Snd_push; [done|done|]. apply Hcl. by eapply find_from_elem.
Qed.

Lemma Snd_moveRight st r : moveRight t st = Ok r → Snd st → Snd r.2.
Proof.
  unfold moveRight. intros Hs HS. go_inv. destruct (find_from _ _ _) as [[j c]|].
  - destruct (has_interior_subtree c); go_inv; [|by eapply Snd_setIndex].
    eapply Snd_goDownLeft; [done|]. by eapply Snd_pushIndex.
  - destruct (_ =? _); go_inv; [done|]. by eapply Snd_pop.
Qed.

(** ** Rebalancing *)

Lemma Snd_moveFrom ofs sib st st' :
  moveFrom t ofs sib st = Ok st' → Snd st → synced load sib → Snd st'.
Proof.
  unfold moveFrom. intros Hs HS Hsib. go_inv. destruct a2 as [cl c].
  destruct a as [c0|]; [|done]. simpl in E0. go_inv.
  pose proof (Snd_child _ _ HS E) as Hcur. pose proof (synced_children _ _ Hsib) as Hscl.
  assert (Forall (csynced load) cl ∧ csynced load c) as [Hcl Hc].
  { destruct (_ =? _)%Z; go_inv; split.
    - by eapply slice_to_Forall.
    - by eapply go_at_Forall.
    - by eapply slice_from_Forall.
    - by eapply go_at_Forall. }
  eapply Snd_pop; [done|].
  eapply Snd_rewriteAtIndex; [done| |by intros x [= <-]].
  assert (Snd a3) as H3.
  { eapply Snd_pop; [done|]. eapply Snd_rewriteNodeChildren; [done| |done].
    eapply Snd_push; [done|done|]. by intros n [= <-]. }
  assert (Snd a4) as H4 by (eapply Snd_push; [done|done|apply Hcur]).
  destruct (_ =? _)%Z; by eapply Snd_setIndex.
Qed.

Lemma Snd_mergeTo ofs sib st st' :
  mergeTo t ofs sib st = Ok st' → Snd st → synced load sib → Snd st'.
Proof.
  unfold mergeTo. intros Hs HS Hsib. go_inv. destruct (_ <=? _); [done|]. go_inv.
  destruct (_ =? _); [|done]. go_inv.
  destruct a1 as [c0|]; [|done]. simpl in E2. go_inv.
  pose proof (Snd_child _ _ HS E1) as Hcur.
  destruct (childNode a2) as [own|] eqn:Eown; [|done]. simpl in E3. go_inv.
  pose proof (synced_children _ _ (Hcur _ Eown)) as Hown.
  pose proof (synced_children _ _ Hsib) as Hscl.
  eapply Snd_pop; [done|]. eapply Snd_rewriteNodeChildren; [done| |].
  - eapply Snd_push; [done| |by intros n [= <-]]. by eapply Snd_rewriteAtIndex.
  - destruct (_ =? _)%Z; by apply Forall_app.
Qed.

Lemma Snd_balanceChild st st' : balanceChild t st = Ok st' → Snd st → Snd st'.
Proof.
  unfold balanceChild. intros Hs HS. go_inv. destruct (_ <=? _)%Z; go_inv; [done|].
  pose proof (Snd_childNode _ _ _ E3 HS) as Hl. pose proof (Snd_childNode _ _ _ E4 HS) as Hr.
  destruct a3 as [n1|], a4 as [n2|]; cbn in Hs.
  - destruct (Msgsize n1 <? Msgsize n2)%Z.
    + destruct (_ <? _)%Z; [eapply Snd_mergeTo|eapply Snd_moveFrom]; eauto.
    + destruct (_ <? _)%Z; [eapply Snd_mergeTo|eapply Snd_moveFrom]; eauto.
  - destruct (_ <? _)%Z; [eapply Snd_mergeTo|eapply Snd_moveFrom]; eauto.
  - destruct (_ <? _)%Z; [eapply Snd_mergeTo|eapply Snd_moveFrom]; eauto.
  - by go_inv.
Qed.

Lemma Snd_iterateMutating_loop fuel st st' :
  iterateMutating_loop t fuel (balanceChild t) st = Ok st' → Snd st → Snd st'.
Proof.
  revert st. induction fuel as [|fuel IH]; intros st Hs HS; [done|]. cbn [iterateMutating_loop] in Hs.
  go_inv. destruct a as [c|]; [|done]. go_inv.
  assert (Snd a) as Ha.
  { destruct (has_subtree c); [by eapply Snd_balanceChild|by go_inv]. }
  destruct (ochild_eqb _ _); [|by eapply IH]. go_inv. destruct a1 as [b st1].
  apply Snd_moveRight in E2; [|done]. destruct b; go_inv; [|done].
  destruct (ochild_eqb _ _); [done|]. by eapply IH.
Qed.

Lemma all_childNodes_synced cnt i st ms :
  all_childNodes t cnt i st = Ok ms → Snd st → Forall (synced load) ms.
Proof.
  revert i ms. induction cnt as [|cnt IH]; intros i ms Hs HS; cbn [all_childNodes] in Hs; go_inv; [done|].
  constructor; [|by eapply IH]. destruct a as [m|]; [|done]. simpl in E0. go_inv.
  by eapply Snd_childNode.
Qed.

Lemma rewriteNodeChildren_node cl st st' n :
  rewriteNodeChildren t cl st = Ok st' → node st' = Ok n → blockId n = None.
Proof.
  unfold rewriteNodeChildren. intros Hr Hn. go_inv. unfold go_update in E0.
  destruct (decide _) as [Hlt|]; [|done]. go_inv.
  assert (node (invalidateSubNodes (with_nodes (<[top st := Some (mkNode (Leafy a) cl None)]> (nodes st)) st))
          = Ok n) as Hn'.
  { destruct (_ && _); done. }
  unfold node, node_ptr, go_index in Hn'. simpl in Hn'.
  rewrite list_lookup_imap, list_lookup_insert_eq, Nat.ltb_irrefl in Hn' by done. simpl in Hn'.
  by injection Hn' as <-.
Qed.

Lemma Snd_collapseRoot st r : collapseRoot t st = Ok r → Snd st → Snd r.2.
Proof.
  unfold collapseRoot. intros Hs HS. go_inv. destruct (_ && _); [|by go_inv]. go_inv.
  destruct (_ <=? _)%Z; [|by go_inv]. go_inv.
  apply all_childNodes_synced in E0; [|done].
  assert (Snd a1) as H1.
  { eapply Snd_rewriteNodeChildren; [done|done|]. rewrite Forall_concat, Forall_map.
    eapply Forall_impl; [done|]. intros m Hm. by apply synced_children. }
  destruct (existsb _ _); go_inv; [|done]. apply Snd_with_nodes.
  eapply go_update_In; [done|done|]. intros n [= <-].
  rewrite (rewriteNodeChildren_node _ _ _ _ E1 E2).
  apply synced_mk, synced_children. by eapply Snd_node.
Qed.

Lemma Snd_commit fuel st r : commit t fuel st = Ok r → Snd st → Snd r.2.
Proof.
  unfold commit. intros Hs HS. go_inv. apply (Snd_pop_all _ _ _ E) in HS.
  destruct (_ =? _)%Z; go_inv; [done|]. destruct a1 as [n st1]. go_inv.
  apply Snd_collapseRoot in E1; [exact E1|].
  unfold iterateMutatingChildLeafFirst in E0. go_inv. apply (Snd_Reset _ _ E2) in HS.
  destruct (Leafy _); go_inv; [done|]. simpl.
  eapply Snd_pop_all; [done|]. eapply Snd_iterateMutating_loop; [done|]. by eapply Snd_goDownLeft.
Qed.

Lemma Snd_addChildAt fuel c st st' :
  addChildAt t fuel c st = Ok st' → Snd st → csynced load c → Snd st'.
Proof.
  revert c st. induction fuel as [|fuel IH]; intros c st Hs HS Hc; [done|]. cbn [addChildAt] in Hs.
  go_inv. apply (Snd_rewriteAtIndex _ _ _ _ E) in HS; [|by intros x [= <-]].
  pose proof (synced_children _ _ (Snd_node _ _ HS E0)) as Hcl.
  destruct (_ <=? _)%Z; go_inv; [done|].
  apply (Snd_rewriteNodeChildren _ _ _ E1) in HS; [|by apply Forall_take].
  assert (∀ k, csynced load (mkSubtreeChild t k (mkNode (Leafy a0) (drop (length (Children a0) / 2) (Children a0)) None)))
    as Hnext by (intros k; apply csynced_subtree, synced_mk; by apply Forall_drop).
  destruct (_ <? _); go_inv.
  - eapply IH; [done| |done]. eapply Snd_nextIndex; [done|]. by eapply Snd_pop.
  - apply Snd_invalidate, Snd_with_nodes. eapply go_update_In; [done|done|].
    intros n [= <-]. apply synced_mk. constructor; [|constructor; [done|constructor]].
    apply csynced_subtree. by eapply Snd_node.
Qed.

(** ** The operations of a tree *)

Lemma Snd_Node_search self key st st' :
  Node_search t self key st = Ok st' → Snd st → synced load self → Snd st'.
Proof.
  unfold Node_search. intros Hs HS Hself. go_inv. destruct (_ <? _); [done|].
  eapply Snd_search; [done|]. destruct a as [n0|].
  - destruct (node_eqb _ _); by go_inv.
  - go_inv. apply Snd_with_nodes. eapply go_update_In; [done|done|]. by intros n [= <-].
Qed.

Lemma Snd_searchLesser self key st st' :
  searchLesser t self key st = Ok st' → Snd st → synced load self → Snd st'.
Proof.
  unfold searchLesser. intros Hs HS Hself. go_inv. apply (Snd_Node_search _ _ _ _ E HS) in Hself.
  match type of Hs with (if ?b then _ else _) = _ => destruct b end; go_inv; [|done].
  by eapply Snd_goPreviousLeaf.
Qed.

Lemma Snd_searchGreater self key st st' :
  searchGreater t self key st = Ok st' → Snd st → synced load self → Snd st'.
Proof.
  unfold searchGreater. intros Hs HS Hself. go_inv. apply (Snd_Node_search _ _ _ _ E HS) in Hself.
  match type of Hs with (if ?b then _ else _) = _ => destruct b end; go_inv; [|done].
  by eapply Snd_goNextLeaf.
Qed.

Lemma Snd_Get self key st r : Get t self key st = Ok r → Snd st → synced load self → Snd r.2.
Proof.
  unfold Get. intros Hs HS Hself. go_inv. apply (Snd_Node_search _ _ _ _ E HS) in Hself.
  destruct a0 as [x|]; [destruct (keqb _ _)|]; by go_inv.
Qed.

Lemma Snd_NextKey self key st r : NextKey t self key st = Ok r → Snd st → synced load self → Snd r.2.
Proof.
  unfold NextKey. intros Hs HS Hself. go_inv. by apply (Snd_searchGreater _ _ _ _ E HS) in Hself.
Qed.

Lemma Snd_PrevKey self key st r : PrevKey t self key st = Ok r → Snd st → synced load self → Snd r.2.
Proof.
  unfold PrevKey. intros Hs HS Hself. go_inv. by apply (Snd_searchLesser _ _ _ _ E HS) in Hself.
Qed.

Lemma Snd_Node_Set fuel self key v st r :
  Node_Set t fuel self key v st = Ok r → Snd st → synced load self → Snd r.2.
Proof.
  unfold Node_Set. intros Hs HS Hself. go_inv. apply (Snd_Node_search _ _ _ _ E HS) in Hself.
  assert (csynced load (mkChild key v None)) as Hc by done.
  eapply Snd_commit; [done|]. destruct a0 as [x|]; [|by eapply Snd_addChildAt].
  destruct (keqb (cKey x) key); [|by eapply Snd_addChildAt].
  destruct (keqb (cValue x) v); [by go_inv|]. eapply Snd_rewriteAtIndex; [done|done|].
  by intros y [= <-].
Qed.

Lemma Snd_Node_Delete fuel self key st r :
  Node_Delete t fuel self key st = Ok r → Snd st → synced load self → Snd r.2.
Proof.
  unfold Node_Delete. intros Hs HS Hself. go_inv. apply (Snd_Node_search _ _ _ _ E HS) in Hself.
  destruct a0 as [x|]; [|done]. destruct (keqb _ _); [|done]. go_inv.
  eapply Snd_commit; [done|]. by eapply Snd_rewriteAtIndex.
Qed.

Lemma Snd_trimLeft fuel u st st' : trimLeft t fuel u st = Ok st' → Snd st → Snd st'.
Proof.
  revert st. induction fuel as [|fuel IH]; intros st Hs HS; cbn [trimLeft] in Hs;
    destruct (_ <? _); go_inv; try done. eapply IH; [done|]. eapply Snd_pop; [done|].
  destruct (_ <? _)%Z; go_inv; [|done]. eapply Snd_rewriteNodeChildren; [done|done|].
  eapply slice_from_Forall; [done|]. by eapply synced_children, Snd_node.
Qed.

Lemma Snd_trimRight fuel u st st' : trimRight t fuel u st = Ok st' → Snd st → Snd st'.
Proof.
  revert st. induction fuel as [|fuel IH]; intros st Hs HS; cbn [trimRight] in Hs;
    destruct (_ <? _); go_inv; try done. eapply IH; [done|]. eapply Snd_pop; [done|].
  destruct (_ <? _)%Z; go_inv; [|done]. eapply Snd_rewriteNodeChildren; [done|done|].
  eapply slice_to_Forall; [done|]. by eapply synced_children, Snd_node.
Qed.

Lemma Snd_Node_DeleteRange fuel self key1 key2 st r :
  Node_DeleteRange t fuel self key1 key2 st = Ok r → Snd st → synced load self → Snd r.2.
Proof.
  unfold Node_DeleteRange. intros Hs HS Hself. destruct (kltb _ _); [done|]. go_inv.
  assert (Snd (with_top 0 st)) as HS0 by done.
  pose proof (Snd_searchLesser _ _ _ _ E HS0 Hself) as H1.
  pose proof (Snd_searchGreater _ _ _ _ E0 HS0 Hself) as H2.
  destruct (bool_decide _); [by eapply Snd_commit|]. go_inv.
  destruct (bool_decide _); [by eapply Snd_commit|]. go_inv.
  apply (Snd_trimLeft _ _ _ _ E2) in H2. apply (Snd_trimRight _ _ _ _ E3) in H1.
  eapply Snd_commit; [done|]. eapply Snd_rewriteNodeChildren; [done|done|].
  pose proof (synced_children _ _ (Snd_node _ _ H2 E4)) as Hcl.
  destruct (_ <? _)%Z; [by eapply slice_from_Forall|]. go_inv.
  match goal with E : match ?o with Some _ => _ | None => _ end = Ok _ |- _ =>
    destruct o as [x|]; [|done] end.
  go_inv. apply Forall_app. split; [by eapply slice_to_Forall|].
  constructor; [eapply Snd_child; [exact H1|done]|by eapply slice_from_Forall].
Qed.

End sync.
