(* ===== verification/IBPersist.v ===== *)
(** * Saving a tree (Node.CommitTo, ibtransaction.go Commit, dummybackend.go)

    The backend of a tree is an interface: [SaveNode] stores the data of a node
    and returns its id, [LoadNode] returns what was stored.  [CommitTo] stores the
    unsaved nodes, children first, and the root it returns loads to a tree that
    holds the same list, unless one of the nodes it stores collides with another
    one.  [DummyBackend], the in-memory backend of the package, implements the
    interface; its collisions are those of its hash. *)
From stdpp Require Import base list sets strings sorting gmap.
From Stdlib Require Import ZArith Lia.
From S2P Require Import Prelude OrderedMap IBNode IBStack IBTree IBRepr IBStackFacts IBLoc IBSync.

(** ** The interface *)

Class TreeBackend (S : Type) := {
  SaveNode : NodeData → S → res (BlockId * S);
  LoadNode : S → BlockId → option NodeData
}.

(** What a tree relies on.  A backend may have an invariant of its own; a content
    addressed one may meet a collision, and then promises nothing. *)
Class TreeBackendOk (S : Type) `{TreeBackend S} := {
  backend_inv : S → Prop;
  collision : NodeData → S → Prop;
  LoadNode_id : ∀ s b x, backend_inv s → LoadNode s b = Some x → String.length b = hashSize;
  SaveNode_ok : ∀ nd s, backend_inv s → ¬ collision nd s →
    CheckNodeStructure (node_of_data None nd) = Ok tt →
    ∃ bid s', SaveNode nd s = Ok (bid, s') ∧ backend_inv s' ∧
      LoadNode s' bid = Some nd ∧ String.length bid = hashSize ∧
      ∀ b x, LoadNode s b = Some x → LoadNode s' b = Some x
}.

Section persist.
Context {S : Type} `{TreeBackend S}.

(** ** The code *)

Fixpoint CommitTo (n : Node) (s : S) {struct n} : res (Node * BlockId * S) :=
  match n with
  | mkNode leafy children (Some bid) => Ok (n, bid, s)
  | mkNode leafy children None =>
      let! r :=
        if leafy then Ok (children, s)
        else
          (fix go (cl : list NodeDataChild) (s : S) {struct cl} : res (list NodeDataChild * S) :=
             match cl with
             | [] => Ok ([], s)
             | mkChild k v sub :: cl' =>
                 let! cs :=
                   match sub with
                   | Some m =>
                       let! r := CommitTo m s in
                       Ok (mkChild k r.1.2 None, r.2)
                   | None => Ok (mkChild k v sub, s)
                   end in
                 let! rest := go cl' cs.2 in
                 Ok (cs.1 :: rest.1, rest.2)
             end) children s in
      let! saved := SaveNode (mkNodeData leafy (map pair_of_child r.1)) r.2 in
      if String.length saved.1 <? 10 then Panic "slice bounds out of range"
      else Ok (mkNode leafy r.1 (Some saved.1), saved.1, saved.2)
  end.

Definition tr_CommitTo (tr : Transaction) (s : S) : res (Node * BlockId * S) :=
  let! root := Root tr in CommitTo root s.

(** The loop over the children, by name. *)
Fixpoint commit_children (cl : list NodeDataChild) (s : S) : res (list NodeDataChild * S) :=
  match cl with
  | [] => Ok ([], s)
  | mkChild k v sub :: cl' =>
      let! cs :=
        match sub with
        | Some m => let! r := CommitTo m s in Ok (mkChild k r.1.2 None, r.2)
        | None => Ok (mkChild k v sub, s)
        end in
      let! rest := commit_children cl' cs.2 in
      Ok (cs.1 :: rest.1, rest.2)
  end.

(** The saves a commit makes, each with the state it meets. *)
Fixpoint commit_saves (n : Node) (s : S) {struct n} : list (NodeData * S) :=
  match n with
  | mkNode leafy children (Some bid) => []
  | mkNode leafy children None =>
      (if leafy then []
       else
         (fix go (cl : list NodeDataChild) (s : S) {struct cl} : list (NodeData * S) :=
            match cl with
            | [] => []
            | mkChild k v None :: cl' => go cl' s
            | mkChild k v (Some m) :: cl' =>
                commit_saves m s ++
                match CommitTo m s with Ok r => go cl' r.2 | _ => [] end
            end) children s) ++
      match (if leafy then Ok (children, s) else commit_children children s) with
      | Ok r => [(mkNodeData leafy (map pair_of_child r.1), r.2)]
      | _ => []
      end
  end.

Fixpoint children_saves (cl : list NodeDataChild) (s : S) : list (NodeData * S) :=
  match cl with
  | [] => []
  | mkChild k v None :: cl' => children_saves cl' s
  | mkChild k v (Some m) :: cl' =>
      commit_saves m s ++ match CommitTo m s with Ok r => children_saves cl' r.2 | _ => [] end
  end.

Lemma commit_saves_None leafy children s :
  commit_saves (mkNode leafy children None) s =
  (if leafy then [] else children_saves children s) ++
  match (if leafy then Ok (children, s) else commit_children children s) with
  | Ok r => [(mkNodeData leafy (map pair_of_child r.1), r.2)]
  | _ => []
  end.
Proof. by destruct leafy. Qed.

Lemma CommitTo_None leafy children s :
  CommitTo (mkNode leafy children None) s =
  (let! r := if leafy then Ok (children, s) else commit_children children s in
   let! saved := SaveNode (mkNodeData leafy (map pair_of_child r.1)) r.2 in
   if String.length saved.1 <? 10 then Panic "slice bounds out of range"
   else Ok (mkNode leafy r.1 (Some saved.1), saved.1, saved.2)).
Proof.
  by destruct leafy.
Qed.

End persist.

(** ** A tree over a backend state *)

Definition with_backend (t : Tree) (load : BlockId → option NodeData) : Tree :=
  mkTree (NodeMaximumSize t) (halfSize t) (smallSize t) (Some load) (placeholderValue t).

Section mono.
Context `{Hsz : MsgpSizes} (t : Tree) (B : Z).

Lemma kv_ok_backend load p : kv_ok (with_backend t load) B p ↔ kv_ok t B p.
Proof. done. Qed.

Lemma kvs_ok_backend load l : kvs_ok (with_backend t load) B l ↔ kvs_ok t B l.
Proof. done. Qed.

(** More stored blocks: the tree is the same. *)
Lemma erepr_mono load load' h c lc :
  (∀ b x, load b = Some x → load' b = Some x) →
  erepr (with_backend t load) B h c lc → erepr (with_backend t load') B h c lc.
Proof.
  intros Hl. revert c lc. induction h as [|h IH]; intros c lc; [done|].
  rewrite !erepr_S. intros (H1 & H2 & m & Hm & HLf & ls & HF & ->).
  split_and!; try done. exists m. split.
  - unfold resolve in *. destruct (childNode c); [done|]. simpl in *.
    destruct (load (cValue c)) as [nd|] eqn:E; [|done]. by rewrite (Hl _ _ E).
  - split; [done|]. exists ls. split; [|done]. eapply Forall2_impl; [done|]. apply IH.
Qed.

Lemma nrepr_mono load load' h n l :
  (∀ b x, load b = Some x → load' b = Some x) →
  nrepr (with_backend t load) B h n l → nrepr (with_backend t load') B h n l.
Proof.
  intros Hl (HLf & ls & HF & ->). split; [done|]. exists ls. split; [|done].
  eapply Forall2_impl; [done|]. intros c lc. by apply erepr_mono.
Qed.

Lemma synced_mono load load' n :
  (∀ b x, load b = Some x → load' b = Some x) → synced load n → synced load' n.
Proof.
  intros Hl. induction 1 as [leafy cl _ IH|b nd Hb]; [by constructor|]. constructor. by apply Hl.
Qed.

End mono.

(** ** Saving keeps the list *)

Section commit_facts.
Context {S : Type} `{TreeBackendOk S} `{Hsz : MsgpSizes} (t : Tree) (B : Z).
Hypothesis Hph : String.length (placeholderValue t) = hashSize.

Abbreviation at_state s := (with_backend t (LoadNode s)).

(** The outcome for one node. *)
Definition saved (n : Node) (s : S) (h : nat) (l : list kv) : Prop :=
  ∃ n' bid s' nd, CommitTo n s = Ok (n', bid, s') ∧ backend_inv s' ∧
    LoadNode s' bid = Some nd ∧ n' = node_of_data (Some bid) nd ∧
    String.length bid = hashSize ∧
    nrepr (at_state s') B h n' l ∧
    ∀ b x, LoadNode s b = Some x → LoadNode s' b = Some x.

Lemma map_data_children leafy cl bid :
  Forall (λ c, childNode c = None) cl →
  mkNode leafy cl bid = node_of_data bid (mkNodeData leafy (map pair_of_child cl)).
Proof.
  intros HF. unfold node_of_data. simpl. f_equal. induction HF as [|[k v c] cl Hc HF IH]; [done|].
  simpl in *. subst c. by f_equal.
Qed.

Definition no_collisions (saves : list (NodeData * S)) : Prop :=
  Forall (λ p, ¬ collision p.1 p.2) saves.

Definition saves (n : Node) : Prop :=
  ∀ s h l, backend_inv s → nrepr (at_state s) B h n l → kvs_ok t B l → synced (LoadNode s) n →
    no_collisions (commit_saves n s) → saved n s h l.

Lemma entry_size_id k v v' :
  String.length v = String.length v' → entry_size k v = entry_size k v'.
Proof. intros E. unfold entry_size, slen. by rewrite E. Qed.

(** The entry for a saved subtree. *)
Lemma saved_entry k h l n' bid s' nd :
  backend_inv s' → LoadNode s' bid = Some nd → n' = node_of_data (Some bid) nd →
  nrepr (at_state s') B h n' l → (∃ v rest, l = (k, v) :: rest) → Forall (kv_ok t B) l →
  erepr (at_state s') B (Datatypes.S h) (mkChild k bid None) l.
Proof.
  intros Hinv Hld -> Hn (v & rest & ->) Hok. apply erepr_S. split_and!.
  - apply Forall_cons in Hok as [(_ & _ & Hsize) _]. unfold child_size. simpl in *.
    rewrite (entry_size_id k bid (placeholderValue t)); [done|].
    rewrite Hph. by eapply LoadNode_id.
  - simpl. eauto.
  - eexists. split; [|done]. unfold resolve. simpl. by rewrite Hld.
Qed.

Lemma commit_children_spec h cl ls s :
  Forall (λ c, ∀ m, childNode c = Some m → saves m) cl →
  backend_inv s → Forall2 (erepr (at_state s) B (Datatypes.S h)) cl ls → kvs_ok t B (concat ls) →
  Forall (csynced (LoadNode s)) cl → no_collisions (children_saves cl s) →
  ∃ cl' s', commit_children cl s = Ok (cl', s') ∧ backend_inv s' ∧
    Forall2 (erepr (at_state s') B (Datatypes.S h)) cl' ls ∧ Forall (λ c, childNode c = None) cl' ∧
    ∀ b x, LoadNode s b = Some x → LoadNode s' b = Some x.
Proof.
  intros HQ. revert s ls. induction HQ as [|[k v sub] cl Hq HQ IH]; intros s ls Hinv HF Hok Hsy Hnc.
  - inversion HF; subst. exists [], s. done.
  - apply Forall2_cons_inv_l in HF as (lc & ls' & Hc & HF & ->). simpl in Hok.
    apply kvs_ok_app in Hok as [Hok1 Hok2]. apply Forall_cons in Hsy as [Hs1 Hs2].
    assert (∃ c' s1, match sub with
              | Some m => let! r := CommitTo m s in Ok (mkChild k r.1.2 None, r.2)
              | None => Ok (mkChild k v sub, s)
              end = Ok (c', s1) ∧ backend_inv s1 ∧ childNode c' = None ∧
              erepr (at_state s1) B (Datatypes.S h) c' lc ∧
              no_collisions (children_saves cl s1) ∧
              ∀ b x, LoadNode s b = Some x → LoadNode s1 b = Some x)
      as (c' & s1 & Hstep & Hinv1 & Hc' & He1 & Hnc1 & Hmono1).
    { destruct sub as [m|]; [|by exists (mkChild k v None), s].
      apply Forall_app in Hnc as [Hnc1 Hnc2].
      pose proof (erepr_head _ _ _ _ _ Hc) as Hhead.
      apply erepr_S in Hc as (_ & _ & m' & [= <-] & Hm).
      destruct (Hq m eq_refl s h lc Hinv Hm Hok1 (Hs1 m eq_refl) Hnc1)
        as (n' & bid & s' & nd & Hcm & Hinv' & Hld & Hn' & _ & Hr & Hmono).
      rewrite Hcm in Hnc2 |- *.
      cbn [res_bind fst snd]. exists (mkChild k bid None), s'. split_and!; try done.
      eapply saved_entry; [done|done|done|done|done|apply Hok1]. }
    cbn [commit_children]. rewrite Hstep. cbn [res_bind fst snd].
    destruct (IH s1 ls') as (cl' & s2 & -> & Hinv2 & HF2 & Hcl2 & Hmono2); [done| |done| |done|].
    { eapply Forall2_impl; [done|]. intros c lc'. by apply erepr_mono. }
    { eapply Forall_impl; [done|]. intros c Hcs m Hm. eapply synced_mono; [done|]. by apply Hcs. }
    cbn [res_bind fst snd]. exists (c' :: cl'), s2. split_and!; try done; [|by constructor|eauto].
    constructor; [|done]. by eapply erepr_mono.
Qed.

Lemma CommitTo_saves n : saves n.
Proof.
  apply (node_ind' saves (λ c, ∀ m, childNode c = Some m → saves m)).
  - intros leafy cl bid HQ s h l Hinv Hn Hok Hsy Hnc.
    destruct bid as [bid|].
    { inversion Hsy as [|b nd Hld]; subst. exists (mkNode (nd_Leafy nd) (map child_of_pair (nd_Children nd)) (Some bid)), bid, s, nd.
      split_and!; try done. by eapply LoadNode_id. }
    unfold saved. rewrite CommitTo_None. rewrite commit_saves_None in Hnc.
    apply Forall_app in Hnc as [Hnc1 Hnc2]. pose proof (synced_children _ _ Hsy) as Hcs. simpl in Hcs.
    destruct Hn as (HLf & ls & HF & ->). simpl in HLf, HF.
    assert (∃ cl' s1, (if leafy then Ok (cl, s) else commit_children cl s) = Ok (cl', s1) ∧
              backend_inv s1 ∧ Forall2 (erepr (at_state s1) B h) cl' ls ∧
              Forall (λ c, childNode c = None) cl' ∧
              ∀ b x, LoadNode s b = Some x → LoadNode s1 b = Some x)
      as (cl' & s1 & Hcl' & Hinv1 & HF1 & Hnone & Hmono1).
    { destruct h as [|h]; simpl in HLf; subst leafy.
      - exists cl, s. split_and!; try done. clear -HF. induction HF as [|c lc cl ls Hc HF IH]; [done|].
        constructor; [|done]. by destruct Hc as (_ & _ & ? & _).
      - by eapply commit_children_spec. }
    rewrite Hcl' in Hnc2 |- *. cbn [res_bind fst snd] in Hnc2 |- *.
    apply Forall_cons in Hnc2 as [Hnc2 _]. simpl in Hnc2.
    assert (CheckNodeStructure (node_of_data None (mkNodeData leafy (map pair_of_child cl'))) = Ok tt) as Hchk.
    { rewrite <- map_data_children by done. by eapply (check_erepr (at_state s1) B h). }
    destruct (SaveNode_ok _ _ Hinv1 Hnc2 Hchk) as (bid & s2 & -> & Hinv2 & Hld & Hlen & Hmono2).
    cbn [res_bind fst snd]. rewrite Hlen. cbn [Nat.ltb Nat.leb hashSize].
    eexists _, bid, s2, _. split; [done|]. split_and!; try done.
    + by apply map_data_children.
    + apply nrepr_mk; [done|]. eapply Forall2_impl; [done|]. intros c lc. by apply erepr_mono.
    + eauto.
  - done.
  - intros k v m Hm m' [= <-]. done.
Qed.

(** The saved root loads again. *)
Lemma CommitTo_LoadRoot n s h l :
  backend_inv s → nrepr (at_state s) B h n l → kvs_ok t B l → synced (LoadNode s) n →
  no_collisions (commit_saves n s) →
  ∃ n' bid s', CommitTo n s = Ok (n', bid, s') ∧ backend_inv s' ∧
    LoadRoot (at_state s') bid = Ok (Some n') ∧ nrepr (at_state s') B h n' l ∧
    synced (LoadNode s') n' ∧ ∀ b x, LoadNode s b = Some x → LoadNode s' b = Some x.
Proof.
  intros Hinv Hn Hok Hsy Hnc.
  destruct (CommitTo_saves n s h l Hinv Hn Hok Hsy Hnc)
    as (n' & bid & s' & nd & Hc & Hinv' & Hld & -> & _ & Hr & Hmono).
  eexists _, bid, s'. split; [done|]. split_and!; try done; [|by constructor].
  unfold LoadRoot. simpl. by rewrite Hld.
Qed.

End commit_facts.

(** ** The in-memory backend (dummybackend.go)

    [marshal] and [unmarshal] are the generated codec of [NodeData], [sha256] the
    hash of the Go library. *)

Module DummyBackend.
Section dummy.
Context (marshal : NodeData → string) (unmarshal : string → option NodeData) (sha256 : string → string).

Record DummyBackend : Type := mkDummy {
  h2nd : gmap string string;
  loads : nat;
  saves : nat
}.

Definition Init : DummyBackend := mkDummy ∅ 0 0.

Definition load (id : BlockId) (self : DummyBackend) : res (NodeData * DummyBackend) :=
  let self := mkDummy (h2nd self) (loads self + 1) (saves self) in
  match unmarshal (default "" (h2nd self !! id)) with
  | None => Panic "short bytes"
  | Some nd => Ok (nd, self)
  end.

Definition save (nd : NodeData) (self : DummyBackend) : res (BlockId * DummyBackend) :=
  let b := marshal nd in
  let bid := sha256 b in
  let self := mkDummy (<[bid := b]> (h2nd self)) (loads self) (saves self) in
  let! _ := CheckNodeStructure (node_of_data None nd) in
  Ok (bid, self).

#[local] Instance dummy_backend : TreeBackend DummyBackend := {|
  SaveNode := save;
  LoadNode s b := match load b s with Ok r => Some r.1 | _ => None end
|}.

Hypothesis unmarshal_marshal : ∀ nd, unmarshal (marshal nd) = Some nd.
Hypothesis unmarshal_empty : unmarshal "" = None.
Hypothesis sha256_length : ∀ s, String.length (sha256 s) = hashSize.

Definition stored_under_hash (s : DummyBackend) : Prop :=
  ∀ b x, h2nd s !! b = Some x → b = sha256 x.

(** Another value with the same hash is stored already. *)
Definition hash_collision (nd : NodeData) (s : DummyBackend) : Prop :=
  ∃ x, h2nd s !! sha256 (marshal nd) = Some x ∧ x ≠ marshal nd.

Lemma dummy_load_eq s b : LoadNode s b = unmarshal (default "" (h2nd s !! b)).
Proof.
  unfold LoadNode, dummy_backend, load. cbn [h2nd].
  by destruct (unmarshal (default "" (h2nd s !! b))).
Qed.

#[export] Instance dummy_ok : TreeBackendOk DummyBackend.
Proof.
  refine {| backend_inv := stored_under_hash; collision := hash_collision |}.
  - intros s b x Hinv. rewrite dummy_load_eq. destruct (h2nd s !! b) as [y|] eqn:E; simpl.
    + intros _. rewrite (Hinv _ _ E). apply sha256_length.
    + by rewrite unmarshal_empty.
  - intros nd s Hinv Hnc Hchk. eexists _, _. simpl. unfold save. rewrite Hchk. cbn [res_bind].
    split; [done|]. split_and!.
    + intros b x. simpl. rewrite lookup_insert_Some. intros [[<- <-]|[_ Hx]]; [done|]. by apply Hinv.
    + change (LoadNode (mkDummy (<[sha256 (marshal nd):=marshal nd]> (h2nd s)) (loads s) (saves s))
                (sha256 (marshal nd)) = Some nd).
      rewrite dummy_load_eq. cbn [h2nd]. rewrite lookup_insert_eq. apply unmarshal_marshal.
    + apply sha256_length.
    + intros b x.
      change (LoadNode s b = Some x →
              LoadNode (mkDummy (<[sha256 (marshal nd):=marshal nd]> (h2nd s)) (loads s) (saves s)) b = Some x).
      rewrite !dummy_load_eq. cbn [h2nd]. destruct (decide (sha256 (marshal nd) = b)) as [<-|Hne].
      * rewrite lookup_insert_eq. destruct (h2nd s !! sha256 (marshal nd)) as [y|] eqn:E; simpl.
        -- destruct (decide (y = marshal nd)) as [->|Hy]; [done|]. exfalso. apply Hnc. by exists y.
        -- rewrite unmarshal_empty. done.
      * by rewrite lookup_insert_ne.
Defined.

End dummy.
End DummyBackend.
