(* ===== verification/NodeBytes.v ===== *)
(** * Nodes as bytes (src/ibtree/nodedata.go)

    A stored node starts with a byte that says so, and continues with what the generated encoder
    of NodeData makes of it. *)
From stdpp Require Import base list strings.
From Stdlib Require Import ZArith Lia.
From S2P Require Import Prelude OrderedMap Util IBNode.

(** The generated encoder of NodeData; [None] is an error. *)
Class NodeMsgp := {
  node_MarshalMsg : NodeData → string;
  node_UnmarshalMsg : string → option NodeData
}.

Definition BDT_NODE : Z := 7.

Section code.
Context `{NodeMsgp}.

Definition ToBytes (nd : NodeData) : string := String (byte_chr BDT_NODE) (node_MarshalMsg nd).
(** [None] is nil; an empty block panics. *)
Definition NewNodeDataFromBytes (bd : string) : res (option NodeData) :=
  match bd with
  | EmptyString => Panic "index out of range"
  | String c rest =>
      if negb (chr_byte c =? BDT_NODE)%Z then Ok None
      else match node_UnmarshalMsg rest with Some nd => Ok (Some nd) | None => Panic "UnmarshalMsg" end
  end.

(** What the encoder round trips, with the bytes that follow, is read from a block. *)
Lemma NewNodeDataFromBytes_app nd rest :
  node_UnmarshalMsg (node_MarshalMsg nd +:+ rest) = Some nd →
  NewNodeDataFromBytes (ToBytes nd +:+ rest) = Ok (Some nd).
Proof.
  intros E. unfold ToBytes. rewrite str_app_cons. cbn [NewNodeDataFromBytes]. rewrite byte_chr_byte.
  change (_ mod 256 =? BDT_NODE)%Z with true. cbn [negb]. by rewrite E.
Qed.
End code.
