(* ===== verification/IBProps.v ===== *)
(** * The tree as an ordered map: the properties

    The operations of a transaction refine those of [OrderedMap], also in
    sequence; a committed tree loads to the same map; the difference of two trees
    is the difference of their maps. *)
From stdpp Require Import base list sets strings sorting gmap.
From Stdlib Require Import ZArith Lia Ascii.
From S2P Require Import Prelude OrderedMap IBNode IBStack IBTree IBRepr IBStackFacts IBLoc IBSearch IBWalk IBGet IBAdd IBBalance IBIterate IBCommit IBUpdate IBRange IBTrans IBDelta IBSync IBPersist Util.

(** ** Histories of operations *)

Inductive Op : Type :=
| OpSet (k v : string)
| OpDelete (k : string)
| OpDeleteRange (k1 k2 : string).

Definition om_op (o : Op) (l : list kv) : list kv :=
  match o with
  | OpSet k v => om_set k v l
  | OpDelete k => om_delete k l
  | OpDeleteRange k1 k2 => om_delete_range k1 k2 l
  end.

Section history.
Context `{Hsz : MsgpSizes} (t : Tree) (B : Z).

Definition tr_op (o : Op) (fuel : nat) (tr : Transaction) : res Transaction :=
  match o with
  | OpSet k v => tr_Set t fuel k v tr
  | OpDelete k => tr_Delete t fuel k tr
  | OpDeleteRange k1 k2 => tr_DeleteRange t fuel k1 k2 tr
  end.

(** The height of a tree, along its first entries. *)
Fixpoint tree_height (fuel : nat) (n : Node) : res nat :=
  match fuel with
  | O => NoFuel
  | S fuel' =>
      if Leafy n then Ok 0
      else
        match Children n with
        | [] => Panic "interior node without children"
        | c :: _ =>
            let! m := resolve t c in
            let! m := deref m in
            let! h := tree_height fuel' m in
            Ok (S h)
        end
  end.

Definition kv_okb (p : kv) : bool :=
  negb (keqb p.1 "") && (entry_size p.1 p.2 <=? B)%Z && (entry_size p.1 (placeholderValue t) <=? B)%Z.

(** An operation the tree admits at height [h] with content [l]. *)
Definition op_okb (o : Op) (h : nat) (l : list kv) : bool :=
  match o with
  | OpSet k v => kv_okb (k, v) && (S h <? maximumTreeDepth)
  | OpDelete k => bool_decide (om_get k l ≠ None) && ((h =? 0) || negb (bool_decide (om_delete k l = [])))
  | OpDeleteRange k1 k2 =>
      negb (kltb k2 k1) && ((h =? 0) || negb (bool_decide (om_delete_range k1 k2 l = [])))
  end.

Fixpoint run (fuel : nat) (os : list Op) (tr : Transaction) : res Transaction :=
  match os with
  | [] => Ok tr
  | o :: os' => let! tr := tr_op o fuel tr in run fuel os' tr
  end.

(** Every operation of the history is admitted in the state it meets. *)
Fixpoint history_ok (fuel : nat) (os : list Op) (tr : Transaction) (l : list kv) : bool :=
  match os with
  | [] => true
  | o :: os' =>
      match Root tr with
      | Ok root =>
          match tree_height depth_fuel root with
          | Ok h =>
              op_okb o h l && (commit_fuel t (length (om_op o l)) <=? fuel) &&
              match tr_op o fuel tr with Ok tr' => history_ok fuel os' tr' (om_op o l) | _ => true end
          | _ => false
          end
      | _ => false
      end
  end.

Lemma kv_okb_true p : kv_okb p = true ↔ kv_ok t B p.
Proof.
  unfold kv_okb, kv_ok. rewrite !andb_true_iff, negb_true_iff, keqb_neq, !Z.leb_le. tauto.
Qed.

Lemma tree_height_nrepr fuel h n l :
  nrepr t B h n l → (h = 0 ∨ l ≠ []) → h < fuel → tree_height fuel n = Ok h.
Proof.
  revert h n l. induction fuel as [|fuel IH]; intros h n l Hn Hne Hf; [lia|]. cbn [tree_height].
  rewrite (proj1 Hn). destruct h as [|h]; cbn [Nat.eqb]; [done|]. destruct Hne as [?|Hne]; [done|].
  destruct Hn as (_ & ls & HF & ->). destruct HF as [|c lc cl ls Hc HF]; [done|].
  pose proof (erepr_not_nil _ _ _ _ _ Hc).
  apply erepr_S in Hc as (_ & _ & m & -> & Hm). cbn [res_bind deref].
  rewrite (IH h m lc Hm); [done|by right|lia].
Qed.

Lemma negb_nil_true {A : Type} `{EqDecision A} (l : list A) :
  negb (bool_decide (l = [])) = true ↔ l ≠ [].
Proof. rewrite negb_true_iff, bool_decide_eq_false. done. Qed.

Context `{!TreeOk t B}.

Lemma tr_op_refines o fuel tr h l :
  TrRepr t B tr h l → op_okb o h l = true → commit_fuel t (length (om_op o l)) ≤ fuel →
  ∃ tr' h', tr_op o fuel tr = Ok tr' ∧ TrRepr t B tr' h' (om_op o l).
Proof.
  intros HR Hok Hf. destruct o as [k v|k|k1 k2]; simpl in *.
  - apply andb_true_iff in Hok as [Hkv%kv_okb_true Hd%Nat.ltb_lt].
    destruct (tr_Set_repr t B fuel k v tr h l HR Hkv Hd Hf) as (tr' & h' & H1 & H2 & _). eauto.
  - apply andb_true_iff in Hok as [Hget Hne]. apply bool_decide_eq_true in Hget.
    destruct (om_get k l) as [v|] eqn:E; [|done].
    rewrite orb_true_iff, Nat.eqb_eq, negb_nil_true in Hne.
    destruct (tr_Delete_repr t B fuel k v tr h l HR E Hne Hf) as (tr' & h' & H1 & H2 & _). eauto.
  - apply andb_true_iff in Hok as [Hk%negb_true_iff Hne].
    rewrite orb_true_iff, Nat.eqb_eq, negb_nil_true in Hne.
    destruct (tr_DeleteRange_repr t B fuel k1 k2 tr h l HR Hk Hne Hf) as (tr' & h' & H1 & H2 & _). eauto.
Qed.

Lemma run_refines_lemma fuel os tr h l :
  TrRepr t B tr h l → history_ok fuel os tr l = true →
  ∃ tr' h', run fuel os tr = Ok tr' ∧ TrRepr t B tr' h' (fold_left (λ l o, om_op o l) os l).
Proof.
  revert tr h l. induction os as [|o os IH]; intros tr h l HR Hok; [by exists tr, h|].
  cbn [history_ok run fold_left] in *. pose proof HR as [root HRest].
  rewrite (TrRepr_Root _ _ _ _ _ _ HRest) in Hok.
  rewrite (tree_height_nrepr depth_fuel h root l) in Hok;
    [|by eapply Rest_nrepr|apply HRest|].
  2:{ destruct HRest as [[i HL] _]. pose proof (loc_depth _ _ _ _ _ _ _ _ _ _ HL).
      unfold depth_fuel. simpl in *. lia. }
  rewrite !andb_true_iff in Hok. destruct Hok as [[Hop Hf%Nat.leb_le] Hrest].
  destruct (tr_op_refines o fuel tr h l HR Hop Hf) as (tr' & h' & E & HR').
  rewrite E in Hrest |- *. cbn [res_bind]. by eapply IH.
Qed.

End history.

(** ** A tree of height one, for the examples *)

Module DemoTr.
Import Demo.
Definition fuel : nat := commit_fuel Demo.tree 12.
Definition val : string := string_repeat "v" 60.
Definition start : Transaction :=
  match NewTransaction (Some NewRoot) with Ok tr => tr | _ => mkTransaction emptyStack end.
Definition keys : list string := ["a"; "b"; "c"; "d"; "e"; "f"; "g"; "h"; "i"; "j"].
Definition sets : list Op := map (λ k, OpSet k val) keys.
Definition content : list kv := map (λ k, (k, val)) keys.
Definition full : Transaction :=
  match run Demo.tree fuel sets start with Ok tr => tr | _ => start end.

Lemma start_repr : TrRepr Demo.tree Demo.bound start 0 [].
Proof.
  destruct (NewTransaction_repr Demo.tree Demo.bound NewRoot 0 []) as (tr & H & HR);
    [apply NewRoot_nrepr|apply kvs_ok_nil|by left|unfold maximumTreeDepth; lia|].
  injection H as <-. exact HR.
Qed.

Lemma TrRepr_height tr h l root k :
  TrRepr Demo.tree Demo.bound tr h l → Root tr = Ok root →
  tree_height Demo.tree depth_fuel root = Ok k → h = k.
Proof.
  intros [r HR] Hroot Hk. rewrite (TrRepr_Root _ _ _ _ _ _ HR) in Hroot. injection Hroot as ->.
  rewrite (tree_height_nrepr Demo.tree Demo.bound depth_fuel h root l) in Hk;
    [by injection Hk|by eapply Rest_nrepr|apply HR|].
  destruct HR as [[i HL] _]. pose proof (loc_depth _ _ _ _ _ _ _ _ _ _ HL).
  unfold depth_fuel. simpl in *. lia.
Qed.

Lemma full_repr : TrRepr Demo.tree Demo.bound full 1 content.
Proof.
  destruct (run_refines_lemma Demo.tree Demo.bound fuel sets start 0 []) as (tr & h & Hrun & HR).
  - apply start_repr.
  - vm_compute. reflexivity.
  - assert (full = tr) as <- by (unfold full; by rewrite Hrun).
    assert (fold_left (λ l o, om_op o l) sets [] = content) as E by (vm_compute; reflexivity).
    rewrite E in HR.
    assert (∃ root, Root full = Ok root ∧ tree_height Demo.tree depth_fuel root = Ok 1) as (root & H1 & H2).
    { destruct (Root full) as [root| |] eqn:Er.
      - exists root. split; [done|]. revert Er. vm_compute. by intros [= <-].
      - revert Er. by vm_compute.
      - revert Er. by vm_compute. }
    by rewrite (TrRepr_height _ _ _ _ _ HR H1 H2) in HR.
Qed.
End DemoTr.

(** ** The structure check *)

(** [m] is [n] or an in-memory node below it. *)
Inductive in_memory (m : Node) : Node → Prop :=
| im_here : in_memory m m
| im_below l cl b k v sub : mkChild k v (Some sub) ∈ cl → in_memory m sub → in_memory m (mkNode l cl b).

(** What the check is for, without its loop: no empty keys, and strictly increasing ones. *)
Definition keys_ordered (n : Node) : Prop :=
  Forall (λ c, cKey c ≠ "") (Children n) ∧ StronglySorted (λ a b, klt (cKey a) (cKey b)) (Children n).
Definition well_keyed (n : Node) : Prop := ∀ m, in_memory m n → keys_ordered m.

Lemma CheckNodeStructure_exact n : CheckNodeStructure n = Ok tt ↔ keys_ordered n.
Proof.
  unfold CheckNodeStructure, keys_ordered. split.
  - by intros (? & ? & _)%CheckNodeStructure_loop_inv.
  - intros []. by apply CheckNodeStructure_loop_Ok.
Qed.
Lemma well_keyed_node l cl b :
  well_keyed (mkNode l cl b) ↔ Forall (λ c, ∀ m, childNode c = Some m → well_keyed m) cl ∧ keys_ordered (mkNode l cl b).
Proof.
  rewrite Forall_forall. split.
  - intros Hw. split; [|apply Hw; constructor]. intros [k v sub] Hc m [= ->] m' Hm. apply Hw. by eapply im_below.
  - intros [Hs Hk] m Hm. inversion Hm as [|? ? ? k v sub Hin Hm']; subst; [done|]. by eapply (Hs _ Hin).
Qed.
Lemma checkTreeStructure_exact n : checkTreeStructure n = Ok tt ↔ well_keyed n.
Proof.
  apply (node_ind' (λ n, checkTreeStructure n = Ok tt ↔ well_keyed n)
           (λ c, ∀ m, childNode c = Some m → checkTreeStructure m = Ok tt ↔ well_keyed m)); [|done|by intros k v m Hm ? [= <-]].
  intros l cl b HQ. rewrite well_keyed_node, <- CheckNodeStructure_exact. unfold checkTreeStructure. cbn [iterateLeafFirst].
  set (go := fix go (cl : list NodeDataChild) (s : unit) {struct cl} : res unit := _).
  assert (go cl tt = Ok tt ↔ Forall (λ c, ∀ m, childNode c = Some m → well_keyed m) cl) as Hgo.
  { induction HQ as [|[k v [m|]] cl Hc _ IH]; [done| |]; rewrite Forall_cons; cbn [go childNode].
    - specialize (Hc m eq_refl). unfold checkTreeStructure in Hc.
      destruct (iterateLeafFirst _ m tt) as [[]| |]; cbn [res_bind]; [rewrite IH|split; [done|]|split; [done|]]; naive_solver.
    - cbn [res_bind]. rewrite IH. naive_solver. }
  destruct (go cl tt) as [[]| |]; cbn [res_bind]; naive_solver.
Qed.

(** ** Properties *)

Section props.
Context `{Hsz : MsgpSizes} (t : Tree) (B : Z) `{!TreeOk t B}.

(** C1: a history of Set, Delete and DeleteRange calls, each admitted in the state
    it meets, runs without a panic and leaves the transaction holding exactly the
    list that the ordered-map operations give, whatever splits, merges, moves and
    root changes happen on the way. *)
Theorem run_refines fuel os tr h l :
  TrRepr t B tr h l → history_ok t B fuel os tr l = true →
  ∃ tr' h', run t fuel os tr = Ok tr' ∧ TrRepr t B tr' h' (fold_left (λ l o, om_op o l) os l).
Proof. apply run_refines_lemma. done. Qed.

(** Transaction.Set inserts or replaces: it returns (the rebalancing loop ends
    within [commit_fuel] turns), and the transaction holds the old list with the
    key bound to the value; the tree grows by one level at most. *)
Theorem tr_Set_refines fuel key value tr h l :
  TrRepr t B tr h l → kv_ok t B (key, value) → S h < maximumTreeDepth →
  commit_fuel t (length (om_set key value l)) ≤ fuel →
  ∃ tr' h', tr_Set t fuel key value tr = Ok tr' ∧
    TrRepr t B tr' h' (om_set key value l) ∧ h' ≤ S h.
Proof. by apply tr_Set_repr. Qed.



(** C29: Transaction.Get, NextKey and PrevKey answer the lookup, the least greater
    key and the greatest lesser key of the list, and leave the content as it is. *)
Theorem tr_lookups_refine key tr h l :
  TrRepr t B tr h l →
  (∃ tr', tr_Get t key tr = Ok (om_get key l, tr') ∧ TrRepr t B tr' h l) ∧
  (∃ tr', tr_NextKey t key tr = Ok (om_next key l, tr') ∧ TrRepr t B tr' h l) ∧
  (∃ tr', tr_PrevKey t key tr = Ok (om_prev key l, tr') ∧ TrRepr t B tr' h l).
Proof.
  intros HR. split_and!; [by apply tr_Get_repr|by apply tr_NextKey_repr|by apply tr_PrevKey_repr].
Qed.

(** Insert/lookup round trip in the code itself: after Set, Get returns the
    value for that key and what it returned before for every other key. *)
Theorem tr_Set_Get fuel key value key' tr h l :
  TrRepr t B tr h l → kv_ok t B (key, value) → S h < maximumTreeDepth →
  commit_fuel t (length (om_set key value l)) ≤ fuel →
  ∃ tr1 tr2 tr3, tr_Set t fuel key value tr = Ok tr1 ∧
    tr_Get t key tr1 = Ok (Some value, tr2) ∧
    (key ≠ key' → ∃ v tr0, tr_Get t key' tr = Ok (v, tr0) ∧ tr_Get t key' tr1 = Ok (v, tr3)).
Proof.
  intros HR Hkv Hd Hf.
  destruct (tr_Set_repr t B fuel key value tr h l HR Hkv Hd Hf) as (tr1 & h1 & H1 & HR1 & _).
  destruct (tr_Get_repr t B key tr1 h1 _ HR1) as (tr2 & H2 & _).
  destruct (tr_Get_repr t B key' tr1 h1 _ HR1) as (tr3 & H3 & _).
  destruct (tr_Get_repr t B key' tr h l HR) as (tr0 & H0 & _).
  exists tr1, tr2, tr3. split_and!; [done|by rewrite om_get_set_eq in H2|].
  intros Hne. exists (om_get key' l), tr0. by rewrite om_get_set_ne in H3.
Qed.

(** C31: the code's structure check accepts what its own operations build, and nothing else.  The tree after a history
    of Set, Delete and DeleteRange calls, each admitted in the state it meets, passes [checkTreeStructure]; and for
    every tree whatever, the check passes exactly if each node in memory, at every depth, has keys that are not empty
    and strictly increase. *)
Theorem tree_structure_ok fuel os tr h l :
  TrRepr t B tr h l → history_ok t B fuel os tr l = true →
  (∃ tr' root, run t fuel os tr = Ok tr' ∧ Root tr' = Ok root ∧ checkTreeStructure root = Ok tt) ∧
  ∀ n, checkTreeStructure n = Ok tt ↔ well_keyed n.
Proof.
  intros HR Hh. split; [|apply checkTreeStructure_exact].
  destruct (run_refines_lemma t B fuel os tr h l) as (tr' & h' & Hrun & r & HR'); [done..|].
  exists tr', r. split_and!; [done|by apply (TrRepr_Root _ _ _ _ _ _ HR')|].
  eapply (iterate_check_node t B); [by eapply Rest_nrepr|by eapply Rest_kvs_ok].
Qed.

(** [IterateDelta] between the roots of two transactions. *)
Lemma IterateDelta_repr ptr_eq fuel h h0 self original l l0 :
  (∀ m m', ptr_eq m m' = true → m = m') →
  TrRepr t B (mkTransaction (root_stack self)) h l →
  TrRepr t B (mkTransaction (root_stack original)) h0 l0 →
  delta_fuel l0 l ≤ fuel →
  ∃ evs, IterateDelta t ptr_eq fuel self original = Ok evs ∧ map kv_event evs = om_diff l0 l.
Proof.
  intros Hptr [r HR] [r0 HR0] Hf.
  pose proof (Rest_node _ _ _ _ _ _ HR) as Hn. pose proof (Rest_node _ _ _ _ _ _ HR0) as Hn0.
  injection Hn as <-. injection Hn0 as <-.
  destruct HR as [[i HL] _], HR0 as [[i0 HL0] _].
  pose proof (Loc_index_eq _ _ HL) as Hi. pose proof (Loc_index_eq _ _ HL0) as Hi0.
  injection Hi as <-. injection Hi0 as <-.
  eapply IterateDelta_spec; [done|apply HL|apply HL0|done|done|done].
Qed.

(** C22: IterateDelta reports exactly the entries that were added, removed or
    changed between two trees, in key order, within [delta_fuel] turns; subtrees
    with equal pointers or ids are skipped without changing the outcome. *)
Theorem IterateDelta_diff ptr_eq fuel h h0 self original l l0 :
  (∀ m m', ptr_eq m m' = true → m = m') →
  TrRepr t B (mkTransaction (root_stack self)) h l →
  TrRepr t B (mkTransaction (root_stack original)) h0 l0 →
  delta_fuel l0 l ≤ fuel →
  ∃ evs, IterateDelta t ptr_eq fuel self original = Ok evs ∧ map kv_event evs = om_diff l0 l.
Proof. apply IterateDelta_repr. Qed.

End props.

(** Applying the differences that IterateDelta reports to the original content
    gives the new content. *)
Theorem om_diff_applies l0 l :
  sorted_kvs l0 → sorted_kvs l → apply_delta (om_diff l0 l) l0 = l.
Proof. intros H0 H1. by apply (om_diff_apply [] l0 l). Qed.

(** C5: committing is a round trip: the id CommitTo returns loads, with the
    backend state after the commit, a root that holds the same list, also in a new
    transaction; what was stored before stays readable. *)
Theorem commit_load_roundtrip {S : Type} `{TreeBackendOk S} `{Hsz : MsgpSizes} (t : Tree) (B : Z)
    (tr : Transaction) (s : S) h l :
  String.length (placeholderValue t) = hashSize →
  backend_inv s → TrRepr (with_backend t (LoadNode s)) B tr h l → Snd (LoadNode s) (stack tr) →
  (∀ root, Root tr = Ok root → no_collisions (commit_saves root s)) →
  ∃ n bid s' tr', tr_CommitTo tr s = Ok (n, bid, s') ∧ backend_inv s' ∧
    LoadRoot (with_backend t (LoadNode s')) bid = Ok (Some n) ∧
    NewTransaction (Some n) = Ok tr' ∧ TrRepr (with_backend t (LoadNode s')) B tr' h l ∧
    Snd (LoadNode s') (stack tr') ∧
    ∀ b x, LoadNode s b = Some x → LoadNode s' b = Some x.
Proof.
  intros Hph Hinv [root HR] Hsnd Hnc.
  pose proof (Rest_node _ _ _ _ _ _ HR) as Hroot.
  destruct (CommitTo_LoadRoot t B Hph root s h l Hinv) as (n & bid & s' & Hc & Hinv' & Hld & Hn & Hsy & Hmono).
  - by eapply Rest_nrepr.
  - exact (Rest_kvs_ok _ _ _ _ _ _ HR).
  - by eapply Snd_node.
  - by apply Hnc.
  - destruct (NewTransaction_repr (with_backend t (LoadNode s')) B n h l) as (tr' & Htr & HR').
    + done.
    + exact (Rest_kvs_ok _ _ _ _ _ _ HR).
    + apply HR.
    + destruct HR as [[i HL] _]. pose proof (loc_depth _ _ _ _ _ _ _ _ _ _ HL). simpl in *. lia.
    + exists n, bid, s', tr'. unfold tr_CommitTo, Root. rewrite Hroot. cbn [res_bind].
      split_and!; try done. injection Htr as <-. apply Forall_forall. simpl.
      intros p [->|Hp]%elem_of_cons m; [by intros [= <-]|].
      intros ->. rewrite !elem_of_cons in Hp. set_solver.
Qed.

(** C30: every operation of a transaction keeps the invariant that a node with a
    block id is the stored node of that id, whatever the state and the outcome. *)
Theorem operations_keep_synced `{Hsz : MsgpSizes} (t : Tree) load o fuel tr tr' :
  (backend t = Some load ∨ backend t = None) → Snd load (stack tr) →
  tr_op t o fuel tr = Ok tr' → Snd load (stack tr').
Proof.
  intros Hb HS. destruct o as [k v|k|k1 k2]; simpl; unfold tr_Set, tr_Delete, tr_DeleteRange;
    intros Hop; apply res_bind_Ok in Hop as (root & Hroot & Hop);
    apply res_bind_Ok in Hop as (r & Hr & [= <-]); pose proof (Snd_node _ _ _ HS Hroot); simpl.
  - eapply Snd_Node_Set; eauto.
  - eapply Snd_Node_Delete; eauto.
  - eapply Snd_Node_DeleteRange; eauto.
Qed.

(** ** Examples: the hypotheses of the properties hold *)

Module PropsWitness.
Import Demo DemoTr.

Lemma val_ok k : String.length k ≤ 100 → k ≠ "" → kv_ok tree bound (k, val).
Proof.
  intros Hk Hne. unfold kv_ok, entry_size, slen, bound. simpl fst; simpl snd.
  assert (String.length val = 60) as -> by (vm_compute; reflexivity).
  assert (String.length (placeholderValue tree) = 32) as -> by (vm_compute; reflexivity).
  simpl StringPrefixSize. split_and!; [done|lia|lia].
Qed.

Lemma run_refines_witness :
  ∃ tr' h', run tree fuel (sets ++ [OpDelete "c"; OpDeleteRange "e" "g"]) start = Ok tr' ∧
    TrRepr tree bound tr' h' (fold_left (λ l o, om_op o l)
      (sets ++ [OpDelete "c"; OpDeleteRange "e" "g"]) []).
Proof. apply (run_refines tree bound fuel _ start 0 [] start_repr). vm_compute. reflexivity. Defined.

Lemma tr_Set_refines_witness :
  ∃ tr' h', tr_Set tree fuel "k" val full = Ok tr' ∧
    TrRepr tree bound tr' h' (om_set "k" val content) ∧ h' ≤ 2.
Proof.
  apply (tr_Set_refines tree bound fuel "k" val full 1 content full_repr).
  - apply val_ok; [simpl; lia|done].
  - unfold maximumTreeDepth. lia.
  - apply Nat.leb_le. vm_compute. reflexivity.
Defined.



Lemma tr_lookups_refine_witness :
  (∃ tr', tr_Get tree "c" full = Ok (Some val, tr') ∧ TrRepr tree bound tr' 1 content) ∧
  (∃ tr', tr_NextKey tree "c" full = Ok (Some "d", tr') ∧ TrRepr tree bound tr' 1 content) ∧
  (∃ tr', tr_PrevKey tree "a" full = Ok (None, tr') ∧ TrRepr tree bound tr' 1 content).
Proof.
  pose proof (tr_lookups_refine tree bound "c" full 1 content full_repr) as (H1 & H2 & _).
  pose proof (tr_lookups_refine tree bound "a" full 1 content full_repr) as (_ & _ & H3).
  split; [exact H1|]. split; [exact H2|exact H3].
Defined.

Lemma tr_Set_Get_witness :
  ∃ tr1 tr2 tr3, tr_Set tree fuel "k" val full = Ok tr1 ∧
    tr_Get tree "k" tr1 = Ok (Some val, tr2) ∧
    ("k" ≠ "b" → ∃ v tr0, tr_Get tree "b" full = Ok (v, tr0) ∧ tr_Get tree "b" tr1 = Ok (v, tr3)).
Proof.
  apply (tr_Set_Get tree bound fuel "k" val "b" full 1 content full_repr).
  - apply val_ok; [simpl; lia|done].
  - unfold maximumTreeDepth. lia.
  - apply Nat.leb_le. vm_compute. reflexivity.
Defined.

Lemma tree_structure_ok_witness :
  (∃ tr' root, run tree fuel (sets ++ [OpDelete "c"; OpDeleteRange "e" "g"]) start = Ok tr' ∧ Root tr' = Ok root ∧
     checkTreeStructure root = Ok tt) ∧
  ∀ n, checkTreeStructure n = Ok tt ↔ well_keyed n.
Proof. apply (tree_structure_ok tree bound fuel _ start 0 [] start_repr). vm_compute. reflexivity. Defined.

Lemma leaf_repr (t : Tree) k v :
  kv_ok t bound (k, v) →
  TrRepr t bound (mkTransaction (root_stack (mkNode true [mkChild k v None] None))) 0 [(k, v)].
Proof.
  intros Hkv. eexists. apply start_Rest; [|split; [by repeat constructor|by constructor]|by left|unfold maximumTreeDepth; lia].
  apply (nrepr_mk t bound 0 true [mkChild k v None] None [[(k, v)]]); [done|].
  constructor; [by apply erepr_leaf|constructor].
Qed.

Lemma IterateDelta_diff_witness :
  ∃ evs, IterateDelta tree node_eqb 200 (mkNode true [mkChild "a" val None] None)
           (mkNode true [mkChild "b" val None] None) = Ok evs ∧
    map kv_event evs = om_diff [("b", val)] [("a", val)].
Proof.
  apply (IterateDelta_diff tree bound node_eqb 200 0 0).
  - intros m m'. apply node_eqb_eq.
  - apply leaf_repr, val_ok; [simpl; lia|done].
  - apply leaf_repr, val_ok; [simpl; lia|done].
  - apply Nat.leb_le. vm_compute. reflexivity.
Defined.

Lemma om_diff_applies_witness :
  apply_delta (om_diff [("a", "1"); ("b", "2")] [("b", "3"); ("c", "4")]) [("a", "1"); ("b", "2")]
  = [("b", "3"); ("c", "4")].
Proof.
  apply om_diff_applies; repeat constructor.
Defined.

(** A codec and a hash for the in-memory backend. *)
Definition demo_marshal (nd : NodeData) : string :=
  pos_string (encode (nd_Leafy nd, nd_Children nd)).
Definition demo_unmarshal (s : string) : option NodeData :=
  p ← string_pos s; x ← decode p; Some (mkNodeData x.1 x.2).
Definition demo_hash (s : string) : string := string_repeat "#" 32.

Lemma demo_roundtrip nd : demo_unmarshal (demo_marshal nd) = Some nd.
Proof.
  unfold demo_unmarshal, demo_marshal. rewrite string_pos_string. simpl.
  rewrite decode_encode. by destruct nd.
Qed.

#[local] Instance demo_be : TreeBackend DummyBackend.DummyBackend :=
  DummyBackend.dummy_backend demo_marshal demo_unmarshal demo_hash.
#[local] Instance demo_be_ok : TreeBackendOk DummyBackend.DummyBackend :=
  DummyBackend.dummy_ok demo_marshal demo_unmarshal demo_hash demo_roundtrip eq_refl (λ _, eq_refl).

Lemma commit_load_roundtrip_witness :
  ∃ n bid s' tr', tr_CommitTo (mkTransaction (root_stack (mkNode true [mkChild "a" val None] None)))
                    DummyBackend.Init = Ok (n, bid, s') ∧ backend_inv s' ∧
    LoadRoot (with_backend tree (LoadNode s')) bid = Ok (Some n) ∧
    NewTransaction (Some n) = Ok tr' ∧
    TrRepr (with_backend tree (LoadNode s')) bound tr' 0 [("a", val)] ∧
    Snd (LoadNode s') (stack tr') ∧
    ∀ b x, LoadNode DummyBackend.Init b = Some x → LoadNode s' b = Some x.
Proof.
  apply (commit_load_roundtrip tree bound).
  - vm_compute. reflexivity.
  - intros b x Hb. discriminate Hb.
  - apply leaf_repr. apply (val_ok "a"); [simpl; lia|done].
  - apply Forall_forall. simpl. intros p [->|Hp]%elem_of_cons m.
    + intros [= <-]. apply synced_mk. repeat constructor. by intros m.
    + intros ->. rewrite !elem_of_cons in Hp. set_solver.
  - intros root [= <-]. repeat constructor. intros (x & Hx & _). discriminate Hx.
Defined.

Lemma operations_keep_synced_witness :
  ∃ tr', tr_op tree (OpSet "a" val) fuel start = Ok tr' ∧ Snd (λ _, None) (stack tr').
Proof.
  destruct (tr_op tree (OpSet "a" val) fuel start) as [tr'| |] eqn:E.
  - exists tr'. split; [reflexivity|].
    apply (operations_keep_synced tree (λ _, None) (OpSet "a" val) fuel start tr'); [by right| |exact E].
    apply Forall_forall. simpl. intros p [->|Hp]%elem_of_cons m.
    + intros [= <-]. apply synced_mk. constructor.
    + intros ->. rewrite !elem_of_cons in Hp. set_solver.
  - exfalso. revert E. vm_compute. discriminate.
  - exfalso. revert E. vm_compute. discriminate.
Defined.

End PropsWitness.

(** * Inputs outside the conditions of the properties

    The conditions of [IBTrans] are needed: runs of the code that violate one of
    them and panic. *)

Module IBFindings.
Import Demo DemoTr.

(** DeleteRange over all keys of a tree with an interior root leaves an interior
    root without children (leaves that became empty are not counted as small, so
    that commit returns early); the next Get panics. *)
Theorem DeleteRange_everything_breaks :
  ∃ tr', tr_DeleteRange tree fuel "a" "j" full = Ok tr' ∧
    tr_Get tree "a" tr' = Panic "nil child node".
Proof. eexists. split; vm_compute; reflexivity. Qed.

(** After a DeleteRange that leaves one entry below an interior root, deleting
    that entry panics: the rebalancing pass dereferences the missing child. *)
Theorem Delete_last_entry_panics :
  ∃ tr', tr_DeleteRange tree fuel "b" "j" full = Ok tr' ∧
    fst <$> (match tr_Get tree "a" tr' with Ok r => Some r | _ => None end) = Some (Some val) ∧
    tr_Delete tree fuel "a" tr' = Panic "invalid memory address or nil pointer dereference".
Proof. eexists. split; [vm_compute; reflexivity|]. split; vm_compute; reflexivity. Qed.

Definition big : string := string_repeat "v" 300.

(** An entry of more than half a node: moveFrom empties the left sibling, whose
    entry disappears, and the index of the node itself is off by one. *)
Theorem moveFrom_single_entry_panics :
  is_Panic (let! tr := tr_Set tree fuel "a" big start in
            let! tr := tr_Set tree fuel "b" big tr in
            let! tr := tr_Set tree fuel "c" "" tr in
            tr_Delete tree fuel "b" tr) = true.
Proof. vm_compute. reflexivity. Qed.

(** An entry larger than a node: addChildAt splits the one entry into an empty
    half and takes the first key of the empty half. *)
Theorem addChildAt_oversized_panics :
  tr_Set tree fuel "a" (string_repeat "v" 600) start = Panic "index out of range".
Proof. vm_compute. reflexivity. Qed.
End IBFindings.
