(* ===== verification/BlockKey.v ===== *)
(** * Keys of the file system (src/fs/blockkey.go, src/fs/const.go, src/fs/fs_greenpack.go)

    Every datum of the file system lives in one tree, under a key made of the
    inode number (8 bytes, big endian), a subtype byte and subtype data.  The
    theorems state that the parts can be read back and that the byte order of keys
    is the lexicographic order of the parts, which the range operations of the
    file system (an inode, the extents past the end of a file) rely on. *)
From stdpp Require Import base list sets strings sorting.
From Stdlib Require Import ZArith Lia Ascii.
From S2P Require Import Prelude OrderedMap Util.

(** ** Constants *)

Definition filenameHashSize : nat := 4.
Definition EmbeddedSize : Z := 1024.
Definition dataExtentSize : Z := 65536.
Definition dataHeaderMaximumSize : Z := 100.
Definition inodeDataLength : nat := 8.
Definition blockSubTypeOffset : nat := inodeDataLength.

Definition BST_NONE : Z := 0.
Definition BST_META : Z := 1.
Definition BST_XATTR : Z := 2.
Definition BST_DIR_NAME2INODE : Z := 16.
Definition BST_FILE_INODEFILENAME : Z := 32.
Definition BST_FILE_OFFSET2EXTENT : Z := 33.
Definition BST_LAST : Z := 47.
Definition BST_NAMEHASH_NAME_BLOCK : Z := 48.

(** ** [hash/fnv]: FNV-1 of the Go standard library *)

Fixpoint fnv_loop (prime modulus h : Z) (data : string) : Z :=
  match data with
  | EmptyString => h
  | String c data' => fnv_loop prime modulus (Z.lxor ((h * prime) mod modulus) (chr_byte c)) data'
  end.
Definition fnv_Sum32 (data : string) : Z := fnv_loop 16777619 4294967296 2166136261 data.
Definition fnv_Sum64 (data : string) : Z :=
  fnv_loop 1099511628211 18446744073709551616 14695981039346656037 data.

(** ** Keys *)

Definition BlockKey : Type := string.

Definition SubType (self : BlockKey) : Z :=
  match String.get blockSubTypeOffset self with
  | None => 0
  | Some c => chr_byte c
  end.

Definition Ino (self : BlockKey) : res Z :=
  if String.length self <? inodeDataLength then Ok 0%Z
  else
    let! b := str_to self inodeDataLength in
    be_read 8 b.

Definition SubTypeData (self : BlockKey) : res string := str_from self (inodeDataLength + 1).

Definition Filename (self : BlockKey) : res string :=
  if (SubType self =? BST_DIR_NAME2INODE)%Z then
    let! d := SubTypeData self in
    str_from d filenameHashSize
  else Ok "".

Definition NewBlockKey (ino : Z) (st : Z) (data : string) : BlockKey :=
  ConcatBytes [Uint64Bytes ino; String (byte_chr st) ""; data].

Definition NewBlockKeyDirFilename (ino : Z) (filename : string) : BlockKey :=
  let n := fnv_Sum32 filename in
  let b0 := Uint32Bytes n in
  NewBlockKey ino BST_DIR_NAME2INODE (ConcatBytes [b0; filename]).

Definition NewBlockKeyReverseDirFilename (ino dirIno : Z) (filename : string) : BlockKey :=
  NewBlockKey ino BST_FILE_INODEFILENAME (ConcatBytes [Uint64Bytes dirIno; filename]).

Definition NewBlockKeyOffset (ino offset : Z) : BlockKey :=
  NewBlockKey ino BST_FILE_OFFSET2EXTENT (Uint64Bytes (offset / dataExtentSize)).

Definition NewBlockKeyNameBlock (name id : string) : BlockKey :=
  NewBlockKey (fnv_Sum64 name) BST_NAMEHASH_NAME_BLOCK (name +:+ id).

Definition NewBlockKeyNameEnd (name : string) : BlockKey :=
  NewBlockKey (fnv_Sum64 name) BST_NAMEHASH_NAME_BLOCK
    (ConcatBytes [name; string_repeat (String (byte_chr 255) "") 33]).

(** ** The parts of a key *)

Lemma NewBlockKey_eq ino st data :
  NewBlockKey ino st data = be_bytes 8 ino +:+ String (byte_chr st) data.
Proof. unfold NewBlockKey, ConcatBytes, Uint64Bytes. cbn [foldr]. by rewrite str_app_nil. Qed.

Lemma get_app_length (a b : string) : String.get (String.length a) (a +:+ b) = String.get 0 b.
Proof. induction a as [|x a IH]; [done|]. rewrite str_app_cons. simpl. done. Qed.

Lemma NewBlockKey_SubType ino st data :
  (0 ≤ st < 256)%Z → SubType (NewBlockKey ino st data) = st.
Proof.
  intros Hst. unfold SubType. rewrite NewBlockKey_eq.
  replace blockSubTypeOffset with (String.length (be_bytes 8 ino)) by done.
  rewrite get_app_length. cbn [String.get]. rewrite byte_chr_byte. by apply Z.mod_small.
Qed.

Lemma NewBlockKey_length ino st data :
  String.length (NewBlockKey ino st data) = 9 + String.length data.
Proof. rewrite NewBlockKey_eq, str_length_app, be_bytes_length. simpl. lia. Qed.

Lemma NewBlockKey_Ino ino st data : in_uint64 ino → Ino (NewBlockKey ino st data) = Ok ino.
Proof.
  intros Hi. unfold Ino. rewrite NewBlockKey_length.
  change (9 + String.length data <? inodeDataLength) with false. cbv iota.
  rewrite NewBlockKey_eq. replace inodeDataLength with (String.length (be_bytes 8 ino)) by done.
  rewrite str_to_app. cbn [res_bind]. rewrite <- (str_app_nil (be_bytes 8 ino)).
  by apply be_read_bytes.
Qed.

Lemma NewBlockKey_SubTypeData ino st data : SubTypeData (NewBlockKey ino st data) = Ok data.
Proof.
  unfold SubTypeData. rewrite NewBlockKey_eq.
  change (String (byte_chr st) data) with (String (byte_chr st) "" +:+ data).
  rewrite <- str_app_assoc.
  replace (inodeDataLength + 1) with (String.length (be_bytes 8 ino +:+ String (byte_chr st) ""))
    by (rewrite str_length_app, be_bytes_length; done).
  apply str_from_app.
Qed.

(** The order of keys. *)
Lemma NewBlockKey_ltb ino ino' st st' data data' :
  in_uint64 ino → in_uint64 ino' → (0 ≤ st < 256)%Z → (0 ≤ st' < 256)%Z →
  kltb (NewBlockKey ino st data) (NewBlockKey ino' st' data') =
  (ino <? ino')%Z || ((ino =? ino')%Z && ((st <? st')%Z || ((st =? st')%Z && kltb data data'))).
Proof.
  intros Hi Hi' Hs Hs'. rewrite !NewBlockKey_eq, be_bytes_order by done.
  by rewrite kltb_cons, !byte_chr_byte, !Z.mod_small by done.
Qed.

(** The keys of a closed range that starts and ends at one inode. *)
Definition in_range (k1 k2 k : string) : bool := negb (kltb k k1) && negb (kltb k2 k).

Lemma fnv_loop_range prime bits h data :
  (8 ≤ bits)%Z → (0 ≤ h < 2 ^ bits)%Z → (0 ≤ fnv_loop prime (2 ^ bits) h data < 2 ^ bits)%Z.
Proof.
  intros Hb. revert h. induction data as [|c data IH]; intros h Hh; [done|]. cbn [fnv_loop]. apply IH.
  pose proof (Z.mod_pos_bound (h * prime) (2 ^ bits)) as Hm. pose proof (chr_byte_range c) as Hc.
  assert (256 ≤ 2 ^ bits)%Z as H256.
  { change 256%Z with (2 ^ 8)%Z. apply Z.pow_le_mono_r; lia. }
  assert (∀ x, 0 ≤ x < 2 ^ bits → Z.log2 x < bits)%Z as Hlog.
  { intros x Hx. destruct (Z.eq_dec x 0) as [->|]; [simpl; lia|]. apply Z.log2_lt_pow2; lia. }
  set (a := (_ mod _)%Z) in *. assert (0 ≤ Z.lxor a (chr_byte c))%Z as H0.
  { apply Z.lxor_nonneg. lia. }
  split; [done|]. destruct (Z.eq_dec (Z.lxor a (chr_byte c)) 0) as [->|]; [lia|].
  apply Z.log2_lt_pow2; [lia|]. eapply Z.le_lt_trans; [apply Z.log2_lxor; lia|].
  pose proof (Hlog a). pose proof (Hlog (chr_byte c)). lia.
Qed.

Lemma fnv_Sum64_range data : in_uint64 (fnv_Sum64 data).
Proof. apply (fnv_loop_range _ 64); lia. Qed.
Lemma fnv_Sum32_range data : (0 ≤ fnv_Sum32 data < 4294967296)%Z.
Proof. apply (fnv_loop_range _ 32); lia. Qed.

(** The keys between the first and the last one of an inode. *)
Lemma inode_range_keys ino ino' st data :
  in_uint64 ino → in_uint64 ino' → (0 ≤ st < 256)%Z →
  in_range (NewBlockKey ino BST_NONE "") (NewBlockKey ino BST_LAST "") (NewBlockKey ino' st data) =
  (ino' =? ino)%Z && ((st <? BST_LAST)%Z || ((st =? BST_LAST)%Z && keqb data "")).
Proof.
  intros Hi Hi' Hs. unfold in_range. rewrite !NewBlockKey_ltb by (done || (unfold BST_NONE, BST_LAST; lia)).
  rewrite kltb_nil, andb_false_r, orb_false_r. unfold BST_NONE, BST_LAST.
  replace (kltb "" data) with (negb (keqb data "")) by (by destruct data).
  destruct (keqb data ""), (Z.ltb_spec ino' ino), (Z.eqb_spec ino' ino), (Z.ltb_spec ino ino'),
    (Z.eqb_spec ino ino'), (Z.ltb_spec st 0), (Z.ltb_spec st 47), (Z.ltb_spec 47 st), (Z.eqb_spec 47 st),
    (Z.eqb_spec st 47); simpl; try done; lia.
Qed.

(** ** Properties *)

(** The inode, subtype and subtype data of a key can be read back from it, and
    the file name from a directory entry key. *)
Theorem block_key_roundtrip ino st data :
  in_uint64 ino → (0 ≤ st < 256)%Z →
  Ino (NewBlockKey ino st data) = Ok ino ∧
  SubType (NewBlockKey ino st data) = st ∧
  SubTypeData (NewBlockKey ino st data) = Ok data ∧
  Filename (NewBlockKeyDirFilename ino data) = Ok data.
Proof.
  intros Hi Hs. split_and!.
  - by apply NewBlockKey_Ino.
  - by apply NewBlockKey_SubType.
  - apply NewBlockKey_SubTypeData.
  - unfold Filename, NewBlockKeyDirFilename. rewrite NewBlockKey_SubType by done.
    rewrite Z.eqb_refl, NewBlockKey_SubTypeData. unfold ConcatBytes, Uint32Bytes. cbn [foldr res_bind].
    rewrite str_app_nil. apply (str_from_app (be_bytes 4 _)).
Qed.

(** The range from the BST_NONE key to the BST_LAST key of an inode, which
    DeleteRange clears when an inode is forgotten and merge clears when it is
    overridden, holds every key of the inode with a subtype below BST_LAST and no key
    of another inode or of the block-name table. *)
Theorem inode_range_exact ino ino' st data :
  in_uint64 ino → in_uint64 ino' → (0 ≤ st < 256)%Z →
  in_range (NewBlockKey ino BST_NONE "") (NewBlockKey ino BST_LAST "") (NewBlockKey ino' st data) =
  (ino' =? ino)%Z && ((st <? BST_LAST)%Z || ((st =? BST_LAST)%Z && keqb data "")).
Proof. apply inode_range_keys. Qed.

(** Truncating a file to [size] deletes the keys from that of [size + dataExtentSize]
    to that of 2^62: of the extents of the file, those are the ones whose index is
    past that of the extent [size] lies in. *)
Theorem truncate_range_exact ino size offset :
  in_uint64 ino → (0 ≤ size < 2 ^ 62)%Z → (0 ≤ offset ≤ 2 ^ 62)%Z →
  in_range (NewBlockKeyOffset ino (size + dataExtentSize)) (NewBlockKeyOffset ino (2 ^ 62))
    (NewBlockKeyOffset ino offset) = (size / dataExtentSize <? offset / dataExtentSize)%Z.
Proof.
  intros Hi Hs Ho. unfold NewBlockKeyOffset, in_range, dataExtentSize, Uint64Bytes in *.
  assert (∀ x, 0 ≤ x < 2 ^ 64 → 0 ≤ x / 65536 < width 8)%Z as Hw.
  { intros x Hx. rewrite width_8. split; [apply Z.div_pos; lia|]. apply Z.div_lt_upper_bound; lia. }
  assert (∀ x y, 0 ≤ x < 2 ^ 64 → 0 ≤ y < 2 ^ 64 →
     kltb (be_bytes 8 (x / 65536)) (be_bytes 8 (y / 65536)) = (x / 65536 <? y / 65536))%Z as Hlt.
  { intros x y Hx Hy. apply be_bytes_ltb; auto. }
  rewrite !NewBlockKey_ltb, !Z.ltb_irrefl, !Z.eqb_refl by (done || (unfold BST_FILE_OFFSET2EXTENT; lia)).
  cbn [orb andb]. rewrite !Hlt by lia.
  pose proof (Z.div_le_mono offset (2 ^ 62) 65536). rewrite (proj2 (Z.ltb_ge (2 ^ 62 / 65536) _)) by lia.
  replace (size + 65536)%Z with (size + 1 * 65536)%Z by lia. rewrite Z.div_add by lia.
  destruct (Z.ltb_spec (offset / 65536) (size / 65536 + 1)), (Z.ltb_spec (size / 65536) (offset / 65536));
    simpl; done || lia.
Qed.

Lemma repeat255_ge (id : string) n :
  String.length id ≤ n → kltb (string_repeat (String (byte_chr 255) "") n) id = false.
Proof.
  revert n. induction id as [|c id IH]; intros n Hn; [apply kltb_nil|]. destruct n as [|n]; [simpl in *; lia|].
  cbn [string_repeat]. rewrite str_app_cons, kltb_cons, byte_chr_byte.
  change (255 mod 256)%Z with 255%Z. change ("" +:+ ?x) with x.
  simpl in Hn. rewrite IH by lia. pose proof (chr_byte_range c).
  rewrite andb_false_r, orb_false_r. apply Z.ltb_ge. lia.
Qed.

(** The range ClearBlocksInName deletes holds every block key of the name whose id
    has at most 33 bytes (ids are 32-byte hashes). *)
Theorem name_range_complete name id :
  String.length id ≤ 33 →
  in_range (NewBlockKeyNameBlock name "") (NewBlockKeyNameEnd name) (NewBlockKeyNameBlock name id) = true.
Proof.
  intros Hid. unfold in_range, NewBlockKeyNameBlock, NewBlockKeyNameEnd, ConcatBytes. cbn [foldr].
  rewrite !NewBlockKey_ltb, !Z.ltb_irrefl, !Z.eqb_refl
    by (apply fnv_Sum64_range || (unfold BST_NAMEHASH_NAME_BLOCK; lia)).
  rewrite !kltb_prefix, kltb_nil, str_app_nil. rewrite repeat255_ge by done. done.
Qed.

Module BlockKeyWitness.
Lemma block_key_roundtrip_witness :
  in_uint64 258 ∧ Filename (NewBlockKeyDirFilename 258 "foo") = Ok "foo".
Proof. split; [done|]. by apply (block_key_roundtrip 258 BST_META "foo"). Defined.

Lemma inode_range_exact_witness :
  in_range (NewBlockKey 5 BST_NONE "") (NewBlockKey 5 BST_LAST "") (NewBlockKey 5 BST_XATTR "user.x") = true.
Proof. by rewrite (inode_range_exact 5 5 BST_XATTR "user.x"). Defined.

Lemma truncate_range_exact_witness :
  in_range (NewBlockKeyOffset 5 (70000 + dataExtentSize)) (NewBlockKeyOffset 5 (2 ^ 62))
    (NewBlockKeyOffset 5 131072) = true.
Proof. by rewrite (truncate_range_exact 5 70000 131072). Defined.

Lemma name_range_complete_witness :
  in_range (NewBlockKeyNameBlock "x" "") (NewBlockKeyNameEnd "x")
    (NewBlockKeyNameBlock "x" "01234567890123456789012345678901") = true.
Proof. apply (name_range_complete "x" "01234567890123456789012345678901"). simpl. lia. Defined.
End BlockKeyWitness.
