(* ===== verification/Codec.v ===== *)
(** * Codecs (src/codec/codec.go)

    A codec transforms byte slices, with additional data that is authenticated but
    not stored.  The ciphers, the compressors and the generated msgp marshallers are
    parameters; what the code relies on is the round trip of each.  A call returns a
    value ([inr]) or a Go error ([inl]); a nil slice and an empty one are both [""]. *)
From stdpp Require Import base list sets strings sorting.
From Stdlib Require Import ZArith Lia Ascii.
From S2P Require Import Prelude OrderedMap Util.

Definition gerr (A : Type) : Type := (string + A)%type.

(** The interface [Codec].  [R] is the state of the random source that
    [EncodeBytes] draws its nonces from. *)
Record Codec (R : Type) : Type := mkCodec {
  DecodeBytes : string → string → gerr string;
  EncodeBytes : string → string → R → gerr string * R
}.
Arguments mkCodec {R} _ _.
Arguments DecodeBytes {R} _ _ _.
Arguments EncodeBytes {R} _ _ _ _.

(** What a client of a codec relies on: what was encoded decodes, with the same
    additional data, to the original. *)
Class CodecOk {R : Type} (c : Codec R) : Prop := {
  codec_roundtrip : ∀ data ad rnd enc rnd',
    EncodeBytes c data ad rnd = (inr enc, rnd') → DecodeBytes c enc ad = inr data
}.

(** Encoding does not fail, as when the random source always delivers. *)
Class CodecTotal {R : Type} (c : Codec R) : Prop := {
  codec_total : ∀ data ad rnd, ∃ enc rnd', EncodeBytes c data ad rnd = (inr enc, rnd')
}.

(** ** EncryptingCodec *)

Record EncryptedData : Type := mkEncryptedData { Nonce : string; EncryptedDataBytes : string }.

(** [cipher.AEAD] of a key, the msgp marshaller of [EncryptedData] and
    [crypto/rand]. *)
Record AEAD : Type := mkAEAD {
  NonceSize : nat;
  Seal : string → string → string → string;
  Open : string → string → string → gerr string
}.

Section encrypting.
Context {R : Type} (rand_Read : nat → R → gerr string * R).
Context (marshal : EncryptedData → gerr string) (unmarshal : string → gerr EncryptedData).
Context (pbkdf2_Key : string → string → nat → string) (NewGCM : string → gerr AEAD).

(** [EncryptingCodec.DecodeBytes]. *)
Definition Encrypting_DecodeBytes (gcm : AEAD) (data additionalData : string) : gerr string :=
  match unmarshal data with
  | inl err => inl err
  | inr ed => Open gcm (Nonce ed) (EncryptedDataBytes ed) additionalData
  end.

(** [EncryptingCodec.EncodeBytes]. *)
Definition Encrypting_EncodeBytes (gcm : AEAD) (data additionalData : string) (rnd : R)
  : gerr string * R :=
  match rand_Read (NonceSize gcm) rnd with
  | (inl err, rnd) => (inl err, rnd)
  | (inr nonce, rnd) =>
      let ciphertext := Seal gcm nonce data additionalData in
      (marshal (mkEncryptedData nonce ciphertext), rnd)
  end.

Definition EncryptingCodec (gcm : AEAD) : Codec R :=
  mkCodec (Encrypting_DecodeBytes gcm) (Encrypting_EncodeBytes gcm).

(** [EncryptingCodec.Init]: an error of the cipher construction panics. *)
Definition EncryptingCodec_Init (password salt : string) (iter : nat) : res (Codec R) :=
  let mk := pbkdf2_Key password salt iter in
  match NewGCM mk with
  | inl err => Panic err
  | inr gcm => Ok (EncryptingCodec gcm)
  end.

End encrypting.

(** ** CompressingCodec *)

(** The values the code knows are 0 to 3; any byte can be read from disk. *)
Definition CompressionType : Type := Z.
Definition CompressionType_UNSET : CompressionType := 0%Z.
Definition CompressionType_PLAIN : CompressionType := 1%Z.
Definition CompressionType_SNAPPY : CompressionType := 2%Z.
Definition CompressionType_ZLIB : CompressionType := 3%Z.

Record CompressedData : Type := mkCompressedData { cd_CompressionType : CompressionType; RawData : string }.

(** A compressor: [snappy.Encode]/[snappy.Decode], the zlib writer and reader. *)
Record Compressor : Type := mkCompressor { compress : string → string; decompress : string → gerr string }.

Section compressing.
Context {R : Type} (snappy zlib : Compressor).
Context (marshal : CompressedData → gerr string) (unmarshal : string → gerr CompressedData).

(** [CompressingCodec.DecodeBytes]: a type that is none of the three gives the
    zero values of the results. *)
Definition Compressing_DecodeBytes (data additionalData : string) : gerr string :=
  match unmarshal data with
  | inl err => inl err
  | inr cd =>
      if (cd_CompressionType cd =? CompressionType_PLAIN)%Z then inr (RawData cd)
      else if (cd_CompressionType cd =? CompressionType_SNAPPY)%Z then decompress snappy (RawData cd)
      else if (cd_CompressionType cd =? CompressionType_ZLIB)%Z then decompress zlib (RawData cd)
      else inr ""
  end.

(** The choice [EncodeBytes] makes: what is stored, and its type. *)
Definition Compressing_choose (self : CompressionType) (data : string) : CompressedData :=
  let '(rd, ct) :=
    if (self =? CompressionType_ZLIB)%Z then (compress zlib data, CompressionType_ZLIB)
    else if (self =? CompressionType_UNSET)%Z || (self =? CompressionType_SNAPPY)%Z
    then (compress snappy data, CompressionType_SNAPPY)
    else if (self =? CompressionType_PLAIN)%Z then (data, CompressionType_PLAIN)
    else ("", CompressionType_UNSET) in
  let '(rd, ct) :=
    if negb (ct =? CompressionType_PLAIN)%Z && (String.length data <=? String.length rd)
    then (data, CompressionType_PLAIN)
    else (rd, ct) in
  mkCompressedData ct rd.

(** [CompressingCodec.EncodeBytes]. *)
Definition Compressing_EncodeBytes (self : CompressionType) (data additionalData : string) (rnd : R)
  : gerr string * R :=
  (marshal (Compressing_choose self data), rnd).

Definition CompressingCodec (self : CompressionType) : Codec R :=
  mkCodec Compressing_DecodeBytes (Compressing_EncodeBytes self).

End compressing.

(** ** CodecChain *)

Section chain.
Context {R : Type}.

Record CodecChain : Type := mkCodecChain { codecs : list (Codec R); reverseCodecs : list (Codec R) }.

(** The index loop that fills [rc] back to front is [rev]. *)
Definition CodecChain_Init (codecs : list (Codec R)) : CodecChain :=
  mkCodecChain codecs (rev codecs).

Fixpoint decode_loop (cs : list (Codec R)) (data additionalData : string) : gerr string :=
  match cs with
  | [] => inr data
  | c :: cs' =>
      match DecodeBytes c data additionalData with
      | inl err => inl err
      | inr ret => decode_loop cs' ret additionalData
      end
  end.

Fixpoint encode_loop (cs : list (Codec R)) (data additionalData : string) (rnd : R)
  : gerr string * R :=
  match cs with
  | [] => (inr data, rnd)
  | c :: cs' =>
      match EncodeBytes c data additionalData rnd with
      | (inl err, rnd) => (inl err, rnd)
      | (inr ret, rnd) => encode_loop cs' ret additionalData rnd
      end
  end.

Definition Chain_DecodeBytes (self : CodecChain) (data additionalData : string) : gerr string :=
  decode_loop (codecs self) data additionalData.
Definition Chain_EncodeBytes (self : CodecChain) (data additionalData : string) (rnd : R)
  : gerr string * R :=
  encode_loop (reverseCodecs self) data additionalData rnd.

Definition chain_codec (self : CodecChain) : Codec R :=
  mkCodec (Chain_DecodeBytes self) (Chain_EncodeBytes self).

End chain.
Arguments CodecChain : clear implicits.

(** ** Round trips *)

Section ok.
Context {R : Type}.

Lemma encode_loop_app (cs cs' : list (Codec R)) data ad rnd :
  encode_loop (cs ++ cs') data ad rnd =
  match encode_loop cs data ad rnd with
  | (inl err, rnd) => (inl err, rnd)
  | (inr ret, rnd) => encode_loop cs' ret ad rnd
  end.
Proof.
  revert data rnd. induction cs as [|c cs IH]; intros data rnd; [done|]. simpl.
  by destruct (EncodeBytes c data ad rnd) as [[err|ret] rnd1].
Qed.

#[export] Instance chain_ok (cs : list (Codec R)) :
  TCForall CodecOk cs → CodecOk (chain_codec (CodecChain_Init cs)).
Proof.
  intros H. constructor. simpl. unfold Chain_DecodeBytes, Chain_EncodeBytes, CodecChain_Init. simpl.
  induction H as [|c cs Hc Hcs IH]; intros data ad rnd enc rnd'; simpl; [by intros [= -> _]|].
  rewrite encode_loop_app. destruct (encode_loop (rev cs) data ad rnd) as [[err|mid] rnd1] eqn:E; [done|].
  simpl. destruct (EncodeBytes c mid ad rnd1) as [[err|ret] rnd2] eqn:Ec; [done|]. intros [= -> ->].
  rewrite (codec_roundtrip _ _ _ _ _ Ec). by eapply IH.
Qed.

End ok.

Section enc_ok.
Context {R : Type} (rand_Read : nat → R → gerr string * R).
Context (marshal : EncryptedData → gerr string) (unmarshal : string → gerr EncryptedData).
Hypothesis unmarshal_marshal : ∀ ed b, marshal ed = inr b → unmarshal b = inr ed.

Lemma encrypting_ok (gcm : AEAD) :
  (∀ nonce data ad, Open gcm nonce (Seal gcm nonce data ad) ad = inr data) →
  CodecOk (EncryptingCodec rand_Read marshal unmarshal gcm).
Proof.
  intros Hopen. constructor. intros data ad rnd enc rnd'. simpl.
  unfold Encrypting_EncodeBytes, Encrypting_DecodeBytes.
  destruct (rand_Read _ rnd) as [[err|nonce] rnd1]; [done|]. intros [= Em _].
  rewrite (unmarshal_marshal _ _ Em). apply Hopen.
Qed.

End enc_ok.

Section comp_ok.
Context {R : Type} (snappy zlib : Compressor).
Context (marshal : CompressedData → gerr string) (unmarshal : string → gerr CompressedData).
Hypothesis unmarshal_marshal : ∀ cd b, marshal cd = inr b → unmarshal b = inr cd.
Hypothesis snappy_ok : ∀ d, decompress snappy (compress snappy d) = inr d.
Hypothesis zlib_ok : ∀ d, decompress zlib (compress zlib d) = inr d.

(** The codec is set up with one of the four known types. *)
Lemma compressing_ok (ct : CompressionType) :
  (0 ≤ ct ≤ 3)%Z → CodecOk (CompressingCodec (R := R) snappy zlib marshal unmarshal ct).
Proof.
  intros Hct. constructor. intros data ad rnd enc rnd'. simpl.
  unfold Compressing_EncodeBytes, Compressing_DecodeBytes. intros [= Em _].
  rewrite (unmarshal_marshal _ _ Em). unfold Compressing_choose.
  assert (ct = 0 ∨ ct = 1 ∨ ct = 2 ∨ ct = 3)%Z as [->|[->|[->| ->]]] by lia; simpl;
    try done; (destruct (_ <=? _); simpl; [done|]); auto.
Qed.

(** What is stored is never longer than the data. *)
Lemma compressing_length (ct : CompressionType) data :
  String.length (RawData (Compressing_choose snappy zlib ct data)) ≤ String.length data.
Proof.
  unfold Compressing_choose.
  destruct (_ =? CompressionType_ZLIB)%Z; [|destruct (_ || _); [|destruct (_ =? _)%Z]]; simpl;
    try done; destruct (_ <=? _) eqn:E; simpl; try (apply Nat.leb_gt in E); lia.
Qed.

End comp_ok.

(** ** Properties *)

(** Whatever an encrypting and a compressing codec chained as the factory chains
    them encode, the chain decodes with the same additional data to the original bytes,
    for every known compression type and every source of nonces. *)
Theorem factory_chain_roundtrip {R : Type} (rand_Read : nat → R → gerr string * R)
  emarshal eunmarshal (gcm : AEAD) (snappy zlib : Compressor) cmarshal cunmarshal ct data ad rnd enc rnd' :
  (∀ ed b, emarshal ed = inr b → eunmarshal b = inr ed) →
  (∀ cd b, cmarshal cd = inr b → cunmarshal b = inr cd) →
  (∀ nonce data ad, Open gcm nonce (Seal gcm nonce data ad) ad = inr data) →
  (∀ d, decompress snappy (compress snappy d) = inr d) →
  (∀ d, decompress zlib (compress zlib d) = inr d) →
  (0 ≤ ct ≤ 3)%Z →
  let chain := CodecChain_Init [EncryptingCodec rand_Read emarshal eunmarshal gcm;
                                CompressingCodec snappy zlib cmarshal cunmarshal ct] in
  Chain_EncodeBytes chain data ad rnd = (inr enc, rnd') →
  Chain_DecodeBytes chain enc ad = inr data.
Proof.
  intros He Hc Hg Hs Hz Hct chain. pose proof (encrypting_ok rand_Read _ _ He gcm Hg).
  pose proof (compressing_ok (R := R) _ _ _ _ Hc Hs Hz ct Hct).
  apply (codec_roundtrip (c := chain_codec chain)).
Qed.

(** A compressing codec stores at most as many bytes as it is given: data that does not
    shrink is kept as it is. *)
Theorem compressing_never_expands (snappy zlib : Compressor) (ct : CompressionType) data :
  String.length (RawData (Compressing_choose snappy zlib ct data)) ≤ String.length data ∧
  (String.length data ≤ String.length (compress snappy data) → ct = CompressionType_SNAPPY →
   Compressing_choose snappy zlib ct data = mkCompressedData CompressionType_PLAIN data).
Proof.
  split; [apply compressing_length|]. intros Hl ->. unfold Compressing_choose. simpl.
  by rewrite (proj2 (Nat.leb_le _ _) Hl).
Qed.

(** A concrete chain: nonces are counted, the cipher tags the data with nonce and
    additional data, the compressor adds a byte, so it is never chosen. *)
Module DemoCodec.
Definition rand (n : nat) (r : nat) : gerr string * nat := (inr (string_repeat "n" n), S r).
Definition gcm : AEAD := mkAEAD 12 (λ _ d ad, ad +:+ d)
  (λ _ c ad, match str_from c (String.length ad) with Ok d => inr d | _ => inl "short" end).
Definition identity : Compressor := mkCompressor (λ d, String "#" d) (λ d, match d with String _ d => inr d | "" => inl "short" end).
Definition cmarshal (cd : CompressedData) : gerr string :=
  if ((0 <=? cd_CompressionType cd) && (cd_CompressionType cd <? 256))%Z%bool
  then inr (String (byte_chr (cd_CompressionType cd)) (RawData cd)) else inl "not a byte".
Definition cunmarshal (s : string) : gerr CompressedData :=
  match s with String c s => inr (mkCompressedData (chr_byte c) s) | "" => inl "short" end.
Definition emarshal12 (ed : EncryptedData) : gerr string :=
  if String.length (Nonce ed) =? 12 then inr (Nonce ed +:+ EncryptedDataBytes ed) else inl "nonce".
Definition eunmarshal (s : string) : gerr EncryptedData :=
  match str_to s 12, str_from s 12 with
  | Ok n, Ok d => inr (mkEncryptedData n d)
  | _, _ => inl "short"
  end.

Lemma eunmarshal_emarshal ed b : emarshal12 ed = inr b → eunmarshal b = inr ed.
Proof.
  unfold emarshal12, eunmarshal. destruct (Nat.eqb_spec (String.length (Nonce ed)) 12) as [E|]; [|done].
  intros [= <-]. rewrite <- E, str_to_app, str_from_app. by destruct ed.
Qed.
Lemma cunmarshal_cmarshal cd b : cmarshal cd = inr b → cunmarshal b = inr cd.
Proof.
  unfold cmarshal, cunmarshal. destruct (andb _ _) eqn:E; [|done]. intros [= <-].
  apply andb_true_iff in E as [?%Z.leb_le ?%Z.ltb_lt].
  rewrite byte_chr_byte, Z.mod_small by lia. by destruct cd.
Qed.

Lemma factory_chain_roundtrip_witness :
  Chain_DecodeBytes (CodecChain_Init [EncryptingCodec rand emarshal12 eunmarshal gcm;
                                CompressingCodec identity identity cmarshal cunmarshal CompressionType_SNAPPY])
    ("nnnnnnnnnnnn" +:+ "ad" +:+ String (byte_chr 1) "hello") "ad" = inr "hello".
Proof.
  apply (factory_chain_roundtrip rand emarshal12 eunmarshal gcm identity identity cmarshal cunmarshal CompressionType_SNAPPY
    "hello" "ad" 0 _ 1); try done.
  - apply eunmarshal_emarshal.
  - apply cunmarshal_cmarshal.
  - intros n d ad. unfold gcm. cbn [Open Seal]. by rewrite str_from_app.
Defined.
Lemma compressing_never_expands_witness :
  Compressing_choose identity identity CompressionType_SNAPPY "abc" = mkCompressedData CompressionType_PLAIN "abc".
Proof. apply (compressing_never_expands identity identity CompressionType_SNAPPY "abc"); [simpl; lia|done]. Defined.
End DemoCodec.
