(* ===== verification/Backend.v ===== *)
(** * Storage backends (src/storage/backend.go, proxybackend.go, codecbackend.go, inmemory/inmemory.go, nameinblock.go)

    A backend keeps reference counted blocks by id, and names that map to block ids.
    [Backend] is the Go interface as a record of operations on a state, so that the
    wrapping backends are functions between such records.  [BlockStoreOk] states what
    the storage relies on, over an abstract map of blocks: the in-memory backend
    provides it, and the wrapping backends preserve it. *)
From stdpp Require Import base list sets strings sorting gmap.
From Stdlib Require Import ZArith Lia Ascii.
From S2P Require Import Prelude OrderedMap Util Codec.

(** ** Blocks *)

Definition BlockStatus : Type := Z.
Definition BS_UNSET : BlockStatus := 0%Z.
Definition BS_NORMAL : BlockStatus := 1%Z.
Definition BS_MISSING : BlockStatus := 2%Z.
Definition BS_WANT_NORMAL : BlockStatus := 3%Z.
Definition BS_WEAK : BlockStatus := 4%Z.
Definition BS_WANT_WEAK : BlockStatus := 5%Z.

Record BlockMetadata : Type := mkMeta { RefCount : Z; Status : BlockStatus }.

#[export] Instance BlockMetadata_eq_dec : EqDecision BlockMetadata.
Proof. solve_decision. Defined.

(** [Block].  There is one backend, so the pointer [Backend] is nil or not; the
    pointer [storage] is that of the only storage. *)
Record Block : Type := mkBlock {
  Id : string;
  Meta : BlockMetadata;
  Data : option string;
  hasBackend : bool;
  Stored : option BlockMetadata;
  deps : option (list string);
  storageRefCount : Z;
  externalStorageRefCount : Z;
  haveDiskRefs : bool;
  haveStorageRefs : bool
}.

(** [&Block{Id: id}]. *)
Definition new_Block (id : string) : Block :=
  mkBlock id (mkMeta 0 BS_UNSET) None false None None 0 0 false false.

Definition with_Meta (v : BlockMetadata) (b : Block) : Block :=
  mkBlock (Id b) v (Data b) (hasBackend b) (Stored b) (deps b) (storageRefCount b)
    (externalStorageRefCount b) (haveDiskRefs b) (haveStorageRefs b).
Definition with_Data (v : option string) (b : Block) : Block :=
  mkBlock (Id b) (Meta b) v (hasBackend b) (Stored b) (deps b) (storageRefCount b)
    (externalStorageRefCount b) (haveDiskRefs b) (haveStorageRefs b).
Definition with_hasBackend (v : bool) (b : Block) : Block :=
  mkBlock (Id b) (Meta b) (Data b) v (Stored b) (deps b) (storageRefCount b)
    (externalStorageRefCount b) (haveDiskRefs b) (haveStorageRefs b).
Definition with_Stored (v : option BlockMetadata) (b : Block) : Block :=
  mkBlock (Id b) (Meta b) (Data b) (hasBackend b) v (deps b) (storageRefCount b)
    (externalStorageRefCount b) (haveDiskRefs b) (haveStorageRefs b).
Definition with_deps (v : option (list string)) (b : Block) : Block :=
  mkBlock (Id b) (Meta b) (Data b) (hasBackend b) (Stored b) v (storageRefCount b)
    (externalStorageRefCount b) (haveDiskRefs b) (haveStorageRefs b).
Definition with_storageRefCount (v : Z) (b : Block) : Block :=
  mkBlock (Id b) (Meta b) (Data b) (hasBackend b) (Stored b) (deps b) v
    (externalStorageRefCount b) (haveDiskRefs b) (haveStorageRefs b).
Definition with_externalStorageRefCount (v : Z) (b : Block) : Block :=
  mkBlock (Id b) (Meta b) (Data b) (hasBackend b) (Stored b) (deps b) (storageRefCount b)
    v (haveDiskRefs b) (haveStorageRefs b).
Definition with_haveDiskRefs (v : bool) (b : Block) : Block :=
  mkBlock (Id b) (Meta b) (Data b) (hasBackend b) (Stored b) (deps b) (storageRefCount b)
    (externalStorageRefCount b) v (haveStorageRefs b).
Definition with_haveStorageRefs (v : bool) (b : Block) : Block :=
  mkBlock (Id b) (Meta b) (Data b) (hasBackend b) (Stored b) (deps b) (storageRefCount b)
    (externalStorageRefCount b) (haveDiskRefs b) v.

(** ** The interface *)

(** [BlockBackend].  A nil byte slice is [None]. *)
Record BlockBackend (S : Type) : Type := mkBlockBackend {
  be_GetBlockData : Block → S → res (option string * S);
  be_GetBlockById : string → S → res (option Block * S);
  be_DeleteBlock : Block → S → res S;
  be_StoreBlock : Block → S → res S;
  be_UpdateBlock : Block → S → res (Z * S)
}.
Arguments mkBlockBackend {S} _ _ _ _ _.
Arguments be_GetBlockData {S} _ _ _.
Arguments be_GetBlockById {S} _ _ _.
Arguments be_DeleteBlock {S} _ _ _.
Arguments be_StoreBlock {S} _ _ _.
Arguments be_UpdateBlock {S} _ _ _.

(** [Backend], with the methods of [NameBackend]; [Supports] is asked about the only
    feature, the codec. *)
Record Backend (S : Type) : Type := mkBackend {
  be_blocks :> BlockBackend S;
  be_Flush : S → res S;
  be_GetBlockIdByName : string → S → res (string * S);
  be_SetNameToBlockId : string → string → S → res S;
  be_GetBytesAvailable : S → res (Z * S);
  be_GetBytesUsed : S → res (Z * S);
  be_SupportsCodec : bool
}.
Arguments mkBackend {S} _ _ _ _ _ _ _.
Arguments be_blocks {S} _.
Arguments be_Flush {S} _ _.
Arguments be_GetBlockIdByName {S} _ _ _.
Arguments be_SetNameToBlockId {S} _ _ _ _.
Arguments be_GetBytesAvailable {S} _ _.
Arguments be_GetBytesUsed {S} _ _.
Arguments be_SupportsCodec {S} _.

(** The abstract content of a backend: metadata and data by id. *)
Abbreviation blockmap := (gmap string (BlockMetadata * string)).

(** What a client relies on.  The interface demands that StoreBlock meets a fresh id and
    the others an existing one; that a block has data when it is stored is the
    storage's business.  A backend may have room for some blocks only. *)
Class BlockStoreOk {S : Type} (be : BlockBackend S) := {
  bs_rep : S → blockmap → Prop;
  bs_accepts : Block → S → Prop;
  bs_GetBlockById : ∀ id s m, bs_rep s m →
    ∃ ob s', be_GetBlockById be id s = Ok (ob, s') ∧ bs_rep s' m ∧
      match ob, m !! id with
      | Some b, Some (md, d) => Id b = id ∧ Meta b = md ∧ (∀ d', Data b = Some d' → d' = d) ∧ hasBackend b = true
      | None, None => True
      | _, _ => False
      end;
  bs_GetBlockData : ∀ b s m md d, bs_rep s m → m !! Id b = Some (md, d) →
    ∃ s', be_GetBlockData be b s = Ok (Some d, s') ∧ bs_rep s' m;
  bs_GetBlockData_pure : ∀ b s m r s', bs_rep s m → be_GetBlockData be b s = Ok (r, s') → bs_rep s' m;
  bs_StoreBlock : ∀ b s m d, bs_rep s m → m !! Id b = None → Data b = Some d → bs_accepts b s →
    ∃ s', be_StoreBlock be b s = Ok s' ∧ bs_rep s' (<[Id b := (Meta b, d)]> m);
  bs_DeleteBlock : ∀ b s m x, bs_rep s m → m !! Id b = Some x →
    ∃ s', be_DeleteBlock be b s = Ok s' ∧ bs_rep s' (delete (Id b) m)
}.

(** UpdateBlock stores the metadata. *)
Class BlockUpdateOk {S : Type} (be : BlockBackend S) `{!BlockStoreOk be} := {
  bs_UpdateBlock : ∀ b s m md d, bs_rep s m → m !! Id b = Some (md, d) →
    ∃ s', be_UpdateBlock be b s = Ok (1%Z, s') ∧ bs_rep s' (<[Id b := (Meta b, d)]> m)
}.

(** ** proxyBackend *)

(** [proxyBackend.GetBlockById] marks the block as its own. *)
Definition proxy_GetBlockById {S : Type} (inner : Backend S) (id : string) (s : S)
  : res (option Block * S) :=
  let! r := be_GetBlockById inner id s in
  Ok (with_hasBackend true <$> r.1, r.2).

(** [SetBackend] of the proxy; every other method passes the call on. *)
Definition proxyBackend {S : Type} (inner : Backend S) : Backend S :=
  mkBackend
    (mkBlockBackend (be_GetBlockData inner) (proxy_GetBlockById inner) (be_DeleteBlock inner)
       (be_StoreBlock inner) (be_UpdateBlock inner))
    (be_Flush inner)
    (be_GetBlockIdByName inner) (be_SetNameToBlockId inner)
    (be_GetBytesAvailable inner) (be_GetBytesUsed inner) (be_SupportsCodec inner).

(** ** codecBackend *)

Section codec_backend.
Context {S R : Type} (inner : Backend S) (codec : Codec R).

(** The state is that of the backend with the random source of the codec. *)
Definition lift_state {A : Type} (m : S → res (A * S)) (s : S * R) : res (A * (S * R)) :=
  let! r := m s.1 in Ok (r.1, (r.2, s.2)).
Definition lift_unit (m : S → res S) (s : S * R) : res (S * R) :=
  let! r := m s.1 in Ok (r, s.2).

(** [codecBackend.GetBlockById]. *)
Definition codec_GetBlockById (id : string) (s : S * R) : res (option Block * (S * R)) :=
  let! r := lift_state (be_GetBlockById inner id) s in
  let b := with_hasBackend true <$> r.1 in
  match b with
  | None => Ok (b, r.2)
  | Some bl =>
      match Data bl with
      | None => Ok (b, r.2)
      | Some _ => Ok (Some (with_Data None bl), r.2)
      end
  end.

(** [codecBackend.GetBlockData]: a nil slice decodes like an empty one. *)
Definition codec_GetBlockData (bl : Block) (s : S * R) : res (option string * (S * R)) :=
  let! r := lift_state (be_GetBlockData inner bl) s in
  match DecodeBytes codec (default "" r.1) (Id bl) with
  | inl err => Panic ("Decoding failed" +:+ err)
  | inr b => Ok (Some b, r.2)
  end.

(** [codecBackend.StoreBlock]. *)
Definition codec_StoreBlock (bl : Block) (s : S * R) : res (S * R) :=
  let! dp := deref (Data bl) in
  match EncodeBytes codec dp (Id bl) s.2 with
  | (inl err, _) => Panic ("Encoding failed" +:+ err)
  | (inr b, rnd) =>
      let bl2 := with_Data (Some b) bl in
      lift_unit (be_StoreBlock inner bl2) (s.1, rnd)
  end.

(** A codecBackend whose embedded proxy has the backend. *)
Definition codecBackend : Backend (S * R) :=
  mkBackend
    (mkBlockBackend codec_GetBlockData codec_GetBlockById
       (λ b, lift_unit (be_DeleteBlock inner b)) codec_StoreBlock
       (λ b, lift_state (be_UpdateBlock inner b)))
    (lift_unit (be_Flush inner))
    (λ n, lift_state (be_GetBlockIdByName inner n)) (λ n i, lift_unit (be_SetNameToBlockId inner n i))
    (lift_state (be_GetBytesAvailable inner)) (lift_state (be_GetBytesUsed inner))
    (be_SupportsCodec inner).

End codec_backend.

(** [Storage.Init], the backend part.  [SetBackend] is a method of the embedded
    [proxyBackend] and returns that proxy: the codecBackend and the mapRunnerBackend
    around it are dropped. *)
Definition Storage_Init_Backend {S R : Type} (be : Backend S) (codec : option (Codec R)) : Backend S :=
  let be := match codec with Some _ => proxyBackend be | None => be end in
  proxyBackend be.

(** ** inMemoryBackend *)

Module InMemory.

Record inMemoryBackend : Type := mkInMemory { id2Block : gmap string Block; name2Id : gmap string string }.

Definition NewInMemoryBackend : inMemoryBackend := mkInMemory ∅ ∅.

Definition DeleteBlock (b : Block) (self : inMemoryBackend) : res inMemoryBackend :=
  Ok (mkInMemory (delete (Id b) (id2Block self)) (name2Id self)).

Definition GetBlockData (bl : Block) (self : inMemoryBackend) : res (option string * inMemoryBackend) :=
  match id2Block self !! Id bl with
  | None => Panic "Non-existent block id in GetBlockData"
  | Some b => let! d := deref (Data b) in Ok (Some d, self)
  end.

Definition GetBlockById (id : string) (self : inMemoryBackend) : res (option Block * inMemoryBackend) :=
  Ok (id2Block self !! id, self).

(** A missing key of a Go map gives the zero value. *)
Definition GetBlockIdByName (name : string) (self : inMemoryBackend) : res (string * inMemoryBackend) :=
  Ok (default "" (name2Id self !! name), self).

Definition GetBytesAvailable (self : inMemoryBackend) : res (Z * inMemoryBackend) := Ok (0%Z, self).
Definition GetBytesUsed (self : inMemoryBackend) : res (Z * inMemoryBackend) := Ok (0%Z, self).

Definition SetNameToBlockId (name block_id : string) (self : inMemoryBackend) : res inMemoryBackend :=
  Ok (mkInMemory (id2Block self) (<[name := block_id]> (name2Id self))).

Definition StoreBlock (b : Block) (self : inMemoryBackend) : res inMemoryBackend :=
  match id2Block self !! Id b with
  | Some _ => Panic "Existing block id in StoreBlock"
  | None =>
      let nb := with_hasBackend true b in
      Ok (mkInMemory (<[Id b := nb]> (id2Block self)) (name2Id self))
  end.

(** The block is looked up, and nothing is written. *)
Definition UpdateBlock (b : Block) (self : inMemoryBackend) : res (Z * inMemoryBackend) :=
  match id2Block self !! Id b with
  | None => Panic "Non-existent block id in StoreBlock"
  | Some _ => Ok (1%Z, self)
  end.

Definition Flush (self : inMemoryBackend) : res inMemoryBackend := Ok self.

Definition Supports : bool := false.

Definition backend : Backend inMemoryBackend :=
  mkBackend (mkBlockBackend GetBlockData GetBlockById DeleteBlock StoreBlock UpdateBlock) Flush
    GetBlockIdByName SetNameToBlockId GetBytesAvailable GetBytesUsed Supports.

(** *** The in-memory backend is a block store *)

Definition rep (s : inMemoryBackend) (m : blockmap) : Prop :=
  ∀ id, match id2Block s !! id with
        | Some b => Id b = id ∧ hasBackend b = true ∧ ∃ d, Data b = Some d ∧ m !! id = Some (Meta b, d)
        | None => m !! id = None
        end.

Lemma rep_new : rep NewInMemoryBackend ∅.
Proof. by intros id. Qed.

#[global] Program Instance store_ok : BlockStoreOk backend :=
  {| bs_rep := rep; bs_accepts := λ _ _, True |}.
Next Obligation.
  intros id s m Hrep. exists (id2Block s !! id), s. split_and!; [done..|].
  specialize (Hrep id). destruct (id2Block s !! id) as [b|].
  - destruct Hrep as (-> & Hb & d & Hd & ->). split_and!; [done..| |done]. intros d'. congruence.
  - by rewrite Hrep.
Qed.
Next Obligation.
  intros b s m md d Hrep Hm. exists s. split; [|done]. simpl. unfold GetBlockData.
  specialize (Hrep (Id b)). destruct (id2Block s !! Id b) as [b'|]; [|congruence].
  destruct Hrep as (_ & _ & d' & Hd & Hm'). rewrite Hd. simpl. congruence.
Qed.
Next Obligation.
  intros b s m r s' Hrep. simpl. unfold GetBlockData. destruct (id2Block s !! Id b) as [b'|]; [|done].
  destruct (Data b'); [|done]. simpl. by intros [= _ <-].
Qed.
Next Obligation.
  intros b s m d Hrep Hm Hd _. simpl. unfold StoreBlock. pose proof (Hrep (Id b)) as Hb.
  destruct (id2Block s !! Id b) as [b'|].
  { destruct Hb as (_ & _ & d' & _ & ?). congruence. }
  eexists. split; [done|]. intros id. simpl. destruct (decide (id = Id b)) as [->|Hne].
  - rewrite !lookup_insert_eq. split_and!; [done..|]. by exists d.
  - rewrite !lookup_insert_ne by done. apply Hrep.
Qed.
Next Obligation.
  intros b s m x Hrep Hm. simpl. eexists. split; [done|]. intros id. simpl.
  destruct (decide (id = Id b)) as [->|Hne].
  - by rewrite !lookup_delete_eq.
  - rewrite !lookup_delete_ne by done. apply Hrep.
Qed.

End InMemory.

(** ** The wrapping backends preserve the contract *)

#[export] Program Instance proxy_store_ok {S : Type} (be : Backend S) `{!BlockStoreOk be} :
  BlockStoreOk (proxyBackend be) := {| bs_rep := bs_rep; bs_accepts := bs_accepts |}.
Next Obligation.
  intros S be Hok id s m Hrep. destruct (bs_GetBlockById id s m Hrep) as (ob & s' & E & Hrep' & Hob).
  simpl. unfold proxy_GetBlockById. rewrite E. simpl. eexists _, s'. split_and!; [done..|].
  by destruct ob as [b|], (m !! id) as [[md d]|]; simpl; naive_solver.
Qed.
Next Obligation. intros S be Hok. exact bs_GetBlockData. Qed.
Next Obligation. intros S be Hok. exact bs_GetBlockData_pure. Qed.
Next Obligation. intros S be Hok. exact bs_StoreBlock. Qed.
Next Obligation. intros S be Hok. exact bs_DeleteBlock. Qed.

#[export] Instance proxy_update_ok {S : Type} (be : Backend S) `{!BlockStoreOk be} `{!BlockUpdateOk be} :
  BlockUpdateOk (proxyBackend be).
Proof. constructor. exact (@bs_UpdateBlock S be _ _). Qed.

Section codec_ok.
Context {S R : Type} (inner : Backend S) (codec : Codec R).
Context `{!BlockStoreOk inner} `{!CodecOk codec} `{!CodecTotal codec}.

(** The data of the block is the decoding of what the inner backend has. *)
Definition decode_entry (id : string) (x : BlockMetadata * string) : option (BlockMetadata * string) :=
  match DecodeBytes codec x.2 id with
  | inr d => Some (x.1, d)
  | inl _ => None
  end.

Definition codec_rep (s : S * R) (m : blockmap) : Prop :=
  ∃ m0, bs_rep s.1 m0 ∧
    ∀ id, match m0 !! id with
          | Some x => decode_entry id x = m !! id ∧ is_Some (m !! id)
          | None => m !! id = None
          end.

(** The inner backend accepts the encoded block. *)
Definition codec_accepts (b : Block) (s : S * R) : Prop :=
  ∀ d enc rnd', Data b = Some d → EncodeBytes codec d (Id b) s.2 = (inr enc, rnd') →
    bs_accepts (with_Data (Some enc) b) s.1.

#[export] Program Instance codec_store_ok : BlockStoreOk (codecBackend inner codec) :=
  {| bs_rep := codec_rep; bs_accepts := codec_accepts |}.
Next Obligation.
  intros id s m (m0 & Hrep & Hm). destruct (bs_GetBlockById id s.1 m0 Hrep) as (ob & s' & E & Hrep' & Hob).
  simpl. unfold codec_GetBlockById, lift_state. rewrite E. simpl. specialize (Hm id) as Hid.
  assert (codec_rep (s', s.2) m) as Hc by (by exists m0).
  destruct ob as [b|], (m0 !! id) as [[md e]|]; try done; simpl in *.
  - destruct Hob as (Hi & Hmd & _ & Hb). destruct Hid as [Hdec [[md' d] Hd]].
    unfold decode_entry in Hdec. simpl in Hdec. rewrite Hd in Hdec.
    destruct (DecodeBytes codec e id); [done|]. rewrite Hd.
    destruct (Data b) eqn:Eb; eexists _, _; (split; [done|]); split_and!; naive_solver.
  - rewrite Hid. by eexists _, _.
Qed.
Next Obligation.
  intros b s m md d (m0 & Hrep & Hm) Hb. simpl. unfold codec_GetBlockData, lift_state.
  pose proof (Hm (Id b)) as Hid. destruct (m0 !! Id b) as [[md0 e]|] eqn:E0; [|congruence].
  destruct (bs_GetBlockData b s.1 m0 md0 e Hrep E0) as (s' & E & Hrep'). rewrite E. simpl.
  destruct Hid as [Hdec _]. unfold decode_entry in Hdec. simpl in Hdec. rewrite Hb in Hdec.
  destruct (DecodeBytes codec e (Id b)) as [|d']; [done|]. injection Hdec as _ ->.
  eexists. split; [done|]. by exists m0.
Qed.
Next Obligation.
  intros b s m r s' (m0 & Hrep & Hm). simpl. unfold codec_GetBlockData, lift_state.
  destruct (be_GetBlockData inner b s.1) as [[r1 s1]| |] eqn:E; [|done..]. simpl.
  destruct (DecodeBytes codec (default "" r1) (Id b)); [done|]. intros [= _ <-].
  exists m0. split; [by eapply bs_GetBlockData_pure|done].
Qed.
Next Obligation.
  intros b s m d (m0 & Hrep & Hm) Hb Hd Hacc. simpl. unfold codec_StoreBlock, lift_unit. rewrite Hd. simpl.
  pose proof (Hm (Id b)) as Hid. destruct (m0 !! Id b) as [x|] eqn:E0.
  { destruct Hid as [_ [y Hy]]. congruence. }
  destruct (codec_total d (Id b) s.2) as (enc & rnd' & Henc). rewrite Henc. simpl.
  destruct (bs_StoreBlock (with_Data (Some enc) b) s.1 m0 enc Hrep E0 eq_refl (Hacc d enc rnd' Hd Henc))
    as (s' & E & Hrep').
  rewrite E. simpl. eexists. split; [done|]. eexists. split; [done|]. intros id. simpl.
  destruct (decide (id = Id b)) as [->|Hne].
  - rewrite !lookup_insert_eq. unfold decode_entry. simpl.
    rewrite (codec_roundtrip _ _ _ _ _ Henc). eauto.
  - rewrite !lookup_insert_ne by done. apply Hm.
Qed.
Next Obligation.
  intros b s m x (m0 & Hrep & Hm) Hb. simpl. unfold lift_unit. pose proof (Hm (Id b)) as Hid.
  destruct (m0 !! Id b) as [y|] eqn:E0; [|congruence].
  destruct (bs_DeleteBlock b s.1 m0 y Hrep E0) as (s' & E & Hrep'). rewrite E. simpl.
  eexists. split; [done|]. eexists. split; [done|]. intros id. simpl.
  destruct (decide (id = Id b)) as [->|Hne].
  - by rewrite !lookup_delete_eq.
  - rewrite !lookup_delete_ne by done. apply Hm.
Qed.

End codec_ok.

(** ** Properties *)

(** Through a codecBackend over any block store, what StoreBlock stores, GetBlockData
    returns, GetBlockById finds it with its metadata, and a deleted block is gone; the
    other blocks are as before. *)
Theorem codec_backend_roundtrip {S R : Type} (inner : Backend S) (codec : Codec R)
  `{!BlockStoreOk inner} `{!CodecOk codec} `{!CodecTotal codec} (b : Block) (s : S * R) (m : blockmap) d :
  codec_rep inner codec s m → m !! Id b = None → Data b = Some d → codec_accepts inner codec b s →
  ∃ s1 s2 s3, be_StoreBlock (codecBackend inner codec) b s = Ok s1 ∧
    codec_rep inner codec s1 (<[Id b := (Meta b, d)]> m) ∧
    be_GetBlockData (codecBackend inner codec) b s1 = Ok (Some d, s2) ∧
    be_DeleteBlock (codecBackend inner codec) b s2 = Ok s3 ∧
    codec_rep inner codec s3 m.
Proof.
  intros Hs Hm Hd Hacc. change (bs_rep (be := codecBackend inner codec) s m) in Hs.
  destruct (bs_StoreBlock (be := codecBackend inner codec) b s m d Hs Hm Hd Hacc) as (s1 & E1 & Hs1).
  destruct (bs_GetBlockData (be := codecBackend inner codec) b s1 _ (Meta b) d Hs1 (lookup_insert_eq _ _ _)) as (s2 & E2 & Hs2).
  destruct (bs_DeleteBlock (be := codecBackend inner codec) b s2 _ _ Hs2 (lookup_insert_eq _ _ _)) as (s3 & E3 & Hs3).
  exists s1, s2, s3. split_and!; try done. rewrite delete_insert_id in Hs3 by done. done.
Qed.

(** A storage that is set up with a codec does not use it: StoreBlock of the backend that
    [Storage.Init] builds hands the block to the inner backend as it is, where the
    codecBackend of the source would hand on the encoded bytes. *)
Theorem Storage_Init_drops_codec {S R : Type} (be : Backend S) (codec : Codec R) (b : Block) (s : S) :
  be_StoreBlock (Storage_Init_Backend be (Some codec)) b s = be_StoreBlock be b s ∧
  be_GetBlockData (Storage_Init_Backend be (Some codec)) b s = be_GetBlockData be b s.
Proof. done. Qed.

(** UpdateBlock of the in-memory backend does not store the metadata it is given: the
    block that is read back has the reference count it was stored with. *)
Theorem inmemory_update_is_lost (b : Block) (s : InMemory.inMemoryBackend) (meta : BlockMetadata) :
  InMemory.id2Block s !! Id b = None →
  ∃ s1 s2, InMemory.StoreBlock b s = Ok s1 ∧ InMemory.UpdateBlock (with_Meta meta b) s1 = Ok (1%Z, s2) ∧
    InMemory.GetBlockById (Id b) s2 = Ok (Some (with_hasBackend true b), s2).
Proof.
  intros Hn. unfold InMemory.StoreBlock, InMemory.UpdateBlock, InMemory.GetBlockById. rewrite Hn.
  eexists _, _. split; [done|]. simpl. rewrite lookup_insert_eq. split; [done|]. simpl. by rewrite lookup_insert_eq.
Qed.

Module BackendWitness.
Definition bl : Block := with_Data (Some "hello") (new_Block "id1").
Definition chain : Codec nat :=
  chain_codec (CodecChain_Init [CompressingCodec DemoCodec.identity DemoCodec.identity
    (λ cd, inr (String (byte_chr (cd_CompressionType cd)) (RawData cd)))
    DemoCodec.cunmarshal CompressionType_PLAIN]).
#[local] Instance chain_is_ok : CodecOk chain.
Proof. constructor. intros data ad rnd enc rnd' [= <- _]. done. Qed.
#[local] Instance chain_is_total : CodecTotal chain.
Proof. constructor. intros data ad rnd. eexists _, _. done. Qed.

Lemma codec_backend_roundtrip_witness :
  ∃ s1, be_StoreBlock (codecBackend InMemory.backend chain) bl (InMemory.NewInMemoryBackend, 0) = Ok s1.
Proof.
  destruct (codec_backend_roundtrip InMemory.backend chain bl (InMemory.NewInMemoryBackend, 0) ∅ "hello")
    as (s1 & _ & _ & E & _); [|done..|by exists s1].
  exists ∅. split; [apply InMemory.rep_new|by intros id].
Defined.

Lemma inmemory_update_is_lost_witness :
  ∃ s1 s2, InMemory.StoreBlock bl InMemory.NewInMemoryBackend = Ok s1 ∧
    InMemory.UpdateBlock (with_Meta (mkMeta 5 BS_NORMAL) bl) s1 = Ok (1%Z, s2) ∧
    InMemory.GetBlockById "id1" s2 = Ok (Some (with_hasBackend true bl), s2).
Proof. exact (inmemory_update_is_lost bl InMemory.NewInMemoryBackend (mkMeta 5 BS_NORMAL) eq_refl). Defined.
End BackendWitness.
