(* ===== verification/TreeLocation.v ===== *)
(** * Locations on the device (src/storage/tree/locationentry.go, locationslice.go, persist.go)

    The tree backend keeps everything on one flat device.  A location is an offset
    and a size in bytes; space is handed out in blocks of 512 bytes.  Locations serve
    as keys of the free lists (size first, or offset first) and as ids of tree nodes.
    The in-memory file is the device of the backend when no directory is given. *)
From stdpp Require Import base list sets strings sorting.
From Stdlib Require Import ZArith Lia Ascii.
From S2P Require Import Prelude OrderedMap Util.

Definition blockSize : Z := 512.
Definition treeNodeMaximumSize : Z := 4096.
Definition superBlockSize : Z := 65536.

(** ** The code *)

Record LocationEntry : Type := mkLE { Offset : Z; Size : Z }.
Definition LocationSlice : Type := list LocationEntry.
Record OpEntry : Type := mkOpEntry { op_Location : LocationEntry; op_Free : bool }.

#[export] Instance LocationEntry_eq_dec : EqDecision LocationEntry.
Proof. solve_decision. Defined.

Definition BlockSize (self : LocationEntry) : Z :=
  let s := Size self in
  if (s mod blockSize =? 0)%Z then s else wrap64 (s + (blockSize - s mod blockSize)).

Definition ToKeySO (self : LocationEntry) : string :=
  ConcatBytes [Uint64Bytes (BlockSize self); Uint64Bytes (Offset self)].
Definition ToKeyOS (self : LocationEntry) : string :=
  ConcatBytes [Uint64Bytes (Offset self); Uint64Bytes (BlockSize self)].

Definition NewLocationEntryFromKeySO (key : string) : res LocationEntry :=
  let! s := be_read 8 key in
  let! b := str_from key 8 in
  let! o := be_read 8 b in
  Ok (mkLE o s).

Definition locationEntryEncodedLength : nat := 16.

Fixpoint ToBlockId (self : LocationSlice) : string :=
  match self with
  | [] => ""
  | le :: self' => ToKeySO le +:+ ToBlockId self'
  end.

(** The loop of [NewLocationSliceFromBlockId] over the offsets below [len(b)]; the
    turns left bound it. *)
Fixpoint location_loop (turns : nat) (b : string) : res LocationSlice :=
  match turns with
  | O => Ok []
  | S turns' =>
      let! key := str_to b locationEntryEncodedLength in
      let! le := NewLocationEntryFromKeySO key in
      let! b := str_from b locationEntryEncodedLength in
      let! ls := location_loop turns' b in
      Ok (le :: ls)
  end.

Definition NewLocationSliceFromBlockId (bid : string) : res LocationSlice :=
  if negb (String.length bid mod locationEntryEncodedLength =? 0) then Panic "Invalid BlockId"
  else location_loop (String.length bid / locationEntryEncodedLength) bid.

(** *** inMemoryFile *)

(** The bytes of the pretend file. *)
Definition inMemoryFile : Type := list ascii.
Definition zeros (n : nat) : list ascii := repeat zero n.

Definition file_Size (self : inMemoryFile) : Z := Z.of_nat (length self).

(** [copy(b[ofs:ofs+v.Size], self.b[v.Offset:])] into fresh zero bytes. *)
Definition read_entry (self : inMemoryFile) (v : LocationEntry) : res (list ascii) :=
  let! src := slice_from self (Offset v) in
  let got := take (Z.to_nat (Size v)) src in
  Ok (got ++ zeros (Z.to_nat (Size v) - length got)).

Fixpoint read_entries (self : inMemoryFile) (location : LocationSlice) : res (list ascii) :=
  match location with
  | [] => Ok []
  | v :: location' =>
      let! b := read_entry self v in
      let! rest := read_entries self location' in
      Ok (b ++ rest)
  end.

Definition file_ReadData (self : inMemoryFile) (location : LocationSlice) : res string :=
  let! b := read_entries self location in
  Ok (String.string_of_list_ascii b).

(** [copy(dst[o:], src)]. *)
Definition copy_at (dst : list ascii) (o : nat) (src : list ascii) : list ascii :=
  let src := take (length dst - o) src in
  take o dst ++ src ++ drop (o + length src) dst.

(** One turn of [WriteData]: the file grows with zero bytes up to the end of the
    entry, then the next [Size] bytes of the data are copied in. *)
Definition write_entry (self : inMemoryFile) (v : LocationEntry) (data : list ascii)
  : res inMemoryFile :=
  let eofs := wrap64 (Offset v + Size v) in
  let b :=
    if (file_Size self <? eofs)%Z then self ++ zeros (Z.to_nat (eofs - file_Size self)) else self in
  let! src := slice_to data (Size v) in
  Ok (copy_at b (Z.to_nat (Offset v)) src).

Fixpoint write_entries (self : inMemoryFile) (location : LocationSlice) (data : list ascii)
  : res inMemoryFile :=
  match location with
  | [] => Ok self
  | v :: location' =>
      let! self := write_entry self v data in
      let! data := slice_from data (Size v) in
      write_entries self location' data
  end.

Definition file_WriteData (self : inMemoryFile) (location : LocationSlice) (data : string)
  : res inMemoryFile :=
  write_entries self location (String.list_ascii_of_string data).

(** ** Keys of entries *)

Definition le_ok (le : LocationEntry) : Prop :=
  (0 ≤ Offset le ∧ 0 ≤ Size le ∧ Offset le + BlockSize le < 2 ^ 63)%Z.

Lemma BlockSize_spec le :
  (0 ≤ Size le < 2 ^ 63)%Z →
  (Size le ≤ BlockSize le < Size le + 512 ∧ BlockSize le mod 512 = 0)%Z.
Proof.
  intros Hs. unfold BlockSize, blockSize, wrap64.
  pose proof (Z.mod_pos_bound (Size le) 512) as Hm. destruct (Z.eqb_spec (Size le mod 512) 0); [lia|].
  rewrite Z.mod_small by lia. split; [lia|].
  replace (Size le + (512 - Size le mod 512))%Z with ((Size le / 512 + 1) * 512)%Z.
  - apply Z.mod_mul. lia.
  - pose proof (Z.div_mod (Size le) 512). lia.
Qed.

Lemma BlockSize_aligned o s : (s mod 512 = 0)%Z → BlockSize (mkLE o s) = s.
Proof. intros H. unfold BlockSize, blockSize. simpl. by rewrite H. Qed.

Lemma ToKeySO_eq le : ToKeySO le = be_bytes 8 (BlockSize le) +:+ be_bytes 8 (Offset le).
Proof. unfold ToKeySO, ConcatBytes, Uint64Bytes. cbn [foldr]. by rewrite str_app_nil. Qed.
Lemma ToKeyOS_eq le : ToKeyOS le = be_bytes 8 (Offset le) +:+ be_bytes 8 (BlockSize le).
Proof. unfold ToKeyOS, ConcatBytes, Uint64Bytes. cbn [foldr]. by rewrite str_app_nil. Qed.

Lemma ToKeySO_length le : String.length (ToKeySO le) = 16.
Proof. by rewrite ToKeySO_eq, str_length_app, !be_bytes_length. Qed.

Lemma ToKeySO_decode le :
  in_uint64 (Offset le) → in_uint64 (BlockSize le) →
  NewLocationEntryFromKeySO (ToKeySO le) = Ok (mkLE (Offset le) (BlockSize le)).
Proof.
  intros Ho Hs. unfold NewLocationEntryFromKeySO. rewrite ToKeySO_eq, be_read_bytes by done.
  cbn [res_bind]. pose proof (str_from_app (be_bytes 8 (BlockSize le)) (be_bytes 8 (Offset le))) as E.
  rewrite be_bytes_length in E. rewrite E. cbn [res_bind].
  rewrite <- (str_app_nil (be_bytes 8 (Offset le))), be_read_bytes by done. done.
Qed.

(** The size-first keys are ordered by size, then offset. *)
Lemma ToKeySO_ltb a b :
  in_uint64 (Offset a) → in_uint64 (BlockSize a) → in_uint64 (Offset b) → in_uint64 (BlockSize b) →
  kltb (ToKeySO a) (ToKeySO b) =
  (BlockSize a <? BlockSize b)%Z || ((BlockSize a =? BlockSize b)%Z && (Offset a <? Offset b)%Z).
Proof.
  intros. rewrite !ToKeySO_eq, be_bytes_order by done. by rewrite be_bytes_ltb by done.
Qed.

(** Two locations with the same key have the same place. *)
Lemma ToKeySO_inj a b :
  in_uint64 (Offset a) → in_uint64 (BlockSize a) → in_uint64 (Offset b) → in_uint64 (BlockSize b) →
  ToKeySO a = ToKeySO b → Offset a = Offset b ∧ BlockSize a = BlockSize b.
Proof.
  intros Ha Ha' Hb Hb' E. pose proof (ToKeySO_decode a Ha Ha') as D.
  rewrite E, ToKeySO_decode in D by done. by injection D.
Qed.
Lemma ToKeyOS_inj a b :
  in_uint64 (Offset a) → in_uint64 (BlockSize a) → in_uint64 (Offset b) → in_uint64 (BlockSize b) →
  ToKeyOS a = ToKeyOS b → Offset a = Offset b ∧ BlockSize a = BlockSize b.
Proof.
  intros Ha Ha' Hb Hb'. rewrite !ToKeyOS_eq. intros E.
  pose proof (be_read_bytes 8 (Offset a) (be_bytes 8 (BlockSize a)) Ha) as R.
  rewrite E, be_read_bytes in R by done. injection R as Eo. rewrite Eo in E.
  apply (f_equal (λ s, str_from s 8)) in E.
  pose proof (str_from_app (be_bytes 8 (Offset a)) (be_bytes 8 (BlockSize a))) as E1.
  pose proof (str_from_app (be_bytes 8 (Offset a)) (be_bytes 8 (BlockSize b))) as E2.
  rewrite be_bytes_length in E1, E2. rewrite E1, E2 in E. apply (inj Ok) in E.
  split; [done|]. apply (be_bytes_inj 8); [exact Ha'|exact Hb'|done].
Qed.

(** Block ids: the entries, with their sizes rounded up. *)
Lemma ToBlockId_length ls : String.length (ToBlockId ls) = 16 * length ls.
Proof. induction ls as [|le ls IH]; [done|]. cbn [ToBlockId length]. rewrite str_length_app, ToKeySO_length. lia. Qed.

Lemma location_loop_ok ls :
  Forall (λ le, in_uint64 (Offset le) ∧ in_uint64 (BlockSize le)) ls →
  location_loop (length ls) (ToBlockId ls) = Ok (map (λ le, mkLE (Offset le) (BlockSize le)) ls).
Proof.
  induction 1 as [|le ls [Ho Hs] _ IH]; [done|]. cbn [length location_loop ToBlockId map].
  pose proof (str_to_app (ToKeySO le) (ToBlockId ls)) as E1.
  pose proof (str_from_app (ToKeySO le) (ToBlockId ls)) as E2. rewrite ToKeySO_length in E1, E2.
  change locationEntryEncodedLength with 16. rewrite E1. cbn [res_bind].
  rewrite ToKeySO_decode by done. cbn [res_bind]. rewrite E2. cbn [res_bind]. by rewrite IH.
Qed.

(** ** The file *)

(** [n] bytes at offset [o]. *)
Definition region (f : list ascii) (o n : nat) : list ascii := take n (drop o f).

Lemma region_ext f f' o n :
  (∀ i, o ≤ i < o + n → f !! i = f' !! i) → region f o n = region f' o n.
Proof.
  intros H. apply list_eq. intros i. unfold region. destruct (decide (i < n)).
  - rewrite !lookup_take_lt, !lookup_drop by done. apply H. lia.
  - by rewrite !lookup_take_ge by lia.
Qed.

Lemma region_length f o n : o + n ≤ length f → length (region f o n) = n.
Proof. intros H. unfold region. rewrite length_take, length_drop. lia. Qed.

Lemma copy_at_lookup dst o src i :
  o + length src ≤ length dst →
  copy_at dst o src !! i = if decide (o ≤ i < o + length src) then src !! (i - o) else dst !! i.
Proof.
  intros H. unfold copy_at. rewrite (take_ge src) by lia.
  assert (length (take o dst) = o) as Ho by (rewrite length_take; lia).
  destruct (decide (o ≤ i < o + length src)).
  - rewrite lookup_app_r by lia. rewrite Ho. by rewrite lookup_app_l by lia.
  - destruct (decide (i < o)).
    + rewrite lookup_app_l by lia. by apply lookup_take_lt.
    + rewrite lookup_app_r, lookup_app_r, Ho, lookup_drop by lia. f_equal. lia.
Qed.

Lemma copy_at_length dst o src : o + length src ≤ length dst → length (copy_at dst o src) = length dst.
Proof.
  intros H. unfold copy_at. rewrite (take_ge src) by lia.
  rewrite !length_app, length_take, length_drop. lia.
Qed.

Lemma read_entry_ok f v :
  (0 ≤ Offset v)%Z → (0 ≤ Size v)%Z → (Offset v + Size v ≤ file_Size f)%Z →
  read_entry f v = Ok (region f (Z.to_nat (Offset v)) (Z.to_nat (Size v))).
Proof.
  unfold file_Size. intros Ho Hs Hf. unfold read_entry.
  rewrite <- (Z2Nat.id (Offset v) Ho) at 1. rewrite slice_from_Ok by lia. cbn [res_bind].
  fold (region f (Z.to_nat (Offset v)) (Z.to_nat (Size v))). rewrite region_length by lia.
  rewrite Nat.sub_diag. simpl. by rewrite app_nil_r.
Qed.

(** Writing puts the data in the region and leaves the rest alone; the file ends
    at the end of the region or where it ended before. *)
Lemma write_entry_ok f v data :
  (0 ≤ Offset v)%Z → (0 ≤ Size v)%Z → (Offset v + Size v < 2 ^ 64)%Z →
  (Size v ≤ Z.of_nat (length data))%Z →
  ∃ f', write_entry f v data = Ok f' ∧
    length f' = Nat.max (length f) (Z.to_nat (Offset v + Size v)) ∧
    region f' (Z.to_nat (Offset v)) (Z.to_nat (Size v)) = take (Z.to_nat (Size v)) data ∧
    ∀ i, i < length f → ¬ (Offset v ≤ Z.of_nat i < Offset v + Size v)%Z → f' !! i = f !! i.
Proof.
  intros Ho Hs Hw Hd. unfold write_entry, wrap64, file_Size. rewrite Z.mod_small by lia.
  replace (slice_to data (Size v)) with (slice_to data (Z.of_nat (Z.to_nat (Size v)))) by (by rewrite Z2Nat.id).
  rewrite slice_to_Ok by lia. cbn [res_bind].
  set (b := if (_ <? _)%Z then _ else _).
  assert (length b = Nat.max (length f) (Z.to_nat (Offset v + Size v))) as Hb.
  { subst b. destruct (Z.ltb_spec (Z.of_nat (length f)) (Offset v + Size v)); [|lia].
    unfold zeros. rewrite length_app, repeat_length. lia. }
  assert (∀ i, i < length f → b !! i = f !! i) as Hbf.
  { intros i Hi. subst b. destruct (_ <? _)%Z; [|done]. by apply lookup_app_l. }
  assert (length (take (Z.to_nat (Size v)) data) = Z.to_nat (Size v)) as Ht
    by (rewrite length_take; lia).
  eexists. split; [done|]. rewrite copy_at_length by lia. split_and!; [done| |].
  - apply list_eq. intros i. destruct (decide (i < Z.to_nat (Size v))) as [Hi|Hi].
    + unfold region. rewrite lookup_take_lt, lookup_drop, copy_at_lookup by lia.
      rewrite decide_True by lia. f_equal. lia.
    + unfold region. by rewrite !lookup_take_ge by lia.
  - intros i Hi Hout. rewrite copy_at_lookup, decide_False by lia. auto.
Qed.

(** ** Properties *)

(** A node id made of a location slice decodes to the entries of the slice, with sizes rounded
    up to whole blocks, and ids whose length is not a multiple of 16 panic. *)
Theorem block_id_roundtrip ls :
  Forall (λ le, in_uint64 (Offset le) ∧ in_uint64 (BlockSize le)) ls →
  NewLocationSliceFromBlockId (ToBlockId ls) = Ok (map (λ le, mkLE (Offset le) (BlockSize le)) ls) ∧
  ∀ x, NewLocationSliceFromBlockId (ToBlockId ls +:+ String x "") = Panic "Invalid BlockId".
Proof.
  intros H. unfold NewLocationSliceFromBlockId, locationEntryEncodedLength. split.
  - rewrite ToBlockId_length, Nat.mul_comm, Nat.Div0.mod_mul. cbn [Nat.eqb negb].
    rewrite Nat.div_mul by done. by apply location_loop_ok.
  - intros x. rewrite str_length_app, ToBlockId_length. cbn [String.length].
    rewrite Nat.add_comm, Nat.mul_comm, Nat.Div0.mod_add. done.
Qed.
Module LocationWitness.
Lemma block_id_roundtrip_witness :
  NewLocationSliceFromBlockId (ToBlockId [mkLE 65536 1000; mkLE 4096 512]) =
  Ok [mkLE 65536 1024; mkLE 4096 512].
Proof.
  destruct (block_id_roundtrip [mkLE 65536 1000; mkLE 4096 512]) as [H _].
  - repeat constructor; vm_compute; done.
  - rewrite H. reflexivity.
Defined.
End LocationWitness.

(** ** systemFile *)

(** The file of the operating system is its bytes.  A read stops at the end of the file, and is an error there; a write
    past the end leaves zeros in between.  An offset that is negative as an int64 cannot be sought. *)
Module SystemFile.
Definition systemFile : Type := list ascii.
Definition Seek (offset : Z) : res nat := if (offset <? 2 ^ 63)%Z then Ok (Z.to_nat offset) else Panic "invalid argument".
Definition pread (self : systemFile) (o n : nat) : res (list ascii) :=
  if decide (n ≠ 0 ∧ length self ≤ o) then Panic "EOF" else Ok (take n (drop o self)).
Definition pwrite (self : systemFile) (o : nat) (src : list ascii) : systemFile :=
  match src with
  | [] => self
  | _ :: _ => take o self ++ zeros (o - length self) ++ src ++ drop (o + length src) self
  end.

Definition sys_Size (self : systemFile) : Z := Z.of_nat (length self).
(** Bytes that are not read stay zero. *)
Definition sys_read_entry (self : systemFile) (v : LocationEntry) : res (list ascii) :=
  let! o := Seek (Offset v) in
  let! got := pread self o (Z.to_nat (Size v)) in
  Ok (got ++ zeros (Z.to_nat (Size v) - length got)).
Fixpoint sys_read_entries (self : systemFile) (location : LocationSlice) : res (list ascii) :=
  match location with
  | [] => Ok []
  | v :: location' =>
      let! b := sys_read_entry self v in
      let! rest := sys_read_entries self location' in
      Ok (b ++ rest)
  end.
Definition sys_ReadData (self : systemFile) (location : LocationSlice) : res string :=
  let! b := sys_read_entries self location in
  Ok (String.string_of_list_ascii b).

Fixpoint sys_write_entries (self : systemFile) (location : LocationSlice) (data : list ascii) : res systemFile :=
  match location with
  | [] => Ok self
  | v :: location' =>
      let! o := Seek (Offset v) in
      let! src := slice_to data (Size v) in
      let self := pwrite self o src in
      let! data := slice_from data (Size v) in
      sys_write_entries self location' data
  end.
Definition sys_WriteData (self : systemFile) (location : LocationSlice) (data : string) : res systemFile :=
  sys_write_entries self location (String.list_ascii_of_string data).

(** Entries a file can have. *)
Definition le_file (v : LocationEntry) : Prop := (0 ≤ Offset v ∧ 0 < Size v ∧ Offset v + Size v < 2 ^ 63)%Z.

Lemma Seek_ok v : le_file v → Seek (Offset v) = Ok (Z.to_nat (Offset v)).
Proof. intros (Ho & Hs & Hl). unfold Seek. destruct (Z.ltb_spec (Offset v) (2 ^ 63)); [done|lia]. Qed.
Lemma read_entry_same f v : le_file v → (Offset v < file_Size f)%Z → sys_read_entry f v = read_entry f v.
Proof.
  intros Hv Hf. unfold sys_read_entry, read_entry, pread. rewrite Seek_ok by done. destruct Hv as (Ho & Hs & _). unfold file_Size in Hf.
  cbn [res_bind]. rewrite decide_False by lia. cbn [res_bind]. rewrite <- (Z2Nat.id (Offset v) Ho) at 3.
  by rewrite slice_from_Ok by lia.
Qed.
Lemma take_zeros n k : n ≤ k → take n (zeros k) = zeros n.
Proof.
  revert k. induction n as [|n IH]; intros k Hk; [done|]. destruct k as [|k]; [lia|]. unfold zeros in *. cbn. by rewrite IH by lia.
Qed.
Lemma copy_at_pwrite f o src k :
  src ≠ [] → k = o + length src - length f → copy_at (f ++ zeros k) o src = pwrite f o src.
Proof.
  intros Hne ->. set (k := o + length src - length f). assert (length (zeros k) = k) as Hz by apply repeat_length.
  unfold copy_at. rewrite (take_ge src) by (rewrite length_app; lia). rewrite take_app, drop_app.
  rewrite (drop_ge (zeros k)) by lia. rewrite app_nil_r.
  assert (take (o - length f) (zeros k) = zeros (o - length f)) as ->.
  { apply take_zeros. destruct src; [done|]. cbn [length] in *. lia. }
  destruct src as [|c src]; [done|]. unfold pwrite. by rewrite <- app_assoc.
Qed.
Lemma write_entry_same f v src data :
  le_file v → slice_to data (Size v) = Ok src → write_entry f v data = Ok (pwrite f (Z.to_nat (Offset v)) src).
Proof.
  intros (Ho & Hs & Hl) E. unfold write_entry, wrap64, file_Size. rewrite Z.mod_small by lia. rewrite E. cbn [res_bind]. f_equal.
  unfold slice_to in E. destruct (Z.ltb_spec (Size v) 0); [lia|]. destruct (Z.ltb_spec (Z.of_nat (length data)) (Size v)); [done|].
  injection E as <-. assert (length (take (Z.to_nat (Size v)) data) = Z.to_nat (Size v)) as Hn by (rewrite length_take; lia).
  assert (take (Z.to_nat (Size v)) data ≠ []) as Hne by (intros E; rewrite E in Hn; cbn in Hn; lia).
  destruct (Z.ltb_spec (Z.of_nat (length f)) (Offset v + Size v)).
  - apply copy_at_pwrite; [done|]. rewrite Hn. lia.
  - rewrite <- (copy_at_pwrite f _ _ 0); [by rewrite app_nil_r|done|rewrite Hn; lia].
Qed.

(** The file of the operating system behaves as the one in memory: writes are the same, and so are reads of entries
    that start in the file. *)
Theorem systemFile_same f location data :
  Forall le_file location →
  sys_WriteData f location data = file_WriteData f location data ∧
  (Forall (λ v, Offset v < file_Size f)%Z location → sys_ReadData f location = file_ReadData f location).
Proof.
  intros Hl. unfold sys_WriteData, file_WriteData, sys_ReadData, file_ReadData. split.
  - generalize (String.list_ascii_of_string data) as d. revert f. induction Hl as [|v ls Hv Hl IH]; intros f d; [done|]. cbn.
    rewrite Seek_ok by done. cbn [res_bind]. destruct (slice_to d (Size v)) as [src| |] eqn:E; cbn [res_bind].
    + rewrite (write_entry_same f v src d) by done. cbn [res_bind]. destruct (slice_from d (Size v)); cbn [res_bind]; auto.
    + unfold write_entry. by rewrite E.
    + unfold write_entry. by rewrite E.
  - intros Hf. apply (f_equal (λ r, let! b := r in Ok (String.string_of_list_ascii b))).
    induction Hl as [|v ls Hv Hl IH]; [done|]. apply Forall_cons in Hf as [Hfv Hf]. cbn. rewrite read_entry_same by done.
    destruct (read_entry f v); cbn [res_bind]; [|done..]. by rewrite IH.
Qed.
(** A read at the end of the file panics, where the file in memory gives zeros. *)
Example read_at_end : sys_ReadData [] [mkLE 0 1] = Panic "EOF" ∧ file_ReadData [] [mkLE 0 1] = Ok (String.string_of_list_ascii (zeros 1)).
Proof. by split. Qed.
End SystemFile.
