(* ===== verification/NameInBlock.v ===== *)
(** * Names in a block (src/storage/nameinblock.go)

    Backends without a name table of their own keep the map from names to block ids in
    one block with a fixed id.  The component reads it on the first use, keeps it in
    memory, and rewrites the block on every change. *)
From stdpp Require Import base list sets strings sorting gmap.
From Stdlib Require Import ZArith Lia Ascii.
From S2P Require Import Prelude OrderedMap Util Codec Backend.

Abbreviation namemap := (gmap string string).

Section code.
Context {S : Type} (bb : BlockBackend S).
(** The generated msgp code of [NameMapBlock]. *)
Context (marshal : namemap → gerr string) (unmarshal : string → gerr namemap).

Record NameInBlockBackend : Type := mkNIB {
  mapName : string;
  namedMap : option namemap;
  block : option Block
}.

Definition NIB_Init (name : string) : NameInBlockBackend := mkNIB name None None.

(** [Block.GetData] of a block without a storage. *)
Definition GetData_plain (b : Block) (s : S) : res (string * S) :=
  match Data b with
  | Some d => Ok (d, s)
  | None => let! r := be_GetBlockData bb b s in Ok (default "" r.1, r.2)
  end.

(** [getBlock]: the map, which the object keeps from now on. *)
Definition getBlock (self : NameInBlockBackend) (s : S)
  : res (namemap * NameInBlockBackend * S) :=
  match namedMap self with
  | Some m => Ok (m, self, s)
  | None =>
      let! r := be_GetBlockById bb (mapName self) s in
      match r.1 with
      | None => Ok (∅, mkNIB (mapName self) (Some ∅) (block self), r.2)
      | Some v =>
          let! b := GetData_plain v r.2 in
          match unmarshal b.1 with
          | inl err => Panic err
          | inr nmb => Ok (nmb, mkNIB (mapName self) (Some nmb) (Some v), b.2)
          end
      end
  end.

Definition NIB_GetBlockIdByName (name : string) (self : NameInBlockBackend) (s : S)
  : res (string * NameInBlockBackend * S) :=
  let! r := getBlock self s in
  Ok (default "" (r.1.1 !! name), r.1.2, r.2).

Definition NIB_SetNameToBlockId (name block_id : string) (self : NameInBlockBackend) (s : S)
  : res (NameInBlockBackend * S) :=
  let! r := getBlock self s in
  let nm := if negb (keqb block_id "") then <[name := block_id]> r.1.1 else delete name r.1.1 in
  let! s := match block r.1.2 with Some b => be_DeleteBlock bb b r.2 | None => Ok r.2 end in
  match marshal nm with
  | inl err => Panic err
  | inr b =>
      let bl := with_Data (Some b) (new_Block (mapName self)) in
      let! s := be_StoreBlock bb bl s in
      Ok (mkNIB (mapName self) (Some nm) (Some bl), s)
  end.

End code.

(** ** The names a backend holds *)

Section ok.
Context {S : Type} (bb : BlockBackend S) `{!BlockStoreOk bb}.
Context (marshal : namemap → gerr string) (unmarshal : string → gerr namemap).
Hypothesis marshal_ok : ∀ nm, ∃ b, marshal nm = inr b ∧ unmarshal b = inr nm.

(** The block of the names in the content of the backend. *)
Definition stored_names (m : blockmap) (name : string) (nm : namemap) : Prop :=
  match m !! name with
  | None => nm = ∅
  | Some (_, d) => unmarshal d = inr nm
  end.

(** The state of the component agrees with the block. *)
Definition nib_rep (self : NameInBlockBackend) (m : blockmap) (nm : namemap) : Prop :=
  stored_names m (mapName self) nm ∧
  match namedMap self with
  | None => block self = None
  | Some nm' => nm' = nm ∧
      match block self with
      | None => m !! mapName self = None
      | Some b => Id b = mapName self ∧ is_Some (m !! mapName self)
      end
  end.

(** Setting a name to the empty id removes it. *)
Definition set_name (name id : string) (nm : namemap) : namemap :=
  if negb (keqb id "") then <[name := id]> nm else delete name nm.

Lemma set_name_lookup name id nm name' :
  default "" (set_name name id nm !! name') = if decide (name' = name) then id else default "" (nm !! name').
Proof.
  unfold set_name. destruct (keqb id "") eqn:E; simpl.
  - apply keqb_eq in E as ->. destruct (decide (name' = name)) as [->|].
    + by rewrite lookup_delete_eq.
    + by rewrite lookup_delete_ne.
  - destruct (decide (name' = name)) as [->|].
    + by rewrite lookup_insert_eq.
    + by rewrite lookup_insert_ne.
Qed.

Lemma getBlock_ok self s m nm :
  bs_rep s m → nib_rep self m nm →
  ∃ self' s', getBlock bb unmarshal self s = Ok (nm, self', s') ∧ bs_rep s' m ∧ nib_rep self' m nm ∧
    mapName self' = mapName self ∧ namedMap self' = Some nm.
Proof.
  intros Hs [Hst Hself]. unfold getBlock. destruct (namedMap self) as [nm'|] eqn:En.
  { destruct Hself as [-> Hb]. exists self, s. split_and!; try done. split; [done|]. by rewrite En. }
  destruct (bs_GetBlockById (mapName self) s m Hs) as (ob & s1 & E & Hs1 & Hob). rewrite E. cbn [res_bind fst snd].
  unfold stored_names in Hst. destruct ob as [v|], (m !! mapName self) as [[md d]|] eqn:Em; try done.
  - destruct Hob as (Hid & _ & Hd & _).
    assert (∃ s2, GetData_plain bb v s1 = Ok (d, s2) ∧ bs_rep s2 m) as (s2 & E2 & Hs2).
    { unfold GetData_plain. destruct (Data v) as [d'|] eqn:Ev.
      - rewrite (Hd d') by done. eauto.
      - rewrite <- Hid in Em. destruct (bs_GetBlockData v s1 m md d Hs1 Em) as (s2 & E2 & Hs2).
        rewrite E2. eauto. }
    rewrite E2. cbn [res_bind fst snd]. rewrite Hst. eexists _, s2. split; [done|]. split_and!; try done.
    split; simpl; [unfold stored_names; by rewrite Em|]. rewrite Em. eauto.
  - subst nm. eexists _, s1. split; [done|]. split_and!; try done. split; simpl.
    + unfold stored_names. by rewrite Em.
    + rewrite Hself. done.
Qed.

Lemma SetNameToBlockId_ok name id self s m nm :
  bs_rep s m → nib_rep self m nm → (∀ b s, Id b = mapName self → bs_accepts b s) →
  ∃ self' s' m', NIB_SetNameToBlockId bb marshal unmarshal name id self s = Ok (self', s') ∧ bs_rep s' m' ∧
    nib_rep self' m' (set_name name id nm) ∧ mapName self' = mapName self ∧
    (∀ id', id' ≠ mapName self → m' !! id' = m !! id').
Proof.
  intros Hs Hn Hacc. unfold NIB_SetNameToBlockId.
  destruct (getBlock_ok self s m nm Hs Hn) as (self1 & s1 & E & Hs1 & Hn1 & Hname & Hmap).
  rewrite E. cbn [res_bind fst snd]. fold (set_name name id nm).
  destruct (marshal_ok (set_name name id nm)) as (b & Hb & Hu). rewrite Hb.
  assert (∃ s2 m2, match block self1 with Some b => be_DeleteBlock bb b s1 | None => Ok s1 end = Ok s2 ∧
    bs_rep s2 m2 ∧ m2 !! mapName self = None ∧ (∀ i, i ≠ mapName self → m2 !! i = m !! i))
    as (s2 & m2 & E2 & Hs2 & Hnone & Hrest).
  { destruct Hn1 as [_ Hn1]. rewrite Hmap in Hn1. destruct Hn1 as [_ Hn1]. rewrite Hname in Hn1.
    destruct (block self1) as [b1|].
    - destruct Hn1 as [Hid [x Hx]]. rewrite <- Hid in Hx.
      destruct (bs_DeleteBlock b1 s1 m x Hs1 Hx) as (s2 & E2 & Hs2).
      exists s2, (delete (Id b1) m). split_and!; try done.
      + by rewrite Hid, lookup_delete_eq.
      + intros i Hi. rewrite Hid. by rewrite lookup_delete_ne.
    - by exists s1, m. }
  rewrite E2. cbn [res_bind].
  destruct (bs_StoreBlock (with_Data (Some b) (new_Block (mapName self))) s2 m2 b Hs2) as (s3 & E3 & Hs3);
    try done; [by apply Hacc|].
  rewrite E3. cbn [res_bind]. eexists _, s3, _. split; [done|]. split; [done|]. split_and!; try done.
  - split; simpl.
    + unfold stored_names. by rewrite lookup_insert_eq.
    + rewrite lookup_insert_eq. eauto.
  - intros i Hi. simpl. rewrite lookup_insert_ne by done. auto.
Qed.

End ok.

(** ** Properties *)

(** C32: over a backend that keeps blocks and has room for that of the names, SetNameToBlockId followed by GetBlockIdByName,
    whether the object is the same or was created anew over the stored blocks, gives the
    id that was set for the name (none for the empty id), the previous answer for
    every other name, and leaves every other block alone. *)
Theorem names_persist {S : Type} (bb : BlockBackend S) `{!BlockStoreOk bb} marshal unmarshal name id self s m nm :
  (∀ nm, ∃ b, marshal nm = inr b ∧ unmarshal b = inr nm) →
  bs_rep s m → nib_rep unmarshal self m nm → (∀ b s, Id b = mapName self → bs_accepts b s) →
  ∃ self' s' m', NIB_SetNameToBlockId bb marshal unmarshal name id self s = Ok (self', s') ∧
    bs_rep s' m' ∧ (∀ id', id' ≠ mapName self → m' !! id' = m !! id') ∧
    ∀ self2 name', self2 = self' ∨ self2 = NIB_Init (mapName self) →
      ∃ self3 s3, NIB_GetBlockIdByName bb unmarshal name' self2 s' =
        Ok (if decide (name' = name) then id else default "" (nm !! name'), self3, s3) ∧ bs_rep s3 m'.
Proof.
  intros Hmsg Hs Hn Hacc.
  destruct (SetNameToBlockId_ok bb marshal unmarshal Hmsg name id self s m nm Hs Hn Hacc)
    as (self' & s' & m' & E & Hs' & Hn' & Hname & Hrest).
  exists self', s', m'. split_and!; try done. intros self2 name' Hor.
  assert (nib_rep unmarshal self2 m' (set_name name id nm)) as Hn2.
  { destruct Hor as [->| ->]; [done|]. destruct Hn' as [Hst _]. rewrite Hname in Hst. by split. }
  destruct (getBlock_ok bb unmarshal self2 s' m' _ Hs' Hn2) as (self3 & s3 & E3 & Hs3 & _).
  unfold NIB_GetBlockIdByName. rewrite E3. cbn [res_bind fst snd]. rewrite set_name_lookup. eauto.
Qed.

Module NameWitness.
(** Unary lengths separate the strings of the list. *)
Fixpoint enc_string (s rest : string) : string :=
  match s with EmptyString => String "0" rest | String c s' => String "1" (String c (enc_string s' rest)) end.
Fixpoint dec_string (s : string) : option (string * string) :=
  match s with
  | String "0" rest => Some ("", rest)
  | String "1" (String c s') => match dec_string s' with Some (a, r) => Some (String c a, r) | None => None end
  | _ => None
  end.
Fixpoint enc_list (l : list (string * string)) : string :=
  match l with [] => "" | (a, b) :: l' => enc_string a (enc_string b (enc_list l')) end.
Fixpoint dec_list (n : nat) (s : string) : list (string * string) :=
  match n with
  | O => []
  | S n' =>
      match dec_string s with
      | Some (a, r) => match dec_string r with Some (b, r') => (a, b) :: dec_list n' r' | None => [] end
      | None => []
      end
  end.
Definition marshal (nm : namemap) : gerr string := inr (enc_list (map_to_list nm)).
Definition unmarshal (s : string) : gerr namemap := inr (list_to_map (dec_list (String.length s) s)).

Lemma dec_enc s rest : dec_string (enc_string s rest) = Some (s, rest).
Proof. induction s as [|c s IH]; [done|]. simpl. by rewrite IH. Qed.
Lemma enc_string_length s rest : String.length rest < String.length (enc_string s rest).
Proof. induction s as [|c s IH]; simpl; lia. Qed.
Lemma dec_enc_list l : ∀ n, String.length (enc_list l) ≤ n → dec_list n (enc_list l) = l.
Proof.
  induction l as [|[a b] l IH]; intros n Hn; [by destruct n|].
  pose proof (enc_string_length a (enc_string b (enc_list l))). pose proof (enc_string_length b (enc_list l)).
  simpl in *. destruct n as [|n]; [lia|]. simpl. rewrite dec_enc, dec_enc, IH by lia. done.
Qed.
Lemma names_marshal_ok nm : ∃ b, marshal nm = inr b ∧ unmarshal b = inr nm.
Proof.
  eexists. split; [done|]. unfold unmarshal. by rewrite dec_enc_list, list_to_map_to_list.
Qed.

Lemma names_persist_witness :
  ∃ self' s', NIB_SetNameToBlockId InMemory.backend marshal unmarshal "root" "b1" (NIB_Init "names")
    InMemory.NewInMemoryBackend = Ok (self', s').
Proof.
  destruct (names_persist InMemory.backend marshal unmarshal "root" "b1" (NIB_Init "names")
    InMemory.NewInMemoryBackend ∅ ∅ names_marshal_ok) as (self' & s' & m' & E & _).
  - apply InMemory.rep_new.
  - by split.
  - done.
  - by exists self', s'.
Defined.
End NameWitness.
