(* ===== verification/Storage.v ===== *)
(** * Storage: the write-back cache of blocks (src/storage/storage.go, block.go, storageblock.go, storagejob.go)

    The storage keeps Block objects in memory, counts references to them and writes
    the changes to its backend when it is flushed.  Clients hold StorageBlocks and
    send jobs through a channel; one goroutine works on them.

    Objects that are shared by pointer ([*Block], [*StorageBlock]) live in heaps, and
    pointers are keys of the heaps.  Go iterates over maps in any order.  The map of names keeps
    its keys during the iteration: [order] is any order of them.  The maps of dirty blocks change
    while the flush ranges over them: [range] follows the language, with a choice [pick] of the
    next entry. *)
From stdpp Require Import base list sets strings sorting gmap.
From Stdlib Require Import ZArith Lia Ascii.
From S2P Require Import Prelude OrderedMap Util Codec Backend.

(** ** State *)

Record oldNewStruct : Type := mkOldNew { oldValue : string; newValue : string; gotStorageRef : bool }.

(** [block] is the future: unset, or set to a pointer that may be nil. *)
Record StorageBlock : Type := mkStorageBlock {
  sb_block : option (option positive);
  closed : bool;
  sb_id : string
}.

Inductive jobType : Type :=
| jobFlush | jobGetBlockById | jobGetBlockIdByName | jobSetNameToBlockId | jobSetStorageBlockStatus
| jobReferOrStoreBlock | jobUpdateBlockIdRefCount | jobUpdateBlockIdStorageRefCount | jobStoreBlock | jobQuit.

(** The fields of [jobIn] that are not set have their zero values. *)
Record jobIn : Type := mkJobIn {
  j_type : jobType;
  j_sb : option positive;
  j_count : Z;
  j_id : string;
  j_name : string;
  j_data : string;
  j_deps : option (list string);
  j_status : BlockStatus
}.
Definition job0 (ty : jobType) : jobIn := mkJobIn ty None 0 "" "" "" None BS_UNSET.

(** What is sent on the [out] channel of a job. *)
Inductive jobOut : Type := OutNothing | OutNil | OutId (id : string) | OutOk (ok : bool).

Definition C_READ : nat := 0.
Definition C_READBYTES : nat := 1.
Definition C_WRITE : nat := 2.
Definition C_WRITEBYTES : nat := 3.
Definition C_DELETE : nat := 4.
Definition NUM_C : nat := 5.

Record Storage (S : Type) : Type := mkStorage {
  s_be : S;
  heap : gmap positive Block;
  next : positive;
  blocks : gmap string positive;
  dirtyBlocks : gset positive;
  dirtyStorageRefBlocks : gset positive;
  names : gmap string oldNewStruct;
  counters : list Z;
  sbs : gmap positive StorageBlock;
  jobChannel : list jobIn
}.
Arguments mkStorage {S} _ _ _ _ _ _ _ _ _ _.
Arguments s_be {S} _.
Arguments heap {S} _.
Arguments next {S} _.
Arguments blocks {S} _.
Arguments dirtyBlocks {S} _.
Arguments dirtyStorageRefBlocks {S} _.
Arguments names {S} _.
Arguments counters {S} _.
Arguments sbs {S} _.
Arguments jobChannel {S} _.

(** ** The monad of the storage goroutine *)

Definition M (S A : Type) : Type := Storage S → res (A * Storage S).

#[export] Instance M_ret (S : Type) : MRet (M S) := λ A a s, Ok (a, s).
#[export] Instance M_bind (S : Type) : MBind (M S) := λ A B k m s,
  match m s with Ok (a, s') => k a s' | Panic msg => Panic msg | NoFuel => NoFuel end.

Definition panic {S A : Type} (msg : string) : M S A := λ _, Panic msg.
Definition gets {S A : Type} (f : Storage S → A) : M S A := λ s, Ok (f s, s).
Definition modify {S : Type} (f : Storage S → Storage S) : M S unit := λ s, Ok (tt, f s).

Section setters.
Context {S : Type}.
Abbreviation St := (Storage S).
Definition set_be (v : S) (s : St) : St :=
  mkStorage v (heap s) (next s) (blocks s) (dirtyBlocks s) (dirtyStorageRefBlocks s) (names s) (counters s) (sbs s) (jobChannel s).
Definition set_heap (v : gmap positive Block) (s : St) : St :=
  mkStorage (s_be s) v (next s) (blocks s) (dirtyBlocks s) (dirtyStorageRefBlocks s) (names s) (counters s) (sbs s) (jobChannel s).
Definition set_next (v : positive) (s : St) : St :=
  mkStorage (s_be s) (heap s) v (blocks s) (dirtyBlocks s) (dirtyStorageRefBlocks s) (names s) (counters s) (sbs s) (jobChannel s).
Definition set_blocks (v : gmap string positive) (s : St) : St :=
  mkStorage (s_be s) (heap s) (next s) v (dirtyBlocks s) (dirtyStorageRefBlocks s) (names s) (counters s) (sbs s) (jobChannel s).
Definition set_dirty (v : gset positive) (s : St) : St :=
  mkStorage (s_be s) (heap s) (next s) (blocks s) v (dirtyStorageRefBlocks s) (names s) (counters s) (sbs s) (jobChannel s).
Definition set_dirtyRef (v : gset positive) (s : St) : St :=
  mkStorage (s_be s) (heap s) (next s) (blocks s) (dirtyBlocks s) v (names s) (counters s) (sbs s) (jobChannel s).
Definition set_names (v : gmap string oldNewStruct) (s : St) : St :=
  mkStorage (s_be s) (heap s) (next s) (blocks s) (dirtyBlocks s) (dirtyStorageRefBlocks s) v (counters s) (sbs s) (jobChannel s).
Definition set_counters (v : list Z) (s : St) : St :=
  mkStorage (s_be s) (heap s) (next s) (blocks s) (dirtyBlocks s) (dirtyStorageRefBlocks s) (names s) v (sbs s) (jobChannel s).
Definition set_sbs (v : gmap positive StorageBlock) (s : St) : St :=
  mkStorage (s_be s) (heap s) (next s) (blocks s) (dirtyBlocks s) (dirtyStorageRefBlocks s) (names s) (counters s) v (jobChannel s).
Definition set_jobs (v : list jobIn) (s : St) : St :=
  mkStorage (s_be s) (heap s) (next s) (blocks s) (dirtyBlocks s) (dirtyStorageRefBlocks s) (names s) (counters s) (sbs s) v.
End setters.

Section code.
Context {S : Type} (be : Backend S).
(** [IterateReferencesCallback]: nil, or the ids it reports for an id and its data, in order. *)
Context (IterateReferencesCallback : option (string → string → list string)).
Context (order : ∀ A : Type, list A → list A).
Context (pick : Storage S → gset positive → gset positive → option positive).
Abbreviation M := (M S).

(** ** Pointers *)

(** Reading and writing through a [*Block]; a nil one panics. *)
Definition load (l : positive) : M Block := λ s,
  match heap s !! l with Some b => Ok (b, s) | None => Panic "invalid memory address or nil pointer dereference" end.
Definition upd (l : positive) (f : Block → Block) : M unit :=
  b ← load l; modify (λ s, set_heap (<[l := f b]> (heap s)) s).
Definition alloc (b : Block) : M positive := λ s,
  Ok (next s, set_next (Pos.succ (next s)) (set_heap (<[next s := b]> (heap s)) s)).
Definition nonnil (p : option positive) : M positive :=
  match p with Some l => mret l | None => panic "invalid memory address or nil pointer dereference" end.

(** [self.storage.counters[i].AddInt(n)]. *)
Definition count (i : nat) (n : Z) : M unit :=
  modify (λ s, set_counters (alter (Z.add n) i (counters s)) s).

(** A call of the backend. *)
Definition call {A : Type} (f : S → res (A * S)) : M A := λ s,
  match f (s_be s) with Ok (a, x) => Ok (a, set_be x s) | Panic msg => Panic msg | NoFuel => NoFuel end.
Definition call_ (f : S → res S) : M unit := λ s,
  match f (s_be s) with Ok x => Ok (tt, set_be x s) | Panic msg => Panic msg | NoFuel => NoFuel end.

(** ** block.go *)

(** [Block.GetData] of a block that has a storage. *)
Definition GetData (self : positive) : M string :=
  b ← load self;
  match Data b with
  | Some d => mret d
  | None =>
      data ← call (be_GetBlockData be b);
      let data := default "" data in
      _ ← upd self (with_Data (Some data));
      _ ← count C_READ 1;
      _ ← count C_READBYTES (Z.of_nat (String.length data));
      mret data
  end.

(** int32 arithmetic of the reference counts. *)
Definition wrap32 (z : Z) : Z := ((z + 2147483648) mod 4294967296 - 2147483648)%Z.

Definition addStorageRefCount (self : positive) (v : Z) : M unit :=
  _ ← upd self (λ b, with_storageRefCount (wrap32 (storageRefCount b + v)) b);
  b ← load self;
  let rc := storageRefCount b in
  if (rc <? 0)%Z then panic "Negative reference count"
  else if (rc =? 0)%Z then modify (λ s, set_dirtyRef ({[self]} ∪ dirtyStorageRefBlocks s) s)
  else if negb (Bool.eqb (RefCount (Meta b) =? 0)%Z (haveStorageRefs b))
  then modify (λ s, set_dirtyRef ({[self]} ∪ dirtyStorageRefBlocks s) s)
  else mret tt.

Definition addExternalStorageRefCount (self : positive) (v : Z) : M Z :=
  b ← load self;
  let nv := wrap32 (externalStorageRefCount b + v) in
  _ ← upd self (with_externalStorageRefCount nv);
  if (nv <? 0)%Z then panic "Negative reference count" else mret nv.

Definition markDirty (self : positive) : M unit :=
  b ← load self;
  match Stored b with
  | Some _ => mret tt
  | None =>
      _ ← addStorageRefCount self 1;
      _ ← upd self (λ b, with_Stored (Some (mkMeta (RefCount (Meta b)) (Status (Meta b)))) b);
      modify (λ s, set_dirty ({[self]} ∪ dirtyBlocks s) s)
  end.

(** [Storage.getBlockById]. *)
Definition getBlockById (id : string) : M (option positive) :=
  bs ← gets blocks;
  match bs !! id with
  | Some b => mret (Some b)
  | None =>
      ob ← call (be_GetBlockById be id);
      match ob with
      | None => mret None
      | Some b =>
          let b := with_Stored None (with_haveStorageRefs false (with_haveDiskRefs true
                     (with_externalStorageRefCount 0 (with_storageRefCount 0 b)))) in
          l ← alloc b;
          _ ← modify (λ s, set_blocks (<[id := l]> (blocks s)) s);
          mret (Some l)
      end
  end.

(** [iterateReferences], up to the calls of [cb]: the ids in the order of the list, to
    whose front the callback pushes. *)
Definition references (self : positive) : M (list string) :=
  match IterateReferencesCallback with
  | None => mret []
  | Some callback =>
      b ← load self;
      match deps b with
      | Some l => mret l
      | None =>
          data ← GetData self;
          let l := rev (callback (Id b) data) in
          _ ← upd self (with_deps (Some l));
          mret l
      end
  end.

Fixpoint iterate {A : Type} (cb : A → M unit) (l : list A) : M unit :=
  match l with
  | [] => mret tt
  | x :: l' => _ ← cb x; iterate cb l'
  end.

(** [setDependencies]; [addRefCount] is passed, since it comes back here with
    [storage] set. *)
Definition setDependencies_with (addRefCount : positive → Z → M unit) (self : positive)
    (add storage : bool) (st : BlockStatus) : M unit :=
  if (BS_WANT_NORMAL <=? st)%Z then mret tt
  else
    refs ← references self;
    iterate (λ id,
      ob ← getBlockById id;
      match ob with
      | None => panic "Block awol in updateBlockDataDependencies"
      | Some b =>
          if storage then addStorageRefCount b (if add then 1 else -1)%Z
          else addRefCount b (if add then 1 else -1)%Z
      end) refs.

(** [updateDependencies] with a nil status, which is how it is called. *)
Definition updateDependencies_with (addRefCount : positive → Z → M unit) (self : positive)
    (add storage : bool) : M bool :=
  b ← load self;
  let st := Status (Meta b) in
  if storage then
    if Bool.eqb (haveStorageRefs b) add then mret false
    else
      _ ← upd self (with_haveStorageRefs add);
      _ ← setDependencies_with addRefCount self add storage st;
      mret true
  else
    if Bool.eqb (haveDiskRefs b) add then mret false
    else
      _ ← upd self (with_haveDiskRefs add);
      _ ← setDependencies_with addRefCount self add storage st;
      mret true.

(** The storage dependencies only change storage reference counts. *)
Definition shouldHaveStorageDependencies (self : positive) (value : bool) : M bool :=
  updateDependencies_with (λ _ _, panic "not reached") self value true.

Definition addRefCount (self : positive) (cnt : Z) : M unit :=
  if (cnt =? 0)%Z then mret tt
  else
    _ ← markDirty self;
    _ ← upd self (λ b, with_Meta (mkMeta (wrap32 (RefCount (Meta b) + cnt)) (Status (Meta b))) b);
    b ← load self;
    if (RefCount (Meta b) <? 0)%Z then panic "RefCount below 0"
    else if (RefCount (Meta b) =? 0)%Z then
      _ ← shouldHaveStorageDependencies self true; mret tt
    else mret tt.

Definition setDependencies : positive → bool → bool → BlockStatus → M unit :=
  setDependencies_with addRefCount.

Definition shouldHaveDiskDependencies (self : positive) (value : bool) : M bool :=
  updateDependencies_with addRefCount self value false.

(** [Block.flush]. *)
Definition Block_flush (self : positive) : M Z :=
  b ← load self;
  match Stored b with
  | None => panic "self.Stored not set?!?"
  | Some stored =>
      let hadRefs := hasBackend b && negb (RefCount stored =? 0)%Z in
      ops ←
        (if (RefCount (Meta b) =? 0)%Z then
           if hasBackend b then
             _ ← GetData self;
             _ ← count C_DELETE 1;
             b ← load self;
             _ ← call_ (be_DeleteBlock be b);
             _ ← upd self (with_hasBackend false);
             mret 1%Z
           else mret 1%Z
         else if negb (hasBackend b) then
           _ ← count C_WRITE 1;
           data ← GetData self;
           _ ← count C_WRITEBYTES (Z.of_nat (String.length data));
           b ← load self;
           _ ← call_ (be_StoreBlock be b);
           _ ← upd self (with_hasBackend true);
           mret 1%Z
         else call (be_UpdateBlock be b));
      let haveRefs := negb (RefCount (Meta b) =? 0)%Z in
      _ ←
        (if negb (Bool.eqb hadRefs haveRefs) then
           _ ← shouldHaveDiskDependencies self haveRefs;
           if haveRefs then _ ← shouldHaveStorageDependencies self false; mret tt else mret tt
         else mret tt);
      _ ← upd self (with_Stored None);
      _ ← modify (λ s, set_dirty (dirtyBlocks s ∖ {[self]}) s);
      _ ← addStorageRefCount self (-1);
      mret ops
  end.

Definition flushStorageRef (self : positive) : M Z :=
  _ ← modify (λ s, set_dirtyRef (dirtyStorageRefBlocks s ∖ {[self]}) s);
  b ← load self;
  if (storageRefCount b =? 0)%Z then
    _ ← shouldHaveStorageDependencies self false;
    _ ← modify (λ s, set_blocks (delete (Id b) (blocks s)) s);
    mret 1%Z
  else
    changed ← shouldHaveStorageDependencies self (RefCount (Meta b) =? 0)%Z;
    mret (if (changed : bool) then 1 else 0)%Z.

(** The blocks behind the references of [setStatus]; [None] when one is missing. *)
Fixpoint collect (refs : list positive) (ids : list string) : M (list positive * bool) :=
  match ids with
  | [] => mret (refs, true)
  | id :: ids' =>
      ob ← getBlockById id;
      match ob with
      | None => mret (refs, false)
      | Some b => collect (refs ++ [b]) ids'
      end
  end.

(** [Block.setStatus]; the deferred [cleanrefs] runs before each return after its
    declaration. *)
Definition setStatus (self : positive) (st : BlockStatus) : M bool :=
  b ← load self;
  if (Status (Meta b) =? st)%Z then mret true
  else
    let shouldHaveDeps := (st <? BS_WANT_NORMAL)%Z in
    let hadDeps := (Status (Meta b) <? BS_WANT_NORMAL)%Z in
    let changingDeps := negb (Bool.eqb shouldHaveDeps hadDeps) in
    c ← (if changingDeps && shouldHaveDeps
         then ids ← references self; collect [] ids
         else mret ([], true) : M (list positive * bool));
    let '(refs, possible) := (c : list positive * bool) in
    let cleanrefs := iterate (λ r, addStorageRefCount r 0) refs in
    if negb possible then _ ← cleanrefs; mret false
    else
      _ ← markDirty self;
      _ ← (if changingDeps then
             b ← load self;
             stored ← match Stored b with
                      | Some stored => mret stored
                      | None => panic "invalid memory address or nil pointer dereference"
                      end;
             ds ← (if (0 <? RefCount stored)%Z then
                     _ ← setDependencies self true false st; mret (true, false)
                   else if (0 <? storageRefCount b)%Z then
                     _ ← setDependencies self true true st; mret (false, true)
                   else mret (false, false) : M (bool * bool));
             _ ← shouldHaveStorageDependencies self false;
             _ ← shouldHaveDiskDependencies self false;
             let '(disk, storage) := (ds : bool * bool) in
             _ ← upd self (with_haveDiskRefs disk);
             upd self (with_haveStorageRefs storage)
           else mret tt);
      _ ← upd self (λ b, with_Meta (mkMeta (RefCount (Meta b)) st) b);
      _ ← cleanrefs;
      mret true.

(** ** storage.go *)

(** [TransientCount]: blocks without references on disk. *)
Definition TransientCount : M Z := λ s,
  Ok (Z.of_nat (length (List.filter (λ l, match heap s !! l with
        | Some b => (RefCount (Meta b) =? 0)%Z | None => false end) (map snd (map_to_list (blocks s))))), s).

Definition getName (name : string) : M oldNewStruct :=
  ns ← gets names;
  match ns !! name with
  | Some n => mret n
  | None =>
      id ← call (be_GetBlockIdByName be name);
      let n := mkOldNew id id false in
      _ ← modify (λ s, set_names (<[name := n]> (names s)) s);
      mret n
  end.

(** The map holds pointers, so a change of [n] is a change of the entry. *)
Definition setNameToBlockId (name bid : string) : M unit :=
  n ← getName name;
  _ ← (if negb (keqb bid "") then
         ob ← getBlockById bid; b ← nonnil ob; addStorageRefCount b 1
       else mret tt);
  _ ← (if gotStorageRef n then
         ob ← getBlockById (newValue n); b ← nonnil ob; addStorageRefCount b (-1)
       else mret tt);
  modify (λ s, set_names (<[name := mkOldNew (oldValue n) bid true]> (names s)) s).

Definition flushBlockName (k : string) (v : oldNewStruct) : M unit :=
  _ ← call_ (be_SetNameToBlockId be k (newValue v));
  got ← (if negb (keqb (newValue v) "") then
           ob ← getBlockById (newValue v);
           b ← nonnil ob;
           _ ← addRefCount b 1;
           _ ← addStorageRefCount b (-1);
           mret false
         else mret (gotStorageRef v));
  _ ← (if negb (keqb (oldValue v) "") then
         ob ← getBlockById (oldValue v); b ← nonnil ob; addRefCount b (-1)
       else mret tt);
  modify (λ s, set_names (<[k := mkOldNew (newValue v) (newValue v) got]> (names s)) s).

Fixpoint flushBlockNames_loop (l : list (string * oldNewStruct)) (ops : Z) : M Z :=
  match l with
  | [] => mret ops
  | (k, v) :: l' =>
      if negb (keqb (oldValue v) (newValue v)) then
        _ ← flushBlockName k v; flushBlockNames_loop l' (ops + 1)
      else flushBlockNames_loop l' ops
  end.
Definition flushBlockNames : M Z :=
  ns ← gets names;
  flushBlockNames_loop (order _ (map_to_list ns)) 0.

(** ** Ranging over a map that changes *)

(** What the body of a range loop did with an entry: nothing; it removed the entry, with so many operations; it left
    the loop. *)
Inductive visit : Type := Skipped | Flushed (n : Z) | Left.

(** The next entry.  [todo] are the entries that were there from the start, are still there and were not produced:
    they must all be produced.  [new] are those that were created during the iteration: each may be produced or
    skipped. *)
Definition range_next (s : Storage S) (todo new : gset positive) : option positive :=
  match pick s todo new with
  | Some p => if decide (p ∈ todo ∪ new) then Some p else head (elements todo)
  | None => head (elements todo)
  end.

(** [for b := range self.m { body(b) }], where [get] is the map; [ops] counts the operations. *)
Fixpoint range (get : Storage S → gset positive) (body : positive → M visit) (fuel : nat)
    (todo new : gset positive) (ops : Z) : M Z := λ s,
  match range_next s todo new with
  | None => Ok (ops, s)
  | Some p =>
      match fuel with
      | O => NoFuel
      | Datatypes.S fuel' =>
          match body p s with
          | Ok (Skipped, s') => range get body fuel' (todo ∖ {[p]}) (new ∖ {[p]}) ops s'
          | Ok (Flushed n, s') =>
              let old := get s ∖ {[p]} in
              range get body fuel' (todo ∖ {[p]} ∩ get s') ((new ∖ {[p]} ∪ get s' ∖ old) ∩ get s') (ops + n) s'
          | Ok (Left, s') => Ok (ops, s')
          | Panic msg => Panic msg
          | NoFuel => NoFuel
          end
      end
  end.
Definition range_over (get : Storage S → gset positive) (body : positive → M visit) (fuel : nat) (ops : Z) : M Z :=
  m ← gets get; range get body fuel m ∅ ops.

(** [if b.RefCount != 0 { ops += b.flush() }]. *)
Definition flush_referenced (b : positive) : M visit :=
  bl ← load b;
  if negb (RefCount (Meta bl) =? 0)%Z then n ← Block_flush b; mret (Flushed n) else mret Skipped.
(** The pass over the rest, which stops at a block with references. *)
Definition flush_unreferenced (b : positive) : M visit :=
  bl ← load b;
  if negb (RefCount (Meta bl) =? 0)%Z then mret Left else n ← Block_flush b; mret (Flushed n).
Definition flushRefs_used (b : positive) : M visit :=
  bl ← load b;
  if negb (storageRefCount bl =? 0)%Z then n ← flushStorageRef b; mret (Flushed n) else mret Skipped.
Definition flushRefs_unused (b : positive) : M visit :=
  bl ← load b;
  if negb (storageRefCount bl =? 0)%Z then mret Left else n ← flushStorageRef b; mret (Flushed n).

(** [for len(self.m) > 0]: a pass over the entries in use, and when it does nothing, a pass over the others. *)
Fixpoint flush_loop (get : Storage S → gset positive) (used unused : positive → M visit) (fuel : nat) (ops : Z) : M Z :=
  match fuel with
  | O => λ _, NoFuel
  | Datatypes.S fuel' =>
      d ← gets get;
      if decide ((d : gset positive) = ∅) then mret ops
      else
        let oops := ops in
        ops ← range_over get used fuel ops;
        if negb (ops =? oops)%Z then flush_loop get used unused fuel' ops
        else
          ops ← range_over get unused fuel ops;
          flush_loop get used unused fuel' ops
  end.

Definition flush_dirty : nat → Z → M Z := flush_loop dirtyBlocks flush_referenced flush_unreferenced.
Definition flush_refs : nat → Z → M Z := flush_loop dirtyStorageRefBlocks flushRefs_used flushRefs_unused.

(** [Storage.flush]; [c] are the counters at its start. *)
Definition flush (fuel : nat) : M Z :=
  c ← gets counters;
  _ ← modify (set_counters (repeat 0%Z NUM_C));
  ops ← flushBlockNames;
  ops ← flush_dirty fuel ops;
  ops ← flush_refs fuel ops;
  _ ← (if (0 <? ops)%Z || (0 <? default 0 (c !! C_WRITE))%Z || (0 <? default 0 (c !! C_DELETE))%Z
       then call_ (be_Flush be) else mret tt);
  mret ops.

(** ** storageblock.go *)

Definition sb_load (sb : positive) : M StorageBlock := λ s,
  match sbs s !! sb with Some x => Ok (x, s) | None => Panic "invalid memory address or nil pointer dereference" end.

Definition sb_alloc (x : StorageBlock) : M positive := λ s,
  let l := fresh (dom (sbs s)) in Ok (l, set_sbs (<[l := x]> (sbs s)) s).

Definition newStorageBlock (id : string) : M positive := sb_alloc (mkStorageBlock None false id).

Definition setBlock (self : positive) (b : option positive) : M unit :=
  _ ← (match b with
       | Some b =>
           nv ← addExternalStorageRefCount b 1;
           if (nv =? 1)%Z then addStorageRefCount b 1 else mret tt
       | None => mret tt
       end);
  sb ← sb_load self;
  modify (λ s, set_sbs (<[self := mkStorageBlock (Some b) (closed sb) (sb_id sb)]> (sbs s)) s).

(** [self.block.Get()]; a client that gets here before the future is set waits: the step it
    would take is not there yet. *)
Definition future_Get (sb : StorageBlock) : M (option positive) :=
  match sb_block sb with Some b => mret b | None => panic "waits" end.

Definition enqueue (j : jobIn) : M unit := modify (λ s, set_jobs (jobChannel s ++ [j]) s).

Definition ReleaseStorageBlockId (id : string) : M unit :=
  enqueue (mkJobIn jobUpdateBlockIdStorageRefCount None (-1) id "" "" None BS_UNSET).

Definition SB_Open (self : positive) : M positive :=
  sb ← sb_load self;
  if closed sb then panic "Open - close already"
  else
    ob ← future_Get sb;
    b ← nonnil ob;
    _ ← addExternalStorageRefCount b 1;
    sb_alloc (mkStorageBlock (sb_block sb) false (sb_id sb)).

Definition SB_Close (self : positive) : M unit :=
  sb ← sb_load self;
  if closed sb then panic "Close - close already"
  else
    _ ← modify (λ s, set_sbs (<[self := mkStorageBlock (sb_block sb) true (sb_id sb)]> (sbs s)) s);
    ob ← future_Get sb;
    b ← nonnil ob;
    nv ← addExternalStorageRefCount b (-1);
    if (nv =? 0)%Z then ReleaseStorageBlockId (sb_id sb) else mret tt.

Definition SB_Id (self : positive) : M string :=
  sb ← sb_load self;
  if closed sb then panic "use after close" else mret (sb_id sb).

Definition SB_Data (self : positive) : M string :=
  sb ← sb_load self;
  if closed sb then panic "use after close"
  else ob ← future_Get sb; b ← nonnil ob; GetData b.

Definition SB_Status (self : positive) : M BlockStatus :=
  sb ← sb_load self;
  if closed sb then panic "use after close"
  else ob ← future_Get sb; b ← nonnil ob; bl ← load b; mret (Status (Meta bl)).

(** ** storagejob.go: the work of the goroutine *)

Definition store_new (job : jobIn) (sb : positive) (id : string) : M unit :=
  l ← alloc (with_Data (Some (j_data job)) (with_deps (j_deps job) (new_Block id)));
  _ ← modify (λ s, set_blocks (<[id := l]> (blocks s)) s);
  _ ← upd l (λ b, with_Meta (mkMeta (RefCount (Meta b)) (j_status job)) b);
  _ ← addRefCount l (j_count job);
  setBlock sb (Some l).

(** One turn of the loop of [run]. *)
Definition run_job (fuel : nat) (job : jobIn) : M jobOut :=
  match j_type job with
  | jobQuit => mret OutNil
  | jobFlush => _ ← flush fuel; mret OutNil
  | jobGetBlockById =>
      sbp ← nonnil (j_sb job);
      sb ← sb_load sbp;
      b ← getBlockById (sb_id sb);
      _ ← setBlock sbp b;
      mret OutNothing
  | jobGetBlockIdByName => n ← getName (j_name job); mret (OutId (newValue n))
  | jobReferOrStoreBlock =>
      sbp ← nonnil (j_sb job);
      sb ← sb_load sbp;
      ob ← getBlockById (sb_id sb);
      match ob with
      | Some b =>
          _ ← addRefCount b (j_count job);
          _ ← setBlock sbp (Some b);
          mret OutNothing
      | None => _ ← store_new job sbp (sb_id sb); mret OutNothing
      end
  | jobStoreBlock =>
      sbp ← nonnil (j_sb job);
      sb ← sb_load sbp;
      _ ← store_new job sbp (sb_id sb);
      mret OutNothing
  | jobUpdateBlockIdRefCount =>
      ob ← getBlockById (j_id job);
      match ob with
      | None => panic "block id disappeared"
      | Some b => _ ← addRefCount b (j_count job); mret OutNothing
      end
  | jobUpdateBlockIdStorageRefCount =>
      ob ← getBlockById (j_id job);
      match ob with
      | None => panic "block id disappeared"
      | Some b => _ ← addStorageRefCount b (j_count job); mret OutNothing
      end
  | jobSetNameToBlockId => _ ← setNameToBlockId (j_name job) (j_id job); mret OutNothing
  | jobSetStorageBlockStatus =>
      sbp ← nonnil (j_sb job);
      sb ← sb_load sbp;
      ob ← future_Get sb;
      b ← nonnil ob;
      ok ← setStatus b (j_status job);
      mret (OutOk ok)
  end.

(** The calls of clients, which only send a job. *)
Definition api_GetBlockById (id : string) : M positive :=
  sb ← newStorageBlock id;
  _ ← enqueue (mkJobIn jobGetBlockById (Some sb) 0 "" "" "" None BS_UNSET);
  mret sb.
(** What [GetBlockById] returns once the future is set. *)
Definition api_GetBlockById_return (sb : positive) : M (option positive) :=
  x ← sb_load sb; ob ← future_Get x; mret (match ob with None => None | Some _ => Some sb end).
Definition api_GetBlockIdByName (name : string) : M unit :=
  enqueue (mkJobIn jobGetBlockIdByName None 0 "" name "" None BS_UNSET).
Definition storeBlockInternal (ty : jobType) (id : string) (status : BlockStatus) (data : string)
    (deps : option (list string)) (cnt : Z) : M positive :=
  sb ← newStorageBlock id;
  _ ← enqueue (mkJobIn ty (Some sb) cnt "" "" data deps status);
  mret sb.
Definition ReferOrStoreBlock id status data := storeBlockInternal jobReferOrStoreBlock id status data None 1.
Definition ReferOrStoreBlock0 id status data deps := storeBlockInternal jobReferOrStoreBlock id status data deps 0.
Definition StoreBlock id status data := storeBlockInternal jobStoreBlock id status data None 1.
Definition StoreBlock0 id status data := storeBlockInternal jobStoreBlock id status data None 0.
Definition ReferBlockId (id : string) : M unit :=
  enqueue (mkJobIn jobUpdateBlockIdRefCount None 1 id "" "" None BS_UNSET).
Definition ReleaseBlockId (id : string) : M unit :=
  enqueue (mkJobIn jobUpdateBlockIdRefCount None (-1) id "" "" None BS_UNSET).
Definition ReferStorageBlockId (id : string) : M unit :=
  enqueue (mkJobIn jobUpdateBlockIdStorageRefCount None 1 id "" "" None BS_UNSET).
Definition api_SetNameToBlockId (name block_id : string) : M unit :=
  enqueue (mkJobIn jobSetNameToBlockId None 0 block_id name "" None BS_UNSET).
Definition api_Flush : M unit := enqueue (job0 jobFlush).
(** [Storage.Close]: a flush, then the end of the goroutine; closing the backend itself is outside
    the model. *)
Definition Storage_Close : M unit := _ ← api_Flush; enqueue (job0 jobQuit).
Definition setStorageBlockStatus (sb : positive) (status : BlockStatus) : M unit :=
  enqueue (mkJobIn jobSetStorageBlockStatus (Some sb) 0 "" "" "" None status).

(** [StorageBlock.SetStatus], [IterateReferences] up to the calls of [cb]. *)
Definition SB_SetStatus (self : positive) (status : BlockStatus) : M unit :=
  sb ← sb_load self;
  if closed sb then panic "use after close"
  else ob ← future_Get sb; _ ← nonnil ob; setStorageBlockStatus self status.
Definition SB_IterateReferences (self : positive) : M (list string) :=
  sb ← sb_load self; ob ← future_Get sb; b ← nonnil ob; references b.

(** [ReferOrStoreBlockBytes0]; SHA-256 is passed. *)
Definition ReferOrStoreBlockBytes0 (Sum256 : string → string) (status : BlockStatus) (b : string)
    (deps : option (list string)) : M positive :=
  ReferOrStoreBlock0 (Sum256 b) status b deps.

(** The goroutine takes the next job. *)
Definition work (fuel : nat) : M (option jobOut) :=
  js ← gets jobChannel;
  match js with
  | [] => mret None
  | j :: js' =>
      _ ← modify (set_jobs js');
      out ← run_job fuel j;
      mret (Some out)
  end.

(** [run], for at most [n] turns: until the channel is empty or [jobQuit] comes. *)
Fixpoint run (fuel n : nat) : M unit :=
  match n with
  | O => mret tt
  | Datatypes.S n' =>
      js ← gets jobChannel;
      match js with
      | [] => mret tt
      | j :: js' =>
          _ ← modify (set_jobs js');
          _ ← run_job fuel j;
          match j_type j with jobQuit => mret tt | _ => run fuel n' end
      end
  end.

(** [Storage.Init] of the maps; the backend is the one [Storage_Init_Backend] makes. *)
Definition Storage_Init (s : S) : Storage S :=
  mkStorage s ∅ 1%positive ∅ ∅ ∅ ∅ (repeat 0%Z NUM_C) ∅ [].
End code.
