(* ===== verification/StorageInv.v ===== *)
(** * The storage keeps its backend in step

    The invariant: a block in memory that came from the backend, or was written to it, is there
    with the metadata it had when it was last clean, and its data; a block that is not marked
    as being on the backend is not there.  Every step of the storage keeps it.  The loops of a
    flush end: each round flushes a block, and the references of a block lead to lighter ones.  A
    flush leaves no dirty block. *)
From stdpp Require Import base list sets strings sorting gmap.
From Stdlib Require Import ZArith Lia Ascii.
From S2P Require Import Prelude OrderedMap Util Codec Backend Storage.

(** What the storage relies on: a block store that takes every block and keeps names apart from
    blocks, reads only data that it has, and whose calls return or panic. *)
Class StorageBackendOk {S : Type} (be : Backend S) `{!BlockStoreOk be} `{!BlockUpdateOk be} : Prop := {
  sbe_accepts : ∀ b s, bs_accepts b s;
  sbe_no_deps : ∀ id s b s', be_GetBlockById be id s = Ok (Some b, s') → deps b = None;
  sbe_GetBlockData_there : ∀ b s m r s', bs_rep s m → be_GetBlockData be b s = Ok (r, s') → is_Some (m !! Id b);
  sbe_GetName : ∀ n s m r s', bs_rep s m → be_GetBlockIdByName be n s = Ok (r, s') → bs_rep s' m;
  sbe_SetName : ∀ n i s m s', bs_rep s m → be_SetNameToBlockId be n i s = Ok s' → bs_rep s' m;
  sbe_Flush : ∀ s m s', bs_rep s m → be_Flush be s = Ok s' → bs_rep s' m;
  sbe_returns : ∀ s, (∀ b, be_GetBlockData be b s ≠ NoFuel ∧ be_DeleteBlock be b s ≠ NoFuel ∧ be_StoreBlock be b s ≠ NoFuel ∧
                           be_UpdateBlock be b s ≠ NoFuel) ∧
    (∀ n, be_GetBlockById be n s ≠ NoFuel ∧ be_GetBlockIdByName be n s ≠ NoFuel ∧ ∀ i, be_SetNameToBlockId be n i s ≠ NoFuel) ∧
    be_Flush be s ≠ NoFuel
}.

(** ** Running the monad *)

Lemma M_bind_Ok {S A B : Type} (m : M S A) (k : A → M S B) s b s' :
  (m ≫= k) s = Ok (b, s') → ∃ a s1, m s = Ok (a, s1) ∧ k a s1 = Ok (b, s').
Proof. unfold mbind, M_bind. destruct (m s) as [[a s1]| |]; [eauto|done..]. Qed.

Ltac mbind_inv H :=
  let a := fresh "a" in let s := fresh "s" in let H1 := fresh "H" in
  apply M_bind_Ok in H as (a & s & H1 & H).
Ltac mret_inv H := injection H as <- <-.

(** ** Ranging over a map that changes *)

Section loops.
Context {S : Type} (pick : Storage S → gset positive → gset positive → option positive) (get : Storage S → gset positive).
(** An invariant, and a measure that each entry that is flushed lowers. *)
Context (I : Storage S → Prop) (mu : Storage S → nat).
Hypothesis get_mu : ∀ s, I s → size (get s) ≤ mu s.
Abbreviation range := (range pick get).

Definition body_ok (body : positive → M S visit) : Prop :=
  ∀ s p, I s → p ∈ get s → body p s ≠ NoFuel ∧
    ∀ r s', body p s = Ok (r, s') → match r with Flushed _ => I s' ∧ mu s' < mu s | _ => s' = s end.

Lemma range_next_Some (s : Storage S) todo new p : range_next pick s todo new = Some p → p ∈ todo ∪ new.
Proof.
  unfold range_next. assert (head (elements todo) = Some p → p ∈ todo ∪ new) as Hh.
  { destruct (elements todo) as [|q l] eqn:E; [done|]. cbn. intros [= ->]. apply elem_of_union_l, elem_of_elements. rewrite E. by left. }
  destruct (pick s todo new) as [q|]; [|done]. destruct (decide _); [by intros [= <-]|done].
Qed.
Lemma range_next_None (s : Storage S) todo new : range_next pick s todo new = None → todo = ∅.
Proof.
  unfold range_next. assert (head (elements todo) = None → todo = ∅) as Hh.
  { destruct (elements todo) eqn:E; [|done]. intros _. apply leibniz_equiv, elements_empty_inv. by rewrite E. }
  destruct (pick s todo new) as [q|]; [|done]. by destruct (decide _).
Qed.

(** A pass returns, if it has so much fuel; it has lowered the measure or done nothing, and in this case all entries that
    had to be visited were skipped, or one left the loop. *)
Lemma range_ok body fuel todo new ops s :
  body_ok body → I s → todo ∪ new ⊆ get s →
  (mu s * Datatypes.S (mu s) + size (todo ∪ new) ≤ fuel → range body fuel todo new ops s ≠ NoFuel) ∧
  ∀ ops' s', range body fuel todo new ops s = Ok (ops', s') →
    I s' ∧ (mu s' < mu s ∨
      s' = s ∧ ops' = ops ∧ ((∃ p, p ∈ get s ∧ body p s = Ok (Left, s)) ∨ ∀ p, p ∈ todo → body p s = Ok (Skipped, s))).
Proof.
  intros Hb. revert todo new ops s. induction fuel as [|fuel IH]; intros todo new ops s Hi Hsub; cbn [Storage.range];
    (destruct (range_next pick s todo new) as [p|] eqn:En;
      [apply range_next_Some in En
      |apply range_next_None in En as ->; split; [done|]; intros ops' s' [= <- <-]; split; [done|]; right; split_and!; [done..|]; right; set_solver]).
  { split; [|done]. intros Hf. assert (size (todo ∪ new) ≠ 0) by (apply size_non_empty_iff; set_solver). lia. }
  destruct (Hb s p Hi) as [Hnf Hr]; [by apply Hsub|]. destruct (body p s) as [[[|n|] s1]| |] eqn:Eb; [| | |done|done].
  - specialize (Hr _ _ eq_refl) as ->.
    assert (todo ∖ {[p]} ∪ new ∖ {[p]} = (todo ∪ new) ∖ {[p]}) as Es by set_solver.
    assert (size ((todo ∪ new) ∖ {[p]}) < size (todo ∪ new)) as Hlt by (apply subset_size; set_solver).
    destruct (IH (todo ∖ {[p]}) (new ∖ {[p]}) ops s Hi) as [Hfu Hok]; [set_solver|]. rewrite Es in Hfu. split; [intros; apply Hfu; lia|].
    intros ops' s' E. destruct (Hok _ _ E) as [Hi' [?|(-> & -> & Hp)]]; (split; [done|]); [by left|right]. split_and!; [done..|].
    destruct Hp as [?|Hp]; [by left|right]. intros q Hq. destruct (decide (q = p)) as [->|]; [done|]. apply Hp. set_solver.
  - destruct (Hr _ _ eq_refl) as [Hi1 Hlt]. set (todo' := _ ∩ get s1). set (new' := _ ∩ get s1).
    destruct (IH todo' new' (ops + n)%Z s1 Hi1) as [Hfu Hok]; [set_solver|]. split.
    + intros Hf. apply Hfu. assert (size (todo' ∪ new') ≤ size (get s1)) by (apply subseteq_size; set_solver). pose proof (get_mu s1 Hi1). nia.
    + intros ops' s' E. destruct (Hok _ _ E) as [Hi' [?|(-> & _ & _)]]; (split; [done|]); left; lia.
  - specialize (Hr _ _ eq_refl) as ->. split; [done|]. intros ops' s' [= <- <-]. split; [done|]. right. split_and!; [done..|]. left. exists p.
    split; [by apply Hsub|done].
Qed.

(** More fuel does not change the outcome. *)
Lemma range_mono body fuel fuel' todo new ops s :
  fuel ≤ fuel' → range body fuel todo new ops s ≠ NoFuel → range body fuel' todo new ops s = range body fuel todo new ops s.
Proof.
  revert fuel' todo new ops s. induction fuel as [|fuel IH]; intros fuel' todo new ops s Hle Hnf.
  - cbn [Storage.range] in Hnf. destruct fuel'; cbn [Storage.range]; by destruct (range_next pick s todo new).
  - destruct fuel' as [|fuel']; [lia|]. cbn [Storage.range] in *. destruct (range_next pick s todo new) as [p|]; [|done].
    destruct (body p s) as [[[|n|] s1]| |]; [apply IH; [lia|done]..|done|done|done].
Qed.

Section two_passes.
Context (used unused : positive → M S visit).
Hypothesis used_ok : body_ok used.
Hypothesis unused_ok : body_ok unused.
Hypothesis used_stays : ∀ s p, used p s ≠ Ok (Left, s).
Hypothesis unused_flushes : ∀ s p, used p s = Ok (Skipped, s) → unused p s ≠ Ok (Left, s) ∧ unused p s ≠ Ok (Skipped, s).
Abbreviation flush_loop := (flush_loop pick get used unused).

Lemma flush_loop_S fuel ops s :
  flush_loop (Datatypes.S fuel) ops s =
  if decide (get s = ∅) then Ok (ops, s)
  else
    match range used (Datatypes.S fuel) (get s) ∅ ops s with
    | Ok (ops1, s1) =>
        if negb (ops1 =? ops)%Z then flush_loop fuel ops1 s1
        else
          match range unused (Datatypes.S fuel) (get s1) ∅ ops1 s1 with
          | Ok (ops2, s2) => flush_loop fuel ops2 s2
          | Panic msg => Panic msg
          | NoFuel => NoFuel
          end
    | Panic msg => Panic msg
    | NoFuel => NoFuel
    end.
Proof.
  cbn [Storage.flush_loop]. unfold range_over, mbind, M_bind, gets. destruct (decide _); [done|].
  destruct (range used _ _ _ _ _) as [[ops1 s1]| |]; [|done..]. by destruct (negb _).
Qed.

Definition loop_fuel (m : nat) : nat := Datatypes.S (m * Datatypes.S m + m).

(** The loop returns, if it has so much fuel, and then the map is empty: each round flushes something. *)
Lemma flush_loop_ok fuel ops s :
  I s → (loop_fuel (mu s) ≤ fuel → flush_loop fuel ops s ≠ NoFuel) ∧
  ∀ ops' s', flush_loop fuel ops s = Ok (ops', s') → I s' ∧ get s' = ∅.
Proof.
  revert ops s. induction fuel as [|fuel IH]; intros ops s Hi; [split; [unfold loop_fuel; lia|done]|].
  rewrite flush_loop_S. destruct (decide (get s = ∅)) as [|Hne].
  { split; [done|]. by intros ops' s' [= <- <-]. }
  pose proof (get_mu s Hi) as Hsz.
  destruct (range_ok used (Datatypes.S fuel) (get s) ∅ ops s used_ok Hi) as [F1 K1]; [set_solver|]. rewrite union_empty_r_L in F1.
  destruct (range used (Datatypes.S fuel) (get s) ∅ ops s) as [[ops1 s1]| |] eqn:E1; [|done|split; [|done]; intros Hf; apply F1; unfold loop_fuel in Hf; lia].
  destruct (K1 _ _ eq_refl) as [Hi1 P1]. destruct (Z.eqb_spec ops1 ops) as [->|Hops]; cbn [negb].
  2:{ destruct P1 as [Hlt|(_ & ? & _)]; [|done]. destruct (IH ops1 s1 Hi1) as [F2 K2]. split; [|done].
      intros Hf. apply F2. unfold loop_fuel in *. nia. }
  pose proof (get_mu s1 Hi1) as Hsz1.
  destruct (range_ok unused (Datatypes.S fuel) (get s1) ∅ ops s1 unused_ok Hi1) as [F2 K2]; [set_solver|]. rewrite union_empty_r_L in F2.
  destruct (range unused (Datatypes.S fuel) (get s1) ∅ ops s1) as [[ops2 s2]| |] eqn:E2;
    [|done|split; [|done]; intros Hf; apply F2; unfold loop_fuel in Hf; assert (mu s1 ≤ mu s) by (destruct P1 as [?|(-> & _)]; lia); nia].
  destruct (K2 _ _ eq_refl) as [Hi2 P2]. assert (mu s2 < mu s) as Hlt.
  { destruct P1 as [Hlt|(-> & _ & P1)]; destruct P2 as [Hlt2|(-> & _ & P2)]; [lia|lia|lia|exfalso].
    destruct P1 as [(p & _ & Ep)|P1]; [by eapply used_stays|]. destruct P2 as [(p & Hp & Ep)|P2].
    - by destruct (unused_flushes s p (P1 p Hp)).
    - destruct (set_choose_L (get s) Hne) as [p Hp]. by destruct (unused_flushes s p (P1 p Hp)); auto. }
  destruct (IH ops2 s2 Hi2) as [F3 K3]. split; [|done]. intros Hf. apply F3. unfold loop_fuel in *. nia.
Qed.

Lemma flush_loop_mono fuel fuel' ops s :
  fuel ≤ fuel' → flush_loop fuel ops s ≠ NoFuel → flush_loop fuel' ops s = flush_loop fuel ops s.
Proof.
  revert fuel' ops s. induction fuel as [|fuel IH]; intros fuel' ops s Hle Hnf; [done|]. destruct fuel' as [|fuel']; [lia|].
  rewrite !flush_loop_S in *. destruct (decide (get s = ∅)); [done|]. destruct (range used (Datatypes.S fuel) (get s) ∅ ops s) as [[ops1 s1]| |] eqn:E1.
  - rewrite (range_mono used (Datatypes.S fuel)), E1 by (lia || by rewrite E1). destruct (negb _); [apply IH; [lia|done]|].
    destruct (range unused (Datatypes.S fuel) (get s1) ∅ ops1 s1) as [[ops2 s2]| |] eqn:E2.
    + rewrite (range_mono unused (Datatypes.S fuel)), E2 by (lia || by rewrite E2). apply IH; [lia|done].
    + by rewrite (range_mono unused (Datatypes.S fuel)), E2 by (lia || by rewrite E2).
    + done.
  - by rewrite (range_mono used (Datatypes.S fuel)), E1 by (lia || by rewrite E1).
  - done.
Qed.
End two_passes.
End loops.

Section inv.
Context {S : Type} (be : Backend S) `{!BlockStoreOk be} `{!BlockUpdateOk be} `{!StorageBackendOk be}.
Context (callback : option (string → string → list string)).
(** Block ids are hashes of the content ([belongs id d]: the data [d] has the id), so references lead down: along them
    there are only so many blocks ([weight]) below an id. *)
Context (belongs : string → string → Prop) (weight : string → nat).
Definition light (id : string) (refs : list string) : Prop := sum_list_with (λ r, Datatypes.S (weight r)) refs ≤ weight id.
Hypothesis references_down : ∀ f id d, callback = Some f → belongs id d → light id (f id d).
Abbreviation St := (Storage S).

Lemma light_nil id : light id [].
Proof. unfold light. cbn. lia. Qed.
Lemma light_rev id refs : light id refs → light id (rev refs).
Proof.
  unfold light. enough (sum_list_with (λ r, Datatypes.S (weight r)) (rev refs) = sum_list_with (λ r, Datatypes.S (weight r)) refs) as -> by done.
  induction refs as [|x refs IH]; [done|]. cbn [rev]. rewrite sum_list_with_app. cbn in *. lia.
Qed.
Lemma light_not_in id refs : light id refs → id ∉ refs.
Proof.
  unfold light. intros Hl Hin. enough (Datatypes.S (weight id) ≤ sum_list_with (λ r, Datatypes.S (weight r)) refs) by lia.
  clear Hl. induction Hin as [|x refs Hin IH]; cbn; lia.
Qed.

(** The metadata on disk.  [X] names a block that was just written with new metadata and
    is not marked clean yet. *)
Definition expect (X : option (positive * BlockMetadata)) (l : positive) (b : Block) : BlockMetadata :=
  match X with
  | Some (l0, md) => if decide (l = l0) then md else default (Meta b) (Stored b)
  | None => default (Meta b) (Stored b)
  end.

Definition disk_ok X (l : positive) (b : Block) (x : option (BlockMetadata * string)) : Prop :=
  if hasBackend b
  then ∃ d, x = Some (expect X l b, d) ∧ (∀ d', Data b = Some d' → d' = d)
  else x = None ∧ is_Some (Data b).

Definition block_ok X (D : gset positive) (l : positive) (b : Block) (x : option (BlockMetadata * string)) : Prop :=
  disk_ok X l b x ∧ (l ∈ D ↔ is_Some (Stored b)) ∧
  (Stored b = None → RefCount (Meta b) ≠ 0%Z → hasBackend b = true).

Record sinv (X : option (positive * BlockMetadata)) (s : St) (bm : blockmap) : Prop := {
  si_be : bs_rep (s_be s) bm;
  si_block : ∀ id l, blocks s !! id = Some l →
    ∃ b, heap s !! l = Some b ∧ Id b = id ∧ block_ok X (dirtyBlocks s) l b (bm !! id);
  si_dirty : ∀ l, l ∈ dirtyBlocks s → ∃ b, heap s !! l = Some b ∧ blocks s !! Id b = Some l;
  si_next : ∀ l b, heap s !! l = Some b → (l < next s)%positive;
  si_deps : ∀ l b ds, heap s !! l = Some b → deps b = Some ds → light (Id b) ds;
  si_data : ∀ l b d, heap s !! l = Some b → Data b = Some d → belongs (Id b) d;
  si_bm : ∀ id md d, bm !! id = Some (md, d) → belongs id d;
  si_ref : ∀ l, l ∈ dirtyStorageRefBlocks s → is_Some (heap s !! l)
}.

(** What a step may change: only blocks with an id in [ids] change their metadata. *)
Definition ev (ids : list string) (s s' : St) : Prop :=
  blocks s ⊆ blocks s' ∧ dirtyBlocks s ⊆ dirtyBlocks s' ∧
  (∀ l, l ∈ dirtyBlocks s' → l ∈ dirtyBlocks s ∨ ∃ id, id ∈ ids ∧ blocks s' !! id = Some l) ∧
  ∀ l b, heap s !! l = Some b →
    ∃ b', heap s' !! l = Some b' ∧ Id b' = Id b ∧ hasBackend b' = hasBackend b ∧
      (Id b ∉ ids → Meta b' = Meta b ∧ Stored b' = Stored b).

Lemma ev_refl ids s : ev ids s s.
Proof. split_and!; try done; [by left|]. intros l b Hb. by exists b. Qed.

Lemma ev_trans ids s1 s2 s3 : ev ids s1 s2 → ev ids s2 s3 → ev ids s1 s3.
Proof.
  intros (B1 & D1 & N1 & H1) (B2 & D2 & N2 & H2). split_and!.
  - by transitivity (blocks s2).
  - by transitivity (dirtyBlocks s2).
  - intros l Hl. destruct (N2 l Hl) as [Hl2|]; [|by right]. destruct (N1 l Hl2) as [|(id & ? & ?)]; [by left|].
    right. exists id. split; [done|]. by eapply lookup_weaken.
  - intros l b Hb. destruct (H1 l b Hb) as (b1 & Hb1 & I1 & K1 & M1).
    destruct (H2 l b1 Hb1) as (b2 & Hb2 & I2 & K2 & M2). exists b2. split_and!; [done|congruence..|].
    intros Hni. destruct (M1 Hni). destruct M2; [congruence|]. split; congruence.
Qed.

Lemma ev_mono ids ids' s s' : ids ⊆ ids' → ev ids s s' → ev ids' s s'.
Proof.
  intros Hsub (B & D & N & Hh). split_and!; [done..| |].
  - intros l Hl. destruct (N l Hl) as [|(id & ? & ?)]; [by left|]. right. exists id. split; [by apply Hsub|done].
  - intros l b Hb. destruct (Hh l b Hb) as (b' & ? & ? & ? & Hm). exists b'. split_and!; [done..|].
    intros Hni. apply Hm. set_solver.
Qed.

(** The exception is a block in memory. *)
Definition X_ok (X : option (positive * BlockMetadata)) (s : St) : Prop :=
  ∀ l md, X = Some (l, md) → is_Some (heap s !! l).

Lemma X_ok_ev X ids s s' : X_ok X s → ev ids s s' → X_ok X s'.
Proof.
  intros HX (_ & _ & _ & Hh) l md E. destruct (HX l md E) as [b Hb]. destruct (Hh l b Hb) as (b' & ? & _). eauto.
Qed.

(** A computation keeps the invariant. *)
Definition keeps {A : Type} (ids : list string) (m : M S A) : Prop :=
  ∀ X s bm a s', sinv X s bm → X_ok X s → m s = Ok (a, s') → sinv X s' bm ∧ ev ids s s'.

Lemma keeps_ret {A : Type} ids (a : A) : keeps ids (mret a : M S A).
Proof. intros X s bm a' s' Hs HX [= <- <-]. split; [done|apply ev_refl]. Qed.
Lemma keeps_panic {A : Type} ids msg : keeps ids (panic msg : M S A).
Proof. by intros X s bm a s' Hs HX. Qed.
Lemma keeps_bind {A B : Type} ids (m : M S A) (k : A → M S B) :
  keeps ids m → (∀ a, keeps ids (k a)) → keeps ids (m ≫= k).
Proof.
  intros Hm Hk X s bm b s' Hs HX E. mbind_inv E. destruct (Hm X s bm _ _ Hs HX H) as [Hs1 He1].
  destruct (Hk a X _ bm _ _ Hs1 (X_ok_ev _ _ _ _ HX He1) E) as [Hs2 He2]. split; [done|by eapply ev_trans].
Qed.
Lemma keeps_mono {A : Type} ids ids' (m : M S A) : ids ⊆ ids' → keeps ids m → keeps ids' m.
Proof. intros Hsub Hm X s bm a s' Hs HX E. destruct (Hm X s bm a s' Hs HX E). split; [done|by eapply ev_mono]. Qed.
Lemma keeps_iterate {A : Type} ids (cb : A → M S unit) l : (∀ x, keeps ids (cb x)) → keeps ids (iterate cb l).
Proof.
  intros Hcb. induction l as [|x l IH]; [apply keeps_ret|]. apply keeps_bind; [done|]. intros _. apply IH.
Qed.
Lemma keeps_load ids l : keeps ids (load (S := S) l).
Proof.
  intros X s bm a s' Hs HX. unfold load. destruct (heap s !! l); [|done]. intros [= <- <-].
  split; [done|apply ev_refl].
Qed.
Lemma keeps_gets {A : Type} ids (f : St → A) : keeps ids (gets f).
Proof. intros X s bm a s' Hs HX [= <- <-]. split; [done|apply ev_refl]. Qed.

(** Parts of the state the invariant does not look at. *)
Lemma keeps_modify ids (f : St → St) :
  (∀ s, s_be (f s) = s_be s ∧ heap (f s) = heap s ∧ next (f s) = next s ∧ blocks (f s) = blocks s ∧
        dirtyBlocks (f s) = dirtyBlocks s ∧ dirtyStorageRefBlocks (f s) = dirtyStorageRefBlocks s) → keeps ids (modify f).
Proof.
  intros Hf X s bm a s' [] HX [= <- <-]. destruct (Hf s) as (E1 & E2 & E3 & E4 & E5 & E6). split.
  - split; rewrite ?E1, ?E2, ?E3, ?E4, ?E5, ?E6; done.
  - unfold ev. rewrite E2, E4, E5. split_and!; try done; try by left. intros l b Hb. by exists b.
Qed.

(** The block behind a pointer changes. *)
Lemma sinv_upd X s bm l b b' D' :
  sinv X s bm → heap s !! l = Some b → Id b' = Id b →
  (∀ l', l' ≠ l → l' ∈ D' ↔ l' ∈ dirtyBlocks s) → (l ∈ D' → blocks s !! Id b = Some l) →
  (blocks s !! Id b = Some l → block_ok X D' l b' (bm !! Id b)) →
  (∀ ds, deps b' = Some ds → light (Id b) ds) → (∀ d, Data b' = Some d → belongs (Id b) d) →
  sinv X (set_dirty D' (set_heap (<[l := b']> (heap s)) s)) bm.
Proof.
  intros Hs Hb HId HD HDl Hok Hdeps Hdata. split; cbn.
  - apply Hs.
  - intros id l' Hl'. destruct (si_block _ _ _ Hs id l' Hl') as (b1 & Hb1 & Hid & Hbo).
    destruct (decide (l' = l)) as [->|Hne].
    + rewrite Hb in Hb1. injection Hb1 as <-. exists b'. rewrite lookup_insert_eq.
      split_and!; [done|congruence|]. subst id. by apply Hok.
    + exists b1. rewrite lookup_insert_ne by done. split_and!; [done..|].
      destruct Hbo as (H1 & H2 & H3). split_and!; [done| |done]. by rewrite HD.
  - intros l' Hl'. destruct (decide (l' = l)) as [->|Hne].
    + exists b'. rewrite lookup_insert_eq, HId. auto.
    + rewrite lookup_insert_ne by done. apply (si_dirty _ _ _ Hs). by apply HD.
  - intros l' b1 [[<- <-]|[_ Hb1]]%lookup_insert_Some; by eapply si_next.
  - intros l' b1 ds [[<- <-]|[_ Hb1]]%lookup_insert_Some; [rewrite HId; apply Hdeps|by eapply si_deps].
  - intros l' b1 d [[<- <-]|[_ Hb1]]%lookup_insert_Some; [rewrite HId; apply Hdata|by eapply si_data].
  - apply Hs.
  - intros l' Hl'. apply lookup_insert_is_Some'. right. by apply (si_ref _ _ _ Hs).
Qed.

Lemma set_dirty_id (s : St) h : set_dirty (dirtyBlocks s) (set_heap h s) = set_heap h s.
Proof. by destruct s. Qed.

(** Changes of the fields the invariant does not mention. *)
Definition core (b b' : Block) : Prop :=
  Id b' = Id b ∧ Meta b' = Meta b ∧ Data b' = Data b ∧ hasBackend b' = hasBackend b ∧ Stored b' = Stored b ∧
  deps b' = deps b.

Lemma upd_inv l f (s : St) a s' :
  upd l f s = Ok (a, s') → ∃ b, heap s !! l = Some b ∧ s' = set_heap (<[l := f b]> (heap s)) s.
Proof.
  intros E. unfold upd in E. mbind_inv E. unfold load in H. destruct (heap s !! l) as [b|]; [|done].
  injection H as <- <-. injection E as <- <-. by exists b.
Qed.

Lemma keeps_upd ids l f : (∀ b, core b (f b)) → keeps ids (upd (S := S) l f).
Proof.
  intros Hf X s bm a s' Hs HX E. apply upd_inv in E as (b & Hb & ->).
  destruct (Hf b) as (C1 & C2 & C3 & C4 & C5 & C6). split.
  - rewrite <- set_dirty_id. eapply sinv_upd; [done..| | | |].
    + intros HD. destruct (si_dirty _ _ _ Hs l HD) as (b1 & Hb1 & ?). rewrite Hb in Hb1. by injection Hb1 as <-.
    + intros Hbl. destruct (si_block _ _ _ Hs _ _ Hbl) as (b1 & Hb1 & _ & Hok). rewrite Hb in Hb1. injection Hb1 as <-.
      unfold block_ok, disk_ok, expect in *. by rewrite C2, C3, C4, C5.
    + intros ds. rewrite C6. by eapply si_deps.
    + intros d. rewrite C3. by eapply si_data.
  - split_and!; try done; try by left. intros l' b1 Hb1. destruct (decide (l' = l)) as [->|Hne].
    + rewrite Hb in Hb1. injection Hb1 as <-. exists (f b). cbn. rewrite lookup_insert_eq. auto.
    + exists b1. cbn. by rewrite lookup_insert_ne.
Qed.

Lemma keeps_addStorageRefCount ids l v : keeps ids (addStorageRefCount (S := S) l v).
Proof.
  unfold addStorageRefCount. apply keeps_bind; [by apply keeps_upd|]. intros _ X s bm a s' Hs HX E. mbind_inv E.
  unfold load in H. destruct (heap s !! l) as [b|] eqn:Hb; [|done]. injection H as <- <-.
  assert (sinv X (set_dirtyRef ({[l]} ∪ dirtyStorageRefBlocks s) s) bm ∧ ev ids s (set_dirtyRef ({[l]} ∪ dirtyStorageRefBlocks s) s)) as Hadd.
  { split; [|exact (ev_refl ids s)]. destruct Hs as [?????????]. split; try done. cbn.
    intros l' [->%elem_of_singleton|]%elem_of_union; [by rewrite Hb|auto]. }
  destruct (_ <? 0)%Z; [done|]. destruct (_ =? 0)%Z; [by mret_inv E|].
  destruct (negb _); mret_inv E; [done|]. split; [done|apply ev_refl].
Qed.

Lemma keeps_addExternalStorageRefCount ids l v : keeps ids (addExternalStorageRefCount (S := S) l v).
Proof.
  unfold addExternalStorageRefCount. apply keeps_bind; [apply keeps_load|]. intros b.
  apply keeps_bind; [by apply keeps_upd|]. intros _. destruct (_ <? 0)%Z; [apply keeps_panic|apply keeps_ret].
Qed.

Lemma keeps_count ids i n : keeps ids (count (S := S) i n).
Proof. by apply keeps_modify. Qed.

(** *** Loading blocks *)

Lemma call_inv {A : Type} (f : S → res (A * S)) (s : St) a s' :
  call f s = Ok (a, s') → ∃ x, f (s_be s) = Ok (a, x) ∧ s' = set_be x s.
Proof. unfold call. destruct (f (s_be s)) as [[a1 x]| |]; [|done..]. intros [= <- <-]. eauto. Qed.
Lemma call__inv (f : S → res S) (s : St) a s' :
  call_ f s = Ok (a, s') → ∃ x, f (s_be s) = Ok x ∧ s' = set_be x s.
Proof. unfold call_. destruct (f (s_be s)) as [x| |]; [|done..]. intros [= <- <-]. eauto. Qed.

Lemma sinv_set_be X (s : St) bm bm' x :
  sinv X s bm → bs_rep x bm' →
  (∀ id l b, blocks s !! id = Some l → heap s !! l = Some b → block_ok X (dirtyBlocks s) l b (bm !! id) →
     block_ok X (dirtyBlocks s) l b (bm' !! id)) →
  (∀ id md d, bm' !! id = Some (md, d) → belongs id d) →
  sinv X (set_be x s) bm'.
Proof.
  intros Hs Hx Hok Hbm. split; cbn; [done| |apply Hs|apply Hs|apply Hs|apply Hs|done|apply Hs].
  intros id l Hl. destruct (si_block _ _ _ Hs id l Hl) as (b & Hb & Hid & Hbo). exists b. split_and!; [done..|].
  by eapply Hok.
Qed.

Lemma ev_set_be ids (s : St) x : ev ids s (set_be x s).
Proof. split_and!; try done; try by left. intros l b Hb. by exists b. Qed.

(** A block comes into memory. *)
Lemma sinv_alloc X (s : St) bm id b :
  sinv X s bm → blocks s !! id = None → Id b = id → block_ok X (dirtyBlocks s) (next s) b (bm !! id) →
  (∀ ds, deps b = Some ds → light id ds) → (∀ d, Data b = Some d → belongs id d) →
  let s' := set_blocks (<[id := next s]> (blocks s)) (set_next (Pos.succ (next s)) (set_heap (<[next s := b]> (heap s)) s)) in
  sinv X s' bm ∧ ev [] s s' ∧ heap s' !! next s = Some b.
Proof.
  intros Hs Hn HId Hok Hdeps Hdata s'. assert (heap s !! next s = None) as Hfr.
  { destruct (heap s !! next s) as [b1|] eqn:E; [|done]. apply (si_next _ _ _ Hs) in E. lia. }
  split_and!; [split| |].
  - apply Hs.
  - cbn. intros id' l [[<- <-]|[Hne Hl]]%lookup_insert_Some.
    + exists b. by rewrite lookup_insert_eq.
    + destruct (si_block _ _ _ Hs id' l Hl) as (b1 & Hb1 & ?). exists b1. rewrite lookup_insert_ne; [done|congruence].
  - cbn. intros l Hl. destruct (si_dirty _ _ _ Hs l Hl) as (b1 & Hb1 & Hbl). exists b1.
    rewrite !lookup_insert_ne by congruence. done.
  - cbn. intros l b1 [[<- <-]|[_ Hb1]]%lookup_insert_Some; [lia|]. apply (si_next _ _ _ Hs) in Hb1. lia.
  - cbn. intros l b1 ds [[<- <-]|[_ Hb1]]%lookup_insert_Some; [rewrite HId; apply Hdeps|by eapply si_deps].
  - cbn. intros l b1 d [[<- <-]|[_ Hb1]]%lookup_insert_Some; [rewrite HId; apply Hdata|by eapply si_data].
  - apply Hs.
  - cbn. intros l' Hl'. apply lookup_insert_is_Some'. right. by apply (si_ref _ _ _ Hs).
  - split_and!; try done; try (by left); cbn; [by apply insert_subseteq|]. intros l b1 Hb1. exists b1.
    rewrite lookup_insert_ne by congruence. done.
  - cbn. by rewrite lookup_insert_eq.
Qed.

(** No exception for blocks that are not there yet. *)
Lemma expect_fresh X (s : St) bm b :
  sinv X s bm → (∀ l md, X = Some (l, md) → is_Some (heap s !! l)) → Stored b = None →
  expect X (next s) b = Meta b.
Proof.
  intros Hs HX Hst. unfold expect. rewrite Hst. destruct X as [[l0 md]|]; [|done].
  destruct (decide (next s = l0)) as [<-|]; [|done]. destruct (HX _ _ eq_refl) as [b1 Hb1].
  apply (si_next _ _ _ Hs) in Hb1. lia.
Qed.

Lemma getBlockById_ok id X s bm a s' :
  sinv X s bm → X_ok X s → getBlockById be id s = Ok (a, s') →
  sinv X s' bm ∧ ev [] s s' ∧
  match a with
  | Some l => blocks s' !! id = Some l
  | None => blocks s' !! id = None ∧ bm !! id = None
  end.
Proof.
  intros Hs HX E. unfold getBlockById in E. mbind_inv E. injection H as <- <-.
  destruct (blocks s !! id) as [l|] eqn:Ebl.
  { injection E as <- <-. split_and!; [done|apply ev_refl|done]. }
  mbind_inv E. apply call_inv in H as (x & Ec & ->).
  destruct (bs_GetBlockById id (s_be s) bm (si_be _ _ _ Hs)) as (ob & x' & Ec' & Hx & Hob).
  rewrite Ec' in Ec. injection Ec as -> ->.
  assert (sinv X (set_be x s) bm) as Hs1 by (eapply sinv_set_be; [done..|apply Hs]).
  destruct a0 as [b|].
  - mbind_inv E. injection H as <- <-. mbind_inv E. injection H as <- <-. injection E as <- <-. rename Ebl into Hbl.
    destruct (bm !! id) as [[md d]|] eqn:Ebm; [|done]. destruct Hob as (Hid & Hmd & Hd & Hbk).
    match goal with |- sinv _ (set_blocks _ (set_next _ (set_heap (<[_ := ?b1]> _) _))) _ ∧ _ => set (nb := b1) in * end.
    destruct (sinv_alloc X (set_be x s) bm id nb Hs1 Hbl Hid) as (H1 & H2 & _).
    + rewrite Ebm. split_and!; cbn; [|split; [|by intros []]|done].
      * unfold disk_ok. change (hasBackend nb) with (hasBackend b). rewrite Hbk. exists d.
        rewrite (expect_fresh X s bm nb) by done. by rewrite <- Hmd.
      * intros HD. destruct (si_dirty _ _ _ Hs _ HD) as (b1 & Hb1 & _). apply (si_next _ _ _ Hs) in Hb1. lia.
    + intros ds Hds. change (deps nb) with (deps b) in Hds. rewrite (sbe_no_deps _ _ _ _ Ec') in Hds. done.
    + intros d' Hd'. rewrite (Hd d' Hd'). by eapply (si_bm _ _ _ Hs).
    + split_and!; [done| |cbn; by rewrite lookup_insert_eq]. eapply ev_trans; [apply ev_set_be|done].
  - injection E as <- <-. destruct (bm !! id) as [[md d]|] eqn:Ebm; [done|].
    split_and!; [done|apply ev_set_be|done|done].
Qed.

Lemma GetData_ok l X s bm a s' :
  sinv X s bm → GetData be l s = Ok (a, s') →
  sinv X s' bm ∧ ev [] s s' ∧ ∃ b', heap s' !! l = Some b' ∧ Data b' = Some a.
Proof.
  intros Hs E. unfold GetData in E. mbind_inv E. rename a0 into b. unfold load in H.
  destruct (heap s !! l) as [b0|] eqn:Hb; [|done]. injection H as <- <-.
  destruct (Data b0) as [d|] eqn:Ed.
  { injection E as <- <-. split_and!; [done|apply ev_refl|by exists b0]. }
  mbind_inv E. apply call_inv in H as (x & Ec & ->). rename a0 into r.
  pose proof (bs_GetBlockData_pure _ _ _ _ _ (si_be _ _ _ Hs) Ec) as Hx.
  assert (belongs (Id b0) (default "" r)) as Hbel.
  { destruct (sbe_GetBlockData_there _ _ _ _ _ (si_be _ _ _ Hs) Ec) as [[md d] Hbm].
    destruct (bs_GetBlockData b0 (s_be s) bm _ _ (si_be _ _ _ Hs) Hbm) as (x' & Ec' & _).
    rewrite Ec in Ec'. injection Ec' as -> ->. by eapply (si_bm _ _ _ Hs). }
  assert (sinv X (set_be x s) bm) as Hs1 by (eapply sinv_set_be; [done..|apply Hs]).
  mbind_inv E. apply upd_inv in H as (b1 & Hb1 & ->). cbn in Hb1. rewrite Hb in Hb1. injection Hb1 as <-.
  mbind_inv E. mbind_inv E. injection E as <- <-.
  set (s2 := set_heap _ (set_be x s)) in *.
  assert (sinv X s2 bm ∧ ev [] s s2) as [Hs2 He2].
  { split.
    - unfold s2. rewrite <- set_dirty_id. eapply sinv_upd; [done|done|done|done| | | |].
      + intros HD. destruct (si_dirty _ _ _ Hs l HD) as (b1 & Hb1 & ?). rewrite Hb in Hb1. by injection Hb1 as <-.
      + intros Hbl. destruct (si_block _ _ _ Hs _ _ Hbl) as (b1 & Hb1 & _ & (Hdk & ? & ?)).
        rewrite Hb in Hb1. injection Hb1 as <-. split_and!; [|done..].
        unfold disk_ok, expect in *. cbn. destruct (hasBackend b0) eqn:Ek.
        * destruct Hdk as (d & Hbm & _). exists d. split; [done|]. intros d' [= <-].
          destruct (bs_GetBlockData b0 (s_be s) bm _ _ (si_be _ _ _ Hs) Hbm) as (x' & Ec' & _).
          rewrite Ec in Ec'. by injection Ec' as -> ->.
        * destruct Hdk as [_ [d Hd]]. congruence.
      + intros ds. cbn. by eapply si_deps.
      + by intros d [= <-].
    - eapply ev_trans; [apply (ev_set_be _ _ x)|]. split_and!; try done; try by left. intros l' b1 Hb1.
      destruct (decide (l' = l)) as [->|Hne].
      + cbn in Hb1. rewrite Hb in Hb1. injection Hb1 as <-. eexists. cbn. rewrite lookup_insert_eq. by split_and!.
      + exists b1. cbn in *. by rewrite lookup_insert_ne. }
  injection H as <- <-. injection H0 as <- <-. split_and!.
  - destruct Hs2. by split.
  - done.
  - eexists. cbn. rewrite lookup_insert_eq. split; [done|]. done.
Qed.

(** *** Dependencies *)

Lemma references_ok l X s bm a s' :
  sinv X s bm → references be callback l s = Ok (a, s') →
  sinv X s' bm ∧ ev [] s s' ∧ ∀ b, heap s !! l = Some b → light (Id b) a.
Proof.
  intros Hs E. unfold references in E. destruct callback as [f|] eqn:Ecb.
  2:{ injection E as <- <-. split_and!; [done|apply ev_refl|]. intros b _. apply light_nil. }
  mbind_inv E. unfold load in H. destruct (heap s !! l) as [b0|] eqn:Hb; [|done]. injection H as <- <-.
  destruct (deps b0) as [ds|] eqn:Ed.
  { injection E as <- <-. split_and!; [done|apply ev_refl|]. intros b [= <-]. by eapply si_deps. }
  mbind_inv E. destruct (GetData_ok _ _ _ _ _ _ Hs H) as (Hs1 & He1 & bd & Hbd & Hd). mbind_inv E. injection E as <- <-.
  destruct He1 as (Bk & Dk & Nk & Hh). destruct (Hh l b0 Hb) as (b1 & Hb1 & Hid1 & _ & Hm1).
  rewrite Hb1 in Hbd. injection Hbd as <-.
  assert (light (Id b0) (rev (f (Id b0) a0))) as Hni.
  { apply light_rev, references_down; [done|]. rewrite <- Hid1. by eapply (si_data _ _ _ Hs1). }
  apply upd_inv in H0 as (b2 & Hb2 & ->). rewrite Hb1 in Hb2. injection Hb2 as <-. split_and!.
  - rewrite <- set_dirty_id. eapply sinv_upd; [done|done|done|done| | | |].
    + intros HD. destruct (si_dirty _ _ _ Hs1 l HD) as (b2 & Hb2 & ?). rewrite Hb1 in Hb2. by injection Hb2 as <-.
    + intros Hbl. destruct (si_block _ _ _ Hs1 _ _ Hbl) as (b2 & Hb2 & _ & Hok). rewrite Hb1 in Hb2. by injection Hb2 as <-.
    + cbn. intros ds [= <-]. by rewrite Hid1.
    + cbn. intros d. by eapply (si_data _ _ _ Hs1).
  - split_and!; [done..|]. intros l' b Hb'. destruct (Hh l' b Hb') as (b' & Hbb & Hi & Hk & Hm).
    destruct (decide (l' = l)) as [->|Hne].
    + eexists. cbn. rewrite lookup_insert_eq. rewrite Hb1 in Hbb. injection Hbb as <-. exact (conj eq_refl (conj Hi (conj Hk Hm))).
    + exists b'. cbn. by rewrite lookup_insert_ne.
  - by intros b [= <-].
Qed.

(** A call on the block of an id, once it is in memory. *)
Definition keeps_in {A : Type} (ids : list string) (id : string) (l : positive) (m : M S A) : Prop :=
  ∀ X s bm a s', sinv X s bm → X_ok X s → blocks s !! id = Some l → m s = Ok (a, s') →
    sinv X s' bm ∧ ev ids s s'.

Lemma setDependencies_with_ok (ar : positive → Z → M S unit) l add storage st X s bm a s' :
  (storage = false → ∀ id l' v, keeps_in [id] id l' (ar l' v)) →
  sinv X s bm → X_ok X s → setDependencies_with be callback ar l add storage st s = Ok (a, s') →
  sinv X s' bm ∧ ∃ ids, ev ids s s' ∧ (storage = true → ids = []) ∧ ∀ b, heap s !! l = Some b → light (Id b) ids.
Proof.
  intros Har Hs HX E. unfold setDependencies_with in E. destruct (_ <=? _)%Z.
  { injection E as <- <-. split; [done|]. exists []. split_and!; [apply ev_refl|done|]. intros b _. apply light_nil. }
  mbind_inv E. rename a0 into refs. destruct (references_ok _ _ _ _ _ _ Hs H) as (Hs1 & He1 & Hni).
  assert (keeps (if storage then [] else refs) (iterate (λ id,
      ob ← getBlockById be id;
      match ob with
      | None => panic "Block awol in updateBlockDataDependencies"
      | Some b =>
          if storage then addStorageRefCount b (if add then 1 else -1)%Z
          else ar b (if add then 1 else -1)%Z
      end) refs)) as Hk.
  { clear E H Hs1 He1 Hni Hs HX. revert Har. clear -be BlockUpdateOk0 StorageBackendOk0 references_down. intros Har.
    assert (∀ sub, sub ⊆ refs → keeps (if storage then [] else refs) (iterate (λ id,
      ob ← getBlockById be id;
      match ob with
      | None => panic "Block awol in updateBlockDataDependencies"
      | Some b =>
          if storage then addStorageRefCount b (if add then 1 else -1)%Z
          else ar b (if add then 1 else -1)%Z
      end) sub)) as Hsub; [|by apply Hsub].
    induction sub as [|id sub IH]; intros Hsub; [apply keeps_ret|].
    apply keeps_bind; [|intros _; apply IH; set_solver].
    intros X s bm a s' Hs HX E. mbind_inv E. destruct (getBlockById_ok _ _ _ _ _ _ Hs HX H) as (Hs1 & He1 & Ha).
    destruct a0 as [b|]; [|done]. pose proof (X_ok_ev _ _ _ _ HX He1) as HX1. destruct storage.
    - destruct (keeps_addStorageRefCount [] _ _ _ _ _ _ _ Hs1 HX1 E) as [? He2]. split; [done|]. by eapply ev_trans.
    - destruct (Har eq_refl id b _ _ _ _ _ _ Hs1 HX1 Ha E) as [? He2]. split; [done|].
      eapply ev_trans; [eapply ev_mono; [|done]; set_solver|]. eapply ev_mono; [|done]. set_solver. }
  destruct (Hk _ _ _ _ _ Hs1 (X_ok_ev _ _ _ _ HX He1) E) as [Hs2 He2]. split; [done|].
  exists (if storage then [] else refs). split_and!.
  - eapply ev_trans; [|done]. eapply ev_mono; [|done]. set_solver.
  - by intros ->.
  - intros b Hb. destruct storage; [apply light_nil|]. by apply Hni.
Qed.

Lemma updateDependencies_with_ok (ar : positive → Z → M S unit) l add storage X s bm a s' :
  (storage = false → ∀ id l' v, keeps_in [id] id l' (ar l' v)) →
  sinv X s bm → X_ok X s → updateDependencies_with be callback ar l add storage s = Ok (a, s') →
  sinv X s' bm ∧ ∃ ids, ev ids s s' ∧ (storage = true → ids = []) ∧ ∀ b, heap s !! l = Some b → light (Id b) ids.
Proof.
  intros Har Hs HX E. unfold updateDependencies_with in E. mbind_inv E. unfold load in H.
  destruct (heap s !! l) as [b0|] eqn:Hb; [|done]. injection H as <- <-.
  assert (∀ f, (∀ b, core b (f b)) → ∀ a1 s1, upd l f s = Ok (a1, s1) → ∀ a2 s2,
    setDependencies_with be callback ar l add storage (Status (Meta b0)) s1 = Ok (a2, s2) →
    sinv X s2 bm ∧ ∃ ids, ev ids s s2 ∧ (storage = true → ids = []) ∧ ∀ b, Some b0 = Some b → light (Id b) ids) as Hgo.
  { intros f Hf a1 s1 Hu a2 s2 Hd. pose proof (upd_inv _ _ _ _ _ Hu) as (b1 & Hb1 & Es1).
    destruct (keeps_upd [] l f Hf _ _ _ _ _ Hs HX Hu) as [Hs1 He1].
    destruct (setDependencies_with_ok _ _ _ _ _ _ _ _ _ _ Har Hs1 (X_ok_ev _ _ _ _ HX He1) Hd) as (Hs2 & ids & He2 & Hst & Hni).
    split; [done|]. exists ids. split_and!; [|done|].
    - eapply ev_trans; [eapply ev_mono; [|done]; set_solver|done].
    - intros b [= <-]. rewrite Hb in Hb1. injection Hb1 as <-. destruct (Hf b0) as [<- _]. apply Hni.
      rewrite Es1. cbn. by rewrite lookup_insert_eq. }
  assert (sinv X s bm ∧ ∃ ids, ev ids s s ∧ (storage = true → ids = []) ∧ ∀ b, Some b0 = Some b → light (Id b) ids) as Hno.
  { split; [done|]. exists []. split_and!; [apply ev_refl|done|]. intros b _. apply light_nil. }
  destruct storage.
  - destruct (Bool.eqb _ _); [by mret_inv E|]. mbind_inv E. mbind_inv E. injection E as <- <-.
    eapply Hgo; [|done|done]. done.
  - destruct (Bool.eqb _ _); [by mret_inv E|]. mbind_inv E. mbind_inv E. injection E as <- <-.
    eapply Hgo; [|done|done]. done.
Qed.

Lemma keeps_shouldHaveStorageDependencies ids l v : keeps ids (shouldHaveStorageDependencies be callback l v).
Proof.
  intros X s bm a s' Hs HX E.
  destruct (updateDependencies_with_ok _ l v true X s bm a s' ltac:(done) Hs HX E) as (Hs' & ids' & He & Hn & _).
  split; [done|]. rewrite (Hn eq_refl) in He. eapply ev_mono; [|done]. set_solver.
Qed.

(** *** Marking dirty and counting references *)

Lemma markDirty_ok id l X s bm a s' :
  sinv X s bm → X_ok X s → blocks s !! id = Some l → markDirty l s = Ok (a, s') →
  sinv X s' bm ∧ ev [id] s s' ∧ ∃ b, heap s' !! l = Some b ∧ is_Some (Stored b).
Proof.
  intros Hs HX Hbl E. unfold markDirty in E. mbind_inv E. unfold load in H.
  destruct (heap s !! l) as [b0|] eqn:Hb; [|done]. injection H as <- <-.
  destruct (Stored b0) as [st|] eqn:Est.
  { injection E as <- <-. split_and!; [done|apply ev_refl|]. exists b0. rewrite Est. eauto. }
  mbind_inv E. destruct (keeps_addStorageRefCount [] _ _ _ _ _ _ _ Hs HX H) as [Hs1 He1].
  pose proof He1 as (Bk & _ & _ & Hh). destruct (Hh l b0 Hb) as (b1 & Hb1 & Hi1 & Hk1 & Hm1).
  destruct Hm1 as [Hm1 Hst1]; [apply not_elem_of_nil|]. pose proof (lookup_weaken _ _ _ _ Hbl Bk) as Hbl1.
  destruct (si_block _ _ _ Hs1 _ _ Hbl1) as (b2 & Hb2 & Hid2 & Hok). rewrite Hb1 in Hb2. injection Hb2 as <-.
  mbind_inv E. apply upd_inv in H0 as (b2 & Hb2 & ->). rewrite Hb1 in Hb2. injection Hb2 as <-.
  injection E as <- <-. set (b2 := with_Stored _ b1) in *. split_and!.
  - eapply (sinv_upd _ _ _ l b1 b2 ({[l]} ∪ dirtyBlocks _)); [done|done|done| | | | |].
    + intros l' Hne. cbn. set_solver.
    + by rewrite Hid2.
    + intros _. rewrite Hid2. destruct Hok as (Hdk & HD & Hcl). split_and!.
      * revert Hdk. unfold disk_ok, expect. cbn. rewrite Hst1, Est. cbn.
        replace (mkMeta (RefCount (Meta b1)) (Status (Meta b1))) with (Meta b1) by (by destruct (Meta b1)). done.
      * cbn. split; [eauto|set_solver].
      * done.
    + intros ds. cbn. by eapply si_deps.
    + intros d. cbn. by eapply si_data.
  - eapply ev_trans; [eapply ev_mono; [|done]; set_solver|]. split_and!; [done|cbn; set_solver| |].
    { cbn. intros l' [->%elem_of_singleton|Hl']%elem_of_union; [right|by left]. exists id. split; [by left|done]. }
    intros l' b Hb'. destruct (decide (l' = l)) as [->|Hne].
    + rewrite Hb1 in Hb'. injection Hb' as <-. exists b2. cbn. rewrite lookup_insert_eq. split_and!; [done..|].
      intros Hni. rewrite Hid2 in Hni. set_solver.
    + exists b. cbn. by rewrite lookup_insert_ne.
  - exists b2. cbn. rewrite lookup_insert_eq. eauto.
Qed.

(** The metadata of a dirty block changes. *)
Lemma upd_Meta_ok id l f X s bm a s' :
  sinv X s bm → blocks s !! id = Some l → (∃ b, heap s !! l = Some b ∧ is_Some (Stored b)) →
  upd l (λ b, with_Meta (f b) b) s = Ok (a, s') → sinv X s' bm ∧ ev [id] s s'.
Proof.
  intros Hs Hbl (b0 & Hb & [st Hst]) E. apply upd_inv in E as (b1 & Hb1 & ->). rewrite Hb in Hb1. injection Hb1 as <-.
  destruct (si_block _ _ _ Hs _ _ Hbl) as (b2 & Hb2 & Hid & (Hdk & HD & Hcl)). rewrite Hb in Hb2. injection Hb2 as <-. split.
  - rewrite <- set_dirty_id. eapply sinv_upd; [done|done|done|done|by rewrite Hid| | |].
    + intros _. rewrite Hid. split_and!; [|done|].
      * revert Hdk. unfold disk_ok, expect. cbn. by rewrite Hst.
      * cbn. by rewrite Hst.
    + intros ds. cbn. by eapply si_deps.
    + intros d. cbn. by eapply si_data.
  - split_and!; try done; try by left. intros l' b Hb'. destruct (decide (l' = l)) as [->|Hne].
    + rewrite Hb in Hb'. injection Hb' as <-. eexists. cbn. rewrite lookup_insert_eq. split_and!; [done..|].
      intros Hni. rewrite Hid in Hni. set_solver.
    + exists b. cbn. by rewrite lookup_insert_ne.
Qed.

Lemma addRefCount_ok id l v : keeps_in [id] id l (addRefCount be callback l v).
Proof.
  intros X s bm a s' Hs HX Hbl E. unfold addRefCount in E. destruct (v =? 0)%Z.
  { mret_inv E. split; [done|apply ev_refl]. }
  mbind_inv E. destruct (markDirty_ok _ _ _ _ _ _ _ Hs HX Hbl H) as (Hs1 & He1 & Hd1).
  pose proof (X_ok_ev _ _ _ _ HX He1) as HX1.
  assert (blocks s0 !! id = Some l) as Hbl1 by (eapply lookup_weaken; [done|apply He1]).
  mbind_inv E. destruct (upd_Meta_ok _ _ _ _ _ _ _ _ Hs1 Hbl1 Hd1 H0) as [Hs2 He2].
  pose proof (X_ok_ev _ _ _ _ HX1 He2) as HX2. pose proof (ev_trans _ _ _ _ He1 He2) as He12.
  assert (keeps [id] (b ← load l;
    if (RefCount (Meta b) <? 0)%Z then panic "RefCount below 0"
    else if (RefCount (Meta b) =? 0)%Z then _ ← shouldHaveStorageDependencies be callback l true; mret tt
    else mret tt)) as Hk.
  { apply keeps_bind; [apply keeps_load|]. intros b. destruct (_ <? _)%Z; [apply keeps_panic|].
    destruct (_ =? _)%Z; [|apply keeps_ret]. apply keeps_bind; [apply keeps_shouldHaveStorageDependencies|].
    intros _. apply keeps_ret. }
  destruct (Hk _ _ _ _ _ Hs2 HX2 E) as [Hs3 He3]. split; [done|]. by eapply ev_trans.
Qed.

Lemma shouldHaveDiskDependencies_ok l v X s bm a s' :
  sinv X s bm → X_ok X s → shouldHaveDiskDependencies be callback l v s = Ok (a, s') →
  sinv X s' bm ∧ ∃ ids, ev ids s s' ∧ ∀ b, heap s !! l = Some b → light (Id b) ids.
Proof.
  intros Hs HX E.
  destruct (updateDependencies_with_ok _ l v false X s bm a s' (λ _ id l' v', addRefCount_ok id l' v') Hs HX E)
    as (Hs' & ids & He & _ & Hni). eauto.
Qed.

(** *** Writing a block *)

(** The backend has the block with its new metadata, and the block knows. *)
Lemma sinv_write (s : St) bm bm' x l b id md h :
  sinv None s bm → blocks s !! id = Some l → heap s !! l = Some b → is_Some (Stored b) →
  bs_rep x bm' → (∀ id', id' ≠ id → bm' !! id' = bm !! id') →
  disk_ok (Some (l, md)) l (with_hasBackend h b) (bm' !! id) →
  (∀ md d, bm' !! id = Some (md, d) → belongs id d) →
  sinv (Some (l, md)) (set_heap (<[l := with_hasBackend h b]> (heap s)) (set_be x s)) bm'.
Proof.
  intros Hs Hbl Hb Hst Hx Hbm Hdk Hbel.
  assert (∀ id' l', blocks s !! id' = Some l' → id' ≠ id → l' ≠ l) as Hne.
  { intros id' l' Hl' Hi ->. destruct (si_block _ _ _ Hs _ _ Hl') as (b1 & Hb1 & Hid1 & _).
    destruct (si_block _ _ _ Hs _ _ Hbl) as (b2 & Hb2 & Hid2 & _). congruence. }
  split; cbn.
  - done.
  - intros id' l' Hl'. destruct (si_block _ _ _ Hs id' l' Hl') as (b1 & Hb1 & Hid1 & Hok).
    destruct (decide (id' = id)) as [->|Hi].
    + assert (l' = l) as -> by congruence. rewrite Hb in Hb1. injection Hb1 as <-. exists (with_hasBackend h b).
      rewrite lookup_insert_eq. split_and!; [done..|]. destruct Hok as (_ & HD & _). split_and!; [done|done|].
      cbn. destruct Hst as [st ->]. done.
    + exists b1. rewrite lookup_insert_ne by (apply not_eq_sym; by eapply Hne). split_and!; [done..|].
      rewrite Hbm by done. destruct Hok as (Hd & HD & Hcl). split_and!; [|done..].
      unfold disk_ok, expect in *. rewrite decide_False by (by eapply Hne). done.
  - intros l' Hl'. destruct (si_dirty _ _ _ Hs l' Hl') as (b1 & Hb1 & Hbl1).
    destruct (decide (l' = l)) as [->|].
    + exists (with_hasBackend h b). rewrite lookup_insert_eq. rewrite Hb in Hb1. by injection Hb1 as <-.
    + exists b1. by rewrite lookup_insert_ne.
  - intros l' b1 [[<- <-]|[_ Hb1]]%lookup_insert_Some; by eapply si_next.
  - intros l' b1 ds [[<- <-]|[_ Hb1]]%lookup_insert_Some; [exact (si_deps _ _ _ Hs l b ds Hb)|by eapply si_deps].
  - intros l' b1 d [[<- <-]|[_ Hb1]]%lookup_insert_Some; [exact (si_data _ _ _ Hs l b d Hb)|by eapply si_data].
  - intros id' md' d. destruct (decide (id' = id)) as [->|Hi]; [apply Hbel|]. rewrite Hbm by done. apply Hs.
  - intros l' Hl'. apply lookup_insert_is_Some'. right. by apply (si_ref _ _ _ Hs).
Qed.

(** The block is clean. *)
Lemma sinv_clean (s : St) bm l b id md :
  sinv (Some (l, md)) s bm → blocks s !! id = Some l → heap s !! l = Some b → Meta b = md →
  (RefCount md ≠ 0%Z → hasBackend b = true) →
  sinv None (set_dirty (dirtyBlocks s ∖ {[l]}) (set_heap (<[l := with_Stored None b]> (heap s)) s)) bm.
Proof.
  intros Hs Hbl Hb HM Hrc. destruct (si_block _ _ _ Hs _ _ Hbl) as (b0 & Hb0 & Hid & (Hdk & HD & _)).
  rewrite Hb in Hb0. injection Hb0 as <-. split; cbn.
  - apply Hs.
  - intros id' l' Hl'. destruct (si_block _ _ _ Hs id' l' Hl') as (b1 & Hb1 & Hid1 & Hok).
    destruct (decide (l' = l)) as [->|Hne].
    + rewrite Hb in Hb1. injection Hb1 as <-. eexists. rewrite lookup_insert_eq. split_and!; [done|done|].
      subst id'. split_and!.
      * revert Hdk. rewrite Hid. unfold disk_ok, expect. cbn. rewrite decide_True, HM by done. done.
      * cbn. split; [set_solver|by intros []].
      * cbn. intros _. by rewrite HM.
    + exists b1. rewrite lookup_insert_ne by done. split_and!; [done..|]. destruct Hok as (Hd & HD' & Hcl).
      split_and!; [|set_solver|done]. unfold disk_ok, expect in *. by rewrite decide_False in Hd.
  - intros l' [Hl' Hne]%elem_of_difference. destruct (si_dirty _ _ _ Hs l' Hl') as (b1 & Hb1 & Hbl1).
    exists b1. rewrite lookup_insert_ne by set_solver. done.
  - intros l' b1 [[<- <-]|[_ Hb1]]%lookup_insert_Some; by eapply si_next.
  - intros l' b1 ds [[<- <-]|[_ Hb1]]%lookup_insert_Some; [exact (si_deps _ _ _ Hs l b ds Hb)|by eapply si_deps].
  - intros l' b1 d [[<- <-]|[_ Hb1]]%lookup_insert_Some; [exact (si_data _ _ _ Hs l b d Hb)|by eapply si_data].
  - apply Hs.
  - intros l' Hl'. apply lookup_insert_is_Some'. right. by apply (si_ref _ _ _ Hs).
Qed.

Lemma with_hasBackend_id (b : Block) : with_hasBackend (hasBackend b) b = b.
Proof. by destruct b. Qed.
Lemma set_heap_id (s : St) : set_heap (heap s) s = s.
Proof. by destruct s. Qed.

(** The first half of [Block.flush]: the backend is told. *)
Definition flush_backend (b : Block) (self : positive) : M S Z :=
  if (RefCount (Meta b) =? 0)%Z then
    if hasBackend b then
      _ ← GetData be self;
      _ ← count C_DELETE 1;
      b ← load self;
      _ ← call_ (be_DeleteBlock be b);
      _ ← upd self (with_hasBackend false);
      mret 1%Z
    else mret 1%Z
  else if negb (hasBackend b) then
    _ ← count C_WRITE 1;
    data ← GetData be self;
    _ ← count C_WRITEBYTES (Z.of_nat (String.length data));
    b ← load self;
    _ ← call_ (be_StoreBlock be b);
    _ ← upd self (with_hasBackend true);
    mret 1%Z
  else call (be_UpdateBlock be b).

(** The blocks in memory stay there and keep their ids. *)
Definition ids_kept (s s' : St) : Prop := ∀ l b, heap s !! l = Some b → ∃ b', heap s' !! l = Some b' ∧ Id b' = Id b.
Lemma ids_kept_trans s1 s2 s3 : ids_kept s1 s2 → ids_kept s2 s3 → ids_kept s1 s3.
Proof.
  intros H1 H2 l b Hb. destruct (H1 l b Hb) as (b1 & Hb1 & E1). destruct (H2 l b1 Hb1) as (b2 & Hb2 & E2). exists b2. split; [done|congruence].
Qed.
Lemma ev_ids_kept ids s s' : ev ids s s' → ids_kept s s'.
Proof. intros (_ & _ & _ & Hh) l b Hb. destruct (Hh l b Hb) as (b' & ? & ? & _). eauto. Qed.
Lemma ids_kept_upd l f (s : St) b : (∀ b, Id (f b) = Id b) → heap s !! l = Some b → ids_kept s (set_heap (<[l := f b]> (heap s)) s).
Proof.
  intros Hf Hb l' b' Hb'. cbn. destruct (decide (l' = l)) as [->|]; [|rewrite lookup_insert_ne by done; eauto].
  rewrite lookup_insert_eq. assert (b' = b) as -> by congruence. eauto.
Qed.
Lemma ev_nil_dirty s s' : ev [] s s' → dirtyBlocks s' = dirtyBlocks s.
Proof. intros (_ & HD & HN & _). apply set_eq. intros l. split; [|apply HD]. intros [|(? & []%elem_of_nil & _)]%HN; done. Qed.

(** What it leaves behind. *)
Definition written (s s1 : St) (bm1 : blockmap) (l : positive) (b : Block) : Prop :=
  sinv (Some (l, Meta b)) s1 bm1 ∧ blocks s ⊆ blocks s1 ∧ dirtyBlocks s1 = dirtyBlocks s ∧ ids_kept s s1 ∧
  ∃ b1, heap s1 !! l = Some b1 ∧ Id b1 = Id b ∧ Meta b1 = Meta b ∧ is_Some (Stored b1) ∧
    hasBackend b1 = negb (RefCount (Meta b) =? 0)%Z.

Lemma written_intro (s s0 : St) bm bm' x l b b0 h :
  sinv None s0 bm → ev [] s s0 → heap s !! l = Some b → blocks s !! Id b = Some l → is_Some (Stored b) →
  heap s0 !! l = Some b0 → bs_rep x bm' → (∀ id', id' ≠ Id b → bm' !! id' = bm !! id') →
  disk_ok (Some (l, Meta b)) l (with_hasBackend h b0) (bm' !! Id b) → (∀ md d, bm' !! Id b = Some (md, d) → belongs (Id b) d) →
  h = negb (RefCount (Meta b) =? 0)%Z →
  written s (set_heap (<[l := with_hasBackend h b0]> (heap s0)) (set_be x s0)) bm' l b.
Proof.
  intros Hs0 He Hb Hbl Hst Hb0 Hx Hbm Hdk Hbel ->. pose proof He as (Bk & _ & _ & Hh).
  destruct (Hh l b Hb) as (b1 & Hb1 & Hi & Hk & Hm). rewrite Hb0 in Hb1. injection Hb1 as <-.
  destruct Hm as [Hm1 Hm2]; [apply not_elem_of_nil|]. rewrite <- Hm2 in Hst. split_and!.
  - eapply sinv_write; try done. eapply lookup_weaken; [done|apply Bk].
  - exact Bk.
  - cbn. by apply ev_nil_dirty.
  - eapply ids_kept_trans; [by eapply ev_ids_kept|]. apply (ids_kept_upd l (with_hasBackend _) (set_be x s0) b0); done.
  - eexists. cbn. rewrite lookup_insert_eq. by split_and!.
Qed.

Lemma flush_backend_ok l b s bm a s1 :
  sinv None s bm → heap s !! l = Some b → blocks s !! Id b = Some l → is_Some (Stored b) →
  flush_backend b l s = Ok (a, s1) → ∃ bm1, written s s1 bm1 l b.
Proof.
  intros Hs Hb Hbl Hst E. unfold flush_backend in E.
  destruct (si_block _ _ _ Hs _ _ Hbl) as (b' & Hb' & _ & (Hdk & _ & _)). rewrite Hb in Hb'. injection Hb' as <-.
  assert (∀ s0, ev [] s s0 → ∃ b0, heap s0 !! l = Some b0 ∧ Id b0 = Id b ∧ Meta b0 = Meta b ∧ hasBackend b0 = hasBackend b) as Hkeep.
  { intros s0 (_ & _ & _ & Hh). destruct (Hh l b Hb) as (b0 & ? & ? & ? & Hm).
    destruct Hm as [? _]; [apply not_elem_of_nil|]. by exists b0. }
  destruct (Z.eqb_spec (RefCount (Meta b)) 0) as [Hrc|Hrc]; [destruct (hasBackend b) eqn:Ek|destruct (hasBackend b) eqn:Ek; cbn [negb] in E].
  - mbind_inv E. destruct (GetData_ok _ _ _ _ _ _ Hs H) as (Hs1 & He1 & _). mbind_inv E.
    destruct (keeps_count [] _ _ _ _ _ _ _ Hs1 ltac:(done) H0) as [Hs2 He2]. pose proof (ev_trans _ _ _ _ He1 He2) as He.
    mbind_inv E. unfold load in H1. destruct (Hkeep _ He) as (b0 & Hb0 & Hi0 & Hm0 & Hk0). rewrite Hb0 in H1.
    injection H1 as <- <-. mbind_inv E. apply call__inv in H1 as (x & Ec & ->). mbind_inv E.
    apply upd_inv in H1 as (b2 & Hb2 & ->). cbn in Hb2. rewrite Hb0 in Hb2. injection Hb2 as <-. injection E as <- <-.
    unfold disk_ok in Hdk. rewrite Ek in Hdk. destruct Hdk as (d & Hbm & _). rewrite <- Hi0 in Hbm.
    destruct (bs_DeleteBlock b0 (s_be _) bm _ (si_be _ _ _ Hs2) Hbm) as (x' & Ec' & Hx). rewrite Ec in Ec'. injection Ec' as <-.
    exists (delete (Id b0) bm). cbn. eapply (written_intro s _ bm); try done.
    + intros id' Hne. rewrite lookup_delete_ne; [done|congruence].
    + unfold disk_ok. cbn. rewrite Hi0, lookup_delete_eq. split; [done|].
      destruct (GetData_ok _ _ _ _ _ _ Hs H) as (_ & _ & b3 & Hb3 & Hd3).
      injection H0 as <- <-. cbn in Hb0. rewrite Hb3 in Hb0. injection Hb0 as <-. eauto.
    + rewrite Hi0, lookup_delete_eq. done.
    + by rewrite Hrc.
  - injection E as <- <-. exists bm. split_and!; [|done|done|by intros ? b1 ?; exists b1|].
    + assert (s = set_heap (<[l := with_hasBackend false b]> (heap s)) (set_be (s_be s) s)) as ->.
      { rewrite <- Ek, with_hasBackend_id.
        rewrite insert_id by done. by destruct s. }
      eapply sinv_write; try done; [apply Hs| |intros md d; apply Hs]. unfold disk_ok in *. rewrite Ek in Hdk. done.
    + exists b. split_and!; try done. by rewrite Hrc.
  - apply call_inv in E as (x & Ec & ->). unfold disk_ok in Hdk. rewrite Ek in Hdk. destruct Hdk as (d & Hbm & Hd).
    destruct (bs_UpdateBlock b (s_be s) bm _ _ (si_be _ _ _ Hs) Hbm) as (x' & Ec' & Hx). rewrite Ec in Ec'. injection Ec' as -> <-.
    exists (<[Id b := (Meta b, d)]> bm).
    assert (set_be x s = set_heap (<[l := with_hasBackend true b]> (heap s)) (set_be x s)) as ->.
    { rewrite <- Ek, with_hasBackend_id.
      rewrite insert_id by done. by destruct s. }
    eapply (written_intro s s bm); try done.
    + apply ev_refl.
    + intros id' Hne. by rewrite lookup_insert_ne.
    + unfold disk_ok, expect. cbn. rewrite lookup_insert_eq, decide_True by done. eauto.
    + intros md d'. rewrite lookup_insert_eq. intros [= <- <-]. by eapply (si_bm _ _ _ Hs).
    + symmetry. by apply negb_true_iff, Z.eqb_neq.
  - mbind_inv E. destruct (keeps_count [] _ _ _ _ _ _ _ Hs ltac:(done) H) as [Hs1 He1]. mbind_inv E.
    destruct (GetData_ok _ _ _ _ _ _ Hs1 H0) as (Hs2 & He2 & b3 & Hb3 & Hd3). mbind_inv E.
    destruct (keeps_count [] _ _ _ _ _ _ _ Hs2 ltac:(done) H1) as [Hs3 He3].
    pose proof (ev_trans _ _ _ _ (ev_trans _ _ _ _ He1 He2) He3) as He. mbind_inv E. unfold load in H2.
    destruct (Hkeep _ He) as (b0 & Hb0 & Hi0 & Hm0 & Hk0). rewrite Hb0 in H2. injection H2 as <- <-.
    injection H1 as <- <-. cbn in Hb0. rewrite Hb3 in Hb0. injection Hb0 as <-.
    mbind_inv E. apply call__inv in H1 as (x & Ec & ->). mbind_inv E. apply upd_inv in H1 as (b2 & Hb2 & ->). cbn in Hb2.
    rewrite Hb3 in Hb2. injection Hb2 as <-. injection E as <- <-.
    unfold disk_ok in Hdk. rewrite Ek in Hdk. destruct Hdk as [Hbm _]. rewrite <- Hi0 in Hbm.
    destruct (bs_StoreBlock b3 _ bm _ (si_be _ _ _ Hs3) Hbm Hd3 (sbe_accepts _ _)) as (x' & Ec' & Hx). cbn in Ec, Ec'. rewrite Ec in Ec'.
    injection Ec' as <-. exists (<[Id b3 := (Meta b3, a1)]> bm).
    apply (written_intro s _ bm _ x l b b3 true Hs3 He); try done.
    + intros id' Hne. rewrite lookup_insert_ne; [done|congruence].
    + unfold disk_ok, expect. cbn. rewrite Hi0, lookup_insert_eq, decide_True by done. exists a1. split; [congruence|].
      intros d'. congruence.
    + intros md d'. rewrite Hi0, lookup_insert_eq. intros [= <- <-]. rewrite <- Hi0. by eapply (si_data _ _ _ Hs2).
    + symmetry. by apply negb_true_iff, Z.eqb_neq.
Qed.

(** A set of blocks has lost [l] and at most gained the blocks of [refs]. *)
Definition grown (refs : list string) (l : positive) (D : gset positive) (s' : St) (D' : gset positive) : Prop :=
  ∀ l', l' ∈ D' → (l' ∈ D ∧ l' ≠ l) ∨ ∃ id, id ∈ refs ∧ blocks s' !! id = Some l'.

(** [Block.flush] of a dirty block keeps the invariant, for the new content of the backend, and
    the block is clean. *)
Lemma Block_flush_ok l s bm a s' :
  sinv None s bm → l ∈ dirtyBlocks s → Block_flush be callback l s = Ok (a, s') →
  ∃ bm', sinv None s' bm' ∧ ids_kept s s' ∧
    ∃ b refs, heap s !! l = Some b ∧ light (Id b) refs ∧ grown refs l (dirtyBlocks s) s' (dirtyBlocks s').
Proof.
  intros Hs HD E. destruct (si_dirty _ _ _ Hs l HD) as (b & Hb & Hbl).
  unfold Block_flush in E. mbind_inv E. unfold load in H. rewrite Hb in H. injection H as <- <-.
  destruct (Stored b) as [stored|] eqn:Est; [|done]. mbind_inv E.
  destruct (flush_backend_ok l b s bm _ _ Hs Hb Hbl ltac:(rewrite Est; eauto) H)
    as (bm1 & Hs1 & Bk1 & HD1 & Hik1 & b1 & Hb1 & Hi1 & Hm1 & Hst1 & Hk1).
  mbind_inv E. rename s1 into s2. exists bm1.
  assert (∃ ids, sinv (Some (l, Meta b)) s2 bm1 ∧ ev ids s0 s2 ∧ light (Id b) ids) as (ids & Hs2 & He2 & Hli).
  { assert (X_ok (Some (l, Meta b)) s0) as HX by (intros l0 md [= <- <-]; eauto).
    destruct (negb (Bool.eqb _ _)).
    - mbind_inv H0. destruct (shouldHaveDiskDependencies_ok _ _ _ _ _ _ _ Hs1 HX H1) as (Hs3 & ids & He3 & Hni).
      exists ids. pose proof (X_ok_ev _ _ _ _ HX He3) as HX3. specialize (Hni b1 Hb1). rewrite Hi1 in Hni.
      destruct (negb (RefCount (Meta b) =? 0)%Z).
      + mbind_inv H0. destruct (keeps_shouldHaveStorageDependencies ids _ _ _ _ _ _ _ Hs3 HX3 H2) as [Hs4 He4].
        mret_inv H0. split_and!; [done|by eapply ev_trans|done].
      + mret_inv H0. by split_and!.
    - mret_inv H0. exists []. split_and!; [done|apply ev_refl|apply light_nil]. }
  pose proof (light_not_in _ _ Hli) as Hni. mbind_inv E. apply upd_inv in H1 as (b2 & Hb2 & ->). mbind_inv E. injection H1 as <- <-. mbind_inv E.
  injection E as <- <-. pose proof He2 as (Bk2 & _ & HN2 & Hh2). destruct (Hh2 l b1 Hb1) as (b3 & Hb3 & Hi3 & Hk3 & Hm3).
  rewrite Hb2 in Hb3. injection Hb3 as <-. destruct Hm3 as [Hm3 _]; [congruence|].
  assert (blocks s2 !! Id b = Some l) as Hbl2.
  { eapply lookup_weaken; [|apply Bk2]. by eapply lookup_weaken. }
  assert (sinv None (set_dirty (dirtyBlocks s2 ∖ {[l]}) (set_heap (<[l := with_Stored None b2]> (heap s2)) s2)) bm1) as Hs3.
  { eapply sinv_clean; [done|done|done|congruence|]. intros Hrc. rewrite Hk3, Hk1. by apply negb_true_iff, Z.eqb_neq. }
  destruct (keeps_addStorageRefCount [] _ _ _ _ _ _ _ Hs3 ltac:(done) H1) as [Hs4 He4]. split_and!; [done| |].
  - eapply ids_kept_trans; [exact Hik1|]. eapply ids_kept_trans; [by eapply ev_ids_kept|].
    eapply ids_kept_trans; [|by eapply ev_ids_kept]. exact (ids_kept_upd l (with_Stored None) s2 b2 ltac:(done) Hb2).
  - exists b, ids. split_and!; [done..|]. intros l'. rewrite (ev_nil_dirty _ _ He4). cbn.
    intros [[Hl'|(id & Hid & Hl')]%HN2 Hne%not_elem_of_singleton]%elem_of_difference; [left; by rewrite <- HD1|right].
    exists id. split; [done|]. eapply lookup_weaken; [exact Hl'|apply He4].
Qed.

(** *** The loops of the flush *)

(** The invariant with some content, for computations that write. *)
Definition holds {A : Type} (m : M S A) : Prop :=
  ∀ s bm a s', sinv None s bm → m s = Ok (a, s') → ∃ bm', sinv None s' bm'.

Lemma holds_keeps {A : Type} ids (m : M S A) : keeps ids m → holds m.
Proof. intros Hm s bm a s' Hs E. exists bm. by eapply (Hm None s bm a s'). Qed.
Lemma holds_bind {A B : Type} (m : M S A) (k : A → M S B) : holds m → (∀ a, holds (k a)) → holds (m ≫= k).
Proof. intros Hm Hk s bm b s' Hs E. mbind_inv E. destruct (Hm _ _ _ _ Hs H) as [bm1 Hs1]. by eapply Hk. Qed.
Lemma holds_ret {A : Type} (a : A) : holds (mret a : M S A).
Proof. by apply (holds_keeps []), keeps_ret. Qed.

(** Most computations leave the blocks to be dropped alone. *)
Definition keepsR {A : Type} (m : M S A) : Prop := ∀ s a s', m s = Ok (a, s') → dirtyStorageRefBlocks s' = dirtyStorageRefBlocks s.
Lemma keepsR_bind {A B : Type} (m : M S A) (k : A → M S B) : keepsR m → (∀ a, keepsR (k a)) → keepsR (m ≫= k).
Proof. intros Hm Hk s b s' E. mbind_inv E. by rewrite (Hk _ _ _ _ E), (Hm _ _ _ H). Qed.
Lemma keepsR_ret {A : Type} (a : A) : keepsR (mret a : M S A).
Proof. by intros s a' s' [= <- <-]. Qed.
Lemma keepsR_load l : keepsR (load (S := S) l).
Proof. intros s a s'. unfold load. destruct (heap s !! l); [|done]. by intros [= <- <-]. Qed.
Lemma keepsR_modify (f : St → St) : (∀ s, dirtyStorageRefBlocks (f s) = dirtyStorageRefBlocks s) → keepsR (modify f).
Proof. by intros Hf s a s' [= <- <-]. Qed.
Lemma keepsR_upd l f : keepsR (upd (S := S) l f).
Proof. intros s a s' (b & _ & ->)%upd_inv. done. Qed.
Lemma keepsR_call {A : Type} (f : S → res (A * S)) : keepsR (call f).
Proof. intros s a s' (x & _ & ->)%call_inv. done. Qed.
Lemma keepsR_GetData l : keepsR (GetData be l).
Proof.
  unfold GetData. apply keepsR_bind; [apply keepsR_load|]. intros b. destruct (Data b); [apply keepsR_ret|].
  apply keepsR_bind; [apply keepsR_call|]. intros r. apply keepsR_bind; [apply keepsR_upd|]. intros _.
  repeat (apply keepsR_bind; [by apply keepsR_modify|]; intros _). apply keepsR_ret.
Qed.
Lemma keepsR_references l : keepsR (references be callback l).
Proof.
  unfold references. destruct callback; [|apply keepsR_ret]. apply keepsR_bind; [apply keepsR_load|]. intros b.
  destruct (deps b); [apply keepsR_ret|]. apply keepsR_bind; [apply keepsR_GetData|]. intros d.
  apply keepsR_bind; [apply keepsR_upd|]. intros _. apply keepsR_ret.
Qed.
Lemma keepsR_getBlockById id : keepsR (getBlockById be id).
Proof.
  unfold getBlockById. apply keepsR_bind; [by intros s a s' [= <- <-]|]. intros bs. destruct (bs !! id); [apply keepsR_ret|].
  apply keepsR_bind; [apply keepsR_call|]. intros [b|]; [|apply keepsR_ret].
  apply keepsR_bind; [by intros s a s' [= <- <-]|]. intros l. apply keepsR_bind; [by apply keepsR_modify|]. intros _. apply keepsR_ret.
Qed.
Lemma addStorageRefCount_adds l v s a s' :
  addStorageRefCount (S := S) l v s = Ok (a, s') → dirtyStorageRefBlocks s' ⊆ {[l]} ∪ dirtyStorageRefBlocks s ∧ blocks s' = blocks s.
Proof.
  unfold addStorageRefCount. intros E. mbind_inv E. apply upd_inv in H as (b & _ & ->). mbind_inv E.
  unfold load in H. destruct (heap _ !! l); [|done]. injection H as <- <-.
  destruct (_ <? 0)%Z; [done|]. destruct (_ =? 0)%Z; [injection E as <- <-; cbn; set_solver|].
  destruct (negb _); injection E as <- <-; cbn; set_solver.
Qed.

(** Storage references of a block reach the blocks it refers to. *)
Lemma storage_refs_add refs (v : Z) s bm a s' :
  sinv None s bm →
  iterate (λ id,
      ob ← getBlockById be id;
      match ob with
      | None => panic "Block awol in updateBlockDataDependencies"
      | Some b => addStorageRefCount b v
      end) refs s = Ok (a, s') →
  blocks s ⊆ blocks s' ∧
  ∀ l', l' ∈ dirtyStorageRefBlocks s' → l' ∈ dirtyStorageRefBlocks s ∨ ∃ id, id ∈ refs ∧ blocks s' !! id = Some l'.
Proof.
  revert s. induction refs as [|id refs IH]; intros s Hs E; [mret_inv E; by auto|]. cbn [iterate] in E.
  mbind_inv E. mbind_inv H. destruct (getBlockById_ok _ _ _ _ _ _ Hs ltac:(done) H0) as (Hs3 & He3 & Hl3).
  destruct a1 as [p|]; [|done]. pose proof (keepsR_getBlockById _ _ _ _ H0) as ER3.
  destruct (addStorageRefCount_adds _ _ _ _ _ H) as [Hsub Ebl]. destruct (keeps_addStorageRefCount [] _ _ _ _ _ _ _ Hs3 ltac:(done) H) as [Hs4 _].
  destruct (IH _ Hs4 E) as [Hbl Hadd]. split; [transitivity (blocks s1); [apply He3|by rewrite <- Ebl]|].
  intros l' Hl'. destruct (Hadd l' Hl') as [Hl4|(id' & ? & ?)]; [|right; exists id'; split; [by right|done]].
  apply Hsub, elem_of_union in Hl4 as [->%elem_of_singleton|Hl4]; [|left; by rewrite <- ER3].
  right. exists id. split; [by left|]. eapply lookup_weaken; [|exact Hbl]. by rewrite Ebl.
Qed.
Lemma shouldHaveStorageDependencies_adds l v s bm a s' b :
  sinv None s bm → heap s !! l = Some b → shouldHaveStorageDependencies be callback l v s = Ok (a, s') →
  ∃ refs, light (Id b) refs ∧
    ∀ l', l' ∈ dirtyStorageRefBlocks s' → l' ∈ dirtyStorageRefBlocks s ∨ ∃ id, id ∈ refs ∧ blocks s' !! id = Some l'.
Proof.
  intros Hs Hb E. unfold shouldHaveStorageDependencies, updateDependencies_with in E. mbind_inv E.
  unfold load in H. rewrite Hb in H. injection H as <- <-.
  destruct (Bool.eqb _ _); [mret_inv E; exists []; split; [apply light_nil|by left]|].
  mbind_inv E. destruct (keeps_upd [] l (with_haveStorageRefs v) ltac:(done) _ _ _ _ _ Hs ltac:(done) H) as [Hs1 He1].
  pose proof (keepsR_upd _ _ _ _ _ H) as ER1. destruct He1 as (_ & _ & _ & Hh1). destruct (Hh1 l b Hb) as (b1 & Hb1 & Hi1 & _).
  mbind_inv E. mret_inv E. unfold setDependencies_with in H0. destruct (_ <=? _)%Z.
  { mret_inv H0. exists []. split; [apply light_nil|]. rewrite ER1. by left. }
  mbind_inv H0. match type of H1 with _ = Ok (?r, _) => rename r into refs end. destruct (references_ok _ _ _ _ _ _ Hs1 H1) as (Hs2 & _ & Hli).
  exists refs. split; [rewrite <- Hi1; by apply Hli|]. rewrite <- ER1, <- (keepsR_references _ _ _ _ H1).
  exact (proj2 (storage_refs_add _ _ _ _ _ _ Hs2 H0)).
Qed.

(** Dropping unused blocks, when nothing is dirty. *)
Lemma flushStorageRef_ok l s bm a s' :
  sinv None s bm → dirtyBlocks s = ∅ → flushStorageRef be callback l s = Ok (a, s') →
  sinv None s' bm ∧ dirtyBlocks s' = ∅ ∧ ids_kept s s' ∧
  ∃ b refs, heap s !! l = Some b ∧ light (Id b) refs ∧ grown refs l (dirtyStorageRefBlocks s) s' (dirtyStorageRefBlocks s').
Proof.
  intros Hs HD E. unfold flushStorageRef in E. mbind_inv E. injection H as <- <-.
  set (s1 := set_dirtyRef _ s) in *. assert (sinv None s1 bm) as Hs1 by (destruct Hs as [?????????]; split; try done; cbn; set_solver).
  mbind_inv E. unfold load in H. destruct (heap s1 !! l) as [b|] eqn:Hb; [|done]. injection H as <- <-.
  assert (∀ v a2 s2, shouldHaveStorageDependencies be callback l v s1 = Ok (a2, s2) →
    sinv None s2 bm ∧ dirtyBlocks s2 = ∅ ∧ ids_kept s s2 ∧
    ∃ refs, light (Id b) refs ∧ grown refs l (dirtyStorageRefBlocks s) s2 (dirtyStorageRefBlocks s2)) as Hdeps.
  { intros v a2 s2 H. destruct (keeps_shouldHaveStorageDependencies [] _ _ _ _ _ _ _ Hs1 ltac:(done) H) as [Hs2 He2].
    destruct (shouldHaveStorageDependencies_adds _ _ _ _ _ _ _ Hs1 Hb H) as (refs & Hli & Hadd).
    split_and!; [done|by rewrite (ev_nil_dirty _ _ He2)|exact (ev_ids_kept _ _ _ He2)|]. exists refs. split; [done|].
    intros l' [Hl'|]%Hadd; [left|by right]. cbn in Hl'. set_solver. }
  destruct (_ =? 0)%Z.
  - mbind_inv E. destruct (Hdeps _ _ _ H) as (Hs2 & HD2 & Hik & refs & Hli & Hgr).
    mbind_inv E. injection H0 as <- <-. injection E as <- <-. split_and!; [|done|done|].
    + split; cbn; [apply Hs2| |rewrite HD2; set_solver|apply Hs2..].
      intros id l' [Hne Hl']%lookup_delete_Some. by apply (si_block _ _ _ Hs2).
    + exists b, refs. split_and!; [done..|]. intros l' [|(id & Hin & Hl')]%Hgr; [by left|right]. exists id. split; [done|].
      cbn. rewrite lookup_delete_ne; [done|]. intros <-. by apply (light_not_in _ _ Hli).
  - mbind_inv E. injection E as <- <-. destruct (Hdeps _ _ _ H) as (Hs2 & HD2 & Hik & refs & Hli & Hgr).
    split_and!; [done..|]. by exists b, refs.
Qed.

(** *** Names *)

Lemma keeps_getName n : keeps [] (getName be n).
Proof.
  intros X s bm a s' Hs HX E. unfold getName in E. mbind_inv E. injection H as <- <-.
  destruct (names s !! n); [mret_inv E; split; [done|apply ev_refl]|]. mbind_inv E.
  apply call_inv in H as (x & Ec & ->). pose proof (sbe_GetName _ _ _ _ _ (si_be _ _ _ Hs) Ec) as Hx.
  assert (sinv X (set_be x s) bm) as Hs1 by (eapply sinv_set_be; [done..|apply Hs]). mbind_inv E. injection H as <- <-. injection E as <- <-.
  split; [destruct Hs1; by split|]. apply (ev_set_be [] s x).
Qed.

Lemma keeps_on_block ids id v :
  keeps ids (ob ← getBlockById be id; b ← nonnil ob; addStorageRefCount b v).
Proof.
  intros X s bm a s' Hs HX E. mbind_inv E. destruct (getBlockById_ok _ _ _ _ _ _ Hs HX H) as (Hs1 & He1 & _).
  mbind_inv E. destruct a0 as [l|]; [|done]. injection H0 as <- <-.
  destruct (keeps_addStorageRefCount ids _ _ _ _ _ _ _ Hs1 (X_ok_ev _ _ _ _ HX He1) E) as [Hs2 He2].
  split; [done|]. eapply ev_trans; [eapply ev_mono; [|done]; set_solver|done].
Qed.

Lemma keeps_setNameToBlockId n i : keeps [] (setNameToBlockId be n i).
Proof.
  unfold setNameToBlockId. apply keeps_bind; [apply keeps_getName|]. intros v.
  apply keeps_bind; [destruct (negb _); [apply keeps_on_block|apply keeps_ret]|]. intros _.
  apply keeps_bind; [destruct (gotStorageRef v); [apply keeps_on_block|apply keeps_ret]|]. intros _.
  by apply keeps_modify.
Qed.

Lemma holds_refer id v : holds (ob ← getBlockById be id; b ← nonnil ob; addRefCount be callback b v).
Proof.
  intros s bm a s' Hs E. mbind_inv E. destruct (getBlockById_ok _ _ _ _ _ _ Hs ltac:(done) H) as (Hs1 & He1 & Hl).
  mbind_inv E. destruct a0 as [l|]; [|done]. injection H0 as <- <-.
  destruct (addRefCount_ok id l v _ _ _ _ _ Hs1 ltac:(done) Hl E) as [Hs2 _]. eauto.
Qed.

Lemma holds_flushBlockName k v : holds (flushBlockName be callback k v).
Proof.
  unfold flushBlockName. apply holds_bind.
  { intros s bm a s' Hs E. apply call__inv in E as (x & Ec & ->). exists bm.
    eapply sinv_set_be; [done| |done|apply Hs]. by eapply sbe_SetName, Ec; apply Hs. }
  intros _. apply holds_bind.
  { destruct (negb _); [|apply holds_ret]. intros s bm a s' Hs E. mbind_inv E.
    destruct (getBlockById_ok _ _ _ _ _ _ Hs ltac:(done) H) as (Hs1 & He1 & Hl). mbind_inv E.
    destruct a0 as [l|]; [|done]. injection H0 as <- <-. mbind_inv E.
    destruct (addRefCount_ok _ l _ _ _ _ _ _ Hs1 ltac:(done) Hl H0) as [Hs2 _]. mbind_inv E.
    destruct (keeps_addStorageRefCount [] _ _ _ _ _ _ _ Hs2 ltac:(done) H1) as [Hs3 _]. mret_inv E. eauto. }
  intros got. apply holds_bind; [destruct (negb _); [apply holds_refer|apply holds_ret]|]. intros _.
  by apply (holds_keeps []), keeps_modify.
Qed.

Lemma holds_flushBlockNames order : holds (flushBlockNames be callback order).
Proof.
  unfold flushBlockNames. apply holds_bind; [apply (holds_keeps []), keeps_gets|]. intros ns.
  generalize (order _ (map_to_list ns)). intros l. generalize 0%Z.
  induction l as [|[k v] l IH]; intros ops; [apply holds_ret|]. cbn [flushBlockNames_loop].
  destruct (negb _); [|apply IH]. apply holds_bind; [apply holds_flushBlockName|]. intros _. apply IH.
Qed.

(** *** The whole flush *)

(** What is left to do for a set of blocks: the blocks below them, along the references. *)
Definition w_at (s : St) (l : positive) : nat := match heap s !! l with Some b => Datatypes.S (weight (Id b)) | None => 1 end.
Definition mu_of (D : gset positive) (s : St) : nat := sum_list_with (w_at s) (elements D).

Lemma mu_of_size D s : size D ≤ mu_of D s.
Proof.
  unfold mu_of, size, set_size. cbn. induction (elements D) as [|l ls IH]; [done|]. cbn.
  assert (1 ≤ w_at s l) by (unfold w_at; destruct (heap s !! l); lia). lia.
Qed.
Lemma sum_submseteq {A : Type} (f : A → nat) l k : l ⊆+ k → sum_list_with f l ≤ sum_list_with f k.
Proof. induction 1; cbn; lia. Qed.
Lemma sum_ext {A : Type} (f g : A → nat) l : (∀ x, x ∈ l → f x = g x) → sum_list_with f l = sum_list_with g l.
Proof. induction l as [|x l IH]; intros He; [done|]. cbn. rewrite He by (by left). rewrite IH; [done|]. intros y Hy. apply He. by right. Qed.

(** Flushing a block lowers what is left. *)
Lemma grown_lowers refs l D D' s s' bm' b :
  sinv None s' bm' → ids_kept s s' → (∀ l', l' ∈ D → is_Some (heap s !! l')) → heap s !! l = Some b → l ∈ D →
  light (Id b) refs → grown refs l D s' D' → mu_of D' s' < mu_of D s.
Proof.
  intros Hs' Hik HD Hb Hl Hli Hgr. pose (locs := omap (λ id, blocks s' !! id) refs).
  assert (elements D' ⊆+ elements (D ∖ {[l]}) ++ locs) as Hsub.
  { apply NoDup_submseteq; [apply NoDup_elements|]. intros l' Hl'%elem_of_elements. apply elem_of_app.
    destruct (Hgr l' Hl') as [[? ?]|(id & Hin & Hbl)]; [left; apply elem_of_elements; set_solver|right].
    apply list_elem_of_omap. eauto. }
  apply (sum_submseteq (w_at s')) in Hsub. rewrite sum_list_with_app in Hsub.
  assert (sum_list_with (w_at s') (elements (D ∖ {[l]})) = mu_of (D ∖ {[l]}) s) as E1.
  { apply sum_ext. intros l' Hl'%elem_of_elements. destruct (HD l') as [b1 Hb1]; [set_solver|].
    destruct (Hik l' b1 Hb1) as (b2 & Hb2 & E). unfold w_at. by rewrite Hb1, Hb2, E. }
  assert (sum_list_with (w_at s') locs ≤ sum_list_with (λ r, Datatypes.S (weight r)) refs) as E2.
  { unfold locs. clear -Hs'. induction refs as [|id refs IH]; [done|]. cbn. destruct (blocks s' !! id) as [l'|] eqn:E; [|lia].
    destruct (si_block _ _ _ Hs' _ _ E) as (b1 & Hb1 & Hid & _). cbn. unfold w_at at 1. rewrite Hb1, Hid. lia. }
  assert (mu_of D s = w_at s l + mu_of (D ∖ {[l]}) s) as E3.
  { unfold mu_of. assert (elements D ≡ₚ l :: elements (D ∖ {[l]})) as Hp.
    { rewrite <- elements_union_singleton by set_solver. by rewrite <- union_difference_singleton_L. }
    change (sum_list_with (w_at s) (elements D) = sum_list_with (w_at s) (l :: elements (D ∖ {[l]}))).
    apply Nat.le_antisymm; apply sum_submseteq; by rewrite Hp. }
  unfold light in Hli. unfold mu_of at 1. rewrite E1 in Hsub. rewrite E3. unfold w_at at 2. rewrite Hb. lia.
Qed.

(** Computations that never run out of fuel. *)
Definition returns {A : Type} (m : M S A) : Prop := ∀ s, m s ≠ NoFuel.
Lemma returns_bind {A B : Type} (m : M S A) (k : A → M S B) : returns m → (∀ a, returns (k a)) → returns (m ≫= k).
Proof. intros Hm Hk s. unfold mbind, M_bind. specialize (Hm s). destruct (m s) as [[a s1]| |]; [apply Hk|done..]. Qed.
Lemma returns_ret {A : Type} (a : A) : returns (mret a : M S A).
Proof. done. Qed.
Lemma returns_panic {A : Type} msg : returns (panic msg : M S A).
Proof. done. Qed.
Lemma returns_gets {A : Type} (f : St → A) : returns (gets f).
Proof. done. Qed.
Lemma returns_modify (f : St → St) : returns (modify f).
Proof. done. Qed.
Lemma returns_alloc b : returns (alloc (S := S) b).
Proof. done. Qed.
Lemma returns_load l : returns (load (S := S) l).
Proof. intros s. unfold load. by destruct (heap s !! l). Qed.
Lemma returns_nonnil p : returns (nonnil (S := S) p).
Proof. by destruct p. Qed.
Lemma returns_call {A : Type} (f : S → res (A * S)) : (∀ x, f x ≠ NoFuel) → returns (call f).
Proof. intros Hf s. unfold call. specialize (Hf (s_be s)). by destruct (f (s_be s)) as [[]| |]. Qed.
Lemma returns_call_ (f : S → res S) : (∀ x, f x ≠ NoFuel) → returns (call_ f).
Proof. intros Hf s. unfold call_. specialize (Hf (s_be s)). by destruct (f (s_be s)). Qed.
Lemma returns_iterate {A : Type} (cb : A → M S unit) l : (∀ x, returns (cb x)) → returns (iterate cb l).
Proof. intros Hcb. induction l as [|x l IH]; [done|]. by apply returns_bind. Qed.
Create HintDb returns.
#[local] Hint Resolve returns_ret returns_panic returns_gets returns_modify returns_alloc returns_load returns_nonnil : returns.
(** Walks through a computation. *)
Ltac returns_tac :=
  repeat first
    [ progress (auto with returns nocore)
    | apply returns_bind; [|intros ?]
    | apply returns_iterate; intros ?
    | match goal with |- returns (match ?x with _ => _ end) => destruct x end ].

Lemma returns_upd l f : returns (upd (S := S) l f).
Proof. unfold upd. returns_tac. Qed.
Lemma returns_count i n : returns (count (S := S) i n).
Proof. unfold count. returns_tac. Qed.
#[local] Hint Resolve returns_upd returns_count : returns.
Lemma returns_GetData l : returns (GetData be l).
Proof. unfold GetData. returns_tac. apply returns_call. intros x. apply (sbe_returns (be := be) x). Qed.
Lemma returns_getBlockById id : returns (getBlockById be id).
Proof. unfold getBlockById. returns_tac. apply returns_call. intros x. apply (sbe_returns (be := be) x). Qed.
Lemma returns_addStorageRefCount l v : returns (addStorageRefCount (S := S) l v).
Proof. unfold addStorageRefCount. returns_tac. Qed.
#[local] Hint Resolve returns_GetData returns_getBlockById returns_addStorageRefCount : returns.
Lemma returns_references l : returns (references be callback l).
Proof. unfold references. destruct callback; returns_tac. Qed.
Lemma returns_markDirty l : returns (markDirty (S := S) l).
Proof. unfold markDirty. returns_tac. Qed.
#[local] Hint Resolve returns_references returns_markDirty : returns.
Lemma returns_updateDependencies_with ar l add storage :
  (∀ p v, returns (ar p v)) → returns (updateDependencies_with be callback ar l add storage).
Proof. intros Har. unfold updateDependencies_with, setDependencies_with. returns_tac. Qed.
Lemma returns_shouldHaveStorageDependencies l v : returns (shouldHaveStorageDependencies be callback l v).
Proof. by apply returns_updateDependencies_with. Qed.
#[local] Hint Resolve returns_shouldHaveStorageDependencies : returns.
Lemma returns_addRefCount l v : returns (addRefCount be callback l v).
Proof. unfold addRefCount. returns_tac. Qed.
Lemma returns_shouldHaveDiskDependencies l v : returns (shouldHaveDiskDependencies be callback l v).
Proof. apply returns_updateDependencies_with, returns_addRefCount. Qed.
#[local] Hint Resolve returns_addRefCount returns_shouldHaveDiskDependencies : returns.
Lemma returns_Block_flush l : returns (Block_flush be callback l).
Proof. unfold Block_flush. returns_tac; first [apply returns_call|apply returns_call_]; intros x; apply (sbe_returns (be := be) x). Qed.
Lemma returns_flushStorageRef l : returns (flushStorageRef be callback l).
Proof. unfold flushStorageRef. returns_tac. Qed.
#[local] Hint Resolve returns_Block_flush returns_flushStorageRef : returns.
Lemma returns_flushBlockNames order : returns (flushBlockNames be callback order).
Proof.
  unfold flushBlockNames. apply returns_bind; [done|]. intros ns. generalize (order _ (map_to_list ns)). intros l. generalize 0%Z.
  induction l as [|[k v] l IH]; intros ops; [done|]. cbn [flushBlockNames_loop]. destruct (negb _); [|done].
  apply returns_bind; [|done]. unfold flushBlockName. returns_tac. apply returns_call_. intros x. apply (sbe_returns (be := be) x).
Qed.

(** Both loops have this shape: [unused] says which blocks are left to the second pass, [f] flushes one. *)
Section turns.
Context (pick : St → gset positive → gset positive → option positive) (get : St → gset positive) (I : St → Prop).
Context (unused : Block → bool) (f : positive → M S Z).
Definition first_turn (p : positive) : M S visit :=
  b ← load p; if negb (unused b) then n ← f p; mret (Flushed n) else mret Skipped.
Definition second_turn (p : positive) : M S visit :=
  b ← load p; if negb (unused b) then mret Left else n ← f p; mret (Flushed n).
Hypothesis f_returns : ∀ p, returns (f p).
Hypothesis f_lowers : ∀ s p n s', I s → p ∈ get s → f p s = Ok (n, s') → I s' ∧ mu_of (get s') s' < mu_of (get s) s.

Lemma turns_ok fuel ops s :
  I s →
  (loop_fuel (mu_of (get s) s) ≤ fuel → flush_loop pick get first_turn second_turn fuel ops s ≠ NoFuel) ∧
  ∀ ops' s', flush_loop pick get first_turn second_turn fuel ops s = Ok (ops', s') → I s' ∧ get s' = ∅.
Proof.
  intros Hi. assert (∀ p, returns (first_turn p) ∧ returns (second_turn p)) as Hret.
  { intros p. unfold first_turn, second_turn. split; returns_tac; apply f_returns. }
  apply (flush_loop_ok pick get I (λ s, mu_of (get s) s)); [intros; apply mu_of_size| | | | |done].
  - intros s1 p Hi1 Hp. split; [apply Hret|]. intros r s2 E. unfold first_turn in E. mbind_inv E.
    unfold load in H. destruct (heap s1 !! p) as [b|]; [|done]. injection H as <- <-.
    destruct (negb _); [|by mret_inv E]. mbind_inv E. mret_inv E. by eapply f_lowers.
  - intros s1 p Hi1 Hp. split; [apply Hret|]. intros r s2 E. unfold second_turn in E. mbind_inv E.
    unfold load in H. destruct (heap s1 !! p) as [b|]; [|done]. injection H as <- <-.
    destruct (negb _); [by mret_inv E|]. mbind_inv E. mret_inv E. by eapply f_lowers.
  - intros s1 p E. unfold first_turn in E. mbind_inv E. destruct (negb _); [mbind_inv E|]; discriminate E.
  - intros s1 p. unfold first_turn, second_turn, mbind, M_bind, load. destruct (heap s1 !! p) as [b|]; [|done].
    destruct (negb _); destruct (f p s1) as [[]| |]; done.
Qed.
End turns.

(** The first loop: nothing is dirty afterwards. *)
Definition Idirty (s : St) : Prop := ∃ bm, sinv None s bm.
Lemma Block_flush_lowers s p n s' :
  Idirty s → p ∈ dirtyBlocks s → Block_flush be callback p s = Ok (n, s') →
  Idirty s' ∧ mu_of (dirtyBlocks s') s' < mu_of (dirtyBlocks s) s.
Proof.
  intros [bm Hs] Hp E. destruct (Block_flush_ok _ _ _ _ _ Hs Hp E) as (bm' & Hs' & Hik & b & refs & Hb & Hli & Hgr). split; [by exists bm'|].
  eapply grown_lowers; [done..| |done|done|done|done]. intros l' Hl'. destruct (si_dirty _ _ _ Hs l' Hl') as (b' & ? & _). eauto.
Qed.
Lemma flush_dirty_ok pick fuel ops s :
  Idirty s →
  (loop_fuel (mu_of (dirtyBlocks s) s) ≤ fuel → flush_dirty be callback pick fuel ops s ≠ NoFuel) ∧
  ∀ ops' s', flush_dirty be callback pick fuel ops s = Ok (ops', s') → Idirty s' ∧ dirtyBlocks s' = ∅.
Proof.
  exact (turns_ok pick dirtyBlocks Idirty (λ b, RefCount (Meta b) =? 0)%Z (Block_flush be callback) returns_Block_flush Block_flush_lowers fuel ops s).
Qed.

(** The second one: unused blocks leave the memory. *)
Definition Iclean (bm : blockmap) (s : St) : Prop := sinv None s bm ∧ dirtyBlocks s = ∅.
Lemma flushStorageRef_lowers bm s p n s' :
  Iclean bm s → p ∈ dirtyStorageRefBlocks s → flushStorageRef be callback p s = Ok (n, s') →
  Iclean bm s' ∧ mu_of (dirtyStorageRefBlocks s') s' < mu_of (dirtyStorageRefBlocks s) s.
Proof.
  intros [Hs HD] Hp E. destruct (flushStorageRef_ok _ _ _ _ _ Hs HD E) as (Hs' & HD' & Hik & b & refs & Hb & Hli & Hgr). split; [done|].
  eapply grown_lowers; [done..| |done|done|done|done]. apply (si_ref _ _ _ Hs).
Qed.
Lemma flush_refs_ok pick fuel ops bm s :
  Iclean bm s →
  (loop_fuel (mu_of (dirtyStorageRefBlocks s) s) ≤ fuel → flush_refs be callback pick fuel ops s ≠ NoFuel) ∧
  ∀ ops' s', flush_refs be callback pick fuel ops s = Ok (ops', s') → Iclean bm s' ∧ dirtyStorageRefBlocks s' = ∅.
Proof.
  exact (turns_ok pick dirtyStorageRefBlocks (Iclean bm) (λ b, storageRefCount b =? 0)%Z (flushStorageRef be callback)
    returns_flushStorageRef (flushStorageRef_lowers bm) fuel ops s).
Qed.

(** [flush], its loops apart. *)
Lemma flush_unfold order pick fuel s :
  flush be callback order pick fuel s =
  match flushBlockNames be callback order (set_counters (repeat 0%Z NUM_C) s) with
  | Ok (ops1, s1) =>
      match flush_dirty be callback pick fuel ops1 s1 with
      | Ok (ops2, s2) =>
          match flush_refs be callback pick fuel ops2 s2 with
          | Ok (ops3, s3) =>
              (_ ← (if (0 <? ops3)%Z || (0 <? default 0 (counters s !! C_WRITE))%Z || (0 <? default 0 (counters s !! C_DELETE))%Z
                    then call_ (be_Flush be) else mret tt);
               mret ops3) s3
          | Panic msg => Panic msg
          | NoFuel => NoFuel
          end
      | Panic msg => Panic msg
      | NoFuel => NoFuel
      end
  | Panic msg => Panic msg
  | NoFuel => NoFuel
  end.
Proof. reflexivity. Qed.
Lemma returns_flush_end ops (c : list Z) :
  returns (_ ← (if (0 <? ops)%Z || (0 <? default 0 (c !! C_WRITE))%Z || (0 <? default 0 (c !! C_DELETE))%Z
                then call_ (be_Flush be) else mret tt); mret ops).
Proof. returns_tac. apply returns_call_. intros x. apply (sbe_returns (be := be) x). Qed.

Lemma flush_ok order pick fuel s bm a s' :
  sinv None s bm → flush be callback order pick fuel s = Ok (a, s') →
  ∃ bm', sinv None s' bm' ∧ dirtyBlocks s' = ∅ ∧ dirtyStorageRefBlocks s' = ∅.
Proof.
  intros Hs E. unfold flush in E. mbind_inv E. injection H as <- <-. mbind_inv E. injection H as <- <-.
  mbind_inv E. assert (sinv None (set_counters (repeat 0%Z NUM_C) s) bm) as Hs0 by (destruct Hs; by split).
  destruct (holds_flushBlockNames _ _ _ _ _ Hs0 H) as [bm1 Hs1]. mbind_inv E.
  destruct (flush_dirty_ok pick fuel a0 s0) as [_ Hd]; [by exists bm1|]. destruct (Hd _ _ H0) as [[bm2 Hs2] HD2]. mbind_inv E.
  destruct (flush_refs_ok pick fuel a1 bm2 s1) as [_ Hf]; [done|]. destruct (Hf _ _ H1) as [[Hs3 HD3] HR3]. mbind_inv E. injection E as <- <-.
  exists bm2. destruct (_ || _ || _).
  - apply call__inv in H2 as (x & Ec & ->). split_and!; [|done..]. eapply sinv_set_be; [done| |done|apply Hs3].
    by eapply sbe_Flush, Ec; apply Hs3.
  - mret_inv H2. by split_and!.
Qed.

(** With enough fuel, a flush returns or panics, and more fuel changes nothing. *)
Lemma flush_enough order pick s bm :
  sinv None s bm → ∃ N r, r ≠ NoFuel ∧ ∀ fuel, N ≤ fuel → flush be callback order pick fuel s = r.
Proof.
  intros Hs. assert (sinv None (set_counters (repeat 0%Z NUM_C) s) bm) as Hs0 by (destruct Hs; by split).
  destruct (flushBlockNames be callback order (set_counters (repeat 0%Z NUM_C) s)) as [[ops1 s1]|msg|] eqn:E1.
  3:{ by destruct (returns_flushBlockNames order _ E1). }
  2:{ exists 0, (Panic msg). split; [done|]. intros fuel _. by rewrite flush_unfold, E1. }
  destruct (holds_flushBlockNames _ _ _ _ _ Hs0 E1) as [bm1 Hs1]. set (N1 := loop_fuel (mu_of (dirtyBlocks s1) s1)).
  destruct (flush_dirty_ok pick N1 ops1 s1) as [Hn1 Hd]; [by exists bm1|]. specialize (Hn1 (le_n _)).
  assert (∀ fuel, N1 ≤ fuel → flush_dirty be callback pick fuel ops1 s1 = flush_dirty be callback pick N1 ops1 s1) as Hm1.
  { intros fuel Hle. by apply flush_loop_mono. }
  destruct (flush_dirty be callback pick N1 ops1 s1) as [[ops2 s2]|msg|] eqn:E2; [|exists N1, (Panic msg)|done].
  2:{ split; [done|]. intros fuel Hle. by rewrite flush_unfold, E1, Hm1. }
  destruct (Hd _ _ eq_refl) as [[bm2 Hs2] HD2]. set (N2 := loop_fuel (mu_of (dirtyStorageRefBlocks s2) s2)).
  destruct (flush_refs_ok pick N2 ops2 bm2 s2) as [Hn2 _]; [done|]. specialize (Hn2 (le_n _)).
  assert (∀ fuel, N2 ≤ fuel → flush_refs be callback pick fuel ops2 s2 = flush_refs be callback pick N2 ops2 s2) as Hm2.
  { intros fuel Hle. by apply flush_loop_mono. }
  exists (N1 + N2), (flush be callback order pick (N1 + N2) s). split; [|intros fuel Hle]; rewrite !flush_unfold, E1, !Hm1, !Hm2 by lia; [|by rewrite (Hm2 (N1 + N2)) by lia].
  destruct (flush_refs be callback pick N2 ops2 s2) as [[ops3 s3]| |]; [apply returns_flush_end|done|done].
Qed.

(** *** Jobs *)

Lemma keeps_sb_load ids sb : keeps ids (sb_load (S := S) sb).
Proof. intros X s bm a s' Hs HX. unfold sb_load. destruct (sbs s !! sb); [|done]. intros [= <- <-]. split; [done|apply ev_refl]. Qed.
Lemma keeps_nonnil ids p : keeps ids (nonnil (S := S) p).
Proof. destruct p; [apply keeps_ret|apply keeps_panic]. Qed.
Lemma keeps_future_Get ids sb : keeps ids (future_Get (S := S) sb).
Proof. unfold future_Get. destruct (sb_block sb); [apply keeps_ret|apply keeps_panic]. Qed.

Lemma keeps_setBlock ids sb b : keeps ids (setBlock (S := S) sb b).
Proof.
  unfold setBlock. apply keeps_bind.
  { destruct b as [l|]; [|apply keeps_ret]. apply keeps_bind; [apply keeps_addExternalStorageRefCount|].
    intros nv. destruct (nv =? 1)%Z; [apply keeps_addStorageRefCount|apply keeps_ret]. }
  intros _. apply keeps_bind; [apply keeps_sb_load|]. intros x. by apply keeps_modify.
Qed.

(** A client stores a block under an id that is not known; the id is the one of the data, and the dependencies it
    passes lead down, too. *)
Definition unknown_id (id : string) (s : St) : Prop :=
  blocks s !! id = None ∧ ∃ x, be_GetBlockById be id (s_be s) = Ok (None, x).
Definition content_ok (id : string) (j : jobIn) : Prop := belongs id (j_data j) ∧ ∀ l, j_deps j = Some l → light id l.

Definition job_ok (s : St) (j : jobIn) : Prop :=
  ∀ sbp sb, j_sb j = Some sbp → sbs s !! sbp = Some sb →
    match j_type j with
    | jobStoreBlock => unknown_id (sb_id sb) s ∧ content_ok (sb_id sb) j
    | jobReferOrStoreBlock => content_ok (sb_id sb) j
    | jobSetStorageBlockStatus =>
        ∀ l, sb_block sb = Some (Some l) → ∃ b, heap s !! l = Some b ∧ blocks s !! Id b = Some l
    | _ => True
    end.

Lemma store_new_ok job sb id s bm a s' :
  sinv None s bm → blocks s !! id = None → bm !! id = None → content_ok id job →
  store_new be callback job sb id s = Ok (a, s') → sinv None s' bm.
Proof.
  intros Hs Hbl Hbm [Hbel Hds] E. unfold store_new in E. mbind_inv E. injection H as <- <-. mbind_inv E. injection H as <- <-.
  mbind_inv E. apply upd_inv in H as (b & Hb & ->). cbn in Hb. rewrite lookup_insert_eq in Hb. injection Hb as <-.
  set (nb := with_Meta _ _) in *.
  destruct (sinv_alloc None s bm id nb Hs Hbl eq_refl) as (Hs1 & He1 & _).
  { rewrite Hbm. split_and!; [|split; [|by intros []]|done].
    - split; [done|]. eauto.
    - intros HD. destruct (si_dirty _ _ _ Hs _ HD) as (b1 & Hb1 & _). apply (si_next _ _ _ Hs) in Hb1. lia. }
  { intros ds. apply Hds. }
  { by intros d [= <-]. }
  assert (sinv None (set_heap (<[next s := nb]> (heap (set_blocks (<[id := next s]> (blocks s))
    (set_next (Pos.succ (next s)) (set_heap (<[next s := with_Data (Some (j_data job)) (with_deps (j_deps job) (new_Block id))]> (heap s)) s)))))
    (set_blocks (<[id := next s]> (blocks s)) (set_next (Pos.succ (next s))
      (set_heap (<[next s := with_Data (Some (j_data job)) (with_deps (j_deps job) (new_Block id))]> (heap s)) s)))) bm) as Hs2.
  { cbn. rewrite insert_insert_eq. exact Hs1. }
  mbind_inv E. destruct (addRefCount_ok id (next s) _ _ _ _ _ _ Hs2 ltac:(done) ltac:(cbn; by rewrite lookup_insert_eq) H) as [Hs3 _].
  by destruct (keeps_setBlock [] _ _ _ _ _ _ _ Hs3 ltac:(done) E) as [Hs4 _].
Qed.

Lemma keeps_collect refs ids : keeps [] (collect be refs ids).
Proof.
  revert refs. induction ids as [|id ids IH]; intros refs; [apply keeps_ret|]. cbn [collect].
  intros X s bm a s' Hs HX E. mbind_inv E. destruct (getBlockById_ok _ _ _ _ _ _ Hs HX H) as (Hs1 & He1 & _).
  destruct a0 as [b|].
  - destruct (IH _ _ _ _ _ _ Hs1 (X_ok_ev _ _ _ _ HX He1) E) as [? He2]. split; [done|]. by eapply ev_trans.
  - mret_inv E. done.
Qed.

(** The block of [setStatus] stays dirty while its dependencies change. *)
Definition dirty_at (s : St) (l : positive) (id : string) : Prop :=
  blocks s !! id = Some l ∧ ∃ b, heap s !! l = Some b ∧ Id b = id ∧ is_Some (Stored b).

Lemma dirty_at_ev s s' l id ids : dirty_at s l id → ev ids s s' → id ∉ ids → dirty_at s' l id.
Proof.
  intros (Hbl & b & Hb & Hi & Hst) (Bk & _ & _ & Hh) Hni. destruct (Hh l b Hb) as (b' & Hb' & Hi' & _ & Hm).
  split; [by eapply lookup_weaken|]. exists b'. subst id. destruct (Hm Hni) as [_ ->]. by split_and!.
Qed.

Lemma setDependencies_dirty l id add storage st s bm a s' :
  sinv None s bm → dirty_at s l id → setDependencies be callback l add storage st s = Ok (a, s') →
  sinv None s' bm ∧ dirty_at s' l id.
Proof.
  intros Hs Hd E. unfold setDependencies in E.
  destruct (setDependencies_with_ok _ _ _ _ _ _ _ _ _ _ (λ _ id' l' v', addRefCount_ok id' l' v') Hs ltac:(done) E)
    as (Hs1 & ids & He & _ & Hni). split; [done|]. eapply dirty_at_ev; [done..|].
  destruct Hd as (_ & b & Hb & <- & _). by apply light_not_in, Hni.
Qed.
Lemma shouldHaveDisk_dirty l id v s bm a s' :
  sinv None s bm → dirty_at s l id → shouldHaveDiskDependencies be callback l v s = Ok (a, s') →
  sinv None s' bm ∧ dirty_at s' l id.
Proof.
  intros Hs Hd E. destruct (shouldHaveDiskDependencies_ok _ _ _ _ _ _ _ Hs ltac:(done) E) as (Hs1 & ids & He & Hni).
  split; [done|]. eapply dirty_at_ev; [done..|]. destruct Hd as (_ & b & Hb & <- & _). by apply light_not_in, Hni.
Qed.
Lemma keeps_dirty {A : Type} (m : M S A) l id s bm a s' :
  keeps [] m → sinv None s bm → dirty_at s l id → m s = Ok (a, s') → sinv None s' bm ∧ dirty_at s' l id.
Proof.
  intros Hm Hs Hd E. destruct (Hm _ _ _ _ _ Hs ltac:(done) E) as [Hs1 He]. split; [done|].
  eapply dirty_at_ev; [done..|]. apply not_elem_of_nil.
Qed.

Lemma setStatus_ok l st s bm a s' :
  sinv None s bm → (∃ b, heap s !! l = Some b ∧ blocks s !! Id b = Some l) →
  setStatus be callback l st s = Ok (a, s') → sinv None s' bm.
Proof.
  intros Hs (b & Hb & Hbl) E. unfold setStatus in E. mbind_inv E. unfold load in H. rewrite Hb in H. injection H as <- <-.
  destruct (_ =? st)%Z; [by mret_inv E|]. mbind_inv E. destruct a0 as [refs possible].
  assert (sinv None s0 bm ∧ ev [] s s0) as [Hs1 He1].
  { destruct (negb _ && _).
    - mbind_inv H. destruct (references_ok _ _ _ _ _ _ Hs H0) as (Hs1 & He1 & _).
      destruct (keeps_collect _ _ _ _ _ _ _ Hs1 ltac:(done) H) as [Hs2 He2]. split; [done|by eapply ev_trans].
    - injection H as <- <- <-. split; [done|apply ev_refl]. }
  assert (keeps [] (iterate (λ r, addStorageRefCount (S := S) r 0) refs)) as Hclean.
  { apply keeps_iterate. intros r. apply keeps_addStorageRefCount. }
  destruct (negb possible).
  { mbind_inv E. mret_inv E. by destruct (Hclean _ _ _ _ _ Hs1 ltac:(done) H0) as [? _]. }
  assert (blocks s0 !! Id b = Some l) as Hbl1 by (eapply lookup_weaken; [done|apply He1]).
  mbind_inv E. destruct (markDirty_ok _ _ _ _ _ _ _ Hs1 ltac:(done) Hbl1 H0) as (Hs2 & He2 & b2 & Hb2 & Hst2).
  assert (dirty_at s1 l (Id b)) as Hd2.
  { split; [eapply lookup_weaken; [done|apply He2]|]. exists b2. split_and!; [done| |done].
    destruct (si_block _ _ _ Hs2 (Id b) l) as (b3 & Hb3 & Hi3 & _); [eapply lookup_weaken; [done|apply He2]|congruence]. }
  mbind_inv E. assert (sinv None s2 bm ∧ dirty_at s2 l (Id b)) as [Hs3 Hd3].
  { destruct (negb _); [|by mret_inv H1]. mbind_inv H1. unfold load in H2. rewrite Hb2 in H2. injection H2 as <- <-.
    mbind_inv H1. destruct (Stored b2) as [stored|]; [|done]. injection H2 as <- <-. mbind_inv H1. destruct a2 as [disk storage].
    assert (sinv None s3 bm ∧ dirty_at s3 l (Id b)) as [Hs3 Hd3].
    { destruct (0 <? _)%Z; [|destruct (0 <? _)%Z]; [mbind_inv H2; injection H2 as <- <- <-; by eapply setDependencies_dirty..|by injection H2 as <- <- <-]. }
    mbind_inv H1. destruct (keeps_dirty _ _ _ _ _ _ _ (keeps_shouldHaveStorageDependencies [] _ _) Hs3 Hd3 H3) as [Hs4 Hd4].
    mbind_inv H1. destruct (shouldHaveDisk_dirty _ _ _ _ _ _ _ Hs4 Hd4 H4) as [Hs5 Hd5].
    mbind_inv H1. destruct (keeps_dirty _ _ _ _ _ _ _ (keeps_upd [] l (with_haveDiskRefs disk) ltac:(done)) Hs5 Hd5 H5) as [Hs6 Hd6].
    exact (keeps_dirty _ _ _ _ _ _ _ (keeps_upd [] l (with_haveStorageRefs storage) ltac:(done)) Hs6 Hd6 H1). }
  mbind_inv E. destruct Hd3 as (Hbl3 & b3 & Hb3 & Hi3 & Hst3).
  destruct (upd_Meta_ok _ _ _ _ _ _ _ _ Hs3 Hbl3 ltac:(eauto) H2) as [Hs4 _]. mbind_inv E. mret_inv E.
  by destruct (Hclean _ _ _ _ _ Hs4 ltac:(done) H3) as [? _].
Qed.

Lemma run_job_ok order pick fuel j s bm a s' :
  sinv None s bm → job_ok s j → run_job be callback order pick fuel j s = Ok (a, s') → ∃ bm', sinv None s' bm'.
Proof.
  intros Hs Hj E. unfold run_job in E. unfold job_ok in Hj.
  assert (∀ sbp sb s1, j_sb j = Some sbp → sb_load sbp s = Ok (sb, s1) → s1 = s ∧ sbs s !! sbp = Some sb) as Hload.
  { intros sbp sb s1 _. unfold sb_load. destruct (sbs s !! sbp); [|done]. by intros [= <- <-]. }
  destruct (j_type j) eqn:Ety.
  - mbind_inv E. mret_inv E. destruct (flush_ok _ _ _ _ _ _ _ Hs H) as (bm' & ? & _). eauto.
  - apply (holds_keeps [] _ (keeps_bind _ _ _ (keeps_nonnil _ _) (λ l, keeps_bind _ _ _ (keeps_sb_load _ _) (λ sb,
      keeps_bind [] _ _ (λ X s bm a s' Hs HX E, let '(conj H1 (conj H2 _)) := getBlockById_ok _ X s bm a s' Hs HX E in conj H1 H2)
      (λ ob, keeps_bind _ _ _ (keeps_setBlock _ _ _) (λ _, keeps_ret _ _))))) _ _ _ _ Hs E).
  - mbind_inv E. mret_inv E. destruct (keeps_getName _ _ _ _ _ _ Hs ltac:(done) H). eauto.
  - mbind_inv E. mret_inv E. destruct (keeps_setNameToBlockId _ _ _ _ _ _ _ Hs ltac:(done) H). eauto.
  - mbind_inv E. destruct (j_sb j) as [sbp|] eqn:Esb; [|done]. injection H as <- <-. mbind_inv E.
    destruct (Hload _ _ _ eq_refl H) as [-> Hsb]. mbind_inv E. unfold future_Get in H0.
    destruct (sb_block a0) as [ob|] eqn:Eob; [|done]. injection H0 as <- <-. mbind_inv E.
    destruct ob as [l|]; [|done]. injection H0 as <- <-. mbind_inv E. mret_inv E. exists bm.
    eapply setStatus_ok; [done| |done]. by eapply Hj.
  - mbind_inv E. destruct (j_sb j) as [sbp|] eqn:Esb; [|done]. injection H as <- <-. mbind_inv E.
    destruct (Hload _ _ _ eq_refl H) as [-> Hsb]. mbind_inv E.
    destruct (getBlockById_ok _ _ _ _ _ _ Hs ltac:(done) H0) as (Hs1 & He1 & Hob). destruct a1 as [l|].
    + mbind_inv E. destruct (addRefCount_ok _ l _ _ _ _ _ _ Hs1 ltac:(done) Hob H1) as [Hs2 _]. mbind_inv E. mret_inv E.
      destruct (keeps_setBlock [] _ _ _ _ _ _ _ Hs2 ltac:(done) H2). eauto.
    + mbind_inv E. mret_inv E. destruct Hob as [Hbl Hbm]. exists bm. eapply store_new_ok; [done..| |done]. by eapply Hj.
  - mbind_inv E. destruct (getBlockById_ok _ _ _ _ _ _ Hs ltac:(done) H) as (Hs1 & He1 & Hob). destruct a0 as [l|]; [|done].
    mbind_inv E. mret_inv E. destruct (addRefCount_ok _ l _ _ _ _ _ _ Hs1 ltac:(done) Hob H0) as [Hs2 _]. eauto.
  - mbind_inv E. destruct (getBlockById_ok _ _ _ _ _ _ Hs ltac:(done) H) as (Hs1 & He1 & Hob). destruct a0 as [l|]; [|done].
    mbind_inv E. mret_inv E. destruct (keeps_addStorageRefCount [] _ _ _ _ _ _ _ Hs1 ltac:(done) H0). eauto.
  - mbind_inv E. destruct (j_sb j) as [sbp|] eqn:Esb; [|done]. injection H as <- <-. mbind_inv E.
    destruct (Hload _ _ _ eq_refl H) as [-> Hsb]. mbind_inv E. mret_inv E.
    destruct (Hj _ _ eq_refl Hsb) as [[Hbl [x Hx]] Hds]. exists bm.
    destruct (bs_GetBlockById (sb_id a0) (s_be s) bm (si_be _ _ _ Hs)) as (ob & x' & Ex & _ & Hob).
    rewrite Hx in Ex. injection Ex as <- <-. destruct (bm !! sb_id a0) as [[??]|] eqn:Ebm; [done|].
    eapply store_new_ok; [done..| |done]. done.
  - mret_inv E. eauto.
Qed.

(** ** Reachable states *)

(** Clients and the goroutine take turns: a client sends a job, opens or closes a StorageBlock; the
    goroutine works on the next job, in any order of iteration. *)
Inductive step : St → St → Prop :=
| step_send j s s' : enqueue j s = Ok (tt, s') → step s s'
| step_new id l s s' : newStorageBlock id s = Ok (l, s') → step s s'
| step_open sb l s s' : SB_Open sb s = Ok (l, s') → step s s'
| step_close sb s s' : SB_Close sb s = Ok (tt, s') → step s s'
| step_data sb d s s' : SB_Data be sb s = Ok (d, s') → step s s'
| step_work order pick fuel out s s' :
    (∀ j js, jobChannel s = j :: js → job_ok (set_jobs js s) j) →
    work be callback order pick fuel s = Ok (out, s') → step s s'.

Lemma step_sinv s s' bm : sinv None s bm → step s s' → ∃ bm', sinv None s' bm'.
Proof.
  intros Hs Hst.
  destruct Hst as [j s s' E|id l s s' E|sb l s s' E|sb s s' E|sb d s s' E|order pick fuel out s s' Hj E].
  - exists bm. injection E as <-. destruct Hs. by split.
  - injection E as <- <-. exists bm. destruct Hs. by split.
  - exists bm. unfold SB_Open in E. mbind_inv E. destruct (keeps_sb_load [] _ _ _ _ _ _ Hs ltac:(done) H) as [Hs1 _].
    destruct (closed a); [done|]. mbind_inv E. destruct (keeps_future_Get [] _ _ _ _ _ _ Hs1 ltac:(done) H0) as [Hs2 _].
    mbind_inv E. destruct (keeps_nonnil [] _ _ _ _ _ _ Hs2 ltac:(done) H1) as [Hs3 _]. mbind_inv E.
    destruct (keeps_addExternalStorageRefCount [] _ _ _ _ _ _ _ Hs3 ltac:(done) H2) as [Hs4 _].
    injection E as <- <-. destruct Hs4. by split.
  - exists bm. assert (keeps [] (SB_Close (S := S) sb)) as Hk; [|by eapply (Hk None s bm tt s')]. unfold SB_Close.
    apply keeps_bind; [apply keeps_sb_load|]. intros x. destruct (closed x); [apply keeps_panic|].
    apply keeps_bind; [by apply keeps_modify|]. intros _. apply keeps_bind; [apply keeps_future_Get|]. intros ob.
    apply keeps_bind; [apply keeps_nonnil|]. intros l. apply keeps_bind; [apply keeps_addExternalStorageRefCount|].
    intros nv. destruct (nv =? 0)%Z; [by apply keeps_modify|apply keeps_ret].
  - exists bm. unfold SB_Data in E. mbind_inv E. destruct (keeps_sb_load [] _ _ _ _ _ _ Hs ltac:(done) H) as [Hs1 _].
    destruct (closed a); [done|]. mbind_inv E. destruct (keeps_future_Get [] _ _ _ _ _ _ Hs1 ltac:(done) H0) as [Hs2 _].
    mbind_inv E. destruct (keeps_nonnil [] _ _ _ _ _ _ Hs2 ltac:(done) H1) as [Hs3 _].
    by destruct (GetData_ok _ _ _ _ _ _ Hs3 E) as [? _].
  - unfold work in E. mbind_inv E. injection H as <- <-. destruct (jobChannel s) as [|j js] eqn:Ej; [mret_inv E; eauto|].
    mbind_inv E. injection H as <- <-. mbind_inv E. mret_inv E.
    assert (sinv None (set_jobs js s) bm) as Hs1 by (destruct Hs; by split).
    eapply run_job_ok; [done| |done]. by apply Hj.
Qed.

Lemma sinv_init x bm : bs_rep x bm → (∀ id md d, bm !! id = Some (md, d) → belongs id d) → sinv None (Storage_Init x) bm.
Proof. intros Hx Hbm. split; cbn; done. Qed.

Lemma reachable_sinv x bm s :
  bs_rep x bm → (∀ id md d, bm !! id = Some (md, d) → belongs id d) → rtc step (Storage_Init x) s → ∃ bm', sinv None s bm'.
Proof.
  intros Hx Hbm Hr. remember (Storage_Init x) as s0 eqn:E0.
  assert (∃ bm0, sinv None s0 bm0) as Hs0 by (exists bm; subst; by apply sinv_init). clear E0.
  induction Hr as [|s1 s2 s3 H12 _ IH]; [done|]. destruct Hs0 as [bm0 Hs0]. apply IH. by eapply step_sinv.
Qed.

End inv.
