(* ===== verification/StorageProps.v ===== *)
(** * What a flush of the storage achieves

    From every state the storage can be in, a flush ends, and unless it panics it leaves the backend
    with exactly the metadata and data of the blocks in memory.  The storage is run on a backend of its own
    here, [Table], a map from ids to blocks whose [UpdateBlock] writes. *)
From stdpp Require Import base list sets strings sorting gmap.
From Stdlib Require Import ZArith Lia Ascii.
From S2P Require Import Prelude OrderedMap Util Codec Backend Storage StorageInv.

Section props.
Context {S : Type} (be : Backend S) `{!BlockStoreOk be} `{!BlockUpdateOk be} `{!StorageBackendOk be}.
Context (callback : option (string → string → list string)).
Context (belongs : string → string → Prop) (weight : string → nat).

(** A clean block: on the backend with its metadata and data, or nowhere on it and without
    references, its data in memory. *)
Definition clean_on (bm : blockmap) (id : string) (b : Block) : Prop :=
  Id b = id ∧ Stored b = None ∧
  if hasBackend b
  then ∃ d, bm !! id = Some (Meta b, d) ∧ (∀ d', Data b = Some d' → d' = d)
  else bm !! id = None ∧ RefCount (Meta b) = 0%Z ∧ is_Some (Data b).

Lemma sinv_clean_block s bm id l :
  sinv be belongs weight None s bm → dirtyBlocks s = ∅ → blocks s !! id = Some l →
  ∃ b, heap s !! l = Some b ∧ clean_on bm id b.
Proof.
  intros Hs HD Hbl. destruct (si_block _ _ _ _ _ _ Hs id l Hbl) as (b & Hb & Hid & Hdk & HDs & Hcl).
  exists b. split; [done|]. assert (Stored b = None) as HS.
  { destruct (Stored b) eqn:E; [|done]. exfalso. rewrite HD in HDs. set_solver. }
  split_and!; [done..|]. unfold disk_ok in Hdk. destruct (hasBackend b) eqn:Eb.
  - destruct Hdk as (d & Hd & Hdd). exists d. split; [|done]. unfold expect in Hd. by rewrite HS in Hd.
  - destruct Hdk as [Hn HD']. split_and!; [done| |done].
    destruct (decide (RefCount (Meta b) = 0%Z)) as [|Hne]; [done|]. by specialize (Hcl HS Hne).
Qed.

(** C4: after any interleaving of client calls and work of the storage goroutine, a flush ends: from some number on,
    all numbers of turns of its loops give the same outcome, which is a result or one of the panics of the code (a
    reference count below zero, a block that is missing).  If it is a result, no block is dirty, and the backend holds
    exactly what memory says: each block in memory that is marked as being on the backend is there with its current
    metadata and its data, and each other block has no references, is not on the backend and has its data in memory.
    This is so for every order in which Go may range over the maps, which grow and shrink meanwhile.  The block ids
    are content hashes: the references of blocks lead to ever fewer blocks. *)
Theorem flush_syncs x bm s order pick :
  (∀ f id d, callback = Some f → belongs id d → light weight id (f id d)) →
  bs_rep x bm → (∀ id md d, bm !! id = Some (md, d) → belongs id d) →
  rtc (step be callback belongs weight) (Storage_Init x) s →
  ∃ N r, r ≠ NoFuel ∧ (∀ fuel, N ≤ fuel → flush be callback order pick fuel s = r) ∧
    ∀ ops s', r = Ok (ops, s') →
      dirtyBlocks s' = ∅ ∧ dirtyStorageRefBlocks s' = ∅ ∧
      ∃ bm', bs_rep (s_be s') bm' ∧
        ∀ id l, blocks s' !! id = Some l → ∃ b, heap s' !! l = Some b ∧ clean_on bm' id b.
Proof.
  intros Hns Hx Hbm Hr. destruct (reachable_sinv be callback belongs weight Hns x bm s Hx Hbm Hr) as [bm1 Hs].
  destruct (flush_enough be callback belongs weight Hns order pick s bm1 Hs) as (N & r & Hnf & Hfu). exists N, r. split_and!; [done..|].
  intros ops s' E. rewrite <- (Hfu N) in E by lia.
  destruct (flush_ok be callback belongs weight Hns _ _ _ _ _ _ _ Hs E) as (bm' & Hs' & HD & HR). split_and!; [done..|].
  exists bm'. split; [apply Hs'|]. intros id l. by apply sinv_clean_block.
Qed.

End props.

(** ** A backend to run on *)
Module Table.

Definition t : Type := gmap string (BlockMetadata * string) * gmap string string.
Definition view (id : string) (x : BlockMetadata * string) : Block :=
  with_hasBackend true (with_Data (Some x.2) (with_Meta x.1 (new_Block id))).

Definition backend : Backend t :=
  mkBackend
    (mkBlockBackend
       (λ b s, match s.1 !! Id b with Some x => Ok (Some x.2, s) | None => Panic "GetBlockData" end)
       (λ id s, Ok (view id <$> s.1 !! id, s))
       (λ b s, Ok (delete (Id b) s.1, s.2))
       (λ b s, match Data b with Some d => Ok (<[Id b := (Meta b, d)]> s.1, s.2) | None => Panic "StoreBlock" end)
       (λ b s, match s.1 !! Id b with
               | Some x => Ok (1%Z, (<[Id b := (Meta b, x.2)]> s.1, s.2))
               | None => Panic "UpdateBlock" end))
    (λ s, Ok s)
    (λ n s, Ok (default "" (s.2 !! n), s)) (λ n i s, Ok (s.1, <[n := i]> s.2))
    (λ s, Ok (0%Z, s)) (λ s, Ok (0%Z, s)) false.

#[global] Program Instance table_store_ok : BlockStoreOk backend :=
  {| bs_rep := λ s m, s.1 = m; bs_accepts := λ _ _, True |}.
Next Obligation.
  intros id s m <-. exists (view id <$> s.1 !! id), s. split_and!; [done..|].
  destruct (s.1 !! id) as [[md d]|]; [|done]. cbn. split_and!; [done..| |done]. by intros d' [= <-].
Qed.
Next Obligation. intros b s m md d <- Hm. exists s. cbn. by rewrite Hm. Qed.
Next Obligation. intros b s m r s' <-. cbn. destruct (s.1 !! Id b); [|done]. by intros [= _ <-]. Qed.
Next Obligation. intros b s m d <- _ Hd _. cbn. rewrite Hd. eexists. by split. Qed.
Next Obligation. intros b s m x <- _. eexists. by split. Qed.

#[global] Program Instance table_update_ok : BlockUpdateOk backend.
Next Obligation.
  intros b s m md d Hr Hm. cbn in Hr. subst m. cbn. rewrite Hm. eexists. split; reflexivity.
Qed.

#[global] Instance table_storage_ok : StorageBackendOk backend.
Proof.
  split; [done| | |by intros n s m r s' <- [= _ <-]|by intros n i s m s' <- [= <-]|by intros s m s' <- [= <-]|].
  - intros id s b s'. cbn. destruct (s.1 !! id); [|done]. by intros [= <- _].
  - intros b s m r s' <-. cbn. by destruct (s.1 !! Id b).
  - intros s. cbn. split_and!; [|done..]. intros b. destruct (s.1 !! Id b), (Data b); done.
Qed.

(** Client calls and turns of the goroutine. *)
Inductive cmd : Type := CNew (id : string) | CSend (j : jobIn) | CClose (sb : positive) | CWork.

(** Block a refers to block b. *)
Definition belongs (id data : string) : Prop := True.
Definition weight (id : string) : nat := if keqb id "a" then 1 else 0.
Definition refs (id data : string) : list string := if keqb id "a" then ["b"] else [].
Definition perm (A : Type) (l : list A) : list A := l.
(** What was added last comes first. *)
Definition newest (s : Storage t) (todo new : gset positive) : option positive := head (reverse (elements (todo ∪ new))).
Definition ok_state {A : Type} (r : res (A * Storage t)) : option (Storage t) :=
  match r with Ok (_, s) => Some s | _ => None end.
(** The jobs of the runs below. *)
Definition plain (j : jobIn) : bool :=
  match j_type j, j_deps j with
  | (jobStoreBlock | jobSetStorageBlockStatus), _ | _, Some _ => false
  | _, None => true
  end.
Definition exec (c : cmd) (s : Storage t) : option (Storage t) :=
  match c with
  | CNew id => ok_state (newStorageBlock id s)
  | CSend j => ok_state (enqueue j s)
  | CClose sb => ok_state (SB_Close sb s)
  | CWork => if forallb plain (jobChannel s) then ok_state (work backend (Some refs) perm newest 20 s) else None
  end.
Fixpoint exec_all (cs : list cmd) (s : Storage t) : option (Storage t) :=
  match cs with [] => Some s | c :: cs' => exec c s ≫= exec_all cs' end.

Lemma plain_ok s j : plain j = true → job_ok backend belongs weight s j.
Proof. unfold plain, job_ok, content_ok. by destruct (j_type j), (j_deps j); intros ? sbp sb. Qed.

Lemma exec_step c s s' : exec c s = Some s' → step backend (Some refs) belongs weight s s'.
Proof.
  destruct c as [id|j|sb|]; cbn [exec].
  - intros [= <-]. by eapply step_new.
  - intros [= <-]. by eapply step_send.
  - destruct (SB_Close sb s) as [[[] s1]| |] eqn:E; [|done..]. intros [= <-]. by eapply step_close.
  - destruct (forallb _ _) eqn:Ef; [|done]. destruct (work _ _ _ _ _ s) as [[o s1]| |] eqn:E; [|done..].
    intros [= <-]. eapply step_work, E. intros j js Ej. rewrite Ej in Ef. cbn in Ef.
    apply plain_ok. by destruct (plain j).
Qed.

Lemma exec_all_steps cs s s' : exec_all cs s = Some s' → rtc (step backend (Some refs) belongs weight) s s'.
Proof.
  revert s. induction cs as [|c cs IH]; intros s; cbn [exec_all]; [by intros [= <-]|].
  destruct (exec c s) as [s1|] eqn:E; [|done]. intros H. eapply rtc_l; [by eapply exec_step|by apply IH].
Qed.

(** Block b is stored, block a, which refers to it, is stored and named, the handle on b is
    closed. *)
Definition script : list cmd :=
  [CNew "b"; CSend (mkJobIn jobReferOrStoreBlock (Some 1%positive) 0 "" "" "leaf" None BS_NORMAL);
   CNew "a"; CSend (mkJobIn jobReferOrStoreBlock (Some 2%positive) 0 "" "" "root" None BS_NORMAL);
   CSend (mkJobIn jobSetNameToBlockId None 0 "a" "name" "" None BS_UNSET);
   CWork; CWork; CWork; CClose 1%positive; CWork].

Definition s0 : Storage t := Storage_Init (∅, ∅).
Definition s1 : Storage t := default s0 (exec_all script s0).
Definition s2 : Storage t := default s0 (ok_state (flush backend (Some refs) perm newest 20 s1)).
End Table.

(** The run of [Table.script], flushed: block a stays in memory, clean and on the backend. *)
Lemma flush_syncs_witness :
  flush Table.backend (Some Table.refs) Table.perm Table.newest 20 Table.s1 = Ok (4%Z, Table.s2) ∧
  ∃ N r, r ≠ NoFuel ∧
    (∀ fuel, N ≤ fuel → flush Table.backend (Some Table.refs) Table.perm Table.newest fuel Table.s1 = r) ∧
    ∀ ops s', r = Ok (ops, s') →
      dirtyBlocks s' = ∅ ∧ dirtyStorageRefBlocks s' = ∅ ∧
      ∃ bm', bs_rep (be := be_blocks Table.backend) (s_be s') bm' ∧
        ∀ id l, blocks s' !! id = Some l → ∃ b, heap s' !! l = Some b ∧ clean_on bm' id b.
Proof.
  split; [by vm_compute|].
  apply (flush_syncs Table.backend (Some Table.refs) Table.belongs Table.weight (∅, ∅) ∅ Table.s1 Table.perm Table.newest).
  - intros f id d [= <-] _. unfold light, Table.refs, Table.weight. destruct (keqb id "a"); cbn; lia.
  - reflexivity.
  - done.
  - apply (Table.exec_all_steps Table.script). by vm_compute.
Defined.

(** A name that was set to the empty id cannot be set again before the storage forgets it:
    [setNameToBlockId] takes the empty id for a block it holds a reference of, finds no such
    block and dereferences nil. *)
Theorem clearing_name_twice_panics :
  (_ ← setNameToBlockId Table.backend "name" ""; setNameToBlockId Table.backend "name" "") Table.s0 =
  Panic "invalid memory address or nil pointer dereference".
Proof. by vm_compute. Qed.
