(* ===== verification/Paths.v ===== *)
(** * Strings of the Go library, and the files of the operating system

    strings.Split, fmt's %x and %v of integers, strconv.Atoi, filepath.Split, and the calls of os
    and ioutil on a tree of files and directories. *)
From stdpp Require Import base list sets strings sorting gmap.
From Stdlib Require Import ZArith Lia Ascii DecimalString DecimalZ.
From S2P Require Import Prelude OrderedMap Util.

(** ** Splitting *)

(** [strings.Split] with a separator of one byte. *)
Fixpoint str_split (c : ascii) (s : string) : list string :=
  match s with
  | EmptyString => [""]
  | String x s' =>
      if Ascii.eqb x c then "" :: str_split c s'
      else match str_split c s' with [] => [String x ""] | w :: ws => String x w :: ws end
  end.

Fixpoint lacks (c : ascii) (s : string) : bool :=
  match s with EmptyString => true | String x s' => negb (Ascii.eqb x c) && lacks c s' end.

Lemma lacks_app c a b : lacks c (a +:+ b) = lacks c a && lacks c b.
Proof. induction a as [|x a IH]; [done|]. rewrite str_app_cons. cbn [lacks]. by rewrite IH, andb_assoc. Qed.
Lemma str_split_nonnil c s : str_split c s ≠ [].
Proof. destruct s as [|x s]; [done|]. cbn. destruct (Ascii.eqb x c); [done|]. by destruct (str_split c s). Qed.
Lemma str_split_app c a b : str_split c (a +:+ String c b) = str_split c a ++ str_split c b.
Proof.
  induction a as [|x a IH].
  { change ("" +:+ String c b) with (String c b). cbn [str_split]. by rewrite Ascii.eqb_refl. }
  rewrite str_app_cons. cbn [str_split]. rewrite IH. destruct (Ascii.eqb x c); [done|]. pose proof (str_split_nonnil c a). by destruct (str_split c a).
Qed.
Lemma str_split_lacks c a : lacks c a = true → str_split c a = [a].
Proof.
  induction a as [|x a IH]; [done|]. cbn [lacks str_split]. intros [Hx Ha]%andb_true_iff.
  apply negb_true_iff in Hx. rewrite Hx. by rewrite IH.
Qed.

(** ** Numbers *)

(** [%x] of a string. *)
Definition hex_digit (z : Z) : ascii := byte_chr (if (z <? 10)%Z then 48 + z else 87 + z)%Z.
Fixpoint hex (s : string) : string :=
  match s with
  | EmptyString => ""
  | String c s' => String (hex_digit (chr_byte c / 16)) (String (hex_digit (chr_byte c mod 16)) (hex s'))
  end.

(** [%v] of an integer, and [strconv.Atoi] where int has 64 bits. *)
Definition Itoa (z : Z) : string := NilZero.string_of_int (Z.to_int z).
Definition Atoi (s : string) : option Z :=
  let digits :=
    match s with
    | EmptyString => None
    | String c s' => if Ascii.eqb c "+" then Z.of_uint <$> NilZero.uint_of_string s' else Z.of_int <$> NilZero.int_of_string s
    end in
  z ← digits; if ((- 2 ^ 63 <=? z) && (z <? 2 ^ 63))%Z then Some z else None.

Lemma chr_byte_inj c c' : chr_byte c = chr_byte c' → c = c'.
Proof. unfold chr_byte. intros E%(inj Z.of_N). by rewrite <- (ascii_N_embedding c), <- (ascii_N_embedding c'), E. Qed.

Lemma hex_digit_byte z : (0 ≤ z < 16)%Z → chr_byte (hex_digit z) = (if (z <? 10)%Z then 48 + z else 87 + z)%Z.
Proof. intros Hz. unfold hex_digit. rewrite byte_chr_byte, Z.mod_small; [done|]. destruct (Z.ltb_spec z 10); lia. Qed.
Lemma hex_digit_inj a b : (0 ≤ a < 16)%Z → (0 ≤ b < 16)%Z → hex_digit a = hex_digit b → a = b.
Proof.
  intros Ha Hb E%(f_equal chr_byte). rewrite !hex_digit_byte in E by done.
  destruct (Z.ltb_spec a 10), (Z.ltb_spec b 10); lia.
Qed.
Lemma hex_digits c : (0 ≤ chr_byte c / 16 < 16)%Z ∧ (0 ≤ chr_byte c mod 16 < 16)%Z.
Proof.
  pose proof (chr_byte_range c). split; [|by apply Z.mod_pos_bound]. split; [apply Z.div_pos; lia|]. apply Z.div_lt_upper_bound; lia.
Qed.
#[export] Instance hex_inj : Inj (=) (=) hex.
Proof.
  intros a. induction a as [|c a IH]; intros [|c' b]; [done..|]. cbn [hex]. intros [= E1 E2 E3].
  destruct (hex_digits c), (hex_digits c'). apply hex_digit_inj in E1, E2; try done. f_equal; [|by apply IH].
  apply chr_byte_inj. by rewrite (Z.div_mod (chr_byte c) 16), (Z.div_mod (chr_byte c') 16), E1, E2.
Qed.
Lemma hex_length s : String.length (hex s) = 2 * String.length s.
Proof. induction s as [|c s IH]; [done|]. cbn [hex String.length]. lia. Qed.
(** Hexadecimal digits are no separators. *)
Lemma hex_lacks c s : (chr_byte c < 48 ∨ 57 < chr_byte c < 97)%Z → lacks c (hex s) = true.
Proof.
  intros Hc. assert (∀ z, (0 ≤ z < 16)%Z → Ascii.eqb (hex_digit z) c = false) as Hd.
  { intros z Hz. apply Ascii.eqb_neq. intros E%(f_equal chr_byte). rewrite hex_digit_byte in E by done. destruct (Z.ltb_spec z 10); lia. }
  induction s as [|x s IH]; [done|]. cbn [hex lacks]. destruct (hex_digits x). by rewrite !Hd, IH.
Qed.

Lemma to_int_nonnil z : Z.to_int z ≠ Decimal.Pos Decimal.Nil ∧ Z.to_int z ≠ Decimal.Neg Decimal.Nil.
Proof.
  split; intros E; pose proof (DecimalZ.of_to z) as Hz; rewrite E in Hz; cbn in Hz; subst z; done.
Qed.
Lemma Itoa_int z : NilZero.int_of_string (Itoa z) = Some (Z.to_int z).
Proof. destruct (to_int_nonnil z). by apply NilZero.isi. Qed.

(** Decimal digits and a minus sign. *)
Definition decimal_char (c : ascii) : bool := ((48 <=? chr_byte c) && (chr_byte c <=? 57) || (chr_byte c =? 45))%Z.
Fixpoint all_chars (f : ascii → bool) (s : string) : bool :=
  match s with EmptyString => true | String c s' => f c && all_chars f s' end.
Lemma uint_chars d : all_chars decimal_char (NilEmpty.string_of_uint d) = true.
Proof. by induction d. Qed.
Lemma Itoa_chars z : all_chars decimal_char (Itoa z) = true ∧ Itoa z ≠ "".
Proof.
  unfold Itoa. destruct (Z.to_int z) as [d|d] eqn:E; cbn [NilZero.string_of_int NilZero.string_of_uint].
  - destruct d; (split; [|done]); (done || apply uint_chars).
  - split; [|done]. cbn [all_chars]. apply andb_true_iff. split; [done|]. destruct d; (done || apply uint_chars).
Qed.
Lemma all_chars_lacks f c s : all_chars f s = true → f c = false → lacks c s = true.
Proof.
  intros Hs Hc. induction s as [|x s IH]; [done|]. cbn [all_chars lacks] in *. apply andb_true_iff in Hs as [Hx Hs].
  rewrite IH by done. apply andb_true_iff. split; [|done]. apply negb_true_iff, Ascii.eqb_neq. intros ->. congruence.
Qed.

Lemma Itoa_lacks c z : decimal_char c = false → lacks c (Itoa z) = true.
Proof. apply all_chars_lacks. apply Itoa_chars. Qed.

Lemma Atoi_Itoa z : (- 2 ^ 63 ≤ z < 2 ^ 63)%Z → Atoi (Itoa z) = Some z.
Proof.
  intros Hz. unfold Atoi. destruct (Itoa_chars z) as [Hc Hne]. pose proof (Itoa_int z) as Hi.
  destruct (Itoa z) as [|c s]; [done|]. rewrite Hi. cbn [all_chars] in Hc. apply andb_true_iff in Hc as [Hc _].
  destruct (Ascii.eqb_spec c "+") as [->|_]; [done|]. cbn [fmap option_fmap option_map mbind option_bind]. rewrite DecimalZ.of_to.
  destruct (Z.leb_spec (- 2 ^ 63) z); [|lia]. destruct (Z.ltb_spec z (2 ^ 63)); [done|lia].
Qed.
#[export] Instance Itoa_inj : Inj (=) (=) Itoa.
Proof.
  intros a b E. assert (Some (Z.to_int a) = Some (Z.to_int b)) as [= Ei] by (by rewrite <- !Itoa_int, E).
  by rewrite <- (DecimalZ.of_to a), <- (DecimalZ.of_to b), Ei.
Qed.

(** ** Paths *)

(** [filepath.Split]: the part up to the last separator, and the rest. *)
Fixpoint path_Split (s : string) : string * string :=
  match s with
  | EmptyString => ("", "")
  | String x s' =>
      let '(d, b) := path_Split s' in
      match d with
      | EmptyString => if Ascii.eqb x "/" then (String x "", b) else ("", String x b)
      | _ => (String x d, b)
      end
  end.
Lemma path_Split_lacks b : lacks "/" b = true → path_Split b = ("", b).
Proof.
  induction b as [|x b IH]; [done|]. cbn [lacks path_Split]. intros [Hx Hb]%andb_true_iff. apply negb_true_iff in Hx.
  by rewrite IH, Hx.
Qed.
Lemma path_Split_dir a b : lacks "/" b = true → path_Split (a +:+ String "/" b) = (a +:+ "/", b).
Proof.
  intros Hb. induction a as [|x a IH].
  { change ("" +:+ String "/" b) with (String "/" b). cbn [path_Split]. by rewrite path_Split_lacks. }
  rewrite !str_app_cons. cbn [path_Split]. rewrite IH.
  by destruct a.
Qed.

(** The names on the way, as the system follows them; a path with ".." is not described. *)
Definition resolve_path (s : string) : list string := filter (λ w, w ≠ "" ∧ w ≠ ".") (str_split "/" s).
Lemma resolve_app a b : resolve_path (a +:+ String "/" b) = resolve_path a ++ resolve_path b.
Proof. unfold resolve_path. by rewrite str_split_app, filter_app. Qed.
Lemma resolve_slash a : resolve_path (a +:+ "/") = resolve_path a.
Proof. change (a +:+ "/") with (a +:+ String "/" ""). rewrite resolve_app. unfold resolve_path at 2. cbn. by rewrite app_nil_r. Qed.
Definition word (w : string) : Prop := lacks "/" w = true ∧ w ≠ "" ∧ w ≠ ".".
Lemma resolve_word w : word w → resolve_path w = [w].
Proof. intros (Hw & H1 & H2). unfold resolve_path. rewrite str_split_lacks by done. by rewrite filter_cons_True. Qed.

(** ** Files *)

Inductive fs_node : Type := File (data : string) | Dir.
(** What exists, by path; the directory [[]] is always there. *)
Abbreviation disk := (gmap (list string) fs_node).

#[export] Instance fs_node_eq_dec : EqDecision fs_node.
Proof. solve_decision. Defined.

Definition is_dir (d : disk) (p : list string) : Prop := p = [] ∨ d !! p = Some Dir.
#[export] Instance is_dir_dec d p : Decision (is_dir d p) := _.

Definition os_Mkdir (path : string) (d : disk) : option disk :=
  let p := resolve_path path in
  if decide (p = [] ∨ is_Some (d !! p)) then None
  else if decide (is_dir d (removelast p)) then Some (<[p := Dir]> d) else None.

(** The names in a directory, sorted as ioutil.ReadDir sorts them. *)
Definition dir_names (p : list string) (d : disk) : list string :=
  omap (λ e, if decide (removelast e.1 = p) then last e.1 else None) (map_to_list d).
Definition str_le (a b : string) : Prop := kleb a b = true.
#[export] Instance str_le_dec : RelDecision str_le := λ a b, decide (kleb a b = true).
Definition os_ReadDir (path : string) (d : disk) : option (list string) :=
  let p := resolve_path path in
  if decide (is_dir d p) then Some (merge_sort str_le (dir_names p d)) else None.

(** A directory can be removed when it is empty. *)
Definition os_Remove (path : string) (d : disk) : option disk :=
  let p := resolve_path path in
  match d !! p with
  | None => None
  | Some (File _) => Some (delete p d)
  | Some Dir => if dir_names p d is [] then Some (delete p d) else None
  end.
Definition os_ReadFile (path : string) (d : disk) : option string :=
  match d !! resolve_path path with Some (File b) => Some b | _ => None end.
Definition os_WriteFile (path data : string) (d : disk) : option disk :=
  let p := resolve_path path in
  if decide (is_dir d p) then None
  else if decide (is_dir d (removelast p)) then Some (<[p := File data]> d) else None.
(** Renaming a file; a file that has the new name is replaced. *)
Definition os_Rename (old new : string) (d : disk) : option disk :=
  let p := resolve_path old in
  let q := resolve_path new in
  match d !! p with
  | Some (File b) =>
      if decide (is_dir d q) then None
      else if decide (is_dir d (removelast q)) then Some (<[q := File b]> (delete p d)) else None
  | _ => None
  end.

Lemma dir_names_elem p d x : x ∈ dir_names p d ↔ is_Some (d !! (p ++ [x])).
Proof.
  unfold dir_names. rewrite list_elem_of_omap. split.
  - intros ([q v] & Hin & Hq). cbn in Hq. apply elem_of_map_to_list in Hin. case_decide as E; [|done].
    destruct q as [|y q _] using rev_ind; [done|]. rewrite last_snoc in Hq. injection Hq as ->.
    rewrite removelast_last in E. subst. eauto.
  - intros [v Hv]. exists (p ++ [x], v). split; [by apply elem_of_map_to_list|]. cbn. rewrite removelast_last, decide_True, last_snoc; done.
Qed.
Lemma os_ReadDir_elem path d names x : os_ReadDir path d = Some names → (x ∈ names ↔ is_Some (d !! (resolve_path path ++ [x]))).
Proof.
  unfold os_ReadDir. case_decide; [|done]. intros [= <-]. rewrite merge_sort_Permutation. apply dir_names_elem.
Qed.
