(* ===== verification/FileBackend.v ===== *)
(** * Blocks as files (src/storage/file/file.go)

    A block is a file whose name has the id and the metadata, in a directory named after the start of
    the id; a name is a file with the id.  The state has the files of the system.  [delay], which only
    sleeps, and the lock of [created] are left out. *)
From stdpp Require Import base list sets strings sorting gmap.
From Stdlib Require Import ZArith Lia Ascii.
From S2P Require Import Prelude OrderedMap Util Paths Codec Backend Storage.

Definition directoryBytes : nat := 2.

Record fileBackend : Type := mkFB { Directory : string; created : gset string; files : disk }.
Definition NewFileBackend (dir : string) (d : disk) : fileBackend := mkFB dir ∅ d.
Definition set_files (d : disk) (self : fileBackend) : fileBackend := mkFB (Directory self) (created self) d.
(** [if err != nil { log.Panic(err) }]. *)
Definition must {A : Type} (o : option A) : res A := match o with Some a => Ok a | None => Panic "log.Panic(err)" end.

(** The directory of a block, and its file there. *)
Definition blockPath (b : Block) (metadata : option BlockMetadata) (self : fileBackend) : res (string * string) :=
  let md := default (Meta b) metadata in
  let! x := str_to (Id b) directoryBytes in
  let! y := str_from (Id b) directoryBytes in
  let dir := Directory self +:+ "/blocks/" +:+ hex x in
  Ok (dir, dir +:+ "/" +:+ hex y +:+ "_" +:+ Itoa (RefCount md) +:+ "_" +:+ Itoa (Status md)).

(** Errors of Mkdir are ignored; [fuel] bounds the depth of the path. *)
Fixpoint mkdirAllRec (fuel : nat) (path : string) (self : fileBackend) : res fileBackend :=
  match fuel with
  | O => NoFuel
  | S fuel' =>
      if keqb path "" then Ok self
      else if decide (path ∈ created self) then Ok self
      else
        let! self :=
          if keqb path (Directory self) then Ok self
          else
            let dir := (path_Split path).1 in
            if String.length dir <? String.length path then mkdirAllRec fuel' dir self else Ok self in
        Ok (mkFB (Directory self) ({[path]} ∪ created self) (default (files self) (os_Mkdir path (files self))))
  end.
Definition mkdirAll (path : string) (self : fileBackend) : res fileBackend := mkdirAllRec (S (String.length path)) path self.

Definition file_DeleteBlock (bl : Block) (self : fileBackend) : res fileBackend :=
  let! p := blockPath bl (Stored bl) self in
  let! d := must (os_Remove p.2 (files self)) in
  Ok (set_files d self).

Definition file_GetBlockData (bl : Block) (self : fileBackend) : res (option string * fileBackend) :=
  let! p := blockPath bl (Stored bl) self in
  let! b := must (os_ReadFile p.2 (files self)) in
  Ok (Some b, self).

(** The loop over the files of the directory. *)
Fixpoint find_block (prefix id : string) (names : list string) : res (option Block) :=
  match names with
  | [] => Ok None
  | n :: names' =>
      let! start := str_to n (String.length prefix) in
      if negb (keqb start prefix) then find_block prefix id names'
      else
        let arr := str_split "_" n in
        let! a1 := go_index arr 1 in
        match Atoi a1 with
        | None => find_block prefix id names'
        | Some refcount =>
            let! a2 := go_index arr 2 in
            match Atoi a2 with
            | None => find_block prefix id names'
            | Some status =>
                Ok (Some (with_Meta (mkMeta (wrap32 refcount) (status mod 256)%Z) (with_hasBackend true (new_Block id))))
            end
        end
  end.
Definition file_GetBlockById (id : string) (self : fileBackend) : res (option Block * fileBackend) :=
  let! x := str_to id directoryBytes in
  let! y := str_from id directoryBytes in
  let dir := Directory self +:+ "/blocks/" +:+ hex x in
  let prefix := hex y +:+ "_" in
  match os_ReadDir dir (files self) with
  | None => Ok (None, self)
  | Some fis => let! b := find_block prefix id fis in Ok (b, self)
  end.

Definition file_GetBlockIdByName (name : string) (self : fileBackend) : res (string * fileBackend) :=
  let path := Directory self +:+ "/names/" +:+ hex name in
  Ok (default "" (os_ReadFile path (files self)), self).

Definition file_SetNameToBlockId (name block_id : string) (self : fileBackend) : res fileBackend :=
  let dir := Directory self +:+ "/names" in
  let path := dir +:+ "/" +:+ hex name in
  let! self := mkdirAll dir self in
  let! d := must (if keqb block_id "" then os_Remove path (files self) else os_WriteFile path block_id (files self)) in
  Ok (set_files d self).

Definition file_StoreBlock (bl : Block) (self : fileBackend) : res fileBackend :=
  let! p := blockPath bl None self in
  let! self := mkdirAll p.1 self in
  let! data := deref (Data bl) in
  let! d := must (os_WriteFile p.2 data (files self)) in
  Ok (set_files d self).

Definition file_UpdateBlock (bl : Block) (self : fileBackend) : res (Z * fileBackend) :=
  match Stored bl with
  | None => Panic ".Stored is not set"
  | Some _ =>
      let! old := blockPath bl (Stored bl) self in
      let! new := blockPath bl None self in
      let! d := must (os_Rename old.2 new.2 (files self)) in
      Ok (1%Z, set_files d self)
  end.

(** ** The contract *)

Section contract.
(** All ids have the length of a hash. *)
Context (idlen : nat) (Hlen : directoryBytes ≤ idlen).
Context (dirname : string).
Abbreviation base := (resolve_path dirname).

Definition id_dir (id : string) : string := hex (String.substring 0 2 id).
Definition id_rest (id : string) : string := String.substring 2 (String.length id - 2) id.
Definition block_name (id : string) (md : BlockMetadata) : string :=
  hex (id_rest id) +:+ "_" +:+ Itoa (RefCount md) +:+ "_" +:+ Itoa (Status md).
Definition blocks_dir (id : string) : list string := base ++ ["blocks"; id_dir id].
Definition block_file (id : string) (md : BlockMetadata) : list string := base ++ ["blocks"; id_dir id; block_name id md].
Definition name_file (n : string) : list string := base ++ ["names"; hex n].
Definition layout_dir (p : list string) : Prop := p = base ++ ["blocks"] ∨ (∃ x, p = base ++ ["blocks"; x]) ∨ p = base ++ ["names"].
Definition meta_range (md : BlockMetadata) : Prop := (- 2 ^ 31 ≤ RefCount md < 2 ^ 31)%Z ∧ (0 ≤ Status md < 256)%Z.

(** *** Names *)

Lemma str_to_id id : String.length id = idlen → str_to id directoryBytes = Ok (String.substring 0 2 id).
Proof. intros Hid. unfold str_to, directoryBytes in *. by destruct (Nat.ltb_spec (String.length id) 2); [lia|]. Qed.
Lemma str_from_id id : String.length id = idlen → str_from id directoryBytes = Ok (id_rest id).
Proof. intros Hid. unfold str_from, directoryBytes in *. by destruct (Nat.ltb_spec (String.length id) 2); [lia|]. Qed.
Lemma id_parts id : String.length id = idlen → id = String.substring 0 2 id +:+ id_rest id ∧ String.length (String.substring 0 2 id) = 2.
Proof.
  intros Hid. unfold directoryBytes in Hlen. destruct id as [|a [|b r]]; cbn [String.length] in Hid; [lia..|].
  unfold id_rest. cbn [String.substring String.length Nat.sub]. rewrite Nat.sub_0_r, substring_all.
  replace (String.substring 0 0 r) with "" by (by destruct r). done.
Qed.

Lemma name_split id md :
  str_split "_" (block_name id md) = [hex (id_rest id); Itoa (RefCount md); Itoa (Status md)].
Proof.
  assert (∀ z, lacks "_" (Itoa z) = true) as Hi by (intros z; by apply Itoa_lacks).
  assert (lacks "_" (hex (id_rest id)) = true) as Hh by (apply hex_lacks; right; by vm_compute).
  unfold block_name. change ("_" +:+ Itoa (Status md)) with (String "_" (Itoa (Status md))). change ("_" +:+ ?e) with (String "_" e).
  rewrite !str_split_app, (str_split_lacks _ (hex _)), !str_split_lacks by done. done.
Qed.
Lemma block_file_inj id id' md md' :
  String.length id = idlen → String.length id' = idlen → block_file id md = block_file id' md' → id = id' ∧ md = md'.
Proof.
  intros H1 H2 E. unfold block_file in E. apply app_inv_head in E. injection E as Ed En.
  apply (f_equal (str_split "_")) in En. rewrite !name_split in En. injection En as Er Ec Es.
  apply (inj hex) in Ed, Er. apply (inj Itoa) in Ec, Es. destruct (id_parts id H1) as [-> _], (id_parts id' H2) as [-> _].
  rewrite Ed, Er. split; [done|]. destruct md, md'. cbn in *. congruence.
Qed.
Lemma block_name_word id md : word (block_name id md).
Proof.
  unfold word, block_name. split_and!.
  - rewrite !lacks_app, hex_lacks by (left; by vm_compute).
    by rewrite !Itoa_lacks.
  - destruct (hex (id_rest id)); done.
  - destruct (hex (id_rest id)) as [|c [|]]; [done| |done]. by destruct c.
Qed.
Lemma hex_word x : x ≠ "" → word (hex x).
Proof.
  intros Hx. split_and!; [apply hex_lacks; left; by vm_compute| |]; intros E; apply (f_equal String.length) in E; rewrite hex_length in E; cbn in E; [|lia].
  by destruct x.
Qed.
Lemma id_dir_word id : String.length id = idlen → word (id_dir id).
Proof. intros Hid. apply hex_word. destruct (id_parts id Hid) as [_ H2]. intros E. rewrite E in H2. done. Qed.

Lemma resolve_blocks_dir id : String.length id = idlen → resolve_path (dirname +:+ "/blocks/" +:+ id_dir id) = blocks_dir id.
Proof.
  intros Hid. change ("/blocks/" +:+ ?e) with (String "/" ("blocks" +:+ String "/" e)).
  rewrite !resolve_app, (resolve_word (id_dir id)) by (by apply id_dir_word). done.
Qed.
Lemma blockPath_ok b md self :
  Directory self = dirname → String.length (Id b) = idlen →
  ∃ dir path, blockPath b md self = Ok (dir, path) ∧ dir = dirname +:+ "/blocks/" +:+ id_dir (Id b) ∧
    resolve_path path = block_file (Id b) (default (Meta b) md).
Proof.
  intros Hd Hid. unfold blockPath. rewrite str_to_id, str_from_id by done. cbn [res_bind]. rewrite Hd. eexists _, _. split_and!; [done..|].
  change (hex (String.substring 0 2 (Id b))) with (id_dir (Id b)). set (md' := default (Meta b) md).
  change (("/" +:+ ?e)) with (String "/" e). rewrite resolve_app, resolve_blocks_dir by done.
  change (hex (id_rest (Id b)) +:+ _) with (block_name (Id b) md'). rewrite resolve_word by apply block_name_word.
  unfold blocks_dir, block_file. by rewrite <- app_assoc.
Qed.
Lemma resolve_name n : n ≠ "" → resolve_path (dirname +:+ "/names/" +:+ hex n) = name_file n.
Proof.
  intros Hn. change ("/names/" +:+ ?e) with (String "/" ("names" +:+ String "/" e)).
  rewrite !resolve_app, (resolve_word (hex n)) by (by apply hex_word). done.
Qed.

(** *** Directories *)

Record dirs_ok (s : fileBackend) : Prop := {
  do_dirname : Directory s = dirname;
  do_base : is_dir (files s) base;
  do_dirs : ∀ p, layout_dir p → files s !! p = None ∨ files s !! p = Some Dir;
  do_created : ∀ path, path ∈ created s → is_dir (files s) (resolve_path path)
}.
(** Only directories of the layout are new. *)
Definition grown (d d' : disk) : Prop := ∀ q, d' !! q = d !! q ∨ d !! q = None ∧ d' !! q = Some Dir ∧ layout_dir q.

Lemma grown_trans d1 d2 d3 : grown d1 d2 → grown d2 d3 → grown d1 d3.
Proof.
  intros H1 H2 q. destruct (H1 q) as [E1|(N1 & E1 & L1)], (H2 q) as [E2|(N2 & E2 & L2)]; try congruence.
  - left. congruence.
  - right. split_and!; congruence || done.
  - right. split_and!; congruence || done.
Qed.
Lemma grown_dir d d' p : grown d d' → is_dir d p → is_dir d' p.
Proof. intros Hg [->|Hp]; [by left|]. destruct (Hg p) as [E|(N & _)]; [|congruence]. right. congruence. Qed.
Lemma grown_keeps d d' p : grown d d' → ¬ layout_dir p → d' !! p = d !! p.
Proof. intros Hg Hp. destruct (Hg p) as [E|(_ & _ & L)]; done. Qed.
Lemma layout_nonempty p : layout_dir p → p ≠ [].
Proof. by intros [->|[[x ->]| ->]] [? ?]%app_eq_nil. Qed.
Lemma deep_not_layout x y z : ¬ layout_dir (base ++ [x; y; z]).
Proof. intros [E|[[w E]|E]]; by apply app_inv_head in E. Qed.
Lemma name_not_layout n : ¬ layout_dir (name_file n).
Proof. intros [E|[[w E]|E]]; by apply app_inv_head in E. Qed.

(** One directory: the base itself, or one of the layout whose parent exists. *)
Definition can_make (d : disk) (p : list string) : Prop := p = base ∨ layout_dir p ∧ is_dir d (removelast p).

Lemma make_one path s :
  dirs_ok s → can_make (files s) (resolve_path path) →
  let s' := mkFB (Directory s) ({[path]} ∪ created s) (default (files s) (os_Mkdir path (files s))) in
  dirs_ok s' ∧ grown (files s) (files s') ∧ is_dir (files s') (resolve_path path).
Proof.
  intros [D1 D2 D3 D4] Hcan. set (p := resolve_path path) in *. cbn zeta.
  assert (grown (files s) (default (files s) (os_Mkdir path (files s))) ∧
    is_dir (default (files s) (os_Mkdir path (files s))) p) as [Hg Hdir].
  { unfold os_Mkdir. fold p. case_decide as Hex.
    - cbn [default from_option id]. split; [by left|]. destruct Hex as [->|[nd Hnd]]; [by left|]. destruct Hcan as [->|[Hl _]]; [done|].
      destruct (D3 p Hl) as [E|E]; [congruence|by right].
    - destruct Hcan as [->|[Hl Hpar]]; [by destruct Hex; destruct D2 as [->|E]; eauto|].
      rewrite decide_True by done. cbn [default from_option id]. split; [|right; apply lookup_insert_eq].
      intros q. destruct (decide (q = p)) as [->|Hne]; [|left; by rewrite lookup_insert_ne].
      right. rewrite lookup_insert_eq. split_and!; [|done..]. apply eq_None_not_Some. naive_solver. }
  split_and!; [|done..]. split; cbn [Directory files created]; [done|by eapply grown_dir| |].
  - intros q Hq. destruct (Hg q) as [E|(_ & E & _)]; [rewrite E; auto|by right].
  - intros q [->%elem_of_singleton|Hq]%elem_of_union; [done|]. eapply grown_dir; [done|]. by apply D4.
Qed.

(** A path that ends in a slash has no parent to make. *)
Lemma make_leaf fuel path s :
  dirs_ok s → can_make (files s) (resolve_path path) → path ≠ "" → (path_Split path).1 = path →
  ∃ s', mkdirAllRec (S fuel) path s = Ok s' ∧ dirs_ok s' ∧ grown (files s) (files s') ∧ is_dir (files s') (resolve_path path).
Proof.
  intros HD Hcan Hne Hsp. cbn [mkdirAllRec]. destruct (keqb path "") eqn:E; [by apply keqb_eq in E|]. case_decide as Hc.
  - exists s. split_and!; [done..|by left|]. by apply HD.
  - rewrite Hsp, Nat.ltb_irrefl. destruct (make_one path s HD Hcan) as (H1 & H2 & H3).
    destruct (keqb path (Directory s)); cbn [res_bind]; eexists; (split; [done|]); done.
Qed.

Lemma make_under fuel path dir s :
  dirs_ok s → path_Split path = (dir, (path_Split path).2) → (path_Split dir).1 = dir → dir ≠ "" →
  String.length dir < String.length path → String.length dirname < String.length path →
  can_make (files s) (resolve_path dir) → layout_dir (resolve_path path) → removelast (resolve_path path) = resolve_path dir →
  ∃ s', mkdirAllRec (S (S fuel)) path s = Ok s' ∧ dirs_ok s' ∧ grown (files s) (files s') ∧ files s' !! resolve_path path = Some Dir.
Proof.
  intros HD Hsp Hsp2 Hne Hlt Hbase Hcan Hl Hpar. pose proof (layout_nonempty _ Hl) as Hnil.
  remember (S fuel) as fuel' eqn:Ef. cbn [mkdirAllRec]. destruct (keqb path "") eqn:E; [apply keqb_eq in E; subst; cbn in Hlt; lia|].
  case_decide as Hc.
  { exists s. split_and!; [done..|by left|]. by destruct (do_created _ HD path Hc). }
  destruct (keqb path (Directory s)) eqn:E2. { apply keqb_eq in E2. rewrite (do_dirname _ HD) in E2. subst. lia. }
  rewrite Hsp. cbn [fst]. destruct (Nat.ltb_spec (String.length dir) (String.length path)); [|lia]. subst fuel'.
  destruct (make_leaf fuel dir s HD Hcan Hne Hsp2) as (s1 & E1 & HD1 & Hg1 & Hd1). rewrite E1. cbn [res_bind].
  destruct (make_one path s1 HD1) as (H1 & H2 & H3); [right; split; [done|by rewrite Hpar]|].
  eexists. split; [done|]. split_and!; [done|by eapply grown_trans|]. by destruct H3.
Qed.

Lemma mkdirAll_blocks id s :
  dirs_ok s → String.length id = idlen →
  ∃ s', mkdirAll (dirname +:+ "/blocks/" +:+ id_dir id) s = Ok s' ∧ dirs_ok s' ∧ grown (files s) (files s') ∧ files s' !! blocks_dir id = Some Dir.
Proof.
  intros HD Hid. rewrite <- resolve_blocks_dir by done. destruct (id_dir_word id Hid) as (Hw & Hne & _).
  set (x := id_dir id) in *. set (path := dirname +:+ "/blocks/" +:+ x).
  assert (path = (dirname +:+ "/blocks") +:+ String "/" x) as Ep by (unfold path; by rewrite str_app_assoc).
  assert (resolve_path (dirname +:+ "/blocks") = base ++ ["blocks"]) as Eb. { change ("/blocks") with (String "/" "blocks"). by rewrite resolve_app. }
  assert (String.length path = String.length dirname + 8 + String.length x) as El. { unfold path. rewrite !str_length_app. cbn. lia. }
  assert (0 < String.length x) by (destruct x; [done|cbn; lia]).
  unfold mkdirAll. replace (S (String.length path)) with (S (S (pred (String.length path)))) by lia.
  assert (resolve_path path = base ++ ["blocks"; x]) as Er by (by apply resolve_blocks_dir).
  apply (make_under _ path ((dirname +:+ "/blocks") +:+ "/")); try done.
  - rewrite Ep, path_Split_dir by done. done.
  - change ("/") with (String "/" ""). by rewrite path_Split_dir.
  - by destruct dirname.
  - rewrite Ep, !str_length_app. cbn. lia.
  - lia.
  - rewrite resolve_slash, Eb. right. split; [by left|]. rewrite removelast_last. apply HD.
  - rewrite Er. right. left. by exists x.
  - rewrite resolve_slash, Eb, Er. change ["blocks"; x] with (["blocks"] ++ [x]). by rewrite app_assoc, removelast_last.
Qed.
Lemma mkdirAll_names s :
  dirs_ok s →
  ∃ s', mkdirAll (dirname +:+ "/names") s = Ok s' ∧ dirs_ok s' ∧ grown (files s) (files s') ∧ files s' !! (base ++ ["names"]) = Some Dir.
Proof.
  intros HD. set (path := dirname +:+ "/names").
  assert (resolve_path path = base ++ ["names"]) as Er. { unfold path. change ("/names") with (String "/" "names"). by rewrite resolve_app. }
  rewrite <- Er. assert (String.length path = String.length dirname + 6) as El by (unfold path; by rewrite str_length_app).
  unfold mkdirAll. replace (S (String.length path)) with (S (S (pred (String.length path)))) by lia.
  apply (make_under _ path (dirname +:+ "/")); try done.
  - unfold path. change ("/names") with (String "/" "names"). by rewrite path_Split_dir.
  - change ("/") with (String "/" ""). by rewrite path_Split_dir.
  - by destruct dirname.
  - rewrite El, str_length_app. cbn. lia.
  - lia.
  - rewrite resolve_slash. by left.
  - rewrite Er. right. by right.
  - by rewrite resolve_slash, Er, removelast_last.
Qed.

(** *** Blocks and names *)

Record file_rep (s : fileBackend) (m : blockmap) (names : gmap string string) : Prop := {
  fr_dirs : dirs_ok s;
  fr_block : ∀ id md d, m !! id = Some (md, d) →
    String.length id = idlen ∧ meta_range md ∧ files s !! block_file id md = Some (File d) ∧ files s !! blocks_dir id = Some Dir;
  fr_only : ∀ x n nd, files s !! (base ++ ["blocks"; x; n]) = Some nd →
    ∃ id md d, m !! id = Some (md, d) ∧ base ++ ["blocks"; x; n] = block_file id md;
  fr_names : ∀ n, n ≠ "" → files s !! name_file n = File <$> names !! n;
  fr_ids : ∀ n id, names !! n = Some id → id ≠ ""
}.

Lemma rep_grown s s' m names : file_rep s m names → dirs_ok s' → grown (files s) (files s') → file_rep s' m names.
Proof.
  intros [R1 R2 R3 R4 R5] HD Hg. split; [done| | | |done].
  - intros id md d Hm. destruct (R2 id md d Hm) as (H1 & H2 & H3 & H4). split_and!; [done..| |].
    + rewrite (grown_keeps _ _ _ Hg); [done|apply deep_not_layout].
    + assert (is_dir (files s') (blocks_dir id)) as [E|E]; [eapply grown_dir; [done|by right]| |done]. by apply app_eq_nil in E as [_ E].
  - intros x n nd. rewrite (grown_keeps _ _ _ Hg) by apply deep_not_layout. apply R3.
  - intros n Hn. rewrite (grown_keeps _ _ _ Hg) by apply name_not_layout. by apply R4.
Qed.

(** Files change, directories do not. *)
Lemma dirs_ok_files s d :
  dirs_ok s → (∀ p, is_dir (files s) p → is_dir d p) → (∀ p, layout_dir p → d !! p = files s !! p) → dirs_ok (set_files d s).
Proof. intros [D1 D2 D3 D4] Hd Hl. split; cbn [Directory files created set_files]; eauto. intros p Hp. rewrite Hl by done. auto. Qed.
Lemma not_dir_insert (d : disk) q b : ¬ is_dir d q → ∀ p, is_dir d p → is_dir (<[q := File b]> d) p.
Proof. intros Hq p [->|Hp]; [by left|]. right. rewrite lookup_insert_ne; [done|]. intros ->. apply Hq. by right. Qed.
Lemma not_dir_delete (d : disk) q : ¬ is_dir d q → ∀ p, is_dir d p → is_dir (delete q d) p.
Proof. intros Hq p [->|Hp]; [by left|]. right. rewrite lookup_delete_ne; [done|]. intros ->. apply Hq. by right. Qed.
Lemma file_not_dir (d : disk) p x b : d !! (p ++ [x]) = Some (File b) → ¬ is_dir d (p ++ [x]).
Proof. intros E [[_ ?]%app_eq_nil|E']; [done|congruence]. Qed.
Lemma none_not_dir (d : disk) p x : d !! (p ++ [x]) = None → ¬ is_dir d (p ++ [x]).
Proof. intros E [[_ ?]%app_eq_nil|E']; [done|congruence]. Qed.
Lemma block_file_snoc id md : block_file id md = blocks_dir id ++ [block_name id md].
Proof. unfold block_file, blocks_dir. by rewrite <- app_assoc. Qed.
Lemma block_name_ne id md n : block_file id md ≠ name_file n.
Proof. intros E. by apply app_inv_head in E. Qed.

(** A file of a block is there only for a block of the map. *)
Lemma rep_fresh s m names id md :
  file_rep s m names → String.length id = idlen → (∀ d, m !! id ≠ Some (md, d)) → files s !! block_file id md = None.
Proof.
  intros HR Hid Hm. apply eq_None_not_Some. intros [nd Hnd]. destruct (fr_only _ _ _ HR _ _ _ Hnd) as (id' & md' & d' & Hm' & E).
  destruct (fr_block _ _ _ HR _ _ _ Hm') as (Hid' & _). fold (block_file id md) in E.
  destruct (block_file_inj id id' md md' Hid Hid' E) as [-> ->]. by eapply Hm.
Qed.

(** A file of the block [id] is written, and another one of it is removed. *)
Lemma rep_put s m names id md d q :
  file_rep s m names → String.length id = idlen → meta_range md → files s !! blocks_dir id = Some Dir →
  ¬ is_dir (files s) (block_file id md) → ¬ is_dir (files s) q →
  (∀ md0 d0, m !! id = Some (md0, d0) → q = block_file id md0) → (q = block_file id md ∨ ∃ md0, q = block_file id md0 ∧ is_Some (m !! id)) →
  file_rep (set_files (<[block_file id md := File d]> (delete q (files s))) s) (<[id := (md, d)]> m) names.
Proof.
  intros HR Hid Hmd Hdir Hnd Hq Hold Hwhich.
  assert (∀ p, p ≠ block_file id md → p ≠ q → <[block_file id md := File d]> (delete q (files s)) !! p = files s !! p) as Hkeep.
  { intros p H1 H2. by rewrite lookup_insert_ne, lookup_delete_ne. }
  assert (∃ md1, q = block_file id md1) as [md1 Eq] by naive_solver.
  split; cbn [files set_files].
  - apply dirs_ok_files; [apply HR| |].
    + intros p Hp. apply not_dir_insert; [|by apply not_dir_delete]. intros [E|E]; [by apply app_eq_nil in E as [_ ?]|].
      apply lookup_delete_Some in E as [_ E]. apply Hnd. by right.
    + intros p Hp. apply Hkeep; intros ->; [|rewrite Eq in Hp]; by eapply deep_not_layout.
  - intros id' md' d' [[<- [= -> ->]]|[Hne Hm]]%lookup_insert_Some.
    + split_and!; [done..|by rewrite lookup_insert_eq|]. rewrite Hkeep; [done|..].
      * rewrite block_file_snoc. intros E. apply (f_equal length) in E. rewrite length_app in E. cbn in E. lia.
      * rewrite Eq, block_file_snoc. intros E. apply (f_equal length) in E. rewrite length_app in E. cbn in E. lia.
    + destruct (fr_block _ _ _ HR _ _ _ Hm) as (H1 & H2 & H3 & H4). split_and!; [done..| |].
      * rewrite Hkeep; [done|..]; [|rewrite Eq]; by intros [-> _]%block_file_inj.
      * rewrite Hkeep; [done|..]; [|rewrite Eq]; rewrite block_file_snoc; unfold blocks_dir; rewrite <- app_assoc; intros E%app_inv_head; done.
  - intros x n nd. destruct (decide (base ++ ["blocks"; x; n] = block_file id md)) as [E|Hne].
    + intros _. exists id, md, d. by rewrite lookup_insert_eq.
    + rewrite lookup_insert_ne by done. intros [Hq' E]%lookup_delete_Some. destruct (fr_only _ _ _ HR _ _ _ E) as (id' & md' & d' & Hm & E').
      exists id', md', d'. split; [|done]. rewrite lookup_insert_ne; [done|]. intros ->. by rewrite (Hold _ _ Hm) in Hq'.
  - intros n Hn. rewrite Hkeep; [by apply HR|apply not_eq_sym, block_name_ne|rewrite Eq; apply not_eq_sym, block_name_ne].
  - apply HR.
Qed.

Lemma delete_absent (d : disk) q : d !! q = None → delete q d = d.
Proof. apply delete_id. Qed.

Lemma StoreBlock_ok b s m names d :
  file_rep s m names → m !! Id b = None → Data b = Some d → String.length (Id b) = idlen → meta_range (Meta b) →
  ∃ s', file_StoreBlock b s = Ok s' ∧ file_rep s' (<[Id b := (Meta b, d)]> m) names.
Proof.
  intros HR Hm Hd Hid Hmd. unfold file_StoreBlock. destruct (blockPath_ok b None s) as (dir & path & Ep & Edir & Er); [apply HR|done|].
  rewrite Ep. cbn [res_bind fst snd]. rewrite Edir. destruct (mkdirAll_blocks (Id b) s) as (s1 & E1 & HD1 & Hg1 & Hdir); [apply HR|done|].
  rewrite E1, Hd. cbn [res_bind deref]. pose proof (rep_grown _ _ _ _ HR HD1 Hg1) as HR1.
  assert (files s1 !! block_file (Id b) (Meta b) = None) as Hfree. { apply (rep_fresh s1 m names); [done..|]. intros x. by rewrite Hm. }
  assert (¬ is_dir (files s1) (block_file (Id b) (Meta b))) as Hnd. { rewrite block_file_snoc in *. by apply none_not_dir. }
  unfold os_WriteFile. rewrite Er. cbn [default from_option]. rewrite decide_False by done.
  rewrite decide_True by (rewrite block_file_snoc, removelast_last; by right). cbn [must res_bind]. eexists. split; [done|].
  rewrite <- (delete_absent _ _ Hfree) at 1. apply (rep_put s1 m names); try done; [congruence|by left].
Qed.

Lemma GetBlockData_ok b s m names md d :
  file_rep s m names → m !! Id b = Some (md, d) → default (Meta b) (Stored b) = md → file_GetBlockData b s = Ok (Some d, s).
Proof.
  intros HR Hm Hmd. destruct (fr_block _ _ _ HR _ _ _ Hm) as (Hid & _ & Hf & _). unfold file_GetBlockData.
  destruct (blockPath_ok b (Stored b) s) as (dir & path & Ep & _ & Er); [apply HR|done|]. rewrite Ep. cbn [res_bind fst snd].
  unfold os_ReadFile. by rewrite Er, Hmd, Hf.
Qed.

Lemma UpdateBlock_ok b s m names md d :
  file_rep s m names → m !! Id b = Some (md, d) → Stored b = Some md → meta_range (Meta b) →
  ∃ s', file_UpdateBlock b s = Ok (1%Z, s') ∧ file_rep s' (<[Id b := (Meta b, d)]> m) names.
Proof.
  intros HR Hm Hst Hmd. destruct (fr_block _ _ _ HR _ _ _ Hm) as (Hid & _ & Hf & Hdir). unfold file_UpdateBlock. rewrite Hst.
  destruct (blockPath_ok b (Some md) s) as (dir & path & Ep & _ & Er); [apply HR|done|].
  destruct (blockPath_ok b None s) as (dir' & path' & Ep' & _ & Er'); [apply HR|done|].
  rewrite Ep. cbn [res_bind fst snd]. rewrite Ep'. cbn [res_bind fst snd]. unfold os_Rename. rewrite Er, Er'. cbn [default from_option id]. rewrite Hf.
  assert (¬ is_dir (files s) (block_file (Id b) (Meta b))) as Hnd.
  { destruct (decide (Meta b = md)) as [->|Hne]; [rewrite block_file_snoc in *; by eapply file_not_dir|].
    rewrite block_file_snoc. apply none_not_dir. rewrite <- block_file_snoc. apply (rep_fresh s m names); [done..|]. intros x. rewrite Hm. congruence. }
  rewrite decide_False by done. rewrite decide_True by (rewrite block_file_snoc, removelast_last; by right). cbn [must res_bind].
  eexists. split; [done|]. apply rep_put; try done.
  - rewrite block_file_snoc in *. by eapply file_not_dir.
  - intros md0 d0. rewrite Hm. by intros [= -> _].
  - right. exists md. eauto.
Qed.

Lemma DeleteBlock_ok b s m names md d :
  file_rep s m names → m !! Id b = Some (md, d) → default (Meta b) (Stored b) = md →
  ∃ s', file_DeleteBlock b s = Ok s' ∧ file_rep s' (delete (Id b) m) names.
Proof.
  intros HR Hm Hmd. destruct (fr_block _ _ _ HR _ _ _ Hm) as (Hid & _ & Hf & Hdir). unfold file_DeleteBlock.
  destruct (blockPath_ok b (Stored b) s) as (dir & path & Ep & _ & Er); [apply HR|done|]. rewrite Ep. cbn [res_bind fst snd].
  unfold os_Remove. rewrite Er, Hmd, Hf. cbn [must res_bind]. eexists. split; [done|].
  assert (¬ is_dir (files s) (block_file (Id b) md)) as Hnd by (rewrite block_file_snoc in *; by eapply file_not_dir).
  split; cbn [files set_files].
  - apply dirs_ok_files; [apply HR|by apply not_dir_delete|]. intros p Hp. rewrite lookup_delete_ne; [done|]. intros <-. by eapply deep_not_layout.
  - intros id' md' d' [Hne Hm']%lookup_delete_Some. destruct (fr_block _ _ _ HR _ _ _ Hm') as (H1 & H2 & H3 & H4). split_and!; [done..| |].
    + rewrite lookup_delete_ne; [done|]. by intros [? _]%block_file_inj.
    + rewrite lookup_delete_ne; [done|]. unfold block_file, blocks_dir. by intros E%app_inv_head.
  - intros x n nd [Hne E]%lookup_delete_Some. destruct (fr_only _ _ _ HR _ _ _ E) as (id' & md' & d' & Hm' & E').
    exists id', md', d'. split; [|done]. rewrite lookup_delete_ne; [done|]. intros <-. rewrite Hm in Hm'. congruence.
  - intros n Hn. rewrite lookup_delete_ne by apply block_name_ne. by apply HR.
  - apply HR.
Qed.

(** The block GetBlockById makes of what it finds. *)
Definition found_block (id : string) (md : BlockMetadata) : Block := with_Meta md (with_hasBackend true (new_Block id)).
Definition listed (m : blockmap) (id n : string) : Prop :=
  ∃ id' md d, m !! id' = Some (md, d) ∧ String.length id' = idlen ∧ meta_range md ∧ id_dir id' = id_dir id ∧ n = block_name id' md.

Lemma find_block_ok m id names :
  String.length id = idlen → Forall (listed m id) names →
  ∃ r, find_block (hex (id_rest id) +:+ "_") id names = Ok r ∧
    match r with
    | Some b => ∃ md d, m !! id = Some (md, d) ∧ b = found_block id md
    | None => ∀ md d, m !! id = Some (md, d) → block_name id md ∉ names
    end.
Proof.
  intros Hid. induction 1 as [|n names (id' & md & d & Hm & Hid' & [Hrc Hst] & Hdir & ->) HF IH].
  { exists None. split; [done|]. intros md d _ []%not_elem_of_nil. }
  assert (String.length (hex (id_rest id) +:+ "_") = String.length (hex (id_rest id') +:+ "_")) as Hl.
  { rewrite !str_length_app, !hex_length. destruct (id_parts id Hid) as [E1 L1], (id_parts id' Hid') as [E2 L2].
    apply (f_equal String.length) in E1, E2. rewrite str_length_app in E1, E2. lia. }
  cbn [find_block]. assert (str_to (block_name id' md) (String.length (hex (id_rest id) +:+ "_")) = Ok (hex (id_rest id') +:+ "_")) as En.
  { rewrite Hl. unfold block_name. rewrite <- str_app_assoc. apply str_to_app. }
  rewrite En. cbn [res_bind]. rewrite name_split. cbn [go_index lookup list_lookup res_bind].
  destruct (keqb (hex (id_rest id') +:+ "_") (hex (id_rest id) +:+ "_")) eqn:E; cbn [negb].
  - apply keqb_eq in E. assert (id_rest id' = id_rest id) as Er.
    { apply (f_equal (str_split "_")) in E. change ("_") with (String "_" "") in E. rewrite !str_split_app in E.
      rewrite (str_split_lacks _ (hex (id_rest id))), (str_split_lacks _ (hex (id_rest id'))) in E by (apply hex_lacks; right; by vm_compute).
      injection E as E. by apply (inj hex). }
    assert (id' = id) as ->.
    { destruct (id_parts id Hid) as [-> _], (id_parts id' Hid') as [-> _]. unfold id_dir in Hdir. apply (inj hex) in Hdir. by rewrite Hdir, Er. }
    rewrite !Atoi_Itoa by lia. eexists. split; [done|]. exists md, d. split; [done|]. unfold found_block. do 2 f_equal.
    destruct md as [rc st]. cbn in *. f_equal; [unfold wrap32; rewrite Z.mod_small; lia|by apply Z.mod_small].
  - destruct IH as (r & -> & Hr). exists r. split; [done|]. destruct r as [b|]; [done|]. intros md' d' Hm' [En'|Hin]%elem_of_cons; [|by eapply Hr].
    apply (f_equal (str_split "_")) in En'. rewrite !name_split in En'. injection En' as Eh _ _. rewrite Eh, keqb_refl in E. done.
Qed.

Lemma GetBlockById_ok id s m names :
  file_rep s m names → String.length id = idlen →
  file_GetBlockById id s = Ok (match m !! id with Some (md, _) => Some (found_block id md) | None => None end, s).
Proof.
  intros HR Hid. unfold file_GetBlockById. rewrite str_to_id, str_from_id by done. cbn [res_bind]. rewrite (do_dirname _ (fr_dirs _ _ _ HR)).
  change (hex (String.substring 0 2 id)) with (id_dir id).
  destruct (os_ReadDir (dirname +:+ "/blocks/" +:+ id_dir id) (files s)) as [fis|] eqn:E.
  - pose proof (λ n, os_ReadDir_elem _ _ _ n E) as Hin. rewrite resolve_blocks_dir in Hin by done.
    destruct (find_block_ok m id fis Hid) as (r & -> & Hr).
    { apply Forall_forall. intros n [nd Hnd]%Hin. unfold blocks_dir in Hnd. rewrite <- app_assoc in Hnd.
      destruct (fr_only _ _ _ HR _ _ _ Hnd) as (id' & md & d & Hm & Ef). destruct (fr_block _ _ _ HR _ _ _ Hm) as (H1 & H2 & _).
      apply app_inv_head in Ef. injection Ef as Ed En. by exists id', md, d. }
    cbn [res_bind]. do 2 f_equal. destruct r as [b|]; [destruct Hr as (md & d & -> & ->); done|].
    destruct (m !! id) as [[md d]|] eqn:Hm; [|done]. exfalso. apply (Hr md d eq_refl), Hin. rewrite <- block_file_snoc.
    destruct (fr_block _ _ _ HR _ _ _ Hm) as (_ & _ & -> & _). eauto.
  - destruct (m !! id) as [[md d]|] eqn:Hm; [|done]. destruct (fr_block _ _ _ HR _ _ _ Hm) as (_ & _ & _ & Hd).
    unfold os_ReadDir in E. rewrite resolve_blocks_dir in E by done. by rewrite decide_True in E by (by right).
Qed.

Lemma GetBlockIdByName_ok n s m names :
  file_rep s m names → n ≠ "" → file_GetBlockIdByName n s = Ok (default "" (names !! n), s).
Proof.
  intros HR Hn. unfold file_GetBlockIdByName, os_ReadFile. rewrite (do_dirname _ (fr_dirs _ _ _ HR)), resolve_name by done.
  rewrite (fr_names _ _ _ HR) by done. by destruct (names !! n).
Qed.

Definition spec_name (n id : string) (names : gmap string string) : gmap string string :=
  if keqb id "" then delete n names else <[n := id]> names.

Lemma name_file_inj n n' : name_file n = name_file n' → n = n'.
Proof. unfold name_file. intros E%app_inv_head. injection E as E. by apply (inj hex). Qed.
Lemma rep_names s m names names' n d :
  file_rep s m names → n ≠ "" → (∀ p, is_dir (files s) p → is_dir d p) → (∀ p, p ≠ name_file n → d !! p = files s !! p) →
  d !! name_file n = File <$> names' !! n → (∀ n', n' ≠ n → names' !! n' = names !! n') → names' !! n ≠ Some "" →
  file_rep (set_files d s) m names'.
Proof.
  intros HR Hn Hd Hkeep Hnew Hother Hne. split; cbn [files set_files].
  - apply dirs_ok_files; [apply HR|done|]. intros p Hp. apply Hkeep. intros ->. by eapply name_not_layout.
  - intros id md x Hm. destruct (fr_block _ _ _ HR _ _ _ Hm) as (H1 & H2 & H3 & H4). split_and!; [done..| |].
    + by rewrite Hkeep by apply block_name_ne.
    + rewrite Hkeep; [done|]. unfold blocks_dir, name_file. by intros E%app_inv_head.
  - intros x y nd. rewrite Hkeep; [apply HR|]. unfold name_file. by intros E%app_inv_head.
  - intros n' Hn'. destruct (decide (n' = n)) as [->|Hnn]; [done|]. rewrite Hkeep, Hother by (done || (intros E%name_file_inj; done)).
    by apply HR.
  - intros n' id Hi ->. destruct (decide (n' = n)) as [->|Hnn]; [done|]. rewrite Hother in Hi by done. by apply (fr_ids _ _ _ HR n' "" Hi).
Qed.

Lemma SetName_ok n id s m names :
  file_rep s m names → n ≠ "" → (id = "" → is_Some (names !! n)) →
  ∃ s', file_SetNameToBlockId n id s = Ok s' ∧ file_rep s' m (spec_name n id names).
Proof.
  intros HR Hn Hid. unfold file_SetNameToBlockId. rewrite (do_dirname _ (fr_dirs _ _ _ HR)).
  destruct (mkdirAll_names s (fr_dirs _ _ _ HR)) as (s1 & -> & HD1 & Hg1 & Hdir). cbn [res_bind].
  pose proof (rep_grown _ _ _ _ HR HD1 Hg1) as HR1. pose proof (fr_names _ _ _ HR1 n Hn) as Hf.
  assert (resolve_path ((dirname +:+ "/names") +:+ "/" +:+ hex n) = name_file n) as Er by (rewrite str_app_assoc; by apply resolve_name).
  assert (name_file n = (base ++ ["names"]) ++ [hex n]) as Es by (unfold name_file; by rewrite <- app_assoc).
  assert (¬ is_dir (files s1) (name_file n)) as Hnd.
  { rewrite Es in *. destruct (names !! n); [by eapply file_not_dir|by apply none_not_dir]. }
  unfold spec_name. destruct (keqb id "") eqn:E.
  - apply keqb_eq in E. destruct (Hid E) as [x Hx]. unfold os_Remove. rewrite Er, Hf, Hx. cbn [fmap option_fmap option_map must res_bind].
    eexists. split; [done|]. apply (rep_names s1 m names _ n); try done; [by apply not_dir_delete|..].
    + intros p Hp. by rewrite lookup_delete_ne.
    + by rewrite !lookup_delete_eq.
    + intros n' Hn'. by rewrite lookup_delete_ne.
    + by rewrite lookup_delete_eq.
  - apply keqb_neq in E. unfold os_WriteFile. rewrite Er, decide_False by done.
    rewrite decide_True by (rewrite Es, removelast_last; by right). cbn [must res_bind]. eexists. split; [done|].
    apply (rep_names s1 m names _ n); try done; [by apply not_dir_insert|..].
    + intros p Hp. by rewrite lookup_insert_ne.
    + by rewrite !lookup_insert_eq.
    + intros n' Hn'. by rewrite lookup_insert_ne.
    + rewrite lookup_insert_eq. congruence.
Qed.

(** *** Histories *)

Inductive file_op : Type :=
| FStore (b : Block)
| FUpdate (b : Block)
| FDelete (b : Block)
| FSetName (name id : string).

Definition run_file_op (op : file_op) (s : fileBackend) : res fileBackend :=
  match op with
  | FStore b => file_StoreBlock b s
  | FUpdate b => let! r := file_UpdateBlock b s in Ok r.2
  | FDelete b => file_DeleteBlock b s
  | FSetName name id => file_SetNameToBlockId name id s
  end.
Fixpoint run_file_ops (ops : list file_op) (s : fileBackend) : res fileBackend :=
  match ops with [] => Ok s | op :: ops' => let! s := run_file_op op s in run_file_ops ops' s end.

Definition spec_file_op (op : file_op) (x : blockmap * gmap string string) : blockmap * gmap string string :=
  match op with
  | FStore b => (<[Id b := (Meta b, default "" (Data b))]> x.1, x.2)
  | FUpdate b => (alter (λ y, (Meta b, y.2)) (Id b) x.1, x.2)
  | FDelete b => (delete (Id b) x.1, x.2)
  | FSetName name id => (x.1, spec_name name id x.2)
  end.
(** What the callers see to: fresh ids for StoreBlock, and for the others blocks whose metadata on disk, kept in
    [Stored], is what was stored. *)
Definition file_accepts (op : file_op) (x : blockmap * gmap string string) : Prop :=
  match op with
  | FStore b => x.1 !! Id b = None ∧ is_Some (Data b) ∧ String.length (Id b) = idlen ∧ meta_range (Meta b)
  | FUpdate b => is_Some (Stored b) ∧ fst <$> x.1 !! Id b = Stored b ∧ meta_range (Meta b)
  | FDelete b => fst <$> x.1 !! Id b = Some (default (Meta b) (Stored b))
  | FSetName name id => name ≠ "" ∧ (id = "" → is_Some (x.2 !! name))
  end.
Fixpoint file_accepted (ops : list file_op) (x : blockmap * gmap string string) : Prop :=
  match ops with [] => True | op :: ops' => file_accepts op x ∧ file_accepted ops' (spec_file_op op x) end.

Lemma run_file_op_ok op s x :
  file_rep s x.1 x.2 → file_accepts op x → ∃ s', run_file_op op s = Ok s' ∧ file_rep s' (spec_file_op op x).1 (spec_file_op op x).2.
Proof.
  intros HR. destruct op as [b|b|b|n id]; cbn [run_file_op spec_file_op file_accepts fst snd].
  - intros (H1 & [d Hd] & H3 & H4). rewrite Hd. by apply StoreBlock_ok.
  - intros ([md Hst] & Hm & Hmd). rewrite Hst in Hm. apply fmap_Some in Hm as ([md' d] & Hm & ->). cbn in Hst.
    destruct (UpdateBlock_ok b s _ _ _ _ HR Hm Hst Hmd) as (s' & -> & HR'). exists s'. split; [done|]. cbn.
    replace (alter _ _ _) with (<[Id b := (Meta b, d)]> x.1); [done|]. apply map_eq. intros i. destruct (decide (i = Id b)) as [->|Hne].
    + by rewrite lookup_insert_eq, lookup_alter_eq, Hm.
    + by rewrite lookup_insert_ne, lookup_alter_ne.
  - intros ([md d] & Hm & E)%fmap_Some. by eapply DeleteBlock_ok.
  - intros [H1 H2]. by apply SetName_ok.
Qed.
Lemma run_file_ops_ok ops s x :
  file_rep s x.1 x.2 → file_accepted ops x →
  ∃ s', run_file_ops ops s = Ok s' ∧ let y := foldl (λ x op, spec_file_op op x) x ops in file_rep s' y.1 y.2.
Proof.
  revert s x. induction ops as [|op ops IH]; intros s x HR; [by exists s|]. intros [Ha Hrest].
  destruct (run_file_op_ok op s x HR Ha) as (s1 & E1 & HR1). cbn [run_file_ops foldl]. rewrite E1. cbn [res_bind]. by apply IH.
Qed.

Lemma new_rep d : is_dir d base → (∀ p, p ≠ [] → d !! (base ++ p) = None) → file_rep (NewFileBackend dirname d) ∅ ∅.
Proof.
  intros Hb Hd. split; cbn [files NewFileBackend].
  - split; cbn [Directory files created NewFileBackend]; [done..| |by intros path ?%elem_of_empty].
    intros p [->|[[x ->]| ->]]; left; by apply Hd.
  - intros id md x []%lookup_empty_Some.
  - intros x n nd. by rewrite Hd.
  - intros n Hn. unfold name_file. by rewrite Hd, lookup_empty.
  - intros n id []%lookup_empty_Some.
Qed.
End contract.

(** ** Properties *)

(** C25: the file backend over a directory that exists and is empty.  Any history of StoreBlock, UpdateBlock,
    DeleteBlock and SetNameToBlockId that respects the interface runs without a panic.  Afterwards GetBlockById finds
    exactly the ids of the history, with the metadata that is read off the file names, GetBlockData returns the data
    stored, and GetBlockIdByName what the names were last set to. *)
Theorem file_backend_history (idlen : nat) (dirname : string) (d : disk) (ops : list file_op) :
  directoryBytes ≤ idlen → is_dir d (resolve_path dirname) → (∀ p, p ≠ [] → d !! (resolve_path dirname ++ p) = None) →
  file_accepted idlen ops (∅, ∅) →
  let y := foldl (λ x op, spec_file_op op x) (∅, ∅) ops in
  ∃ s, run_file_ops ops (NewFileBackend dirname d) = Ok s ∧
    (∀ id, String.length id = idlen →
      file_GetBlockById id s = Ok (match y.1 !! id with Some (md, _) => Some (found_block id md) | None => None end, s)) ∧
    (∀ b md x, y.1 !! Id b = Some (md, x) → default (Meta b) (Stored b) = md → file_GetBlockData b s = Ok (Some x, s)) ∧
    (∀ n, n ≠ "" → file_GetBlockIdByName n s = Ok (default "" (y.2 !! n), s)).
Proof.
  intros Hlen Hb Hd Hacc y. destruct (run_file_ops_ok idlen Hlen dirname ops (NewFileBackend dirname d) (∅, ∅)) as (s & Er & HR);
    [by apply new_rep|done|]. fold y in HR. exists s. split_and!; [done|..].
  - intros id Hid. by eapply GetBlockById_ok.
  - intros b md x Hm Hmd. by eapply GetBlockData_ok.
  - intros n Hn. by eapply GetBlockIdByName_ok.
Qed.

Module FileWitness.
Definition meta (rc : Z) : BlockMetadata := mkMeta rc BS_NORMAL.
Definition block (id data : string) (rc : Z) : Block := with_Meta (meta rc) (with_Data (Some data) (new_Block id)).
Definition home : disk := {[ ["home"] := Dir ]}.
Definition ops : list file_op :=
  [FStore (block "abcd" "one" 1); FStore (block "abce" "two" 1); FSetName "root" "abcd";
   FUpdate (with_Stored (Some (meta 1)) (block "abcd" "" 2)); FSetName "root" "abce"; FSetName "old" "abcd"; FSetName "old" "";
   FDelete (with_Stored (Some (meta 1)) (block "abce" "" 0))].

Lemma file_backend_history_witness :
  ∃ s, run_file_ops ops (NewFileBackend "./home" home) = Ok s ∧
    file_GetBlockById "abcd" s = Ok (Some (found_block "abcd" (meta 2)), s) ∧
    file_GetBlockById "abce" s = Ok (None, s) ∧ file_GetBlockIdByName "root" s = Ok ("abce", s).
Proof.
  destruct (file_backend_history 4 "./home" home ops) as (s & Er & H1 & _ & H3).
  - unfold directoryBytes. lia.
  - right. reflexivity.
  - intros p Hp. change (resolve_path "./home") with ["home"]. unfold home. rewrite lookup_singleton_ne; [done|]. by destruct p.
  - vm_compute. repeat split; try done; by eexists.
  - exists s. split; [exact Er|]. split; [|split].
    + rewrite (H1 "abcd" eq_refl). vm_compute. reflexivity.
    + rewrite (H1 "abce" eq_refl). vm_compute. reflexivity.
    + rewrite (H3 "root") by done. vm_compute. reflexivity.
Defined.

(** filepath.Split keeps the slash, with which the recursion of mkdirAll ends: a missing directory of the backend is
    not made for a block, though it is made for a name. *)
Theorem missing_directory_panics :
  file_StoreBlock (block "abcd" "one" 1) (NewFileBackend "home" ∅) = Panic "log.Panic(err)" ∧
  ∃ s, file_SetNameToBlockId "root" "abcd" (NewFileBackend "home" ∅) = Ok s.
Proof. split; [vm_compute; reflexivity|]. eexists. vm_compute. reflexivity. Qed.

(** A short file name in the directory of a block makes GetBlockById panic. *)
Theorem stray_file_panics :
  file_GetBlockById "abcd" (NewFileBackend "" {[ ["blocks"] := Dir; ["blocks"; "6162"] := Dir; ["blocks"; "6162"; "x"] := File "" ]}) =
  Panic "slice bounds out of range".
Proof. vm_compute. reflexivity. Qed.
End FileWitness.

(** * Construction of backends and storages (src/storage/directory.go, src/storage/factory/factory.go)

    The sizes that backends in a directory report, which are computed again only after some time,
    and NewCryptoStorage, which puts codecs, a backend and the storage together. *)

(** ** Sizes of directories *)

(** [delayedUInt64Value]; times and durations are in nanoseconds.  The mutex is held throughout [Value]. *)
Record delayedUInt64Value : Type := mkDelayed { interval : Z; value : Z; valueTime : Z; status : Z }.

Definition update (v now : Z) (self : delayedUInt64Value) : delayedUInt64Value := mkDelayed (interval self) v now 2.
(** [callback] is what the callback returns when it is called now. *)
Definition Value (callback now : Z) (self : delayedUInt64Value) : Z * delayedUInt64Value :=
  if (status self =? 0)%Z then (let self := update callback now self in (value self, self))
  else if (status self =? 1)%Z || (now <? valueTime self + interval self)%Z then (value self, self)
  else
    let self := mkDelayed (interval self) (value self) (valueTime self) 1 in
    let self := update callback now self in
    (value self, self).

(** The block size and the number of free blocks of statfs, or an error. *)
Definition calculateAvailable (statfs : option (Z * Z)) : Z :=
  match statfs with None => 0 | Some (bsize, bfree) => wrap64 (bsize * bfree) end.
(** The sum of what [filepath.Walk] meets; [dirSize] is what the system says of a directory. *)
Definition node_size (dirSize : Z) (nd : fs_node) : Z := match nd with File b => Z.of_nat (String.length b) | Dir => dirSize end.
Definition calculateUsed (dirSize : Z) (dir : string) (d : disk) : Z :=
  let p := resolve_path dir in
  foldr (λ e s, if decide (p `prefix_of` e.1) then wrap64 (s + node_size dirSize e.2) else s)%Z 0%Z (map_to_list d).

(** The minimal interval is a second. *)
Definition DirectoryBackendBase_Init (ValueUpdateInterval : Z) : delayedUInt64Value :=
  mkDelayed (Z.max ValueUpdateInterval 1000000000) 0 0 0.

Fixpoint ask (sample : Z → Z) (times : list Z) (self : delayedUInt64Value) : list Z :=
  match times with
  | [] => []
  | now :: times' => let r := Value (sample now) now self in r.1 :: ask sample times' r.2
  end.

(** What is known between calls: the value was sampled at its time. *)
Definition sampled (sample : Z → Z) (t : Z) (self : delayedUInt64Value) : Prop :=
  status self = 0%Z ∨ status self = 2%Z ∧ value self = sample (valueTime self) ∧ (valueTime self ≤ t)%Z.

Lemma Value_fresh sample now self :
  sampled sample now self → (0 < interval self)%Z →
  let r := Value (sample now) now self in
  (∃ t', r.1 = sample t' ∧ (t' ≤ now < t' + interval self)%Z) ∧ sampled sample now r.2 ∧ interval r.2 = interval self.
Proof.
  intros Hs Hi. unfold Value. destruct (Z.eqb_spec (status self) 0) as [E|E]; cbn.
  { split_and!; [exists now; split; [done|lia]|right; split_and!; done|done]. }
  destruct Hs as [?|(H1 & H2 & H3)]; [done|]. rewrite H1. cbn.
  destruct (Z.ltb_spec now (valueTime self + interval self)); cbn.
  - split_and!; [exists (valueTime self); split; [done|lia]|right; split_and!; done|done].
  - split_and!; [exists now; split; [done|lia]|right; split_and!; done|done].
Qed.

(** A size that a backend in a directory reports is never older than the interval: asked at non-decreasing times,
    every answer is what the directory had at a time less than the interval before. *)
Theorem directory_sizes_fresh (sample : Z → Z) (updateInterval : Z) (times : list Z) (i : nat) (now v : Z) :
  (∀ j t t', times !! j = Some t → times !! S j = Some t' → (t ≤ t')%Z) →
  times !! i = Some now → ask sample times (DirectoryBackendBase_Init updateInterval) !! i = Some v →
  ∃ t', v = sample t' ∧ (t' ≤ now < t' + Z.max updateInterval 1000000000)%Z.
Proof.
  set (self := DirectoryBackendBase_Init updateInterval).
  assert (∀ t, times !! 0 = Some t → sampled sample t self) as Hs by (intros; by left).
  assert (interval self = Z.max updateInterval 1000000000) as Hi by done. clearbody self.
  revert i self Hs Hi. induction times as [|t times IH]; intros i self Hs Hi Hmono Hnow Hv; [done|]. cbn [ask] in Hv.
  destruct (Value_fresh sample t self) as (Hf & Hs' & Hi'); [by apply Hs|lia|]. destruct i as [|i]; cbn in Hnow, Hv.
  - injection Hnow as ->. injection Hv as <-. by rewrite <- Hi.
  - eapply IH; [..|exact Hnow|exact Hv].
    + intros t' Ht'. pose proof (Hmono 0 t t' eq_refl Ht') as Hle. destruct Hs' as [?|(? & ? & ?)]; [by left|right; split_and!; try done; lia].
    + congruence.
    + intros j a b Ha Hb. by apply (Hmono (S j)).
Qed.
Lemma directory_sizes_fresh_witness :
  ∃ t', 5%Z = (t' / 1000000000)%Z ∧ (t' ≤ 5600000000 < t' + 1000000000)%Z.
Proof.
  apply (directory_sizes_fresh (λ t, t / 1000000000)%Z 0 [5100000000; 5600000000]%Z 1 5600000000 5).
  - intros [|[|j]] t t'; cbn; intros; by simplify_eq.
  - reflexivity.
  - reflexivity.
Defined.

(** ** NewCryptoStorage *)

Record CryptoStorageConfiguration : Type := mkConfig {
  BackendName : string;
  Password : string;
  Salt : string;
  Iterations : Z;
  QueueLength : Z
}.

Section factory.
Context {R : Type} (rand_Read : nat → R → gerr string * R).
Context (emarshal : EncryptedData → gerr string) (eunmarshal : string → gerr EncryptedData).
Context (pbkdf2_Key : string → string → nat → string) (NewGCM : string → gerr AEAD).
Context (snappy zlib : Compressor) (cmarshal : CompressedData → gerr string) (cunmarshal : string → gerr CompressedData).

(** The codec of the configuration: compression, under encryption when there is a password. *)
Definition crypto_codec (config : CryptoStorageConfiguration) : res (Codec R) :=
  let iterations := IOr (Iterations config) [12345%Z] in
  let salt := SOr (Salt config) ["asdf"] in
  let c2 := CompressingCodec snappy zlib cmarshal cunmarshal CompressionType_UNSET in
  if negb (keqb (Password config) "") then
    let! c1 := EncryptingCodec_Init rand_Read emarshal eunmarshal pbkdf2_Key NewGCM (Password config) salt (Z.to_nat iterations) in
    Ok (chain_codec (CodecChain_Init [c1; c2]))
  else Ok (chain_codec (CodecChain_Init [c2])).

(** [new] makes and initialises the backend of the name, with the codec in its configuration; a name that is not
    known panics. *)
Definition NewCryptoStorage {S : Type} (new : string → Codec R → option (Backend S)) (config : CryptoStorageConfiguration) : res (Backend S) :=
  let! c := crypto_codec config in
  match new (BackendName config) c with
  | None => Panic "nil function"
  | Some be =>
      let c := if be_SupportsCodec be then chain_codec (CodecChain_Init []) else c in
      Ok (Storage_Init_Backend be (Some c))
  end.

(** The file backend as the interface; [sizes] are what it says about its directory. *)
Definition file_backend (sizes : fileBackend → Z * Z) : Backend fileBackend :=
  mkBackend (mkBlockBackend file_GetBlockData file_GetBlockById file_DeleteBlock file_StoreBlock file_UpdateBlock)
    Ok file_GetBlockIdByName file_SetNameToBlockId (λ s, Ok ((sizes s).1, s)) (λ s, Ok ((sizes s).2, s)) false.

(** With a password and the file backend, the storage writes the data of blocks as they are: Storage.Init drops the
    codec that NewCryptoStorage made, and the file backend has none. *)
Theorem file_storage_not_encrypted sizes config be bl s :
  NewCryptoStorage (λ _ _, Some (file_backend sizes)) config = Ok be → be_StoreBlock be bl s = file_StoreBlock bl s.
Proof. unfold NewCryptoStorage. destruct (crypto_codec config) as [c| |]; [|done..]. by intros [= <-]. Qed.

(** The key depends on the password only: the salt and the iterations of the configuration are ignored. *)
Theorem salt_is_ignored config config' :
  Password config = Password config' → crypto_codec config = crypto_codec config'.
Proof. unfold crypto_codec, IOr, SOr. cbn. by intros ->. Qed.
End factory.
