(* ===== verification/TreeBackend.v ===== *)
(** * The tree backend: space and blocks (src/storage/tree/tree.go)

    The backend keeps, on one device, blocks of data and the nodes of the tree that
    describes it.  The tree has three parts by key prefix: free space by size and
    offset, free space by offset and size, and block data by id.  This file models
    the allocator, the growth of the device around the superblocks, and the block
    operations.  The tree is used through the interface [TxStore]; transactions of
    ibtree and plain ordered lists provide it. *)
From stdpp Require Import base list sets strings sorting gmap.
From Stdlib Require Import ZArith Lia Ascii.
From S2P Require Import Prelude OrderedMap Util IBNode IBStack IBTree Codec Backend TreeLocation.

(** ** What the backend uses of a tree *)

Class TxStore (T : Type) := {
  tx_Get : string → T → res (option string * T);
  tx_NextKey : string → T → res (option string * T);
  tx_PrevKey : string → T → res (option string * T);
  tx_Set : string → string → T → res T;
  tx_Delete : string → T → res T
}.

(** The ordered list: deleting a missing key panics, as it does in the tree. *)
#[export] Instance list_TxStore : TxStore (list kv) := {
  tx_Get := λ k l, Ok (om_get k l, l);
  tx_NextKey := λ k l, Ok (om_next k l, l);
  tx_PrevKey := λ k l, Ok (om_prev k l, l);
  tx_Set := λ k v l, Ok (om_set k v l);
  tx_Delete := λ k l,
    match om_get k l with
    | Some _ => Ok (om_delete k l)
    | None => Panic "ibp.Delete: Key missing"
    end
}.

(** A transaction of a tree; [fuel] bounds its commits. *)
Definition Transaction_TxStore `{MsgpSizes} (tree : Tree) (fuel : nat) : TxStore Transaction := {|
  tx_Get := tr_Get tree;
  tx_NextKey := tr_NextKey tree;
  tx_PrevKey := tr_PrevKey tree;
  tx_Set := tr_Set tree fuel;
  tx_Delete := tr_Delete tree fuel
|}.

Section store.
Context {T : Type} `{TxStore T}.

(** [SubTree] of such a store, as in ibtree/ibtransaction.go. *)
Definition st_Get (treePrefix key : string) (t : T) : res (option string * T) :=
  tx_Get (addTreePrefix treePrefix key) t.
Definition st_Set (treePrefix key value : string) (t : T) : res T :=
  tx_Set (addTreePrefix treePrefix key) value t.
Definition st_Delete (treePrefix key : string) (t : T) : res T :=
  tx_Delete (addTreePrefix treePrefix key) t.
Definition st_NextKey (treePrefix key : string) (t : T) : res (option string * T) :=
  let! r := tx_NextKey (addTreePrefix treePrefix key) t in
  let! k := stripTreePrefix treePrefix r.1 in
  Ok (k, r.2).
Definition st_PrevKey (treePrefix key : string) (t : T) : res (option string * T) :=
  let! r := tx_PrevKey (addTreePrefix treePrefix key) t in
  let! k := stripTreePrefix treePrefix r.1 in
  Ok (k, r.2).

End store.

Definition freeSize2OffsetTree : string := "s".
Definition freeOffset2SizeTree : string := "o".
Definition blockTree : string := "b".

(** ** State *)

Record BlockData : Type := mkBlockData { bd_Meta : BlockMetadata; bd_Location : LocationSlice }.

(** A nil slice is [None] where the code looks. *)
Record Superblock : Type := mkSB {
  Generation : Z;
  BytesUsed : Z;
  BytesTotal : Z;
  RootLocation : LocationSlice;
  Pending : list OpEntry;
  PendingLocation : option LocationSlice
}.

(** The fields of [treeBackend] this file uses: the transaction, the device, the random
    source of the codec. *)
Record treeBackend (T R : Type) : Type := mkTB {
  sb : Superblock;
  t : T;
  p : inMemoryFile;
  flushing : bool;
  rnd : R
}.
Arguments mkTB {T R} _ _ _ _ _.
Arguments sb {T R} _.
Arguments t {T R} _.
Arguments p {T R} _.
Arguments flushing {T R} _.
Arguments rnd {T R} _.

Definition sb_BytesUsed (f : Z → Z) (s : Superblock) : Superblock :=
  mkSB (Generation s) (f (BytesUsed s)) (BytesTotal s) (RootLocation s) (Pending s) (PendingLocation s).
Definition sb_BytesTotal (f : Z → Z) (s : Superblock) : Superblock :=
  mkSB (Generation s) (BytesUsed s) (f (BytesTotal s)) (RootLocation s) (Pending s) (PendingLocation s).
Definition sb_Pending (f : list OpEntry → list OpEntry) (s : Superblock) : Superblock :=
  mkSB (Generation s) (BytesUsed s) (BytesTotal s) (RootLocation s) (f (Pending s)) (PendingLocation s).

Section code.
Context {T R : Type} `{TxStore T}.

Abbreviation backend := (treeBackend T R).

Definition upd_sb (f : Superblock → Superblock) (self : backend) : backend :=
  mkTB (f (sb self)) (t self) (p self) (flushing self) (rnd self).
Definition set_t (v : T) (self : backend) : backend :=
  mkTB (sb self) v (p self) (flushing self) (rnd self).
Definition set_p (v : inMemoryFile) (self : backend) : backend :=
  mkTB (sb self) (t self) v (flushing self) (rnd self).
Definition set_rnd (v : R) (self : backend) : backend :=
  mkTB (sb self) (t self) (p self) (flushing self) v.

(** [self.BytesUsed += n] and the like, on 64 bits. *)
Definition add_used (n : Z) : backend → backend := upd_sb (sb_BytesUsed (λ u, wrap64 (u + n))).
Definition add_total (n : Z) : backend → backend := upd_sb (sb_BytesTotal (λ u, wrap64 (u + n))).

(** ** Free space *)

Definition appendOp (le : LocationEntry) (free : bool) (self : backend) : backend :=
  upd_sb (sb_Pending (λ l, l ++ [mkOpEntry le free])) self.

Definition addFreeTree (le : LocationEntry) (self : backend) : res backend :=
  let! x := st_Set freeSize2OffsetTree (ToKeySO le) "" (t self) in
  let! x := st_Set freeOffset2SizeTree (ToKeyOS le) "" x in
  Ok (set_t x self).

Definition addFree (le : LocationEntry) (self : backend) : res backend :=
  let self := if flushing self then appendOp le true self else self in
  let self := add_used (- BlockSize le) self in
  addFreeTree le self.

Definition removeFreeTree (le : LocationEntry) (self : backend) : res backend :=
  let! x := st_Delete freeSize2OffsetTree (ToKeySO le) (t self) in
  let! x := st_Delete freeOffset2SizeTree (ToKeyOS le) x in
  Ok (set_t x self).

Definition removeFree (le : LocationEntry) (self : backend) : res backend :=
  let self := if flushing self then appendOp le false self else self in
  let self := add_used (BlockSize le) self in
  removeFreeTree le self.

Fixpoint freeSlice (ls : LocationSlice) (self : backend) : res backend :=
  match ls with
  | [] => Ok self
  | le :: ls' => let! self := addFree le self in freeSlice ls' self
  end.

(** ** Superblocks and growth *)

Fixpoint superBlockOffset_loop (i : nat) (ofs : Z) : Z :=
  match i with
  | O => ofs
  | S i' => superBlockOffset_loop i' (wrap64 (ofs * 16))
  end.
Definition superBlockOffset (i : nat) : Z :=
  match i with
  | O => 0
  | S i' => superBlockOffset_loop i' (1024 * 1024)
  end.

Fixpoint count_loop (fuel : nat) (s : Z) (i : nat) : res nat :=
  match fuel with
  | O => NoFuel
  | S fuel' => if (superBlockOffset i <=? s)%Z then count_loop fuel' s (S i) else Ok i
  end.
(** The offsets stay below 2^64 up to index 11, so 12 turns are enough for every
    [s] below 2^60; past that the loop of the code does not end. *)
Definition calculateNumberOfSuperBlocks (s : Z) : res nat :=
  if (s =? 0)%Z then Ok 0 else count_loop 12 s 1.

Definition numberOfSuperBlocks (self : backend) : res nat :=
  calculateNumberOfSuperBlocks (BytesTotal (sb self)).

Fixpoint grow (fuel : nat) (asize : Z) (self : backend) : res (bool * backend) :=
  match fuel with
  | O => NoFuel
  | S fuel' =>
      let! oldsbs := numberOfSuperBlocks self in
      let nsize := wrap64 (BytesTotal (sb self) + asize) in
      let! newsbs := calculateNumberOfSuperBlocks nsize in
      if oldsbs =? newsbs then
        let self := add_used asize self in
        let! self := addFree (mkLE (BytesTotal (sb self)) asize) self in
        Ok (true, add_total asize self)
      else
        let ofs := superBlockOffset oldsbs in
        let! self :=
          if (BytesTotal (sb self) <? ofs)%Z then
            let ssize := wrap64 (ofs - BytesTotal (sb self)) in
            let! self := addFree (mkLE (BytesTotal (sb self)) ssize) self in
            Ok (add_total ssize (add_used ssize self))
          else Ok self in
        let self := add_used superBlockSize (add_total superBlockSize self) in
        grow fuel' asize self
  end.

(** Every turn of [grow] adds a superblock, and there are at most 11. *)
Definition grow_fuel : nat := 13.

(** ** Allocation *)

(** The loop of [allocateSlice]; [None] is the nil slice of a failure. *)
Fixpoint allocate_loop (fuel : nat) (size : Z) (sl : LocationSlice) (self : backend)
  : res (option LocationSlice * backend) :=
  match fuel with
  | O => NoFuel
  | S fuel' =>
      if (size <=? 0)%Z then Ok (Some sl, self)
      else
        let want := mkLE 0 size in
        let bsize := BlockSize want in
        let wantkey := ToKeySO want in
        let! r := st_NextKey freeSize2OffsetTree wantkey (t self) in
        let self := set_t r.2 self in
        match r.1 with
        | Some kp =>
            let! le := NewLocationEntryFromKeySO kp in
            let! self := removeFree le self in
            let left := wrap64 (Size le - bsize) in
            let! self :=
              if (0 <? left)%Z then addFree (mkLE (wrap64 (Offset le + bsize)) left) self else Ok self in
            Ok (Some (sl ++ [mkLE (Offset le) size]), self)
        | None =>
            let! g := grow grow_fuel bsize self in
            let self := g.2 in
            if g.1 then allocate_loop fuel' size sl self
            else
              let! r := st_PrevKey freeSize2OffsetTree wantkey (t self) in
              let self := set_t r.2 self in
              match r.1 with
              | Some kp =>
                  let! le := NewLocationEntryFromKeySO kp in
                  let! self := removeFree le self in
                  allocate_loop fuel' (wrap64 (size - Size le)) (sl ++ [le]) self
              | None => let! self := freeSlice sl self in Ok (None, self)
              end
        end
  end.

(** One turn looks and grows, the next finds what was added. *)
Definition allocateSlice (size : Z) (self : backend) : res (option LocationSlice * backend) :=
  allocate_loop 3 size [] self.

(** The pending log, applied to the tree. *)
Fixpoint flush_ops (ops : list OpEntry) (self : backend) : res backend :=
  match ops with
  | [] => Ok self
  | op :: ops' =>
      let! self :=
        if op_Free op then addFreeTree (op_Location op) self else removeFreeTree (op_Location op) self in
      flush_ops ops' self
  end.

Definition flushPending (self : backend) : res backend :=
  let! self := flush_ops (Pending (sb self)) self in
  Ok (upd_sb (sb_Pending (λ _, [])) self).

(** ** Blocks *)

Context (codec : Codec R).
(** The generated msgp code of [BlockData]. *)
Context (marshal : BlockData → gerr string) (unmarshal : string → gerr BlockData).

(** [ReadData]: a decoding error gives nil. *)
Definition ReadData (location : LocationSlice) (self : backend) : res (option string) :=
  let! b := file_ReadData (p self) location in
  match DecodeBytes codec b "" with
  | inl _ => Ok None
  | inr b => Ok (Some b)
  end.

(** [LocationSlice] that may be nil, as the callers pass it on. *)
Definition WriteData (location : option LocationSlice) (data : string) (self : backend) : res backend :=
  let! f := file_WriteData (p self) (default [] location) data in
  Ok (set_p f self).

Definition getBlockData (id : string) (self : backend) : res (option BlockData * backend) :=
  let! r := st_Get blockTree id (t self) in
  let self := set_t r.2 self in
  match r.1 with
  | None => Ok (None, self)
  | Some bv =>
      match unmarshal bv with
      | inl err => Panic "Unable to read"
      | inr bd => Ok (Some bd, self)
      end
  end.

Definition setBlockData (id : string) (bdata : BlockData) (self : backend) : res backend :=
  match marshal bdata with
  | inl err => Panic err
  | inr b => let! x := st_Set blockTree id b (t self) in Ok (set_t x self)
  end.

Definition tree_DeleteBlock (b : Block) (self : backend) : res backend :=
  let! r := getBlockData (Id b) self in
  match r.1 with
  | None => Panic "Nonexistent DeleteBlock"
  | Some bd =>
      let! self := freeSlice (bd_Location bd) r.2 in
      let! x := st_Delete blockTree (Id b) (t self) in
      Ok (set_t x self)
  end.

Definition tree_GetBlockData (b : Block) (self : backend) : res (option string * backend) :=
  let! r := getBlockData (Id b) self in
  match r.1 with
  | None => Ok (None, r.2)
  | Some bd => let! d := ReadData (bd_Location bd) r.2 in Ok (d, r.2)
  end.

Definition tree_GetBlockById (id : string) (self : backend) : res (option Block * backend) :=
  let! r := getBlockData id self in
  match r.1 with
  | None => Ok (None, r.2)
  | Some bd => Ok (Some (with_Meta (bd_Meta bd) (with_hasBackend true (new_Block id))), r.2)
  end.

Definition tree_StoreBlock (bl : Block) (self : backend) : res backend :=
  let! b := deref (Data bl) in
  match EncodeBytes codec b "" (rnd self) with
  | (inl err, _) => Panic err
  | (inr b, rnd') =>
      let! r := allocateSlice (Z.of_nat (String.length b)) (set_rnd rnd' self) in
      let! self := WriteData r.1 b r.2 in
      setBlockData (Id bl) (mkBlockData (Meta bl) (default [] r.1)) self
  end.

(** An unknown id is a nil dereference. *)
Definition tree_UpdateBlock (bl : Block) (self : backend) : res (Z * backend) :=
  let! r := getBlockData (Id bl) self in
  let! bd := deref r.1 in
  let! self := setBlockData (Id bl) (mkBlockData (Meta bl) (bd_Location bd)) r.2 in
  Ok (1%Z, self).

Definition tree_GetBytesUsed (self : backend) : res (Z * backend) := Ok (BytesUsed (sb self), self).

(** [available] is what the directory of the backend has left. *)
Definition tree_GetBytesAvailable (available : Z) (self : backend) : res (Z * backend) :=
  Ok (wrap64 (available + BytesTotal (sb self) - BytesUsed (sb self)), self).

Definition tree_Supports : bool := true.

End code.
