(* ===== verification/TreeStore.v ===== *)
(** * The stores under the tree backend

    [TxStoreOk] states what the backend relies on: the store is a finite map from keys
    to values, with the neighbours of a key in byte order.  Ordered lists, which
    the transactions of ibtree refine, satisfy it.  The lemmas about subtrees carry the
    laws over to the part of the keys with a given prefix. *)
From stdpp Require Import base list sets strings sorting gmap.
From Stdlib Require Import ZArith Lia Ascii.
From S2P Require Import Prelude OrderedMap Util IBNode IBStack IBTree Codec Backend TreeLocation TreeBackend.

Abbreviation smap := (gmap string string).

(** [r] is the first key of [m] after [k]. *)
Definition is_next (k : string) (m : smap) (r : option string) : Prop :=
  match r with
  | Some k' => is_Some (m !! k') ∧ klt k k' ∧ ∀ k2, is_Some (m !! k2) → klt k k2 → k2 = k' ∨ klt k' k2
  | None => ∀ k2, is_Some (m !! k2) → ¬ klt k k2
  end.

Class TxStoreOk (T : Type) `{TxStore T} := {
  tx_rep : T → smap → Prop;
  tx_Get_ok : ∀ k t m, tx_rep t m → ∃ t', tx_Get k t = Ok (m !! k, t') ∧ tx_rep t' m;
  tx_Set_ok : ∀ k v t m, tx_rep t m → ∃ t', tx_Set k v t = Ok t' ∧ tx_rep t' (<[k := v]> m);
  tx_Delete_ok : ∀ k t m, tx_rep t m → is_Some (m !! k) →
    ∃ t', tx_Delete k t = Ok t' ∧ tx_rep t' (delete k m);
  tx_NextKey_ok : ∀ k t m, tx_rep t m → ∃ r t', tx_NextKey k t = Ok (r, t') ∧ tx_rep t' m ∧ is_next k m r
}.

(** ** Ordered lists *)

Definition list_rep (l : list kv) (m : smap) : Prop := sorted_kvs l ∧ ∀ k, om_get k l = m !! k.

Lemma om_next_is_next k l m : list_rep l m → is_next k m (om_next k l).
Proof.
  intros [Hs Hm]. unfold om_next.
  assert (∀ k2, is_Some (m !! k2) → klt k k2 → ∃ v, (k2, v) ∈ above k l) as Habove.
  { intros k2 [v Hv] Hk. exists v. rewrite <- Hm in Hv. apply om_get_Some in Hv; [|done].
    by apply filter_elem_of. }
  destruct (above k l) as [|[k' v'] l'] eqn:E; simpl.
  - intros k2 Hk2 Hlt. destruct (Habove k2 Hk2 Hlt) as [v Hv]. set_solver.
  - assert ((k', v') ∈ above k l) as [Hin Hlt]%filter_elem_of by (rewrite E; set_solver).
    split_and!; [|done|].
    + rewrite <- Hm. exists v'. by apply om_get_Some.
    + intros k2 Hk2 Hlt2. destruct (Habove k2 Hk2 Hlt2) as [v Hv].
      pose proof (sorted_above k l Hs) as Hsa. rewrite E in Hsa. apply sorted_kvs_cons in Hsa as [Hgt _].
      apply elem_of_cons in Hv as [[= -> ->]|Hv]; [by left|]. right. exact (Hgt _ Hv).
Qed.

#[export] Program Instance list_TxStoreOk : TxStoreOk (list kv) := {| tx_rep := list_rep |}.
Next Obligation. intros k l m [Hs Hm]. exists l. simpl. rewrite Hm. done. Qed.
Next Obligation.
  intros k v l m [Hs Hm]. eexists. split; [done|]. split; [by apply om_set_sorted|]. intros k'.
  destruct (decide (k = k')) as [->|Hne].
  - by rewrite om_get_set_eq, lookup_insert_eq.
  - by rewrite om_get_set_ne, lookup_insert_ne.
Qed.
Next Obligation.
  intros k l m [Hs Hm] [v Hv]. simpl. rewrite Hm, Hv. eexists. split; [done|].
  split; [by apply om_delete_sorted|]. intros k'. destruct (decide (k = k')) as [->|Hne].
  - by rewrite om_get_delete_eq, lookup_delete_eq.
  - by rewrite om_get_delete_ne, lookup_delete_ne.
Qed.
Next Obligation. intros k l m Hl. eexists _, l. split_and!; [done..|by apply om_next_is_next]. Qed.

Lemma list_rep_nil : list_rep [] ∅.
Proof. split; [constructor|]. intros k. done. Qed.

(** ** Subtrees *)

(** The part of a store under a one-letter prefix. *)
Definition pre (c : ascii) (k : string) : string := String c k.

#[export] Instance pre_inj c : Inj (=) (=) (pre c).
Proof. by intros x y [= ->]. Qed.

Lemma klt_pre c a b : klt (pre c a) (pre c b) ↔ klt a b.
Proof. unfold klt, pre. by rewrite kltb_cons, Z.ltb_irrefl, Z.eqb_refl. Qed.

(** What lies between two keys with a prefix has the prefix. *)
Lemma klt_between c a b k : klt (pre c a) k → klt k (pre c b) → ∃ k', k = pre c k'.
Proof.
  unfold klt, pre. destruct k as [|x k]; [done|]. rewrite !kltb_cons, !orb_true_iff, !andb_true_iff,
    !Z.ltb_lt, !Z.eqb_eq. intros H1 H2. assert (chr_byte c = chr_byte x) as E by lia.
  exists k. f_equal. unfold chr_byte in E. apply (inj Z.of_N) in E.
  by rewrite <- (ascii_N_embedding c), <- (ascii_N_embedding x), E.
Qed.

Section sub.
Context {T : Type} `{TxStoreOk T}.

Lemma st_Get_ok c k t m :
  tx_rep t m → ∃ t', st_Get (String c "") k t = Ok (m !! pre c k, t') ∧ tx_rep t' m.
Proof. apply tx_Get_ok. Qed.
Lemma st_Set_ok c k v t m :
  tx_rep t m → ∃ t', st_Set (String c "") k v t = Ok t' ∧ tx_rep t' (<[pre c k := v]> m).
Proof. apply tx_Set_ok. Qed.
Lemma st_Delete_ok c k t m :
  tx_rep t m → is_Some (m !! pre c k) →
  ∃ t', st_Delete (String c "") k t = Ok t' ∧ tx_rep t' (delete (pre c k) m).
Proof. apply tx_Delete_ok. Qed.

Lemma strip_pre c k : stripTreePrefix (String c "") (Some (pre c k)) = Ok (Some k).
Proof.
  unfold stripTreePrefix, pre. cbn [String.length]. simpl.
  replace (String.substring 0 0 k) with "" by (by destruct k). unfold keqb. simpl. rewrite Ascii.eqb_refl.
  simpl. by rewrite Nat.sub_0_r, substring_all.
Qed.

Lemma st_NextKey_ok c k t m :
  tx_rep t m →
  ∃ r t', st_NextKey (String c "") k t = Ok (r, t') ∧ tx_rep t' m ∧
    match r with
    | Some k' => is_Some (m !! pre c k') ∧ klt k k' ∧
        ∀ k2, is_Some (m !! pre c k2) → klt k k2 → k2 = k' ∨ klt k' k2
    | None => ∀ k2, is_Some (m !! pre c k2) → ¬ klt k k2
    end.
Proof.
  intros Ht. unfold st_NextKey. change (addTreePrefix (String c "") k) with (pre c k).
  destruct (tx_NextKey_ok (pre c k) t m Ht) as (r & t' & E & Ht' & Hn). rewrite E. cbn [res_bind fst snd].
  destruct r as [k'|]; simpl in Hn.
  - destruct Hn as (Hk' & Hlt & Hleast).
    assert ((∃ k0, k' = pre c k0) ∨ (∀ k0, k' ≠ pre c k0)) as [[k0 ->]|Hno].
    { destruct k' as [|x k']; [by right|]. destruct (decide (x = c)) as [->|]; [left; by exists k'|right].
      intros k0 [= -> ->]. done. }
    + rewrite strip_pre. simpl. exists (Some k0), t'. split_and!; [done..|by eapply klt_pre|].
      intros k2 Hk2 Hl. destruct (Hleast _ Hk2) as [E2|Hl2]; [by apply klt_pre|left; by apply (inj (pre c))|].
      right. by eapply klt_pre.
    + exists None, t'. split_and!; [|done|].
      * destruct k' as [|x k']; [done|]. unfold stripTreePrefix. simpl.
        replace (String.substring 0 0 k') with "" by (by destruct k').
        unfold keqb. simpl. destruct (Ascii.eqb_spec x c) as [->|]; [|done]. by destruct (Hno k').
      * intros k2 Hk2 Hl. destruct (Hleast _ Hk2) as [E2|Hl2]; [by apply klt_pre|by eapply Hno|].
        destruct (klt_between _ _ _ _ Hlt Hl2) as [k0 ->]. by eapply Hno.
  - exists None, t'. split_and!; [done..|]. intros k2 Hk2 Hl. eapply Hn; [done|]. by apply klt_pre.
Qed.

End sub.
