(* ===== verification/TreeAlloc.v ===== *)
(** * The allocator of the tree backend is sound

    The device is described by a map of extents: every byte below [BytesTotal] belongs
    to one free, used or superblock extent.  The free trees hold exactly the free
    extents, [BytesUsed] counts the others, and every operation of the allocator moves
    from one such description to the next.  [grow] and [allocateSlice] terminate
    within the fuel of their models and never fail while the device stays below 2^60
    bytes. *)
From stdpp Require Import base list sets strings sorting gmap.
From Stdlib Require Import ZArith Lia Ascii.
From S2P Require Import Prelude OrderedMap Util IBNode IBStack IBTree Codec Backend TreeLocation TreeBackend TreeStore.

(** ** Extents *)

Inductive kind : Type := Free | Used | Super.
#[export] Instance kind_eq_dec : EqDecision kind.
Proof. solve_decision. Defined.

Abbreviation extents := (gmap Z (Z * kind)).

Definition not_free (k : kind) : bool := match k with Free => false | _ => true end.
Definition any_kind (k : kind) : bool := true.

(** The bytes of the extents of the chosen kinds. *)
Definition weight (f : kind → bool) (x : Z * kind) : Z := if f x.2 then x.1 else 0%Z.
Definition ext_sum (f : kind → bool) (E : extents) : Z :=
  map_fold (λ _ x acc, (weight f x + acc)%Z) 0%Z E.

Lemma ext_sum_empty f : ext_sum f ∅ = 0%Z.
Proof. apply map_fold_empty. Qed.
Lemma ext_sum_new f E o x : E !! o = None → ext_sum f (<[o := x]> E) = (weight f x + ext_sum f E)%Z.
Proof. intros H. unfold ext_sum. rewrite map_fold_insert_L; [done|lia|done]. Qed.
Lemma ext_sum_update f E o x y :
  E !! o = Some y → ext_sum f (<[o := x]> E) = (weight f x - weight f y + ext_sum f E)%Z.
Proof.
  intros H. rewrite <- (insert_delete_id E o y H) at 2. rewrite <- insert_delete_eq.
  rewrite !ext_sum_new by apply lookup_delete_eq. lia.
Qed.

(** The number of superblocks, as the code counts them. *)
Definition sb_count (total : Z) (n : nat) : Prop := calculateNumberOfSuperBlocks total = Ok n.

Record ext_ok (E : extents) (total : Z) : Prop := {
  eo_in : ∀ o s k, E !! o = Some (s, k) →
    (0 ≤ o ∧ 0 < s ∧ o mod 512 = 0 ∧ s mod 512 = 0 ∧ o + s ≤ total)%Z;
  eo_disjoint : ∀ o s k o' s' k', E !! o = Some (s, k) → E !! o' = Some (s', k') → o ≠ o' →
    (o + s ≤ o' ∨ o' + s' ≤ o)%Z;
  eo_total : ext_sum any_kind E = total
}.

Lemma ext_sum_bounds E total : ext_ok E total → (0 ≤ ext_sum not_free E ≤ total)%Z.
Proof.
  intros HE. rewrite <- (eo_total _ _ HE).
  assert (∀ o x, E !! o = Some x → (0 ≤ x.1)%Z) as Hpos.
  { intros o [s k] Hx. apply (eo_in _ _ HE) in Hx. simpl. lia. }
  clear HE. revert Hpos. induction E as [|o x E Hn IH] using map_ind; intros Hpos.
  - rewrite !ext_sum_empty. lia.
  - rewrite !ext_sum_new by done.
    assert (0 ≤ weight not_free x ≤ weight any_kind x)%Z.
    { pose proof (Hpos o x (lookup_insert_eq _ _ _)). unfold weight, any_kind. destruct (not_free x.2); lia. }
    destruct IH as [H1 H2].
    { intros o' x' Hx'. eapply (Hpos o'). rewrite lookup_insert_ne; [done|congruence]. }
    lia.
Qed.

(** ** The free trees *)

Definition keySO (o s : Z) : string := ToKeySO (mkLE o s).
Definition keyOS (o s : Z) : string := ToKeyOS (mkLE o s).

Definition free_part (c : ascii) (key : Z → Z → string) (E : extents) (m : smap) : Prop :=
  ∀ k v, m !! pre c k = Some v ↔ v = "" ∧ ∃ o s, E !! o = Some (s, Free) ∧ k = key o s.

Definition tree_free (E : extents) (m : smap) : Prop :=
  free_part "s" keySO E m ∧ free_part "o" keyOS E m.

(** The extents are small enough for the keys to be exact. *)
Definition ext_small (E : extents) : Prop :=
  ∀ o s k, E !! o = Some (s, k) → (0 ≤ o ∧ 0 < s ∧ s mod 512 = 0 ∧ o + s < 2 ^ 62)%Z.

Lemma ext_ok_small E total : ext_ok E total → (total < 2 ^ 62)%Z → ext_small E.
Proof. intros HE Ht o s k Hx. apply (eo_in _ _ HE) in Hx. lia. Qed.

Lemma keySO_inj o s o' s' :
  (0 ≤ o < 2 ^ 62)%Z → (0 ≤ s < 2 ^ 62)%Z → (0 ≤ o' < 2 ^ 62)%Z → (0 ≤ s' < 2 ^ 62)%Z →
  (s mod 512 = 0)%Z → (s' mod 512 = 0)%Z → keySO o s = keySO o' s' → o = o' ∧ s = s'.
Proof.
  intros Ho Hs Ho' Hs' Hm Hm' E.
  destruct (ToKeySO_inj (mkLE o s) (mkLE o' s')) as [E1 E2]; rewrite ?BlockSize_aligned in * by done;
    cbn [Offset] in *; unfold in_uint64; lia || done.
Qed.
Lemma keyOS_inj o s o' s' :
  (0 ≤ o < 2 ^ 62)%Z → (0 ≤ s < 2 ^ 62)%Z → (0 ≤ o' < 2 ^ 62)%Z → (0 ≤ s' < 2 ^ 62)%Z →
  (s mod 512 = 0)%Z → (s' mod 512 = 0)%Z → keyOS o s = keyOS o' s' → o = o' ∧ s = s'.
Proof.
  intros Ho Hs Ho' Hs' Hm Hm' E.
  destruct (ToKeyOS_inj (mkLE o s) (mkLE o' s')) as [E1 E2]; rewrite ?BlockSize_aligned in * by done;
    cbn [Offset] in *; unfold in_uint64; lia || done.
Qed.

Definition is_free (x : option (Z * kind)) : Prop := match x with Some (_, Free) => True | _ => False end.

Lemma free_part_other c c' key E m k v :
  c ≠ c' → free_part c key E m → free_part c key E (<[pre c' k := v]> m).
Proof. intros Hc HF k2 v2. rewrite lookup_insert_ne; [apply HF|]. intros [= ? ?]. done. Qed.
Lemma free_part_other_del c c' key E m k :
  c ≠ c' → free_part c key E m → free_part c key E (delete (pre c' k) m).
Proof. intros Hc HF k2 v2. rewrite lookup_delete_ne; [apply HF|]. intros [= ? ?]. done. Qed.

Lemma free_part_add c key E m o s :
  free_part c key E m → ¬ is_free (E !! o) → free_part c key (<[o := (s, Free)]> E) (<[pre c (key o s) := ""]> m).
Proof.
  intros HF Hn k v. destruct (decide (k = key o s)) as [->|Hne].
  - rewrite lookup_insert_eq. split.
    + intros [= <-]. split; [done|]. exists o, s. by rewrite lookup_insert_eq.
    + by intros [-> _].
  - rewrite lookup_insert_ne by (intros [= ?]; done). rewrite (HF k v). split.
    + intros (-> & o' & s' & Ho' & ->). split; [done|]. exists o', s'. split; [|done].
      rewrite lookup_insert_ne; [done|]. intros ->. apply Hn. by rewrite Ho'.
    + intros (-> & o' & s' & Ho' & ->). split; [done|]. exists o', s'. split; [|done].
      apply lookup_insert_Some in Ho' as [[<- [= <-]]|[_ Ho']]; done.
Qed.

Lemma free_part_remove c key E m o s k :
  (∀ o' s', E !! o' = Some (s', Free) → key o s = key o' s' → o = o') → not_free k = true →
  free_part c key E m → E !! o = Some (s, Free) →
  free_part c key (<[o := (s, k)]> E) (delete (pre c (key o s)) m).
Proof.
  intros Hinj Hk HF Ho k2 v. destruct (decide (k2 = key o s)) as [->|Hne].
  - rewrite lookup_delete_eq. split; [done|]. intros (_ & o' & s' & Ho' & E').
    apply lookup_insert_Some in Ho' as [[<- [= <- ->]]|[Hne Ho']]; [done|].
    exfalso. by apply Hne, (Hinj o' s').
  - rewrite lookup_delete_ne by (intros [= ?]; done). rewrite (HF k2 v). split.
    + intros (-> & o' & s' & Ho' & ->). split; [done|]. exists o', s'. split; [|done].
      rewrite lookup_insert_ne; [done|]. intros ->. rewrite Ho in Ho'. by injection Ho' as <-.
    + intros (-> & o' & s' & Ho' & ->). split; [done|]. exists o', s'. split; [|done].
      apply lookup_insert_Some in Ho' as [[<- [= <- ->]]|[_ Ho']]; done.
Qed.

(** ** Steps of the allocator on the store *)

(** What an entry of the pending log does to the free trees. *)
Definition replay_op (op : OpEntry) (m : smap) : smap :=
  let le := op_Location op in
  if op_Free op
  then <[pre "o" (ToKeyOS le) := ""]> (<[pre "s" (ToKeySO le) := ""]> m)
  else delete (pre "o" (ToKeyOS le)) (delete (pre "s" (ToKeySO le)) m).
Definition replay (ops : list OpEntry) (m : smap) : smap := fold_left (λ m op, replay_op op m) ops m.

(** The removals of the log find their entries. *)
Fixpoint replayable (ops : list OpEntry) (m : smap) : Prop :=
  match ops with
  | [] => True
  | op :: ops' =>
      (op_Free op = false →
       is_Some (m !! pre "s" (ToKeySO (op_Location op))) ∧ is_Some (m !! pre "o" (ToKeyOS (op_Location op)))) ∧
      replayable ops' (replay_op op m)
  end.

Lemma replayable_app ops ops' m : replayable ops m → replayable ops' (replay ops m) → replayable (ops ++ ops') m.
Proof.
  revert m. induction ops as [|op ops IH]; intros m; [done|]. intros [H1 H2] H3. split; [done|]. by apply IH.
Qed.

Lemma replay_block ops m id : replay ops m !! pre "b" id = m !! pre "b" id.
Proof.
  revert m. induction ops as [|op ops IH]; intros m; [done|]. simpl. unfold replay in IH. rewrite IH.
  unfold replay_op. destruct (op_Free op).
  - by rewrite !lookup_insert_ne by done.
  - by rewrite !lookup_delete_ne by done.
Qed.

Lemma ToKeySO_key le : (BlockSize le mod 512 = 0)%Z → ToKeySO le = keySO (Offset le) (BlockSize le).
Proof. intros H. unfold keySO. by rewrite !ToKeySO_eq, BlockSize_aligned. Qed.
Lemma ToKeyOS_key le : (BlockSize le mod 512 = 0)%Z → ToKeyOS le = keyOS (Offset le) (BlockSize le).
Proof. intros H. unfold keyOS. by rewrite !ToKeyOS_eq, BlockSize_aligned. Qed.

Lemma tree_free_add E m le :
  tree_free E m → ¬ is_free (E !! Offset le) → (BlockSize le mod 512 = 0)%Z →
  tree_free (<[Offset le := (BlockSize le, Free)]> E) (replay_op (mkOpEntry le true) m).
Proof.
  intros [HS HO] Hn Ha. unfold replay_op. simpl. rewrite ToKeySO_key, ToKeyOS_key by done. split.
  - apply free_part_other; [done|]. by apply free_part_add.
  - apply free_part_add; [|done]. by apply free_part_other.
Qed.

Lemma tree_free_remove E m le k :
  ext_small E → not_free k = true → tree_free E m → (BlockSize le mod 512 = 0)%Z →
  E !! Offset le = Some (BlockSize le, Free) →
  tree_free (<[Offset le := (BlockSize le, k)]> E) (replay_op (mkOpEntry le false) m).
Proof.
  intros Hsm Hk [HS HO] Ha Hle. unfold replay_op. simpl. rewrite ToKeySO_key, ToKeyOS_key by done.
  pose proof (Hsm _ _ _ Hle) as Hb. split.
  - apply free_part_other_del; [done|]. apply free_part_remove; [|done..].
    intros o' s' Ho' Ek. apply (Hsm o' s') in Ho'. apply keySO_inj in Ek; lia.
  - apply free_part_remove; [|done| |done].
    + intros o' s' Ho' Ek. apply (Hsm o' s') in Ho'. apply keyOS_inj in Ek; lia.
    + by apply free_part_other_del.
Qed.

Section alloc.
Context {T R : Type} `{TxStoreOk T}.
Abbreviation backend := (treeBackend T R).

(** What the steps of the allocator leave alone, and the log they keep while the
    backend flushes. *)
Definition trans (self : backend) (m : smap) (self' : backend) (m' : smap) : Prop :=
  (p self' = p self ∧ flushing self' = flushing self ∧ rnd self' = rnd self ∧
   Generation (sb self') = Generation (sb self) ∧ RootLocation (sb self') = RootLocation (sb self) ∧
   PendingLocation (sb self') = PendingLocation (sb self)) ∧
  ∃ ops, Pending (sb self') = Pending (sb self) ++ (if flushing self then ops else []) ∧ m' = replay ops m ∧
    replayable ops m.

Lemma trans_refl self self' m :
  p self' = p self → flushing self' = flushing self → rnd self' = rnd self →
  Generation (sb self') = Generation (sb self) → RootLocation (sb self') = RootLocation (sb self) →
  PendingLocation (sb self') = PendingLocation (sb self) → Pending (sb self') = Pending (sb self) →
  trans self m self' m.
Proof.
  intros. split; [done|]. exists []. split_and!; [|done..]. destruct (flushing self); by rewrite app_nil_r.
Qed.

Lemma trans_trans s1 m1 s2 m2 s3 m3 : trans s1 m1 s2 m2 → trans s2 m2 s3 m3 → trans s1 m1 s3 m3.
Proof.
  intros [(Hp & Hf & Hr & Hg & Hl & Hq) (ops & Ho & -> & Hrp)]
    [(Hp' & Hf' & Hr' & Hg' & Hl' & Hq') (ops' & Ho' & -> & Hrp')].
  split; [split_and!; congruence|]. exists (ops ++ ops'). split_and!.
  - rewrite Ho', Ho, Hf. destruct (flushing s1); by rewrite <- app_assoc.
  - unfold replay. by rewrite fold_left_app.
  - by apply replayable_app.
Qed.

Lemma addFreeTree_ok le (self : backend) m :
  tx_rep (t self) m →
  ∃ x, addFreeTree le self = Ok (set_t x self) ∧ tx_rep x (replay_op (mkOpEntry le true) m).
Proof.
  intros Ht. unfold addFreeTree. destruct (st_Set_ok "s" (ToKeySO le) "" _ m Ht) as (x & E & Hx).
  unfold freeSize2OffsetTree. rewrite E. cbn [res_bind].
  destruct (st_Set_ok "o" (ToKeyOS le) "" _ _ Hx) as (y & E' & Hy). unfold freeOffset2SizeTree. rewrite E'.
  eauto.
Qed.

Lemma removeFreeTree_ok le (self : backend) m :
  tx_rep (t self) m → is_Some (m !! pre "s" (ToKeySO le)) → is_Some (m !! pre "o" (ToKeyOS le)) →
  ∃ x, removeFreeTree le self = Ok (set_t x self) ∧ tx_rep x (replay_op (mkOpEntry le false) m).
Proof.
  intros Ht Hs Ho. unfold removeFreeTree. destruct (st_Delete_ok "s" (ToKeySO le) _ m Ht Hs) as (x & E & Hx).
  unfold freeSize2OffsetTree. rewrite E. cbn [res_bind].
  destruct (st_Delete_ok "o" (ToKeyOS le) _ _ Hx) as (y & E' & Hy).
  { by rewrite lookup_delete_ne. }
  unfold freeOffset2SizeTree. rewrite E'. eauto.
Qed.

Lemma addFree_ok le (self : backend) m :
  tx_rep (t self) m →
  ∃ self', addFree le self = Ok self' ∧ tx_rep (t self') (replay_op (mkOpEntry le true) m) ∧
    trans self m self' (replay_op (mkOpEntry le true) m) ∧
    BytesUsed (sb self') = wrap64 (BytesUsed (sb self) - BlockSize le) ∧
    BytesTotal (sb self') = BytesTotal (sb self).
Proof.
  intros Ht. unfold addFree. destruct (flushing self) eqn:Ef.
  - destruct (addFreeTree_ok le (add_used (- BlockSize le) (appendOp le true self)) m Ht) as (x & E & Hx).
    rewrite E. eexists. split; [done|]. split_and!; try done. split; [done|].
    exists [mkOpEntry le true]. rewrite Ef. by split_and!.
  - destruct (addFreeTree_ok le (add_used (- BlockSize le) self) m Ht) as (x & E & Hx).
    rewrite E. eexists. split; [done|]. split_and!; try done. split; [done|].
    exists [mkOpEntry le true]. rewrite Ef, app_nil_r. by split_and!.
Qed.

Lemma removeFree_ok le (self : backend) m :
  tx_rep (t self) m → is_Some (m !! pre "s" (ToKeySO le)) → is_Some (m !! pre "o" (ToKeyOS le)) →
  ∃ self', removeFree le self = Ok self' ∧ tx_rep (t self') (replay_op (mkOpEntry le false) m) ∧
    trans self m self' (replay_op (mkOpEntry le false) m) ∧
    BytesUsed (sb self') = wrap64 (BytesUsed (sb self) + BlockSize le) ∧
    BytesTotal (sb self') = BytesTotal (sb self).
Proof.
  intros Ht Hs Ho. unfold removeFree. destruct (flushing self) eqn:Ef.
  - destruct (removeFreeTree_ok le (add_used (BlockSize le) (appendOp le false self)) m Ht Hs Ho) as (x & E & Hx).
    rewrite E. eexists. split; [done|]. split_and!; try done. split; [done|].
    exists [mkOpEntry le false]. rewrite Ef. by split_and!.
  - destruct (removeFreeTree_ok le (add_used (BlockSize le) self) m Ht Hs Ho) as (x & E & Hx).
    rewrite E. eexists. split; [done|]. split_and!; try done. split; [done|].
    exists [mkOpEntry le false]. rewrite Ef, app_nil_r. by split_and!.
Qed.

End alloc.

(** ** Superblocks *)

Lemma count_loop_ok fuel s i :
  i ≤ 11 → 12 - i ≤ fuel → (s < 2 ^ 60)%Z → (∀ j, j < i → (superBlockOffset j ≤ s)%Z) →
  ∃ n, count_loop fuel s i = Ok n ∧ i ≤ n ≤ 11 ∧ (s < superBlockOffset n)%Z ∧
    ∀ j, j < n → (superBlockOffset j ≤ s)%Z.
Proof.
  revert i. induction fuel as [|fuel IH]; intros i Hi Hf Hs Hj; [lia|]. cbn [count_loop].
  destruct (Z.leb_spec (superBlockOffset i) s) as [Hle|Hlt]; [|by exists i].
  assert (i ≠ 11). { intros ->. change (superBlockOffset 11) with (2 ^ 60)%Z in Hle. lia. }
  destruct (IH (S i)) as (n & E & Hn & Hb & Hall); [lia..|done| |].
  { intros j Hlt. destruct (decide (j = i)) as [->|]; [done|]. apply Hj. lia. }
  exists n. split_and!; [done|lia|lia|done|done].
Qed.

(** The superblocks of a device are those whose offset lies in it. *)
Lemma sb_count_spec total :
  (0 ≤ total < 2 ^ 60)%Z →
  ∃ n, sb_count total n ∧ n ≤ 11 ∧ (∀ j, j < n → (superBlockOffset j ≤ total)%Z) ∧
    ((total = 0)%Z ∧ n = 0 ∨ (0 < total < superBlockOffset n)%Z ∧ 0 < n).
Proof.
  intros Ht. unfold sb_count, calculateNumberOfSuperBlocks. destruct (Z.eqb_spec total 0) as [->|Hne].
  - exists 0. split_and!; [done|lia|lia|by left].
  - destruct (count_loop_ok 12 total 1) as (n & E & Hn & Hlt & Hall); [lia..| |].
    + intros j Hj. assert (j = 0) as -> by lia. simpl. lia.
    + exists n. split_and!; [done|lia|done|right; lia].
Qed.

(** Small facts about the eleven offsets, by computation. *)
Lemma superBlockOffset_facts n :
  n ≤ 10 → (0 ≤ superBlockOffset n ∧ superBlockOffset n mod 512 = 0 ∧
    superBlockOffset n + superBlockSize < superBlockOffset (S n) ∧ superBlockOffset (S n) ≤ 2 ^ 60)%Z.
Proof.
  intros Hn. do 11 (destruct n as [|n]; [vm_compute; split_and!; done|]). lia.
Qed.

Lemma sb_count_fun total n n' : sb_count total n → sb_count total n' → n = n'.
Proof. unfold sb_count. congruence. Qed.

(** A device that ends in the middle of a superblock interval. *)
Lemma sb_count_next n total :
  n ≤ 10 → total = (superBlockOffset n + superBlockSize)%Z → sb_count total (S n).
Proof.
  intros Hn ->. do 11 (destruct n as [|n]; [vm_compute; done|]). lia.
Qed.

Lemma sb_count_mono a b n n' :
  (0 ≤ a ≤ b)%Z → (b < 2 ^ 60)%Z → sb_count a n → sb_count b n' →
  n ≤ n' ∧ (n ≠ n' → n ≤ 10 ∧ (superBlockOffset n ≤ b)%Z).
Proof.
  intros Ha Hb Hn Hn'. destruct (sb_count_spec a) as (k & Hk & Hk11 & Hkall & Hka); [lia|].
  destruct (sb_count_spec b) as (k' & Hk' & Hk11' & Hkall' & Hkb); [lia|].
  assert (n = k) as -> by (by eapply sb_count_fun). assert (n' = k') as -> by (by eapply sb_count_fun).
  assert (k ≤ k') as Hle.
  { destruct (decide (k ≤ k')); [done|]. pose proof (Hkall k'). lia. }
  split; [done|]. intros Hne. split; [lia|]. apply Hkall'. lia.
Qed.

(** ** Changes of the extents *)

Section ext.
Context (E : extents) (total : Z) (HE : ext_ok E total).

(** The device grows by one extent. *)
Lemma ext_append s k :
  (0 ≤ total)%Z → (total mod 512 = 0)%Z → (0 < s)%Z → (s mod 512 = 0)%Z →
  E !! total = None ∧ ext_ok (<[total := (s, k)]> E) (total + s).
Proof.
  intros H0 Ha Hs Hsa. assert (E !! total = None) as Hn.
  { destruct (E !! total) as [[s' k']|] eqn:Ex; [|done]. apply (eo_in _ _ HE) in Ex. lia. }
  split; [done|]. split.
  - intros o s' k' [[<- [= <- <-]]|[_ Ho]]%lookup_insert_Some; [lia|]. apply (eo_in _ _ HE) in Ho. lia.
  - intros o s1 k1 o' s2 k2 [[<- [= <- <-]]|[Hne Ho]]%lookup_insert_Some
      [[<- [= <- <-]]|[Hne' Ho']]%lookup_insert_Some Hoo; [done| | |by eapply eo_disjoint].
    + apply (eo_in _ _ HE) in Ho'. lia.
    + apply (eo_in _ _ HE) in Ho. lia.
  - rewrite ext_sum_new by done. rewrite (eo_total _ _ HE). unfold weight. simpl. lia.
Qed.

(** An extent changes its kind. *)
Lemma ext_rekind o s k k' :
  E !! o = Some (s, k) → ext_ok (<[o := (s, k')]> E) total.
Proof.
  intros Ho. split.
  - intros o' s' k2 [[<- [= <- <-]]|[_ Ho']]%lookup_insert_Some; by eapply eo_in.
  - intros o1 s1 k1 o2 s2 k2 [[<- [= <- <-]]|[Hne H1]]%lookup_insert_Some
      [[<- [= <- <-]]|[Hne' H2]]%lookup_insert_Some Hoo; [done|by eapply eo_disjoint..].
  - rewrite (ext_sum_update _ _ _ _ _ Ho). rewrite (eo_total _ _ HE). unfold weight. simpl. lia.
Qed.

(** A free extent is split: the front is used. *)
Lemma ext_split o s b k :
  E !! o = Some (s, k) → (0 < b < s)%Z → (b mod 512 = 0)%Z →
  E !! (o + b)%Z = None ∧ ext_ok (<[(o + b)%Z := ((s - b)%Z, Free)]> (<[o := (b, Used)]> E)) total.
Proof.
  intros Ho Hb Ha. pose proof (eo_in _ _ HE _ _ _ Ho) as Hin.
  assert (E !! (o + b)%Z = None) as Hn.
  { destruct (E !! (o + b)%Z) as [[s' k']|] eqn:Ex; [|done].
    destruct (eo_disjoint _ _ HE _ _ _ _ _ _ Ho Ex) as [?|?]; [lia|lia|].
    apply (eo_in _ _ HE) in Ex. lia. }
  assert (((o + b) mod 512 = 0) ∧ ((s - b) mod 512 = 0))%Z as [Ha1 Ha2].
  { split; [rewrite Z.add_mod|rewrite Zminus_mod]; try lia.
    - destruct Hin as (_ & _ & -> & _). rewrite Ha. done.
    - destruct Hin as (_ & _ & _ & -> & _). rewrite Ha. done. }
  split; [done|]. split.
  - intros o' s' k' [[<- [= <- <-]]|[_ [[<- [= <- <-]]|[_ Ho']]%lookup_insert_Some]]%lookup_insert_Some.
    + lia.
    + lia.
    + by eapply eo_in.
  - intros o1 s1 k1 o2 s2 k2
      [[<- [= <- <-]]|[N1 [[<- [= <- <-]]|[N1' H1]]%lookup_insert_Some]]%lookup_insert_Some
      [[<- [= <- <-]]|[N2 [[<- [= <- <-]]|[N2' H2]]%lookup_insert_Some]]%lookup_insert_Some Hoo;
      try lia.
    + destruct (eo_disjoint _ _ HE _ _ _ _ _ _ Ho H2) as [?|?]; [done|lia|].
      apply (eo_in _ _ HE) in H2. lia.
    + destruct (eo_disjoint _ _ HE _ _ _ _ _ _ Ho H2) as [?|?]; [done|lia|].
      apply (eo_in _ _ HE) in H2. lia.
    + destruct (eo_disjoint _ _ HE _ _ _ _ _ _ Ho H1) as [?|?]; [done|lia|].
      apply (eo_in _ _ HE) in H1. lia.
    + destruct (eo_disjoint _ _ HE _ _ _ _ _ _ Ho H1) as [?|?]; [done|lia|].
      apply (eo_in _ _ HE) in H1. lia.
    + by eapply eo_disjoint.
  - rewrite ext_sum_new by (rewrite lookup_insert_ne by lia; done).
    rewrite (ext_sum_update _ _ _ _ _ Ho), (eo_total _ _ HE). unfold weight. simpl. lia.
Qed.

End ext.

(** ** The invariant *)

Section inv.
Context {T R : Type} `{TxStoreOk T}.
Abbreviation backend := (treeBackend T R).

Record alloc_inv (self : backend) (E : extents) (m : smap) : Prop := {
  ai_rep : tx_rep (t self) m;
  ai_free : tree_free E m;
  ai_ext : ext_ok E (BytesTotal (sb self));
  ai_used : BytesUsed (sb self) = ext_sum not_free E;
  ai_total : (0 ≤ BytesTotal (sb self) < 2 ^ 60 ∧ BytesTotal (sb self) mod 512 = 0)%Z;
  ai_super : ∀ n i, sb_count (BytesTotal (sb self)) n → i < n →
    E !! superBlockOffset i = Some (superBlockSize, Super)
}.

Lemma alloc_small self E m : alloc_inv self E m → ext_small E.
Proof. intros HI. eapply ext_ok_small; [by eapply ai_ext|]. pose proof (ai_total _ _ _ HI). lia. Qed.

(** The bytes in use are at most those of the device, so the counters do not wrap. *)
Lemma alloc_used_bounds self E m :
  alloc_inv self E m → (0 ≤ BytesUsed (sb self) ≤ BytesTotal (sb self))%Z.
Proof.
  intros HI. rewrite (ai_used _ _ _ HI). eapply ext_sum_bounds, ai_ext, HI.
Qed.

(** The keys of a free extent are in the store. *)
Lemma free_keys E m le :
  tree_free E m → (BlockSize le mod 512 = 0)%Z → E !! Offset le = Some (BlockSize le, Free) →
  is_Some (m !! pre "s" (ToKeySO le)) ∧ is_Some (m !! pre "o" (ToKeyOS le)).
Proof.
  intros [HS HO] Ha Hle. rewrite ToKeySO_key, ToKeyOS_key by done.
  split; exists ""; [apply HS|apply HO]; (split; [done|]); by exists (Offset le), (BlockSize le).
Qed.

(** *** Giving back *)

Lemma addFree_used le (self : backend) E m :
  alloc_inv self E m → E !! Offset le = Some (BlockSize le, Used) →
  ∃ self' m', addFree le self = Ok self' ∧
    alloc_inv self' (<[Offset le := (BlockSize le, Free)]> E) m' ∧ trans self m self' m'.
Proof.
  intros HI Hle. pose proof (eo_in _ _ (ai_ext _ _ _ HI) _ _ _ Hle) as Hin.
  pose proof (alloc_used_bounds _ _ _ HI) as Hu. pose proof (ai_total _ _ _ HI) as Ht.
  destruct (addFree_ok le self m (ai_rep _ _ _ HI)) as (self' & Ea & Hrep & Htr & Hbu & Hbt).
  pose proof (ext_rekind _ _ (ai_ext _ _ _ HI) _ _ _ Free Hle) as HE'.
  eexists self', _. split; [done|]. split; [|exact Htr]. split.
  - done.
  - apply tree_free_add; [by eapply ai_free| |tauto]. rewrite Hle. by intros [].
  - by rewrite Hbt.
  - rewrite Hbu, (ai_used _ _ _ HI). pose proof (ext_sum_bounds _ _ HE') as Hb.
    revert Hb. rewrite (ext_sum_update _ _ _ _ _ Hle). unfold weight. simpl. intros Hb. unfold wrap64.
    rewrite Z.mod_small by lia. lia.
  - by rewrite Hbt.
  - rewrite Hbt. intros n i Hn Hi. pose proof (ai_super _ _ _ HI n i Hn Hi) as Hs.
    rewrite lookup_insert_ne; [done|]. intros Eo. rewrite Eo, Hs in Hle. done.
Qed.

(** A slice gives its extents back. *)
Definition free_ext (ls : LocationSlice) (E : extents) : extents :=
  fold_left (λ E le, <[Offset le := (BlockSize le, Free)]> E) ls E.

Lemma freeSlice_ok ls (self : backend) E m :
  alloc_inv self E m → NoDup (map Offset ls) →
  Forall (λ le, E !! Offset le = Some (BlockSize le, Used)) ls →
  ∃ self' m', freeSlice ls self = Ok self' ∧ alloc_inv self' (free_ext ls E) m' ∧ trans self m self' m'.
Proof.
  revert self E m. induction ls as [|le ls IH]; intros self E m HI Hnd HF.
  - exists self, m. split_and!; [done..|]. by apply trans_refl.
  - apply Forall_cons in HF as [Hle HF]. apply NoDup_cons in Hnd as [Hni Hnd]. cbn [freeSlice].
    destruct (addFree_used le self E m HI Hle) as (s1 & m1 & E1 & HI1 & T1). rewrite E1. cbn [res_bind].
    destruct (IH s1 _ m1 HI1 Hnd) as (s2 & m2 & E2 & HI2 & T2).
    + apply Forall_forall. intros le' Hin. rewrite lookup_insert_ne.
      * rewrite Forall_forall in HF. by apply HF.
      * intros Eo. apply Hni. rewrite Eo. by apply list_elem_of_fmap_2.
    + exists s2, m2. split_and!; [done..|]. by eapply trans_trans.
Qed.

(** *** Taking *)

(** The size asked for, rounded up to blocks. *)
Definition rounded (size : Z) : Z := BlockSize (mkLE 0 size).

Lemma BlockSize_offset o size : BlockSize (mkLE o size) = rounded size.
Proof. done. Qed.

(** The extents after [size] bytes were taken from a free extent at [o]. *)
Definition take_ext (o s size : Z) (E : extents) : extents :=
  if (rounded size <? s)%Z
  then <[(o + rounded size)%Z := ((s - rounded size)%Z, Free)]> (<[o := (rounded size, Used)]> E)
  else <[o := (s, Used)]> E.

Lemma removeFree_free o s (self : backend) E m :
  alloc_inv self E m → E !! o = Some (s, Free) →
  ∃ self' m', removeFree (mkLE o s) self = Ok self' ∧
    alloc_inv self' (<[o := (s, Used)]> E) m' ∧ trans self m self' m'.
Proof.
  intros HI Ho. pose proof (eo_in _ _ (ai_ext _ _ _ HI) _ _ _ Ho) as Hin.
  assert (BlockSize (mkLE o s) = s) as Eb by (apply BlockSize_aligned; tauto).
  pose proof (alloc_used_bounds _ _ _ HI) as Hu. pose proof (ai_total _ _ _ HI) as Ht.
  pose proof (ext_rekind _ _ (ai_ext _ _ _ HI) _ _ _ Used Ho) as HE'.
  assert (E !! Offset (mkLE o s) = Some (BlockSize (mkLE o s), Free)) as Ho' by (by rewrite Eb).
  destruct (free_keys E m (mkLE o s)) as [K1 K2]; [by eapply ai_free|rewrite Eb; tauto|done|].
  destruct (removeFree_ok (mkLE o s) self m (ai_rep _ _ _ HI) K1 K2) as (self' & Ea & Hrep & Htr & Hbu & Hbt).
  eexists self', _. split; [done|]. split; [|exact Htr]. split.
  - done.
  - pose proof (tree_free_remove E m (mkLE o s) Used (alloc_small _ _ _ HI) eq_refl (ai_free _ _ _ HI)) as Hf.
    rewrite Eb in Hf. apply Hf; [tauto|done].
  - by rewrite Hbt.
  - rewrite Hbu, Eb, (ai_used _ _ _ HI). pose proof (ext_sum_bounds _ _ HE') as Hb.
    revert Hb. rewrite (ext_sum_update _ _ _ _ _ Ho). unfold weight. simpl. intros Hb. unfold wrap64.
    rewrite Z.mod_small by lia. lia.
  - by rewrite Hbt.
  - rewrite Hbt. intros n i Hn Hi. pose proof (ai_super _ _ _ HI n i Hn Hi) as Hs.
    rewrite lookup_insert_ne; [done|]. intros Eo. rewrite Eo, Hs in Ho. done.
Qed.

(** Adding the rest of a split extent. *)
Lemma addFree_rest o s b (self : backend) E m :
  alloc_inv self (<[o := (s, Used)]> E) m → E !! o = Some (s, Free) → (0 < b < s)%Z → (b mod 512 = 0)%Z →
  ∃ self' m', addFree (mkLE (o + b) (s - b)) self = Ok self' ∧
    alloc_inv self' (<[(o + b)%Z := ((s - b)%Z, Free)]> (<[o := (b, Used)]> E)) m' ∧ trans self m self' m'.
Proof.
  intros HI Ho Hb Ha. set (E1 := <[o := (s, Used)]> E) in *.
  assert (E1 !! o = Some (s, Used)) as Ho1 by apply lookup_insert_eq.
  pose proof (eo_in _ _ (ai_ext _ _ _ HI) _ _ _ Ho1) as Hin.
  destruct (ext_split _ _ (ai_ext _ _ _ HI) o s b Used Ho1 Hb Ha) as [Hnone HE'].
  assert (<[o := (b, Used)]> E1 = <[o := (b, Used)]> E) as EE by (apply insert_insert_eq).
  rewrite EE in HE'.
  assert ((s - b) mod 512 = 0)%Z as Hsb.
  { rewrite Zminus_mod. destruct Hin as (_ & _ & _ & -> & _). by rewrite Ha. }
  pose proof (alloc_used_bounds _ _ _ HI) as Hu. pose proof (ai_total _ _ _ HI) as Ht.
  destruct (addFree_ok (mkLE (o + b) (s - b)) self m (ai_rep _ _ _ HI)) as (self' & Ea & Hrep & Htr & Hbu & Hbt).
  rewrite BlockSize_aligned in Hbu by done. eexists self', _. split; [done|]. split; [|exact Htr]. split.
  - done.
  - pose proof (tree_free_add E1 m (mkLE (o + b) (s - b)) (ai_free _ _ _ HI)) as Hf.
    rewrite BlockSize_aligned in Hf by done. cbn [Offset] in Hf. rewrite Hnone in Hf.
    specialize (Hf (λ x, x) Hsb). destruct Hf as [HfS HfO].
    assert (∀ c key mm, free_part c key (<[(o + b)%Z := ((s - b)%Z, Free)]> E1) mm →
      free_part c key (<[(o + b)%Z := ((s - b)%Z, Free)]> (<[o := (b, Used)]> E)) mm) as Hsame.
    { intros c key mm Hp k v. rewrite (Hp k v). apply and_iff_compat_l.
      split; intros (o' & s' & Ho' & ->); exists o', s'; (split; [|done]).
      - apply lookup_insert_Some in Ho' as [[<- [= <-]]|[N Ho']]; [by rewrite lookup_insert_eq|].
        rewrite lookup_insert_ne by done.
        apply lookup_insert_Some in Ho' as [[<- [=]]|[N' Ho']]. by rewrite lookup_insert_ne.
      - apply lookup_insert_Some in Ho' as [[<- [= <-]]|[N Ho']]; [by rewrite lookup_insert_eq|].
        rewrite lookup_insert_ne by done.
        apply lookup_insert_Some in Ho' as [[<- [=]]|[N' Ho']]. by unfold E1; rewrite lookup_insert_ne. }
    split; by apply Hsame.
  - by rewrite Hbt.
  - rewrite Hbu, (ai_used _ _ _ HI). pose proof (ext_sum_bounds _ _ HE') as Hs. revert Hs.
    rewrite ext_sum_new by (rewrite lookup_insert_ne by lia; unfold E1 in Hnone;
      rewrite lookup_insert_ne in Hnone by lia; done).
    unfold E1. rewrite !(ext_sum_update _ _ _ _ _ Ho). unfold weight. simpl. intros Hs. unfold wrap64.
    rewrite Z.mod_small by lia. lia.
  - by rewrite Hbt.
  - rewrite Hbt. intros n i Hn Hi. pose proof (ai_super _ _ _ HI n i Hn Hi) as Hs.
    unfold E1 in Hs, Hnone. rewrite lookup_insert_ne.
    + destruct (decide (o = superBlockOffset i)) as [->|]; [by rewrite lookup_insert_eq in Hs|].
      rewrite lookup_insert_ne in Hs |- * by done. done.
    + intros Eo. rewrite Eo, Hs in Hnone. done.
Qed.

End inv.

(** ** Growth *)

Lemma wrap_sub_add u s : in_uint64 u → wrap64 (wrap64 (u - s) + s) = u.
Proof.
  intros Hu. unfold wrap64. rewrite Zplus_mod_idemp_l. replace (u - s + s)%Z with u by lia.
  by apply Z.mod_small.
Qed.
Lemma wrap_add_sub u s : in_uint64 u → wrap64 (wrap64 (u + s) - s) = u.
Proof.
  intros Hu. unfold wrap64. rewrite Zminus_mod_idemp_l. replace (u + s - s)%Z with u by lia.
  by apply Z.mod_small.
Qed.
Lemma wrap_small u : in_uint64 u → wrap64 u = u.
Proof. apply Z.mod_small. Qed.

Section grow.
Context {T R : Type} `{TxStoreOk T}.
Abbreviation backend := (treeBackend T R).

(** Growth keeps every extent and adds no used one. *)
Definition ext_grown (E E' : extents) : Prop :=
  E ⊆ E' ∧ ∀ o s, E' !! o = Some (s, Used) → E !! o = Some (s, Used).

Lemma ext_grown_trans E1 E2 E3 : ext_grown E1 E2 → ext_grown E2 E3 → ext_grown E1 E3.
Proof. intros [H1 H1'] [H2 H2']. split; [by transitivity E2|]. eauto. Qed.

Lemma ext_grown_new E o s k : E !! o = None → k ≠ Used → ext_grown E (<[o := (s, k)]> E).
Proof.
  intros Hn Hk. split; [by apply insert_subseteq|]. intros o' s'.
  rewrite lookup_insert_Some. naive_solver.
Qed.

(** The device grows within a superblock interval. *)
Lemma grow_simple asize (self : backend) E m n :
  alloc_inv self E m → (0 < asize)%Z → (asize mod 512 = 0)%Z →
  (BytesTotal (sb self) + asize < 2 ^ 60)%Z →
  sb_count (BytesTotal (sb self)) n → sb_count (BytesTotal (sb self) + asize) n →
  ∃ self' m', addFree (mkLE (BytesTotal (sb self)) asize) (add_used asize self) = Ok self' ∧
    alloc_inv (add_total asize self') (<[BytesTotal (sb self) := (asize, Free)]> E) m' ∧
    trans self m (add_total asize self') m' ∧ E !! BytesTotal (sb self) = None.
Proof.
  intros HI Hs Ha Hlim Hn Hn'. pose proof (ai_total _ _ _ HI) as Ht. pose proof (alloc_used_bounds _ _ _ HI) as Hu.
  destruct (ext_append _ _ (ai_ext _ _ _ HI) asize Free) as [Hnone HE']; [lia..|].
  destruct (addFree_ok (mkLE (BytesTotal (sb self)) asize) (add_used asize self) m (ai_rep _ _ _ HI))
    as (self' & Ea & Hrep & Htr & Hbu & Hbt).
  rewrite BlockSize_aligned in Hbu by done. cbn in Hbu, Hbt.
  rewrite wrap_add_sub in Hbu by (unfold in_uint64; lia).
  assert (BytesTotal (sb (add_total asize self')) = BytesTotal (sb self) + asize)%Z as Ht'.
  { cbn. rewrite Hbt. apply wrap_small. unfold in_uint64. lia. }
  eexists self', _. split; [done|]. split_and!; [|exact Htr|done]. split.
  - exact Hrep.
  - pose proof (tree_free_add E m (mkLE (BytesTotal (sb self)) asize) (ai_free _ _ _ HI)) as Hf.
    rewrite BlockSize_aligned in Hf by done. cbn [Offset] in Hf. apply Hf; [|done]. rewrite Hnone. by intros [].
  - by rewrite Ht'.
  - cbn. rewrite Hbu, (ai_used _ _ _ HI), ext_sum_new by done. done.
  - rewrite Ht'. split; [lia|]. rewrite Z.add_mod, (proj2 Ht), Ha by lia. done.
  - rewrite Ht'. intros n' i Hcount Hi. assert (n' = n) as -> by (by eapply sb_count_fun).
    pose proof (ai_super _ _ _ HI n i Hn Hi) as Hsup. rewrite lookup_insert_ne; [done|].
    intros Eo. rewrite Eo, Hsup in Hnone. done.
Qed.

(** The free area below the next superblock. *)
Definition fill_to (ofs : Z) (self : backend) : res backend :=
  if (BytesTotal (sb self) <? ofs)%Z then
    let ssize := wrap64 (ofs - BytesTotal (sb self)) in
    let! self := addFree (mkLE (BytesTotal (sb self)) ssize) self in
    Ok (add_total ssize (add_used ssize self))
  else Ok self.

Lemma fill_to_ok ofs (self : backend) E m :
  alloc_inv self E m → (BytesTotal (sb self) ≤ ofs ≤ 2 ^ 60)%Z → (ofs mod 512 = 0)%Z →
  ∃ self' E' m', fill_to ofs self = Ok self' ∧ tx_rep (t self') m' ∧ tree_free E' m' ∧ ext_ok E' ofs ∧
    BytesUsed (sb self') = ext_sum not_free E' ∧ BytesTotal (sb self') = ofs ∧ ext_grown E E' ∧
    trans self m self' m'.
Proof.
  intros HI Ho Ha. pose proof (ai_total _ _ _ HI) as Ht. pose proof (alloc_used_bounds _ _ _ HI) as Hu.
  unfold fill_to. destruct (Z.ltb_spec (BytesTotal (sb self)) ofs) as [Hlt|Hge].
  - rewrite wrap_small by (unfold in_uint64; lia). set (ss := (ofs - BytesTotal (sb self))%Z).
    assert (ss mod 512 = 0)%Z as Hss. { unfold ss. by rewrite Zminus_mod, Ha, (proj2 Ht). }
    destruct (ext_append _ _ (ai_ext _ _ _ HI) ss Free) as [Hnone HE']; [lia|lia|unfold ss; lia|done|].
    destruct (addFree_ok (mkLE (BytesTotal (sb self)) ss) self m (ai_rep _ _ _ HI))
      as (self' & Ea & Hrep & Htr & Hbu & Hbt).
    rewrite BlockSize_aligned in Hbu by done. rewrite Ea. cbn [res_bind].
    eexists _, (<[BytesTotal (sb self) := (ss, Free)]> E), _. split; [done|].
    replace (BytesTotal (sb self) + ss)%Z with ofs in HE' by (unfold ss; lia).
    split_and!; [exact Hrep| |done| | |by apply ext_grown_new|exact Htr].
    + pose proof (tree_free_add E m (mkLE (BytesTotal (sb self)) ss) (ai_free _ _ _ HI)) as Hf.
      rewrite BlockSize_aligned in Hf by done. apply Hf; [|done]. cbn [Offset]. rewrite Hnone. by intros [].
    + cbn. rewrite Hbu, wrap_sub_add by (unfold in_uint64; lia). rewrite (ai_used _ _ _ HI), ext_sum_new by done. done.
    + cbn. rewrite Hbt, wrap_small by (unfold in_uint64, ss; lia). unfold ss. lia.
  - assert (BytesTotal (sb self) = ofs) as Eo by lia. exists self, E, m. split_and!; try done.
    + apply HI.
    + apply HI.
    + rewrite <- Eo. apply HI.
    + apply HI.
    + by apply trans_refl.
Qed.

(** One more superblock. *)
Lemma grow_super (self : backend) E m n :
  alloc_inv self E m → sb_count (BytesTotal (sb self)) n → n ≤ 10 →
  (BytesTotal (sb self) < superBlockOffset n)%Z ∨ n = 0 →
  ∃ self' E' m', fill_to (superBlockOffset n) self = Ok self' ∧
    alloc_inv (add_used superBlockSize (add_total superBlockSize self')) E' m' ∧ ext_grown E E' ∧
    trans self m (add_used superBlockSize (add_total superBlockSize self')) m' ∧
    BytesTotal (sb (add_used superBlockSize (add_total superBlockSize self'))) =
      (superBlockOffset n + superBlockSize)%Z.
Proof.
  intros HI Hn Hn10 Hor. pose proof (superBlockOffset_facts n Hn10) as (Hb0 & Hba & Hbs & Hb60).
  pose proof (ai_total _ _ _ HI) as Ht.
  assert (BytesTotal (sb self) ≤ superBlockOffset n)%Z as Hle.
  { destruct Hor as [?| ->]; [lia|]. destruct (sb_count_spec _ (proj1 Ht)) as (n' & Hn' & _ & _ & Hc).
    assert (n' = 0) as -> by (by eapply sb_count_fun). simpl. lia. }
  unfold superBlockSize in *.
  destruct (fill_to_ok (superBlockOffset n) self E m HI) as (s1 & E1 & m1 & Ef & Hrep & Hfree & Hext & Hused & Htot & Hg & Htr);
    [lia|done|].
  destruct (ext_append _ _ Hext 65536 Super) as [Hnone HE']; [lia|done..|].
  assert (BytesTotal (sb (add_used 65536 (add_total 65536 s1))) = superBlockOffset n + 65536)%Z as Ht'.
  { cbn. rewrite Htot. apply wrap_small. unfold in_uint64. lia. }
  eexists s1, _, m1. split; [done|]. split_and!; [| |exact Htr|exact Ht'].
  - split; [done| |by rewrite Ht'| | |].
    + assert (∀ c key, free_part c key E1 m1 →
        free_part c key (<[superBlockOffset n := (65536%Z, Super)]> E1) m1) as Hsame.
      { intros c key Hp k v. rewrite (Hp k v). apply and_iff_compat_l.
        split; intros (o & s & Ho & ->); exists o, s; (split; [|done]).
        - rewrite lookup_insert_ne; [done|]. intros Eo. rewrite Eo, Ho in Hnone. done.
        - by apply lookup_insert_Some in Ho as [[_ [=]]|[_ Ho]]. }
      destruct Hfree as [? ?]. split; by apply Hsame.
    + cbn. rewrite Hused. pose proof (ext_sum_bounds _ _ HE') as Hb. rewrite ext_sum_new in * by done.
      change (weight not_free (65536%Z, Super)) with 65536%Z in *. rewrite wrap_small by (unfold in_uint64; lia). lia.
    + rewrite Ht'. split; [lia|]. rewrite Z.add_mod, Hba by lia. done.
    + rewrite Ht'. intros n' i Hc Hi.
      assert (n' = S n) as -> by (eapply sb_count_fun; [done|by apply sb_count_next]).
      destruct (decide (i = n)) as [->|Hne]; [by rewrite lookup_insert_eq|].
      pose proof (ai_super _ _ _ HI n i Hn ltac:(lia)) as Hs.
      assert (E1 !! superBlockOffset i = Some (65536%Z, Super)) as Hs1 by (eapply lookup_weaken; [done|apply Hg]).
      rewrite lookup_insert_ne; [done|]. intros Eo. rewrite Eo, Hs1 in Hnone. done.
  - eapply ext_grown_trans; [done|]. by apply ext_grown_new.
Qed.

Lemma grow_ok fuel asize (self : backend) E m n :
  alloc_inv self E m → (0 < asize)%Z → (asize mod 512 = 0)%Z →
  sb_count (BytesTotal (sb self)) n → 12 - n ≤ fuel →
  (BytesTotal (sb self) + (12 - Z.of_nat n) * (asize + superBlockSize) < 2 ^ 60)%Z →
  ∃ self' E' m' o, grow fuel asize self = Ok (true, self') ∧ alloc_inv self' E' m' ∧ ext_grown E E' ∧
    trans self m self' m' ∧ E' !! o = Some (asize, Free).
Proof.
  revert self E m n. induction fuel as [|fuel IH]; intros self E m n HI Hs Ha Hn Hf Hlim;
    pose proof (ai_total _ _ _ HI) as Ht;
    (destruct (sb_count_spec _ (proj1 Ht)) as (n0 & Hn0 & H11 & Hall & Hc);
     assert (n0 = n) as -> by (by eapply sb_count_fun)); [lia|].
  cbn [grow]. unfold numberOfSuperBlocks. rewrite Hn. cbn [res_bind]. unfold superBlockSize in *.
  assert (1 * (asize + 65536) ≤ (12 - Z.of_nat n) * (asize + 65536))%Z as Hone
    by (apply Z.mul_le_mono_nonneg_r; lia).
  assert (BytesTotal (sb self) + asize < 2 ^ 60)%Z as Hlim1 by lia.
  rewrite (wrap_small (_ + asize)) by (unfold in_uint64; lia).
  destruct (sb_count_spec (BytesTotal (sb self) + asize)) as (n' & Hn' & _); [lia|]. rewrite Hn'. cbn [res_bind].
  destruct (sb_count_mono (BytesTotal (sb self)) (BytesTotal (sb self) + asize) n n' ltac:(lia) Hlim1 Hn Hn') as [Hmono Hstep].
  destruct (Nat.eqb_spec n n') as [<-|Hne].
  - destruct (grow_simple asize self E m n HI Hs Ha Hlim1 Hn Hn') as (s1 & m1 & E1 & HI1 & T1 & Hnone).
    change (BytesTotal (sb (add_used asize self))) with (BytesTotal (sb self)). rewrite E1. cbn [res_bind].
    eexists _, _, m1, (BytesTotal (sb self)). split; [done|]. split_and!; [done|by apply ext_grown_new|done|].
    by rewrite lookup_insert_eq.
  - destruct (Hstep Hne) as [H10 Hofs].
    destruct (grow_super self E m n HI Hn H10) as (s1 & E1 & m1 & Ef & HI1 & Hg1 & T1 & Ht1); [lia|].
    fold (fill_to (superBlockOffset n) self). rewrite Ef. cbn [res_bind]. unfold superBlockSize in *.
    destruct (IH _ E1 m1 (S n) HI1 Hs Ha) as (s2 & E2 & m2 & o & Eg & HI2 & Hg2 & T2 & Ho).
    + rewrite Ht1. by apply sb_count_next.
    + lia.
    + rewrite Ht1, Nat2Z.inj_succ. unfold Z.succ.
      replace (12 - (Z.of_nat n + 1))%Z with (12 - Z.of_nat n - 1)%Z by lia. rewrite Z.mul_sub_distr_r. lia.
    + exists s2, E2, m2, o. split_and!; [done..| |by eapply trans_trans|done]. by eapply ext_grown_trans.
Qed.

End grow.

(** ** Allocation *)

Section allocate.
Context {T R : Type} `{TxStoreOk T}.
Abbreviation backend := (treeBackend T R).

Lemma rounded_spec size :
  (0 < size < 2 ^ 60)%Z → (size ≤ rounded size < size + 512 ∧ rounded size mod 512 = 0)%Z.
Proof. intros Hs. apply (BlockSize_spec (mkLE 0 size)). simpl. lia. Qed.

(** The used extents after an allocation: the new one, and those that were there. *)
Definition one_more_used (E : extents) (o size : Z) (E' : extents) : Prop :=
  (∀ s, E !! o ≠ Some (s, Used)) ∧
  ∀ o' s', E' !! o' = Some (s', Used) ↔ o' = o ∧ s' = rounded size ∨ E !! o' = Some (s', Used).

Lemma take_ext_used E1 o s size :
  E1 !! o = Some (s, Free) → (rounded size ≤ s)%Z → (0 < rounded size)%Z →
  E1 !! (o + rounded size)%Z = None ∨ rounded size = s →
  one_more_used E1 o size (take_ext o s size E1).
Proof.
  intros Ho Hr Hpos Hnone. split; [intros s'; by rewrite Ho|]. intros o' s'. unfold take_ext.
  destruct (Z.ltb_spec (rounded size) s) as [Hlt|Hge].
  - destruct Hnone as [Hnone|]; [|lia]. rewrite !lookup_insert_Some. split.
    + intros [[_ [=]]|[_ [[<- [= <-]]|[_ ?]]]]; [by left|by right].
    + intros [[-> ->]|Hu].
      * right. split; [lia|]. by left.
      * right. split; [intros <-; congruence|]. right. split; [|done]. intros <-. congruence.
  - assert (rounded size = s) as -> by lia. rewrite lookup_insert_Some. split.
    + intros [[<- [= <-]]|[_ ?]]; [by left|by right].
    + intros [[-> ->]|Hu]; [by left|]. right. split; [|done]. intros <-. congruence.
Qed.

Lemma one_more_used_grown E E1 o size E' :
  ext_grown E E1 → one_more_used E1 o size E' → one_more_used E o size E'.
Proof.
  intros [Hsub Hu] [H1 H2].
  assert (∀ o s, E !! o = Some (s, Used) ↔ E1 !! o = Some (s, Used)) as Heq.
  { intros o' s'. split; [intros Hx; by eapply lookup_weaken|apply Hu]. }
  split; [intros s Hs; by eapply H1, Heq|]. intros o' s'. by rewrite H2, Heq.
Qed.

(** Branch [1]: a free extent that is big enough. *)
Definition take_free (le : LocationEntry) (bsize : Z) (self : backend) : res backend :=
  let! self := removeFree le self in
  let left := wrap64 (Size le - bsize) in
  if (0 <? left)%Z then addFree (mkLE (wrap64 (Offset le + bsize)) left) self else Ok self.

Lemma take_free_ok o s size (self : backend) E m :
  alloc_inv self E m → E !! o = Some (s, Free) → (0 < size < 2 ^ 60)%Z → (rounded size ≤ s)%Z →
  ∃ self' m', take_free (mkLE o s) (rounded size) self = Ok self' ∧
    alloc_inv self' (take_ext o s size E) m' ∧ trans self m self' m' ∧
    one_more_used E o size (take_ext o s size E).
Proof.
  intros HI Ho Hs Hr. pose proof (rounded_spec size Hs) as [Hrs Hra].
  pose proof (alloc_small _ _ _ HI _ _ _ Ho) as Hsm.
  destruct (removeFree_free o s self E m HI Ho) as (s1 & m1 & E1 & HI1 & T1).
  unfold take_free. rewrite E1. cbn [res_bind Size Offset]. rewrite !wrap_small by (unfold in_uint64; lia).
  destruct (Z.ltb_spec 0 (s - rounded size)) as [Hlt|Hge].
  - destruct (addFree_rest o s (rounded size) s1 E m1 HI1 Ho) as (s2 & m2 & E2 & HI2 & T2); [lia|done|].
    destruct (ext_split _ _ (ai_ext _ _ _ HI) o s (rounded size) Free Ho) as [Hnone _]; [lia|done|].
    exists s2, m2. unfold take_ext at 1. destruct (Z.ltb_spec (rounded size) s); [|lia].
    split_and!; [done..|by eapply trans_trans|]. apply take_ext_used; [done|lia|lia|by left].
  - exists s1, m1. unfold take_ext at 1. destruct (Z.ltb_spec (rounded size) s); [lia|].
    split_and!; [done..|]. apply take_ext_used; [done|lia|lia|right; lia].
Qed.

(** Looking for a free extent: one that is big enough, or there is none. *)
Lemma find_free size (self : backend) E m :
  alloc_inv self E m → (0 < size < 2 ^ 60)%Z →
  ∃ r x, st_NextKey freeSize2OffsetTree (ToKeySO (mkLE 0 size)) (t self) = Ok (r, x) ∧ tx_rep x m ∧
    match r with
    | Some k => ∃ o s, NewLocationEntryFromKeySO k = Ok (mkLE o s) ∧ E !! o = Some (s, Free) ∧ (rounded size ≤ s)%Z
    | None => ∀ o s, E !! o = Some (s, Free) → (0 < o)%Z → (s < rounded size)%Z
    end.
Proof.
  intros HI Hs. pose proof (rounded_spec size Hs) as [Hrs Hra]. pose proof (alloc_small _ _ _ HI) as Hsm.
  destruct (st_NextKey_ok "s" (ToKeySO (mkLE 0 size)) (t self) m (ai_rep _ _ _ HI)) as (r & x & E1 & Hx & Hr).
  exists r, x. split; [done|]. split; [done|]. destruct (ai_free _ _ _ HI) as [HS _].
  assert (∀ o s, E !! o = Some (s, Free) → in_uint64 o ∧ in_uint64 s ∧ BlockSize (mkLE o s) = s) as Hb.
  { intros o s Ho. pose proof (Hsm _ _ _ Ho). split_and!; [unfold in_uint64; lia..|]. apply BlockSize_aligned. tauto. }
  assert (∀ o s, E !! o = Some (s, Free) →
    kltb (ToKeySO (mkLE 0 size)) (keySO o s) = (rounded size <? s)%Z || ((rounded size =? s)%Z && (0 <? o)%Z)) as Hlt.
  { intros o s Ho. destruct (Hb o s Ho) as (B1 & B2 & B3). unfold keySO.
    rewrite ToKeySO_ltb; rewrite ?B3; cbn [Offset]; try done. fold (rounded size). unfold in_uint64. lia. }
  destruct r as [k|].
  - destruct Hr as ([v Hv] & Hk & _). apply HS in Hv as (_ & o & s & Ho & ->). exists o, s.
    destruct (Hb o s Ho) as (B1 & B2 & B3). split_and!; [|done|].
    + unfold keySO. rewrite ToKeySO_decode by (rewrite ?B3; done). by rewrite B3.
    + unfold klt in Hk. rewrite (Hlt o s Ho) in Hk. apply orb_true_iff in Hk.
      rewrite andb_true_iff, !Z.ltb_lt, Z.eqb_eq in Hk. lia.
  - intros o s Ho Hpos. destruct (decide (s < rounded size)%Z); [done|]. exfalso.
    apply (Hr (keySO o s)).
    + exists "". apply HS. split; [done|]. by exists o, s.
    + unfold klt. rewrite (Hlt o s Ho). destruct (Z.ltb_spec (rounded size) s), (Z.eqb_spec (rounded size) s),
        (Z.ltb_spec 0 o); simpl; done || lia.
Qed.

(** Offset 0 is that of the first superblock. *)
Lemma free_offset_pos (self : backend) E m o s :
  alloc_inv self E m → E !! o = Some (s, Free) → (0 < o)%Z.
Proof.
  intros HI Ho. pose proof (eo_in _ _ (ai_ext _ _ _ HI) _ _ _ Ho) as Hin. pose proof (ai_total _ _ _ HI) as Ht.
  destruct (sb_count_spec _ (proj1 Ht)) as (n & Hn & _ & _ & Hc).
  pose proof (ai_super _ _ _ HI n 0 Hn) as Hs. destruct (Z.eq_dec o 0) as [->|]; [|lia].
  change (superBlockOffset 0) with 0%Z in Hs. rewrite Hs in Ho; [done|lia].
Qed.

(** The backend with the store after a lookup. *)
Lemma alloc_inv_lookup (self : backend) E m x : alloc_inv self E m → tx_rep x m → alloc_inv (set_t x self) E m.
Proof. intros [] Hx. by split. Qed.

(** There is room for an allocation of [size] bytes. *)
Definition room (size : Z) (self : backend) : Prop :=
  (size < 2 ^ 60 ∧ BytesTotal (sb self) + 12 * (rounded size + superBlockSize) < 2 ^ 60)%Z.

Lemma allocate_found fuel size sl (self : backend) E m :
  alloc_inv self E m → (0 < size < 2 ^ 60)%Z → (∃ o s, E !! o = Some (s, Free) ∧ (rounded size ≤ s)%Z) →
  ∃ self' E' m' o, allocate_loop (S fuel) size sl self = Ok (Some (sl ++ [mkLE o size]), self') ∧
    alloc_inv self' E' m' ∧ trans self m self' m' ∧ one_more_used E o size E'.
Proof.
  intros HI Hs (o0 & s0 & Ho0 & Hr0). cbn [allocate_loop]. destruct (Z.leb_spec size 0); [lia|].
  destruct (find_free size self E m HI Hs) as (r & x & Ef & Hx & Hr). rewrite Ef. cbn [res_bind fst snd].
  pose proof (alloc_inv_lookup _ _ _ _ HI Hx) as HI'. destruct r as [k|].
  - destruct Hr as (o & s & Hdec & Ho & Hle). rewrite Hdec. cbn [res_bind].
    fold (rounded size). destruct (take_free_ok o s size _ E m HI' Ho Hs Hle) as (s1 & m1 & E1 & HI1 & T1 & Hu).
    unfold take_free in E1. cbn [Size Offset] in E1 |- *.
    destruct (removeFree _ (set_t x self)) as [s0'| |]; [|done..]. cbn [res_bind] in E1 |- *.
    rewrite E1. cbn [res_bind]. eexists s1, _, m1, o. split_and!; [done..|exact T1|done].
  - pose proof (Hr o0 s0 Ho0 (free_offset_pos _ _ _ _ _ HI Ho0)). lia.
Qed.

Lemma allocate_grown fuel size sl (self : backend) x self1 :
  (0 < size)%Z → st_NextKey freeSize2OffsetTree (ToKeySO (mkLE 0 size)) (t self) = Ok (None, x) →
  grow grow_fuel (rounded size) (set_t x self) = Ok (true, self1) →
  allocate_loop (S fuel) size sl self = allocate_loop fuel size sl self1.
Proof.
  intros Hs Ef Eg. cbn [allocate_loop]. destruct (Z.leb_spec size 0); [lia|]. rewrite Ef. cbn [res_bind fst snd].
  fold (rounded size). by rewrite Eg.
Qed.

(** Whatever state the allocator is in, it finds or makes room, in one piece. *)
Lemma allocateSlice_ok size (self : backend) E m :
  alloc_inv self E m → (0 < size)%Z → room size self →
  ∃ self' E' m' o, allocateSlice size self = Ok (Some [mkLE o size], self') ∧
    alloc_inv self' E' m' ∧ trans self m self' m' ∧ one_more_used E o size E'.
Proof.
  intros HI Hpos [Hsz Hroom]. assert (0 < size < 2 ^ 60)%Z as Hs by done.
  pose proof (rounded_spec size Hs) as [Hrs Hra]. unfold allocateSlice.
  destruct (find_free size self E m HI Hs) as (r & x & Ef & Hx & Hr). destruct r as [k|].
  - destruct Hr as (o & s & _ & Ho & Hle). apply (allocate_found 2 size [] self E m HI Hs). eauto.
  - pose proof (alloc_inv_lookup _ _ _ _ HI Hx) as HI'.
    pose proof (ai_total _ _ _ HI) as Ht. destruct (sb_count_spec _ (proj1 Ht)) as (n & Hn & _).
    destruct (grow_ok grow_fuel (rounded size) (set_t x self) E m n HI') as (s1 & E1 & m1 & o1 & Eg & HI1 & Hg & T1 & Ho1);
      [lia|done|done|unfold grow_fuel; lia| |].
    { change (BytesTotal (sb (set_t x self))) with (BytesTotal (sb self)).
      assert (0 ≤ Z.of_nat n * (rounded size + superBlockSize))%Z by (apply Z.mul_nonneg_nonneg; unfold superBlockSize; lia).
      rewrite Z.mul_sub_distr_r. lia. }
    destruct (allocate_found 1 size [] s1 E1 m1 HI1 Hs) as (s2 & E2 & m2 & o & Ea & HI2 & T2 & Hu).
    { exists o1, (rounded size). split; [done|lia]. }
    exists s2, E2, m2, o. split_and!; [|done| |].
    + by rewrite (allocate_grown 2 size [] self x s1 ltac:(lia) Ef Eg).
    + eapply trans_trans; [|done]. exact T1.
    + by eapply one_more_used_grown.
Qed.

End allocate.
