(* ===== verification/TreeBlocks.v ===== *)
(** * The tree backend keeps blocks

    On top of the allocator: every block of the backend owns its extents, so what is
    written for one block never touches another.  The tree backend is a block store in
    the sense of [BlockStoreOk], and its UpdateBlock stores the metadata. *)
From stdpp Require Import base list sets strings sorting gmap.
From Stdlib Require Import ZArith Lia Ascii.
From S2P Require Import Prelude OrderedMap Util IBNode IBStack IBTree Codec Backend TreeLocation TreeBackend TreeStore TreeAlloc.

(** ** Reading what was written *)

(** The entry lies in the file, and in a used extent that starts with it. *)
Definition le_in (f : inMemoryFile) (E : extents) (le : LocationEntry) : Prop :=
  E !! Offset le = Some (BlockSize le, Used) ∧ (0 ≤ Offset le)%Z ∧ (0 ≤ Size le ≤ BlockSize le)%Z ∧
  (Offset le + Size le ≤ file_Size f)%Z.

Lemma read_entries_frame f f' E ls :
  Forall (le_in f E) ls → length f ≤ length f' →
  (∀ le i, le ∈ ls → (Offset le ≤ Z.of_nat i < Offset le + Size le)%Z → f' !! i = f !! i) →
  read_entries f' ls = read_entries f ls.
Proof.
  intros HF Hlen Heq. induction HF as [|le ls Hle HF IH]; [done|]. cbn [read_entries].
  destruct Hle as (_ & Ho & Hs & Hfs). unfold file_Size in Hfs.
  rewrite !read_entry_ok by (unfold file_Size; lia). cbn [res_bind].
  rewrite IH by (intros; eapply Heq; [by right|done]). f_equal.
  replace (region f' (Z.to_nat (Offset le)) (Z.to_nat (Size le)))
    with (region f (Z.to_nat (Offset le)) (Z.to_nat (Size le))); [done|].
  apply region_ext. intros i Hi. symmetry. apply (Heq le); [by left|lia].
Qed.

Lemma string_list_id s : String.string_of_list_ascii (String.list_ascii_of_string s) = s.
Proof. apply String.string_of_list_ascii_of_string. Qed.
Lemma string_list_length s : length (String.list_ascii_of_string s) = String.length s.
Proof. induction s as [|c s IH]; [done|]. simpl. by rewrite IH. Qed.

(** One entry is written and read back. *)
Lemma write_read f o data :
  (0 ≤ o)%Z → (o + Z.of_nat (String.length data) < 2 ^ 64)%Z →
  let v := mkLE o (Z.of_nat (String.length data)) in
  ∃ f', file_WriteData f [v] data = Ok f' ∧ file_ReadData f' [v] = Ok data ∧ length f ≤ length f' ∧
    (o + Z.of_nat (String.length data) ≤ file_Size f')%Z ∧
    ∀ i, i < length f → ¬ (o ≤ Z.of_nat i < o + Z.of_nat (String.length data))%Z → f' !! i = f !! i.
Proof.
  intros Ho Hw v. set (n := String.length data) in *.
  destruct (write_entry_ok f v (String.list_ascii_of_string data)) as (f' & Ew & Hlen & Hreg & Hrest); simpl;
    [lia..|rewrite string_list_length; fold n; lia|].
  exists f'. unfold file_WriteData. cbn [write_entries]. rewrite Ew. cbn [res_bind]. cbn [Offset Size v] in *.
  rewrite slice_from_Ok by (rewrite string_list_length; fold n; lia). cbn [res_bind write_entries].
  rewrite Nat2Z.id in Hreg. split_and!; [done| |lia|unfold file_Size; lia|done].
  unfold file_ReadData. cbn [read_entries]. rewrite read_entry_ok by (unfold file_Size; simpl; lia). cbn [Offset Size v].
  rewrite Nat2Z.id, Hreg. cbn [res_bind].
  rewrite take_ge by (rewrite string_list_length; fold n; lia). by rewrite app_nil_r, string_list_id.
Qed.

(** ** The blocks of a backend *)

Section blocks.
Context {T R : Type} `{TxStoreOk T} (codec : Codec R) `{!CodecOk codec} `{!CodecTotal codec}.
Context (marshal : BlockData → gerr string) (unmarshal : string → gerr BlockData).
Hypothesis marshal_ok : ∀ bd, ∃ b, marshal bd = inr b ∧ unmarshal b = inr bd.
Abbreviation backend := (treeBackend T R).

(** The entries of the block table, and the extents the blocks own. *)
Record blocks_ok (f : inMemoryFile) (E : extents) (m : smap) (B : gmap string BlockData) : Prop := {
  bo_table : ∀ id, match B !! id with
                   | Some bd => ∃ b, m !! pre "b" id = Some b ∧ unmarshal b = inr bd
                   | None => m !! pre "b" id = None
                   end;
  bo_in : ∀ id bd, B !! id = Some bd → Forall (le_in f E) (bd_Location bd) ∧ NoDup (map Offset (bd_Location bd));
  bo_own : ∀ id bd le id' bd' le', B !! id = Some bd → B !! id' = Some bd' →
    le ∈ bd_Location bd → le' ∈ bd_Location bd' → Offset le = Offset le' → id = id'
}.

(** What a client sees. *)
Definition blocks_view (self : backend) (B : gmap string BlockData) (bm : blockmap) : Prop :=
  ∀ id, match B !! id with
        | Some bd => ∃ d, bm !! id = Some (bd_Meta bd, d) ∧ ReadData codec (bd_Location bd) self = Ok (Some d)
        | None => bm !! id = None
        end.

Definition tree_rep (self : backend) (bm : blockmap) : Prop :=
  ∃ E m B, alloc_inv self E m ∧ blocks_ok (p self) E m B ∧ blocks_view self B bm.

(** The room the encoded data needs. *)
Definition tree_accepts (b : Block) (self : backend) : Prop :=
  ∀ d enc rnd', Data b = Some d → EncodeBytes codec d "" (rnd self) = (inr enc, rnd') →
    room (Z.of_nat (String.length enc)) self.

Lemma getBlockData_ok id (self : backend) E m B :
  alloc_inv self E m → blocks_ok (p self) E m B →
  ∃ self', getBlockData unmarshal id self = Ok (B !! id, self') ∧ alloc_inv self' E m ∧ p self' = p self ∧
    sb self' = sb self ∧ rnd self' = rnd self ∧ flushing self' = flushing self.
Proof.
  intros HI HB. unfold getBlockData. destruct (st_Get_ok "b" id (t self) m (ai_rep _ _ _ HI)) as (x & E1 & Hx).
  unfold blockTree. rewrite E1. cbn [res_bind fst snd]. pose proof (bo_table _ _ _ _ HB id) as Hb.
  exists (set_t x self). split; [|split_and!; [by apply alloc_inv_lookup|done..]].
  destruct (B !! id) as [bd|].
  - destruct Hb as (b & -> & ->). done.
  - by rewrite Hb.
Qed.

Lemma setBlockData_ok id bd (self : backend) E m :
  alloc_inv self E m →
  ∃ x b, setBlockData marshal id bd self = Ok (set_t x self) ∧ unmarshal b = inr bd ∧
    alloc_inv (set_t x self) E (<[pre "b" id := b]> m).
Proof.
  intros HI. unfold setBlockData. destruct (marshal_ok bd) as (b & Hb & Hu). rewrite Hb.
  destruct (st_Set_ok "b" id b (t self) m (ai_rep _ _ _ HI)) as (x & E1 & Hx). unfold blockTree. rewrite E1.
  exists x, b. split_and!; [done..|]. destruct HI. split; try done. destruct ai_free as [HS HO].
  split; by apply free_part_other.
Qed.

(** Only the free trees and the kinds of unowned extents changed. *)
Lemma blocks_ok_step f f' E E' m m' B :
  blocks_ok f E m B → length f ≤ length f' →
  (∀ id, m' !! pre "b" id = m !! pre "b" id) →
  (∀ id bd le, B !! id = Some bd → le ∈ bd_Location bd → E' !! Offset le = E !! Offset le) →
  blocks_ok f' E' m' B.
Proof.
  intros HB Hlen Hm HE. split.
  - intros id. rewrite Hm. apply (bo_table _ _ _ _ HB).
  - intros id bd Hbd. destruct (bo_in _ _ _ _ HB id bd Hbd) as [HF Hnd]. split; [|done].
    apply Forall_forall. intros le Hle. rewrite Forall_forall in HF. destruct (HF le Hle) as (H1 & H2 & H3 & H4).
    unfold le_in, file_Size in *. rewrite (HE id bd le) by done. split_and!; try done; lia.
  - apply (bo_own _ _ _ _ HB).
Qed.

(** The table gets or changes an entry. *)
Lemma blocks_ok_insert f E m B id bd b :
  blocks_ok f E m B → unmarshal b = inr bd →
  Forall (le_in f E) (bd_Location bd) → NoDup (map Offset (bd_Location bd)) →
  (∀ id' bd' le le', B !! id' = Some bd' → id' ≠ id → le ∈ bd_Location bd → le' ∈ bd_Location bd' →
     Offset le ≠ Offset le') →
  blocks_ok f E (<[pre "b" id := b]> m) (<[id := bd]> B).
Proof.
  intros HB Hu HF Hnd Hown. split.
  - intros id'. destruct (decide (id' = id)) as [->|Hne].
    + rewrite !lookup_insert_eq. eauto.
    + rewrite !lookup_insert_ne by (done || (intros [= ?]; congruence)). apply (bo_table _ _ _ _ HB).
  - intros id' bd' [[<- <-]|[_ Hb]]%lookup_insert_Some; [done|]. by eapply bo_in.
  - intros id1 bd1 le1 id2 bd2 le2 [[<- <-]|[N1 H1]]%lookup_insert_Some
      [[<- <-]|[N2 H2]]%lookup_insert_Some Hle1 Hle2 Eo; [done| | |by eapply bo_own].
    + by destruct (Hown id2 bd2 le1 le2 H2 (not_eq_sym N2) Hle1 Hle2).
    + by destruct (Hown id1 bd1 le2 le1 H1 (not_eq_sym N1) Hle2 Hle1).
Qed.

Lemma ReadData_frame ls (self self' : backend) E :
  Forall (le_in (p self) E) ls → length (p self) ≤ length (p self') →
  (∀ le i, le ∈ ls → (Offset le ≤ Z.of_nat i < Offset le + Size le)%Z → p self' !! i = p self !! i) →
  ReadData codec ls self' = ReadData codec ls self.
Proof.
  intros HF Hl Heq. unfold ReadData, file_ReadData. by rewrite (read_entries_frame (p self) (p self') E ls).
Qed.

(** *** StoreBlock *)

(** The slice for the encoded data, written; an empty slice needs no space. *)
Lemma allocate_write enc (self : backend) E m B :
  alloc_inv self E m → blocks_ok (p self) E m B → room (Z.of_nat (String.length enc)) self →
  ∃ self1 self2 ls E' m', allocateSlice (Z.of_nat (String.length enc)) self = Ok (Some ls, self1) ∧
    WriteData (Some ls) enc self1 = Ok self2 ∧ alloc_inv self2 E' m' ∧ blocks_ok (p self2) E' m' B ∧
    file_ReadData (p self2) ls = Ok enc ∧ Forall (le_in (p self2) E') ls ∧ NoDup (map Offset ls) ∧
    (∀ id bd le le', B !! id = Some bd → le ∈ ls → le' ∈ bd_Location bd → Offset le ≠ Offset le') ∧
    (∀ id bd, B !! id = Some bd → ReadData codec (bd_Location bd) self2 = ReadData codec (bd_Location bd) self) ∧
    (∀ id, m' !! pre "b" id = m !! pre "b" id).
Proof.
  intros HI HB Hroom. destruct (decide (String.length enc = 0)) as [E0|Hne].
  { destruct enc as [|c enc]; [|done]. exists self, (set_p (p self) self), [], E, m.
    split_and!; try done.
    - destruct HI. by split.
    - by apply NoDup_nil_2.
    - intros id bd le le' _ []%not_elem_of_nil. }
  set (n := Z.of_nat (String.length enc)) in *. pose proof (ai_total _ _ _ HI) as Ht.
  assert (0 < n < 2 ^ 60)%Z as Hn by (split; [unfold n; lia|apply Hroom]).
  destruct (allocateSlice_ok n self E m HI (proj1 Hn) Hroom) as (s1 & E' & m' & o & Ea & HI1 & Htr & Hused).
  destruct Hused as [Hfresh Hused]. pose proof (rounded_spec n Hn) as [Hrs Hra].
  assert (E' !! o = Some (rounded n, Used)) as Ho by (apply Hused; by left).
  pose proof (alloc_small _ _ _ HI1 _ _ _ Ho) as Hsm.
  destruct Htr as [(Hp & _) (ops & _ & Hm' & _)].
  destruct (write_read (p s1) o enc) as (f' & Ew & Er & Hlen & Hend & Hrest); [lia|unfold n in *; lia|].
  fold n in Ew, Er, Hend, Hrest. rewrite Hp in *.
  assert (∀ id bd le, B !! id = Some bd → le ∈ bd_Location bd →
    le_in (p self) E le ∧ E' !! Offset le = Some (BlockSize le, Used) ∧ Offset le ≠ o) as Hold.
  { intros id bd le Hbd Hle. destruct (bo_in _ _ _ _ HB id bd Hbd) as [HF _]. rewrite Forall_forall in HF.
    pose proof (HF le Hle) as Hin. split; [done|]. destruct Hin as (HE & _). split.
    - apply Hused. by right.
    - intros Eo. rewrite Eo in HE. by eapply Hfresh. }
  assert (∀ id bd, B !! id = Some bd → ∀ le i, le ∈ bd_Location bd →
    (Offset le ≤ Z.of_nat i < Offset le + Size le)%Z → f' !! i = p self !! i) as Hkeep.
  { intros id bd Hbd le i Hle Hi. destruct (Hold id bd le Hbd Hle) as ((_ & H1 & H2 & H3) & HE & Hne').
    apply Hrest; [unfold file_Size in H3; lia|].
    destruct (eo_disjoint _ _ (ai_ext _ _ _ HI1) _ _ _ _ _ _ HE Ho Hne'); lia. }
  exists s1, (set_p f' s1), [mkLE o n], E', m'. split; [done|].
  split; [unfold WriteData; rewrite Hp; simpl default; rewrite Ew; done|]. split_and!.
  - destruct HI1. by split.
  - eapply blocks_ok_step; [done|done| |].
    + intros id. rewrite Hm'. apply replay_block.
    + intros id bd le Hbd Hle. destruct (Hold id bd le Hbd Hle) as ((HE & _) & HE' & _). by rewrite HE, HE'.
  - done.
  - apply Forall_singleton. split_and!; cbn [Offset Size]; [done|lia|unfold n; lia|rewrite BlockSize_offset; lia|done].
  - apply NoDup_singleton.
  - intros id bd le le' Hbd ->%list_elem_of_singleton Hle'. destruct (Hold id bd le' Hbd Hle') as (_ & _ & Hne').
    cbn [Offset]. congruence.
  - intros id bd Hbd. eapply ReadData_frame; [by eapply (bo_in _ _ _ _ HB)|done|]. by apply (Hkeep id bd).
  - intros id. rewrite Hm'. apply replay_block.
Qed.

Lemma tree_StoreBlock_ok bl (self : backend) bm d :
  tree_rep self bm → bm !! Id bl = None → Data bl = Some d → tree_accepts bl self →
  ∃ self', tree_StoreBlock codec marshal bl self = Ok self' ∧ tree_rep self' (<[Id bl := (Meta bl, d)]> bm).
Proof.
  intros (E & m & B & HI & HB & HV) Hnone Hd Hacc. unfold tree_StoreBlock. rewrite Hd. cbn [deref res_bind].
  destruct (codec_total d "" (rnd self)) as (enc & rnd' & Henc). rewrite Henc.
  assert (alloc_inv (set_rnd rnd' self) E m) as HI0 by (destruct HI; by split).
  destruct (allocate_write enc (set_rnd rnd' self) E m B HI0 HB (Hacc d enc rnd' Hd Henc))
    as (s1 & s2 & ls & E' & m' & Ea & Ew & HI2 & HB2 & Hrd & Hin & Hnd & Hown & Hkeep & _).
  rewrite Ea. cbn [res_bind fst snd default]. rewrite Ew. cbn [res_bind].
  destruct (setBlockData_ok (Id bl) (mkBlockData (Meta bl) ls) s2 E' m' HI2) as (x & b & Es & Hu & HI3).
  exists (set_t x s2). split; [exact Es|]. eexists E', _, (<[Id bl := mkBlockData (Meta bl) ls]> B).
  split_and!; [exact HI3| |].
  - apply blocks_ok_insert; [done..|]. intros id' bd' le le' Hb' Hne. by apply (Hown id' bd').
  - intros id. destruct (decide (id = Id bl)) as [->|Hne].
    + rewrite !lookup_insert_eq. exists d. split; [done|]. unfold ReadData. cbn [bd_Location].
      change (p (set_t x s2)) with (p s2). rewrite Hrd. cbn [res_bind].
      by rewrite (codec_roundtrip _ _ _ _ _ Henc).
    + rewrite !lookup_insert_ne by done. specialize (HV id). destruct (B !! id) as [bd|] eqn:Eb; [|done].
      destruct HV as (d' & Hd' & Hr'). exists d'. split; [done|]. rewrite <- Hr'. exact (Hkeep id bd Eb).
Qed.

Lemma tree_UpdateBlock_ok bl (self : backend) bm md d :
  tree_rep self bm → bm !! Id bl = Some (md, d) →
  ∃ self', tree_UpdateBlock marshal unmarshal bl self = Ok (1%Z, self') ∧
    tree_rep self' (<[Id bl := (Meta bl, d)]> bm).
Proof.
  intros (E & m & B & HI & HB & HV) Hbm. unfold tree_UpdateBlock.
  destruct (getBlockData_ok (Id bl) self E m B HI HB) as (s1 & E1 & HI1 & Hp & _). rewrite E1. cbn [res_bind fst snd].
  pose proof (HV (Id bl)) as Hv. destruct (B !! Id bl) as [bd|] eqn:Eb; [|congruence]. cbn [deref res_bind].
  destruct Hv as (d' & Hbm' & Hr). assert (d' = d) as -> by congruence.
  destruct (setBlockData_ok (Id bl) (mkBlockData (Meta bl) (bd_Location bd)) s1 E m HI1) as (x & b & Es & Hu & HI2).
  rewrite Es. cbn [res_bind]. eexists. split; [done|].
  eexists E, _, (<[Id bl := mkBlockData (Meta bl) (bd_Location bd)]> B). split_and!; [exact HI2| |].
  - change (p (set_t x s1)) with (p s1). rewrite Hp. destruct (bo_in _ _ _ _ HB _ _ Eb).
    apply blocks_ok_insert; [done..|]. intros id' bd' le le' Hb' Hne Hle Hle' Eo. apply Hne.
    symmetry. by eapply (bo_own _ _ _ _ HB).
  - intros id. assert (∀ ls, ReadData codec ls (set_t x s1) = ReadData codec ls self) as Hrd.
    { intros ls. unfold ReadData. change (p (set_t x s1)) with (p s1). by rewrite Hp. }
    destruct (decide (id = Id bl)) as [->|Hne].
    + rewrite !lookup_insert_eq. exists d. by rewrite Hrd.
    + rewrite !lookup_insert_ne by done. specialize (HV id). destruct (B !! id) as [bd'|]; [|done].
      destruct HV as (d' & ? & Hr'). exists d'. by rewrite Hrd.
Qed.

Lemma free_ext_lookup ls E o :
  free_ext ls E !! o = E !! o ∨ o ∈ map Offset ls.
Proof.
  revert E. induction ls as [|le ls IH]; intros E; [by left|]. cbn [free_ext fold_left map].
  destruct (IH (<[Offset le := (BlockSize le, Free)]> E)) as [Heq|Hin]; [|right; by right].
  destruct (decide (o = Offset le)) as [->|Hne]; [right; by left|]. left.
  unfold free_ext in Heq. by rewrite Heq, lookup_insert_ne.
Qed.

Lemma tree_DeleteBlock_ok bl (self : backend) bm x0 :
  tree_rep self bm → bm !! Id bl = Some x0 →
  ∃ self', tree_DeleteBlock unmarshal bl self = Ok self' ∧ tree_rep self' (delete (Id bl) bm).
Proof.
  intros (E & m & B & HI & HB & HV) Hbm. unfold tree_DeleteBlock.
  destruct (getBlockData_ok (Id bl) self E m B HI HB) as (s1 & E1 & HI1 & Hp & _). rewrite E1. cbn [res_bind fst snd].
  pose proof (HV (Id bl)) as Hv. destruct (B !! Id bl) as [bd|] eqn:Eb; [|congruence].
  destruct (bo_in _ _ _ _ HB _ _ Eb) as [HF Hnd].
  destruct (freeSlice_ok (bd_Location bd) s1 E m HI1 Hnd) as (s2 & m2 & E2 & HI2 & [(Hp2 & _) (ops & _ & Hm2 & _)]).
  { eapply Forall_impl; [done|]. by intros le [? _]. }
  rewrite E2. cbn [res_bind]. pose proof (bo_table _ _ _ _ HB (Id bl)) as Htab. rewrite Eb in Htab.
  destruct Htab as (b & Hb & _).
  destruct (st_Delete_ok "b" (Id bl) (t s2) m2 (ai_rep _ _ _ HI2)) as (x & E3 & Hx).
  { rewrite Hm2, replay_block, Hb. eauto. }
  unfold blockTree. rewrite E3. cbn [res_bind]. eexists. split; [done|].
  assert (∀ ls, ReadData codec ls (set_t x s2) = ReadData codec ls self) as Hrd.
  { intros ls. unfold ReadData. change (p (set_t x s2)) with (p s2). by rewrite Hp2, Hp. }
  eexists (free_ext (bd_Location bd) E), _, (delete (Id bl) B). split_and!.
  - destruct HI2. split; [exact Hx| |done..]. destruct ai_free as [HS HO].
    split; by apply free_part_other_del.
  - change (p (set_t x s2)) with (p s2). rewrite Hp2, Hp. split.
    + intros id. destruct (decide (id = Id bl)) as [->|Hne]; [by rewrite !lookup_delete_eq|].
      rewrite !lookup_delete_ne by (done || (intros [= ?]; congruence)).
      rewrite Hm2, replay_block. apply (bo_table _ _ _ _ HB).
    + intros id bd' [Hne Hbd']%lookup_delete_Some. destruct (bo_in _ _ _ _ HB id bd' Hbd') as [HF' Hnd'].
      split; [|done]. apply Forall_forall. intros le Hle. rewrite Forall_forall in HF'.
      destruct (HF' le Hle) as (H1 & H2). split; [|done].
      destruct (free_ext_lookup (bd_Location bd) E (Offset le)) as [->|Hin]; [done|].
      apply list_elem_of_fmap in Hin as (le' & Eo & Hle'). destruct Hne. by eapply (bo_own _ _ _ _ HB).
    + intros id1 bd1 le1 id2 bd2 le2 [_ H1]%lookup_delete_Some [_ H2]%lookup_delete_Some.
      by apply (bo_own _ _ _ _ HB).
  - intros id. destruct (decide (id = Id bl)) as [->|Hne]; [by rewrite !lookup_delete_eq|].
    rewrite !lookup_delete_ne by done. specialize (HV id). destruct (B !! id) as [bd'|]; [|done].
    destruct HV as (d' & ? & Hr'). exists d'. by rewrite Hrd.
Qed.

End blocks.
