(* ===== verification/TreeProps.v ===== *)
(** * Properties of the tree backend

    The allocator hands out disjoint space and accounts for it, the log it keeps while
    the backend flushes rebuilds the free trees, and the backend is a block store. *)
From stdpp Require Import base list sets strings sorting gmap.
From Stdlib Require Import ZArith Lia Ascii.
From S2P Require Import Prelude OrderedMap Util IBNode IBStack IBTree Codec Backend TreeLocation TreeBackend TreeStore TreeAlloc TreeBlocks.

(** ** Live slices *)

Section live.
Context {T R : Type} `{TxStoreOk T}.
Abbreviation backend := (treeBackend T R).

(** The used extents of the device are exactly those of the entries in [live]. *)
Definition live_ok (self : backend) (live : list LocationEntry) : Prop :=
  ∃ E m, alloc_inv self E m ∧ NoDup (map Offset live) ∧
    ∀ o s, E !! o = Some (s, Used) ↔ ∃ le, le ∈ live ∧ Offset le = o ∧ BlockSize le = s.

(** The bytes of an entry, in whole blocks. *)
Definition disjoint_le (a b : LocationEntry) : Prop :=
  (Offset a + BlockSize a ≤ Offset b ∨ Offset b + BlockSize b ≤ Offset a)%Z.

Lemma live_used (self : backend) (live : list LocationEntry) E m le :
  alloc_inv self E m → (∀ o s, E !! o = Some (s, Used) ↔ ∃ le, le ∈ live ∧ Offset le = o ∧ BlockSize le = s) →
  le ∈ live → E !! Offset le = Some (BlockSize le, Used).
Proof. intros HI Hl Hle. apply Hl. by exists le. Qed.

(** What an invariant with a live entry says about the entry. *)
Lemma live_placed (self : backend) (live : list LocationEntry) le :
  live_ok self live → le ∈ live →
  (0 ≤ Offset le ∧ Offset le + BlockSize le ≤ BytesTotal (sb self))%Z ∧
  (∀ le', le' ∈ live → Offset le ≠ Offset le' → disjoint_le le le') ∧
  ∀ n i, calculateNumberOfSuperBlocks (BytesTotal (sb self)) = Ok n → i < n →
    disjoint_le le (mkLE (superBlockOffset i) superBlockSize).
Proof.
  intros (E & m & HI & Hnd & Hl) Hle. pose proof (live_used _ _ _ _ _ HI Hl Hle) as HE.
  pose proof (eo_in _ _ (ai_ext _ _ _ HI) _ _ _ HE) as Hin. split_and!; [lia..| |].
  - intros le' Hle' Hne. pose proof (live_used _ _ _ _ _ HI Hl Hle') as HE'.
    destruct (eo_disjoint _ _ (ai_ext _ _ _ HI) _ _ _ _ _ _ HE HE' Hne); [left|right]; lia.
  - intros n i Hn Hi. pose proof (ai_super _ _ _ HI n i Hn Hi) as Hs.
    destruct (eo_disjoint _ _ (ai_ext _ _ _ HI) _ _ _ _ _ _ HE Hs) as [?|?].
    + intros Eo. rewrite Eo, Hs in HE. done.
    + left. simpl. lia.
    + right. simpl. change (BlockSize _) with superBlockSize. lia.
Qed.

Lemma allocate_live size (self : backend) live :
  live_ok self live → (0 < size)%Z → room size self →
  ∃ self' o, allocateSlice size self = Ok (Some [mkLE o size], self') ∧
    live_ok self' (mkLE o size :: live) ∧ ∀ le, le ∈ live → Offset le ≠ o.
Proof.
  intros (E & m & HI & Hnd & Hl) Hs Hroom.
  destruct (allocateSlice_ok size self E m HI Hs Hroom) as (self' & E' & m' & o & Ea & HI' & _ & [Hfresh Hused]).
  assert (∀ le, le ∈ live → Offset le ≠ o) as Hne.
  { intros le Hle Eo. pose proof (live_used _ _ _ _ _ HI Hl Hle) as HE. rewrite Eo in HE. by eapply Hfresh. }
  exists self', o. split_and!; [done| |done]. exists E', m'. split_and!; [done| |].
  - simpl. apply NoDup_cons. split; [|done]. intros (le & Eo & Hle)%list_elem_of_fmap. by eapply Hne.
  - intros o' s'. rewrite Hused, Hl. setoid_rewrite elem_of_cons. split.
    + intros [[-> ->]|(le & Hle & <- & <-)]; [|by exists le; eauto]. exists (mkLE o size). split_and!; auto.
    + intros (le & [->|Hle] & <- & <-); [by left|right]. by exists le.
Qed.

Lemma free_live (self : backend) live le :
  live_ok self (le :: live) →
  ∃ self', freeSlice [le] self = Ok self' ∧ live_ok self' live ∧
    BytesUsed (sb self') = (BytesUsed (sb self) - BlockSize le)%Z ∧ BytesTotal (sb self') = BytesTotal (sb self).
Proof.
  intros (E & m & HI & Hnd & Hl). assert (E !! Offset le = Some (BlockSize le, Used)) as HE.
  { apply Hl. exists le. split_and!; [by left|done..]. }
  apply NoDup_cons in Hnd as [Hni Hnd]. cbn [freeSlice].
  destruct (addFree_used le self E m HI HE) as (s1 & m1 & E1 & HI1 & _).
  destruct (addFree_ok le self m (ai_rep _ _ _ HI)) as (s1' & E1' & _ & _ & _ & Ht).
  assert (s1' = s1) as -> by congruence.
  rewrite E1. cbn [res_bind]. exists s1. split_and!; [done| | |done].
  - exists (<[Offset le := (BlockSize le, Free)]> E), m1. split_and!; [done..|].
    intros o s. rewrite lookup_insert_Some, Hl. setoid_rewrite elem_of_cons. split.
    + intros [[_ [=]]|(Hne & le' & [->|Hle'] & <- & <-)]; [done|]. by exists le'.
    + intros (le' & Hle' & <- & <-). right. split.
      * intros Eo. apply Hni. rewrite Eo. by apply list_elem_of_fmap_2.
      * exists le'. split_and!; [by right|done..].
  - rewrite (ai_used _ _ _ HI1), (ai_used _ _ _ HI), (ext_sum_update _ _ _ _ _ HE). unfold weight. simpl. lia.
Qed.

(** ** The pending log *)

Lemma flush_ops_ok ops (self : backend) m :
  tx_rep (t self) m → replayable ops m →
  ∃ x, flush_ops ops self = Ok (set_t x self) ∧ tx_rep x (replay ops m).
Proof.
  revert self m. induction ops as [|op ops IH]; intros self m Ht Hr.
  - exists (t self). split; [by destruct self|done].
  - destruct Hr as [Hop Hr]. cbn [flush_ops]. destruct op as [le free].
    assert (∃ x, (if free then addFreeTree le self else removeFreeTree le self) = Ok (set_t x self) ∧
      tx_rep x (replay_op (mkOpEntry le free) m)) as (x & E1 & Hx).
    { destruct free; [by apply addFreeTree_ok|]. destruct (Hop eq_refl). by apply removeFreeTree_ok. }
    cbn [op_Free op_Location] in *. rewrite E1. cbn [res_bind].
    destruct (IH (set_t x self) _ Hx Hr) as (y & E2 & Hy). exists y. by rewrite E2.
Qed.

(** The log of a step rebuilds its free trees on any store with the old content. *)
Lemma flushPending_ok (self self' : backend) E' m m' x :
  alloc_inv self' E' m' → trans self m self' m' → flushing self = true → Pending (sb self) = [] →
  tx_rep x m →
  ∃ self'', flushPending (set_t x self') = Ok self'' ∧ alloc_inv self'' E' m' ∧ Pending (sb self'') = [] ∧
    p self'' = p self'.
Proof.
  intros HI [_ (ops & Hp & -> & Hr)] Hf Hp0 Hx. rewrite Hf, Hp0 in Hp. simpl in Hp. unfold flushPending.
  change (Pending (sb (set_t x self'))) with (Pending (sb self')). rewrite Hp.
  destruct (flush_ops_ok ops (set_t x self') m Hx Hr) as (y & E1 & Hy). rewrite E1. cbn [res_bind].
  eexists. split; [done|]. split_and!; [|done..]. destruct HI. by split.
Qed.

End live.

(** ** The backend as a block backend *)

Section backend.
Context {T R : Type} `{TxStore T} (codec : Codec R).
Context (marshal : BlockData → gerr string) (unmarshal : string → gerr BlockData).

Definition tree_blocks : BlockBackend (treeBackend T R) :=
  mkBlockBackend (tree_GetBlockData codec unmarshal) (tree_GetBlockById unmarshal)
    (tree_DeleteBlock unmarshal) (tree_StoreBlock codec marshal) (tree_UpdateBlock marshal unmarshal).

End backend.

Section store.
Context {T R : Type} `{TxStoreOk T} (codec : Codec R) `{!CodecOk codec} `{!CodecTotal codec}.
Context (marshal : BlockData → gerr string) (unmarshal : string → gerr BlockData).
Hypothesis marshal_ok : ∀ bd, ∃ b, marshal bd = inr b ∧ unmarshal b = inr bd.

Program Definition tree_store_ok : BlockStoreOk (tree_blocks (T := T) codec marshal unmarshal) :=
  {| bs_rep := tree_rep codec unmarshal; bs_accepts := tree_accepts codec |}.
Next Obligation.
  intros id s bm (E & m & B & HI & HB & HV).
  destruct (getBlockData_ok unmarshal id s E m B HI HB) as (s1 & E1 & HI1 & Hp & _).
  simpl. unfold tree_GetBlockById. rewrite E1. cbn [res_bind fst snd].
  assert (tree_rep codec unmarshal s1 bm) as Hs1.
  { exists E, m, B. rewrite Hp. split_and!; [done..|]. intros id'. specialize (HV id').
    unfold ReadData in *. by rewrite Hp. }
  specialize (HV id). destruct (B !! id) as [bd|].
  - destruct HV as (d & -> & _). eexists _, s1. split; [done|]. split; [done|]. by split_and!.
  - rewrite HV. by exists None, s1.
Qed.
Next Obligation.
  intros b s bm md d (E & m & B & HI & HB & HV) Hb.
  destruct (getBlockData_ok unmarshal (Id b) s E m B HI HB) as (s1 & E1 & HI1 & Hp & _).
  simpl. unfold tree_GetBlockData. rewrite E1. cbn [res_bind fst snd]. pose proof (HV (Id b)) as Hv.
  destruct (B !! Id b) as [bd|]; [|congruence]. destruct Hv as (d' & Hbm & Hr).
  assert (d' = d) as -> by congruence. unfold ReadData in Hr |- *. rewrite Hp, Hr. cbn [res_bind].
  exists s1. split; [done|]. exists E, m, B. rewrite Hp. split_and!; [done..|]. intros id'. specialize (HV id').
  unfold ReadData in *. by rewrite Hp.
Qed.
Next Obligation.
  intros b s bm r s' (E & m & B & HI & HB & HV).
  destruct (getBlockData_ok unmarshal (Id b) s E m B HI HB) as (s1 & E1 & HI1 & Hp & _).
  simpl. unfold tree_GetBlockData. rewrite E1. cbn [res_bind fst snd].
  assert (tree_rep codec unmarshal s1 bm) as Hs1.
  { exists E, m, B. rewrite Hp. split_and!; [done..|]. intros id'. specialize (HV id').
    unfold ReadData in *. by rewrite Hp. }
  destruct (B !! Id b) as [bd|]; [|by intros [= _ <-]].
  destruct (ReadData codec (bd_Location bd) s1); simpl; [by intros [= _ <-]|done..].
Qed.
Next Obligation. intros b s bm d ????. by apply tree_StoreBlock_ok. Qed.
Next Obligation. intros b s bm x ??. by eapply tree_DeleteBlock_ok. Qed.

(** UpdateBlock stores the metadata. *)
Lemma tree_update_ok : BlockUpdateOk (tree_blocks (T := T) codec marshal unmarshal) (BlockStoreOk0 := tree_store_ok).
Proof. constructor. intros b s bm md d. by apply tree_UpdateBlock_ok. Qed.

End store.

(** ** Properties *)

(** C8: allocateSlice always succeeds while the device has room below 2^60 bytes, within the fuel of
    the model, and returns one entry of the size asked for; the entry lies in the device and
    its blocks overlap neither those of a live entry nor a superblock. *)
Theorem allocate_disjoint {T R : Type} `{TxStoreOk T} size (self : treeBackend T R) live :
  live_ok self live → (0 < size)%Z → room size self →
  ∃ self' o, allocateSlice size self = Ok (Some [mkLE o size], self') ∧ live_ok self' (mkLE o size :: live) ∧
    (0 ≤ o ∧ o + BlockSize (mkLE o size) ≤ BytesTotal (sb self'))%Z ∧
    (∀ le, le ∈ live → disjoint_le (mkLE o size) le) ∧
    ∀ n i, calculateNumberOfSuperBlocks (BytesTotal (sb self')) = Ok n → i < n →
      disjoint_le (mkLE o size) (mkLE (superBlockOffset i) superBlockSize).
Proof.
  intros Hl Hs Hr. destruct (allocate_live size self live Hl Hs Hr) as (self' & o & Ea & Hl' & Hne).
  destruct (live_placed self' _ (mkLE o size) Hl') as (Hin & Hdis & Hsup); [by left|].
  exists self', o. split_and!; try done; [apply Hin..|]. intros le Hle. apply Hdis; [by right|].
  simpl. intros Eo. by eapply (Hne le).
Qed.

(** Freeing a live entry returns its blocks to the free trees and lowers BytesUsed by exactly their
    size; the remaining entries stay live, so the space can be handed out again. *)
Theorem free_returns_space {T R : Type} `{TxStoreOk T} (self : treeBackend T R) live le :
  live_ok self (le :: live) →
  ∃ self', freeSlice [le] self = Ok self' ∧ live_ok self' live ∧
    BytesUsed (sb self') = (BytesUsed (sb self) - BlockSize le)%Z ∧
    (0 ≤ BytesUsed (sb self') ≤ BytesTotal (sb self'))%Z ∧ BytesTotal (sb self') = BytesTotal (sb self).
Proof.
  intros Hl. destruct (free_live self live le Hl) as (self' & Ef & Hl' & Hu & Ht). exists self'.
  pose proof Hl' as (E & m & HI & _). pose proof (alloc_used_bounds _ _ _ HI). split_and!; done || lia.
Qed.

(** C33: space that is allocated while the backend flushes is recorded in the pending log: flushPending, on a
    store with the content the free trees had before, gives trees with the content they have
    after the allocation, and empties the log. *)
Theorem pending_log_rebuilds {T R : Type} `{TxStoreOk T} size (self : treeBackend T R) E m :
  alloc_inv self E m → flushing self = true → Pending (sb self) = [] → (0 < size)%Z → room size self →
  ∃ ls self' E' m', allocateSlice size self = Ok (Some ls, self') ∧ alloc_inv self' E' m' ∧
    ∀ x, tx_rep x m → ∃ self'', flushPending (set_t x self') = Ok self'' ∧ alloc_inv self'' E' m' ∧
      Pending (sb self'') = [].
Proof.
  intros HI Hf Hp Hs Hr.
  destruct (allocateSlice_ok size self E m HI Hs Hr) as (self' & E' & m' & o & Ea & HI' & Ht & _).
  exists [mkLE o size], self', E', m'. split_and!; [done..|]. intros x Hx.
  destruct (flushPending_ok self self' E' m m' x HI' Ht Hf Hp Hx) as (self'' & Ef & HI'' & Hp'' & _). eauto.
Qed.

(** C9: the tree backend is a block store: a stored block is read back with its data, the other blocks keep
    theirs, unknown ids give nil; UpdateBlock changes only the metadata, and DeleteBlock removes only its
    block. *)
Theorem tree_backend_blocks {T R : Type} `{TxStoreOk T} (codec : Codec R) `{!CodecOk codec} `{!CodecTotal codec}
  marshal unmarshal (self : treeBackend T R) bm bl d :
  (∀ bd, ∃ b, marshal bd = inr b ∧ unmarshal b = inr bd) →
  tree_rep codec unmarshal self bm → bm !! Id bl = None → Data bl = Some d → tree_accepts codec bl self →
  ∃ s1 s2 s3, tree_StoreBlock codec marshal bl self = Ok s1 ∧
    tree_rep codec unmarshal s1 (<[Id bl := (Meta bl, d)]> bm) ∧
    (∀ b, ∃ s', tree_GetBlockData codec unmarshal b s1 = Ok (snd <$> <[Id bl := (Meta bl, d)]> bm !! Id b, s')) ∧
    (∀ meta, ∃ s2', tree_UpdateBlock marshal unmarshal (with_Meta meta bl) s1 = Ok (1%Z, s2') ∧
       tree_rep codec unmarshal s2' (<[Id bl := (meta, d)]> bm)) ∧
    tree_GetBlockById unmarshal (Id bl) s1 =
      Ok (Some (with_Meta (Meta bl) (with_hasBackend true (new_Block (Id bl)))), s2) ∧
    tree_DeleteBlock unmarshal bl s1 = Ok s3 ∧ tree_rep codec unmarshal s3 bm.
Proof.
  intros Hmar Hrep Hnone Hd Hacc.
  destruct (tree_StoreBlock_ok codec marshal unmarshal Hmar bl self bm d Hrep Hnone Hd Hacc) as (s1 & E1 & Hs1).
  set (bm1 := <[Id bl := (Meta bl, d)]> bm) in *.
  assert (bm1 !! Id bl = Some (Meta bl, d)) as Hlk by apply lookup_insert_eq.
  destruct (tree_DeleteBlock_ok codec unmarshal bl s1 bm1 _ Hs1 Hlk) as (s3 & E3 & Hs3).
  unfold bm1 in Hs3. rewrite delete_insert_id in Hs3 by done.
  pose proof Hs1 as (E & m & B & HI & HB & HV).
  destruct (getBlockData_ok unmarshal (Id bl) s1 E m B HI HB) as (s2 & Eg & _).
  exists s1, s2, s3. split_and!; try done.
  - intros b. destruct (getBlockData_ok unmarshal (Id b) s1 E m B HI HB) as (s' & Eg' & _ & Hp & _).
    exists s'. unfold tree_GetBlockData. rewrite Eg'. cbn [res_bind fst snd]. pose proof (HV (Id b)) as Hv.
    destruct (B !! Id b) as [bd|]; [|by rewrite Hv]. destruct Hv as (d' & -> & Hr).
    unfold ReadData in *. by rewrite Hp, Hr.
  - intros meta. destruct (tree_UpdateBlock_ok codec marshal unmarshal Hmar (with_Meta meta bl) s1 bm1 _ _ Hs1 Hlk)
      as (s' & Eu & Hs'). exists s'. split; [done|]. unfold bm1 in Hs'. simpl in Hs'. by rewrite insert_insert_eq in Hs'.
  - unfold tree_GetBlockById. rewrite Eg. cbn [res_bind fst snd]. pose proof (HV (Id bl)) as Hv.
    destruct (B !! Id bl) as [bd|]; [|congruence]. destruct Hv as (d' & Hb & _). rewrite Hlk in Hb. by injection Hb as -> _.
Qed.

Lemma superBlockOffset_loop_0 i : superBlockOffset_loop i 0 = 0%Z.
Proof. by induction i. Qed.
Lemma superBlockOffset_le i : (superBlockOffset i ≤ 2 ^ 60)%Z.
Proof.
  do 12 (destruct i as [|i]; [vm_compute; done|]). unfold superBlockOffset.
  change (superBlockOffset_loop (S (S (S (S (S (S (S (S (S (S (S i))))))))))) (1024 * 1024)) with (superBlockOffset_loop i 0).
  rewrite superBlockOffset_loop_0. done.
Qed.

(** For a device of 2^60 bytes or more the offsets of the superblocks wrap around to 0, and the
    loop of calculateNumberOfSuperBlocks does not end, whatever the fuel. *)
Theorem superblock_count_diverges fuel s i : (2 ^ 60 ≤ s)%Z → count_loop fuel s i = NoFuel.
Proof.
  intros Hs. revert i. induction fuel as [|fuel IH]; intros i; [done|]. cbn [count_loop].
  pose proof (superBlockOffset_le i). destruct (Z.leb_spec (superBlockOffset i) s); [apply IH|lia].
Qed.

(** ** A concrete backend *)

Module TreeWitness.

Definition nop : Codec unit := chain_codec (CodecChain_Init []).
#[local] Instance nop_ok : CodecOk nop.
Proof. apply chain_ok. constructor. Qed.
#[local] Instance nop_total : CodecTotal nop.
Proof. constructor. intros data ad rnd. by exists data, rnd. Qed.

Definition marshal (bd : BlockData) : gerr string :=
  inr (pos_string (encode (RefCount (bd_Meta bd), Status (bd_Meta bd),
    map (λ le, (Offset le, Size le)) (bd_Location bd)))).
Definition unmarshal (s : string) : gerr BlockData :=
  match (q ← string_pos s; decode q) with
  | Some (rc, st, ls) => inr (mkBlockData (mkMeta rc st) (map (λ x, mkLE x.1 x.2) ls))
  | None => inl "bad"
  end.
Lemma block_marshal_ok bd : ∃ b, marshal bd = inr b ∧ unmarshal b = inr bd.
Proof.
  eexists. split; [done|]. unfold unmarshal. rewrite string_pos_string. cbn [mbind option_bind].
  rewrite decode_encode. destruct bd as [[rc st] ls]. do 2 f_equal. simpl. rewrite map_map.
  induction ls as [|[o s] ls IH]; [done|]. cbn [map]. f_equal. exact IH.
Qed.

(** A backend before its first use: nothing on the device. *)
Definition empty (fl : bool) : treeBackend (list kv) unit := mkTB (mkSB 0 0 0 [] [] None) [] [] fl tt.

Lemma empty_inv fl : alloc_inv (empty fl) ∅ ∅.
Proof.
  split.
  - apply list_rep_nil.
  - split; intros k v; rewrite lookup_empty; split; try done; intros (_ & o & s & Ho & _); done.
  - split; [done|done|]. apply ext_sum_empty.
  - by rewrite ext_sum_empty.
  - done.
  - intros n i [= <-] Hi. lia.
Qed.
Lemma empty_live fl : live_ok (empty fl) [].
Proof.
  exists ∅, ∅. split_and!; [apply empty_inv|by apply NoDup_nil_2|]. intros o s. rewrite lookup_empty.
  split; [done|]. intros (le & []%not_elem_of_nil & _).
Qed.
Lemma empty_rep fl : tree_rep nop unmarshal (empty fl) ∅.
Proof.
  exists ∅, ∅, ∅. split_and!; [apply empty_inv| |by intros id].
  split.
  - intros id. by rewrite !lookup_empty.
  - intros id bd []%lookup_empty_Some.
  - intros id bd le id' bd' le' []%lookup_empty_Some.
Qed.

Definition first : treeBackend (list kv) unit :=
  match allocateSlice 1000 (empty false) with Ok r => r.2 | _ => empty false end.

(** The first allocation comes right after the first superblock. *)
Lemma allocate_disjoint_witness :
  ∃ self', allocateSlice 1000 (empty false) = Ok (Some [mkLE 65536 1000], self') ∧
    live_ok self' [mkLE 65536 1000].
Proof.
  destruct (allocate_disjoint 1000 (empty false) [] (empty_live false)) as (self' & o & Ea & Hl & _);
    [lia|done|].
  assert (o = 65536%Z) as ->. { vm_compute in Ea. congruence. }
  by exists self'.
Defined.

Lemma first_live : live_ok first [mkLE 65536 1000].
Proof.
  destruct (allocate_live 1000 (empty false) [] (empty_live false)) as (self' & o & Ea & Hl & _); [lia|done|].
  unfold first. rewrite Ea. assert (o = 65536%Z) as ->; [|done]. vm_compute in Ea. congruence.
Qed.

Lemma free_returns_space_witness :
  ∃ self', freeSlice [mkLE 65536 1000] first = Ok self' ∧ live_ok self' [] ∧
    BytesUsed (sb self') = 65536%Z.
Proof.
  destruct (free_returns_space first [] (mkLE 65536 1000) first_live) as (self' & Ef & Hl & Hu & _).
  exists self'. split_and!; [done..|]. rewrite Hu. reflexivity.
Defined.

Lemma pending_log_rebuilds_witness :
  ∃ ls self', allocateSlice 1000 (empty true) = Ok (Some ls, self').
Proof.
  destruct (pending_log_rebuilds 1000 (empty true) ∅ ∅ (empty_inv true)) as (ls & self' & _ & _ & Ea & _);
    [done..|lia|done|]. eauto.
Defined.

Definition bl : Block := with_Data (Some "hello") (new_Block "id1").

Lemma tree_backend_blocks_witness :
  ∃ s1, tree_StoreBlock nop marshal bl (empty false) = Ok s1 ∧
    tree_rep nop unmarshal s1 {["id1" := (mkMeta 0 BS_UNSET, "hello")]}.
Proof.
  destruct (tree_backend_blocks nop marshal unmarshal (empty false) ∅ bl "hello" block_marshal_ok (empty_rep false))
    as (s1 & _ & _ & E1 & Hr & _); [done..| |by exists s1].
  intros d enc r [= <-] [= <- _]. done.
Defined.

Lemma superblock_count_diverges_witness : calculateNumberOfSuperBlocks (2 ^ 60) = NoFuel.
Proof. apply (superblock_count_diverges 12 (2 ^ 60) 1). lia. Defined.

End TreeWitness.
