(* ===== verification/FsState.v ===== *)
(** * State of the file system (src/fs/fs.go, inode.go, fs_greenpack.go)

    The file system keeps everything in one tree of keys and values; file data goes to blocks
    whose ids are hashes of their content.  In memory it tracks the inodes in use, with a
    cached copy of their metadata, and the open files.

    Operations run one at a time here: the locks of the code order the ones that touch
    the same inode or extent, and the goroutine that finishes a write holds the locks of the
    extent until it is done.  An inode object is named by its number: the tracker hands out
    one object per number as long as someone refers to it. *)
From stdpp Require Import base list sets strings sorting gmap.
From Stdlib Require Import ZArith Lia Ascii.
From S2P Require Import Prelude OrderedMap Util BlockKey TreeBackend TreeStore.

(** ** What the file system uses of a tree beyond [TxStore] *)

Class TxRange (T : Type) := { tx_DeleteRange : string → string → T → res T }.

Class TxRangeOk (T : Type) `{TxStoreOk T} `{!TxRange T} := {
  tx_DeleteRange_ok : ∀ k1 k2 t m, kltb k2 k1 = false → tx_rep t m →
    ∃ t', tx_DeleteRange k1 k2 t = Ok t' ∧
      tx_rep t' (filter (λ kv, in_range k1 k2 kv.1 = false) m)
}.

(** Ordered lists have ranges. *)
#[export] Instance list_TxRange : TxRange (list kv) := { tx_DeleteRange := λ k1 k2 l, Ok (om_delete_range k1 k2 l) }.
#[export] Program Instance list_TxRangeOk : TxRangeOk (list kv).
Next Obligation.
  intros k1 k2 l m Hle [Hs Hm]. eexists. split; [done|].
  assert (sorted_kvs (om_delete_range k1 k2 l)) as Hs'.
  { apply om_delete_range_sorted; [|done]. unfold kleb. by rewrite Hle. }
  split; [done|]. intros k. apply option_eq. intros v. rewrite (om_get_Some _ _ _ Hs'), map_lookup_filter_Some, <- Hm, (om_get_Some _ _ _ Hs).
  unfold om_delete_range, below, above. rewrite elem_of_app, !filter_elem_of. cbn [fst].
  unfold in_range. rewrite andb_false_iff, !negb_false_iff. tauto.
Qed.

(** ** Metadata *)

Record InodeMetaData : Type := mkIMD {
  StMode : Z; StRdev : Z; StUid : Z; StGid : Z;
  StAtimeNs : Z; StCtimeNs : Z; StMtimeNs : Z;
  StSize : Z; StNlink : Z; ParentIno : Z
}.
#[export] Instance InodeMetaData_eq_dec : EqDecision InodeMetaData.
Proof. solve_decision. Defined.

Abbreviation bytes := (list ascii).

(** [Data] is a slice, which may be nil. *)
Record InodeMeta : Type := mkIM { im_data :> InodeMetaData; im_Data : option bytes }.

(** The length and the content of a slice that may be nil. *)
Definition content (d : option bytes) : bytes := default [] d.

Definition set_StMode v m := mkIMD v (StRdev m) (StUid m) (StGid m) (StAtimeNs m) (StCtimeNs m) (StMtimeNs m) (StSize m) (StNlink m) (ParentIno m).
Definition set_StRdev v m := mkIMD (StMode m) v (StUid m) (StGid m) (StAtimeNs m) (StCtimeNs m) (StMtimeNs m) (StSize m) (StNlink m) (ParentIno m).
Definition set_StUid v m := mkIMD (StMode m) (StRdev m) v (StGid m) (StAtimeNs m) (StCtimeNs m) (StMtimeNs m) (StSize m) (StNlink m) (ParentIno m).
Definition set_StGid v m := mkIMD (StMode m) (StRdev m) (StUid m) v (StAtimeNs m) (StCtimeNs m) (StMtimeNs m) (StSize m) (StNlink m) (ParentIno m).
Definition set_times a c t m := mkIMD (StMode m) (StRdev m) (StUid m) (StGid m) a c t (StSize m) (StNlink m) (ParentIno m).
Definition set_StSize v m := mkIMD (StMode m) (StRdev m) (StUid m) (StGid m) (StAtimeNs m) (StCtimeNs m) (StMtimeNs m) v (StNlink m) (ParentIno m).
Definition set_StNlink v m := mkIMD (StMode m) (StRdev m) (StUid m) (StGid m) (StAtimeNs m) (StCtimeNs m) (StMtimeNs m) (StSize m) v (ParentIno m).
Definition set_ParentIno v m := mkIMD (StMode m) (StRdev m) (StUid m) (StGid m) (StAtimeNs m) (StCtimeNs m) (StMtimeNs m) (StSize m) (StNlink m) v.
Definition on_imd (f : InodeMetaData → InodeMetaData) (m : InodeMeta) : InodeMeta := mkIM (f (im_data m)) (im_Data m).
Definition set_Data (d : option bytes) (m : InodeMeta) : InodeMeta := mkIM (im_data m) d.

(** The zero values of the types. *)
Definition InodeMetaData0 : InodeMetaData := mkIMD 0 0 0 0 0 0 0 0 0 0.
Definition InodeMeta0 : InodeMeta := mkIM InodeMetaData0 None.

(** uint32 arithmetic of the link count. *)
Definition wrapu32 (z : Z) : Z := (z mod 4294967296)%Z.

(** Mode bits of [fuse]. *)
Definition S_IFDIR : Z := 16384.
Definition S_IFREG : Z := 32768.
Definition S_IFLNK : Z := 40960.
Definition FUSE_ROOT_ID : Z := 1.

(** ** Environment

    The generated encoder of [InodeMeta], SHA-256, the clock and the generator of inode
    numbers; the last two are streams, read one value at a time. *)
Class FsEnv := {
  MarshalMsg : InodeMeta → string;
  UnmarshalMsg : string → option InodeMeta;
  Sum256 : string → string;
  time_Now : nat → Z;
  CreateInodeNumber : nat → Z
}.

(** What the code relies on: metadata survives the encoding, up to the difference between a
    nil and an empty slice, the hash tells contents apart, and clock values are not zero,
    which marks a time that is not set. *)
Class FsEnvOk `{FsEnv} : Prop := {
  Unmarshal_Marshal : ∀ m, ∃ d, UnmarshalMsg (MarshalMsg m) = Some (mkIM (im_data m) d) ∧
    content d = content (im_Data m);
  Sum256_inj : Inj (=) (=) Sum256;
  time_Now_pos : ∀ n, (0 < time_Now n)%Z
}.
#[export] Existing Instance Sum256_inj.

(** ** State *)

Record inode : Type := mkInode { refcnt : Z; removed : bool; i_meta : option InodeMeta }.

Record inodeFH : Type := mkFH {
  fh_inode : Z; fh : Z; flags : Z; pos : Z; lastKey : option BlockKey; readNextInodeBruteForceCount : Z
}.

Record deleteNotify : Type := mkDeleteNotify { dn_Parent : Z; dn_Child : Z; dn_Name : string }.

Record Fs (T : Type) : Type := mkFs {
  root : T;                          (* the root of the hugger *)
  stored : gmap string string;       (* blocks of the storage, by id *)
  ino2inode : gmap Z inode;
  ino2fhcount : gmap Z Z;
  fh2ifile : gmap Z inodeFH;
  nextFh : Z;
  writeBuffers : list bytes;
  deleted : list deleteNotify;
  clock : nat;
  generated : nat
}.
Arguments mkFs {T} _ _ _ _ _ _ _ _ _ _.
Arguments root {T} _.
Arguments stored {T} _.
Arguments ino2inode {T} _.
Arguments ino2fhcount {T} _.
Arguments fh2ifile {T} _.
Arguments nextFh {T} _.
Arguments writeBuffers {T} _.
Arguments deleted {T} _.
Arguments clock {T} _.
Arguments generated {T} _.

Section setters.
Context {T : Type}.
Abbreviation F := (Fs T).
Definition set_root v (s : F) : F := mkFs v (stored s) (ino2inode s) (ino2fhcount s) (fh2ifile s) (nextFh s) (writeBuffers s) (deleted s) (clock s) (generated s).
Definition set_stored v (s : F) : F := mkFs (root s) v (ino2inode s) (ino2fhcount s) (fh2ifile s) (nextFh s) (writeBuffers s) (deleted s) (clock s) (generated s).
Definition set_ino2inode v (s : F) : F := mkFs (root s) (stored s) v (ino2fhcount s) (fh2ifile s) (nextFh s) (writeBuffers s) (deleted s) (clock s) (generated s).
Definition set_ino2fhcount v (s : F) : F := mkFs (root s) (stored s) (ino2inode s) v (fh2ifile s) (nextFh s) (writeBuffers s) (deleted s) (clock s) (generated s).
Definition set_fh2ifile v (s : F) : F := mkFs (root s) (stored s) (ino2inode s) (ino2fhcount s) v (nextFh s) (writeBuffers s) (deleted s) (clock s) (generated s).
Definition set_nextFh v (s : F) : F := mkFs (root s) (stored s) (ino2inode s) (ino2fhcount s) (fh2ifile s) v (writeBuffers s) (deleted s) (clock s) (generated s).
Definition set_writeBuffers v (s : F) : F := mkFs (root s) (stored s) (ino2inode s) (ino2fhcount s) (fh2ifile s) (nextFh s) v (deleted s) (clock s) (generated s).
Definition set_deleted v (s : F) : F := mkFs (root s) (stored s) (ino2inode s) (ino2fhcount s) (fh2ifile s) (nextFh s) (writeBuffers s) v (clock s) (generated s).
Definition set_clock v (s : F) : F := mkFs (root s) (stored s) (ino2inode s) (ino2fhcount s) (fh2ifile s) (nextFh s) (writeBuffers s) (deleted s) v (generated s).
Definition set_generated v (s : F) : F := mkFs (root s) (stored s) (ino2inode s) (ino2fhcount s) (fh2ifile s) (nextFh s) (writeBuffers s) (deleted s) (clock s) v.
End setters.

(** ** The monad of the operations *)

Definition FM (T A : Type) : Type := Fs T → res (A * Fs T).

#[export] Instance FM_ret (T : Type) : MRet (FM T) := λ A a s, Ok (a, s).
#[export] Instance FM_bind (T : Type) : MBind (FM T) := λ A B k m s,
  match m s with Ok (a, s') => k a s' | Panic msg => Panic msg | NoFuel => NoFuel end.

Section ops.
Context {T : Type}.
Definition fpanic {A : Type} (msg : string) : FM T A := λ _, Panic msg.
(** A call that does not return. *)
Definition fstuck {A : Type} : FM T A := λ _, NoFuel.
Definition fgets {A : Type} (f : Fs T → A) : FM T A := λ s, Ok (f s, s).
Definition fmodify (f : Fs T → Fs T) : FM T unit := λ s, Ok (tt, f s).
Definition flift {A : Type} (r : res A) : FM T A := λ s,
  match r with Ok a => Ok (a, s) | Panic msg => Panic msg | NoFuel => NoFuel end.

(** A pointer that may be nil. *)
Definition fnonnil {A : Type} (p : option A) : FM T A := flift (deref p).

(** Fields of an inode object. *)
Definition i_load (ino : Z) : FM T inode := λ s,
  match ino2inode s !! ino with Some i => Ok (i, s) | None => Panic "inode not referred to" end.
Definition i_upd (ino : Z) (f : inode → inode) : FM T unit :=
  i ← i_load ino; fmodify (λ s, set_ino2inode (<[ino := f i]> (ino2inode s)) s).

Context `{FsEnv}.

(** [time.Now().UnixNano()]. *)
Definition Now : FM T Z := λ s, Ok (time_Now (clock s), set_clock (S (clock s)) s).

Context `{TxStore T}.

(** [Hugger.Update2] when no other transaction commits in between: the callback works on a
    transaction that starts at the root, and its result becomes the root when it says so. *)
Definition Update2 {A : Type} (cb : T → FM T (T * (bool * A))) : FM T (bool * A) :=
  tr ← fgets root;
  r ← cb tr;
  let '(tr', (ok, a)) := (r : T * (bool * A)) in
  if ok then _ ← fmodify (set_root tr'); mret (true, a)
  else mret (false, a).

Definition Update {A : Type} (cb : T → FM T (T * A)) : FM T A :=
  r ← Update2 (λ tr, x ← cb tr; mret (x.1, (true, x.2)));
  mret (r : bool * A).2.

(** Reading through a nested transaction, which is closed without a commit. *)
Definition ib_Get (k : BlockKey) (tr : T) : FM T (option string) :=
  r ← flift (tx_Get k tr); mret (r : option string * T).1.
Definition ib_NextKey (k : BlockKey) (tr : T) : FM T (option string) :=
  r ← flift (tx_NextKey k tr); mret (r : option string * T).1.

(** [Hugger.GetStorageBlock] and [Storage.GetBlockById]: contents by hash. *)
Definition GetStorageBlock (b : string) : FM T string :=
  let id := Sum256 b in
  _ ← fmodify (λ s, match stored s !! id with
                    | Some _ => s
                    | None => set_stored (<[id := b]> (stored s)) s
                    end);
  mret id.
Definition StorageData (id : string) : FM T (option string) := fgets (λ s, stored s !! id).
End ops.

(** ** Running the monad *)

Lemma FM_bind_ok {T A B : Type} (m : FM T A) (k : A → FM T B) s a s1 :
  m s = Ok (a, s1) → (m ≫= k) s = k a s1.
Proof. unfold mbind, FM_bind. by intros ->. Qed.

Lemma FM_bind_Ok {T A B : Type} (m : FM T A) (k : A → FM T B) s b s' :
  (m ≫= k) s = Ok (b, s') → ∃ a s1, m s = Ok (a, s1) ∧ k a s1 = Ok (b, s').
Proof. unfold mbind, FM_bind. destruct (m s) as [[a s1]| |]; [eauto|done..]. Qed.

(** Take the first step of a sequence whose result is known, or given. *)
Ltac fm_step := erewrite FM_bind_ok by (eassumption || reflexivity); cbn beta iota.
Tactic Notation "fm_step" "with" uconstr(H) := erewrite FM_bind_ok by (eapply H; eassumption || reflexivity); cbn beta iota.
