(* ===== verification/Inode.v ===== *)
(** * Inodes (src/fs/inode.go)

    Metadata, directory entries, extended attributes and the tracker of inodes and open
    files. *)
From stdpp Require Import base list sets strings sorting gmap.
From Stdlib Require Import ZArith Lia Ascii.
From S2P Require Import Prelude OrderedMap Util BlockKey TreeBackend TreeStore FsState.

(** The status codes of [fuse] the code returns. *)
Inductive Status : Type :=
| OK | ENOENT | EACCES | EPERM | ENOTDIR | EEXIST | ENOTEMPTY | EINVAL | ENOATTR | ENOSYS.
Definition is_OK (c : Status) : bool := match c with OK => true | _ => false end.

Definition blockSize : Z := 512.
Definition attrValidity : Z := 5.
Definition entryValidity : Z := 5.

Record Attr : Type := mkAttr {
  a_Ino : Z; a_Size : Z; a_Blocks : Z;
  a_Atime : Z; a_Atimensec : Z; a_Ctime : Z; a_Ctimensec : Z; a_Mtime : Z; a_Mtimensec : Z;
  a_Mode : Z; a_Nlink : Z; a_Uid : Z; a_Gid : Z; a_Rdev : Z
}.
Definition Attr0 : Attr := mkAttr 0 0 0 0 0 0 0 0 0 0 0 0 0 0.
Record EntryOut : Type := mkEntryOut { eo_NodeId : Z; eo_Generation : Z; eo_EntryValid : Z; eo_AttrValid : Z; eo_Attr : Attr }.

Definition unixNanoToFuse (t : Z) : Z * Z := (t / 1000000000, t mod 1000000000)%Z.

(** ** Metadata *)

Definition IsDir_mode (mode : Z) : bool := negb (Z.land mode S_IFDIR =? 0)%Z.
(** [InodeMetaData.IsDir], on a pointer that may be nil. *)
Definition IsDir (m : option InodeMeta) : bool :=
  match m with Some m => IsDir_mode (StMode m) | None => false end.

Definition SetMkdirIn (uid gid mode umask : Z) (m : InodeMetaData) : InodeMetaData :=
  set_StMode (Z.lor mode (Z.land S_IFDIR (4294967295 - umask))) (set_StGid gid (set_StUid uid m)).
Definition SetCreateIn (uid gid mode : Z) (m : InodeMetaData) : InodeMetaData :=
  set_StMode (Z.lor mode S_IFREG) (set_StGid gid (set_StUid uid m)).
Definition SetMknodIn (uid gid mode rdev : Z) (m : InodeMetaData) : InodeMetaData :=
  set_StRdev rdev (set_StMode mode (set_StGid gid (set_StUid uid m))).

Definition setTimeValues (atime ctime mtime : option Z) (m : InodeMetaData) : InodeMetaData :=
  set_times (default (StAtimeNs m) atime) (default (StCtimeNs m) ctime) (default (StMtimeNs m) mtime) m.

Section code.
Context {T : Type} `{FsEnv} `{TxStore T} `{!TxRange T}.
Abbreviation M := (FM T).

Definition setTimesNow (uatime uctime umtime : bool) (m : InodeMeta) : M InodeMeta :=
  now ← Now;
  let sel (b : bool) := if b then Some now else None in
  mret (on_imd (setTimeValues (sel uatime) (sel uctime) (sel umtime)) m).
Definition SetATimeNow : InodeMeta → M InodeMeta := setTimesNow true false false.
Definition SetCTimeNow : InodeMeta → M InodeMeta := setTimesNow true true false.
Definition SetMTimeNow : InodeMeta → M InodeMeta := setTimesNow true true true.

Definition decodeInodeMeta (v : string) : M InodeMeta :=
  match UnmarshalMsg v with Some m => mret m | None => fpanic "UnmarshalMsg" end.

Definition getMeta (ino : Z) : M (option InodeMeta) :=
  let k := NewBlockKey ino BST_META "" in
  tr ← fgets root;
  v ← ib_Get k tr;
  match v with
  | None => mret None
  | Some v => m ← decodeInodeMeta v; mret (Some m)
  end.

(** [inode.Meta]: the cached copy, or the one of the tree, which is then cached. *)
Definition Meta (ino : Z) : M (option InodeMeta) :=
  i ← i_load ino;
  match i_meta i with
  | Some m => mret (Some m)
  | None =>
      om ← getMeta ino;
      match om with
      | None => mret None
      | Some m =>
          _ ← i_upd ino (λ i, mkInode (refcnt i) (removed i) (Some m));
          mret (Some m)
      end
  end.

Definition inode_IsDir (ino : Z) : M bool := m ← Meta ino; mret (IsDir m).
Definition IsFile (ino : Z) : M bool :=
  m ← Meta ino; mret (match (m : option InodeMeta) with Some m => negb (Z.land (StMode m) S_IFREG =? 0)%Z | None => false end).
Definition IsLink (ino : Z) : M bool :=
  m ← Meta ino; mret (match (m : option InodeMeta) with Some m => negb (Z.land (StMode m) S_IFLNK =? 0)%Z | None => false end).

(** [SetMetaInTransaction]: the metadata with its unset times filled in, the transaction, and
    whether anything was written. *)
Definition SetMetaInTransaction (ino : Z) (meta : InodeMeta) (tr : T) : M (InodeMeta * T * bool) :=
  meta ← (let a := (StAtimeNs meta =? 0)%Z in
          let c := (StCtimeNs meta =? 0)%Z in
          let t := (StMtimeNs meta =? 0)%Z in
          if a || c || t then setTimesNow a c t meta else mret meta);
  let k := NewBlockKey ino BST_META "" in
  let b := MarshalMsg meta in
  i ← i_load ino;
  let changed := match i_meta i with
                 | None => true
                 | Some old => negb (bool_decide (im_data old = im_data meta)) ||
                               negb (bool_decide (content (im_Data meta) = content (im_Data old)))
                 end in
  if changed then
    tr' ← flift (tx_Set k b tr);
    _ ← i_upd ino (λ i, mkInode (refcnt i) (removed i) (Some meta));
    mret (meta, tr', true)
  else mret (meta, tr, false).

Definition SetMetaSizeInTransaction (ino : Z) (meta : InodeMeta) (size : Z) (tr : T)
  : M (InodeMeta * T * bool) :=
  if (size =? StSize meta)%Z then mret (meta, tr, false)
  else
    let shrink := (size <? StSize meta)%Z && (dataExtentSize <? StSize meta)%Z in
    let meta := on_imd (set_StSize size) meta in
    let meta := if (EmbeddedSize <? size)%Z then set_Data None meta else meta in
    if shrink then
      let nextKey := NewBlockKeyOffset ino (wrap64 (size + dataExtentSize)) in
      let lastKey := NewBlockKeyOffset ino (2 ^ 62) in
      tr' ← flift (tx_DeleteRange nextKey lastKey tr);
      mret (meta, tr', true)
    else mret (meta, tr, true).

(** ** Iteration over the keys of an inode *)

Fixpoint IterateInoSubTypeKeys {A : Type} (fuel : nat) (tr : T) (ino bst : Z) (k : BlockKey)
    (keycb : BlockKey → A → M (A * bool)) (acc : A) : M A :=
  match fuel with
  | O => fstuck
  | S fuel' =>
      nkeyp ← ib_NextKey k tr;
      match nkeyp with
      | None => mret acc
      | Some nkey =>
          nino ← flift (Ino nkey);
          if negb (nino =? ino)%Z || negb (SubType nkey =? bst)%Z then mret acc
          else
            r ← keycb nkey acc;
            let '(acc, more) := (r : A * bool) in
            if more then IterateInoSubTypeKeys fuel' tr ino bst nkey keycb acc
            else mret acc
      end
  end.
Definition IterateSubTypeKeys {A : Type} (fuel : nat) (ino bst : Z)
    (keycb : BlockKey → A → M (A * bool)) (acc : A) : M A :=
  tr ← fgets root;
  IterateInoSubTypeKeys fuel tr ino bst (NewBlockKey ino bst "") keycb acc.

(** One key is enough. *)
Definition HasSubTypeKey (ino subtype : Z) : M bool :=
  IterateSubTypeKeys 1 ino subtype (λ _ _, mret (true, false)) false.

(** ** References *)

Definition deleteInode (ino : Z) : M unit :=
  r ← Update2 (λ tr,
    has ← HasSubTypeKey ino BST_FILE_INODEFILENAME;
    if (has : bool) then mret (tr, (false, tt))
    else
      let k1 := NewBlockKey ino BST_NONE "" in
      let k2 := NewBlockKey ino BST_LAST "" in
      tr' ← flift (tx_DeleteRange k1 k2 tr);
      mret (tr', (true, tt)));
  if (r : bool * unit).1
  then fmodify (λ s, set_ino2inode (alter (λ i, mkInode (refcnt i) false (i_meta i)) ino (ino2inode s)) s)
  else mret tt.

Definition addRefCount (ino : Z) (delta : Z) : M unit :=
  _ ← i_upd ino (λ i, mkInode (refcnt i + delta)%Z (removed i) (i_meta i));
  i ← i_load ino;
  if (0 <? refcnt i)%Z then mret tt
  else if (refcnt i =? 0)%Z then
    _ ← fmodify (λ s, set_ino2inode (delete ino (ino2inode s)) s);
    if removed i then deleteInode ino else mret tt
  else fpanic "inode refcount below zero".

Definition Refer (ino : Z) : M unit := addRefCount ino 1.
(** On a nil inode nothing happens. *)
Definition Release (ino : option Z) : M unit :=
  match ino with Some ino => addRefCount ino (-1) | None => mret tt end.
Definition Forget (ino : option Z) (nlookup : Z) : M unit :=
  match ino with Some ino => addRefCount ino (- nlookup) | None => mret tt end.

(** ** The tracker *)

Definition getInode (ino : Z) : M Z :=
  _ ← fmodify (λ s,
    let n := default (mkInode 0 false None) (ino2inode s !! ino) in
    set_ino2inode (<[ino := mkInode (refcnt n + 1)%Z (removed n) (i_meta n)]> (ino2inode s)) s);
  mret ino.

Definition GetInode (ino : Z) : M (option Z) :=
  n ← getInode ino;
  m ← Meta n;
  match m with
  | None => _ ← Release (Some n); mret None
  | Some _ => mret (Some n)
  end.

(** An inode number that is on disk but not in use makes the code release the inode it just made
    with the tracker's lock held, which waits for that lock: it does not return. *)
Fixpoint createInode (fuel : nat) : M Z :=
  match fuel with
  | O => fstuck
  | S fuel' =>
      n ← fgets generated;
      _ ← fmodify (set_generated (S n));
      let ino := CreateInodeNumber n in
      inodes ← fgets ino2inode;
      if (ino =? 0)%Z || bool_decide (is_Some ((inodes : gmap Z inode) !! ino)) then createInode fuel'
      else
        i ← getInode ino;
        m ← Meta i;
        match m with
        | Some _ => fstuck
        | None => mret i
        end
  end.
Definition CreateInode (fuel : nat) : M Z := createInode fuel.

Definition AddFile (file : inodeFH) : M inodeFH :=
  n ← fgets nextFh;
  let fhn := wrap64 (n + 1) in
  _ ← fmodify (set_nextFh fhn);
  let file := mkFH (fh_inode file) fhn (flags file) (pos file) (lastKey file) (readNextInodeBruteForceCount file) in
  _ ← fmodify (λ s, set_fh2ifile (<[fhn := file]> (fh2ifile s)) s);
  _ ← Refer (fh_inode file);
  _ ← fmodify (λ s,
    set_ino2fhcount (<[fh_inode file := match ino2fhcount s !! fh_inode file with
                                        | Some count => count + 1
                                        | None => 1
                                        end%Z]> (ino2fhcount s)) s);
  mret file.

Definition GetFile (ino flags : Z) : M inodeFH := AddFile (mkFH ino 0 flags 0 None 0).

Definition GetFileByFh (fhn : Z) : M (option inodeFH) := fgets (λ s, fh2ifile s !! fhn).

Definition RemoveFile (file : inodeFH) : M unit :=
  let ino := fh_inode file in
  _ ← fmodify (λ s, set_fh2ifile (delete (fh file) (fh2ifile s)) s);
  counts ← fgets ino2fhcount;
  let count := default 0%Z ((counts : gmap Z Z) !! ino) in
  _ ← (if (1 <? count)%Z then fmodify (λ s, set_ino2fhcount (<[ino := (count - 1)%Z]> (ino2fhcount s)) s)
       else
         _ ← fmodify (λ s, set_ino2fhcount (delete ino (ino2fhcount s)) s);
         i ← i_load ino;
         if removed i then deleteInode ino else mret tt);
  Release (Some ino).

(** ** Directory entries *)

Definition AddChild (self : Z) (name : string) (child : Z) : M Status :=
  r ← Update2 (λ tr,
    cm ← Meta child;
    match (cm : option InodeMeta) with
    | None => mret (tr, (false, ENOENT))
    | Some cmeta =>
        cmeta ← SetCTimeNow cmeta;
        let cmeta := on_imd (set_StNlink (wrapu32 (StNlink (cmeta : InodeMeta) + 1))) cmeta in
        isdir ← inode_IsDir child;
        let cmeta := if (isdir : bool) then on_imd (set_ParentIno self) cmeta else cmeta in
        r ← SetMetaInTransaction child cmeta tr;
        let tr := (r : InodeMeta * T * bool).1.2 in
        m ← Meta self;
        match (m : option InodeMeta) with
        | None => mret (tr, (false, ENOENT))
        | Some meta =>
            meta ← SetMTimeNow meta;
            r ← SetMetaInTransaction self meta tr;
            let tr := (r : InodeMeta * T * bool).1.2 in
            let k := NewBlockKeyDirFilename self name in
            let rk := NewBlockKeyReverseDirFilename child self name in
            tr ← flift (tx_Set k (Uint64Bytes child) tr);
            tr ← flift (tx_Set rk "" tr);
            mret (tr, (true, OK))
        end
    end);
  mret (r : bool * Status).2.

(** The transaction of [RemoveChild]. *)
Definition RemoveChild_cb (self child : Z) (name : string) (tr : T) : M (T * (bool * Status)) :=
  cm ← Meta child;
  match (cm : option InodeMeta) with
  | None => mret (tr, (false, ENOENT))
  | Some cmeta =>
      let cmeta := on_imd (set_StNlink (wrapu32 (StNlink (cmeta : InodeMeta) - 1))) cmeta in
      let cmeta := on_imd (set_ParentIno 0) cmeta in
      cmeta ← SetCTimeNow cmeta;
      r ← SetMetaInTransaction child cmeta tr;
      let tr := (r : InodeMeta * T * bool).1.2 in
      m ← Meta self;
      match (m : option InodeMeta) with
      | None => mret (tr, (false, ENOENT))
      | Some meta =>
          meta ← SetMTimeNow meta;
          r ← SetMetaInTransaction self meta tr;
          let tr := (r : InodeMeta * T * bool).1.2 in
          let k := NewBlockKeyDirFilename self name in
          let rk := NewBlockKeyReverseDirFilename child self name in
          tr ← flift (tx_Delete k tr);
          tr ← flift (tx_Delete rk tr);
          mret (tr, (true, OK))
      end
  end.

Definition RemoveChild (self child : Z) (name : string) : M Status :=
  r ← Update2 (RemoveChild_cb self child name);
  let '(ok, code) := (r : bool * Status) in
  _ ← (if ok then
         counts ← fgets ino2fhcount;
         _ ← i_upd child (λ i, mkInode (refcnt i) true (i_meta i));
         match (counts : gmap Z Z) !! child with
         | None => deleteInode child
         | Some _ => mret tt
         end
       else mret tt);
  _ ← fmodify (λ s, set_deleted (deleted s ++ [mkDeleteNotify self child name]) s);
  mret code.

Definition GetChildByName (self : Z) (name : string) : M (option Z) :=
  let k := NewBlockKeyDirFilename self name in
  tr ← fgets root;
  v ← ib_Get k tr;
  match v with
  | None => mret None
  | Some v => ino ← flift (be_read 8 v); GetInode ino
  end.

(** ** Extended attributes *)

Definition GetXAttr (self : Z) (attr : string) : M (option string * Status) :=
  let k := NewBlockKey self BST_XATTR attr in
  tr ← fgets root;
  v ← ib_Get k tr;
  match v with
  | None => mret (None, ENOATTR)
  | Some v => mret (Some v, OK)
  end.

Definition SetXAttr (self : Z) (attr data : string) : M Status :=
  _ ← Update (λ tr,
    let k := NewBlockKey self BST_XATTR attr in
    tr ← flift (tx_Set k data tr);
    mret (tr, tt));
  mret OK.

Definition RemoveXAttr (self : Z) (attr : string) : M Status :=
  Update (λ tr,
    let k := NewBlockKey self BST_XATTR attr in
    v ← ib_Get k tr;
    match v with
    | None => mret (tr, ENOATTR)
    | Some _ => tr ← flift (tx_Delete k tr); mret (tr, OK)
    end).

(** ** Attributes *)

Definition FillAttr (self : Z) : M (Attr * Status) :=
  m ← Meta self;
  match (m : option InodeMeta) with
  | None => mret (Attr0, ENOENT)
  | Some meta =>
      let a := unixNanoToFuse (StAtimeNs meta) in
      let c := unixNanoToFuse (StCtimeNs meta) in
      let t := unixNanoToFuse (StMtimeNs meta) in
      mret (mkAttr self (StSize meta) (StSize meta / blockSize) a.1 a.2 c.1 c.2 t.1 t.2
              (StMode meta) (StNlink meta) (StUid meta) (StGid meta) (StRdev meta), OK)
  end.

(** The validity of the attributes and the attributes. *)
Definition FillAttrOut (self : Z) : M (Z * Attr * Status) :=
  r ← FillAttr self; mret (attrValidity, (r : Attr * Status).1, (r : Attr * Status).2).

(** [out] may be nil; the entry holds a reference on the inode. *)
Definition FillEntryOut (self : Z) (out : bool) : M (option EntryOut * Status) :=
  if negb out then mret (None, OK)
  else
    _ ← Refer self;
    r ← FillAttr self;
    let '(attr, code) := (r : Attr * Status) in
    mret (Some (mkEntryOut self 0 entryValidity attrValidity attr), code).
End code.
