(* ===== verification/FileIO.v ===== *)
(** * Open files (src/fs/fh.go)

    Reading and writing file data, and reading directories.  A file of at most [EmbeddedSize]
    bytes lives in its metadata; the data of a larger one lives in extents of [dataExtentSize]
    bytes, each a block with a type byte in front.  Missing extents and bytes past the
    end of an extent's block read as zeros. *)
From stdpp Require Import base list sets strings sorting gmap.
From Stdlib Require Import ZArith Lia Ascii.
From S2P Require Import Prelude OrderedMap Util BlockKey TreeBackend TreeStore FsState Inode.

Definition BDT_EXTENT : Z := 66.

(** ** Slices *)

Definition blen (l : bytes) : Z := Z.of_nat (length l).

(** [int(x)] for a uint64 x. *)
Definition to_int64 (z : Z) : Z := if (z <? 9223372036854775808)%Z then z else (z - 18446744073709551616)%Z.

(** [copy(dst, src)]. *)
Definition copy_to (dst src : bytes) : bytes := take (length dst) src ++ drop (length src) dst.

(** [l[i:][:n]], and [l] after the contents of that slice were replaced. *)
Definition sub_slice (l : bytes) (i n : Z) : res bytes :=
  let! t := slice_from l i in slice_to t n.
Definition put_at (l : bytes) (i : Z) (x : bytes) : bytes :=
  take (Z.to_nat i) l ++ copy_to (drop (Z.to_nat i) l) x.

Definition zero : ascii := byte_chr 0.
Definition zeros_of (n : Z) : bytes := replicate (Z.to_nat n) zero.

(** [for i := 0; i < n; i++ { buf[read+i] = 0 }]. *)
Definition fill_zeros (buf : bytes) (read n : Z) : res bytes :=
  if (blen buf <? read + n)%Z then Panic "index out of range"
  else Ok (put_at buf read (zeros_of n)).

(** What [fuse.DirEntryList] does with an entry: the list it becomes and the next position, or
    nothing when it is full. *)
Record DirEntry : Type := mkDirEntry { de_Mode : Z; de_Name : string; de_Ino : Z }.
Class DirEntryList (L : Type) := { AddDirEntry : DirEntry → L → option (L * Z) }.

Section code.
Context {T : Type} `{FsEnv} `{TxStore T} `{!TxRange T}.
Abbreviation M := (FM T).

(** ** Buffers *)

Definition writeBuffers_Get : M bytes :=
  l ← fgets writeBuffers;
  match (l : list bytes) with
  | [] => mret (zeros_of (dataExtentSize + dataHeaderMaximumSize))
  | b :: l' => _ ← fmodify (set_writeBuffers l'); mret b
  end.
Definition writeBuffers_Put (b : bytes) : M unit :=
  fmodify (λ s, set_writeBuffers (b :: writeBuffers s) s).

(** ** Reading *)

(** The last part of [readInTransaction], where [offset] and [end] are relative to [b]. *)
Definition read_extent (buf b : bytes) (offset end_ : Z) : res (bytes * Z) :=
  let! y := (if (to_int64 offset <=? blen b)%Z then
               let! tl := slice_from b offset in
               Ok (copy_to buf tl, blen tl)
             else Ok (buf, 0%Z)) in
  let '(buf, read) := (y : bytes * Z) in
  let zeros := (to_int64 end_ - read - to_int64 offset)%Z in
  let! buf := (if (0 <? zeros)%Z then fill_zeros buf read zeros else Ok buf) in
  Ok (buf, if (end_ <=? offset)%Z then 0 else read + zeros)%Z.

(** The buffer after the call and the number of bytes; the status is always OK. *)
Definition readInTransaction (ino : Z) (tr : T) (buf : bytes) (offset : Z) : M (bytes * Z) :=
  let end_ := wrap64 (offset + blen buf) in
  m ← Meta ino;
  meta ← fnonnil m;
  let size := StSize (meta : InodeMeta) in
  let end_ := if (size <? end_)%Z then size else end_ in
  x ← (if (size <=? EmbeddedSize)%Z then mret (content (im_Data meta), offset, end_)
       else
         let k := NewBlockKeyOffset ino offset in
         let e := (offset / dataExtentSize)%Z in
         let offset := wrap64 (offset - e * dataExtentSize) in
         let end_ := wrap64 (end_ - e * dataExtentSize) in
         let end_ := if (dataExtentSize <? end_)%Z then dataExtentSize else end_ in
         bidp ← ib_Get k tr;
         match (bidp : option string) with
         | None => mret ([], offset, end_)
         | Some bid =>
             d ← StorageData bid;
             match (d : option string) with
             | None => fpanic "Block not found at all"
             | Some d =>
                 match String.list_ascii_of_string d with
                 | [] => fpanic "index out of range"
                 | c :: b =>
                     if (chr_byte c =? BDT_EXTENT)%Z then mret (b, offset, end_)
                     else fpanic "Wrong extent type in read"
                 end
             end
         end : M (bytes * Z * Z));
  let '(b, offset, end_) := (x : bytes * Z * Z) in
  flift (read_extent buf b offset end_).

(** [Read]: every turn but the last ends at the end of an extent. *)
Fixpoint Read_loop (fuel : nat) (ino : Z) (buf : bytes) (ofs offset : Z) : M (bytes * Z) :=
  match fuel with
  | O => fstuck
  | S fuel' =>
      if (ofs <? blen buf)%Z then
        let e := (offset / dataExtentSize)%Z in
        tr ← fgets root;
        tail ← flift (slice_from buf ofs);
        x ← readInTransaction ino tr tail offset;
        let '(tail, r) := (x : bytes * Z) in
        let buf := take (Z.to_nat ofs) buf ++ tail in
        if (r =? 0)%Z then mret (buf, ofs)
        else
          let offset := wrap64 (offset + r) in
          let ofs := (ofs + r)%Z in
          let ne := (offset / dataExtentSize)%Z in
          if (e =? ne)%Z then mret (buf, ofs)
          else Read_loop fuel' ino buf ofs offset
      else mret (buf, ofs)
  end.
Definition Read (self : inodeFH) (buf : bytes) (offset : Z) : M (bytes * Status) :=
  x ← Read_loop (S (length buf)) (fh_inode self) buf 0 offset;
  let '(buf, ofs) := (x : bytes * Z) in
  out ← flift (slice_to buf ofs);
  mret (out, OK).

(** ** Writing *)

(** The first part of [writeInTransaction]: [obuf] and its prefix [bbuf], which is what is to be
    stored.  The slices of the code are parts of [obuf]: [wbuf] starts at [w]. *)
Definition gather (ino size : Z) (tr : T) (buf : bytes) (odata : option bytes) (obuf : bytes)
    (bofs offset end_ : Z) : M (bytes * bytes) :=
  x ← (if (0 <? bofs)%Z then
         let obuf := put_at obuf 1 (zeros_of bofs) in
         match odata with
         | Some od =>
             let od := if (bofs <? blen od)%Z then take (Z.to_nat bofs) od else od in
             mret (put_at obuf 1 od, (1 + bofs)%Z)
         | None =>
             sl ← flift (sub_slice obuf 1 bofs);
             r ← readInTransaction ino tr sl offset;
             mret (put_at obuf 1 (r : bytes * Z).1, (1 + bofs)%Z)
         end
       else mret (obuf, 1%Z) : M (bytes * Z));
  let '(obuf, w) := (x : bytes * Z) in
  let w := (w + blen buf)%Z in
  let blockend := wrap64 (offset + dataExtentSize) in
  let blockend := if (size <? blockend)%Z then size else blockend in
  y ← (if (end_ <? blockend)%Z then
         let extra := (blockend - end_)%Z in
         sl ← flift (sub_slice obuf w extra);
         r ← readInTransaction ino tr sl end_;
         mret (put_at obuf w (r : bytes * Z).1, (w + (r : bytes * Z).2)%Z)
       else mret (obuf, w) : M (bytes * Z));
  let '(obuf, w) := (y : bytes * Z) in
  bbuf ← flift (slice_to obuf w);
  mret (obuf, bbuf).

Definition writeInTransaction (ino : Z) (meta : InodeMeta) (tr : T) (buf : bytes) (odata : option bytes)
    (obuf : bytes) (bofs offset end_ : Z) : M (InodeMeta * T * bytes) :=
  g ← gather ino (StSize meta) tr buf odata obuf bofs offset end_;
  let '(obuf, bbuf) := (g : bytes * bytes) in
  if (StSize meta <=? EmbeddedSize)%Z && (end_ <=? EmbeddedSize)%Z then
    nbuf ← flift (slice_from bbuf 1);
    mret (set_Data (Some nbuf) meta, tr, obuf)
  else
    let k := NewBlockKeyOffset ino offset in
    bid ← GetStorageBlock (String.string_of_list_ascii bbuf);
    tr' ← flift (tx_Set k bid tr);
    mret (meta, tr', obuf).

(** The second half of [write], from the decision whether the data is embedded on: the metadata
    is committed, then, by the goroutine that keeps the lock of the extent, the data. *)
Definition write_tail (ino : Z) (meta : InodeMeta) (tr : T) (buf : bytes) (odata : option bytes) (obuf : bytes)
    (bofs offset end_ : Z) : M unit :=
  let done := (StSize meta <=? EmbeddedSize)%Z && (end_ <=? EmbeddedSize)%Z in
  y ← (if done then writeInTransaction ino meta tr buf odata obuf bofs offset end_
       else mret (meta, tr, obuf) : M (InodeMeta * T * bytes));
  let '(meta, tr, obuf) := (y : InodeMeta * T * bytes) in
  meta ← setTimesNow true true true meta;
  r ← SetMetaInTransaction ino meta tr;
  let '(meta, tr, _) := (r : InodeMeta * T * bool) in
  _ ← fmodify (set_root tr);
  obuf ← (if done then mret obuf
          else
            tr ← fgets root;
            z ← writeInTransaction ino meta tr buf odata obuf bofs offset end_;
            let '(_, tr, obuf) := (z : InodeMeta * T * bytes) in
            _ ← fmodify (set_root tr);
            mret obuf);
  writeBuffers_Put obuf.

(** [write]: at most up to the end of the extent of [offset]. *)
Definition write (self : inodeFH) (buf : bytes) (offset : Z) : M Z :=
  let ino := fh_inode self in
  let e := (offset / dataExtentSize)%Z in
  tr ← fgets root;
  let end_ := wrap64 (offset + blen buf) in
  let bofs := (offset mod dataExtentSize)%Z in
  let offset := (offset - bofs)%Z in
  m ← Meta ino;
  match (m : option InodeMeta) with
  | None => mret 0%Z
  | Some meta =>
      let odata := if (StSize meta <=? EmbeddedSize)%Z && (e =? 0)%Z then im_Data meta else None in
      obuf ← writeBuffers_Get;
      obuf ← flift (go_update obuf 0 (byte_chr BDT_EXTENT));
      let w := if (dataExtentSize - bofs <? blen buf)%Z then (dataExtentSize - bofs)%Z else blen buf in
      let buf := if (w <? blen buf)%Z then take (Z.to_nat w) buf else buf in
      let obuf := put_at obuf (1 + bofs) buf in
      x ← (if (StSize meta <? end_)%Z
           then r ← SetMetaSizeInTransaction ino meta end_ tr; mret (r : InodeMeta * T * bool).1
           else mret (meta, tr) : M (InodeMeta * T));
      let '(meta, tr) := (x : InodeMeta * T) in
      _ ← write_tail ino meta tr buf odata obuf bofs offset end_;
      mret w
  end.

(** [written] is a uint32. *)
Fixpoint Write_loop (fuel : nat) (self : inodeFH) (buf : bytes) (offset written : Z) : M (Z * Status) :=
  match fuel with
  | O => fstuck
  | S fuel' =>
      if (written <? blen buf)%Z then
        tail ← flift (slice_from buf written);
        w ← write self tail (wrap64 (offset + written));
        Write_loop fuel' self buf offset (wrapu32 (written + w))
      else mret (written, OK)
  end.
Definition Write (self : inodeFH) (buf : bytes) (offset : Z) : M (Z * Status) :=
  Write_loop (S (length buf)) self buf offset 0.

(** ** Directories *)

Definition fh_store (file : inodeFH) : M unit :=
  fmodify (λ s, set_fh2ifile (<[fh file := file]> (fh2ifile s)) s).
Definition fh_at (file : inodeFH) (p : Z) (k : option BlockKey) : inodeFH :=
  mkFH (fh_inode file) (fh file) (flags file) p k (readNextInodeBruteForceCount file).

Definition SetPos (file : inodeFH) (p : Z) : M inodeFH :=
  if (pos file =? p)%Z then mret file
  else let file := fh_at file p None in _ ← fh_store file; mret file.

(** The entry after [lastKey], or number [pos] when there is none; [fuel] bounds the walk to it. *)
Definition ReadNextinode (fuel : nat) (file : inodeFH) : M (inodeFH * option (Z * BlockKey)) :=
  tr ← fgets root;
  let ino := fh_inode file in
  x ← (match lastKey file with
       | None =>
           let file := mkFH ino (fh file) (flags file) (pos file) None (readNextInodeBruteForceCount file + 1)%Z in
           _ ← fh_store file;
           r ← IterateSubTypeKeys fuel ino BST_DIR_NAME2INODE
                 (λ key acc, let '(i, nkey) := (acc : Z * BlockKey) in
                   if (i =? pos file)%Z then mret (i, key, false) else mret ((i + 1)%Z, nkey, true))
                 (0%Z, "");
           mret (file, Some (r : Z * BlockKey).2)
       | Some k => nkeyp ← ib_NextKey k tr; mret (file, nkeyp)
       end : M (inodeFH * option BlockKey));
  let '(file, nkeyp) := (x : inodeFH * option BlockKey) in
  match nkeyp with
  | None => mret (file, None)
  | Some nkey =>
      if keqb nkey "" then mret (file, None)
      else
        nino ← flift (Ino nkey);
        if negb (nino =? ino)%Z || negb (SubType nkey =? BST_DIR_NAME2INODE)%Z then mret (file, None)
        else
          inop ← ib_Get nkey tr;
          v ← fnonnil inop;
          cino ← flift (be_read 8 v);
          i ← GetInode cino;
          mret (file, match (i : option Z) with Some i => Some (i, nkey) | None => None end)
  end.

Context {L : Type} `{!DirEntryList L}.

Definition ReadDirEntry (fuel : nat) (file : inodeFH) (l : L) : M (inodeFH * L * bool) :=
  r ← ReadNextinode fuel file;
  let '(file, x) := (r : inodeFH * option (Z * BlockKey)) in
  match x with
  | None => mret (file, l, false)
  | Some (i, nkey) =>
      name ← flift (Filename nkey);
      m ← Meta i;
      meta ← fnonnil m;
      let e := mkDirEntry (StMode (meta : InodeMeta)) name i in
      match AddDirEntry e l with
      | None => _ ← Release (Some i); mret (file, l, false)
      | Some (l, npos) =>
          let file := fh_at file npos (Some nkey) in
          _ ← fh_store file;
          _ ← Release (Some i);
          mret (file, l, true)
      end
  end.

(** [ReadDirPlus], which also fills the entry and so refers to the inode. *)
Definition ReadDirPlus (fuel : nat) (file : inodeFH) (l : L) : M (inodeFH * L * bool) :=
  r ← ReadNextinode fuel file;
  let '(file, x) := (r : inodeFH * option (Z * BlockKey)) in
  match x with
  | None => mret (file, l, false)
  | Some (i, nkey) =>
      name ← flift (Filename nkey);
      m ← Meta i;
      meta ← fnonnil m;
      let e := mkDirEntry (StMode (meta : InodeMeta)) name i in
      match AddDirEntry e l with
      | None => _ ← Release (Some i); mret (file, l, false)
      | Some (l, npos) =>
          _ ← FillEntryOut i true;
          let file := fh_at file npos (Some nkey) in
          _ ← fh_store file;
          _ ← Release (Some i);
          mret (file, l, true)
      end
  end.
End code.
