(* ===== verification/FileRep.v ===== *)
(** * What an open file holds

    [file_ok] relates the metadata, the extents and the blocks of an inode to the bytes of the
    file.  Bytes past the end read as zero, in lists as in extents, so that contents are compared
    byte by byte with [byte_at]. *)
From stdpp Require Import base list sets strings sorting gmap.
From Stdlib Require Import ZArith Lia Ascii.
From S2P Require Import Prelude OrderedMap Util BlockKey TreeBackend TreeStore FsState Inode FileIO.

Open Scope Z_scope.

(** ** Bytes by index *)

Definition byte_at (l : bytes) (i : Z) : ascii :=
  if i <? 0 then zero else default zero (l !! Z.to_nat i).

Definition mk_content (n : Z) (f : Z → ascii) : bytes := map (λ k, f (Z.of_nat k)) (seq 0 (Z.to_nat n)).

(** The bytes of [buf] at [off], those of [f] elsewhere. *)
Definition over (f : Z → ascii) (off : Z) (buf : bytes) (i : Z) : ascii :=
  if (off <=? i) && (i <? off + blen buf) then byte_at buf (i - off) else f i.

(** A file after [buf] was written at [off]: zeros fill a gap. *)
Definition splice (bs : bytes) (off : Z) (buf : bytes) : bytes :=
  mk_content (if decide (buf = []) then blen bs else Z.max (blen bs) (off + blen buf))
    (over (byte_at bs) off buf).

Lemma blen_nonneg l : 0 ≤ blen l.
Proof. unfold blen. lia. Qed.
Lemma blen_app l k : blen (l ++ k) = blen l + blen k.
Proof. unfold blen. rewrite length_app. lia. Qed.
Lemma blen_take n l : 0 ≤ n → blen (take (Z.to_nat n) l) = Z.min n (blen l).
Proof. unfold blen. rewrite length_take. lia. Qed.
Lemma blen_drop n l : 0 ≤ n → blen (drop (Z.to_nat n) l) = Z.max 0 (blen l - n).
Proof. unfold blen. rewrite length_drop. lia. Qed.
Lemma blen_zeros n : 0 ≤ n → blen (zeros_of n) = n.
Proof. unfold blen, zeros_of. rewrite length_replicate. lia. Qed.
Lemma blen_mk n f : 0 ≤ n → blen (mk_content n f) = n.
Proof. unfold blen, mk_content. rewrite length_map, length_seq. lia. Qed.

Lemma byte_at_out l i : i < 0 ∨ blen l ≤ i → byte_at l i = zero.
Proof.
  unfold byte_at, blen. intros Hi. destruct (Z.ltb_spec i 0); [done|]. rewrite lookup_ge_None_2; [done|lia].
Qed.
Lemma byte_at_app l k i : byte_at (l ++ k) i = if i <? blen l then byte_at l i else byte_at k (i - blen l).
Proof.
  unfold byte_at, blen. destruct (Z.ltb_spec i 0), (Z.ltb_spec i (Z.of_nat (length l))); try lia; try done.
  - by rewrite lookup_app_l by lia.
  - rewrite lookup_app_r by lia. destruct (Z.ltb_spec (i - Z.of_nat (length l)) 0); [lia|]. do 2 f_equal. lia.
Qed.
Lemma byte_at_take n l i : byte_at (take (Z.to_nat n) l) i = if i <? n then byte_at l i else zero.
Proof.
  unfold byte_at. destruct (Z.ltb_spec i 0), (Z.ltb_spec i n); try done.
  - rewrite lookup_take_lt by lia. done.
  - rewrite lookup_take_ge by lia. done.
Qed.
Lemma byte_at_drop n l i : 0 ≤ n → byte_at (drop (Z.to_nat n) l) i = if i <? 0 then zero else byte_at l (n + i).
Proof.
  intros Hn. unfold byte_at. destruct (Z.ltb_spec i 0); [done|]. destruct (Z.ltb_spec (n + i) 0); [lia|].
  rewrite lookup_drop. do 2 f_equal. lia.
Qed.
Lemma byte_at_zeros n i : byte_at (zeros_of n) i = zero.
Proof.
  unfold byte_at, zeros_of. destruct (i <? 0); [done|].
  destruct (replicate _ _ !! _) eqn:E; [|done]. by apply lookup_replicate in E as [-> _].
Qed.
Lemma byte_at_nil i : byte_at [] i = zero.
Proof. unfold byte_at. by destruct (i <? 0). Qed.
Lemma byte_at_cons c l i : byte_at (c :: l) i = if i =? 0 then c else if i <? 0 then zero else byte_at l (i - 1).
Proof.
  change (c :: l) with ([c] ++ l). rewrite byte_at_app. change (blen [c]) with 1.
  destruct (Z.eqb_spec i 0) as [->|]; [done|]. destruct (Z.ltb_spec i 1), (Z.ltb_spec i 0); try lia; try done.
  by apply byte_at_out; left.
Qed.
Lemma byte_at_mk n f i : byte_at (mk_content n f) i = if (0 <=? i) && (i <? n) then f i else zero.
Proof.
  unfold byte_at, mk_content. destruct (Z.ltb_spec i 0), (Z.leb_spec 0 i), (Z.ltb_spec i n); try lia; simpl; try done.
  - rewrite list_lookup_fmap, lookup_seq_lt by lia. simpl. f_equal. lia.
  - rewrite lookup_ge_None_2; [done|]. rewrite length_map, length_seq. lia.
Qed.
Lemma bytes_ext l k : blen l = blen k → (∀ i, 0 ≤ i < blen l → byte_at l i = byte_at k i) → l = k.
Proof.
  unfold blen. intros Hl Hb. apply (list_eq_same_length _ _ (length l)); [lia..|].
  intros i x y Hi Hx Hy. specialize (Hb (Z.of_nat i) ltac:(lia)). unfold byte_at in Hb.
  destruct (Z.ltb_spec (Z.of_nat i) 0); [lia|]. rewrite Nat2Z.id, Hx, Hy in Hb. done.
Qed.
Lemma byte_at_splice bs off buf i :
  0 ≤ off → byte_at (splice bs off buf) i = over (byte_at bs) off buf i.
Proof.
  intros Ho. unfold splice. rewrite byte_at_mk. unfold over. pose proof (blen_nonneg bs).
  assert (∀ j, j < 0 ∨ blen bs ≤ j → byte_at bs j = zero) as Hz by (intros j; apply byte_at_out).
  destruct (decide (buf = [])) as [->|].
  - change (blen []) with 0. destruct (Z.leb_spec 0 i), (Z.ltb_spec i (blen bs)), (Z.leb_spec off i), (Z.ltb_spec i (off + 0));
      simpl; try lia; try done; symmetry; apply Hz; lia.
  - destruct (Z.leb_spec 0 i), (Z.ltb_spec i (Z.max (blen bs) (off + blen buf))), (Z.leb_spec off i), (Z.ltb_spec i (off + blen buf));
      simpl; try lia; try done; symmetry; apply Hz; lia.
Qed.
Lemma blen_splice bs off buf :
  0 ≤ off → blen (splice bs off buf) = if decide (buf = []) then blen bs else Z.max (blen bs) (off + blen buf).
Proof.
  intros Ho. unfold splice. rewrite blen_mk; [done|]. pose proof (blen_nonneg bs). pose proof (blen_nonneg buf).
  destruct (decide _); lia.
Qed.

(** ** Slices by index *)

Lemma blen_copy_to dst src : blen (copy_to dst src) = blen dst.
Proof. unfold copy_to, blen. rewrite length_app, length_take, length_drop. lia. Qed.
Lemma byte_at_copy_to dst src i :
  i < blen dst → byte_at (copy_to dst src) i = if i <? blen src then byte_at src i else byte_at dst i.
Proof.
  unfold copy_to. intros Hi. destruct (Z.ltb_spec i 0) as [Hn|Hn].
  { rewrite !(byte_at_out _ i) by auto. by destruct (i <? _). }
  rewrite byte_at_app. replace (length dst) with (Z.to_nat (blen dst)) by (unfold blen; lia).
  replace (length src) with (Z.to_nat (blen src)) by (unfold blen; lia).
  rewrite blen_take, byte_at_take, byte_at_drop by apply blen_nonneg.
  destruct (Z.ltb_spec i (Z.min (blen dst) (blen src))), (Z.ltb_spec i (blen src)), (Z.ltb_spec i (blen dst)); try lia; try done.
  rewrite Z.min_r by lia. destruct (Z.ltb_spec (i - blen src) 0); [lia|]. f_equal. lia.
Qed.
Lemma blen_put_at l i x : 0 ≤ i ≤ blen l → blen (put_at l i x) = blen l.
Proof.
  intros Hi. unfold put_at. rewrite blen_app, blen_copy_to, blen_take, blen_drop by lia. lia.
Qed.
Lemma byte_at_put_at l i x j :
  0 ≤ i → i + blen x ≤ blen l →
  byte_at (put_at l i x) j = if (i <=? j) && (j <? i + blen x) then byte_at x (j - i) else byte_at l j.
Proof.
  intros Hi Hx. unfold put_at. pose proof (blen_nonneg x). rewrite byte_at_app, byte_at_take, blen_take by lia.
  rewrite Z.min_l by lia. destruct (Z.ltb_spec j i), (Z.leb_spec i j); try lia; simpl; [done|].
  destruct (Z.ltb_spec j (blen l)).
  - rewrite byte_at_copy_to by (rewrite blen_drop; lia).
    destruct (Z.ltb_spec (j - i) (blen x)), (Z.ltb_spec j (i + blen x)); try lia; [done|].
    rewrite byte_at_drop by lia. destruct (Z.ltb_spec (j - i) 0); [lia|]. f_equal. lia.
  - destruct (Z.ltb_spec j (i + blen x)); [lia|].
    rewrite !byte_at_out; [done|right; lia|right; rewrite blen_copy_to, blen_drop; lia].
Qed.

Lemma slice_from_Z (l : bytes) k : 0 ≤ k ≤ blen l → slice_from l k = Ok (drop (Z.to_nat k) l).
Proof.
  unfold blen. intros Hk. rewrite <- (Z2Nat.id k) at 1 by lia. apply slice_from_Ok. lia.
Qed.
Lemma slice_to_Z (l : bytes) k : 0 ≤ k ≤ blen l → slice_to l k = Ok (take (Z.to_nat k) l).
Proof.
  unfold blen. intros Hk. rewrite <- (Z2Nat.id k) at 1 by lia. apply slice_to_Ok. lia.
Qed.
Lemma sub_slice_Z l i n :
  0 ≤ i → 0 ≤ n → i + n ≤ blen l → ∃ x, sub_slice l i n = Ok x ∧ blen x = n ∧ ∀ j, 0 ≤ j < n → byte_at x j = byte_at l (i + j).
Proof.
  intros Hi Hn Hl. unfold sub_slice. rewrite slice_from_Z by lia. cbn [res_bind].
  rewrite slice_to_Z by (rewrite blen_drop; lia). eexists. split_and!; [done| |].
  - rewrite blen_take, blen_drop; lia.
  - intros j Hj. rewrite byte_at_take, byte_at_drop by lia.
    destruct (Z.ltb_spec j n), (Z.ltb_spec j 0); lia || done.
Qed.

(** ** Keys *)

Lemma NewBlockKey_inj ino ino' st st' d d' :
  in_uint64 ino → in_uint64 ino' → 0 ≤ st < 256 → 0 ≤ st' < 256 →
  NewBlockKey ino st d = NewBlockKey ino' st' d' → ino = ino' ∧ st = st' ∧ d = d'.
Proof.
  intros Hi Hi' Hs Hs' E.
  pose proof (NewBlockKey_Ino ino st d Hi) as I1. pose proof (NewBlockKey_Ino ino' st' d' Hi') as I2.
  pose proof (NewBlockKey_SubType ino st d Hs) as S1. pose proof (NewBlockKey_SubType ino' st' d' Hs') as S2.
  pose proof (NewBlockKey_SubTypeData ino st d) as D1. pose proof (NewBlockKey_SubTypeData ino' st' d') as D2.
  rewrite E in I1, S1, D1. rewrite I2 in I1. rewrite S2 in S1. rewrite D2 in D1. injection I1 as ->. injection D1 as ->.
  by subst st'.
Qed.

(** The keys of the metadata and of extent [e]. *)
Definition mkey (ino : Z) : BlockKey := NewBlockKey ino BST_META "".
Definition ekey (ino e : Z) : BlockKey := NewBlockKey ino BST_FILE_OFFSET2EXTENT (Uint64Bytes e).

Lemma NewBlockKeyOffset_ekey ino off : NewBlockKeyOffset ino off = ekey ino (off / dataExtentSize).
Proof. done. Qed.
Lemma ekey_inj ino e e' : in_uint64 ino → in_uint64 e → in_uint64 e' → ekey ino e = ekey ino e' → e = e'.
Proof.
  intros Hi He He' E. unfold ekey in E. apply NewBlockKey_inj in E as (_ & _ & E); [|done..].
  by apply (be_bytes_inj 8) in E; rewrite ?width_8.
Qed.
Lemma ekey_mkey ino ino' e : in_uint64 ino → in_uint64 ino' → ekey ino e ≠ mkey ino'.
Proof. intros Hi Hi' E. unfold ekey, mkey in E. by apply NewBlockKey_inj in E as (_ & ? & _). Qed.
Lemma mkey_inj ino ino' : in_uint64 ino → in_uint64 ino' → mkey ino = mkey ino' → ino = ino'.
Proof. intros Hi Hi' E. unfold mkey in E. by apply NewBlockKey_inj in E as (? & _ & _). Qed.

(** ** Files *)

Section rep.
Context {T : Type} `{FsEnv} `{TxStoreOk T}.
Abbreviation F := (Fs T).

Definition bufferSize : Z := dataExtentSize + dataHeaderMaximumSize.

(** The tree of a transaction holds [m], ids are hashes, and spare buffers have their size;
    what they hold is left over from earlier writes. *)
Record fs_ok (s : F) (m : smap) : Prop := {
  fs_tree : tx_rep (root s) m;
  fs_hash : ∀ id d, stored s !! id = Some d → id = Sum256 d;
  fs_buffers : ∀ b, b ∈ writeBuffers s → blen b = bufferSize
}.

(** The metadata of the inode: cached, or in the tree. *)
Definition same_meta (a b : InodeMeta) : Prop := im_data a = im_data b ∧ content (im_Data a) = content (im_Data b).
Definition tree_meta (m : smap) (ino : Z) (meta : InodeMeta) : Prop :=
  ∃ v a, m !! mkey ino = Some v ∧ UnmarshalMsg v = Some a ∧ same_meta a meta.
Definition cached (s : F) (ino : Z) (meta : InodeMeta) : Prop :=
  ∃ i, ino2inode s !! ino = Some i ∧ i_meta i = Some meta.
Definition known (s : F) (m : smap) (ino : Z) (meta : InodeMeta) : Prop :=
  ∃ i, ino2inode s !! ino = Some i ∧
    match i_meta i with
    | Some a => a = meta
    | None => ∃ v, m !! mkey ino = Some v ∧ UnmarshalMsg v = Some meta
    end.

(** The data of extent [e]: nothing, or the block of its id without the type byte. *)
Definition extent (m : smap) (st : gmap string string) (ino e : Z) (d : bytes) : Prop :=
  match m !! ekey ino e with
  | None => d = []
  | Some bid => ∃ x c, st !! bid = Some x ∧ String.list_ascii_of_string x = c :: d ∧ chr_byte c = BDT_EXTENT
  end.

Definition data_ok (m : smap) (st : gmap string string) (ino : Z) (meta : InodeMeta) (bs : bytes) : Prop :=
  if decide (blen bs ≤ EmbeddedSize)
  then (∀ i, byte_at (content (im_Data meta)) i = byte_at bs i) ∧ ∀ e, in_uint64 e → m !! ekey ino e = None
  else ∀ e, in_uint64 e → ∃ d, extent m st ino e d ∧ blen d ≤ dataExtentSize ∧
         ∀ i, 0 ≤ i < dataExtentSize → byte_at d i = byte_at bs (e * dataExtentSize + i).

(** The largest size the model of a file allows, well below the keys' limit. *)
Definition maxSize : Z := 2 ^ 62.

Record file_ok (s : F) (m : smap) (ino : Z) (meta : InodeMeta) (bs : bytes) : Prop := {
  fo_known : known s m ino meta;
  fo_tree : tree_meta m ino meta;
  fo_size : StSize meta = blen bs;
  fo_max : blen bs ≤ maxSize;
  fo_data : data_ok m (stored s) ino meta bs
}.

Lemma same_meta_refl a : same_meta a a.
Proof. done. Qed.

Lemma data_ok_same m st ino meta meta' bs :
  content (im_Data meta) = content (im_Data meta') → data_ok m st ino meta bs → data_ok m st ino meta' bs.
Proof. unfold data_ok. intros ->. done. Qed.

(** Contents that read the same are the same. *)
Lemma file_ok_ext s m ino meta bs bs' :
  blen bs = blen bs' → (∀ i, 0 ≤ i < blen bs → byte_at bs i = byte_at bs' i) →
  file_ok s m ino meta bs → file_ok s m ino meta bs'.
Proof. intros Hl Hb. by rewrite (bytes_ext bs bs' Hl Hb). Qed.

(** A change of other keys and more blocks leave a file as it is. *)
Lemma data_ok_frame m m' st st' ino meta bs :
  (∀ e, in_uint64 e → m' !! ekey ino e = m !! ekey ino e) → st ⊆ st' →
  data_ok m st ino meta bs → data_ok m' st' ino meta bs.
Proof.
  intros Hm Hst. unfold data_ok. destruct (decide _).
  - intros [Hd He]. split; [done|]. intros e Hi. rewrite Hm by done. by apply He.
  - intros Hd e He. destruct (Hd e He) as (d & Hx & Hrest). exists d. split; [|done].
    unfold extent in *. rewrite Hm by done. destruct (m !! ekey ino e); [|done].
    destruct Hx as (x & c & Hx & ?). exists x, c. split; [|done]. by eapply lookup_weaken.
Qed.

(** ** Reading metadata *)

Lemma i_load_ok (s : F) ino i : ino2inode s !! ino = Some i → i_load ino s = Ok (i, s).
Proof. unfold i_load. by intros ->. Qed.
Lemma i_upd_ok (s : F) ino f i :
  ino2inode s !! ino = Some i → i_upd ino f s = Ok (tt, set_ino2inode (<[ino := f i]> (ino2inode s)) s).
Proof. intros Hi. unfold i_upd. by rewrite (FM_bind_ok _ _ _ _ _ (i_load_ok _ _ _ Hi)). Qed.

Lemma ib_Get_ok k t m (s : F) : tx_rep t m → ib_Get k t s = Ok (m !! k, s).
Proof.
  intros Ht. destruct (tx_Get_ok k _ _ Ht) as (t' & E & _). unfold ib_Get, mbind, FM_bind, flift. by rewrite E.
Qed.

Lemma getMeta_ok (s : F) m ino v meta :
  tx_rep (root s) m → m !! mkey ino = Some v → UnmarshalMsg v = Some meta → getMeta ino s = Ok (Some meta, s).
Proof.
  intros Ht Hv Hu. unfold getMeta. fold (mkey ino). rewrite (FM_bind_ok _ _ s (root s) s) by done.
  rewrite (FM_bind_ok _ _ _ _ _ (ib_Get_ok (mkey ino) _ _ s Ht)), Hv.
  unfold decodeInodeMeta. by rewrite Hu.
Qed.

Lemma Meta_cached (s : F) ino meta : cached s ino meta → Meta ino s = Ok (Some meta, s).
Proof.
  intros (i & Hi & Hm). unfold Meta. by rewrite (FM_bind_ok _ _ _ _ _ (i_load_ok _ _ _ Hi)), Hm.
Qed.

(** Nothing changes but the clock and the cached metadata of some inodes. *)
Record quiet (inos : list Z) (s s' : F) : Prop := {
  q_root : root s' = root s;
  q_stored : stored s' = stored s;
  q_buffers : writeBuffers s' = writeBuffers s;
  q_files : fh2ifile s' = fh2ifile s;
  q_counts : ino2fhcount s' = ino2fhcount s;
  q_next : nextFh s' = nextFh s;
  q_deleted : deleted s' = deleted s;
  q_generated : generated s' = generated s;
  q_refs : ∀ ino, (λ i, (refcnt i, removed i)) <$> ino2inode s' !! ino = (λ i, (refcnt i, removed i)) <$> ino2inode s !! ino;
  q_other : ∀ ino, ino ∉ inos → ino2inode s' !! ino = ino2inode s !! ino
}.

Lemma quiet_refl inos s : quiet inos s s.
Proof. by split. Qed.
Lemma quiet_trans inos s1 s2 s3 : quiet inos s1 s2 → quiet inos s2 s3 → quiet inos s1 s3.
Proof.
  intros [] []. split; try congruence.
  intros ino Hn. rewrite q_other1 by done. by apply q_other0.
Qed.
Lemma quiet_mono inos inos' s s' : inos ⊆ inos' → quiet inos s s' → quiet inos' s s'.
Proof. intros Hsub []. split; try done. intros ino Hn. apply q_other0. set_solver. Qed.
Lemma quiet_clock inos s n : quiet inos s (set_clock n s).
Proof. by split. Qed.
Lemma quiet_meta s ino i meta :
  ino2inode s !! ino = Some i →
  quiet [ino] s (set_ino2inode (<[ino := mkInode (refcnt i) (removed i) meta]> (ino2inode s)) s).
Proof.
  intros Hi. split; try done.
  - intros ino'. cbn. destruct (decide (ino' = ino)) as [->|]; [by rewrite lookup_insert_eq, Hi|by rewrite lookup_insert_ne].
  - intros ino' Hn. cbn. rewrite lookup_insert_ne; [done|set_solver].
Qed.

Lemma cached_quiet inos s s' ino meta : quiet inos s s' → ino ∉ inos → cached s ino meta → cached s' ino meta.
Proof. intros Hq Hn (i & Hi & Hm). exists i. by rewrite (q_other _ _ _ Hq). Qed.

Lemma Meta_known (s : F) m ino meta :
  tx_rep (root s) m → known s m ino meta →
  ∃ s', Meta ino s = Ok (Some meta, s') ∧ quiet [ino] s s' ∧ cached s' ino meta.
Proof.
  intros Ht (i & Hi & Hm). destruct (i_meta i) as [a|] eqn:Ea.
  - subst a. exists s. split_and!; [|apply quiet_refl|by exists i]. apply Meta_cached. by exists i.
  - destruct Hm as (v & Hv & Hu). unfold Meta. rewrite (FM_bind_ok _ _ _ _ _ (i_load_ok _ _ _ Hi)), Ea.
    rewrite (FM_bind_ok _ _ _ _ _ (getMeta_ok _ _ _ _ _ Ht Hv Hu)). rewrite (FM_bind_ok _ _ _ _ _ (i_upd_ok _ _ _ _ Hi)).
    eexists. split_and!; [done|by apply quiet_meta|]. eexists. cbn. rewrite lookup_insert_eq. done.
Qed.

(** ** Writing metadata *)

(** The same but for the times. *)
Definition upto_times (a b : InodeMeta) : Prop :=
  set_times 0 0 0 (im_data a) = set_times 0 0 0 (im_data b) ∧ im_Data a = im_Data b.

Lemma upto_times_refl a : upto_times a a.
Proof. done. Qed.
Lemma upto_times_trans a b c : upto_times a b → upto_times b c → upto_times a c.
Proof. unfold upto_times. intros [-> ->]. done. Qed.
Lemma upto_times_fields a b :
  upto_times a b → StMode a = StMode b ∧ StUid a = StUid b ∧ StGid a = StGid b ∧ StSize a = StSize b ∧
    StNlink a = StNlink b ∧ ParentIno a = ParentIno b.
Proof. intros [E _]. unfold set_times in E. injection E; intros; by split_and!. Qed.

(** What a write leaves of the metadata. *)
Definition kind (a : InodeMeta) : Z * Z * Z * Z := (StMode a, StNlink a, StUid a, StGid a).
Definition kind_of (m : smap) (ino : Z) : option (Z * Z * Z * Z) := v ← m !! mkey ino; kind <$> UnmarshalMsg v.
Lemma tree_kind m ino meta : tree_meta m ino meta → kind_of m ino = Some (kind meta).
Proof. intros (v & a & Hv & Ha & E & _). unfold kind_of. rewrite Hv. cbn. rewrite Ha. cbn. unfold kind. by rewrite E. Qed.
Lemma same_kind a b : same_meta a b → kind a = kind b.
Proof. intros [E _]. unfold kind. by rewrite E. Qed.
Lemma upto_kind a b : upto_times a b → kind a = kind b.
Proof. intros (E1 & E2 & E3 & _ & E5 & _)%upto_times_fields. unfold kind. congruence. Qed.

Lemma setTimesNow_ok a c t meta (s : F) :
  ∃ meta', setTimesNow a c t meta s = Ok (meta', set_clock (S (clock s)) s) ∧ upto_times meta' meta.
Proof.
  eexists. unfold setTimesNow.
  rewrite (FM_bind_ok _ _ s (time_Now (clock s)) (set_clock (S (clock s)) s) eq_refl). split; [reflexivity|by split].
Qed.

Lemma tree_meta_Marshal `{!FsEnvOk} m ino meta : tree_meta (<[mkey ino := MarshalMsg meta]> m) ino meta.
Proof.
  destruct (Unmarshal_Marshal meta) as (d & Eu & Ed). exists (MarshalMsg meta), (mkIM (im_data meta) d).
  by rewrite lookup_insert_eq.
Qed.

Lemma same_meta_trans a b c : same_meta a b → same_meta b c → same_meta a c.
Proof. unfold same_meta. intros [-> ->]. done. Qed.

(** [SetMetaInTransaction] writes the metadata, with its unset times filled in, to the tree and the
    cache, unless it is what the cache holds. *)
Lemma SetMeta_ok `{!FsEnvOk} (s : F) tr m ino i meta :
  ino2inode s !! ino = Some i → (∀ old, i_meta i = Some old → tree_meta m ino old) → tx_rep tr m →
  ∃ meta1 meta2 tr' m' b s', SetMetaInTransaction ino meta tr s = Ok ((meta1, tr', b), s') ∧
    upto_times meta1 meta ∧ same_meta meta2 meta1 ∧ tx_rep tr' m' ∧ quiet [ino] s s' ∧ cached s' ino meta2 ∧
    tree_meta m' ino meta2 ∧ ∀ k, k ≠ mkey ino → m' !! k = m !! k.
Proof.
  intros Hi Hold Ht. unfold SetMetaInTransaction.
  set (x := if _ : bool then setTimesNow _ _ _ _ else _).
  assert (∃ meta1 n, x s = Ok (meta1, set_clock n s) ∧ upto_times meta1 meta) as (meta1 & n & Ex & Hup).
  { subst x. destruct (_ || _ || _); [destruct (setTimesNow_ok (StAtimeNs meta =? 0)%Z (StCtimeNs meta =? 0)%Z (StMtimeNs meta =? 0)%Z meta s)
      as (meta1 & E & Hup); eauto|]. exists meta, (clock s). split; [|done]. by destruct s. }
  rewrite (FM_bind_ok _ _ _ _ _ Ex). fold (mkey ino). set (s1 := set_clock n s) in *.
  assert (ino2inode s1 !! ino = Some i) as Hi1 by done. rewrite (FM_bind_ok _ _ _ _ _ (i_load_ok _ _ _ Hi1)).
  set (ch := match i_meta i with Some _ => _ | None => _ end). destruct ch eqn:Ech.
  - destruct (tx_Set_ok (mkey ino) (MarshalMsg meta1) tr m Ht) as (tr' & E & Ht'). rewrite E.
    rewrite (FM_bind_ok _ _ s1 tr' s1) by done. rewrite (FM_bind_ok _ _ _ _ _ (i_upd_ok _ _ _ _ Hi1)).
    exists meta1, meta1, tr', (<[mkey ino := MarshalMsg meta1]> m), true. eexists. split_and!; [done|done|done|done| | | |].
    + eapply quiet_trans; [apply quiet_clock|]. by apply quiet_meta.
    + eexists. cbn. by rewrite lookup_insert_eq.
    + apply tree_meta_Marshal.
    + intros k Hk. by rewrite lookup_insert_ne.
  - destruct (i_meta i) as [old|] eqn:Em; [|done]. subst ch. apply orb_false_iff in Ech as [E1 E2].
    apply negb_false_iff, bool_decide_eq_true in E1. apply negb_false_iff, bool_decide_eq_true in E2.
    exists meta1, old, tr, m, false, s1. split_and!; [done|done|done|done|apply quiet_clock|by exists i|by apply Hold|done].
Qed.
End rep.
