(* ===== verification/FileRead.v ===== *)
(** * Reading a file

    [Read] returns the bytes of the file from the given offset, as many as there are and as
    fit. *)
From stdpp Require Import base list sets strings sorting gmap.
From Stdlib Require Import ZArith Lia Ascii.
From S2P Require Import Prelude OrderedMap Util BlockKey TreeBackend TreeStore FsState Inode FileIO FileRep.

Open Scope Z_scope.

Lemma to_int64_small z : z < 2 ^ 63 → to_int64 z = z.
Proof. intros Hz. unfold to_int64. destruct (Z.ltb_spec z 9223372036854775808); [done|lia]. Qed.
Lemma wrap64_small z : 0 ≤ z < 2 ^ 64 → wrap64 z = z.
Proof. intros Hz. unfold wrap64. apply Z.mod_small. lia. Qed.

(** What a read leaves in the buffer: [r] bytes of [f], then bytes of [f] or old ones. *)
Definition filled (f : Z → ascii) (buf buf' : bytes) (r : Z) : Prop :=
  blen buf' = blen buf ∧ (∀ i, 0 ≤ i < r → byte_at buf' i = f i) ∧
  ∀ i, r ≤ i < blen buf → byte_at buf' i = byte_at buf i ∨ byte_at buf' i = f i.

Lemma filled_mono f g buf buf' r :
  (∀ i, 0 ≤ i < blen buf → byte_at buf' i = f i → byte_at buf' i = g i) → 0 ≤ r ≤ blen buf →
  filled f buf buf' r → filled g buf buf' r.
Proof.
  intros Hfg Hr (Hl & Hlo & Hhi). split_and!; [done| |].
  - intros i Hi. apply Hfg; [lia|]. by apply Hlo.
  - intros i Hi. destruct (Hhi i Hi); [by left|right]. apply Hfg; [lia|done].
Qed.

(** The part of a block that is copied, then zeros. *)
Lemma read_extent_ok buf b offset end_ :
  0 ≤ offset < 2 ^ 63 → 0 ≤ end_ < 2 ^ 63 → end_ - offset ≤ blen buf →
  ∃ buf' r, read_extent buf b offset end_ = Ok (buf', r) ∧ r = Z.max 0 (end_ - offset) ∧
    blen buf' = blen buf ∧ (∀ i, 0 ≤ i < r → byte_at buf' i = byte_at b (offset + i)) ∧
    ∀ i, r ≤ i < blen buf → byte_at buf' i = byte_at buf i ∨
      (byte_at buf' i = byte_at b (offset + i) ∧ offset + i < blen b).
Proof.
  intros Ho He Hb. unfold read_extent. rewrite !to_int64_small by lia. pose proof (blen_nonneg b). pose proof (blen_nonneg buf).
  set (x := if offset <=? blen b then _ else _).
  assert (∃ buf1 read, x = Ok (buf1, read) ∧ read = Z.max 0 (blen b - offset) ∧ blen buf1 = blen buf ∧
    ∀ i, 0 ≤ i < blen buf → byte_at buf1 i = if i <? read then byte_at b (offset + i) else byte_at buf i)
    as (buf1 & read & Ex & Hread & Hl1 & Hb1).
  { subst x. destruct (Z.leb_spec offset (blen b)) as [Hle|Hlt].
    - rewrite slice_from_Z by lia. cbn [res_bind]. eexists _, _. split_and!; [done| |by rewrite blen_copy_to|].
      + rewrite blen_drop; lia.
      + intros i Hi. rewrite byte_at_copy_to, blen_drop, byte_at_drop by lia.
        destruct (Z.ltb_spec i (Z.max 0 (blen b - offset))), (Z.ltb_spec i 0); try lia; done.
    - exists buf, 0. split_and!; [done|lia|done|]. intros i Hi. by destruct (Z.ltb_spec i 0); [lia|]. }
  rewrite Ex. cbn [res_bind]. clear x Ex.
  assert (∀ i, 0 ≤ i → read ≤ i → byte_at b (offset + i) = zero) as Hz.
  { intros i Hi0 Hi. apply byte_at_out. right. lia. }
  destruct (Z.ltb_spec 0 (end_ - read - offset)) as [Hpos|Hneg].
  - unfold fill_zeros. rewrite Hl1. destruct (Z.ltb_spec (blen buf) (read + (end_ - read - offset))); [lia|]. cbn [res_bind].
    destruct (Z.leb_spec end_ offset); [lia|]. eexists _, _. split_and!; [done|lia|by rewrite blen_put_at; lia| |].
    + intros i Hi. rewrite byte_at_put_at, blen_zeros, byte_at_zeros by (rewrite ?blen_zeros; lia).
      destruct (Z.leb_spec read i), (Z.ltb_spec i (read + (end_ - read - offset))); simpl; try lia.
      * symmetry. apply Hz; lia.
      * rewrite Hb1 by lia. destruct (Z.ltb_spec i read); [done|lia].
    + intros i Hi. rewrite byte_at_put_at, blen_zeros by (rewrite ?blen_zeros; lia).
      destruct (Z.leb_spec read i), (Z.ltb_spec i (read + (end_ - read - offset))); simpl; try lia.
      rewrite Hb1 by lia. destruct (Z.ltb_spec i read); [lia|by left].
  - cbn [res_bind]. exists buf1, (if end_ <=? offset then 0 else read + (end_ - read - offset)). split_and!; [done| |done| |].
    + destruct (Z.leb_spec end_ offset); lia.
    + intros i Hi. destruct (Z.leb_spec end_ offset); [lia|]. rewrite Hb1 by lia. destruct (Z.ltb_spec i read); [done|lia].
    + intros i Hi. destruct (Z.leb_spec end_ offset); rewrite Hb1 by lia;
        (destruct (Z.ltb_spec i read); [right; split; [done|lia]|by left]).
Qed.

Section read.
Context {T : Type} `{FsEnvOk} `{TxStoreOk T} `{!TxRange T}.
Abbreviation F := (Fs T).

(** Where a read that starts at [offset] in a file of size [size] ends. *)
Definition read_end (size offset len : Z) : Z :=
  let e := Z.min (offset + len) size in
  if size <=? EmbeddedSize then e else Z.min e ((offset / dataExtentSize + 1) * dataExtentSize).

(** Reading in an extent that does not lie past the end of the file. *)
Definition readable (size offset : Z) : Prop :=
  size ≤ EmbeddedSize ∨ offset / dataExtentSize * dataExtentSize ≤ size.

Lemma extent_div offset :
  0 ≤ offset → 0 ≤ offset / dataExtentSize ∧
  offset = offset / dataExtentSize * dataExtentSize + offset mod dataExtentSize ∧
  0 ≤ offset mod dataExtentSize < dataExtentSize.
Proof.
  intros Ho. pose proof (Z.div_mod offset dataExtentSize ltac:(done)). pose proof (Z.mod_pos_bound offset dataExtentSize ltac:(done)).
  split_and!; [by apply Z.div_pos|lia|lia..].
Qed.

Lemma extent_index offset : 0 ≤ offset < 2 ^ 63 → in_uint64 (offset / dataExtentSize).
Proof.
  intros Ho. destruct (extent_div offset ltac:(lia)) as (? & ? & ?). unfold in_uint64, dataExtentSize in *. lia.
Qed.

(** What the read finds in an extent. *)
Lemma extent_read (s : F) tr m ino bs offset d :
  tx_rep tr m → extent m (stored s) ino (offset / dataExtentSize) d →
  (bidp ← ib_Get (NewBlockKeyOffset ino offset) tr;
   match (bidp : option string) with
   | None => mret ([], wrap64 (offset - offset / dataExtentSize * dataExtentSize), bs)
   | Some bid =>
       d ← StorageData bid;
       match (d : option string) with
       | None => fpanic "Block not found at all"
       | Some d =>
           match String.list_ascii_of_string d with
           | [] => fpanic "index out of range"
           | c :: b =>
               if (chr_byte c =? BDT_EXTENT)%Z
               then mret (b, wrap64 (offset - offset / dataExtentSize * dataExtentSize), bs)
               else fpanic "Wrong extent type in read"
           end
       end
   end : FM T (bytes * Z * Z)) s =
  Ok ((d, wrap64 (offset - offset / dataExtentSize * dataExtentSize), bs), s).
Proof.
  intros Ht Hd. rewrite (FM_bind_ok _ _ _ _ _ (ib_Get_ok _ _ _ s Ht)), NewBlockKeyOffset_ekey. unfold extent in Hd.
  destruct (m !! ekey ino (offset / dataExtentSize)) as [bid|]; [|by subst d].
  destruct Hd as (x & c & Hx & Hl & Hc). rewrite (FM_bind_ok _ _ _ (Some x) s) by (unfold StorageData, fgets; by rewrite Hx).
  rewrite Hl, Hc. done.
Qed.

Lemma readInTransaction_ok (s : F) tr m ino meta bs buf offset :
  tx_rep tr m → cached s ino meta → StSize meta = blen bs → blen bs ≤ maxSize → data_ok m (stored s) ino meta bs →
  0 ≤ offset → offset + blen buf < 2 ^ 63 → readable (blen bs) offset →
  ∃ buf' r, readInTransaction ino tr buf offset s = Ok ((buf', r), s) ∧
    r = Z.max 0 (read_end (blen bs) offset (blen buf) - offset) ∧ filled (λ i, byte_at bs (offset + i)) buf buf' r.
Proof.
  intros Ht Hc Hsize Hmax Hdata Ho Hend Hok. pose proof (blen_nonneg buf). pose proof (blen_nonneg bs).
  unfold readInTransaction, filled. rewrite (FM_bind_ok _ _ _ _ _ (Meta_cached _ _ _ Hc)).
  rewrite (FM_bind_ok _ _ s meta s) by done. rewrite Hsize, wrap64_small by lia.
  set (end1 := if blen bs <? offset + blen buf then blen bs else offset + blen buf).
  assert (end1 = Z.min (offset + blen buf) (blen bs)) as He1.
  { subst end1. destruct (Z.ltb_spec (blen bs) (offset + blen buf)); lia. }
  clearbody end1. unfold data_ok in Hdata. unfold read_end, maxSize in *.
  destruct (Z.leb_spec (blen bs) EmbeddedSize) as [Hemb|Hbig].
  - rewrite decide_True in Hdata by done. destruct Hdata as [Hdata _]. rewrite (FM_bind_ok _ _ s (content (im_Data meta), offset, end1) s) by done.
    destruct (read_extent_ok buf (content (im_Data meta)) offset end1) as (buf' & r & E & Hr & Hl & Hlo & Hhi); [lia..|].
    exists buf', r. cbn beta iota. rewrite E. split_and!; [done|by rewrite Hr, He1|done| |].
    + intros i Hi. by rewrite Hlo, Hdata.
    + intros i Hi. destruct (Hhi i Hi) as [|[-> _]]; [by left|right; by rewrite Hdata].
  - rewrite decide_False in Hdata by lia. destruct Hok as [|Hok]; [lia|].
    destruct (extent_div offset Ho) as (He & Hdiv & Hmod). set (e := offset / dataExtentSize) in *.
    destruct (Hdata e) as (d & Hx & Hld & Hbd); [by apply extent_index; lia|].
    rewrite (FM_bind_ok _ _ _ _ _ (extent_read s tr m ino _ offset d Ht Hx)). fold e. cbn beta iota.
    rewrite !wrap64_small by (unfold dataExtentSize in *; lia).
    replace (offset - e * dataExtentSize) with (offset mod dataExtentSize) by lia. set (o := offset mod dataExtentSize) in *.
    set (end2 := if dataExtentSize <? end1 - e * dataExtentSize then dataExtentSize else end1 - e * dataExtentSize).
    assert (end2 = Z.min (end1 - e * dataExtentSize) dataExtentSize) as He2.
    { subst end2. destruct (Z.ltb_spec dataExtentSize (end1 - e * dataExtentSize)); lia. }
    clearbody end2.
    destruct (read_extent_ok buf d o end2) as (buf' & r & E & Hr & Hl & Hlo & Hhi); [unfold dataExtentSize in *; lia..|].
    exists buf', r. rewrite E. assert (o + r ≤ dataExtentSize ∨ r = 0) by lia. split_and!; [done|lia|done| |].
    + intros i Hi. rewrite Hlo, Hbd by lia. f_equal. lia.
    + intros i Hi. destruct (Hhi i Hi) as [|[-> Hlt]]; [by left|right]. rewrite Hbd by lia. f_equal. lia.
Qed.

(** How many bytes a read gets. *)
Definition read_len (size offset len : Z) : Z := Z.max 0 (Z.min len (size - offset)).

(** One turn of the loop: either it reaches the end of what is to be read, or it stops at the
    start of an extent that lies in the file. *)
Lemma read_turn size off ofs len :
  0 ≤ off → 0 ≤ ofs < len → readable size (off + ofs) →
  let r := Z.max 0 (read_end size (off + ofs) (len - ofs) - (off + ofs)) in
  ofs ≤ read_len size off len ∨ ofs = 0 →
  ofs + r ≤ len ∧
  if r =? 0 then ofs = read_len size off len
  else ofs + r ≤ read_len size off len ∧
    if (off + ofs) / dataExtentSize =? (off + ofs + r) / dataExtentSize
    then ofs + r = read_len size off len else readable size (off + ofs + r).
Proof.
  intros Hoff Hofs Hok r Hle. set (o := off + ofs) in *. destruct (extent_div o) as (He & Hdiv & Hmod); [lia|].
  unfold read_len, read_end, readable in *. set (e := o / dataExtentSize) in *.
  destruct (Z.leb_spec size EmbeddedSize) as [Hemb|Hbig].
  - destruct (Z.eqb_spec r 0); [lia|]. split; [lia|]. split; [lia|]. destruct (Z.eqb_spec e ((o + r) / dataExtentSize)) as [|Hne]; [lia|].
    exfalso. apply Hne. unfold e. rewrite !Z.div_small; [done|unfold dataExtentSize, EmbeddedSize in *; lia..].
  - destruct (Z.eqb_spec r 0); [lia|]. split; [lia|]. split; [lia|]. destruct (Z.eqb_spec e ((o + r) / dataExtentSize)) as [Heq|Hne].
    + destruct (extent_div (o + r)) as (_ & Hdiv2 & Hmod2); [lia|]. lia.
    + right. destruct (extent_div (o + r)) as (_ & Hdiv2 & Hmod2); [lia|]. lia.
Qed.

Lemma Read_loop_ok fuel (s : F) m ino meta bs buf ofs off :
  tx_rep (root s) m → cached s ino meta → StSize meta = blen bs → blen bs ≤ maxSize → data_ok m (stored s) ino meta bs →
  0 ≤ off → off + blen buf < 2 ^ 63 → (ofs < blen buf → readable (blen bs) (off + ofs)) →
  0 ≤ ofs ≤ blen buf → (ofs ≤ read_len (blen bs) off (blen buf) ∨ ofs = 0) → blen buf - ofs < Z.of_nat fuel →
  (∀ i, 0 ≤ i < ofs → byte_at buf i = byte_at bs (off + i)) →
  ∃ buf', Read_loop fuel ino buf ofs (off + ofs) s = Ok ((buf', read_len (blen bs) off (blen buf)), s) ∧
    blen buf' = blen buf ∧ ∀ i, 0 ≤ i < read_len (blen bs) off (blen buf) → byte_at buf' i = byte_at bs (off + i).
Proof.
  intros Ht Hc Hsize Hmax Hdata Hoff Hend. revert buf ofs Hend.
  induction fuel as [|fuel IH]; intros buf ofs Hend Hok Hofs Hle Hfuel Hpre; [lia|].
  cbn [Read_loop]. destruct (Z.ltb_spec ofs (blen buf)) as [Hlt|Hge].
  2:{ exists buf. assert (ofs = blen buf) as -> by lia.
      assert (read_len (blen bs) off (blen buf) = blen buf) as -> by (unfold read_len in *; lia). done. }
  rewrite (FM_bind_ok _ _ s (root s) s) by done. rewrite slice_from_Z by lia.
  rewrite (FM_bind_ok _ _ s (drop (Z.to_nat ofs) buf) s) by done.
  assert (blen (drop (Z.to_nat ofs) buf) = blen buf - ofs) as Hlt1 by (rewrite blen_drop; lia).
  destruct (readInTransaction_ok s (root s) m ino meta bs (drop (Z.to_nat ofs) buf) (off + ofs))
    as (tail & r & E & Hr & Hl & Hlo & _); [done..|lia|lia|by apply Hok|].
  rewrite (FM_bind_ok _ _ _ _ _ E). rewrite Hlt1 in *.
  destruct (read_turn (blen bs) off ofs (blen buf) Hoff ltac:(lia) (Hok Hlt) Hle) as [Hr0 Hturn]. rewrite <- Hr in Hturn, Hr0.
  set (buf1 := take (Z.to_nat ofs) buf ++ tail).
  assert (blen buf1 = blen buf) as Hb1. { unfold buf1. rewrite blen_app, blen_take; lia. }
  assert (∀ i, 0 ≤ i < ofs + r → byte_at buf1 i = byte_at bs (off + i)) as Hb1i.
  { intros i Hi. unfold buf1. rewrite byte_at_app, blen_take, byte_at_take by lia. rewrite Z.min_l by lia.
    destruct (Z.ltb_spec i ofs); [apply Hpre; lia|]. rewrite Hlo by lia. f_equal. lia. }
  destruct (Z.eqb_spec r 0) as [Hz|Hnz].
  - exists buf1. rewrite <- Hturn. split_and!; [done..|]. intros i Hi. apply Hb1i. lia.
  - destruct Hturn as [Hle' Hturn]. rewrite wrap64_small by lia.
    destruct (Z.eqb_spec ((off + ofs) / dataExtentSize) ((off + ofs + r) / dataExtentSize)).
    + exists buf1. rewrite Hturn. split_and!; [done..|]. intros i Hi. apply Hb1i. lia.
    + rewrite <- Z.add_assoc in Hturn. destruct (IH buf1 (ofs + r)) as (buf' & E' & Hl' & Hb'); rewrite ?Hb1; [lia|done|lia|by left|lia|done|].
      rewrite Hb1 in *. exists buf'. rewrite <- Z.add_assoc, E'. done.
Qed.

(** What [Read] returns. *)
Definition read_spec (bs : bytes) (offset : Z) (len : nat) : bytes := take len (drop (Z.to_nat offset) bs).

(** Caching the metadata does not change what is read. *)
Lemma readInTransaction_Meta (s s1 : F) ino tr buf off x :
  Meta ino s = Ok (x, s1) → Meta ino s1 = Ok (x, s1) →
  readInTransaction ino tr buf off s = readInTransaction ino tr buf off s1.
Proof. intros E E1. unfold readInTransaction. by rewrite (FM_bind_ok _ _ _ _ _ E), (FM_bind_ok _ _ _ _ _ E1). Qed.

Lemma Read_loop_Meta fuel (s s1 : F) ino buf off x :
  Meta ino s = Ok (x, s1) → Meta ino s1 = Ok (x, s1) → root s1 = root s → 0 < blen buf →
  Read_loop (S fuel) ino buf 0 off s = Read_loop (S fuel) ino buf 0 off s1.
Proof.
  intros E E1 Hroot Hb. cbn [Read_loop]. destruct (Z.ltb_spec 0 (blen buf)); [|lia].
  rewrite (FM_bind_ok _ _ s (root s) s), (FM_bind_ok _ _ s1 (root s1) s1), slice_from_Z by (done || lia).
  rewrite !(FM_bind_ok _ _ _ (drop (Z.to_nat 0) buf) _ eq_refl), Hroot.
  unfold mbind, FM_bind. by rewrite (readInTransaction_Meta _ _ _ _ _ _ _ E E1).
Qed.

Lemma known_cached (s : F) m ino meta : cached s ino meta → known s m ino meta.
Proof. intros (i & Hi & Hm). exists i. by rewrite Hm. Qed.

(** The file survives a change of the inode cache. *)
Lemma file_ok_cached (s s' : F) m ino meta bs :
  file_ok s m ino meta bs → quiet [ino] s s' → cached s' ino meta → file_ok s' m ino meta bs.
Proof.
  intros [Hk Ht Hsz Hmax Hd] Hq Hc. split; [by apply known_cached|done..|by rewrite (q_stored _ _ _ Hq)].
Qed.
Lemma fs_ok_quiet inos (s s' : F) m : fs_ok s m → quiet inos s s' → fs_ok s' m.
Proof. intros [Ht Hh Hb] []. split; rewrite ?q_root, ?q_stored, ?q_buffers; done. Qed.

Lemma Read_file (s : F) m file meta bs buf off :
  fs_ok s m → file_ok s m (fh_inode file) meta bs → 0 ≤ off → off + blen buf < 2 ^ 63 → readable (blen bs) off →
  ∃ s', Read file buf off s = Ok ((read_spec bs off (length buf), OK), s') ∧ fs_ok s' m ∧
    file_ok s' m (fh_inode file) meta bs ∧ quiet [fh_inode file] s s'.
Proof.
  intros Hs Hf Ho Hb Hok. destruct (decide (buf = [])) as [->|Hne].
  { exists s. split_and!; [|done..|apply quiet_refl]. unfold read_spec. done. }
  assert (0 < blen buf) as Hpos by (destruct buf; [done|unfold blen; cbn [length]; lia]).
  destruct (Meta_known s m (fh_inode file) meta (fs_tree _ _ Hs) (fo_known _ _ _ _ _ Hf)) as (s1 & E1 & Hsame & Hc).
  pose proof (fs_ok_quiet _ _ _ _ Hs Hsame) as Hs1. pose proof (file_ok_cached _ _ _ _ _ _ Hf Hsame Hc) as Hf1.
  destruct (Read_loop_ok (S (length buf)) s1 m (fh_inode file) meta bs buf 0 off) as (buf' & E & Hl & Hbytes).
  { apply Hs1. } { done. } { apply Hf1. } { apply Hf1. } { apply Hf1. } { done. } { done. } { by rewrite Z.add_0_r. }
  { unfold read_len; lia. } { by right. } { unfold blen. lia. } { lia. }
  exists s1. split_and!; [|done..]. unfold Read. rewrite Z.add_0_r in E.
  assert (Read_loop (S (length buf)) (fh_inode file) buf 0 off s = Ok (buf', read_len (blen bs) off (blen buf), s1)) as E2.
  { rewrite (Read_loop_Meta _ s s1 _ _ _ _ E1 (Meta_cached _ _ _ Hc)); [done|apply Hsame|done]. }
  rewrite (FM_bind_ok _ _ _ _ _ E2). rewrite slice_to_Z by (unfold read_len; lia).
  rewrite (FM_bind_ok _ _ _ (read_spec bs off (length buf)) s1); [done|].
  unfold flift. do 3 f_equal. unfold read_spec. replace (length buf) with (Z.to_nat (blen buf)) by (unfold blen; lia).
  pose proof (blen_nonneg bs). apply bytes_ext.
  - rewrite !blen_take, blen_drop by (unfold read_len; lia). unfold read_len. lia.
  - intros i Hi. rewrite blen_take in Hi by (unfold read_len; lia). rewrite !byte_at_take, byte_at_drop by lia.
    unfold read_len in *. destruct (Z.ltb_spec i (Z.max 0 (Z.min (blen buf) (blen bs - off)))), (Z.ltb_spec i (blen buf)),
      (Z.ltb_spec i 0); try lia. apply Hbytes. lia.
Qed.
End read.
