(* ===== verification/FileWrite.v ===== *)
(** * Writing a file

    [Write] puts the bytes at the given offset: the file that results is [splice] of the old
    one. *)
From stdpp Require Import base list sets strings sorting gmap.
From Stdlib Require Import ZArith Lia Ascii.
From S2P Require Import Prelude OrderedMap Util BlockKey TreeBackend TreeStore FsState Inode FileIO FileRep FileRead.

Open Scope Z_scope.

Section write.
Context {T : Type} `{FsEnvOk} `{TxStoreOk T} `{!TxRange T}.
Abbreviation F := (Fs T).

(** The state a call of [gather] reads: the cached metadata and the data of the file. *)
Record reads (s : F) (tr : T) (m : smap) (ino : Z) (meta : InodeMeta) (bs : bytes) : Prop := {
  rd_tree : tx_rep tr m;
  rd_cached : cached s ino meta;
  rd_size : StSize meta = blen bs;
  rd_max : blen bs ≤ maxSize;
  rd_data : data_ok m (stored s) ino meta bs
}.

(** The bytes in front of the written ones. *)
Definition header (odata : option bytes) (bs : bytes) (offset i : Z) : ascii :=
  match odata with Some od => byte_at od i | None => byte_at bs (offset + i) end.

(** The buffer with the header in place. *)
Lemma gather_header (s : F) tr m ino meta bs odata obuf bofs offset :
  reads s tr m ino meta bs → 0 ≤ bofs < dataExtentSize → 0 ≤ offset → offset mod dataExtentSize = 0 →
  offset + dataExtentSize < 2 ^ 63 → (odata = None → readable (blen bs) offset) → blen obuf = bufferSize →
  ∃ obuf', (if (0 <? bofs)%Z then
         let obuf := put_at obuf 1 (zeros_of bofs) in
         match odata with
         | Some od =>
             let od := if (bofs <? blen od)%Z then take (Z.to_nat bofs) od else od in
             mret (put_at obuf 1 od, (1 + bofs)%Z)
         | None =>
             sl ← flift (sub_slice obuf 1 bofs);
             r ← readInTransaction ino tr sl offset;
             mret (put_at obuf 1 (r : bytes * Z).1, (1 + bofs)%Z)
         end
       else mret (obuf, 1%Z) : FM T (bytes * Z)) s = Ok ((obuf', 1 + bofs), s) ∧ blen obuf' = bufferSize ∧
    (∀ i, 0 ≤ i < bofs → byte_at obuf' (1 + i) = header odata bs offset i) ∧
    ∀ i, i < 1 ∨ 1 + bofs ≤ i → byte_at obuf' i = byte_at obuf i.
Proof.
  intros [Ht Hc Hsz Hmax Hd] Hbofs Hoff Hal Hmx Hok Hl. unfold bufferSize, dataHeaderMaximumSize in *.
  assert (∀ i, byte_at (put_at obuf 1 (zeros_of bofs)) i = if (1 <=? i) && (i <? 1 + bofs) then zero else byte_at obuf i) as Hz.
  { intros i. by rewrite byte_at_put_at, blen_zeros, byte_at_zeros by (rewrite ?blen_zeros; lia). }
  assert (blen (put_at obuf 1 (zeros_of bofs)) = blen obuf) as Hlz by (rewrite blen_put_at; lia).
  destruct (Z.ltb_spec 0 bofs) as [Hpos|]; [|by exists obuf; replace bofs with 0 by lia; split_and!; [done..|lia|]].
  cbn zeta. set (ob := put_at obuf 1 (zeros_of bofs)) in *. destruct odata as [od|].
  - set (od' := if bofs <? blen od then take (Z.to_nat bofs) od else od).
    assert (blen od' = Z.min bofs (blen od) ∧ ∀ i, 0 ≤ i < bofs → byte_at od' i = byte_at od i) as [Hlod Hod].
    { subst od'. destruct (Z.ltb_spec bofs (blen od)); [|split; [lia|done]]. rewrite blen_take by lia. split; [done|].
      intros i Hi. rewrite byte_at_take. destruct (Z.ltb_spec i bofs); [done|lia]. }
    clearbody od'. pose proof (blen_nonneg od). eexists. split_and!; [done|by rewrite blen_put_at; lia| |].
    + intros i Hi. rewrite byte_at_put_at, Hz by lia. cbn [header].
      destruct (Z.leb_spec 1 (1 + i)), (Z.ltb_spec (1 + i) (1 + blen od')), (Z.ltb_spec (1 + i) (1 + bofs)); try lia; simpl.
      * rewrite Hod by lia. f_equal. lia.
      * rewrite byte_at_out; [done|lia].
    + intros i Hi. rewrite byte_at_put_at, Hz by lia.
      destruct (Z.leb_spec 1 i), (Z.ltb_spec i (1 + blen od')), (Z.ltb_spec i (1 + bofs)); try lia; done.
  - destruct (sub_slice_Z ob 1 bofs) as (sl & Esl & Hlsl & Hsl); [lia..|]. rewrite (FM_bind_ok _ _ s sl s) by (unfold flift; by rewrite Esl).
    destruct (readInTransaction_ok s tr m ino meta bs sl offset) as (buf' & r & E & Hr & Hlb & Hlo & Hhi);
      [done..|by unfold dataExtentSize in *; lia|by apply Hok|].
    rewrite (FM_bind_ok _ _ _ _ _ E). cbn [fst]. eexists. split_and!; [done|by rewrite blen_put_at; lia| |].
    + intros i Hi. rewrite byte_at_put_at by lia. rewrite Hlb, Hlsl.
      destruct (Z.leb_spec 1 (1 + i)), (Z.ltb_spec (1 + i) (1 + bofs)); try lia; simpl. replace (1 + i - 1) with i by lia.
      destruct (Z.ltb_spec i r) as [|Hge]; [apply Hlo; lia|]. destruct (Hhi i ltac:(lia)) as [->|]; [|done].
      rewrite Hsl, Hz by lia. destruct (Z.leb_spec 1 (1 + i)), (Z.ltb_spec (1 + i) (1 + bofs)); try lia; simpl.
      symmetry. apply byte_at_out. right. unfold read_end in Hr. rewrite Hlsl in Hr.
      destruct (extent_div offset Hoff) as (_ & Hdiv & _). destruct (Z.leb_spec (blen bs) EmbeddedSize); lia.
    + intros i Hi. rewrite byte_at_put_at, Hz by lia. rewrite Hlb, Hlsl.
      destruct (Z.leb_spec 1 i), (Z.ltb_spec i (1 + bofs)); try lia; done.
Qed.

(** Where the block ends that a write up to [end_] stores. *)
Definition block_end (size offset : Z) : Z := Z.min (offset + dataExtentSize) size.
Definition block_len (size offset bofs len end_ : Z) : Z :=
  if end_ <? block_end size offset then block_end size offset - offset else bofs + len.
Definition block_byte (odata : option bytes) (bs : bytes) (offset bofs : Z) (buf : bytes) (i : Z) : ascii :=
  if i <? bofs then header odata bs offset i
  else if i <? bofs + blen buf then byte_at buf (i - bofs) else byte_at bs (offset + i).

(** A piece of a write: it starts at [bofs] in the extent at [offset] and ends in the extent; the
    write it belongs to ends at [end_]. *)
Record piece (bs buf : bytes) (size bofs offset end_ : Z) : Prop := {
  pc_bofs : 0 ≤ bofs < dataExtentSize;
  pc_fits : bofs + blen buf ≤ dataExtentSize;
  pc_offset : 0 ≤ offset;
  pc_aligned : offset mod dataExtentSize = 0;
  pc_small : offset + dataExtentSize < 2 ^ 63;
  pc_size : 0 ≤ size ≤ maxSize;
  pc_rest : end_ < block_end size offset → end_ = offset + bofs + blen buf ∧ block_end size offset ≤ blen bs
}.

(** The buffer a write starts from: the type byte, and the bytes in their place. *)
Definition prepared (obuf buf : bytes) (bofs : Z) : Prop :=
  blen obuf = bufferSize ∧ byte_at obuf 0 = byte_chr BDT_EXTENT ∧
  ∀ i, 0 ≤ i < blen buf → byte_at obuf (1 + bofs + i) = byte_at buf i.

Lemma aligned_div offset i :
  0 ≤ offset → offset mod dataExtentSize = 0 → 0 ≤ i < dataExtentSize → (offset + i) / dataExtentSize * dataExtentSize = offset.
Proof.
  intros Ho Hal Hi. destruct (extent_div offset Ho) as (_ & Hdiv & _). rewrite Hdiv, Hal, Z.add_0_r.
  rewrite Z.add_comm, Z.div_add, (Z.div_small i) by (done || lia). lia.
Qed.

Lemma gather_rest (s : F) tr m ino meta bs buf obuf size bofs offset end_ :
  reads s tr m ino meta bs → piece bs buf size bofs offset end_ → blen obuf = bufferSize →
  let w := 1 + bofs + blen buf in
  ∃ obuf' w', (if (end_ <? block_end size offset)%Z then
         let extra := (block_end size offset - end_)%Z in
         sl ← flift (sub_slice obuf w extra);
         r ← readInTransaction ino tr sl end_;
         mret (put_at obuf w (r : bytes * Z).1, (w + (r : bytes * Z).2)%Z)
       else mret (obuf, w) : FM T (bytes * Z)) s = Ok ((obuf', w'), s) ∧ blen obuf' = bufferSize ∧
    w' = 1 + block_len size offset bofs (blen buf) end_ ∧
    (∀ i, i < w → byte_at obuf' i = byte_at obuf i) ∧
    ∀ i, w ≤ i < w' → byte_at obuf' i = byte_at bs (offset + (i - 1)).
Proof.
  intros [Ht Hc Hsz Hmax Hd] [Hb Hfit Ho Hal Hsm Hsize Hrest] Hl w. unfold block_len. pose proof (blen_nonneg buf).
  destruct (Z.ltb_spec end_ (block_end size offset)) as [Hlt|Hge]; [|exists obuf, w; split_and!; [done..|lia|done|lia]].
  destruct (Hrest Hlt) as [-> Hbe]. clear Hrest. unfold block_end, bufferSize, dataHeaderMaximumSize in *. cbn zeta.
  set (be := Z.min (offset + dataExtentSize) size) in *.
  destruct (sub_slice_Z obuf w (be - (offset + bofs + blen buf))) as (sl & Esl & Hlsl & _); [lia..|].
  rewrite (FM_bind_ok _ _ s sl s) by (unfold flift; by rewrite Esl).
  assert ((offset + (bofs + blen buf)) / dataExtentSize * dataExtentSize = offset) as Hal2 by (apply aligned_div; lia).
  rewrite Z.add_assoc in Hal2. pose proof (blen_nonneg bs).
  destruct (readInTransaction_ok s tr m ino meta bs sl (offset + bofs + blen buf)) as (buf' & r & E & Hr & Hlb & Hlo & _);
    [done..|lia|unfold maxSize in *; lia|right; lia|].
  rewrite (FM_bind_ok _ _ _ _ _ E). cbn [fst snd].
  assert (r = be - (offset + bofs + blen buf)) as Hr'.
  { rewrite Hr, Hlsl. unfold read_end. rewrite Z.mul_add_distr_r, Hal2. destruct (blen bs <=? EmbeddedSize); lia. }
  eexists _, _. split_and!; [done|by rewrite blen_put_at; lia|lia| |].
  - intros i Hi. rewrite byte_at_put_at by lia. by destruct (Z.leb_spec w i); [lia|].
  - intros i Hi. rewrite byte_at_put_at by lia.
    destruct (Z.leb_spec w i), (Z.ltb_spec i (w + blen buf')); try lia; simpl. rewrite Hlo by lia. f_equal. lia.
Qed.

Lemma gather_ok (s : F) tr m ino meta bs buf odata obuf size bofs offset end_ :
  reads s tr m ino meta bs → piece bs buf size bofs offset end_ → prepared obuf buf bofs →
  (odata = None → readable (blen bs) offset) →
  ∃ obuf' nb, gather ino size tr buf odata obuf bofs offset end_ s = Ok ((obuf', byte_chr BDT_EXTENT :: nb), s) ∧
    blen obuf' = bufferSize ∧ blen nb = block_len size offset bofs (blen buf) end_ ∧
    ∀ i, 0 ≤ i < blen nb → byte_at nb i = block_byte odata bs offset bofs buf i.
Proof.
  intros Hrd Hp (Hl & Hb0 & Hbuf) Hok. pose proof Hp as [Hb Hfit Ho Hal Hsm Hsize Hrest]. unfold gather.
  destruct (gather_header s tr m ino meta bs odata obuf bofs offset) as (ob1 & E1 & Hl1 & Hhd & Hkeep); [done..|].
  rewrite (FM_bind_ok _ _ _ _ _ E1). cbn beta iota zeta. rewrite wrap64_small by (unfold dataExtentSize in *; lia).
  replace (if size <? offset + dataExtentSize then size else offset + dataExtentSize) with (block_end size offset)
    by (unfold block_end; destruct (Z.ltb_spec size (offset + dataExtentSize)); lia).
  destruct (gather_rest s tr m ino meta bs buf ob1 size bofs offset end_ Hrd Hp Hl1) as (ob2 & w' & E2 & Hl2 & Hw' & Hk2 & Hr2).
  rewrite (FM_bind_ok _ _ _ _ _ E2). cbn beta iota. pose proof (blen_nonneg buf).
  assert (bofs + blen buf ≤ block_len size offset bofs (blen buf) end_ ≤ dataExtentSize) as Hbl.
  { unfold block_len in *. destruct (Z.ltb_spec end_ (block_end size offset)); [|lia]. destruct Hrest; [done|].
    unfold block_end in *. lia. }
  unfold bufferSize, dataHeaderMaximumSize in *.
  rewrite slice_to_Z by lia. rewrite (FM_bind_ok _ _ s (take (Z.to_nat w') ob2) s) by done.
  exists ob2, (drop 1 (take (Z.to_nat w') ob2)). change 1%nat with (Z.to_nat 1).
  assert (blen (drop (Z.to_nat 1) (take (Z.to_nat w') ob2)) = w' - 1) as Hlnb by (rewrite blen_drop, blen_take; lia).
  assert (byte_at ob2 0 = byte_chr BDT_EXTENT) as Hfirst by (rewrite Hk2, Hkeep by lia; done).
  split_and!; [|done|lia|].
  - unfold mret, FM_ret. do 3 f_equal. apply bytes_ext.
    + change (byte_chr BDT_EXTENT :: ?l) with ([byte_chr BDT_EXTENT] ++ l).
      rewrite blen_app, Hlnb, blen_take by lia. change (blen [byte_chr BDT_EXTENT]) with 1. lia.
    + intros i Hi. rewrite blen_take in Hi by lia. rewrite byte_at_cons, byte_at_drop, !byte_at_take by lia.
      destruct (Z.eqb_spec i 0) as [->|]; [by destruct (Z.ltb_spec 0 w'); [|lia]|].
      destruct (Z.ltb_spec i w'), (Z.ltb_spec i 0), (Z.ltb_spec (i - 1) 0), (Z.ltb_spec (1 + (i - 1)) w'); try lia. f_equal. lia.
  - rewrite Hlnb. intros i Hi. rewrite byte_at_drop, byte_at_take by lia.
    destruct (Z.ltb_spec i 0), (Z.ltb_spec (1 + i) w'); try lia. unfold block_byte.
    destruct (Z.ltb_spec i bofs); [rewrite Hk2 by lia; apply Hhd; lia|].
    destruct (Z.ltb_spec i (bofs + blen buf)).
    + rewrite Hk2, Hkeep by lia. replace (1 + i) with (1 + bofs + (i - bofs)) by lia. apply Hbuf. lia.
    + rewrite Hr2 by lia. f_equal. lia.
Qed.

(** ** Storing a block *)

Lemma GetStorageBlock_ok (s : F) b :
  (∀ id d, stored s !! id = Some d → id = Sum256 d) →
  ∃ st', GetStorageBlock b s = Ok (Sum256 b, set_stored st' s) ∧ stored s ⊆ st' ∧ st' !! Sum256 b = Some b ∧
    ∀ id d, st' !! id = Some d → id = Sum256 d.
Proof.
  intros Hh. unfold GetStorageBlock. destruct (stored s !! Sum256 b) as [d|] eqn:E.
  - exists (stored s). rewrite (FM_bind_ok _ _ s tt s) by (unfold fmodify; by rewrite E).
    split_and!; [by destruct s|done| |done]. apply Hh in E as Hd. apply (inj Sum256) in Hd. by subst d.
  - exists (<[Sum256 b := b]> (stored s)). rewrite (FM_bind_ok _ _ s tt (set_stored (<[Sum256 b := b]> (stored s)) s)) by (unfold fmodify; by rewrite E).
    split_and!; [done|by apply insert_subseteq|by rewrite lookup_insert_eq|].
    intros id d. destruct (decide (id = Sum256 b)) as [->|]; [by rewrite lookup_insert_eq; intros [= ->]|].
    rewrite lookup_insert_ne by done. apply Hh.
Qed.

(** ** What a write leaves alone *)

Record touched (ino : Z) (s s' : F) (m m' : smap) : Prop := {
  to_keys : ∀ k, k ≠ mkey ino → (∀ e, k ≠ ekey ino e) → m' !! k = m !! k;
  to_kind : kind_of m' ino = kind_of m ino;
  to_stored : stored s ⊆ stored s';
  to_files : fh2ifile s' = fh2ifile s;
  to_counts : ino2fhcount s' = ino2fhcount s;
  to_refs : ∀ j, (λ i, (refcnt i, removed i)) <$> ino2inode s' !! j = (λ i, (refcnt i, removed i)) <$> ino2inode s !! j;
  to_other : ∀ j, j ≠ ino → ino2inode s' !! j = ino2inode s !! j
}.
Lemma touched_refl ino s m : touched ino s s m m.
Proof. by split. Qed.
Lemma touched_trans ino s1 s2 s3 m1 m2 m3 :
  touched ino s1 s2 m1 m2 → touched ino s2 s3 m2 m3 → touched ino s1 s3 m1 m3.
Proof.
  intros A B. split.
  - intros k Hk He. rewrite (to_keys _ _ _ _ _ B), (to_keys _ _ _ _ _ A); done.
  - etrans; [apply B|apply A].
  - etrans; [apply A|apply B].
  - etrans; [apply B|apply A].
  - etrans; [apply B|apply A].
  - intros j. etrans; [apply B|apply A].
  - intros j Hj. etrans; [by apply B|by apply A].
Qed.
(** A commit of metadata and the return of a buffer. *)
Lemma touched_commit ino s s' m m' tr l :
  quiet [ino] s s' → (∀ k, k ≠ mkey ino → m' !! k = m !! k) → kind_of m' ino = kind_of m ino →
  touched ino s (set_writeBuffers l (set_root tr s')) m m'.
Proof. intros [] Hm Hk. split; cbn; [by auto|done|by rewrite q_stored|done..|]. intros j Hj. apply q_other. set_solver. Qed.

(** Another file keeps its content. *)
Lemma touched_file ino ino' s s' m m' meta bs :
  touched ino s s' m m' → in_uint64 ino → in_uint64 ino' → ino' ≠ ino → file_ok s m ino' meta bs → file_ok s' m' ino' meta bs.
Proof.
  intros [Hk _ Hst _ _ _ Ho] Hi Hi' Hne [Hkn Ht Hsz Hmax Hd].
  assert (m' !! mkey ino' = m !! mkey ino') as Em.
  { apply Hk; [intros E; by apply mkey_inj in E|]. intros e E. symmetry in E. by apply ekey_mkey in E. }
  split; [| |done..|].
  - destruct Hkn as (i & Ei & Hi2). exists i. by rewrite Ho, Em.
  - destruct Ht as (v & a & ?). exists v, a. by rewrite Em.
  - eapply data_ok_frame; [|done..]. intros e He. apply Hk; [by apply ekey_mkey|].
    intros e' E. unfold ekey in E. by apply NewBlockKey_inj in E as [? _].
Qed.

(** ** The parts of [write] *)

(** The buffer a write takes: whatever an earlier write left in it. *)
Lemma writeBuffers_Get_ok (s : F) m :
  fs_ok s m → ∃ obuf l, writeBuffers_Get s = Ok (obuf, set_writeBuffers l s) ∧ blen obuf = bufferSize ∧ ∀ b, b ∈ l → blen b = bufferSize.
Proof.
  intros Hs. unfold writeBuffers_Get. rewrite (FM_bind_ok _ _ s (writeBuffers s) s) by done.
  pose proof (fs_buffers _ _ Hs) as Hb. destruct (writeBuffers s) as [|b l] eqn:E.
  - exists (zeros_of (dataExtentSize + dataHeaderMaximumSize)), []. split_and!; [|by apply blen_zeros|by intros b ?%elem_of_nil].
    unfold mret, FM_ret. do 2 f_equal. by destruct s; simpl in E; subst.
  - exists b, l. split_and!; [done|apply Hb; set_solver|]. intros b' Hb'. apply Hb. set_solver.
Qed.

Lemma byte_at_update0 l c i : 0 < blen l → byte_at (<[0%nat := c]> l) i = if i =? 0 then c else byte_at l i.
Proof.
  destruct l as [|x l]; [done|]. intros _. simpl. rewrite !byte_at_cons. by destruct (i =? 0).
Qed.

Lemma prepared_ok obuf buf bofs :
  blen obuf = bufferSize → 0 ≤ bofs → bofs + blen buf ≤ dataExtentSize →
  ∃ ob, go_update obuf 0 (byte_chr BDT_EXTENT) = Ok ob ∧ prepared (put_at ob (1 + bofs) buf) buf bofs.
Proof.
  intros Hl Hb Hfit. pose proof (blen_nonneg buf). unfold bufferSize, dataHeaderMaximumSize in *. assert (0 < blen obuf) as Hpos by (unfold dataExtentSize in *; lia).
  exists (<[0%nat := byte_chr BDT_EXTENT]> obuf). split; [apply go_update_Ok; unfold blen in Hpos; lia|].
  assert (blen (<[0%nat := byte_chr BDT_EXTENT]> obuf) = blen obuf) as Hl1 by (unfold blen; by rewrite length_insert).
  unfold prepared. unfold bufferSize, dataHeaderMaximumSize. split_and!.
  - rewrite blen_put_at; lia.
  - rewrite byte_at_put_at by lia. destruct (Z.leb_spec (1 + bofs) 0); [lia|]. simpl. by rewrite byte_at_update0.
  - intros i Hi. rewrite byte_at_put_at by lia.
    destruct (Z.leb_spec (1 + bofs) (1 + bofs + i)), (Z.ltb_spec (1 + bofs + i) (1 + bofs + blen buf)); try lia. simpl. f_equal. lia.
Qed.

(** Storing a piece in its extent. *)
Lemma write_extent (s : F) tr m ino meta0 (meta : InodeMeta) bs0 bs1 buf odata obuf bofs offset end_ :
  reads s tr m ino meta0 bs0 → (∀ id d, stored s !! id = Some d → id = Sum256 d) → in_uint64 ino →
  piece bs0 buf (StSize meta) bofs offset end_ → prepared obuf buf bofs → (odata = None → readable (blen bs0) offset) →
  EmbeddedSize < StSize meta → blen bs1 = blen bs0 → EmbeddedSize < blen bs0 →
  (∀ i, 0 ≤ i → i < offset ∨ offset + dataExtentSize ≤ i → byte_at bs1 i = byte_at bs0 i) →
  (∀ i, 0 ≤ i < dataExtentSize → byte_at bs1 (offset + i) =
     if i <? block_len (StSize meta) offset bofs (blen buf) end_ then block_byte odata bs0 offset bofs buf i else zero) →
  ∃ tr' m' st' obuf', writeInTransaction ino meta tr buf odata obuf bofs offset end_ s = Ok ((meta, tr', obuf'), set_stored st' s) ∧
    tx_rep tr' m' ∧ blen obuf' = bufferSize ∧ stored s ⊆ st' ∧ (∀ id d, st' !! id = Some d → id = Sum256 d) ∧
    (∀ k, (∀ e, k ≠ ekey ino e) → m' !! k = m !! k) ∧ data_ok m' st' ino meta0 bs1.
Proof.
  intros Hrd Hh Hino Hp Hprep Hok Hbig Hl1 Hbig0 Hout Hin. unfold writeInTransaction.
  destruct (gather_ok s tr m ino meta0 bs0 buf odata obuf (StSize meta) bofs offset end_ Hrd Hp Hprep Hok) as (ob & nb & E & Hlob & Hlnb & Hnb).
  rewrite (FM_bind_ok _ _ _ _ _ E). destruct (Z.leb_spec (StSize meta) EmbeddedSize); [lia|]. cbn [andb].
  destruct (GetStorageBlock_ok s (String.string_of_list_ascii (byte_chr BDT_EXTENT :: nb)) Hh) as (st' & Eb & Hsub & Hget & Hh').
  rewrite (FM_bind_ok _ _ _ _ _ Eb). set (bid := Sum256 _) in *. rewrite NewBlockKeyOffset_ekey.
  pose proof Hp as [Hb Hfit Ho Hal Hsm Hsize Hrest]. set (e := offset / dataExtentSize) in *.
  assert (offset = e * dataExtentSize) as Hoe by (destruct (extent_div offset Ho) as (_ & ? & _); lia).
  destruct (tx_Set_ok (ekey ino e) bid tr m (rd_tree _ _ _ _ _ _ Hrd)) as (tr' & Et & Ht'). rewrite Et.
  rewrite (FM_bind_ok _ _ (set_stored st' s) tr' (set_stored st' s)) by done. exists tr', (<[ekey ino e := bid]> m), st', ob.
  split_and!; [done..| |].
  { intros k Hk. rewrite lookup_insert_ne; [done|]. by intros <-; destruct (Hk e). }
  pose proof (rd_data _ _ _ _ _ _ Hrd) as Hd. unfold data_ok in *. rewrite decide_False in Hd by lia. rewrite decide_False by lia. intros e' He'.
  assert (in_uint64 e) as Hie by (apply extent_index; unfold dataExtentSize in *; lia).
  destruct (decide (e' = e)) as [->|Hne].
  - exists nb. split_and!.
    + unfold extent. rewrite lookup_insert_eq. exists (String.string_of_list_ascii (byte_chr BDT_EXTENT :: nb)), (byte_chr BDT_EXTENT).
      split_and!; [done|apply String.list_ascii_of_string_of_list_ascii|done].
    + rewrite Hlnb. unfold block_len in *. destruct (Z.ltb_spec end_ (block_end (StSize meta) offset)); [|lia].
      unfold block_end in *. lia.
    + intros i Hi. rewrite <- Hoe, Hin, <- Hlnb by done. destruct (Z.ltb_spec i (blen nb)); [apply Hnb; lia|apply byte_at_out; lia].
  - destruct (Hd e' He') as (d & Hx & Hld & Hbd). exists d. split_and!; [|done|].
    + unfold extent in *. rewrite lookup_insert_ne by (intros Ek; apply ekey_inj in Ek; done).
      destruct (m !! ekey ino e'); [|done]. destruct Hx as (x & c & Hx & ?). exists x, c. split; [by eapply lookup_weaken|done].
    + intros i Hi. rewrite Hbd by done. symmetry. apply Hout; unfold in_uint64, dataExtentSize in *; lia.
Qed.

(** ** One call of [write] *)

(** The write does not hit the case in which the code loses the embedded data: a write past the
    first extent of a small file. *)
Definition write_safe (bs : bytes) (off : Z) : Prop :=
  off < dataExtentSize ∨ EmbeddedSize < blen bs ∨ ∀ i, byte_at bs i = zero.

(** The file after the first [w] bytes of a write: it has its final size already. *)
Definition partly (bs : bytes) (off : Z) (buf : bytes) (w : Z) : bytes :=
  mk_content (Z.max (blen bs) (off + blen buf)) (over (byte_at bs) off (take (Z.to_nat w) buf)).

Lemma fs_ok_parts (s : F) m :
  tx_rep (root s) m → (∀ id d, stored s !! id = Some d → id = Sum256 d) →
  (∀ b, b ∈ writeBuffers s → blen b = bufferSize) → fs_ok s m.
Proof. by split. Qed.

(** The pieces of a write in an embedded file. *)
Lemma write_tail_embedded (s : F) m ino meta0 bs (meta : InodeMeta) buf obuf bofs :
  fs_ok s m → reads s (root s) m ino meta0 bs → tree_meta m ino meta0 → in_uint64 ino → 0 ≤ bofs →
  StSize meta = Z.max (blen bs) (bofs + blen buf) → kind meta = kind meta0 → StSize meta ≤ EmbeddedSize → prepared obuf buf bofs →
  ∃ s' m' meta', write_tail ino meta (root s) buf (im_Data meta0) obuf bofs 0 (bofs + blen buf) s = Ok (tt, s') ∧
    fs_ok s' m' ∧ file_ok s' m' ino meta' (mk_content (Z.max (blen bs) (bofs + blen buf)) (over (byte_at bs) bofs buf)) ∧
    touched ino s s' m m'.
Proof.
  intros Hs Hrd Htm Hino Hb Hsz Hkd Hemb Hprep. pose proof (blen_nonneg bs). pose proof (blen_nonneg buf).
  assert (piece bs buf (StSize meta) bofs 0 (bofs + blen buf)) as Hp.
  { unfold EmbeddedSize, dataExtentSize, maxSize, block_end in *. split; try (unfold dataExtentSize, maxSize, block_end; lia). done. }
  unfold write_tail, writeInTransaction. rewrite (proj2 (Z.leb_le _ _) Hemb), (proj2 (Z.leb_le (bofs + blen buf) EmbeddedSize)) by lia.
  cbn [andb].
  destruct (gather_ok s (root s) m ino meta0 bs buf (im_Data meta0) obuf (StSize meta) bofs 0 (bofs + blen buf) Hrd Hp Hprep)
    as (ob & nb & E & Hlob & Hlnb & Hnb); [right; change (0 / _) with 0; lia|].
  rewrite (FM_bind_ok _ _ s (set_Data (Some nb) meta, root s, ob) s).
  2:{ rewrite (FM_bind_ok _ _ _ _ _ E). cbn beta iota. rewrite slice_from_Z; [done|]. unfold blen. cbn [length]. lia. }
  destruct (setTimesNow_ok true true true (set_Data (Some nb) meta) s) as (meta1 & E1 & Hup1). rewrite (FM_bind_ok _ _ _ _ _ E1).
  set (s1 := set_clock _ s). destruct (rd_cached _ _ _ _ _ _ Hrd) as (i & Hi & Hmi).
  destruct (SetMeta_ok s1 (root s) m ino i meta1) as (meta2 & meta3 & tr' & m' & b & s2 & E2 & Hup2 & Hsame & Ht' & Hq & Hc & Htm' & Hm');
    [done|by rewrite Hmi; intros old [= <-]|apply Hs|].
  rewrite (FM_bind_ok _ _ _ _ _ E2). cbn beta iota. rewrite (FM_bind_ok _ _ s2 tt (set_root tr' s2)) by done.
  rewrite (FM_bind_ok _ _ (set_root tr' s2) ob (set_root tr' s2)) by done.
  assert (quiet [ino] s s2) as Hq2 by (eapply quiet_trans; [apply quiet_clock|done]).
  eexists _, m', meta3. split_and!; [done| | |].
  - apply fs_ok_parts; cbn; [done|by rewrite (q_stored _ _ _ Hq2); apply Hs|].
    rewrite (q_buffers _ _ _ Hq2). intros x [->|Hx]%elem_of_cons; [done|]. by eapply (fs_buffers _ _ Hs).
  - pose proof (upto_times_fields _ _ (upto_times_trans _ _ _ Hup2 Hup1)) as (_ & _ & _ & Hsize & _).
    destruct Hsame as [Hs1 Hs2]. assert (StSize meta3 = StSize meta) as Hsz3 by (rewrite Hs1; exact Hsize).
    assert (content (im_Data meta3) = nb) as Hd3. { rewrite Hs2. destruct Hup2 as [_ ->]. by destruct Hup1 as [_ ->]. }
    split; [by apply known_cached|done|by rewrite blen_mk; lia|rewrite blen_mk; unfold maxSize, EmbeddedSize in *; lia|].
    cbn. rewrite (q_stored _ _ _ Hq2). pose proof (rd_data _ _ _ _ _ _ Hrd) as Hd. unfold data_ok in *.
    rewrite decide_True in Hd by lia. rewrite decide_True by (rewrite blen_mk; lia). destruct Hd as [Hd He]. split.
    + intros j. rewrite Hd3, byte_at_mk. unfold block_len, block_end in Hlnb. change (0 + dataExtentSize) with dataExtentSize in Hlnb.
      assert (blen nb = StSize meta) as Hlnb' by (unfold EmbeddedSize, dataExtentSize in *; destruct (Z.ltb_spec (bofs + blen buf) (Z.min 65536 (StSize meta))); lia).
      destruct (Z.leb_spec 0 j), (Z.ltb_spec j (Z.max (blen bs) (bofs + blen buf))); simpl; try (apply byte_at_out; lia).
      rewrite Hnb by lia. unfold block_byte, over, header. rewrite Z.add_0_l.
      destruct (Z.ltb_spec j bofs), (Z.leb_spec bofs j), (Z.ltb_spec j (bofs + blen buf)); try lia; simpl; try done.
      destruct (im_Data meta0) as [od|] eqn:Ed; [|done]. by rewrite <- Hd.
    + intros e' He'. rewrite Hm' by (by apply ekey_mkey). by apply He.
  - eapply touched_commit; [done..|]. rewrite (tree_kind _ _ _ Htm), (tree_kind _ _ _ Htm'). f_equal.
    rewrite (same_kind _ _ Hsame), (upto_kind _ _ Hup2), (upto_kind _ _ Hup1). exact Hkd.
Qed.

(** The file between the commits of its new size and of the data. *)
Definition grown (bs : bytes) (size : Z) : bytes :=
  if decide (blen bs ≤ EmbeddedSize) then zeros_of size else mk_content size (byte_at bs).

Lemma blen_grown bs size : 0 ≤ size → blen (grown bs size) = size.
Proof. intros Hs. unfold grown. destruct (decide _); [by apply blen_zeros|by apply blen_mk]. Qed.
Lemma byte_at_grown bs size i :
  blen bs ≤ size → byte_at (grown bs size) i = if decide (blen bs ≤ EmbeddedSize) then zero else byte_at bs i.
Proof.
  intros Hs. unfold grown. destruct (decide _); [apply byte_at_zeros|]. rewrite byte_at_mk.
  destruct (Z.leb_spec 0 i), (Z.ltb_spec i size); simpl; try done; symmetry; apply byte_at_out; lia.
Qed.

Lemma grown_data m m1 st ino meta0 meta2 bs size :
  data_ok m st ino meta0 bs → (∀ e, m1 !! ekey ino e = m !! ekey ino e) → blen bs ≤ size → EmbeddedSize < size →
  data_ok m1 st ino meta2 (grown bs size).
Proof.
  intros Hd Hm Hs He. unfold data_ok in *. pose proof (blen_nonneg bs). rewrite (decide_False (P := blen (grown _ _) ≤ _)) by (rewrite blen_grown; lia).
  intros e Hie. destruct (decide (blen bs ≤ EmbeddedSize)) as [Hemb|Hbig].
  - exists []. split_and!; [|done|].
    + unfold extent. rewrite Hm. destruct Hd as [_ Hd]. by rewrite Hd.
    + intros i Hi. by rewrite byte_at_nil, byte_at_grown, decide_True.
  - destruct (Hd e Hie) as (d & Hx & Hld & Hbd). exists d. split_and!; [by unfold extent in *; rewrite Hm|done|].
    intros i Hi. by rewrite Hbd, byte_at_grown, decide_False.
Qed.

(** A write with its piece: [buf] at [offset + bofs] of a write of [len] bytes. *)
Record part (bs buf : bytes) (bofs offset len : Z) : Prop := {
  pa_bofs : 0 ≤ bofs < dataExtentSize;
  pa_offset : 0 ≤ offset;
  pa_aligned : offset mod dataExtentSize = 0;
  pa_len : 0 < len;
  pa_buf : blen buf = Z.min len (dataExtentSize - bofs);
  pa_max : offset + bofs + len ≤ maxSize;
  pa_bs : blen bs ≤ maxSize;
  pa_safe : write_safe bs (offset + bofs)
}.

Definition new_size (bs : bytes) (bofs offset len : Z) : Z := Z.max (blen bs) (offset + bofs + len).
Definition target (bs buf : bytes) (bofs offset len : Z) : bytes :=
  mk_content (new_size bs bofs offset len) (over (byte_at bs) (offset + bofs) buf).

Lemma part_piece bs buf bofs offset len :
  part bs buf bofs offset len →
  piece (grown bs (new_size bs bofs offset len)) buf (new_size bs bofs offset len) bofs offset (offset + bofs + len).
Proof.
  intros []. pose proof (blen_nonneg bs). unfold new_size, maxSize, dataExtentSize in *.
  split; unfold dataExtentSize, maxSize, block_end; rewrite ?blen_grown by lia; try done; try lia.
  unfold dataExtentSize. lia.
Qed.

Lemma target_byte bs buf bofs offset len i :
  part bs buf bofs offset len → 0 ≤ i → byte_at (target bs buf bofs offset len) i = over (byte_at bs) (offset + bofs) buf i.
Proof.
  intros [] Hi. unfold target, over, new_size. rewrite byte_at_mk. pose proof (blen_nonneg bs).
  destruct (Z.leb_spec 0 i), (Z.ltb_spec i (Z.max (blen bs) (offset + bofs + len))), (Z.leb_spec (offset + bofs) i),
    (Z.ltb_spec i (offset + bofs + blen buf)); simpl; try lia; try done; symmetry; apply byte_at_out; lia.
Qed.

(** Bytes of an embedded file that is being enlarged, outside of what is written over or kept. *)
Lemma safe_zero bs buf bofs offset len i :
  part bs buf bofs offset len → blen bs ≤ EmbeddedSize → dataExtentSize ≤ offset ∨ EmbeddedSize ≤ i → byte_at bs i = zero.
Proof.
  intros [] Hemb Hi. destruct pa_safe0 as [Hlt|[|Hz]]; [|lia|apply Hz].
  destruct Hi; [lia|]. apply byte_at_out. lia.
Qed.

Lemma target_out bs buf bofs offset len i :
  part bs buf bofs offset len → 0 ≤ i → i < offset ∨ offset + dataExtentSize ≤ i →
  byte_at (target bs buf bofs offset len) i = byte_at (grown bs (new_size bs bofs offset len)) i.
Proof.
  intros Hp Hi Ho. pose proof Hp as []. rewrite target_byte, byte_at_grown by (done || (unfold new_size; lia)). unfold over.
  destruct (Z.leb_spec (offset + bofs) i), (Z.ltb_spec i (offset + bofs + blen buf)); try lia; simpl;
    (destruct (decide _); [|done]; eapply safe_zero; [done..|]; unfold dataExtentSize, EmbeddedSize in *;
     destruct (extent_div offset pa_offset0) as (? & ? & ?); unfold dataExtentSize in *; lia).
Qed.

Lemma target_in m st ino meta0 bs buf bofs offset len i :
  part bs buf bofs offset len → data_ok m st ino meta0 bs → EmbeddedSize < new_size bs bofs offset len → 0 ≤ i < dataExtentSize →
  let odata := if (blen bs <=? EmbeddedSize) && (offset =? 0) then im_Data meta0 else None in
  byte_at (target bs buf bofs offset len) (offset + i) =
    if i <? block_len (new_size bs bofs offset len) offset bofs (blen buf) (offset + bofs + len)
    then block_byte odata (grown bs (new_size bs bofs offset len)) offset bofs buf i else zero.
Proof.
  intros Hp Hd Hbig Hi odata. pose proof Hp as []. pose proof (blen_nonneg bs). rewrite target_byte by (done || lia).
  unfold block_len, block_end, block_byte, over. set (size := new_size bs bofs offset len) in *.
  assert (blen bs ≤ size ∧ offset + bofs + len ≤ size ∧ (size = blen bs ∨ size = offset + bofs + len)) as (Hs1 & Hs2 & Hs3)
    by (subst size; unfold new_size; lia).
  assert (offset = 0 ∨ dataExtentSize ≤ offset) as Hoff.
  { destruct (extent_div offset pa_offset0) as (? & ? & ?). unfold dataExtentSize in *. lia. }
  assert (size ≤ offset + i → byte_at bs (offset + i) = zero) as Hz by (intros; apply byte_at_out; lia).
  assert (i < bofs → header odata (grown bs size) offset i = byte_at bs (offset + i)) as Hhd.
  { intros Hib. unfold odata, data_ok in *. destruct (decide (blen bs ≤ EmbeddedSize)) as [Hemb|Hb].
    - rewrite (proj2 (Z.leb_le _ _) Hemb). cbn [andb]. destruct (Z.eqb_spec offset 0) as [->|Hne]; [|].
      + destruct Hd as [Hd _]. rewrite Z.add_0_l, <- Hd. destruct (im_Data meta0) as [od|]; [done|]. cbn.
        by rewrite byte_at_nil, byte_at_grown, decide_True.
      + cbn. rewrite byte_at_grown, decide_True by done. symmetry. eapply safe_zero; [done..|lia].
    - rewrite (proj2 (Z.leb_gt _ _)) by lia. cbn. by rewrite byte_at_grown, decide_False. }
  assert (bofs + blen buf ≤ i → byte_at (grown bs size) (offset + i) = byte_at bs (offset + i)) as Hrest.
  { intros Hib. rewrite byte_at_grown by done. destruct (decide _); [|done]. symmetry. apply Hz. lia. }
  destruct (Z.ltb_spec (offset + bofs + len) (Z.min (offset + dataExtentSize) size)) as [Hlt|Hge].
  - destruct (Z.ltb_spec i (Z.min (offset + dataExtentSize) size - offset)), (Z.leb_spec (offset + bofs) (offset + i)),
      (Z.ltb_spec (offset + i) (offset + bofs + blen buf)), (Z.ltb_spec i bofs), (Z.ltb_spec i (bofs + blen buf)); simpl; try lia;
      try (rewrite Hhd by lia; done); try (rewrite Hrest by lia; done); try (f_equal; lia); apply Hz; lia.
  - destruct (Z.ltb_spec i (bofs + blen buf)), (Z.leb_spec (offset + bofs) (offset + i)),
      (Z.ltb_spec (offset + i) (offset + bofs + blen buf)), (Z.ltb_spec i bofs); simpl; try lia;
      try (rewrite Hhd by lia; done); try (f_equal; lia); apply Hz; lia.
Qed.

(** A commit of new metadata, then of more blocks and keys, then the return of a buffer. *)
Lemma touched_extent ino (s s2 : F) (m m1 m2 : smap) tr1 tr2 st l :
  quiet [ino] s s2 → (∀ k, k ≠ mkey ino → m1 !! k = m !! k) → (∀ k, (∀ e, k ≠ ekey ino e) → m2 !! k = m1 !! k) →
  stored s2 ⊆ st → kind_of m2 ino = kind_of m ino → touched ino s (set_writeBuffers l (set_root tr2 (set_stored st (set_root tr1 s2)))) m m2.
Proof.
  intros [] Hm1 Hm2 Hst Hk2. split; cbn; [|done|by rewrite <- q_stored|done..|].
  - intros k Hk He. by rewrite Hm2, Hm1.
  - intros j Hj. apply q_other. set_solver.
Qed.

(** The pieces of a write in a file that has, or gets, extents. *)
Lemma write_tail_large (s : F) m ino meta0 bs (meta : InodeMeta) buf obuf bofs offset len :
  fs_ok s m → reads s (root s) m ino meta0 bs → tree_meta m ino meta0 → in_uint64 ino → part bs buf bofs offset len →
  StSize meta = new_size bs bofs offset len → kind meta = kind meta0 → EmbeddedSize < StSize meta → prepared obuf buf bofs →
  let odata := if (blen bs <=? EmbeddedSize) && (offset =? 0) then im_Data meta0 else None in
  ∃ s' m' meta', write_tail ino meta (root s) buf odata obuf bofs offset (offset + bofs + len) s = Ok (tt, s') ∧
    fs_ok s' m' ∧ file_ok s' m' ino meta' (target bs buf bofs offset len) ∧ touched ino s s' m m'.
Proof.
  intros Hs Hrd Htm Hino Hpart Hsz Hkd Hbig Hprep odata. pose proof (blen_nonneg bs).
  set (size := new_size bs bofs offset len) in *.
  assert (0 ≤ size ≤ maxSize ∧ blen bs ≤ size ∧ offset ≤ size) as (Hszb & Hszl & Hszo).
  { destruct Hpart. subst size. unfold new_size. lia. }
  assert (blen (target bs buf bofs offset len) = size) as Hlt by (unfold target; apply blen_mk; fold size; lia).
  unfold write_tail. rewrite (proj2 (Z.leb_gt _ _) Hbig). cbn [andb].
  rewrite (FM_bind_ok _ _ s (meta, root s, obuf) s) by done. cbn beta iota.
  destruct (setTimesNow_ok true true true meta s) as (meta1 & E1 & Hup1). rewrite (FM_bind_ok _ _ _ _ _ E1).
  set (s1 := set_clock _ s). destruct (rd_cached _ _ _ _ _ _ Hrd) as (i & Hi & Hmi).
  destruct (SetMeta_ok s1 (root s) m ino i meta1) as (meta2 & meta3 & tr1 & m1 & b & s2 & E2 & Hup2 & Hsame & Ht1 & Hq & Hc & Htm1 & Hm1);
    [done|by rewrite Hmi; intros old [= <-]|apply Hs|].
  assert (quiet [ino] s s2) as Hq2 by (eapply quiet_trans; [apply quiet_clock|done]).
  rewrite (FM_bind_ok _ _ _ _ _ E2). cbn beta iota. set (s3 := set_root tr1 s2). rewrite (FM_bind_ok _ _ s2 tt s3) by done.
  pose proof (upto_times_fields _ _ (upto_times_trans _ _ _ Hup2 Hup1)) as (_ & _ & _ & Hsize2 & _).
  assert (StSize meta3 = size) as Hsz3 by (destruct Hsame as [-> _]; congruence). rewrite Hsz in Hsize2.
  assert (data_ok m1 (stored s3) ino meta3 (grown bs size)) as Hd1.
  { cbn. rewrite (q_stored _ _ _ Hq2). eapply grown_data; [apply Hrd| |done|congruence]. intros e. apply Hm1. by apply ekey_mkey. }
  assert (reads s3 tr1 m1 ino meta3 (grown bs size)) as Hrd3.
  { split; [done|done|by rewrite blen_grown; lia|by rewrite blen_grown; lia|done]. }
  destruct (write_extent s3 tr1 m1 ino meta3 meta2 (grown bs size) (target bs buf bofs offset len) buf odata obuf bofs offset (offset + bofs + len))
    as (tr2 & m2 & st' & ob' & E3 & Ht2 & Hlob & Hsub & Hh' & Hm2 & Hd2); rewrite ?Hsize2; rewrite ?blen_grown by lia; try done.
  { cbn. rewrite (q_stored _ _ _ Hq2). apply Hs. }
  { by apply part_piece. }
  { intros _. right. destruct Hpart. destruct (extent_div offset pa_offset0) as (_ & ? & _). lia. }
  { congruence. }
  { congruence. }
  { intros j Hj Ho. by apply target_out. }
  { intros j Hj. eapply target_in; [done|apply Hrd|by rewrite Hsz in Hbig|done]. }
  rewrite (FM_bind_ok _ _ s3 ob' (set_root tr2 (set_stored st' s3))).
  2:{ rewrite (FM_bind_ok _ _ s3 tr1 s3) by done. by rewrite (FM_bind_ok _ _ _ _ _ E3). }
  assert (m2 !! mkey ino = m1 !! mkey ino) as Em by (apply Hm2; intros e E; symmetry in E; by apply ekey_mkey in E).
  eexists _, m2, meta3. split_and!; [done| | |].
  - apply fs_ok_parts; cbn; [done|done|]. rewrite (q_buffers _ _ _ Hq2).
    intros x [->|Hx]%elem_of_cons; [done|]. by eapply (fs_buffers _ _ Hs).
  - split; [by apply known_cached| |congruence|lia|done].
    destruct Htm1 as (v & a & ?). exists v, a. by rewrite Em.
  - eapply touched_extent; [done..|exact Hsub|]. rewrite (tree_kind _ _ _ Htm). unfold kind_of. rewrite Em.
    fold (kind_of m1 ino). rewrite (tree_kind _ _ _ Htm1). f_equal.
    rewrite (same_kind _ _ Hsame), (upto_kind _ _ Hup2), (upto_kind _ _ Hup1). exact Hkd.
Qed.

(** The new size in the metadata, when the file grows. *)
Lemma grow_meta (s : F) ino (meta : InodeMeta) end_ tr :
  ∃ meta', (if (StSize meta <? end_)%Z
       then r ← SetMetaSizeInTransaction ino meta end_ tr; mret (r : InodeMeta * T * bool).1
       else mret (meta, tr) : FM T (InodeMeta * T)) s = Ok ((meta', tr), s) ∧ StSize meta' = Z.max (StSize meta) end_ ∧
    kind meta' = kind meta.
Proof.
  destruct (Z.ltb_spec (StSize meta) end_) as [Hlt|]; [|exists meta; split_and!; [done|lia|done]].
  unfold SetMetaSizeInTransaction. destruct (Z.eqb_spec end_ (StSize meta)); [lia|].
  destruct (Z.ltb_spec end_ (StSize meta)); [lia|]. cbn [andb]. eexists.
  rewrite (FM_bind_ok _ _ s _ s eq_refl). split; [reflexivity|]. destruct (EmbeddedSize <? end_); cbn; (split; [lia|done]).
Qed.

Lemma write_piece (s : F) m file meta bs buf off :
  fs_ok s m → file_ok s m (fh_inode file) meta bs → in_uint64 (fh_inode file) → 0 ≤ off → buf ≠ [] →
  off + blen buf ≤ maxSize → write_safe bs off →
  let w := Z.min (blen buf) (dataExtentSize - off mod dataExtentSize) in
  ∃ s' m' meta', write file buf off s = Ok (w, s') ∧ fs_ok s' m' ∧ file_ok s' m' (fh_inode file) meta' (partly bs off buf w) ∧
    touched (fh_inode file) s s' m m'.
Proof.
  intros Hs Hf Hino Hoff Hne Hmax Hsafe w. set (ino := fh_inode file) in *. pose proof Hf as [Hkn Htm Hsz Hmx Hd].
  assert (0 < blen buf) as Hpos by (destruct buf; [done|unfold blen; cbn [length]; lia]). pose proof (blen_nonneg bs).
  destruct (extent_div off Hoff) as (He & Hdiv & Hmod). set (bofs := off mod dataExtentSize) in *.
  unfold write. fold ino. rewrite (FM_bind_ok _ _ s (root s) s) by done. rewrite wrap64_small by (unfold maxSize in *; lia). fold bofs.
  destruct (Meta_known s m ino meta (fs_tree _ _ Hs) Hkn) as (s1 & E1 & Hq & Hc). rewrite (FM_bind_ok _ _ _ _ _ E1).
  pose proof (fs_ok_quiet _ _ _ _ Hs Hq) as Hs1.
  destruct (writeBuffers_Get_ok s1 m Hs1) as (obuf & l & E2 & Hlob & Hl). rewrite (FM_bind_ok _ _ _ _ _ E2). set (s2 := set_writeBuffers l s1).
  assert ((if dataExtentSize - bofs <? blen buf then dataExtentSize - bofs else blen buf) = w) as ->
    by (unfold w; destruct (Z.ltb_spec (dataExtentSize - bofs) (blen buf)); lia).
  assert ((if w <? blen buf then take (Z.to_nat w) buf else buf) = take (Z.to_nat w) buf) as ->.
  { destruct (Z.ltb_spec w (blen buf)); [done|]. symmetry. apply take_ge. unfold blen in *. lia. }
  set (buf1 := take (Z.to_nat w) buf). assert (blen buf1 = w) as Hlb by (unfold buf1; rewrite blen_take; lia).
  destruct (prepared_ok obuf buf1 bofs Hlob) as (ob1 & E3 & Hprep); [lia..|]. rewrite E3. rewrite (FM_bind_ok _ _ s2 ob1 s2) by done.
  destruct (grow_meta s2 ino meta (off + blen buf) (root s)) as (meta1 & E4 & Hsz1 & Hkd1). rewrite (FM_bind_ok _ _ _ _ _ E4). cbn beta iota.
  rewrite Hsz in Hsz1. rewrite Hsz.
  replace (off / dataExtentSize =? 0) with (off - bofs =? 0) by (unfold dataExtentSize in *; destruct (Z.eqb_spec (off - bofs) 0), (Z.eqb_spec (off / 65536) 0); lia).
  assert (fs_ok s2 m) as Hs2 by (destruct Hs1; by split).
  assert (reads s2 (root s2) m ino meta bs) as Hrd.
  { split; [apply Hs2|done|done|done|]. cbn. rewrite (q_stored _ _ _ Hq). done. }
  assert (root s = root s2) as Hroot by (cbn; by rewrite (q_root _ _ _ Hq)). rewrite Hroot.
  assert (touched ino s s2 m m) as Ht1.
  { destruct Hq. split; cbn; [done|done|by rewrite q_stored|done..|]. intros j Hj. apply q_other. set_solver. }
  assert (∃ s' m' meta', write_tail ino meta1 (root s2) buf1 (if (blen bs <=? EmbeddedSize) && (off - bofs =? 0) then im_Data meta else None)
     (put_at ob1 (1 + bofs) buf1) bofs (off - bofs) (off + blen buf) s2 = Ok (tt, s') ∧ fs_ok s' m' ∧
     file_ok s' m' ino meta' (partly bs off buf w) ∧ touched ino s2 s' m m') as (s' & m' & meta' & E5 & Hs' & Hf' & Ht').
  { unfold partly. fold buf1. destruct (Z.leb_spec (StSize meta1) EmbeddedSize) as [Hemb|Hbig].
    - rewrite (proj2 (Z.leb_le (blen bs) EmbeddedSize)) by lia. unfold EmbeddedSize, dataExtentSize in *.
      assert (off - bofs = 0) as -> by lia. cbn [andb Z.eqb]. assert (bofs = off) as -> by lia.
      assert (buf1 = buf) as -> by (apply take_ge; unfold blen in *; lia).
      by apply write_tail_embedded; try (unfold EmbeddedSize; lia).
    - assert (part bs buf1 bofs (off - bofs) (blen buf)) as Hpart.
      { assert (off - bofs + bofs = off) as Eo by lia. split; rewrite ?Eo; try lia; try done.
        - unfold dataExtentSize in *; lia.
        - replace (off - bofs) with (off / dataExtentSize * dataExtentSize) by lia. by apply Z.mod_mul. }
      pose proof (write_tail_large s2 m ino meta bs meta1 buf1 (put_at ob1 (1 + bofs) buf1) bofs (off - bofs) (blen buf) Hs2 Hrd Htm Hino Hpart) as Hw.
      unfold target, new_size in Hw. replace (off - bofs + bofs) with off in Hw by lia. by apply Hw. }
  rewrite (FM_bind_ok _ _ _ _ _ E5). exists s', m', meta'. split_and!; [done..|]. by eapply touched_trans.
Qed.

(** ** The loop of [Write] *)

(** The file after [k] bytes. *)
Definition after (bs : bytes) (off : Z) (buf : bytes) (k : Z) : bytes :=
  if k =? 0 then bs else partly bs off buf k.

Lemma blen_after bs off buf k :
  0 ≤ off → blen (after bs off buf k) = if k =? 0 then blen bs else Z.max (blen bs) (off + blen buf).
Proof.
  intros Ho. unfold after, partly. destruct (k =? 0); [done|]. apply blen_mk. pose proof (blen_nonneg bs). lia.
Qed.
Lemma byte_at_partly bs off buf k i :
  0 ≤ off → 0 ≤ k ≤ blen buf → byte_at (partly bs off buf k) i = over (byte_at bs) off (take (Z.to_nat k) buf) i.
Proof.
  intros Ho Hk. unfold partly. rewrite byte_at_mk. unfold over. rewrite blen_take by lia. pose proof (blen_nonneg bs).
  destruct (Z.leb_spec 0 i), (Z.ltb_spec i (Z.max (blen bs) (off + blen buf))), (Z.leb_spec off i), (Z.ltb_spec i (off + Z.min k (blen buf)));
    simpl; try lia; try done; symmetry; apply byte_at_out; lia.
Qed.
Lemma byte_at_after bs off buf k i :
  0 ≤ off → 0 ≤ k ≤ blen buf → byte_at (after bs off buf k) i = over (byte_at bs) off (take (Z.to_nat k) buf) i.
Proof.
  intros Ho Hk. unfold after. destruct (Z.eqb_spec k 0) as [->|]; [|by apply byte_at_partly].
  unfold over. change (blen (take (Z.to_nat 0) buf)) with 0. destruct (Z.leb_spec off i), (Z.ltb_spec i (off + 0)); simpl; try lia; done.
Qed.

Lemma after_step bs off buf k w :
  0 ≤ off → 0 ≤ k → 0 < w ≤ blen buf - k →
  partly (after bs off buf k) (off + k) (drop (Z.to_nat k) buf) w = after bs off buf (k + w).
Proof.
  intros Ho Hk Hw. pose proof (blen_nonneg bs). assert (blen (drop (Z.to_nat k) buf) = blen buf - k) as Hld by (rewrite blen_drop; lia).
  apply bytes_ext.
  - rewrite blen_after by done. unfold partly. rewrite blen_mk by (rewrite Hld; lia). rewrite Hld, blen_after by done.
    destruct (Z.eqb_spec k 0), (Z.eqb_spec (k + w) 0); lia.
  - intros i _. rewrite byte_at_partly, byte_at_after by (rewrite ?Hld; lia). unfold over.
    rewrite byte_at_after, !blen_take, Hld by lia. unfold over. rewrite blen_take by lia. rewrite !byte_at_take, byte_at_drop by lia.
    destruct (Z.leb_spec (off + k) i), (Z.ltb_spec i (off + k + Z.min w (blen buf - k))), (Z.leb_spec off i),
      (Z.ltb_spec i (off + Z.min k (blen buf))), (Z.ltb_spec i (off + Z.min (k + w) (blen buf))); simpl; try lia; try done.
    + destruct (Z.ltb_spec (i - (off + k)) w), (Z.ltb_spec (i - (off + k)) 0), (Z.ltb_spec (i - off) (k + w)); try lia. f_equal. lia.
    + destruct (Z.ltb_spec (i - off) k), (Z.ltb_spec (i - off) (k + w)); try lia. done.
Qed.

Lemma after_splice bs off buf : 0 ≤ off → after bs off buf (blen buf) = splice bs off buf.
Proof.
  intros Ho. pose proof (blen_nonneg buf). apply bytes_ext.
  - rewrite blen_after, blen_splice by done. destruct (decide (buf = [])) as [->|Hne]; [done|].
    destruct buf; [done|]. destruct (Z.eqb_spec (blen (a :: buf)) 0) as [E|]; [unfold blen in E; cbn [length] in E; lia|done].
  - intros i _. rewrite byte_at_after, byte_at_splice by lia. unfold blen at 1. by rewrite Nat2Z.id, firstn_all.
Qed.

Lemma Write_loop_ok fuel (s : F) m file meta bs buf off k :
  fs_ok s m → file_ok s m (fh_inode file) meta (after bs off buf k) → in_uint64 (fh_inode file) → 0 ≤ off →
  off + blen buf ≤ maxSize → blen buf < 2 ^ 32 → write_safe bs off → 0 ≤ k ≤ blen buf → blen buf - k < Z.of_nat fuel →
  (k = 0 ∨ k = blen buf ∨ (off + k) mod dataExtentSize = 0) →
  ∃ s' m' meta', Write_loop fuel file buf off k s = Ok ((blen buf, OK), s') ∧ fs_ok s' m' ∧
    file_ok s' m' (fh_inode file) meta' (splice bs off buf) ∧ touched (fh_inode file) s s' m m'.
Proof.
  revert s m meta k. induction fuel as [|fuel IH]; intros s m meta k Hs Hf Hino Ho Hmax H32 Hsafe Hk Hfuel Hal; [lia|].
  cbn [Write_loop]. destruct (Z.ltb_spec k (blen buf)) as [Hlt|Hge].
  2:{ exists s, m, meta. assert (k = blen buf) as -> by lia. rewrite after_splice in Hf by done. split_and!; [done..|apply touched_refl]. }
  rewrite slice_from_Z by lia. set (tl := drop (Z.to_nat k) buf). rewrite (FM_bind_ok _ _ s tl s) by done.
  assert (blen tl = blen buf - k) as Hlt1 by (unfold tl; rewrite blen_drop; lia).
  rewrite wrap64_small by (unfold maxSize in *; lia). destruct (extent_div (off + k)) as (He & Hdiv & Hmod); [lia|].
  destruct (write_piece s m file meta (after bs off buf k) tl (off + k)) as (s1 & m1 & meta1 & E1 & Hs1 & Hf1 & Ht1); try done; try lia.
  { intros E. rewrite E in Hlt1. change (blen []) with 0 in Hlt1. lia. }
  { destruct (Z.eq_dec k 0) as [->|Hnz]; [by rewrite Z.add_0_r|]. right. left. rewrite blen_after by done.
    destruct (Z.eqb_spec k 0); [done|]. destruct Hal as [|[|Hal]]; [done|lia|]. unfold EmbeddedSize, dataExtentSize in *. lia. }
  rewrite (FM_bind_ok _ _ _ _ _ E1). set (w := Z.min (blen tl) _) in *.
  unfold tl in Hf1. rewrite after_step in Hf1 by lia.
  replace (wrapu32 (k + w)) with (k + w) by (symmetry; apply Z.mod_small; lia).
  destruct (IH s1 m1 meta1 (k + w)) as (s' & m' & meta' & E & Hs' & Hf' & Ht'); try done; try lia.
  { destruct (Z.eq_dec (k + w) (blen buf)); [by right; left|]. right. right.
    replace (off + (k + w)) with (((off + k) / dataExtentSize + 1) * dataExtentSize) by lia. by apply Z.mod_mul. }
  exists s', m', meta'. split_and!; [done..|]. by eapply touched_trans.
Qed.

Lemma Write_file (s : F) m file meta bs buf off :
  fs_ok s m → file_ok s m (fh_inode file) meta bs → in_uint64 (fh_inode file) → 0 ≤ off → off + blen buf ≤ maxSize → blen buf < 2 ^ 32 →
  write_safe bs off →
  ∃ s' m' meta', Write file buf off s = Ok ((blen buf, OK), s') ∧ fs_ok s' m' ∧
    file_ok s' m' (fh_inode file) meta' (splice bs off buf) ∧ touched (fh_inode file) s s' m m'.
Proof.
  intros Hs Hf Hino Ho Hmax H32 Hsafe. pose proof (blen_nonneg buf).
  apply (Write_loop_ok (S (length buf)) s m file meta bs buf off 0); try done; [unfold blen; lia|by left].
Qed.
End write.
