(* ===== verification/FsOps.v ===== *)
(** * The operations of the file system (src/fs/ops.go, fs.go)

    What the kernel calls.  Deferred calls run in reverse order before each return.  Out
    parameters are results. *)
From stdpp Require Import base list sets strings sorting gmap.
From Stdlib Require Import ZArith Lia Ascii.
From S2P Require Import Prelude OrderedMap Util BlockKey TreeBackend TreeStore FsState Inode FileIO.

Definition useKernelPermissions : bool := true.

Record Context_ : Type := mkContext { Uid : Z; Gid : Z }.
(** [InHeader]: the inode the call is about and who calls. *)
Record InHeader : Type := mkInHeader { NodeId : Z; ctx : Context_ }.

Definition R_OK : Z := 4.
Definition W_OK : Z := 2.
Definition X_OK : Z := 1.
Definition O_WRONLY : Z := 1.
Definition O_RDWR : Z := 2.
Definition O_EXCL : Z := 128.
Definition O_TRUNC : Z := 512.
Definition O_APPEND : Z := 1024.
(** [O_ANYWRITE] of [fuse]: os.O_WRONLY | os.O_RDWR | os.O_APPEND | os.O_CREATE | os.O_TRUNC. *)
Definition O_ANYWRITE : Z := 1 + 2 + 1024 + 64 + 512.
Definition S_ISUID : Z := 2048.
Definition S_ISGID : Z := 1024.
Definition S_ISVTX : Z := 512.

Definition FATTR_MODE : Z := 1.
Definition FATTR_UID : Z := 2.
Definition FATTR_GID : Z := 4.
Definition FATTR_SIZE : Z := 8.
Definition FATTR_ATIME : Z := 16.
Definition FATTR_MTIME : Z := 32.
Definition FATTR_ATIME_NOW : Z := 128.
Definition FATTR_MTIME_NOW : Z := 256.
Definition FATTR_CTIME : Z := 1024.

Record SetAttrIn : Type := mkSetAttrIn {
  sa_NodeId : Z; sa_ctx : Context_; Valid : Z;
  sa_Size : Z; sa_Mode : Z; sa_Uid : Z; sa_Gid : Z;
  sa_Atime : Z; sa_Mtime : Z; sa_Ctime : Z   (* in nanoseconds *)
}.

Definition has (flags f : Z) : bool := negb (Z.land flags f =? 0)%Z.
(** [x & ^y]. *)
Definition clear (x y : Z) : Z := Z.land x (4294967295 - y).

Section code.
Context {T : Type} `{FsEnv} `{TxStore T} `{!TxRange T}.
Abbreviation M := (FM T).

(** A call followed by the deferred ones. *)
Definition defer {A : Type} (m : M A) (d : M unit) : M A := a ← m; _ ← d; mret a.

Definition access (i : option Z) (mode : Z) (orOwn : bool) (c : Context_) : M Status :=
  match i with
  | None => mret ENOENT
  | Some i =>
      m ← Meta i;
      match (m : option InodeMeta) with
      | None => mret ENOENT
      | Some meta =>
          if useKernelPermissions then mret OK
          else if (Uid c =? 0)%Z then mret OK
          else if (Uid c =? StUid meta)%Z && orOwn then mret OK
          else
            let perms := if (Uid c =? StUid meta)%Z then Z.land (Z.shiftr (StMode meta) 6) 7
                         else if (Gid c =? StGid meta)%Z then Z.land (Z.shiftr (StMode meta) 3) 7
                         else Z.land (StMode meta) 7 in
            mret (if (Z.land perms mode =? mode)%Z then OK else EACCES)
      end
  end.

Definition lookup_ (parent : option Z) (name : string) (c : Context_) : M (option Z * Status) :=
  match parent with
  | None => mret (None, ENOENT)
  | Some p =>
      code ← access (Some p) X_OK false c;
      if negb (is_OK code) then mret (None, code)
      else
        d ← inode_IsDir p;
        if negb (d : bool) then mret (None, ENOTDIR)
        else if keqb name "." then mret (Some p, OK)
        else
          child ← GetChildByName p name;
          match (child : option Z) with
          | None => mret (None, ENOENT)
          | Some ch => mret (Some ch, OK)
          end
  end.

Definition Lookup (input : InHeader) (name : string) : M (option EntryOut * Status) :=
  parent ← GetInode (NodeId input);
  match (parent : option Z) with
  | None => mret (None, ENOENT)
  | Some p =>
      r ← lookup_ (Some p) name (ctx input);
      let '(child, code) := (r : option Z * Status) in
      out ← (if is_OK code then ch ← fnonnil child; FillEntryOut ch true else mret (None, code));
      _ ← Release child;
      _ ← Release (Some p);
      mret (out : option EntryOut * Status)
  end.

Definition ops_Forget (nodeID nlookup : Z) : M unit :=
  i ← GetInode nodeID; Forget i nlookup.

Definition GetAttr (nodeId : Z) : M (option (Z * Attr) * Status) :=
  i ← GetInode nodeId;
  match (i : option Z) with
  | None => mret (None, ENOENT)
  | Some i =>
      r ← FillAttrOut i;
      _ ← Release (Some i);
      mret (Some (r : Z * Attr * Status).1, (r : Z * Attr * Status).2)
  end.

(** The new metadata of [SetAttr], or the refusal. *)
Definition SetAttr_meta (input : SetAttrIn) (meta : InodeMeta) : M (InodeMetaData * Status) :=
  let root := (Uid (sa_ctx input) =? 0)%Z in
  let uid := Uid (sa_ctx input) in
  let ownGid (g : Z) := (g =? Gid (sa_ctx input))%Z in
  let V f := has (Valid input) f in
  newmeta ← (if has (Valid input) (FATTR_ATIME + FATTR_MTIME + FATTR_ATIME_NOW + FATTR_MTIME_NOW + FATTR_CTIME) then
      now ← Now;
      let atime := if V FATTR_ATIME then Some (if V FATTR_ATIME_NOW then now else sa_Atime input) else None in
      let mtime := if V FATTR_MTIME then Some (if V FATTR_MTIME_NOW then now else sa_Mtime input) else None in
      let ctime := if V FATTR_CTIME then Some (sa_Ctime input) else None in
      mret (setTimeValues atime ctime mtime (im_data meta))
    else mret (im_data meta));
  let newmeta : InodeMetaData := newmeta in
  let setuid := V FATTR_UID && negb (sa_Uid input =? 4294967295)%Z in
  let newmeta := if setuid then set_StUid (sa_Uid input) newmeta else newmeta in
  if setuid && negb (root || (sa_Uid input =? StUid meta)%Z) && negb useKernelPermissions then mret (newmeta, EPERM)
  else
    let mode_filter := if setuid then Z.lor S_ISUID S_ISGID else 0%Z in
    let setgid := V FATTR_GID && negb (sa_Gid input =? 4294967295)%Z in
    let newmeta := if setgid then set_StGid (sa_Gid input) newmeta else newmeta in
    if setgid && negb (root || ((uid =? StUid meta)%Z && ownGid (sa_Gid input))) && negb useKernelPermissions then mret (newmeta, EPERM)
    else
      let mode_filter := if setgid then Z.lor mode_filter (Z.lor S_ISUID S_ISGID) else mode_filter in
      let newmeta := if V FATTR_SIZE then set_StSize (sa_Size input) newmeta else newmeta in
      let oldmode := StMode meta in
      let mode_filter := if V FATTR_MODE && negb root && negb (ownGid (StGid meta))
                         then Z.lor mode_filter S_ISGID else mode_filter in
      let mode := if V FATTR_MODE then clear (sa_Mode input) mode_filter else oldmode in
      if V FATTR_MODE && negb root && negb (StUid meta =? uid)%Z && negb (mode =? oldmode)%Z && negb useKernelPermissions
      then mret (newmeta, EPERM)
      else mret (set_StMode (clear mode mode_filter) newmeta, OK).

Definition SetAttr (input : SetAttrIn) : M (option (Z * Attr) * Status) :=
  i ← GetInode (sa_NodeId input);
  match (i : option Z) with
  | None => mret (None, ENOENT)
  | Some i =>
      code ← Update (λ tr,
        m ← Meta i;
        meta ← fnonnil m;
        r ← SetAttr_meta input meta;
        let '(newmeta, code) := (r : InodeMetaData * Status) in
        if negb (is_OK code) then mret (tr, code)
        else if bool_decide (newmeta = im_data meta) then mret (tr, OK)
        else
          let isTruncate := has (Valid input) FATTR_SIZE in
          code ← (if negb useKernelPermissions then
                    c ← access (Some i) W_OK (negb isTruncate) (sa_ctx input);
                    mret (if is_OK c then OK else if isTruncate then EACCES else EPERM)
                  else mret OK);
          if negb (is_OK code) then mret (tr, code)
          else
            x ← (if isTruncate
                 then r ← SetMetaSizeInTransaction i meta (sa_Size input) tr; mret (r : InodeMeta * T * bool).1
                 else mret (meta, tr) : M (InodeMeta * T));
            let '(meta, tr) := (x : InodeMeta * T) in
            nm ← SetCTimeNow (mkIM newmeta (im_Data meta));
            r ← SetMetaInTransaction i nm tr;
            mret ((r : InodeMeta * T * bool).1.2, OK));
      out ← (if is_OK code then r ← FillAttrOut i; mret (Some (r : Z * Attr * Status).1, (r : Z * Attr * Status).2)
             else mret (None, code) : M (option (Z * Attr) * Status));
      _ ← Release (Some i);
      mret out
  end.

(** [Release] and [ReleaseDir]; an unknown file is a nil dereference. *)
Definition ops_Release (fhn : Z) : M unit :=
  f ← GetFileByFh fhn; file ← fnonnil f; RemoveFile file.

Definition OpenDir (input : InHeader) : M (Z * Status) :=
  i ← GetInode (NodeId input);
  code ← access i (Z.lor R_OK X_OK) false (ctx input);
  r ← (if negb (is_OK code) then mret (0%Z, code)
       else
         ino ← fnonnil i;
         m ← Meta ino;
         meta ← fnonnil m;
         _ ← SetATimeNow meta;
         f ← GetFile ino 0;
         mret (fh (f : inodeFH), OK) : M (Z * Status));
  _ ← Release i;
  mret r.

Definition Open (input : InHeader) (oflags : Z) : M (Z * Status) :=
  i ← GetInode (NodeId input);
  (* the lock of a nil inode *)
  ino ← fnonnil i;
  let mode := if (Z.land oflags O_WRONLY =? O_WRONLY)%Z then W_OK
              else if has oflags O_ANYWRITE then Z.lor R_OK W_OK else R_OK in
  code ← access i mode false (ctx input);
  r ← (if negb (is_OK code) then mret (0%Z, code)
       else
         _ ← Update (λ tr,
           m ← Meta ino;
           meta ← fnonnil m;
           meta ← (if has mode W_OK then SetMTimeNow meta else mret meta);
           x ← (if has oflags O_TRUNC
                then r ← SetMetaSizeInTransaction ino meta 0 tr; mret (r : InodeMeta * T * bool).1
                else mret (meta, tr) : M (InodeMeta * T));
           r ← SetMetaInTransaction ino (x : InodeMeta * T).1 (x : InodeMeta * T).2;
           mret ((r : InodeMeta * T * bool).1.2, tt));
         f ← GetFile ino oflags;
         mret (fh (f : inodeFH), OK) : M (Z * Status));
  _ ← Release i;
  mret r.

Definition Readlink (input : InHeader) : M (option bytes * Status) :=
  i ← GetInode (NodeId input);
  code ← access i R_OK false (ctx input);
  r ← (if negb (is_OK code) then mret (None, code)
       else
         ino ← fnonnil i;
         m ← Meta ino;
         match (m : option InodeMeta) with
         | None => mret (None, ENOENT)
         | Some meta =>
             if (Z.land (StMode meta) S_IFLNK =? 0)%Z then mret (None, EINVAL)
             else mret (im_Data meta, OK)
         end : M (option bytes * Status));
  _ ← Release i;
  mret r.

Definition stickyMutateCheck (i child : Z) (c : Context_) : M Status :=
  m ← Meta i;
  match (m : option InodeMeta) with
  | None => mret ENOENT
  | Some meta =>
      if (Z.land (StMode meta) S_ISVTX =? 0)%Z || useKernelPermissions then mret OK
      else if (Uid c =? 0)%Z || (Uid c =? StUid meta)%Z then mret OK
      else
        cm ← Meta child;
        match (cm : option InodeMeta) with
        | None => mret ENOENT
        | Some cmeta => mret (if (Uid c =? StUid cmeta)%Z then OK else EPERM)
        end
  end.

(** [isdir] is a pointer that may be nil. *)
Definition unlinkInodeInInode (i child : Z) (name : string) (isdir : option bool) (c : Context_) : M Status :=
  code ← stickyMutateCheck i child c;
  if negb (is_OK code) then mret code
  else
    code ← access (Some i) (Z.lor W_OK X_OK) false c;
    if negb (is_OK code) then mret code
    else
      m ← Meta child;
      match (m : option InodeMeta) with
      | None => mret ENOENT
      | Some _ =>
          full ← (match isdir with
                  | Some true => HasSubTypeKey child BST_DIR_NAME2INODE
                  | _ => mret false
                  end);
          if (full : bool) then mret ENOTEMPTY
          else
            d ← inode_IsDir child;
            if match isdir with Some b => negb (Bool.eqb b d) && negb useKernelPermissions | None => false end
            then mret EPERM
            else _ ← RemoveChild i child name; mret OK
      end.

(** Taking the metadata lock of an inode: the locks are not recursive, so with the lock in hand
    already the call does not return. *)
Definition lock_of {A : Type} (i : Z) (held : list Z) (m : M A) : M A :=
  if bool_decide (i ∈ held) then fstuck else m.

Definition unlinkInInode (i : Z) (name : string) (isdir : option bool) (c : Context_) : M Status :=
  r ← lookup_ (Some i) name c;
  let '(child, code) := (r : option Z * Status) in
  code ← (if negb (is_OK code) then mret code
          else
            ch ← fnonnil child;
            lock_of ch [i] (unlinkInodeInInode i ch name isdir c));
  _ ← Release child;
  mret code.

(** The lock of a nil inode is a nil dereference. *)
Definition unlink (input : InHeader) (name : string) (isdir : option bool) : M Status :=
  i ← GetInode (NodeId input);
  ino ← fnonnil i;
  code ← unlinkInInode ino name isdir (ctx input);
  _ ← Release i;
  mret code.

Definition Unlink (input : InHeader) (name : string) : M Status :=
  unlink input name (if (Uid (ctx input) =? 0)%Z then None else Some false).

Definition Rmdir (input : InHeader) (name : string) : M Status :=
  if keqb name ".." then mret ENOTEMPTY else unlink input name (Some true).

(** [create]: the child that had the name, if any, is removed when that is allowed.  [fuel] bounds
    the search for an inode number. *)
Definition create (fuel : nat) (input : InHeader) (name : string) (meta : InodeMeta) (allowReplace : bool)
  : M (option Z * Status) :=
  i ← GetInode (NodeId input);
  code ← access i (Z.lor W_OK X_OK) false (ctx input);
  r ← (if negb (is_OK code) then mret (None, code)
       else
         ino ← fnonnil i;
         old ← GetChildByName ino name;
         code ← (match (old : option Z) with
                 | None => mret OK
                 | Some _ => if negb allowReplace then mret EEXIST
                             else unlinkInInode ino name (Some false) (ctx input)
                 end);
         r ← (if negb (is_OK code) then mret (old, code)
              else
                child ← CreateInode fuel;
                _ ← Update (λ tr, r ← SetMetaInTransaction child meta tr; mret ((r : InodeMeta * T * bool).1.2, tt));
                _ ← AddChild ino name child;
                mret (Some child, OK) : M (option Z * Status));
         _ ← Release old;
         mret r : M (option Z * Status));
  _ ← Release i;
  mret r.

(** The common end of the calls that create an inode. *)
Definition entry_of (r : option Z * Status) : M (option EntryOut * Status) :=
  let '(child, code) := (r : option Z * Status) in
  if negb (is_OK code) then mret (None, code)
  else
    ch ← fnonnil child;
    out ← FillEntryOut ch true;
    _ ← Release (Some ch);
    mret ((out : option EntryOut * Status).1, OK).

Definition Mkdir (fuel : nat) (input : InHeader) (mode umask : Z) (name : string) : M (option EntryOut * Status) :=
  let meta := on_imd (SetMkdirIn (Uid (ctx input)) (Gid (ctx input)) mode umask) InodeMeta0 in
  r ← create fuel input name meta false; entry_of r.

Definition Mknod (fuel : nat) (input : InHeader) (mode rdev : Z) (name : string) : M (option EntryOut * Status) :=
  let meta := on_imd (SetMknodIn (Uid (ctx input)) (Gid (ctx input)) mode rdev) InodeMeta0 in
  r ← create fuel input name meta false; entry_of r.

Definition Symlink (fuel : nat) (input : InHeader) (pointedTo : bytes) (linkName : string) : M (option EntryOut * Status) :=
  let meta := mkIM (mkIMD (Z.lor S_IFLNK 511) 0 (Uid (ctx input)) (Gid (ctx input)) 0 0 0 (blen pointedTo) 0 0) (Some pointedTo) in
  r ← create fuel input linkName meta false; entry_of r.

Definition Create (fuel : nat) (input : InHeader) (oflags mode : Z) (name : string) : M (option (EntryOut * Z) * Status) :=
  let meta := on_imd (SetCreateIn (Uid (ctx input)) (Gid (ctx input)) mode) InodeMeta0 in
  r ← create fuel input name meta (Z.land oflags O_EXCL =? 0)%Z;
  let '(child, code) := (r : option Z * Status) in
  if negb (is_OK code) then mret (None, code)
  else
    ch ← fnonnil child;
    o ← Open (mkInHeader ch (ctx input)) oflags;
    let '(fhn, code) := (o : Z * Status) in
    r ← (if negb (is_OK code) then mret (None, code)
         else
           out ← FillEntryOut ch true;
           eo ← fnonnil (out : option EntryOut * Status).1;
           mret (Some ((eo : EntryOut), fhn), OK) : M (option (EntryOut * Z) * Status));
    _ ← Release (Some ch);
    mret r.

(** [held] are the inodes whose locks the caller has. *)
Definition linkInInode (held : list Z) (i child : Z) (name : string) (override : bool) (c : Context_) : M Status :=
  code ← access (Some i) (Z.lor W_OK X_OK) true c;
  if negb (is_OK code) then mret code
  else
    r ← lookup_ (Some i) name c;
    let '(echild, code) := (r : option Z * Status) in
    if is_OK code then
      ech ← fnonnil echild;
      code ← (if negb override then mret EEXIST
              else
                id ← inode_IsDir ech;
                lock_of ech held (
                  code ← unlinkInodeInInode i ech name (Some id) c;
                  if negb (is_OK code) then mret code
                  else _ ← AddChild i name child; mret OK));
      _ ← Release (Some ech);
      mret code
    else _ ← AddChild i name child; mret OK.

Definition Link (input : InHeader) (oldnodeid : Z) (name : string) : M (option EntryOut * Status) :=
  i ← GetInode (NodeId input);
  match (i : option Z) with
  | None => mret (None, ENOENT)
  | Some ino =>
      child ← GetInode oldnodeid;
      match (child : option Z) with
      | None => _ ← Release (Some ino); mret (None, ENOENT)
      | Some ch =>
          code ← lock_of ch [ino] (linkInInode [ino; ch] ino ch name false (ctx input));
          out ← (if is_OK code then r ← FillEntryOut ch true; mret ((r : option EntryOut * Status).1, OK)
                 else mret (None, code) : M (option EntryOut * Status));
          _ ← Release (Some ch);
          _ ← Release (Some ino);
          mret out
      end
  end.

(** [Rename]: the new link, then the old one goes. *)
Definition Rename (input : InHeader) (newdir : Z) (oldName newName : string) : M Status :=
  if (NodeId input =? newdir)%Z && keqb oldName newName then mret OK
  else
    i ← GetInode (NodeId input);
    code ← access i (Z.lor W_OK X_OK) true (ctx input);
    code ← (if negb (is_OK code) then mret code
      else
        ino ← fnonnil i;
        r ← lookup_ i oldName (ctx input);
        let '(child, code) := (r : option Z * Status) in
        code ← (if negb (is_OK code) then mret code
          else
            ch ← fnonnil child;
            code ← stickyMutateCheck ino ch (ctx input);
            if negb (is_OK code) then mret code
            else
              ni ← GetInode newdir;
              code ← access ni (Z.lor W_OK X_OK) true (ctx input);
              code ← (if negb (is_OK code) then mret code
                else
                  nino ← fnonnil ni;
                  code ← stickyMutateCheck nino ch (ctx input);
                  if negb (is_OK code) then mret code
                  else
                    lock_of ch [ino; nino] (
                      code ← linkInInode [ino; nino; ch] nino ch newName true (ctx input);
                      if negb (is_OK code) then mret code
                      else
                        code ← unlinkInodeInInode ino ch oldName None (ctx input);
                        if negb (is_OK code)
                        then _ ← unlinkInodeInInode nino ch newName None (ctx input); mret code
                        else mret code));
              _ ← Release ni;
              mret code);
        _ ← Release child;
        mret code);
    _ ← Release i;
    mret code.

(** ** Extended attributes *)

Definition GetXAttrData (input : InHeader) (attr : string) : M (option string * Status) :=
  i ← GetInode (NodeId input);
  code ← access i R_OK false (ctx input);
  r ← (if negb (is_OK code) then mret (None, code)
       else ino ← fnonnil i; GetXAttr ino attr : M (option string * Status));
  _ ← Release i;
  mret r.
Definition GetXAttrSize (input : InHeader) (attr : string) : M (Z * Status) :=
  r ← GetXAttrData input attr;
  let '(b, code) := (r : option string * Status) in
  mret (if is_OK code then Z.of_nat (String.length (default "" b)) else 0%Z, code).
Definition ops_SetXAttr (input : InHeader) (attr data : string) : M Status :=
  i ← GetInode (NodeId input);
  code ← access i W_OK true (ctx input);
  code ← (if negb (is_OK code) then mret code else ino ← fnonnil i; SetXAttr ino attr data);
  _ ← Release i;
  mret code.
Definition ops_RemoveXAttr (input : InHeader) (attr : string) : M Status :=
  i ← GetInode (NodeId input);
  code ← access i W_OK true (ctx input);
  code ← (if negb (is_OK code) then mret code else ino ← fnonnil i; RemoveXAttr ino attr);
  _ ← Release i;
  mret code.
(** The names, each with a zero byte behind it. *)
Definition ListXAttr (fuel : nat) (input : InHeader) : M (string * Status) :=
  i ← GetInode (NodeId input);
  ino ← fnonnil i;
  code ← access i R_OK false (ctx input);
  r ← (if negb (is_OK code) then mret ("", code)
       else
         b ← IterateSubTypeKeys fuel ino BST_XATTR
               (λ key b, d ← flift (SubTypeData key); mret (b +:+ d +:+ String zero "", true)) "";
         mret (b, OK) : M (string * Status));
  _ ← Release i;
  mret r.

(** ** Data and directories *)

Definition ops_Access (input : InHeader) (mask : Z) : M Status :=
  if useKernelPermissions then mret ENOSYS
  else i ← GetInode (NodeId input); code ← access i mask false (ctx input); _ ← Release i; mret code.

Definition ops_Read (fhn : Z) (buf : bytes) (offset : Z) : M (bytes * Status) :=
  f ← GetFileByFh fhn; file ← fnonnil f; Read file buf offset.
Definition ops_Write (fhn : Z) (data : bytes) (offset : Z) : M (Z * Status) :=
  f ← GetFileByFh fhn; file ← fnonnil f; Write file data offset.

Context {L : Type} `{!DirEntryList L}.
(** [for dir.ReadDirEntry(l) {}]; [fuel] bounds the entries. *)
Fixpoint ReadDir_loop (fuel : nat) (file : inodeFH) (l : L) : M L :=
  match fuel with
  | O => fstuck
  | S fuel' =>
      r ← ReadDirEntry fuel file l;
      let '(file, l, more) := (r : inodeFH * L * bool) in
      if (more : bool) then ReadDir_loop fuel' file l else mret l
  end.
Definition ReadDir (fuel : nat) (fhn offset : Z) (l : L) : M L :=
  f ← GetFileByFh fhn; file ← fnonnil f; file ← SetPos file offset; ReadDir_loop fuel file l.
Fixpoint ReadDirPlus_loop (fuel : nat) (file : inodeFH) (l : L) : M L :=
  match fuel with
  | O => fstuck
  | S fuel' =>
      r ← ReadDirPlus fuel file l;
      let '(file, l, more) := (r : inodeFH * L * bool) in
      if (more : bool) then ReadDirPlus_loop fuel' file l else mret l
  end.
Definition ops_ReadDirPlus (fuel : nat) (fhn offset : Z) (l : L) : M L :=
  f ← GetFileByFh fhn; file ← fnonnil f; file ← SetPos file offset; ReadDirPlus_loop fuel file l.
End code.

(** [NewFs] on a storage without the root name: the root directory is made. *)
Section new.
Context {T : Type} `{FsEnv} `{TxStore T} `{!TxRange T}.
Definition NewFs_init : FM T unit :=
  root ← getInode FUSE_ROOT_ID;
  let meta := mkIM (set_StNlink 1 (set_StMode (Z.lor 511 S_IFDIR) InodeMetaData0)) None in
  Update (λ tr, r ← SetMetaInTransaction root meta tr; mret ((r : InodeMeta * T * bool).1.2, tt)).
Definition Fs0 (t : T) : Fs T := mkFs t ∅ ∅ ∅ ∅ 1 [] [] 0 0.
End new.
