(* ===== verification/FileProps.v ===== *)
(** * Reading and writing files: the theorems

    The two halves of the contract of an open file, and that they fit: what is written is read
    back.  The concrete runs use ordered lists as trees and an environment of their own. *)
From stdpp Require Import base list sets strings sorting gmap countable.
From Stdlib Require Import ZArith Lia Ascii.
From S2P Require Import Prelude OrderedMap Util BlockKey TreeBackend TreeStore FsState Inode FileIO FileRep FileRead FileWrite FsOps.

Open Scope Z_scope.

Section props.
Context {T : Type} `{FsEnvOk} `{TxStoreOk T} `{!TxRange T}.

(** C2: [Write] returns the number of bytes given to it and leaves the file with these bytes at
    the offset, the old bytes elsewhere and zeros in a gap, whatever the spare buffers held; every
    other file keeps its metadata and content.  The buffer is shorter than 2^32 bytes, as the count of
    written bytes is a uint32.  Left out is the write that the code gets wrong: one past the first
    extent of a small file that is not all zeros. *)
Theorem Write_refines (s : Fs T) m file meta bs buf off :
  fs_ok s m → file_ok s m (fh_inode file) meta bs → in_uint64 (fh_inode file) → 0 ≤ off → off + blen buf ≤ maxSize → blen buf < 2 ^ 32 →
  write_safe bs off →
  ∃ s' m' meta', Write file buf off s = Ok ((blen buf, OK), s') ∧ fs_ok s' m' ∧
    file_ok s' m' (fh_inode file) meta' (splice bs off buf) ∧
    ∀ ino' meta1 bs1, in_uint64 ino' → ino' ≠ fh_inode file → file_ok s m ino' meta1 bs1 → file_ok s' m' ino' meta1 bs1.
Proof.
  intros Hs Hf Hino Ho Hmax H32 Hsafe. destruct (Write_file s m file meta bs buf off) as (s' & m' & meta' & E & Hs' & Hf' & Ht); [done..|].
  exists s', m', meta'. split_and!; [done..|]. intros ino' meta1 bs1 Hi Hne Hf1. by eapply touched_file.
Qed.

(** C3: [Read] returns the bytes of the file from the offset on, as many as fit in the buffer and
    no more than there are, and changes neither the files nor the tree; the offset must not lie in
    an extent that starts past the end of a file that has extents. *)
Theorem Read_refines (s : Fs T) m file meta bs buf off :
  fs_ok s m → file_ok s m (fh_inode file) meta bs → 0 ≤ off → off + blen buf < 2 ^ 63 → readable (blen bs) off →
  ∃ s', Read file buf off s = Ok ((read_spec bs off (length buf), OK), s') ∧ fs_ok s' m ∧ file_ok s' m (fh_inode file) meta bs.
Proof. intros. destruct (Read_file s m file meta bs buf off) as (s' & ? & ? & ? & _); [done..|]. by exists s'. Qed.

(** C10: what was written is read back: after a write of [data], shorter than 2^32 bytes, at [off], a
    read of as many bytes at [off] returns [data]. *)
Theorem Write_then_Read (s : Fs T) m file meta bs data buf off :
  fs_ok s m → file_ok s m (fh_inode file) meta bs → in_uint64 (fh_inode file) → 0 ≤ off → off + blen data ≤ maxSize → blen data < 2 ^ 32 →
  write_safe bs off →
  length buf = length data → data ≠ [] →
  ∃ s1 s2, Write file data off s = Ok ((blen data, OK), s1) ∧ Read file buf off s1 = Ok ((data, OK), s2).
Proof.
  intros Hs Hf Hino Ho Hmax H32 Hsafe Hlen Hne.
  destruct (Write_file s m file meta bs data off) as (s1 & m1 & meta1 & E & Hs1 & Hf1 & _); [done..|].
  assert (blen buf = blen data) as Hb by (unfold blen; by rewrite Hlen). pose proof (blen_nonneg bs).
  destruct (extent_div off Ho) as (_ & Hdiv & ?).
  destruct (Read_file s1 m1 file meta1 (splice bs off data) buf off Hs1 Hf1 Ho) as (s2 & E2 & _).
  { rewrite Hb. unfold maxSize in *. lia. }
  { right. rewrite blen_splice, decide_False by done. pose proof (blen_nonneg data). lia. }
  exists s1, s2. split; [done|]. rewrite E2. do 3 f_equal. unfold read_spec. rewrite Hlen.
  replace (length data) with (Z.to_nat (blen data)) by (unfold blen; lia). pose proof (blen_nonneg data). apply bytes_ext.
  - rewrite blen_take, blen_drop, blen_splice, decide_False by (done || lia). lia.
  - intros i Hi. rewrite blen_take in Hi by lia. rewrite byte_at_take, byte_at_drop, byte_at_splice by lia. unfold over.
    destruct (Z.ltb_spec i (blen data)), (Z.ltb_spec i 0), (Z.leb_spec off (off + i)), (Z.ltb_spec (off + i) (off + blen data)); try lia.
    simpl. f_equal. lia.
Qed.
End props.

(** ** An environment to run in *)
Module FsDemo.

Definition tuple (m : InodeMeta) : Z * Z * Z * Z * Z * Z * Z * Z * Z * Z * option (list ascii) :=
  (StMode m, StRdev m, StUid m, StGid m, StAtimeNs m, StCtimeNs m, StMtimeNs m, StSize m, StNlink m, ParentIno m, im_Data m).
Definition untuple (x : Z * Z * Z * Z * Z * Z * Z * Z * Z * Z * option (list ascii)) : InodeMeta :=
  let '(a, b, c, d, e, f, g, h, i, j, k) := x in mkIM (mkIMD a b c d e f g h i j) k.

#[global] Instance env : FsEnv := {
  MarshalMsg := λ m, pos_string (encode (tuple m));
  UnmarshalMsg := λ s, p ← string_pos s; untuple <$> decode p;
  Sum256 := λ b, b;
  time_Now := λ n, 1 + Z.of_nat n;
  CreateInodeNumber := λ n, 2 + Z.of_nat n
}.
#[global] Instance env_ok : FsEnvOk.
Proof.
  split.
  - intros m. exists (im_Data m). cbn. rewrite string_pos_string. cbn. rewrite decode_encode. split; [|done].
    destruct m as [[] ?]. reflexivity.
  - by intros x y E.
  - intros n. cbn. lia.
Qed.

Abbreviation F := (Fs (list kv)).

(** A state with one file, its metadata cached and its data embedded. *)
Definition ino : Z := 5.
Definition file : inodeFH := mkFH ino 2 0 0 None 0.
Definition meta_of (data : bytes) (size : Z) : InodeMeta := mkIM (mkIMD S_IFREG 0 0 0 1 1 1 size 1 0) (Some data).
Definition fs_of (meta : InodeMeta) (bufs : list bytes) : F :=
  mkFs [(mkey ino, MarshalMsg meta)] ∅ {[ino := mkInode 1 false (Some meta)]} {[ino := 1]} {[2 := file]} 2 bufs [] 0 0.

Definition str (s : string) : bytes := String.list_ascii_of_string s.
Definition hello : bytes := str "hello".
Definition s0 : F := fs_of (meta_of hello 5) [].
Definition m0 : smap := {[mkey ino := MarshalMsg (meta_of hello 5)]}.

Lemma s0_ok : fs_ok s0 m0.
Proof.
  split; [|done|by intros b ?%elem_of_nil]. split; [repeat constructor|]. intros k. unfold om_get, at_key, m0. cbn [List.filter root s0 fs_of fst].
  destruct (keqb (mkey ino) k) eqn:E.
  - apply keqb_eq in E as <-. by rewrite lookup_singleton_eq.
  - apply keqb_neq in E. by rewrite lookup_singleton_ne.
Qed.
Lemma s0_file : file_ok s0 m0 ino (meta_of hello 5) hello.
Proof.
  split.
  - by exists (mkInode 1 false (Some (meta_of hello 5))).
  - destruct (Unmarshal_Marshal (meta_of hello 5)) as (d & Eu & Ed). exists (MarshalMsg (meta_of hello 5)), (mkIM (im_data (meta_of hello 5)) d).
    split_and!; [|done|done]. unfold m0. by rewrite lookup_singleton_eq.
  - reflexivity.
  - unfold maxSize. change (blen hello) with 5. lia.
  - unfold data_ok. rewrite decide_True by done. split; [done|]. intros e He. unfold m0. apply lookup_singleton_ne.
    intros E. symmetry in E. by apply ekey_mkey in E.
Qed.
Lemma hello_safe : write_safe hello 3.
Proof. by left. Qed.
End FsDemo.

(** The premises hold for [FsDemo.s0], and the write returns. *)
Lemma Write_refines_witness :
  ∃ s' m' meta', Write FsDemo.file (FsDemo.str "p!!") 3 FsDemo.s0 = Ok ((3, OK), s') ∧ fs_ok s' m' ∧
    file_ok s' m' FsDemo.ino meta' (splice FsDemo.hello 3 (FsDemo.str "p!!")) ∧
    ∀ ino' meta1 bs1, in_uint64 ino' → ino' ≠ FsDemo.ino → file_ok FsDemo.s0 FsDemo.m0 ino' meta1 bs1 → file_ok s' m' ino' meta1 bs1.
Proof.
  apply (Write_refines FsDemo.s0 FsDemo.m0 FsDemo.file (FsDemo.meta_of FsDemo.hello 5) FsDemo.hello (FsDemo.str "p!!") 3).
  - apply FsDemo.s0_ok.
  - apply FsDemo.s0_file.
  - done.
  - done.
  - unfold maxSize. change (blen (FsDemo.str "p!!")) with 3. lia.
  - done.
  - apply FsDemo.hello_safe.
Defined.

Lemma Read_refines_witness :
  ∃ s', Read FsDemo.file (zeros_of 10) 1 FsDemo.s0 = Ok ((FsDemo.str "ello", OK), s') ∧ fs_ok s' FsDemo.m0 ∧
    file_ok s' FsDemo.m0 FsDemo.ino (FsDemo.meta_of FsDemo.hello 5) FsDemo.hello.
Proof.
  apply (Read_refines FsDemo.s0 FsDemo.m0 FsDemo.file (FsDemo.meta_of FsDemo.hello 5) FsDemo.hello (zeros_of 10) 1).
  - apply FsDemo.s0_ok.
  - apply FsDemo.s0_file.
  - done.
  - done.
  - by left.
Defined.

Lemma Write_then_Read_witness :
  ∃ s1 s2, Write FsDemo.file (FsDemo.str "p!!") 3 FsDemo.s0 = Ok ((3, OK), s1) ∧ Read FsDemo.file (zeros_of 3) 3 s1 = Ok ((FsDemo.str "p!!", OK), s2).
Proof.
  apply (Write_then_Read FsDemo.s0 FsDemo.m0 FsDemo.file (FsDemo.meta_of FsDemo.hello 5) FsDemo.hello (FsDemo.str "p!!") (zeros_of 3) 3).
  - apply FsDemo.s0_ok.
  - apply FsDemo.s0_file.
  - done.
  - done.
  - unfold maxSize. change (blen (FsDemo.str "p!!")) with 3. lia.
  - done.
  - apply FsDemo.hello_safe.
  - done.
  - done.
Defined.

(** * What the model of the file system shows

    Runs on which the code does something else than a file system promises.  Each is a concrete
    computation of the operations. *)

Module FsFindings.
Import FsDemo.

Definition result {A : Type} (m : FM (list kv) A) (s : F) : res A :=
  match m s with Ok (a, _) => Ok a | Panic msg => Panic msg | NoFuel => NoFuel end.

Definition anyone : Context_ := mkContext 0 0.
Definition truncate (size : Z) : FM (list kv) (option (Z * Attr) * Status) :=
  SetAttr (mkSetAttrIn ino anyone FATTR_SIZE size 0 0 0 0 0 0).

(** A write past the first extent of a small file loses its data: the five bytes of the file read
    as zeros afterwards. *)
Theorem sparse_write_loses_data :
  result (Read file (zeros_of 5) 0) s0 = Ok (hello, OK) ∧
  result (_ ← Write file (str "x") dataExtentSize; Read file (zeros_of 5) 0) s0 = Ok (zeros_of 5, OK).
Proof. split; by vm_compute. Qed.

(** Enlarging a small file past [EmbeddedSize] loses its data as well. *)
Theorem enlarge_loses_data :
  result (_ ← truncate 2000; Read file (zeros_of 5) 0) s0 = Ok (zeros_of 5, OK).
Proof. by vm_compute. Qed.

(** A read that starts in an extent past the end of a file with extents does not report the end
    of the file: the end, taken relative to the extent, wraps around, and the zeros that are to
    fill the rest of the extent run over the buffer. *)
Theorem read_past_end_panics :
  result (Read file (zeros_of 10) 70000) (fs_of (meta_of [] 2000) []) = Panic "index out of range".
Proof. by vm_compute. Qed.

(** Truncating a file keeps the cut-off bytes in the last extent, and they come back when the
    file is enlarged again; truncating it to an embedded size makes it read as zeros. *)
Theorem truncate_keeps_old_bytes :
  result (_ ← Write file (replicate 2000 "x"%char) 0; _ ← truncate 1500; _ ← truncate 2000; Read file (zeros_of 3) 1997) s0 =
    Ok (str "xxx", OK) ∧
  result (_ ← Write file (replicate 2000 "x"%char) 0; _ ← truncate 3; Read file (zeros_of 3) 0) s0 = Ok (zeros_of 3, OK).
Proof. split; by vm_compute. Qed.

(** [Readlink] returns the data of a regular file: the bit it tests is also set for those. *)
Theorem readlink_of_regular_file :
  result (Readlink (mkInHeader ino anyone)) s0 = Ok (Some hello, OK).
Proof. by vm_compute. Qed.

(** [Forget] keeps the reference its own lookup of the inode takes: the inode that is forgotten stays
    in the tracker. *)
Theorem forget_keeps_a_reference :
  result (_ ← NewFs_init; _ ← Mkdir 5 (mkInHeader 1 anyone) 511 0 "d"; _ ← ops_Forget 2 1;
          i ← fgets ino2inode; mret (refcnt <$> (i : gmap Z inode) !! 2)) (Fs0 []) = Ok (Some 1).
Proof. by vm_compute. Qed.

(** A directory that is renamed loses its parent. *)
Theorem rename_clears_parent :
  result (_ ← NewFs_init; _ ← Mkdir 5 (mkInHeader 1 anyone) 511 0 "d"; _ ← Mkdir 5 (mkInHeader 1 anyone) 511 0 "e";
          _ ← Rename (mkInHeader 1 anyone) 2 "e" "f"; m ← Meta 3; mret (ParentIno <$> (im_data <$> m))) (Fs0 []) = Ok (Some 0).
Proof. by vm_compute. Qed.
End FsFindings.
