(* ===== verification/DirRep.v ===== *)
(** * What the directories hold

    A directory entry is two keys: the name under the directory, with the inode number of the
    child, and the directory and name under the child.  [dir_ok] relates the keys of the tree to
    the map from directory and name to child; it also says that the link count of an inode is the
    number of its entries. *)
From stdpp Require Import base list sets strings sorting gmap.
From Stdlib Require Import ZArith Lia Ascii.
From S2P Require Import Prelude OrderedMap Util BlockKey TreeBackend TreeStore FsState Inode FileIO FileRep.

Open Scope Z_scope.

Abbreviation dkey := NewBlockKeyDirFilename.
Abbreviation rkey := NewBlockKeyReverseDirFilename.

(** ** Keys *)

Lemma bytes_app_inj n a b (x y : string) :
  0 ≤ a < width n → 0 ≤ b < width n → be_bytes n a +:+ x = be_bytes n b +:+ y → a = b ∧ x = y.
Proof.
  intros Ha Hb E. pose proof (be_read_bytes n a x Ha) as E1. rewrite E, (be_read_bytes n b y Hb) in E1. injection E1 as ->.
  split; [done|]. pose proof (str_from_app (be_bytes n a) x) as E1. rewrite E, str_from_app in E1. by injection E1.
Qed.

Lemma dkey_eq p n : dkey p n = NewBlockKey p BST_DIR_NAME2INODE (be_bytes 4 (fnv_Sum32 n) +:+ n).
Proof. unfold dkey, ConcatBytes, Uint32Bytes. cbn [foldr]. by rewrite str_app_nil. Qed.
Lemma rkey_eq c p n : rkey c p n = NewBlockKey c BST_FILE_INODEFILENAME (be_bytes 8 p +:+ n).
Proof. unfold rkey, ConcatBytes, Uint64Bytes. cbn [foldr]. by rewrite str_app_nil. Qed.

Lemma dkey_inj p p' n n' : in_uint64 p → in_uint64 p' → dkey p n = dkey p' n' → p = p' ∧ n = n'.
Proof.
  intros Hp Hp' E. rewrite !dkey_eq in E. apply NewBlockKey_inj in E as (-> & _ & E); [|done..]. split; [done|].
  by apply bytes_app_inj in E as [_ ->]; [|apply fnv_Sum32_range..].
Qed.
Lemma rkey_inj c c' p p' n n' :
  in_uint64 c → in_uint64 c' → in_uint64 p → in_uint64 p' → rkey c p n = rkey c' p' n' → c = c' ∧ p = p' ∧ n = n'.
Proof.
  intros Hc Hc' Hp Hp' E. rewrite !rkey_eq in E. apply NewBlockKey_inj in E as (-> & _ & E); [|done..].
  by apply bytes_app_inj in E as [-> ->]; rewrite ?width_8.
Qed.
Lemma dkey_rkey p n c p' n' : in_uint64 p → in_uint64 c → dkey p n ≠ rkey c p' n'.
Proof. intros Hp Hc E. rewrite dkey_eq, rkey_eq in E. by apply NewBlockKey_inj in E as (_ & E & _). Qed.
Lemma dkey_mkey p n c : in_uint64 p → in_uint64 c → dkey p n ≠ mkey c.
Proof. intros Hp Hc E. rewrite dkey_eq in E. unfold mkey in E. by apply NewBlockKey_inj in E as (_ & E & _). Qed.
Lemma rkey_mkey c p n c' : in_uint64 c → in_uint64 c' → rkey c p n ≠ mkey c'.
Proof. intros Hp Hc E. rewrite rkey_eq in E. unfold mkey in E. by apply NewBlockKey_inj in E as (_ & E & _). Qed.
Lemma dkey_ekey p n c e : in_uint64 p → in_uint64 c → dkey p n ≠ ekey c e.
Proof. intros Hp Hc E. rewrite dkey_eq in E. unfold ekey in E. by apply NewBlockKey_inj in E as (_ & E & _). Qed.
Lemma rkey_ekey c p n c' e : in_uint64 c → in_uint64 c' → rkey c p n ≠ ekey c' e.
Proof. intros Hp Hc E. rewrite rkey_eq in E. unfold ekey in E. by apply NewBlockKey_inj in E as (_ & E & _). Qed.

(** ** Entries *)

Abbreviation entries := (gmap (Z * string) Z).

Definition links (D : entries) (c : Z) : Z := Z.of_nat (size (filter (λ kv, kv.2 = c) D)).

Lemma links_insert (D : entries) k c c' :
  D !! k = None → links (<[k := c]> D) c' = links D c' + if decide (c = c') then 1 else 0.
Proof.
  intros Hk. unfold links. rewrite map_filter_insert. cbn. destruct (decide (c = c')) as [->|].
  - rewrite map_size_insert_None; [lia|]. rewrite map_lookup_filter_None. by left.
  - rewrite delete_id by done. lia.
Qed.
Lemma links_delete (D : entries) k c c' :
  D !! k = Some c → links (delete k D) c' = links D c' - if decide (c = c') then 1 else 0.
Proof.
  intros Hk. pose proof (links_insert (delete k D) k c c' (lookup_delete_eq _ _)) as E.
  rewrite insert_delete_id in E by done. lia.
Qed.
Lemma links_nonneg D c : 0 ≤ links D c.
Proof. unfold links. lia. Qed.
Lemma links_zero (D : entries) c k : links D c = 0 → D !! k ≠ Some c.
Proof.
  unfold links. intros Hz Hk. assert (filter (λ kv, kv.2 = c) D = ∅) as E by (apply map_size_empty_iff; lia).
  apply (f_equal (lookup k)) in E. rewrite lookup_empty, map_lookup_filter_None in E. destruct E as [E|E]; [congruence|by apply (E c)].
Qed.
Lemma links_pos (D : entries) c : links D c ≠ 0 → ∃ k, D !! k = Some c.
Proof.
  unfold links. intros Hz. destruct (map_choose (filter (λ kv, kv.2 = c) D)) as (k & x & Hx).
  - intros E. rewrite E, map_size_empty in Hz. done.
  - apply map_lookup_filter_Some in Hx as [Hx Ex]. cbn in Ex. subst x. by exists k.
Qed.

(** ** The invariant *)

Section rep.
Context {T : Type} `{FsEnv} `{TxStoreOk T}.

(** Every key of the tree was made with [NewBlockKey]. *)
Definition wf_keys (m : smap) : Prop :=
  ∀ k, is_Some (m !! k) → ∃ ino st data, in_uint64 ino ∧ 0 ≤ st < 256 ∧ k = NewBlockKey ino st data.

Record dir_ok (m : smap) (D : entries) : Prop := {
  d_keys : wf_keys m;
  d_range : ∀ p n c, D !! (p, n) = Some c → in_uint64 p ∧ in_uint64 c;
  d_fwd : ∀ p n, in_uint64 p → m !! dkey p n = Uint64Bytes <$> D !! (p, n);
  d_rev : ∀ c p n, in_uint64 c → D !! (p, n) = Some c → is_Some (m !! rkey c p n);
  d_back : ∀ c data, in_uint64 c → is_Some (m !! NewBlockKey c BST_FILE_INODEFILENAME data) →
    ∃ p n, D !! (p, n) = Some c ∧ data = be_bytes 8 p +:+ n;
  d_meta : ∀ p n c, D !! (p, n) = Some c → ∃ meta, tree_meta m c meta;
  d_nlink : ∀ c meta, in_uint64 c → c ≠ FUSE_ROOT_ID → tree_meta m c meta → StNlink meta = links D c
}.

Lemma wf_keys_insert m ino st data v :
  in_uint64 ino → 0 ≤ st < 256 → wf_keys m → wf_keys (<[NewBlockKey ino st data := v]> m).
Proof.
  intros Hi Hs Hm k [x Hx]. apply lookup_insert_Some in Hx as [[<- _]|[_ Hx]]; [by exists ino, st, data|]. apply Hm. by exists x.
Qed.
Lemma wf_keys_sub m m' : m' ⊆ m → wf_keys m → wf_keys m'.
Proof. intros Hsub Hm k [x Hx]. apply Hm. exists x. by eapply lookup_weaken. Qed.

(** ** Metadata *)

Definition inode_ok (s : Fs T) (m : smap) (ino : Z) (meta : InodeMeta) : Prop := known s m ino meta ∧ tree_meta m ino meta.

(** The same but for the times. *)
Definition alike (a b : InodeMeta) : Prop :=
  set_times 0 0 0 (im_data a) = set_times 0 0 0 (im_data b) ∧ content (im_Data a) = content (im_Data b).

Lemma alike_upto a b c : upto_times b c → same_meta a b → alike a c.
Proof. intros [E1 E2] [E3 E4]. split; [by rewrite E3, E1|by rewrite E4, E2]. Qed.
Lemma alike_trans a b c : alike a b → alike b c → alike a c.
Proof. unfold alike. intros [-> ->]. done. Qed.
Lemma upto_alike a b : upto_times a b → alike a b.
Proof. intros [E1 E2]. split; [done|by rewrite E2]. Qed.
Lemma alike_fields a b :
  alike a b → StMode a = StMode b ∧ StUid a = StUid b ∧ StGid a = StGid b ∧ StSize a = StSize b ∧
    StNlink a = StNlink b ∧ ParentIno a = ParentIno b.
Proof. intros [E _]. unfold set_times in E. injection E; intros; by split_and!. Qed.

Lemma tree_meta_ext m m' ino meta : m' !! mkey ino = m !! mkey ino → tree_meta m ino meta → tree_meta m' ino meta.
Proof. unfold tree_meta. by intros ->. Qed.
Lemma tree_meta_same m ino a b : tree_meta m ino a → tree_meta m ino b → same_meta a b.
Proof. intros (v & x & Hv & Hx & [E1 E2]) (v' & x' & Hv' & Hx' & [E1' E2']). simplify_eq. split; congruence. Qed.
Lemma same_meta_nlink a b : same_meta a b → StNlink a = StNlink b.
Proof. by intros [-> _]. Qed.

Lemma cached_known (s : Fs T) m ino meta : cached s ino meta → known s m ino meta.
Proof. intros (i & Hi & Hm). exists i. by rewrite Hm. Qed.

(** A file keeps its content when its metadata changes in other respects than its size and data. *)
Lemma file_ok_meta (s s' : Fs T) m m' ino meta meta' bs :
  file_ok s m ino meta bs → inode_ok s' m' ino meta' → StSize meta' = StSize meta → content (im_Data meta') = content (im_Data meta) →
  (∀ e, in_uint64 e → m' !! ekey ino e = m !! ekey ino e) → stored s ⊆ stored s' → file_ok s' m' ino meta' bs.
Proof.
  intros [_ _ Hsz Hmax Hd] [Hk Ht] Es Ec He Hst. split; [done|done|by rewrite Es|done|].
  eapply data_ok_same; [by symmetry|]. by eapply data_ok_frame.
Qed.
End rep.
