(* ===== verification/Directory.v ===== *)
(** * Adding, removing and finding directory entries

    The operations of src/fs/inode.go on directories against [dir_ok]. *)
From stdpp Require Import base list sets strings sorting gmap.
From Stdlib Require Import ZArith Lia Ascii.
From S2P Require Import Prelude OrderedMap Util BlockKey TreeBackend TreeStore FsState Inode FileIO FileRep DirRep.

Open Scope Z_scope.

Section ops.
Context {T : Type} `{FsEnvOk} `{TxStoreOk T} `{!TxRange T} `{!TxRangeOk T}.
Abbreviation F := (Fs T).

(** ** Metadata of the two inodes *)

(** [SetMetaInTransaction] in terms of [alike]. *)
Lemma SetMeta_alike (s : F) tr m ino meta0 meta :
  cached s ino meta0 → tree_meta m ino meta0 → tx_rep tr m →
  ∃ r meta' m' s', SetMetaInTransaction ino meta tr s = Ok (r, s') ∧ tx_rep r.1.2 m' ∧ quiet [ino] s s' ∧
    cached s' ino meta' ∧ tree_meta m' ino meta' ∧ alike meta' meta ∧
    (wf_keys m → in_uint64 ino → wf_keys m') ∧ ∀ k, k ≠ mkey ino → m' !! k = m !! k.
Proof.
  intros (i & Hi & Hm) Ht Htr. destruct (SetMeta_ok s tr m ino i meta Hi) as (meta1 & meta2 & tr' & m' & b & s' & E & Hup & Hsame & Htr' & Hq & Hc & Ht' & Hk);
    [by intros old Ho; simplify_eq|done|].
  exists (meta1, tr', b), meta2, m', s'. split_and!; [done..|by eapply alike_upto| |done].
  intros Hwf Hino k [x Hx]. destruct (decide (k = mkey ino)) as [->|]; [by exists ino, BST_META, ""|]. apply Hwf. exists x. by rewrite <- Hk.
Qed.

(** The part [AddChild] and [RemoveChild] share: the directory gets a new modification time. *)
Lemma touch_directory {A : Type} (s : F) m0 tr m self meta (none : FM T A) (k : T → FM T A) :
  tx_rep (root s) m0 → known s m0 self meta → tree_meta m self meta → tx_rep tr m →
  ∃ tr' m' meta' s',
    (o ← Meta self;
     match (o : option InodeMeta) with
     | None => none
     | Some meta => meta ← SetMTimeNow meta; r ← SetMetaInTransaction self meta tr; k (r : InodeMeta * T * bool).1.2
     end) s = k tr' s' ∧
    tx_rep tr' m' ∧ quiet [self] s s' ∧ cached s' self meta' ∧ tree_meta m' self meta' ∧ alike meta' meta ∧
    (wf_keys m → in_uint64 self → wf_keys m') ∧ ∀ k, k ≠ mkey self → m' !! k = m !! k.
Proof.
  intros Hroot Hk Ht Htr. destruct (Meta_known s m0 self meta Hroot Hk) as (s1 & E1 & Hq1 & Hc1).
  destruct (setTimesNow_ok true true true meta s1) as (meta1 & E2 & Hup).
  destruct (SetMeta_alike (set_clock (S (clock s1)) s1) tr m self meta meta1) as (r & meta2 & m' & s' & E3 & Htr' & Hq3 & Hc3 & Ht3 & Hal & Hwf & Hfr); [done..|].
  exists r.1.2, m', meta2, s'. rewrite (FM_bind_ok _ _ _ _ _ E1), (FM_bind_ok _ _ _ _ _ E2), (FM_bind_ok _ _ _ _ _ E3).
  split_and!; [done|done| |done|done| |done|done].
  - eapply quiet_trans; [exact Hq1|]. eapply quiet_trans; [apply quiet_clock|exact Hq3].
  - eapply alike_trans; [done|by apply upto_alike].
Qed.

(** [Update2] runs its callback on the root. *)
Lemma Update2_ok {A : Type} (s s' : F) (cb : T → FM T (T * (bool * A))) tr ok a :
  cb (root s) s = Ok ((tr, (ok, a)), s') →
  Update2 cb s = Ok ((ok, a), if ok then set_root tr s' else s').
Proof.
  intros E. unfold Update2. rewrite (FM_bind_ok _ _ s (root s) s) by done. rewrite (FM_bind_ok _ _ _ _ _ E). by destruct ok.
Qed.

Lemma quiet_known inos (s s' : F) m ino meta : quiet inos s s' → ino ∉ inos → known s m ino meta → known s' m ino meta.
Proof. intros Hq Hn (i & Hi & Hm). exists i. by rewrite (q_other _ _ _ Hq). Qed.
Lemma known_ext (s : F) m m' ino meta : m' !! mkey ino = m !! mkey ino → known s m ino meta → known s m' ino meta.
Proof. unfold known. by intros ->. Qed.

(** ** [AddChild] *)

(** The metadata of a child that gets an entry in [self]. *)
Definition linked (self : Z) (cmeta : InodeMeta) : InodeMeta :=
  let cmeta' := on_imd (set_StNlink (StNlink cmeta + 1)) cmeta in
  if IsDir_mode (StMode cmeta) then on_imd (set_ParentIno self) cmeta' else cmeta'.

(** The keys and the state after the transaction of [AddChild]. *)
Lemma AddChild_run (s : F) m self name child cmeta meta :
  fs_ok s m → inode_ok s m self meta → inode_ok s m child cmeta → self ≠ child → in_uint64 self → in_uint64 child →
  0 ≤ StNlink cmeta < 2 ^ 32 - 1 →
  ∃ s' tr m2 cmeta' meta',
    AddChild self name child s = Ok (OK, set_root tr s') ∧ quiet [self; child] s s' ∧
    tx_rep tr (<[rkey child self name := ""]> (<[dkey self name := Uint64Bytes child]> m2)) ∧
    cached s' child cmeta' ∧ cached s' self meta' ∧ tree_meta m2 child cmeta' ∧ tree_meta m2 self meta' ∧
    alike cmeta' (linked self cmeta) ∧ alike meta' meta ∧
    (wf_keys m → wf_keys m2) ∧ ∀ k, k ≠ mkey child → k ≠ mkey self → m2 !! k = m !! k.
Proof.
  intros [Hroot _ _] [Hks Hts] [Hkc Htc] Hne Hself Hchild Hnl.
  destruct (Meta_known s m child cmeta Hroot Hkc) as (s1 & E1 & Hq1 & Hc1).
  destruct (setTimesNow_ok true true false cmeta s1) as (cmeta1 & E2 & Hup). set (s2 := set_clock (S (clock s1)) s1) in *.
  assert (cached s2 child cmeta) as Hc2 by done.
  assert (root s2 = root s) as Er2 by apply (q_root _ _ _ Hq1).
  destruct (upto_times_fields _ _ Hup) as (Emode & _ & _ & _ & Enl & _).
  set (cmeta2 := let c := on_imd (set_StNlink (wrapu32 (StNlink cmeta1 + 1))) cmeta1 in
                 if IsDir (Some cmeta) then on_imd (set_ParentIno self) c else c).
  destruct (SetMeta_alike s2 (root s) m child cmeta cmeta2) as (r & cmeta' & m1 & s3 & E3 & Htr1 & Hq3 & Hc3 & Ht3 & Hal & Hwf1 & Hfr1); [done..|].
  assert (quiet [child] s s3) as Hq03.
  { eapply quiet_trans; [exact Hq1|]. eapply quiet_trans; [apply quiet_clock|exact Hq3]. }
  assert (mkey self ≠ mkey child) as Hmk by (intros E; by apply mkey_inj in E).
  destruct (touch_directory s3 m r.1.2 m1 self meta (mret (r.1.2, (false, ENOENT)))
    (λ tr, tr ← flift (tx_Set (dkey self name) (Uint64Bytes child) tr); tr ← flift (tx_Set (rkey child self name) "" tr); mret (tr, (true, OK))))
    as (tr2 & m2 & meta' & s4 & E4 & Htr2 & Hq4 & Hc4 & Ht4 & Hal4 & Hwf2 & Hfr2).
  { by rewrite (q_root _ _ _ Hq03). }
  { eapply quiet_known; [done|set_solver|done]. }
  { eapply tree_meta_ext; [by apply Hfr1|done]. }
  { done. }
  destruct (tx_Set_ok (dkey self name) (Uint64Bytes child) tr2 m2 Htr2) as (tr3 & E5 & Htr3).
  destruct (tx_Set_ok (rkey child self name) "" tr3 _ Htr3) as (tr4 & E6 & Htr4).
  exists s4, tr4, m2, cmeta', meta'. split_and!; [| |done| |done| |done| |done| |].
  - unfold AddChild. rewrite (FM_bind_ok _ _ _ (true, OK) (set_root tr4 s4)); [done|]. apply (Update2_ok s s4 _ tr4 true OK).
    rewrite (FM_bind_ok _ _ _ _ _ E1). cbn beta iota. rewrite (FM_bind_ok _ _ _ _ _ E2). cbn zeta.
    rewrite (FM_bind_ok _ _ s2 (IsDir (Some cmeta)) s2) by (unfold inode_IsDir; by rewrite (FM_bind_ok _ _ _ _ _ (Meta_cached _ _ _ Hc2))).
    fold cmeta2. rewrite (FM_bind_ok _ _ _ _ _ E3). rewrite E4.
    rewrite (FM_bind_ok _ _ s4 tr3 s4) by (by unfold flift; rewrite E5).
    by rewrite (FM_bind_ok _ _ s4 tr4 s4) by (by unfold flift; rewrite E6).
  - eapply quiet_trans; (eapply quiet_mono; [|eassumption]; set_solver).
  - eapply cached_quiet; [done|set_solver|done].
  - eapply tree_meta_ext; [by apply Hfr2|done].
  - eapply alike_trans; [done|]. subst cmeta2. unfold linked. cbn [IsDir].
    assert (wrapu32 (StNlink cmeta1 + 1) = StNlink cmeta + 1) as -> by (rewrite Enl; apply Z.mod_small; lia).
    destruct Hup as [U1 U2]. destruct cmeta as [[] ?], cmeta1 as [[] ?]. cbn in *. injection U1. intros; subst.
    destruct (IsDir_mode _); by split.
  - auto.
  - intros k Hk1 Hk2. by rewrite Hfr2, Hfr1.
Qed.

(** What a change of the metadata of [self] and [child] leaves of the invariant, before the keys of
    the entry change. *)
Record two_metas (m m2 : smap) (self child : Z) (meta meta' cmeta' : InodeMeta) : Prop := {
  tm_self : tree_meta m2 self meta';
  tm_child : tree_meta m2 child cmeta';
  tm_before : tree_meta m self meta;
  tm_alike : alike meta' meta;
  tm_frame : ∀ k, k ≠ mkey child → k ≠ mkey self → m2 !! k = m !! k
}.

(** Metadata stays in the tree. *)
Lemma two_metas_tree m m2 self child meta meta' cmeta' c x :
  two_metas m m2 self child meta meta' cmeta' → in_uint64 self → in_uint64 child → in_uint64 c →
  tree_meta m c x → ∃ x', tree_meta m2 c x'.
Proof.
  intros [Hs Hc _ _ Hf] Iself Ichild Ic Hx. destruct (decide (c = child)) as [->|]; [by exists cmeta'|].
  destruct (decide (c = self)) as [->|]; [by exists meta'|]. exists x. eapply tree_meta_ext; [|done].
  apply Hf; intros E; by apply mkey_inj in E.
Qed.
(** Link counts of the others stay. *)
Lemma two_metas_nlink m m2 self child meta meta' cmeta' D D' c x :
  two_metas m m2 self child meta meta' cmeta' → in_uint64 self → in_uint64 child → in_uint64 c → c ≠ FUSE_ROOT_ID →
  (∀ c meta, in_uint64 c → c ≠ FUSE_ROOT_ID → tree_meta m c meta → StNlink meta = links D c) →
  (child ≠ FUSE_ROOT_ID → StNlink cmeta' = links D' child) → (∀ c, c ≠ child → links D' c = links D c) →
  tree_meta m2 c x → StNlink x = links D' c.
Proof.
  intros [Hs Hc Hb Hal Hf] Iself Ichild Ic Hroot HD Hch Hl Hx. destruct (decide (c = child)) as [->|Hne].
  - rewrite <- Hch by done. by apply same_meta_nlink; eapply tree_meta_same.
  - rewrite Hl by done. destruct (decide (c = self)) as [->|Hne'].
    + rewrite <- (HD self meta) by done. transitivity (StNlink meta').
      * by apply same_meta_nlink; eapply tree_meta_same.
      * apply alike_fields in Hal. tauto.
    + apply HD; [done|done|]. eapply tree_meta_ext; [|done]. symmetry. apply Hf; intros E; by apply mkey_inj in E.
Qed.

Lemma dir_ok_add m m2 D self child name meta meta' cmeta' :
  dir_ok m D → wf_keys m2 → two_metas m m2 self child meta meta' cmeta' → in_uint64 self → in_uint64 child →
  D !! (self, name) = None → (child ≠ FUSE_ROOT_ID → StNlink cmeta' = links D child + 1) →
  dir_ok (<[rkey child self name := ""]> (<[dkey self name := Uint64Bytes child]> m2)) (<[(self, name) := child]> D).
Proof.
  intros [Dk Dr Df Dv Db Dm Dn] Hwf H2m Iself Ichild Hnone Hnl. pose proof (tm_frame _ _ _ _ _ _ _ H2m) as Hf.
  set (m4 := <[_ := _]> (<[_ := _]> m2)).
  assert (∀ c, in_uint64 c → m4 !! mkey c = m2 !! mkey c) as Hmk.
  { intros c Ic. unfold m4. rewrite lookup_insert_ne by by apply rkey_mkey. by rewrite lookup_insert_ne by by apply dkey_mkey. }
  split.
  - unfold m4. rewrite rkey_eq, dkey_eq. apply wf_keys_insert; [done|done|]. by apply wf_keys_insert.
  - intros p n c [[[= <- <-] <-]|[_ Hc]]%lookup_insert_Some; [done|by eapply Dr].
  - intros p n Ip. unfold m4. rewrite lookup_insert_ne by (intros E; symmetry in E; by apply dkey_rkey in E).
    destruct (decide ((p, n) = (self, name))) as [[= -> ->]|Hne]; [by rewrite !lookup_insert_eq|].
    rewrite !lookup_insert_ne; [|done|intros E; apply dkey_inj in E as [-> ->]; done].
    rewrite Hf; [by apply Df|by apply dkey_mkey..].
  - intros c p n Ic. unfold m4. destruct (decide ((c, p, n) = (child, self, name))) as [[= -> -> ->]|Hne].
    { intros _. rewrite lookup_insert_eq. by eexists. }
    intros [[[= <- <-] <-]|[_ Hc]]%lookup_insert_Some; [done|]. destruct (Dr _ _ _ Hc) as [Ip _].
    rewrite lookup_insert_ne by (intros E; apply rkey_inj in E as (-> & -> & ->); done).
    rewrite lookup_insert_ne by by apply dkey_rkey. rewrite Hf by by apply rkey_mkey. by apply Dv.
  - intros c data Ic [x Hx]. unfold m4 in Hx. apply lookup_insert_Some in Hx as [[E _]|[Hne Hx]].
    { rewrite rkey_eq in E. apply NewBlockKey_inj in E as (-> & _ & <-); [|done..]. exists self, name. by rewrite lookup_insert_eq. }
    apply lookup_insert_Some in Hx as [[E _]|[_ Hx]]; [rewrite dkey_eq in E; by apply NewBlockKey_inj in E as (_ & E & _)|].
    rewrite Hf in Hx by (unfold mkey; intros E; by apply NewBlockKey_inj in E as (_ & E & _)).
    destruct (Db c data Ic) as (p & n & Hp & ->); [by eexists|]. exists p, n. split; [|done]. rewrite lookup_insert_ne; [done|congruence].
  - intros p n c Hc. assert (in_uint64 c ∧ ∃ x, tree_meta m2 c x) as [Ic [x Hx]].
    { apply lookup_insert_Some in Hc as [[_ <-]|[_ Hc]]; [split; [done|]; exists cmeta'; apply H2m|].
      destruct (Dr _ _ _ Hc) as [_ Ic]. split; [done|]. destruct (Dm _ _ _ Hc) as [x Hx]. by eapply two_metas_tree. }
    exists x. eapply tree_meta_ext; [by apply Hmk|done].
  - intros c x Ic Hroot Hx. eapply (two_metas_nlink m m2 self child meta meta' cmeta' D); try done.
    + intros Hr. by rewrite links_insert, decide_True, Hnl by done.
    + intros c' Hc'. rewrite links_insert, decide_False by done. lia.
    + eapply tree_meta_ext; [|done]. by rewrite Hmk.
Qed.

(** ** [RemoveChild] *)

Definition unlinked (cmeta : InodeMeta) : InodeMeta :=
  on_imd (set_ParentIno 0) (on_imd (set_StNlink (StNlink cmeta - 1)) cmeta).

Lemma dir_ok_remove m m2 D self child name meta meta' cmeta' :
  dir_ok m D → wf_keys m2 → two_metas m m2 self child meta meta' cmeta' → in_uint64 self → in_uint64 child →
  D !! (self, name) = Some child → (child ≠ FUSE_ROOT_ID → StNlink cmeta' = links D child - 1) →
  dir_ok (delete (rkey child self name) (delete (dkey self name) m2)) (delete (self, name) D).
Proof.
  intros [Dk Dr Df Dv Db Dm Dn] Hwf H2m Iself Ichild Hsome Hnl. pose proof (tm_frame _ _ _ _ _ _ _ H2m) as Hf.
  set (m4 := delete _ (delete _ m2)).
  assert (∀ c, in_uint64 c → m4 !! mkey c = m2 !! mkey c) as Hmk.
  { intros c Ic. unfold m4. rewrite lookup_delete_ne by by apply rkey_mkey. by rewrite lookup_delete_ne by by apply dkey_mkey. }
  split.
  - eapply wf_keys_sub; [|exact Hwf]. unfold m4. etrans; apply delete_subseteq.
  - intros p n c [_ Hc]%lookup_delete_Some. by eapply Dr.
  - intros p n Ip. unfold m4. rewrite lookup_delete_ne by (intros E; symmetry in E; by apply dkey_rkey in E).
    destruct (decide ((p, n) = (self, name))) as [[= -> ->]|Hne]; [by rewrite !lookup_delete_eq|].
    rewrite !lookup_delete_ne; [|done|intros E; apply dkey_inj in E as [-> ->]; done].
    rewrite Hf; [by apply Df|by apply dkey_mkey..].
  - intros c p n Ic [Hne Hc]%lookup_delete_Some. destruct (Dr _ _ _ Hc) as [Ip _]. unfold m4.
    rewrite lookup_delete_ne by (intros E; apply rkey_inj in E as (-> & -> & ->); done).
    rewrite lookup_delete_ne by by apply dkey_rkey. rewrite Hf by by apply rkey_mkey. by apply Dv.
  - intros c data Ic [x Hx]. unfold m4 in Hx. apply lookup_delete_Some in Hx as [Hne Hx]. apply lookup_delete_Some in Hx as [_ Hx].
    rewrite Hf in Hx by (unfold mkey; intros E; by apply NewBlockKey_inj in E as (_ & E & _)).
    destruct (Db c data Ic) as (p & n & Hp & ->); [by eexists|]. exists p, n. split; [|done]. rewrite lookup_delete_ne; [done|].
    intros [= <- <-]. apply Hne. rewrite rkey_eq. congruence.
  - intros p n c [_ Hc]%lookup_delete_Some. destruct (Dr _ _ _ Hc) as [_ Ic]. destruct (Dm _ _ _ Hc) as [x Hx].
    destruct (two_metas_tree _ _ _ _ _ _ _ c x H2m) as [x' Hx']; [done..|]. exists x'. eapply tree_meta_ext; [by apply Hmk|done].
  - intros c x Ic Hroot Hx. eapply (two_metas_nlink m m2 self child meta meta' cmeta' D); try done.
    + intros Hr. by rewrite (links_delete _ _ _ _ Hsome), decide_True, Hnl by done.
    + intros c' Hc'. rewrite (links_delete _ _ _ _ Hsome), decide_False by done. lia.
    + eapply tree_meta_ext; [|done]. by rewrite Hmk.
Qed.

(** *** Whether an inode has keys of a subtype *)

Lemma HasSubTypeKey_ok (s : F) m ino st :
  tx_rep (root s) m → wf_keys m → in_uint64 ino → 0 ≤ st < 256 →
  ∃ b, HasSubTypeKey ino st s = Ok (b, s) ∧
    (b = true ↔ ∃ data, data ≠ "" ∧ is_Some (m !! NewBlockKey ino st data)).
Proof.
  intros Hroot Hwf Hino Hst. unfold HasSubTypeKey, IterateSubTypeKeys. rewrite (FM_bind_ok _ _ s (root s) s) by done.
  destruct (tx_NextKey_ok (NewBlockKey ino st "") (root s) m Hroot) as (r & t' & En & _ & Hnext).
  cbn [IterateInoSubTypeKeys]. rewrite (FM_bind_ok _ _ s r s) by (unfold ib_NextKey, mbind, FM_bind, flift; by rewrite En).
  assert (∀ data, data ≠ "" → klt (NewBlockKey ino st "") (NewBlockKey ino st data)) as Hgt.
  { intros data Hd. unfold klt. rewrite NewBlockKey_ltb by done. rewrite Z.eqb_refl, Z.ltb_irrefl, Z.eqb_refl, Z.ltb_irrefl. by destruct data. }
  destruct r as [nkey|]; cbn [is_next] in Hnext.
  - destruct Hnext as (Hin & Hlt & Hmin). destruct (Hwf nkey Hin) as (ino' & st' & data' & Hino' & Hst' & ->).
    rewrite (FM_bind_ok _ _ s ino' s) by (unfold flift; by rewrite NewBlockKey_Ino). rewrite NewBlockKey_SubType by done.
    unfold klt in Hlt. rewrite NewBlockKey_ltb in Hlt by done.
    destruct (Z.eqb_spec ino' ino) as [->|Hn1]; [destruct (Z.eqb_spec st' st) as [->|Hn2]|]; cbn [negb orb].
    + exists true. split; [done|]. split; [intros _|done]. exists data'. split; [|done]. intros ->.
      by rewrite !Z.ltb_irrefl, !Z.eqb_refl in Hlt.
    + exists false. split; [done|]. split; [done|]. intros (data & Hd & Hx). destruct (Hmin _ Hx (Hgt _ Hd)) as [E|E].
      * apply NewBlockKey_inj in E as (_ & E & _); [congruence|done..].
      * unfold klt in E. rewrite NewBlockKey_ltb in E by done. rewrite !Z.ltb_irrefl, !Z.eqb_refl in *. cbn in *.
        destruct (Z.ltb_spec st st'), (Z.eqb_spec st st'), (Z.ltb_spec st' st), (Z.eqb_spec st' st); cbn in *; try lia; try congruence.
    + exists false. split; [done|]. split; [done|]. intros (data & Hd & Hx). destruct (Hmin _ Hx (Hgt _ Hd)) as [E|E].
      * apply NewBlockKey_inj in E as (E & _); [congruence|done..].
      * unfold klt in E. rewrite NewBlockKey_ltb in E by done.
        destruct (Z.ltb_spec ino ino'), (Z.eqb_spec ino ino'), (Z.ltb_spec ino' ino), (Z.eqb_spec ino' ino); cbn in *; try lia; try congruence.
  - exists false. split; [done|]. split; [done|]. intros (data & Hd & Hx). by destruct (Hnext _ Hx (Hgt _ Hd)).
Qed.

(** *** Deleting an inode *)

(** The keys [deleteInode] removes. *)
Definition own (ino : Z) (k : BlockKey) : bool := in_range (NewBlockKey ino BST_NONE "") (NewBlockKey ino BST_LAST "") k.
Definition without (ino : Z) (m : smap) : smap := filter (λ kv, own ino kv.1 = false) m.

Lemma without_other ino ino' st data m :
  in_uint64 ino → in_uint64 ino' → 0 ≤ st < 256 → ino' ≠ ino →
  without ino m !! NewBlockKey ino' st data = m !! NewBlockKey ino' st data.
Proof.
  intros Hi Hi' Hst Hne. apply option_eq. intros v. unfold without. rewrite map_lookup_filter_Some. cbn [fst]. unfold own.
  rewrite inode_range_keys by done. apply Z.eqb_neq in Hne as ->. cbn [andb]. tauto.
Qed.
Lemma without_own ino st data m : in_uint64 ino → 0 ≤ st < BST_LAST → without ino m !! NewBlockKey ino st data = None.
Proof.
  intros Hi Hst. unfold BST_LAST in *. apply map_lookup_filter_None. right. intros v _. cbn [fst]. unfold own.
  rewrite inode_range_keys by (done || lia). rewrite Z.eqb_refl. cbn [andb]. unfold BST_LAST. destruct (Z.ltb_spec st 47); [done|lia].
Qed.

Lemma dir_ok_without m D ino :
  dir_ok m D → in_uint64 ino → (∀ n, D !! (ino, n) = None) → links D ino = 0 → dir_ok (without ino m) D.
Proof.
  intros [Dk Dr Df Dv Db Dm Dn] Hi Hempty Hz.
  assert (without ino m ⊆ m) as Hsub by apply map_filter_subseteq.
  assert (∀ c, in_uint64 c → c ≠ ino → without ino m !! mkey c = m !! mkey c) as Hmk.
  { intros c Ic Hne. unfold mkey. apply without_other; [exact Hi|exact Ic|done|exact Hne]. }
  split.
  - by eapply wf_keys_sub.
  - done.
  - intros p n Ip. destruct (decide (p = ino)) as [->|Hne].
    + rewrite Hempty, dkey_eq. apply without_own; [exact Hi|done].
    + rewrite <- Df by done. rewrite dkey_eq. apply without_other; [exact Hi|exact Ip|done|exact Hne].
  - intros c p n Ic Hc. assert (c ≠ ino) as Hne by (intros ->; by eapply links_zero in Hc).
    rewrite rkey_eq, (without_other _ _ _ _ _ Hi Ic), <- rkey_eq; [by apply Dv|done|exact Hne].
  - intros c data Ic [x Hx]. apply Db; [done|]. exists x. by eapply lookup_weaken.
  - intros p n c Hc. assert (c ≠ ino) as Hne by (intros ->; by eapply links_zero in Hc).
    destruct (Dm _ _ _ Hc) as [x Hx]. destruct (Dr _ _ _ Hc) as [_ Ic]. exists x. eapply tree_meta_ext; [|done]. by apply Hmk.
  - intros c x Ic Hroot (v & y & Hv & Hy). apply Dn; [done|done|]. exists v, y. split; [|done]. by eapply lookup_weaken.
Qed.

Lemma deleteInode_ok (s : F) m D ino :
  tx_rep (root s) m → dir_ok m D → in_uint64 ino →
  ∃ s', deleteInode ino s = Ok (tt, s') ∧ stored s' = stored s ∧ writeBuffers s' = writeBuffers s ∧ deleted s' = deleted s ∧
    (∀ ino', ino' ≠ ino → ino2inode s' !! ino' = ino2inode s !! ino') ∧
    if decide (links D ino = 0) then tx_rep (root s') (without ino m) else s' = s.
Proof.
  intros Hroot HD Hi.
  destruct (HasSubTypeKey_ok s m ino BST_FILE_INODEFILENAME Hroot (d_keys _ _ HD) Hi) as (b & Eb & Hb); [done|].
  assert (b = true ↔ links D ino ≠ 0) as Hlinks.
  { rewrite Hb. split.
    - intros (data & _ & Hx). apply (d_back _ _ HD) in Hx as (p & n & Hc & _); [|done]. intros Hz. by eapply links_zero in Hc.
    - intros ([p n] & Hc)%links_pos. destruct (d_rev _ _ HD ino p n Hi Hc) as [x Hx]. rewrite rkey_eq in Hx. exists (be_bytes 8 p +:+ n).
      split; [|by exists x]. by destruct (be_bytes 8 p) eqn:E; [apply (f_equal String.length) in E; rewrite be_bytes_length in E|]. }
  unfold deleteInode. destruct b.
  - exists s. rewrite decide_False by by apply Hlinks. rewrite (FM_bind_ok _ _ _ (false, tt) s); [done|].
    apply (Update2_ok s s _ (root s) false tt). by rewrite (FM_bind_ok _ _ _ _ _ Eb).
  - assert (links D ino = 0) as Hz by (destruct (decide (links D ino = 0)) as [|Hz%Hlinks]; done).
    destruct (tx_DeleteRange_ok (NewBlockKey ino BST_NONE "") (NewBlockKey ino BST_LAST "") (root s) m) as (tr' & Ed & Htr').
    { rewrite NewBlockKey_ltb by done. by rewrite Z.ltb_irrefl, Z.eqb_refl. }
    { done. }
    rewrite (FM_bind_ok _ _ _ (true, tt) (set_root tr' s)).
    + eexists. rewrite decide_True by done. split_and!; [reflexivity|done|done|done| |exact Htr'].
      intros ino' Hne. cbn. by rewrite lookup_alter_ne.
    + apply (Update2_ok s s _ tr' true tt). rewrite (FM_bind_ok _ _ _ _ _ Eb). cbn beta iota.
      by rewrite (FM_bind_ok _ _ s tr' s) by (unfold flift; by rewrite Ed).
Qed.

(** *** The transaction of [RemoveChild] and what follows it *)

Lemma RemoveChild_tx (s : F) m D self child name cmeta meta :
  tx_rep (root s) m → dir_ok m D → inode_ok s m self meta → inode_ok s m child cmeta → self ≠ child → in_uint64 self → in_uint64 child →
  D !! (self, name) = Some child → 0 < StNlink cmeta < 2 ^ 32 →
  ∃ s' tr m2 cmeta' meta',
    RemoveChild_cb self child name (root s) s = Ok ((tr, (true, OK)), s') ∧ quiet [self; child] s s' ∧
    tx_rep tr (delete (rkey child self name) (delete (dkey self name) m2)) ∧
    cached s' child cmeta' ∧ cached s' self meta' ∧ alike cmeta' (unlinked cmeta) ∧
    two_metas m m2 self child meta meta' cmeta' ∧ wf_keys m2.
Proof.
  intros Hroot HD [Hks Hts] [Hkc Htc] Hne Hself Hchild Hsome Hnl.
  destruct (Meta_known s m child cmeta Hroot Hkc) as (s1 & E1 & Hq1 & Hc1).
  set (cmeta0 := on_imd (set_ParentIno 0) (on_imd (set_StNlink (wrapu32 (StNlink cmeta - 1))) cmeta)).
  destruct (setTimesNow_ok true true false cmeta0 s1) as (cmeta1 & E2 & Hup). set (s2 := set_clock (S (clock s1)) s1) in *.
  assert (cached s2 child cmeta) as Hc2 by done.
  destruct (SetMeta_alike s2 (root s) m child cmeta cmeta1) as (r & cmeta' & m1 & s3 & E3 & Htr1 & Hq3 & Hc3 & Ht3 & Hal & Hwf1 & Hfr1); [done..|].
  assert (quiet [child] s s3) as Hq03.
  { eapply quiet_trans; [exact Hq1|]. eapply quiet_trans; [apply quiet_clock|exact Hq3]. }
  assert (mkey self ≠ mkey child) as Hmk by (intros E; by apply mkey_inj in E).
  destruct (touch_directory s3 m r.1.2 m1 self meta (mret (r.1.2, (false, ENOENT)))
    (λ tr, tr ← flift (tx_Delete (dkey self name) tr); tr ← flift (tx_Delete (rkey child self name) tr); mret (tr, (true, OK))))
    as (tr2 & m2 & meta' & s4 & E4 & Htr2 & Hq4 & Hc4 & Ht4 & Hal4 & Hwf2 & Hfr2).
  { by rewrite (q_root _ _ _ Hq03). }
  { eapply quiet_known; [done|set_solver|done]. }
  { eapply tree_meta_ext; [by apply Hfr1|done]. }
  { done. }
  assert (∀ k, k ≠ mkey child → k ≠ mkey self → m2 !! k = m !! k) as Hfr by (intros k Hk1 Hk2; by rewrite Hfr2, Hfr1).
  destruct (tx_Delete_ok (dkey self name) tr2 m2 Htr2) as (tr3 & E5 & Htr3).
  { rewrite Hfr by by apply dkey_mkey. rewrite (d_fwd _ _ HD), Hsome by done. by eexists. }
  destruct (tx_Delete_ok (rkey child self name) tr3 _ Htr3) as (tr4 & E6 & Htr4).
  { rewrite lookup_delete_ne by by apply dkey_rkey. rewrite Hfr by by apply rkey_mkey. by apply (d_rev _ _ HD). }
  exists s4, tr4, m2, cmeta', meta'. split_and!; [| |done| |done| | |].
  - unfold RemoveChild_cb. rewrite (FM_bind_ok _ _ _ _ _ E1). cbn beta iota zeta. fold cmeta0. rewrite (FM_bind_ok _ _ _ _ _ E2).
    rewrite (FM_bind_ok _ _ _ _ _ E3). rewrite E4. rewrite (FM_bind_ok _ _ s4 tr3 s4) by (by unfold flift; rewrite E5).
    by rewrite (FM_bind_ok _ _ s4 tr4 s4) by (by unfold flift; rewrite E6).
  - eapply quiet_trans; (eapply quiet_mono; [|eassumption]; set_solver).
  - eapply cached_quiet; [done|set_solver|done].
  - eapply alike_trans; [done|]. eapply alike_trans; [by apply upto_alike|]. unfold cmeta0, unlinked.
    assert (wrapu32 (StNlink cmeta - 1) = StNlink cmeta - 1) as -> by (apply Z.mod_small; lia). by split.
  - split; [done| |done|done|done]. eapply tree_meta_ext; [by apply Hfr2|done].
  - pose proof (d_keys _ _ HD). auto.
Qed.

Lemma RemoveChild_finish (s s1 : F) tr m4 D' self child name cmeta' :
  RemoveChild_cb self child name (root s) s = Ok ((tr, (true, OK)), s1) → tx_rep tr m4 → dir_ok m4 D' →
  cached s1 child cmeta' → in_uint64 child → (∀ n, D' !! (child, n) = None) →
  ∃ s' m', RemoveChild self child name s = Ok (OK, s') ∧ tx_rep (root s') m' ∧ dir_ok m' D' ∧
    stored s' = stored s1 ∧ writeBuffers s' = writeBuffers s1 ∧ deleted s' = deleted s1 ++ [mkDeleteNotify self child name] ∧
    (∀ ino, ino ≠ child → ino2inode s' !! ino = ino2inode s1 !! ino) ∧
    if decide (links D' child = 0 ∧ ino2fhcount s1 !! child = None) then m' = without child m4
    else m' = m4 ∧ cached s' child cmeta'.
Proof.
  intros E Htr HD (i & Hi & Him) Ic Hempty. set (s2 := set_root tr s1).
  set (s3 := set_ino2inode (<[child := mkInode (refcnt i) true (i_meta i)]> (ino2inode s2)) s2).
  assert (∀ ino, ino ≠ child → ino2inode s3 !! ino = ino2inode s1 !! ino) as H3 by (intros ino Hn; cbn; by rewrite lookup_insert_ne).
  assert (cached s3 child cmeta') as Hc3 by (eexists; split; [apply lookup_insert_eq|done]).
  set (rest := match ino2fhcount s1 !! child with None => deleteInode child | Some _ => mret tt end).
  assert (∃ s4, rest s3 = Ok (tt, s4) ∧ stored s4 = stored s1 ∧ writeBuffers s4 = writeBuffers s1 ∧ deleted s4 = deleted s1 ∧
    (∀ ino, ino ≠ child → ino2inode s4 !! ino = ino2inode s1 !! ino) ∧
    if decide (links D' child = 0 ∧ ino2fhcount s1 !! child = None) then tx_rep (root s4) (without child m4)
    else s4 = s3) as (s4 & E4 & P1 & P2 & P3 & P4 & P5).
  { subst rest. destruct (ino2fhcount s1 !! child) eqn:Ef.
    - exists s3. rewrite decide_False by (by intros []). done.
    - destruct (deleteInode_ok s3 m4 D' child Htr HD Ic) as (s4 & E4 & P1 & P2 & P3 & P4 & P5). exists s4.
      split_and!; [done..|intros ino Hn; by rewrite P4, H3|]. destruct (decide (links D' child = 0)) as [Hz|Hz].
      + by rewrite decide_True.
      + by rewrite decide_False by (by intros []). }
  set (s5 := set_deleted (deleted s4 ++ [mkDeleteNotify self child name]) s4).
  exists s5, (if decide (links D' child = 0 ∧ ino2fhcount s1 !! child = None) then without child m4 else m4).
  split_and!; [| | |done|done|cbn; by rewrite P3|done|].
  - unfold RemoveChild. rewrite (FM_bind_ok _ _ _ (true, OK) s2) by apply (Update2_ok s s1 _ tr true OK E). cbn beta iota.
    rewrite (FM_bind_ok _ _ s2 tt s4); [done|]. rewrite (FM_bind_ok _ _ s2 (ino2fhcount s1) s2) by done.
    rewrite (FM_bind_ok _ _ s2 tt s3) by apply (i_upd_ok s2 child (λ i, mkInode (refcnt i) true (i_meta i)) i Hi). exact E4.
  - destruct (decide _); [done|]. subst s5. by rewrite P5.
  - destruct (decide _) as [[Hz _]|]; [by apply dir_ok_without|done].
  - destruct (decide _); [done|]. split; [done|]. subst s5. by rewrite P5.
Qed.
End ops.
