(* ===== verification/DirProps.v ===== *)
(** * Directories: the theorems

    Adding, removing and finding an entry against the abstract directories of [dir_ok]: a map from
    directory and name to child. *)
From stdpp Require Import base list sets strings sorting gmap.
From Stdlib Require Import ZArith Lia Ascii.
From S2P Require Import Prelude OrderedMap Util BlockKey TreeBackend TreeStore FsState Inode FileIO FileRep FileRead FileWrite FsOps FileProps DirRep Directory.

Open Scope Z_scope.

Section props.
Context {T : Type} `{FsEnvOk} `{TxStoreOk T} `{!TxRange T} `{!TxRangeOk T}.

(** Files other than the two inodes of an entry stay as they are when only the keys of the entry,
    the metadata of the two, and keys of the child change. *)
Lemma quiet_file (s s' s'' : Fs T) m m' self child ino meta bs :
  quiet [self; child] s s' → stored s'' = stored s' → (∀ i, i ≠ child → ino2inode s'' !! i = ino2inode s' !! i) →
  ino ≠ self → ino ≠ child →
  (∀ st data, 0 ≤ st < 256 → st = BST_META ∨ st = BST_FILE_OFFSET2EXTENT → m' !! NewBlockKey ino st data = m !! NewBlockKey ino st data) →
  file_ok s m ino meta bs → file_ok s'' m' ino meta bs.
Proof.
  intros Hq Est Hin Hn1 Hn2 Hm Hf.
  assert (m' !! mkey ino = m !! mkey ino) as Emk by (apply Hm; [done|by left]).
  eapply file_ok_meta; [exact Hf| |done|done| |].
  - destruct Hf as [Hk Ht _ _ _]. split; [|by eapply tree_meta_ext]. eapply known_ext; [exact Emk|].
    destruct Hk as (i & Hi & Hm'). exists i. split; [|done]. rewrite Hin, (q_other _ _ _ Hq) by set_solver. done.
  - intros e He. apply Hm; [done|by right].
  - by rewrite Est, (q_stored _ _ _ Hq).
Qed.

(** Keys with another subtype than those of an entry stay. *)
Lemma entry_keys_other ino st data self child name :
  in_uint64 ino → in_uint64 self → in_uint64 child → 0 ≤ st < 256 → st = BST_META ∨ st = BST_FILE_OFFSET2EXTENT →
  NewBlockKey ino st data ≠ dkey self name ∧ NewBlockKey ino st data ≠ rkey child self name.
Proof.
  intros Hi Hs Hc Hst Hor. rewrite dkey_eq, rkey_eq.
  split; intros E; apply NewBlockKey_inj in E as (_ & E & _); try done; destruct Hor; subst; done.
Qed.
Lemma mkey_other ino st data c :
  in_uint64 ino → in_uint64 c → 0 ≤ st < 256 → ino ≠ c ∨ st ≠ BST_META → NewBlockKey ino st data ≠ mkey c.
Proof. intros Hi Hc Hst Hor E. unfold mkey in E. apply NewBlockKey_inj in E as (-> & -> & _); [|done..]. by destruct Hor. Qed.

(** C12: [AddChild] adds exactly one entry.  It returns OK and the tree then holds the old entries
    and the new one, forward and backward; the link count of the child is one more and still the
    number of its entries, as for every inode; a directory gets its parent; contents of files and
    metadata of other inodes stay. *)
Theorem AddChild_refines (s : Fs T) m D self name child cmeta meta :
  fs_ok s m → dir_ok m D → inode_ok s m self meta → inode_ok s m child cmeta → self ≠ child → in_uint64 self → in_uint64 child →
  D !! (self, name) = None → 0 ≤ StNlink cmeta < 2 ^ 32 - 1 →
  ∃ s' m' cmeta' meta',
    AddChild self name child s = Ok (OK, s') ∧ fs_ok s' m' ∧ dir_ok m' (<[(self, name) := child]> D) ∧
    inode_ok s' m' child cmeta' ∧ alike cmeta' (linked self cmeta) ∧ inode_ok s' m' self meta' ∧ alike meta' meta ∧
    (∀ bs, file_ok s m child cmeta bs → file_ok s' m' child cmeta' bs) ∧
    ∀ ino meta1 bs, in_uint64 ino → ino ≠ self → ino ≠ child → file_ok s m ino meta1 bs → file_ok s' m' ino meta1 bs.
Proof.
  intros Hs HD Hself Hchild Hne Is Ic Hnone Hnl.
  destruct (AddChild_run s m self name child cmeta meta) as (s' & tr & m2 & cmeta' & meta' & E & Hq & Htr & Hc1 & Hc2 & Ht1 & Ht2 & Ha1 & Ha2 & Hwf & Hfr); [done..|].
  assert (two_metas m m2 self child meta meta' cmeta') as H2m by (split; assumption || apply Hself).
  set (m' := <[rkey child self name := ""]> (<[dkey self name := Uint64Bytes child]> m2)) in *.
  assert (∀ ino st data, in_uint64 ino → 0 ≤ st < 256 → st = BST_META ∨ st = BST_FILE_OFFSET2EXTENT →
    m' !! NewBlockKey ino st data = m2 !! NewBlockKey ino st data) as Hm'.
  { intros ino st data Hi Hst Hor. destruct (entry_keys_other ino st data self child name Hi Is Ic Hst Hor) as [N1 N2]. unfold m'.
    by rewrite !lookup_insert_ne. }
  assert (∀ ino x, in_uint64 ino → cached s' ino x → tree_meta m2 ino x → inode_ok (set_root tr s') m' ino x) as Hok.
  { intros ino x Hi Hc Ht. split; [by apply cached_known|]. eapply tree_meta_ext; [|exact Ht]. unfold mkey. apply Hm'; [exact Hi|done|by left]. }
  destruct (alike_fields _ _ Ha1) as (_ & _ & _ & Esz & Enl & _).
  exists (set_root tr s'), m', cmeta', meta'. split_and!; try assumption.
  - split; [exact Htr| |]; cbn; rewrite ?(q_stored _ _ _ Hq), ?(q_buffers _ _ _ Hq); apply Hs.
  - eapply dir_ok_add; try eassumption; [apply Hwf, HD|]. intros Hroot. rewrite Enl, <- (d_nlink _ _ HD child cmeta) by (done || apply Hchild).
    unfold linked. by destruct (IsDir_mode _).
  - by apply Hok.
  - by apply Hok.
  - intros bs Hf. eapply file_ok_meta; [exact Hf|by apply Hok| | | |cbn; by rewrite (q_stored _ _ _ Hq)].
    + rewrite Esz. unfold linked. by destruct (IsDir_mode _).
    + destruct Ha1 as [_ ->]. unfold linked. by destruct (IsDir_mode _).
    + intros e He. unfold ekey. rewrite Hm' by (done || by right). apply Hfr; apply mkey_other; by try right.
  - intros ino meta1 bs Hi N1 N2. apply (quiet_file s s' (set_root tr s') m m' self child); [done|done|done|done|done|].
    intros st data Hst Hor. rewrite Hm' by done. apply Hfr; apply mkey_other; by try left.
Qed.

(** Finding an entry.  [GetChildByName] returns the child of the entry with the name and one
    more reference to it, or nothing when there is none, and leaves the tree as it is. *)
Theorem GetChildByName_refines (s : Fs T) m D self name :
  fs_ok s m → dir_ok m D → in_uint64 self →
  ∃ s', GetChildByName self name s = Ok (D !! (self, name), s') ∧ fs_ok s' m ∧
    ∀ ino, default 0 (refcnt <$> ino2inode s' !! ino) =
      default 0 (refcnt <$> ino2inode s !! ino) + if decide (D !! (self, name) = Some ino) then 1 else 0.
Proof.
  intros Hs HD Is. unfold GetChildByName. rewrite (FM_bind_ok _ _ s (root s) s) by done.
  rewrite (FM_bind_ok _ _ _ _ _ (ib_Get_ok (dkey self name) _ _ s (fs_tree _ _ Hs))), (d_fwd _ _ HD) by done.
  destruct (D !! (self, name)) as [c|] eqn:Ec; cbn [fmap option_fmap option_map].
  - destruct (d_range _ _ HD _ _ _ Ec) as [_ Ic]. destruct (d_meta _ _ HD _ _ _ Ec) as (x & v & a & Hv & Ha & _).
    rewrite (FM_bind_ok _ _ s c s).
    2: { unfold flift, Uint64Bytes. rewrite <- (str_app_nil (be_bytes 8 c)), be_read_bytes by (by rewrite width_8). done. }
    set (i := default (mkInode 0 false None) (ino2inode s !! c)).
    set (s1 := set_ino2inode (<[c := mkInode (refcnt i + 1) (removed i) (i_meta i)]> (ino2inode s)) s).
    assert (fs_ok s1 m) as Hs1 by (split; apply Hs).
    assert (∃ y, known s1 m c y) as [y Hy].
    { destruct (i_meta i) as [y|] eqn:Ey; [exists y|exists a]; eexists; (split; [apply lookup_insert_eq|]); cbn [i_meta]; [done|by exists v]. }
    destruct (Meta_known s1 m c y (fs_tree _ _ Hs1) Hy) as (s2 & E2 & Hq & _).
    exists s2. split_and!.
    + unfold GetInode. rewrite (FM_bind_ok _ _ s c s1) by done. by rewrite (FM_bind_ok _ _ _ _ _ E2).
    + split; rewrite ?(q_root _ _ _ Hq), ?(q_stored _ _ _ Hq), ?(q_buffers _ _ _ Hq); apply Hs1.
    + intros ino. pose proof (q_refs _ _ _ Hq ino) as Hr.
      assert (refcnt <$> ino2inode s2 !! ino = refcnt <$> ino2inode s1 !! ino) as ->.
      { destruct (ino2inode s2 !! ino), (ino2inode s1 !! ino); cbn in *; congruence. }
      unfold s1. cbn. destruct (decide (Some c = Some ino)) as [[= ->]|Hn].
      * rewrite lookup_insert_eq. cbn. unfold i. by destruct (ino2inode s !! ino).
      * rewrite lookup_insert_ne by congruence. lia.
  - exists s. split_and!; [done|done|]. intros ino. rewrite decide_False by done. lia.
Qed.

(** C13: [RemoveChild] removes exactly one entry, forward and backward.  The link count of the child
    is one less; when this was its last entry and no open file refers to it, all its keys are gone,
    otherwise it keeps its content.  The other entries, contents of files and metadata of other
    inodes stay, and the deletion is reported.  (A directory has to be empty, which [Rmdir] checks.) *)
Theorem RemoveChild_refines (s : Fs T) m D self name child cmeta meta :
  fs_ok s m → dir_ok m D → inode_ok s m self meta → inode_ok s m child cmeta → self ≠ child → in_uint64 self → in_uint64 child →
  child ≠ FUSE_ROOT_ID → D !! (self, name) = Some child → (∀ n, D !! (child, n) = None) → StNlink cmeta < 2 ^ 32 →
  ∃ s' m' meta',
    RemoveChild self child name s = Ok (OK, s') ∧ fs_ok s' m' ∧ dir_ok m' (delete (self, name) D) ∧
    deleted s' = deleted s ++ [mkDeleteNotify self child name] ∧
    (if decide (links D child = 1 ∧ ino2fhcount s !! child = None)
     then ∀ st data, 0 ≤ st < BST_LAST → m' !! NewBlockKey child st data = None
     else ∃ cmeta', inode_ok s' m' child cmeta' ∧ alike cmeta' (unlinked cmeta) ∧
       ∀ bs, file_ok s m child cmeta bs → file_ok s' m' child cmeta' bs) ∧
    inode_ok s' m' self meta' ∧ alike meta' meta ∧
    ∀ ino meta1 bs, in_uint64 ino → ino ≠ self → ino ≠ child → file_ok s m ino meta1 bs → file_ok s' m' ino meta1 bs.
Proof.
  intros Hs HD Hself Hchild Hne Is Ic Hroot Hsome Hempty Hmax.
  assert (StNlink cmeta = links D child) as Hnl by (apply (d_nlink _ _ HD); try assumption; apply Hchild).
  assert (0 < links D child) as Hpos.
  { pose proof (links_nonneg D child). destruct (decide (links D child = 0)) as [Hz|]; [|lia]. by eapply links_zero in Hsome. }
  destruct (RemoveChild_tx s m D self child name cmeta meta) as (s1 & tr & m2 & cmeta' & meta' & E & Hq & Htr & Hc1 & Hc2 & Ha & H2m & Hwf);
    try assumption; [apply Hs|lia|].
  set (m4 := delete (rkey child self name) (delete (dkey self name) m2)) in *.
  destruct (alike_fields _ _ Ha) as (_ & _ & _ & Esz & Enl & _).
  assert (dir_ok m4 (delete (self, name) D)) as HD4.
  { eapply dir_ok_remove; try eassumption. intros _. rewrite Enl, <- Hnl. done. }
  assert (links (delete (self, name) D) child = links D child - 1) as Hl' by (by rewrite (links_delete _ _ _ _ Hsome), decide_True).
  destruct (RemoveChild_finish s s1 tr m4 (delete (self, name) D) self child name cmeta')
    as (s' & m' & E' & Hroot' & HD' & Est & Ebuf & Edel & Hin & Hcase); try assumption.
  { intros n. rewrite lookup_delete_ne by congruence. apply Hempty. }
  pose proof (tm_frame _ _ _ _ _ _ _ H2m) as Hfr. rewrite (q_counts _ _ _ Hq), Hl' in Hcase.
  assert (∀ ino st data, in_uint64 ino → 0 ≤ st < 256 → st = BST_META ∨ st = BST_FILE_OFFSET2EXTENT →
    m4 !! NewBlockKey ino st data = m2 !! NewBlockKey ino st data) as Hm4.
  { intros ino st data Hi Hst Hor. destruct (entry_keys_other ino st data self child name Hi Is Ic Hst Hor) as [N1 N2]. unfold m4.
    by rewrite !lookup_delete_ne. }
  assert (∀ ino st data, in_uint64 ino → ino ≠ child → 0 ≤ st < 256 → m' !! NewBlockKey ino st data = m4 !! NewBlockKey ino st data) as Hm'.
  { intros ino st data Hi Hn Hst. destruct (decide _); [subst m'; by apply without_other|by destruct Hcase as [-> _]]. }
  exists s', m', meta'. split_and!; try assumption.
  - split; [exact Hroot'| |]; rewrite ?Est, ?Ebuf, ?(q_stored _ _ _ Hq), ?(q_buffers _ _ _ Hq); apply Hs.
  - by rewrite Edel, (q_deleted _ _ _ Hq).
  - destruct (decide _) as [[Hz Hfh]|Hn] in Hcase; [rewrite decide_True by (split; [lia|done])|rewrite decide_False by (intros [? ?]; apply Hn; split; [lia|done])].
    + intros st data Hst. subst m'. by apply without_own.
    + destruct Hcase as [-> Hc']. exists cmeta'. assert (inode_ok s' m4 child cmeta') as Hok.
      { split; [by apply cached_known|]. eapply tree_meta_ext; [|apply (tm_child _ _ _ _ _ _ _ H2m)]. unfold mkey. apply Hm4; [exact Ic|done|by left]. }
      split_and!; [exact Hok|exact Ha|]. intros bs Hf. eapply file_ok_meta; [exact Hf|exact Hok|by rewrite Esz|by destruct Ha as [_ ->]| |].
      * intros e He. unfold ekey. rewrite Hm4 by (done || by right). apply Hfr; apply mkey_other; by try right.
      * by rewrite Est, (q_stored _ _ _ Hq).
  - split; [apply cached_known; destruct Hc2 as (i & Hi & Him); exists i; by rewrite Hin|].
    eapply tree_meta_ext; [|apply (tm_self _ _ _ _ _ _ _ H2m)]. unfold mkey. rewrite Hm' by done. apply Hm4; [exact Is|done|by left].
  - apply H2m.
  - intros ino meta1 bs Hi N1 N2. apply (quiet_file s s1 s' m m' self child); [done|done|done|done|done|].
    intros st data Hst Hor. rewrite Hm', Hm4 by done. apply Hfr; apply mkey_other; by try left.
Qed.
End props.

(** ** A directory to run in *)
Module DirDemo.

Abbreviation F := (Fs (list kv)).

(** The root directory, 1, and a file, 5, with [n] links. *)
Definition dir_meta : InodeMeta := mkIM (mkIMD S_IFDIR 0 0 0 1 1 1 0 0 0) None.
Definition file_meta (n : Z) : InodeMeta := mkIM (mkIMD S_IFREG 0 0 0 1 1 1 0 n 0) None.

Definition tree (n : Z) : list kv := om_set (mkey 5) (MarshalMsg (file_meta n)) (om_set (mkey 1) (MarshalMsg dir_meta) []).
Definition map (n : Z) : smap := <[mkey 5 := MarshalMsg (file_meta n)]> (<[mkey 1 := MarshalMsg dir_meta]> ∅).
Definition state (n : Z) (t : list kv) : F :=
  mkFs t ∅ {[1 := mkInode 1 false (Some dir_meta); 5 := mkInode 1 false (Some (file_meta n))]} ∅ ∅ 2 [] [] 0 0.

Lemma om_set_rep k v l m : list_rep l m → list_rep (om_set k v l) (<[k := v]> m).
Proof. intros Hl. destruct (tx_Set_ok (TxStoreOk := list_TxStoreOk) k v l m Hl) as (t' & E & Ht). by injection E as <-. Qed.
Lemma tree_rep n : list_rep (tree n) (map n).
Proof. apply om_set_rep, om_set_rep. split; [constructor|done]. Qed.
Lemma state_ok n t m : list_rep t m → fs_ok (state n t) m.
Proof. intros Ht. split; [done|done|by intros b ?%elem_of_nil]. Qed.

Lemma mkey_1_5 : mkey 1 ≠ mkey 5.
Proof. intros E. by apply mkey_inj in E. Qed.
Lemma map_1 n : tree_meta (map n) 1 dir_meta.
Proof.
  eapply tree_meta_ext; [unfold map; apply lookup_insert_ne; apply not_eq_sym, mkey_1_5|]. apply tree_meta_Marshal.
Qed.
Lemma map_5 n : tree_meta (map n) 5 (file_meta n).
Proof. apply tree_meta_Marshal. Qed.

Lemma map_ok n : (n = 0 → dir_ok (map n) ∅).
Proof.
  intros ->. assert (∀ ino st data, in_uint64 ino → 0 ≤ st < 256 → st ≠ BST_META → map 0 !! NewBlockKey ino st data = None) as Hnone.
  { intros ino st data Hi Hst Hne. unfold map. rewrite !lookup_insert_ne, lookup_empty; [done|..]; apply not_eq_sym, mkey_other; by try right. }
  split.
  - intros k [x Hx]. unfold map in Hx. apply lookup_insert_Some in Hx as [[<- _]|[_ Hx]]; [by exists 5, BST_META, ""|].
    apply lookup_insert_Some in Hx as [[<- _]|[_ Hx]]; [by exists 1, BST_META, ""|]. by rewrite lookup_empty in Hx.
  - intros p n c Hc. by rewrite lookup_empty in Hc.
  - intros p n Hp. rewrite dkey_eq, Hnone, lookup_empty; done.
  - intros c p n _ Hc. by rewrite lookup_empty in Hc.
  - intros c data Hc [x Hx]. by rewrite Hnone in Hx.
  - intros p n c Hc. by rewrite lookup_empty in Hc.
  - intros c meta Hc Hroot (v & a & Hv & Ha & Hs). change (links ∅ c) with 0. destruct (decide (c = 5)) as [->|Hne].
    + rewrite (same_meta_nlink meta (file_meta 0)); [done|]. eapply tree_meta_same; [|apply (map_5 0)]. by exists v, a.
    + unfold map in Hv. rewrite !lookup_insert_ne, lookup_empty in Hv; [done|..]; intros E; apply mkey_inj in E; try done; congruence.
Qed.

(** With the entry "a" of the root for the file. *)
Definition tree_a : list kv := om_set (rkey 5 1 "a") "" (om_set (dkey 1 "a") (Uint64Bytes 5) (tree 1)).
Definition map_a : smap := <[rkey 5 1 "a" := ""]> (<[dkey 1 "a" := Uint64Bytes 5]> (map 1)).
Definition D_a : entries := <[(1, "a"%string) := 5]> ∅.
Lemma tree_a_rep : list_rep tree_a map_a.
Proof. apply om_set_rep, om_set_rep, tree_rep. Qed.
Lemma map_a_ok : dir_ok map_a D_a.
Proof.
  apply (dir_ok_add (map 0) (map 1) ∅ 1 5 "a" dir_meta dir_meta (file_meta 1)); try done.
  - by apply map_ok.
  - intros k [x Hx]. unfold map in Hx. apply lookup_insert_Some in Hx as [[<- _]|[_ Hx]]; [by exists 5, BST_META, ""|].
    apply lookup_insert_Some in Hx as [[<- _]|[_ Hx]]; [by exists 1, BST_META, ""|]. by rewrite lookup_empty in Hx.
  - split; [apply map_1|apply map_5|apply map_1|done|]. intros k H5 H1. unfold map. by rewrite !lookup_insert_ne by done.
Qed.

Lemma inode_1 n t m : m !! mkey 1 = map n !! mkey 1 → inode_ok (state n t) m 1 dir_meta.
Proof.
  intros E. split; [by exists (mkInode 1 false (Some dir_meta))|]. eapply tree_meta_ext; [exact E|apply map_1].
Qed.
Lemma inode_5 n t m : m !! mkey 5 = map n !! mkey 5 → inode_ok (state n t) m 5 (file_meta n).
Proof.
  intros E. split; [by exists (mkInode 1 false (Some (file_meta n)))|]. eapply tree_meta_ext; [exact E|apply map_5].
Qed.
Lemma map_a_mkey c : in_uint64 c → map_a !! mkey c = map 1 !! mkey c.
Proof.
  intros Hc. unfold map_a. rewrite lookup_insert_ne by by apply rkey_mkey. by rewrite lookup_insert_ne by by apply dkey_mkey.
Qed.
End DirDemo.

Lemma AddChild_refines_witness :
  ∃ s' m' cmeta' meta',
    AddChild 1 "a" 5 (DirDemo.state 0 (DirDemo.tree 0)) = Ok (OK, s') ∧ fs_ok s' m' ∧ dir_ok m' (<[(1, "a"%string) := 5]> ∅) ∧
    inode_ok s' m' 5 cmeta' ∧ alike cmeta' (linked 1 (DirDemo.file_meta 0)) ∧ inode_ok s' m' 1 meta' ∧ alike meta' DirDemo.dir_meta ∧
    (∀ bs, file_ok (DirDemo.state 0 (DirDemo.tree 0)) (DirDemo.map 0) 5 (DirDemo.file_meta 0) bs → file_ok s' m' 5 cmeta' bs) ∧
    ∀ ino meta1 bs, in_uint64 ino → ino ≠ 1 → ino ≠ 5 →
      file_ok (DirDemo.state 0 (DirDemo.tree 0)) (DirDemo.map 0) ino meta1 bs → file_ok s' m' ino meta1 bs.
Proof.
  apply (AddChild_refines (DirDemo.state 0 (DirDemo.tree 0)) (DirDemo.map 0) ∅ 1 "a" 5 (DirDemo.file_meta 0) DirDemo.dir_meta).
  - apply DirDemo.state_ok, DirDemo.tree_rep.
  - by apply DirDemo.map_ok.
  - by apply DirDemo.inode_1.
  - by apply DirDemo.inode_5.
  - done.
  - done.
  - done.
  - done.
  - done.
Defined.

Lemma GetChildByName_refines_witness :
  ∃ s', GetChildByName 1 "a" (DirDemo.state 1 DirDemo.tree_a) = Ok (DirDemo.D_a !! (1, "a"%string), s') ∧ fs_ok s' DirDemo.map_a ∧
    ∀ ino, default 0 (refcnt <$> ino2inode s' !! ino) =
      default 0 (refcnt <$> ino2inode (DirDemo.state 1 DirDemo.tree_a) !! ino) +
      if decide (DirDemo.D_a !! (1, "a"%string) = Some ino) then 1 else 0.
Proof.
  apply (GetChildByName_refines (DirDemo.state 1 DirDemo.tree_a) DirDemo.map_a DirDemo.D_a 1 "a").
  - apply DirDemo.state_ok, DirDemo.tree_a_rep.
  - apply DirDemo.map_a_ok.
  - done.
Defined.

Lemma RemoveChild_refines_witness :
  ∃ s' m' meta',
    RemoveChild 1 5 "a" (DirDemo.state 1 DirDemo.tree_a) = Ok (OK, s') ∧ fs_ok s' m' ∧ dir_ok m' (delete (1, "a"%string) DirDemo.D_a) ∧
    deleted s' = [] ++ [mkDeleteNotify 1 5 "a"] ∧
    (if decide (links DirDemo.D_a 5 = 1 ∧ ino2fhcount (DirDemo.state 1 DirDemo.tree_a) !! 5 = None)
     then ∀ st data, 0 ≤ st < BST_LAST → m' !! NewBlockKey 5 st data = None
     else ∃ cmeta', inode_ok s' m' 5 cmeta' ∧ alike cmeta' (unlinked (DirDemo.file_meta 1)) ∧
       ∀ bs, file_ok (DirDemo.state 1 DirDemo.tree_a) DirDemo.map_a 5 (DirDemo.file_meta 1) bs → file_ok s' m' 5 cmeta' bs) ∧
    inode_ok s' m' 1 meta' ∧ alike meta' DirDemo.dir_meta ∧
    ∀ ino meta1 bs, in_uint64 ino → ino ≠ 1 → ino ≠ 5 →
      file_ok (DirDemo.state 1 DirDemo.tree_a) DirDemo.map_a ino meta1 bs → file_ok s' m' ino meta1 bs.
Proof.
  apply (RemoveChild_refines (DirDemo.state 1 DirDemo.tree_a) DirDemo.map_a DirDemo.D_a 1 "a" 5 (DirDemo.file_meta 1) DirDemo.dir_meta).
  - apply DirDemo.state_ok, DirDemo.tree_a_rep.
  - apply DirDemo.map_a_ok.
  - by apply DirDemo.inode_1, DirDemo.map_a_mkey.
  - by apply DirDemo.inode_5, DirDemo.map_a_mkey.
  - done.
  - done.
  - done.
  - done.
  - unfold DirDemo.D_a. by rewrite lookup_insert_eq.
  - intros n. unfold DirDemo.D_a. rewrite lookup_insert_ne; [apply lookup_empty|discriminate].
  - done.
Defined.
