(* ===== verification/FsUser.v ===== *)
(** * The path based interface (src/fs/fsuser.go, ListDir of src/fs/fs.go)

    FSUser offers calls in the style of package os on top of the handlers of [FsOps]: it walks paths
    with Lookup and keeps the header, whose node id each call sets.  A call of type [UM] returns a
    value or an error and the header.  The lock of the user is not modelled: calls are one after the other. *)
From stdpp Require Import base list sets strings sorting gmap.
From Stdlib Require Import ZArith Lia Ascii.
From S2P Require Import Prelude OrderedMap Util BlockKey TreeBackend FsState Inode FileIO FsOps Paths.

#[export] Instance Status_eq_dec : EqDecision Status.
Proof. solve_decision. Defined.

(** An error: a status other than OK, or a message. *)
Inductive uerror : Type := EStatus (code : Status) | EMessage (msg : string).

Definition UM (T A : Type) : Type := InHeader → FM T ((uerror + A) * InHeader).

Section monad.
Context {T : Type}.
Definition uret {A : Type} (a : A) : UM T A := λ u s, Ok (inr a, u, s).
Definition ufail {A : Type} (e : uerror) : UM T A := λ u s, Ok (inl e, u, s).
Definition ubind {A B : Type} (m : UM T A) (k : A → UM T B) : UM T B := λ u s,
  match m u s with
  | Ok (inr a, u, s) => k a u s
  | Ok (inl e, u, s) => Ok (inl e, u, s)
  | Panic msg => Panic msg
  | NoFuel => NoFuel
  end.
Definition ulift {A : Type} (m : FM T A) : UM T A := λ u s,
  match m s with Ok (a, s) => Ok (inr a, u, s) | Panic msg => Panic msg | NoFuel => NoFuel end.
Definition uheader : UM T InHeader := λ u s, Ok (inr u, u, s).
Definition setNodeId (ino : Z) : UM T unit := λ u s, Ok (inr tt, mkInHeader ino (ctx u), s).

(** [err = s2e(code)], and a return when it is not nil. *)
Definition s2e (c : Status) : UM T unit := if is_OK c then uret tt else ufail (EStatus c).
End monad.
Notation "'let?' x ':=' m 'in' k" := (ubind m (fun x => k))
  (at level 10, x pattern, m at level 100, k at level 200) : go_scope.

(** ** File information *)

Record fileInfo : Type := mkFileInfo { fi_name : string; fi_size : Z; fi_mode : Z; fi_mtime : Z }.

Definition ModeDir : Z := 2147483648.
Definition ModeSymlink : Z := 134217728.
Definition ModeNamedPipe : Z := 33554432.
Definition ModePerm : Z := 511.
Definition S_IFIFO : Z := 4096.

(** The closure [translate] on the variables it changes, mode and r. *)
Definition translate (mask bits : Z) (x : Z * Z) : Z * Z :=
  let '(mode, r) := x in
  if negb (Z.land mode mask =? 0)%Z then (clear mode mask, Z.lor r bits) else (mode, r).
Definition fileModeFromFuse (mode : Z) : Z :=
  let x := translate ModePerm (Z.land mode ModePerm) (mode, 0%Z) in
  let x := translate S_IFDIR ModeDir x in
  let x := translate S_IFLNK ModeSymlink x in
  (translate S_IFIFO ModeNamedPipe x).2.
Definition fi_IsDir (fi : fileInfo) : bool := negb (Z.land (fi_mode fi) ModeDir =? 0)%Z.

Section code.
Context {T : Type} `{FsEnv} `{TxStore T} `{!TxRange T}.
Abbreviation M := (FM T).
Abbreviation U := (UM T).

(** A handler that fills an entry. *)
Definition entry (m : M (option EntryOut * Status)) : U EntryOut :=
  let? r := ulift m in
  let? _ := s2e r.2 in
  ulift (fnonnil r.1).

(** ** Paths *)

Fixpoint lookup_loop (names : list string) (inode : Z) (eo : option EntryOut) : U (Z * option EntryOut) :=
  match names with
  | [] => uret (inode, eo)
  | name :: names' =>
      if keqb name "" then lookup_loop names' inode eo
      else
        let? _ := setNodeId inode in
        let? u := uheader in
        let? eo := entry (Lookup u name) in
        let inode := a_Ino (eo_Attr eo) in
        let? _ := ulift (ops_Forget inode 1) in
        lookup_loop names' inode (Some eo)
  end.
Definition u_lookup (path : string) : U EntryOut :=
  let? r := lookup_loop (str_split "/" path) FUSE_ROOT_ID None in
  let '(inode, eo) := (r : Z * option EntryOut) in
  let? _ := setNodeId inode in
  if (inode =? FUSE_ROOT_ID)%Z then
    let? u := uheader in
    let? r := ulift (Lookup u ".") in
    let? _ := ulift (ops_Forget inode 1) in
    let? _ := s2e r.2 in
    ulift (fnonnil r.1)
  else ulift (fnonnil eo).

(** ** Calls on paths *)

Definition u_Mkdir (fuel : nat) (path : string) (perm : Z) : U unit :=
  let '(dirname, basename) := path_Split path in
  let? _ := u_lookup dirname in
  let? u := uheader in
  let? r := ulift (Mkdir fuel u (wrapu32 perm) 0 basename) in
  s2e r.2.

Definition u_Stat (path : string) : U fileInfo :=
  let? eo := u_lookup path in
  let? u := uheader in
  let? r := ulift (GetAttr (NodeId u)) in
  let? _ := s2e r.2 in
  let a := eo_Attr eo in
  uret (mkFileInfo (path_Split path).2 (to_int64 (a_Size a)) (fileModeFromFuse (a_Mode a)) (a_Mtime a * 1000000000 + a_Mtimensec a)%Z).

Definition u_Remove (path : string) : U unit :=
  let? fi := u_Stat path in
  let '(dirname, basename) := path_Split path in
  let? _ := u_lookup dirname in
  let? u := uheader in
  let? code := ulift (if fi_IsDir fi then Rmdir u basename else Unlink u basename) in
  s2e code.

(** [SetAttr] with the fields that are set. *)
Definition set_attr (valid mode uid gid atime mtime : Z) : U unit :=
  let? u := uheader in
  let? r := ulift (SetAttr (mkSetAttrIn (NodeId u) (ctx u) valid 0 mode uid gid atime mtime 0)) in
  s2e r.2.
Definition u_Chown (path : string) (uid gid : Z) : U unit :=
  let? _ := u_lookup path in set_attr (FATTR_UID + FATTR_GID) 0 (wrapu32 uid) (wrapu32 gid) 0 0.
Definition u_Chmod (path : string) (mode : Z) : U unit :=
  let? _ := u_lookup path in set_attr FATTR_MODE (wrapu32 mode) 0 0 0 0.
(** Times are in nanoseconds. *)
Definition u_Chtimes (path : string) (atime mtime : Z) : U unit :=
  let? _ := u_lookup path in set_attr (FATTR_ATIME + FATTR_MTIME) 0 0 0 (wrap64 atime) (wrap64 mtime).

Definition u_Link (oldpath newpath : string) : U unit :=
  let? _ := u_lookup oldpath in
  let? u := uheader in
  let oldnodeid := NodeId u in
  let '(dirname, basename) := path_Split newpath in
  let? _ := u_lookup dirname in
  let? u := uheader in
  let? r := ulift (Link u oldnodeid basename) in
  s2e r.2.

Definition u_Rename (oldpath newpath : string) : U unit :=
  let '(olddirname, oldbasename) := path_Split oldpath in
  let '(newdirname, newbasename) := path_Split newpath in
  let? _ := u_lookup newdirname in
  let? u := uheader in
  let newdir := NodeId u in
  let? _ := u_lookup olddirname in
  let? u := uheader in
  let? code := ulift (Rename u newdir oldbasename newbasename) in
  s2e code.

Definition u_Symlink (fuel : nat) (oldpath newpath : string) : U unit :=
  let '(dirname, basename) := path_Split newpath in
  let? _ := u_lookup dirname in
  let? u := uheader in
  let? r := ulift (Symlink fuel u (String.list_ascii_of_string oldpath) basename) in
  s2e r.2.

Definition u_Readlink (path : string) : U string :=
  let? _ := u_lookup path in
  let? u := uheader in
  let? r := ulift (Readlink u) in
  let? _ := s2e r.2 in
  uret (String.string_of_list_ascii (default [] r.1)).

Definition u_GetXAttr (path attr : string) : U string :=
  let? _ := u_lookup path in
  let? u := uheader in
  let? r := ulift (GetXAttrData u attr) in
  let? _ := s2e r.2 in
  let? l := ulift (GetXAttrSize u attr) in
  let? _ := s2e l.2 in
  let b := default "" r.1 in
  if negb (l.1 =? Z.of_nat (String.length b))%Z then ulift (fpanic "length mismatch in GetXAttrSize")
  else uret b.

(** Every name has a zero byte behind it, so the last piece is dropped. *)
Definition u_ListXAttr (fuel : nat) (path : string) : U (list string) :=
  let? _ := u_lookup path in
  let? u := uheader in
  let? r := ulift (ListXAttr fuel u) in
  let? _ := s2e r.2 in
  uret (removelast (str_split zero r.1)).

Definition u_RemoveXAttr (path attr : string) : U unit :=
  let? _ := u_lookup path in
  let? u := uheader in
  let? code := ulift (ops_RemoveXAttr u attr) in
  s2e code.
Definition u_SetXAttr (path attr data : string) : U unit :=
  let? _ := u_lookup path in
  let? u := uheader in
  let? code := ulift (ops_SetXAttr u attr data) in
  s2e code.

(** ** Open files *)

Record fsFile : Type := mkFsFile { f_path : string; f_fh : Z; f_pos : Z }.
Definition O_CREATE : Z := 64.

Definition u_OpenFile (fuel : nat) (path : string) (flag perm : Z) : U fsFile :=
  if has flag O_CREATE then
    let '(dirname, basename) := path_Split path in
    let? _ := u_lookup dirname in
    let? u := uheader in
    let? r := ulift (Create fuel u flag perm basename) in
    let? _ := s2e r.2 in
    let? co := ulift (fnonnil r.1) in
    uret (mkFsFile path co.2 0)
  else
    let? _ := u_lookup path in
    let? u := uheader in
    let? r := ulift (Open u flag) in
    let? _ := s2e r.2 in
    uret (mkFsFile path r.1 0).

Definition f_Close (f : fsFile) : U unit := ulift (ops_Release (f_fh f)).

(** A position is an int64. *)
Definition f_Seek (ofs whence : Z) (f : fsFile) : U (Z * fsFile) :=
  let? fi := u_Stat (f_path f) in
  let ret := ofs in
  let ret := if (whence =? 1)%Z then to_int64 (wrap64 (ret + f_pos f)) else ret in
  let ret := if (whence =? 2)%Z then to_int64 (wrap64 (ret + fi_size fi)) else ret in
  if (ret <? 0)%Z then ufail (EMessage "seek before start")
  else uret (ret, mkFsFile (f_path f) (f_fh f) ret).

(** The bytes that were read; their number is [n]. *)
Definition f_Read (b : bytes) (f : fsFile) : U (bytes * fsFile) :=
  let? r := ulift (ops_Read (f_fh f) b (wrap64 (f_pos f))) in
  let? _ := s2e r.2 in
  uret (r.1, mkFsFile (f_path f) (f_fh f) (to_int64 (wrap64 (f_pos f + blen r.1)))).

Definition f_Write (b : bytes) (f : fsFile) : U (Z * fsFile) :=
  let size := wrapu32 (blen b) in
  let? r := ulift (ops_Write (f_fh f) b (wrap64 (f_pos f))) in
  let? _ := s2e r.2 in
  if negb (wrapu32 r.1 =? size)%Z then ulift (fpanic "Partial write")
  else uret (blen b, mkFsFile (f_path f) (f_fh f) (to_int64 (wrap64 (f_pos f + size)))).

(** ** Directories *)

(** The loop of [Fs.ListDir]: the names, and the inodes to release at the end. *)
Fixpoint ListDir_loop (fuel : nat) (file : inodeFH) (ret : list string) (inodes : list Z) : M (list string * list Z) :=
  match fuel with
  | O => fstuck
  | S fuel' =>
      r ← ReadNextinode fuel file;
      let '(file, x) := (r : inodeFH * option (Z * BlockKey)) in
      match x with
      | None => mret (ret, inodes)
      | Some (i, key) =>
          let file := fh_at file (wrap64 (pos file + 1)) (Some key) in
          _ ← fh_store file;
          name ← flift (Filename key);
          ListDir_loop fuel' file (ret ++ [name]) (i :: inodes)
      end
  end.
Fixpoint release_all (inodes : list Z) : M unit :=
  match inodes with [] => mret tt | i :: inodes' => _ ← Release (Some i); release_all inodes' end.
Definition fs_ListDir (fuel : nat) (ino : Z) : M (list string) :=
  i ← GetInode ino;
  n ← fnonnil i;
  file ← GetFile n 0;
  r ← ListDir_loop fuel file [] [];
  let '(ret, inodes) := (r : list string * list Z) in
  _ ← release_all inodes;
  _ ← RemoveFile file;
  _ ← Release i;
  mret ret.

Context {L : Type} `{!DirEntryList L} (NewDirEntryList : Z → L).
(** Reads the directory until the position of the file stays; [read] is one of the two handlers. *)
Fixpoint readdir_loop (fuel : nat) (read : Z → L → M L) (fhn lofs : Z) : U Z :=
  match fuel with
  | O => ulift fstuck
  | S fuel' =>
      let? _ := ulift (read lofs (NewDirEntryList lofs)) in
      let? o := ulift (GetFileByFh fhn) in
      let? ifile := ulift (fnonnil o) in
      if (lofs <? pos ifile)%Z then readdir_loop fuel' read fhn (pos ifile) else uret lofs
  end.
(** What is read has as many entries as [ret], and the entries were searched [count] times so far. *)
Definition check_dir (fuel : nat) (read : Z → L → M L) (fhn : Z) (ret : list string) (count : Z) : U unit :=
  let? lofs := readdir_loop fuel read fhn 0 in
  let? _ := if (to_int64 lofs =? Z.of_nat (length ret))%Z then uret tt else ufail (EMessage "wrong final pos") in
  let? o := ulift (GetFileByFh fhn) in
  let? ifile := ulift (fnonnil o) in
  if negb (readNextInodeBruteForceCount ifile =? count)%Z then ulift (fpanic "wrong bruteforcecount") else uret tt.

Definition u_ListDir (fuel : nat) (name : string) : U (list string) :=
  let? eo := u_lookup name in
  let? ret := ulift (fs_ListDir fuel (a_Ino (eo_Attr eo))) in
  let? u := uheader in
  let? r := ulift (OpenDir u) in
  let? _ := s2e r.2 in
  let fhn := r.1 in
  let? _ := check_dir fuel (ReadDir fuel fhn) fhn ret 1 in
  let? _ := check_dir fuel (ops_ReadDirPlus fuel fhn) fhn ret 2 in
  let? _ := ulift (ops_Release fhn) in
  uret ret.

Fixpoint stat_all (dirname : string) (l : list string) : U (list fileInfo) :=
  match l with
  | [] => uret []
  | n :: l' =>
      let? fi := u_Stat (dirname +:+ "/" +:+ n) in
      let? rest := stat_all dirname l' in
      uret (fi :: rest)
  end.
Definition u_ReadDir (fuel : nat) (dirname : string) : U (list fileInfo) :=
  let? l := u_ListDir fuel dirname in
  stat_all dirname l.
End code.

(** ** Modes *)

(** The type of a regular file shares a bit with that of a symbolic link, and that of a block device one with that
    of a directory: the information about the first says symbolic link, about the second directory. *)
Theorem regular_file_is_symlink :
  Z.land (fileModeFromFuse (S_IFREG + 420)) ModeSymlink = ModeSymlink ∧ fi_IsDir (mkFileInfo "" 0 (fileModeFromFuse 24576) 0) = true.
Proof. by vm_compute. Qed.
