(* ===== verification/UserProps.v ===== *)
(** * Paths and open files of a user

    [tidy]: the inodes in memory are in use, and what they cache is what the tree holds.  Looking up a path then gives
    what walking the directories of the abstract file system gives, and open files read, write and seek as a sequence
    of bytes with a position does. *)
From stdpp Require Import base list sets strings sorting gmap.
From Stdlib Require Import ZArith Lia Ascii.
From S2P Require Import Prelude OrderedMap Util BlockKey TreeBackend TreeStore FsState Inode FileIO FileRep FileRead FileWrite FsOps DirRep Directory Paths FsUser.

Open Scope Z_scope.

Section user.
Context {T : Type} `{FsEnvOk} `{TxStoreOk T} `{!TxRange T} `{!TxRangeOk T}.
Abbreviation F := (Fs T).

(** ** Inodes in memory *)

Definition refs (X : gmap Z inode) (ino : Z) : Z := default 0 (refcnt <$> X !! ino).
Definition tidy (m : smap) (X : gmap Z inode) : Prop :=
  ∀ ino i, X !! ino = Some i → in_uint64 ino ∧ 0 < refcnt i ∧ removed i = false ∧ ∀ a, i_meta i = Some a → tree_meta m ino a.

Lemma refs_Some X ino i : X !! ino = Some i → refs X ino = refcnt i.
Proof. unfold refs. by intros ->. Qed.
Lemma refs_insert X ino i j : refs (<[ino := i]> X) j = if decide (j = ino) then refcnt i else refs X j.
Proof. unfold refs. destruct (decide (j = ino)) as [->|]; [by rewrite lookup_insert_eq|by rewrite lookup_insert_ne]. Qed.
Lemma refs_delete X ino j : refs (delete ino X) j = if decide (j = ino) then 0 else refs X j.
Proof. unfold refs. destruct (decide (j = ino)) as [->|]; [by rewrite lookup_delete_eq|by rewrite lookup_delete_ne]. Qed.
Lemma refs_pos m X ino : tidy m X → 0 < refs X ino → ∃ i, X !! ino = Some i ∧ refs X ino = refcnt i.
Proof. intros _. unfold refs. destruct (X !! ino) as [i|]; [|done]. eauto. Qed.
Lemma refs_nonneg m X ino : tidy m X → 0 ≤ refs X ino.
Proof. intros Ht. unfold refs. destruct (X !! ino) as [i|] eqn:E; [|done]. cbn. destruct (Ht _ _ E) as (_ & ? & _). lia. Qed.

Lemma tidy_insert m X ino i :
  tidy m X → in_uint64 ino → 0 < refcnt i → removed i = false → (∀ a, i_meta i = Some a → tree_meta m ino a) → tidy m (<[ino := i]> X).
Proof. intros Ht Q0 Q1 Q2 Q3 j x [[<- <-]|[_ Hx]]%lookup_insert_Some; [done|by apply Ht]. Qed.
Lemma tidy_delete m X ino : tidy m X → tidy m (delete ino X).
Proof. intros Ht j x [_ Hx]%lookup_delete_Some. by apply Ht. Qed.

(** One more or fewer. *)
Abbreviation plus X d ino := (λ j, refs X j + if decide (j = ino) then d else 0).

Context (m : smap) (s : F).
Hypothesis Htree : tx_rep (root s) m.
(** The state with other inodes in memory. *)
Definition st (X : gmap Z inode) : F := set_ino2inode X s.

Lemma Meta_tidy X ino meta :
  tidy m X → 0 < refs X ino → tree_meta m ino meta →
  ∃ a X', Meta ino (st X) = Ok (Some a, st X') ∧ tidy m X' ∧ same_meta a meta ∧ ∀ j, refs X' j = refs X j.
Proof.
  intros HX Hr Hm. destruct (refs_pos _ _ _ HX Hr) as (i & Hi & Ei). destruct (HX _ _ Hi) as (Q0 & Q1 & Q2 & Q3).
  unfold Meta. rewrite (FM_bind_ok _ _ _ _ _ (i_load_ok (st X) ino i Hi)). destruct (i_meta i) as [a|] eqn:Ea.
  - exists a, X. split_and!; try done. by eapply tree_meta_same; [apply Q3|].
  - destruct Hm as (v & a & Hv & Ha & Hs). rewrite (FM_bind_ok _ _ _ _ _ (getMeta_ok (st X) m ino v a Htree Hv Ha)).
    rewrite (FM_bind_ok _ _ _ _ _ (i_upd_ok (st X) ino _ i Hi)). cbn [refcnt removed].
    eexists a, _. split_and!; [done|apply tidy_insert; cbn; try done|done|].
    + intros b [= <-]. exists v, a. by split_and!.
    + intros j. rewrite refs_insert. destruct (decide _) as [->|]; [by rewrite Ei|done].
Qed.
Lemma Meta_none X ino : 0 < refs X ino → tidy m X → m !! mkey ino = None → Meta ino (st X) = Ok (None, st X).
Proof.
  intros Hr HX Hm. destruct (refs_pos _ _ _ HX Hr) as (i & Hi & Ei). destruct (HX _ _ Hi) as (Q0 & Q1 & Q2 & Q3).
  unfold Meta. rewrite (FM_bind_ok _ _ _ _ _ (i_load_ok (st X) ino i Hi)). destruct (i_meta i) as [a|] eqn:Ea.
  - destruct (Q3 a eq_refl) as (v & ? & Hv & _). congruence.
  - unfold getMeta. fold (mkey ino). rewrite (FM_bind_ok _ _ (st X) None (st X)); [done|].
    rewrite (FM_bind_ok _ _ (st X) (root s) (st X)) by done. rewrite (FM_bind_ok _ _ _ _ _ (ib_Get_ok (mkey ino) _ m (st X) Htree)). by rewrite Hm.
Qed.

Lemma addRefCount_tidy X ino d :
  tidy m X → 0 < refs X ino → 0 ≤ refs X ino + d →
  ∃ X', addRefCount ino d (st X) = Ok (tt, st X') ∧ tidy m X' ∧ ∀ j, refs X' j = plus X d ino j.
Proof.
  intros HX Hr Hd. destruct (refs_pos _ _ _ HX Hr) as (i & Hi & Ei). destruct (HX _ _ Hi) as (Q0 & Q1 & Q2 & Q3).
  unfold addRefCount. rewrite (FM_bind_ok _ _ _ _ _ (i_upd_ok (st X) ino _ i Hi)).
  set (i' := mkInode (refcnt i + d) (removed i) (i_meta i)). set (X1 := <[ino := i']> X).
  assert (X1 !! ino = Some i') as Hi' by (unfold X1; apply lookup_insert_eq).
  change (set_ino2inode (<[ino := i']> (ino2inode (st X))) (st X)) with (st X1).
  rewrite (FM_bind_ok _ _ _ _ _ (i_load_ok (st X1) ino i' Hi')). cbn [refcnt removed i'].
  destruct (Z.ltb_spec 0 (refcnt i + d)).
  - exists X1. split_and!; [done|apply tidy_insert; cbn; [done|done|lia|done|done]|].
    intros j. unfold X1. rewrite refs_insert. destruct (decide (j = ino)) as [->|]; cbn; lia.
  - destruct (Z.eqb_spec (refcnt i + d) 0); [|lia]. rewrite (FM_bind_ok _ _ (st X1) tt (st (delete ino X1))) by done. rewrite Q2.
    exists (delete ino X1). split_and!; [done|unfold X1; rewrite delete_insert_eq; by apply tidy_delete|].
    + intros j. rewrite refs_delete. unfold X1. rewrite refs_insert. destruct (decide (j = ino)) as [->|]; lia.
Qed.

Lemma GetInode_tidy X ino meta :
  tidy m X → in_uint64 ino → tree_meta m ino meta →
  ∃ X', GetInode ino (st X) = Ok (Some ino, st X') ∧ tidy m X' ∧ ∀ j, refs X' j = plus X 1 ino j.
Proof.
  intros HX Ii Hm. unfold GetInode.
  set (i := default (mkInode 0 false None) (X !! ino)). set (X1 := <[ino := mkInode (refcnt i + 1) (removed i) (i_meta i)]> X).
  rewrite (FM_bind_ok _ _ (st X) ino (st X1)) by done.
  assert (refcnt i = refs X ino ∧ removed i = false ∧ ∀ a, i_meta i = Some a → tree_meta m ino a) as (Ei & Hr & Hma).
  { unfold i, refs. destruct (X !! ino) as [x|] eqn:E; cbn; [|done]. by destruct (HX _ _ E) as (_ & _ & ? & ?). }
  pose proof (refs_nonneg m X ino HX). assert (tidy m X1) as HX1 by (apply tidy_insert; cbn; [done|done|lia|done|done]).
  assert (∀ j, refs X1 j = plus X 1 ino j) as HR1.
  { intros j. unfold X1. rewrite refs_insert. destruct (decide (j = ino)) as [->|]; cbn; lia. }
  destruct (Meta_tidy X1 ino meta HX1) as (a & X2 & E2 & HX2 & _ & HR2); [rewrite HR1, decide_True by done; lia|done|].
  rewrite (FM_bind_ok _ _ _ _ _ E2). exists X2. split_and!; [done..|]. intros j. by rewrite HR2, HR1.
Qed.

Lemma Release_tidy X ino :
  tidy m X → 0 < refs X ino → ∃ X', Release (Some ino) (st X) = Ok (tt, st X') ∧ tidy m X' ∧ ∀ j, refs X' j = plus X (-1) ino j.
Proof. intros HX Hr. apply addRefCount_tidy; [done|done|lia]. Qed.
Lemma Forget_tidy X ino meta :
  tidy m X → in_uint64 ino → tree_meta m ino meta → ∃ X', ops_Forget ino 1 (st X) = Ok (tt, st X') ∧ tidy m X' ∧ ∀ j, refs X' j = refs X j.
Proof.
  intros HX Ii Hm. unfold ops_Forget. destruct (GetInode_tidy X ino meta HX Ii Hm) as (X1 & E1 & HX1 & HR1).
  rewrite (FM_bind_ok _ _ _ _ _ E1). pose proof (refs_nonneg m X ino HX). pose proof (HR1 ino) as Hi. rewrite decide_True in Hi by done.
  destruct (addRefCount_tidy X1 ino (-1)) as (X2 & E2 & HX2 & HR2); [done|lia|lia|].
  exists X2. split_and!; [exact E2|done|]. intros j. rewrite HR2, HR1. destruct (decide (j = ino)); lia.
Qed.

(** ** Lookup *)

Definition attr_of (ino : Z) (d : InodeMetaData) : Attr :=
  let a := unixNanoToFuse (StAtimeNs d) in
  let c := unixNanoToFuse (StCtimeNs d) in
  let t := unixNanoToFuse (StMtimeNs d) in
  mkAttr ino (StSize d) (StSize d / blockSize) a.1 a.2 c.1 c.2 t.1 t.2 (StMode d) (StNlink d) (StUid d) (StGid d) (StRdev d).
Definition entry_of_meta (ino : Z) (meta : InodeMeta) : EntryOut := mkEntryOut ino 0 entryValidity attrValidity (attr_of ino meta).

(** The directories of the tree. *)
Definition dir_of (ino : Z) : bool := match kind_of m ino with Some (mode, _, _, _) => IsDir_mode mode | None => false end.
Lemma dir_of_meta ino meta : tree_meta m ino meta → dir_of ino = IsDir_mode (StMode meta).
Proof. intros E%tree_kind. unfold dir_of. by rewrite E. Qed.

Lemma FillAttr_tidy X ino meta :
  tidy m X → 0 < refs X ino → tree_meta m ino meta →
  ∃ X', FillAttr ino (st X) = Ok ((attr_of ino meta, OK), st X') ∧ tidy m X' ∧ ∀ j, refs X' j = refs X j.
Proof.
  intros HX Hr Hm. destruct (Meta_tidy X ino meta HX Hr Hm) as (a & X1 & E1 & HX1 & [Es _] & HR1).
  unfold FillAttr. rewrite (FM_bind_ok _ _ _ _ _ E1). exists X1. split_and!; [|done..]. unfold attr_of. by rewrite <- Es.
Qed.
Lemma FillEntryOut_tidy X ino meta :
  tidy m X → 0 < refs X ino → tree_meta m ino meta →
  ∃ X', FillEntryOut ino true (st X) = Ok ((Some (entry_of_meta ino meta), OK), st X') ∧ tidy m X' ∧ ∀ j, refs X' j = plus X 1 ino j.
Proof.
  intros HX Hr Hm. unfold FillEntryOut. cbn [negb]. destruct (addRefCount_tidy X ino 1) as (X1 & E1 & HX1 & HR1); [done|done|lia|].
  unfold Refer. rewrite (FM_bind_ok _ _ _ _ _ E1). destruct (FillAttr_tidy X1 ino meta HX1) as (X2 & E2 & HX2 & HR2); [rewrite HR1, decide_True by done; lia|done|].
  rewrite (FM_bind_ok _ _ _ _ _ E2). exists X2. split_and!; [done..|]. intros j. by rewrite HR2, HR1.
Qed.

Context (D : entries).
Hypothesis HD : dir_ok m D.

Lemma GetChildByName_tidy X p name :
  tidy m X → in_uint64 p →
  ∃ X', GetChildByName p name (st X) = Ok (D !! (p, name), st X') ∧ tidy m X' ∧
    ∀ j, refs X' j = refs X j + if decide (D !! (p, name) = Some j) then 1 else 0.
Proof.
  intros HX Ip. unfold GetChildByName. rewrite (FM_bind_ok _ _ (st X) (root s) (st X)) by done.
  rewrite (FM_bind_ok _ _ _ _ _ (ib_Get_ok (dkey p name) _ m (st X) Htree)), (d_fwd _ _ HD) by done.
  destruct (D !! (p, name)) as [c|] eqn:Ec; cbn [fmap option_fmap option_map].
  - destruct (d_range _ _ HD _ _ _ Ec) as [_ Ic]. destruct (d_meta _ _ HD _ _ _ Ec) as [cmeta Hc].
    rewrite (FM_bind_ok _ _ (st X) c (st X)).
    2: { unfold flift, Uint64Bytes. rewrite <- (str_app_nil (be_bytes 8 c)), be_read_bytes by (by rewrite width_8). done. }
    destruct (GetInode_tidy X c cmeta HX Ic Hc) as (X1 & E1 & HX1 & HR1). exists X1. split_and!; [exact E1|done|].
    intros j. rewrite HR1. destruct (decide (j = c)) as [->|]; [by rewrite decide_True|]. rewrite decide_False by congruence. done.
  - exists X. split_and!; [done..|]. intros j. rewrite decide_False by done. lia.
Qed.

(** One step of a path. *)
Definition step1 (p : Z) (name : string) : Status + Z :=
  if negb (dir_of p) then inl ENOTDIR
  else if keqb name "." then inr p
  else match D !! (p, name) with Some c => inr c | None => inl ENOENT end.

Lemma lookup_tidy X p name c pmeta :
  tidy m X → in_uint64 p → 0 < refs X p → tree_meta m p pmeta →
  ∃ X', lookup_ (Some p) name c (st X) = Ok (match step1 p name with inl code => (None, code) | inr x => (Some x, OK) end, st X') ∧ tidy m X' ∧
    ∀ j, refs X' j = refs X j + if decide (step1 p name = inr j ∧ name ≠ "."%string) then 1 else 0.
Proof.
  intros HX Ip Hr Hp. unfold lookup_, access, inode_IsDir.
  destruct (Meta_tidy X p pmeta HX Hr Hp) as (a & X1 & E1 & HX1 & _ & HR1).
  rewrite (FM_bind_ok _ _ (st X) OK (st X1)) by (by rewrite (FM_bind_ok _ _ _ _ _ E1)). cbn [is_OK negb].
  destruct (Meta_tidy X1 p pmeta HX1) as (a2 & X2 & E2 & HX2 & [Es _] & HR2); [by rewrite HR1|done|].
  rewrite (FM_bind_ok _ _ (st X1) (dir_of p) (st X2)).
  2: { rewrite (FM_bind_ok _ _ _ _ _ E2). unfold mret, FM_ret. by rewrite (dir_of_meta _ _ Hp), <- Es. }
  unfold step1. destruct (dir_of p) eqn:Ed; cbn [negb].
  - destruct (keqb name ".") eqn:En.
    + apply keqb_eq in En. exists X2. split_and!; [done|done|]. intros j. rewrite HR2, HR1, decide_False by naive_solver. lia.
    + apply keqb_neq in En. destruct (GetChildByName_tidy X2 p name HX2 Ip) as (X3 & E3 & HX3 & HR3).
      rewrite (FM_bind_ok _ _ _ _ _ E3). exists X3. split_and!; [by destruct (D !! (p, name))|done|].
      intros j. rewrite HR3, HR2, HR1. destruct (D !! (p, name)) as [x|] eqn:Ex.
      * destruct (decide (Some x = Some j)) as [[= ->]|Hn]; [by rewrite decide_True|rewrite decide_False; [done|naive_solver]].
      * rewrite !decide_False; [done|naive_solver|naive_solver].
  - exists X2. split_and!; [done|done|]. intros j. rewrite HR2, HR1, decide_False by naive_solver. lia.
Qed.

Lemma step1_ok p name x pmeta : in_uint64 p → tree_meta m p pmeta → step1 p name = inr x → in_uint64 x ∧ ∃ meta, tree_meta m x meta.
Proof.
  intros Ip Hp. unfold step1. destruct (dir_of p); [|done]. cbn [negb]. destruct (keqb name "."); [intros [= <-]; eauto|].
  destruct (D !! (p, name)) as [c|] eqn:Ec; [|done]. intros [= <-]. split; [by eapply HD|]. by eapply d_meta.
Qed.

Lemma Lookup_tidy X u name pmeta :
  tidy m X → in_uint64 (NodeId u) → tree_meta m (NodeId u) pmeta →
  ∃ X', tidy m X' ∧ (∀ j, refs X j ≤ refs X' j) ∧
    match step1 (NodeId u) name with
    | inl code => Lookup u name (st X) = Ok ((None, code), st X')
    | inr x => ∀ meta, tree_meta m x meta → Lookup u name (st X) = Ok ((Some (entry_of_meta x meta), OK), st X')
    end.
Proof.
  intros HX Ip Hp. set (p := NodeId u) in *. unfold Lookup. fold p.
  destruct (GetInode_tidy X p pmeta HX Ip Hp) as (X1 & E1 & HX1 & HR1). rewrite (FM_bind_ok _ _ _ _ _ E1).
  pose proof (refs_nonneg m X p HX) as Hpos. pose proof (HR1 p) as Hp1. rewrite decide_True in Hp1 by done.
  destruct (lookup_tidy X1 p name (ctx u) pmeta HX1 Ip) as (X2 & E2 & HX2 & HR2); [lia|done|]. rewrite (FM_bind_ok _ _ _ _ _ E2).
  destruct (step1 p name) as [code|x] eqn:Est; cbn beta iota.
  - assert (is_OK code = false) as -> by (unfold step1 in Est; destruct (dir_of p), (keqb name "."), (D !! (p, name)); cbn in Est; congruence || by injection Est as <-).
    rewrite (FM_bind_ok _ _ (st X2) (None, code) (st X2)) by done. rewrite (FM_bind_ok _ _ (st X2) tt (st X2)) by done.
    destruct (Release_tidy X2 p HX2) as (X3 & E3 & HX3 & HR3); [rewrite HR2, decide_False by naive_solver; lia|].
    rewrite (FM_bind_ok _ _ _ _ _ E3). exists X3. split_and!; [done| |done].
    intros j. rewrite HR3, HR2, HR1, (decide_False (P := inl code = inr j ∧ _)) by naive_solver. destruct (decide (j = p)); lia.
  - destruct (step1_ok p name x pmeta Ip Hp Est) as (Ix & meta & Hx). cbn [is_OK].
    assert (name = "."%string → x = p) as Hdot. { intros ->. unfold step1 in Est. destruct (dir_of p); cbn in Est; congruence. }
    assert (0 < refs X2 x) as Hx2.
    { rewrite HR2, HR1. pose proof (refs_nonneg m X x HX). destruct (decide (name = "."%string)) as [Hn|Hn].
      - rewrite (Hdot Hn). rewrite !decide_True by done. destruct (decide _); lia.
      - rewrite (decide_True (P := inr x = inr x ∧ _)) by done. destruct (decide _); lia. }
    destruct (FillEntryOut_tidy X2 x meta HX2 Hx2 Hx) as (X3 & E3 & HX3 & HR3).
    rewrite (FM_bind_ok _ _ (st X2) (Some (entry_of_meta x meta), OK) (st X3)).
    2: { by rewrite (FM_bind_ok _ _ (st X2) x (st X2)). }
    destruct (Release_tidy X3 x HX3) as (X4 & E4 & HX4 & HR4); [rewrite HR3, decide_True by done; lia|]. rewrite (FM_bind_ok _ _ _ _ _ E4).
    assert (∀ j, refs X4 j = refs X2 j) as HR42. { intros j. rewrite HR4, HR3. destruct (decide (j = x)); lia. }
    destruct (Release_tidy X4 p HX4) as (X5 & E5 & HX5 & HR5); [rewrite HR42, HR2; destruct (decide _); lia|]. rewrite (FM_bind_ok _ _ _ _ _ E5).
    exists X5. split_and!; [done| |].
    + intros j. rewrite HR5, HR42, HR2, HR1. destruct (decide (j = p)), (decide (inr x = inr j ∧ _)); lia.
    + intros meta' Hm'. assert (entry_of_meta x meta' = entry_of_meta x meta) as ->; [|done].
      unfold entry_of_meta. by destruct (tree_meta_same _ _ _ _ Hm' Hx) as [-> _].
Qed.

(** ** Paths *)

Fixpoint walk (names : list string) (p : Z) : Status + Z :=
  match names with
  | [] => inr p
  | n :: names' => if keqb n "" then walk names' p else match step1 p n with inl code => inl code | inr x => walk names' x end
  end.

Lemma ulift_ok {A B} (c : FM T A) (k : A → UM T B) (u : InHeader) (s1 s2 : F) a :
  c s1 = Ok (a, s2) → ubind (ulift c) k u s1 = k a u s2.
Proof. intros E. unfold ubind, ulift. by rewrite E. Qed.
Lemma entry_ok {B} (c : FM T (option EntryOut * Status)) (k : EntryOut → UM T B) u s1 s2 e :
  c s1 = Ok ((Some e, OK), s2) → ubind (entry c) k u s1 = k e u s2.
Proof. intros E. unfold ubind, entry, ulift. cbn. unfold ubind at 1. by rewrite E. Qed.
Lemma entry_fails {B} (c : FM T (option EntryOut * Status)) (k : EntryOut → UM T B) u s1 s2 code :
  c s1 = Ok ((None, code), s2) → is_OK code = false → ubind (entry c) k u s1 = Ok (inl (EStatus code), u, s2).
Proof. intros E Hc. unfold ubind, entry, ulift. cbn. unfold ubind at 1. rewrite E. cbn. unfold ubind, s2e. by rewrite Hc. Qed.
Lemma step1_code p name code : step1 p name = inl code → is_OK code = false.
Proof. unfold step1. destruct (dir_of p), (keqb name "."), (D !! (p, name)); cbn; intros; by simplify_eq. Qed.

Lemma entry_same x a b : tree_meta m x a → tree_meta m x b → entry_of_meta x a = entry_of_meta x b.
Proof. intros Ha Hb. unfold entry_of_meta. by destruct (tree_meta_same _ _ _ _ Ha Hb) as [-> _]. Qed.

Lemma lookup_loop_step n names p eo u s1 s2 s3 e :
  keqb n "" = false → Lookup (mkInHeader p (ctx u)) n s1 = Ok ((Some e, OK), s2) → ops_Forget (a_Ino (eo_Attr e)) 1 s2 = Ok (tt, s3) →
  lookup_loop (n :: names) p eo u s1 = lookup_loop names (a_Ino (eo_Attr e)) (Some e) (mkInHeader p (ctx u)) s3.
Proof.
  intros En E1 E2. cbn [lookup_loop]. rewrite En. unfold ubind at 1, setNodeId. cbn beta iota. unfold ubind at 1, uheader. cbn beta iota.
  rewrite (entry_ok _ _ _ _ _ _ E1). cbv zeta. by rewrite (ulift_ok _ _ _ _ _ _ E2).
Qed.
Lemma lookup_loop_skip n names p eo : keqb n "" = true → lookup_loop (n :: names) p eo = lookup_loop names p eo.
Proof. intros En. cbn [lookup_loop]. by rewrite En. Qed.
Lemma lookup_loop_ok names p eo X u pmeta :
  tidy m X → in_uint64 p → tree_meta m p pmeta →
  ∃ X' u', tidy m X' ∧ ctx u' = ctx u ∧ (∀ j, refs X j ≤ refs X' j) ∧
    match walk names p with
    | inl code => lookup_loop names p eo u (st X) = Ok (inl (EStatus code), u', st X')
    | inr x => ∃ eo' meta, lookup_loop names p eo u (st X) = Ok (inr (x, eo'), u', st X') ∧ in_uint64 x ∧ tree_meta m x meta ∧
        (x = p ∧ eo' = eo ∨ eo' = Some (entry_of_meta x meta))
    end.
Proof.
  revert p eo X u pmeta. induction names as [|n names IH]; intros p eo X u pmeta HX Ip Hp; cbn [walk].
  { exists X, u. split_and!; [done..|]. exists eo, pmeta. split_and!; [done..|by left]. }
  destruct (keqb n "") eqn:En; [rewrite (lookup_loop_skip n names p eo En); by eapply IH|].
  destruct (Lookup_tidy X (mkInHeader p (ctx u)) n pmeta HX Ip Hp) as (X1 & HX1 & HR1 & Hcase). cbn [NodeId] in Hcase.
  destruct (step1 p n) as [code|x] eqn:Est.
  - exists X1, (mkInHeader p (ctx u)). split_and!; [done..|]. cbn [lookup_loop]; rewrite En; eapply (entry_fails _ _ (mkInHeader p (ctx u))); [exact Hcase|]. by eapply step1_code.
  - destruct (step1_ok p n x pmeta Ip Hp Est) as (Ix & meta & Hx).
    destruct (Forget_tidy X1 x meta HX1 Ix Hx) as (X2 & E2 & HX2 & HR2).
    pose proof (lookup_loop_step n names p eo u _ _ _ (entry_of_meta x meta) En (Hcase meta Hx) E2) as Estep.
    destruct (IH x (Some (entry_of_meta x meta)) X2 (mkInHeader p (ctx u)) meta HX2 Ix Hx) as (X3 & u3 & HX3 & Hu3 & HR3 & Hw).
    exists X3, u3. split_and!; [done|done|intros j; rewrite <- HR3, HR2; apply HR1|].
    destruct (walk names x) as [code|y]; [etrans; [exact Estep|exact Hw]|]. destruct Hw as (eo' & meta' & E & Iy & Hy & Hor).
    exists eo', meta'. split_and!; [etrans; [exact Estep|exact E]|done|done|]. right. destruct Hor as [[-> ->]|]; [|done]. by rewrite (entry_same x meta meta').
Qed.

(** Walking from the root along the components of a path. *)
Definition walk_path (path : string) : Status + Z := walk (str_split "/" path) FUSE_ROOT_ID.

Lemma u_lookup_tidy path u X rmeta :
  tidy m X → tree_meta m FUSE_ROOT_ID rmeta → dir_of FUSE_ROOT_ID = true →
  ∃ X' u', tidy m X' ∧ ctx u' = ctx u ∧ (∀ j, refs X j ≤ refs X' j) ∧
    match walk_path path with
    | inl code => u_lookup path u (st X) = Ok (inl (EStatus code), u', st X')
    | inr x => u' = mkInHeader x (ctx u) ∧
        ∃ meta, u_lookup path u (st X) = Ok (inr (entry_of_meta x meta), u', st X') ∧ tree_meta m x meta
    end.
Proof.
  intros HX Hr Hdir. unfold u_lookup, walk_path.
  destruct (lookup_loop_ok (str_split "/" path) FUSE_ROOT_ID None X u rmeta HX ltac:(done) Hr) as (X1 & u1 & HX1 & Hu1 & HR1 & Hw).
  destruct (walk (str_split "/" path) FUSE_ROOT_ID) as [code|x].
  { exists X1, u1. split_and!; [done..|]. unfold ubind at 1. by rewrite Hw. }
  destruct Hw as (eo & meta & E & Ix & Hx & Hor). unfold ubind at 1. rewrite E. cbn beta iota. unfold ubind at 1, setNodeId. cbn beta iota. rewrite Hu1.
  destruct (Z.eqb_spec x FUSE_ROOT_ID) as [->|Hne].
  - unfold ubind at 1, uheader. cbn beta iota.
    destruct (Lookup_tidy X1 (mkInHeader FUSE_ROOT_ID (ctx u)) "." meta HX1 Ix Hx) as (X2 & HX2 & HR2 & Hcase). cbn [NodeId] in Hcase.
    unfold step1 in Hcase. rewrite Hdir in Hcase. change (keqb "." ".") with true in Hcase. cbn [negb] in Hcase.
    rewrite (ulift_ok _ _ _ _ _ _ (Hcase meta Hx)). destruct (Forget_tidy X2 FUSE_ROOT_ID meta HX2 Ix Hx) as (X3 & E3 & HX3 & HR3).
    rewrite (ulift_ok _ _ _ _ _ _ E3). exists X3, (mkInHeader FUSE_ROOT_ID (ctx u)). split_and!; [done|done|intros j; rewrite HR3, <- HR2; apply HR1|done|].
    exists meta. split; [|done]. unfold ubind at 1, s2e. cbn. done.
  - exists X1, (mkInHeader x (ctx u)). split_and!; [done|done|done|done|]. exists meta. split; [|done].
    destruct Hor as [[? _]| ->]; [done|]. done.
Qed.

(** ** Information *)

Lemma walk_ok names p x pmeta : in_uint64 p → tree_meta m p pmeta → walk names p = inr x → in_uint64 x ∧ ∃ meta, tree_meta m x meta.
Proof.
  revert p pmeta. induction names as [|n names IH]; intros p pmeta Ip Hp; cbn [walk]; [intros [= <-]; eauto|].
  destruct (keqb n ""); [by eapply IH|]. destruct (step1 p n) as [|y] eqn:Est; [done|].
  destruct (step1_ok p n y pmeta Ip Hp Est) as (Iy & ymeta & Hy). by eapply IH.
Qed.

Lemma GetAttr_tidy X ino meta :
  tidy m X → in_uint64 ino → tree_meta m ino meta →
  ∃ X', GetAttr ino (st X) = Ok ((Some (attrValidity, attr_of ino meta), OK), st X') ∧ tidy m X' ∧ ∀ j, refs X' j = refs X j.
Proof.
  intros HX Ii Hm. unfold GetAttr, FillAttrOut. destruct (GetInode_tidy X ino meta HX Ii Hm) as (X1 & E1 & HX1 & HR1).
  pose proof (refs_nonneg m X ino HX). pose proof (HR1 ino) as Hi. rewrite decide_True in Hi by done.
  rewrite (FM_bind_ok _ _ _ _ _ E1). destruct (FillAttr_tidy X1 ino meta HX1) as (X2 & E2 & HX2 & HR2); [lia|done|].
  rewrite (FM_bind_ok _ _ (st X1) (attrValidity, attr_of ino meta, OK) (st X2)) by (by rewrite (FM_bind_ok _ _ _ _ _ E2)).
  destruct (Release_tidy X2 ino HX2) as (X3 & E3 & HX3 & HR3); [rewrite HR2; lia|].
  rewrite (FM_bind_ok _ _ _ _ _ E3). exists X3. split_and!; [done..|]. intros j. rewrite HR3, HR2, HR1. destruct (decide _); lia.
Qed.

Definition info_of (path : string) (meta : InodeMeta) : fileInfo :=
  let t := unixNanoToFuse (StMtimeNs meta) in
  mkFileInfo (path_Split path).2 (to_int64 (StSize meta)) (fileModeFromFuse (StMode meta)) (t.1 * 1000000000 + t.2).
Lemma u_Stat_tidy path u X rmeta :
  tidy m X → tree_meta m FUSE_ROOT_ID rmeta → dir_of FUSE_ROOT_ID = true →
  ∃ X' u', tidy m X' ∧ ctx u' = ctx u ∧ (∀ j, refs X j ≤ refs X' j) ∧
    match walk_path path with
    | inl code => u_Stat path u (st X) = Ok (inl (EStatus code), u', st X')
    | inr x => ∃ meta, u_Stat path u (st X) = Ok (inr (info_of path meta), u', st X') ∧ tree_meta m x meta
    end.
Proof.
  intros HX Hr Hdir. destruct (u_lookup_tidy path u X rmeta HX Hr Hdir) as (X1 & u1 & HX1 & Hu1 & HR1 & Hw).
  destruct (walk_path path) as [code|x] eqn:Ew.
  { exists X1, u1. split_and!; [done..|]. unfold u_Stat, ubind at 1. by rewrite Hw. }
  destruct Hw as (-> & meta & E & Hx). destruct (walk_ok _ FUSE_ROOT_ID _ _ ltac:(done) Hr Ew) as [Ix _].
  destruct (GetAttr_tidy X1 x meta HX1 Ix Hx) as (X2 & E2 & HX2 & HR2).
  exists X2, (mkInHeader x (ctx u)). split_and!; [done|done|intros j; rewrite HR2; apply HR1|].
  exists meta. split; [|done]. unfold u_Stat, ubind at 1. rewrite E. cbn beta iota. unfold ubind at 1, uheader. cbn beta iota. cbn [NodeId].
  by rewrite (ulift_ok _ _ _ _ _ _ E2).
Qed.
End user.

Lemma st_id {T} (s : Fs T) : st s (ino2inode s) = s.
Proof. by destruct s. Qed.

Section theorems.
Context {T : Type} `{FsEnvOk} `{TxStoreOk T} `{!TxRange T} `{!TxRangeOk T}.

(** C26: looking up a path gives exactly what walking the directories along its parts gives: the attributes of the
    inode at its end, ENOENT at the first name that is missing, and ENOTDIR at the first part below something that is
    no directory; empty parts and dots stay where they are.  Only the inodes in memory change: no reference is lost,
    and what they cache stays what the tree holds. *)
Theorem user_lookup_refines (s : Fs T) m D rmeta path u :
  fs_ok s m → dir_ok m D → tidy m (ino2inode s) → tree_meta m FUSE_ROOT_ID rmeta → IsDir_mode (StMode rmeta) = true →
  ∃ X u', tidy m X ∧ (∀ j, refs (ino2inode s) j ≤ refs X j) ∧ ctx u' = ctx u ∧
    match walk_path m D path with
    | inl code => u_lookup path u s = Ok (inl (EStatus code), u', set_ino2inode X s)
    | inr x => NodeId u' = x ∧ ∃ meta, tree_meta m x meta ∧ u_lookup path u s = Ok (inr (entry_of_meta x meta), u', set_ino2inode X s)
    end.
Proof.
  intros Hs HD HX Hr Hdir. destruct (u_lookup_tidy m s (fs_tree _ _ Hs) D HD path u (ino2inode s) rmeta) as (X & u' & HX' & Hu & HR & Hw); [done|done|by rewrite (dir_of_meta _ _ _ Hr)|].
  exists X, u'. split_and!; [done..|]. rewrite st_id in Hw. destruct (walk_path m D path) as [code|x]; [exact Hw|].
  destruct Hw as (-> & meta & E & Hx). split; [done|]. by exists meta.
Qed.
End theorems.
