(* ===== verification/UserSession.v ===== *)
(** * A session on an open file

    Reads, writes and seeks of [fsFile] (src/fs/fsuser.go) against a sequence of bytes with a position: the calls give
    the results of the abstract file, and afterwards the tree, the directories and the open file are as they should be. *)
From stdpp Require Import base list sets strings sorting gmap.
From Stdlib Require Import ZArith Lia Ascii.
From S2P Require Import Prelude OrderedMap Util BlockKey TreeBackend TreeStore FsState Inode FileIO FileRep FileRead FileWrite FsOps FileProps DirRep Directory DirProps Paths FsUser UserProps.

Open Scope Z_scope.

(** ** The abstract file *)




Section session.
Context {T : Type} `{FsEnvOk} `{TxStoreOk T} `{!TxRange T} `{!TxRangeOk T}.
Abbreviation F := (Fs T).

(** ** The calls *)


(** ** The invariant *)

Record mounted (s : F) (m : smap) (D : entries) : Prop := {
  mo_fs : fs_ok s m;
  mo_dir : dir_ok m D;
  mo_tidy : tidy m (ino2inode s);
  mo_root : ∃ rmeta, tree_meta m FUSE_ROOT_ID rmeta;
  mo_root_dir : dir_of m FUSE_ROOT_ID = true
}.

(** ** What a write keeps *)



(** ** The calls refine the abstract file *)





(** ** Opening and closing *)






End session.

(** ** A run *)
Module UserWitness.
Import FsDemo.

(** The root directory with the empty file "a". *)
Definition s1 : Fs (list kv) := DirDemo.state 1 DirDemo.tree_a.
Definition caller : InHeader := mkInHeader 0 (mkContext 0 0).

Lemma meta_1 : tree_meta DirDemo.map_a 1 DirDemo.dir_meta.
Proof. eapply tree_meta_ext; [by apply DirDemo.map_a_mkey|apply DirDemo.map_1]. Qed.
Lemma meta_5 : tree_meta DirDemo.map_a 5 (DirDemo.file_meta 1).
Proof. eapply tree_meta_ext; [by apply DirDemo.map_a_mkey|apply DirDemo.map_5]. Qed.
Lemma s1_tidy : tidy DirDemo.map_a (ino2inode s1).
Proof.
  intros ino i Hi. cbn in Hi. apply lookup_insert_Some in Hi as [[<- <-]|[_ [<- <-]%lookup_singleton_Some]]; split_and!; try done; intros a [= <-]; [apply meta_1|apply meta_5].
Qed.
Lemma s1_mounted : mounted s1 DirDemo.map_a DirDemo.D_a.
Proof.
  split; [apply DirDemo.state_ok, DirDemo.tree_a_rep|apply DirDemo.map_a_ok|apply s1_tidy|exists DirDemo.dir_meta; apply meta_1|].
  exact (dir_of_meta _ _ _ meta_1).
Qed.
Lemma path_a : walk_path DirDemo.map_a DirDemo.D_a "/a" = inr 5.
Proof. unfold walk_path. cbn [str_split]. vm_compute. reflexivity. Qed.

Lemma user_lookup_refines_witness :
  ∃ X u', tidy DirDemo.map_a X ∧ (∀ j, refs (ino2inode s1) j ≤ refs X j) ∧ ctx u' = ctx caller ∧ NodeId u' = 5 ∧
    ∃ meta, tree_meta DirDemo.map_a 5 meta ∧ u_lookup "/a" caller s1 = Ok (inr (entry_of_meta 5 meta), u', set_ino2inode X s1).
Proof.
  pose proof (user_lookup_refines s1 DirDemo.map_a DirDemo.D_a DirDemo.dir_meta "/a" caller) as E. rewrite path_a in E.
  apply E; [apply s1_mounted|apply s1_mounted|apply s1_tidy|apply meta_1|reflexivity].
Defined.

End UserWitness.
