(* ===== verification/Connector.v ===== *)
(** * Synchronising two servers (src/connector/connector.go, src/pb)

    The connector copies the blocks below a root from one server to another through RPCs and then has them merged.
    [FsClient] is the service both servers offer (pb.Fs).  A goroutine of [copyBlockTo] and [upgradeBlock] is a
    [task], which waits for the tasks of the blocks that are missing; one step is one RPC, the steps of goroutines
    interleave in any order, and every RPC may fail before or after the server did the work.  [FsClientOk] is what
    the connector relies on; [Server] shows that the server of this program offers it. *)
From stdpp Require Import base list sets strings sorting gmap relations.
From Stdlib Require Import ZArith Lia.
From S2P Require Import Prelude OrderedMap Util Codec Backend.

(** ** Lists *)

Lemma sum_list_with_le {A} (f g : A → nat) l : (∀ x, x ∈ l → f x ≤ g x) → sum_list_with f l ≤ sum_list_with g l.
Proof. induction l as [|x l IH]; intros Hl; cbn; [done|]. pose proof (Hl x ltac:(set_solver)). specialize (IH ltac:(set_solver)). lia. Qed.
Lemma sum_list_with_sublist {A} (f : A → nat) l k : l `sublist_of` k → sum_list_with f l ≤ sum_list_with f k.
Proof. induction 1; cbn; lia. Qed.
Lemma sublist_in {A} (l k : list A) x : l `sublist_of` k → x ∈ l → x ∈ k.
Proof. induction 1; set_solver. Qed.
Lemma sum_list_with_insert {A} (f : A → nat) l i x y : l !! i = Some x → sum_list_with f (<[i := y]> l) + f x = sum_list_with f l + f y.
Proof. revert i. induction l as [|z l IH]; intros [|i] Hi; simplify_eq/=; [lia|]. specialize (IH i Hi). lia. Qed.

(** ** The service *)

Record pbBlock : Type := mkPB { pb_Id : string; pb_Data : string; pb_Status : Z; pb_MissingIds : option (list string) }.
Definition pbBlock0 : pbBlock := mkPB "" "" 0 None.
Definition missing (b : pbBlock) : list string := match pb_MissingIds b with Some l => l | None => [] end.

(** A panic of a handler is [Panic]; the HTTP server recovers and the client gets an error. *)
Class FsClient (S : Type) := {
  rpc_GetBlockIdByName : string → S → res (gerr string * S);
  rpc_GetBlockById : string → bool → bool → S → res (gerr pbBlock * S);
  rpc_StoreBlock : string → pbBlock → S → res (gerr pbBlock * S);
  rpc_UpgradeBlockNonWeak : string → S → res (gerr pbBlock * S);
  rpc_SetNameToBlockId : string → string → S → res (gerr bool * S);
  rpc_MergeBlockNameTo : string → string → S → res (gerr bool * S);
  rpc_ClearBlocksInName : string → S → res (gerr unit * S)
}.

Section connector.
Context {S : Type} `{FsClient S}.

(** What a client sees of a call: the answer or, over a network that loses messages, an error with the call done or not. *)
Inductive rpc (lossy : bool) {A : Type} (call : S → res (gerr A * S)) (s : S) : gerr A → S → Prop :=
  | rpc_reply r s' : call s = Ok (r, s') → rpc lossy call s r s'
  | rpc_lost_request e : lossy = true → rpc lossy call s (inl e) s
  | rpc_lost_reply r s' e : lossy = true → call s = Ok (r, s') → rpc lossy call s (inl e) s'.

(** ** copyBlockTo and upgradeBlock *)

(** The states between RPCs of a goroutine, with the operations counted so far. *)
Inductive task : Type :=
  | CopyGet (bid : string)
  | CopyFetch (bid : string) (ops : Z)
  | CopyStore (bid : string) (ops : Z) (data : string)
  | UpLoop (bid : string) (ops : Z) (b : pbBlock)
  | UpWait (bid : string) (ops : Z) (ts : list task)
  | UpUpgrade (bid : string) (ops : Z)
  | Finished (bid : string) (ops : Z) (err : option string)
  | Crashed.

(** [copyBlockTo] after the first question to the target, and [upgradeBlock] on its answer. *)
Definition after_get (bid : string) (r : gerr pbBlock) : task :=
  match r with
  | inl e => Finished bid 1 (Some e)
  | inr b => if keqb (pb_Id b) "" then CopyFetch bid 2 else UpLoop bid 1 b
  end.
Definition after_fetch (bid : string) (ops : Z) (r : gerr pbBlock) : task :=
  match r with
  | inl e => Finished bid 0 (Some e)
  | inr fb => CopyStore bid (ops + 1) (pb_Data fb)
  end.
Definition after_store (bid : string) (ops : Z) (r : gerr pbBlock) : task :=
  match r with
  | inl e => Finished bid ops (Some e)
  | inr b => UpLoop bid ops b
  end.
(** The start of the loop of [upgradeBlock]: a goroutine for each missing block. *)
Definition spawn (bid : string) (ops : Z) (b : pbBlock) : task :=
  match pb_MissingIds b with
  | None => UpUpgrade bid ops
  | Some l => UpWait bid ops (map CopyGet l)
  end.
(** The client returns nil with an error, and the loop looks at the missing ids before the error. *)
Definition after_upgrade (bid : string) (ops : Z) (r : gerr pbBlock) : task :=
  match r with
  | inl _ => Crashed
  | inr b => match missing b with [] => Finished bid ops None | _ :: _ => UpLoop bid ops b end
  end.

Definition ops_of (t : task) : Z := match t with Finished _ ops _ => ops | _ => 0 end.
Definition err_of (t : task) : option string := match t with Finished _ _ e => e | _ => None end.
Definition is_finished (t : task) : bool := match t with Finished _ _ _ => true | _ => false end.
(** [wg.Wait()]: one of the errors of the goroutines is kept. *)
Inductive after_wait (bid : string) (ops : Z) (ts : list task) : task → Prop :=
  | wait_ok : Forall (λ t, err_of t = None) ts → after_wait bid ops ts (UpUpgrade bid (ops + foldr Z.add 0 (map ops_of ts))%Z)
  | wait_err t e : t ∈ ts → err_of t = Some e → after_wait bid ops ts (Finished bid (ops + foldr Z.add 0 (map ops_of ts))%Z (Some e)).

(** [w] is the pair of the source and the target; [inName] names the tree that keeps the copies. *)
Inductive task_step (lossy : bool) (inName : string) : task → S * S → task → S * S → Prop :=
  | step_get bid f s r s' : rpc lossy (rpc_GetBlockById bid false true) s r s' → task_step lossy inName (CopyGet bid) (f, s) (after_get bid r) (f, s')
  | step_fetch bid ops f s r f' : rpc lossy (rpc_GetBlockById bid true false) f r f' → task_step lossy inName (CopyFetch bid ops) (f, s) (after_fetch bid ops r) (f', s)
  | step_store bid ops data f s r s' :
      rpc lossy (rpc_StoreBlock inName (mkPB bid data BS_WEAK None)) s r s' → task_step lossy inName (CopyStore bid ops data) (f, s) (after_store bid ops r) (f, s')
  | step_spawn bid ops b w : task_step lossy inName (UpLoop bid ops b) w (spawn bid ops b) w
  | step_child bid ops ts i t t' w w' :
      ts !! i = Some t → task_step lossy inName t w t' w' → task_step lossy inName (UpWait bid ops ts) w (UpWait bid ops (<[i := t']> ts)) w'
  | step_crash bid ops ts w : Crashed ∈ ts → task_step lossy inName (UpWait bid ops ts) w Crashed w
  | step_wait bid ops ts t' w : Forall (λ t, is_finished t = true) ts → after_wait bid ops ts t' → task_step lossy inName (UpWait bid ops ts) w t' w
  | step_upgrade bid ops f s r s' : rpc lossy (rpc_UpgradeBlockNonWeak bid) s r s' → task_step lossy inName (UpUpgrade bid ops) (f, s) (after_upgrade bid ops r) (f, s').

Definition task_id (t : task) : string :=
  match t with
  | CopyGet bid | CopyFetch bid _ | CopyStore bid _ _ | UpLoop bid _ _ | UpWait bid _ _ | UpUpgrade bid _ | Finished bid _ _ => bid
  | Crashed => ""
  end.

(** ** Sync and Run *)

Record Connection : Type := mkConnection { RootName : string; OtherRootName : string }.

Inductive sync : Type :=
  | SyncFrom
  | SyncTo (fid : string)
  | SyncCopy (fid : string) (t : task)
  | SyncName (fid : string) (ops : Z)
  | SyncMerge (fid : string) (ops : Z)
  | SyncClear (fid : string) (ops : Z)
  | SyncDone (fid : string) (ops : Z) (err : option string)
  | SyncCrashed.

Definition after_from (r : gerr string) : sync := match r with inl e => SyncDone "" 0 (Some e) | inr fid => SyncTo fid end.
(** The ids are pointers, so that they always differ. *)
Definition after_to (fid : string) (r : gerr string) : sync := match r with inl e => SyncDone fid 0 (Some e) | inr _ => SyncCopy fid (CopyGet fid) end.
Definition after_copy (fid : string) (t : task) : option sync :=
  match t with
  | Finished _ ops None => Some (SyncName fid ops)
  | Finished _ _ (Some e) => Some (SyncDone fid 0 (Some e))
  | Crashed => Some SyncCrashed
  | _ => None
  end.
Definition after_name (fid : string) (ops : Z) (r : gerr bool) : sync :=
  match r with
  | inl e => SyncDone fid 0 (Some e)
  | inr true => SyncMerge fid ops
  | inr false => SyncDone fid 0 (Some "non-ok SetNameToBlockId")
  end.
Definition after_merge (fid : string) (ops : Z) (r : gerr bool) : sync :=
  match r with
  | inl e => SyncDone fid ops (Some e)
  | inr true => SyncClear fid ops
  | inr false => SyncDone fid 0 (Some "non-ok MergeBlockNameTo")
  end.
Definition after_clear (fid : string) (ops : Z) (r : gerr unit) : sync :=
  match r with inl e => SyncDone fid ops (Some e) | inr _ => SyncDone fid ops None end.

Inductive sync_step (lossy : bool) (from to : Connection) : sync → S * S → sync → S * S → Prop :=
  | sync_from f s r f' : rpc lossy (rpc_GetBlockIdByName (RootName from)) f r f' → sync_step lossy from to SyncFrom (f, s) (after_from r) (f', s)
  | sync_to fid f s r s' : rpc lossy (rpc_GetBlockIdByName (OtherRootName to)) s r s' → sync_step lossy from to (SyncTo fid) (f, s) (after_to fid r) (f, s')
  | sync_copy fid t w t' w' : task_step lossy (OtherRootName to) t w t' w' → sync_step lossy from to (SyncCopy fid t) w (SyncCopy fid t') w'
  | sync_copied fid t p w : after_copy fid t = Some p → sync_step lossy from to (SyncCopy fid t) w p w
  | sync_name fid ops f s r s' :
      rpc lossy (rpc_SetNameToBlockId (OtherRootName to) fid) s r s' → sync_step lossy from to (SyncName fid ops) (f, s) (after_name fid ops r) (f, s')
  | sync_merge fid ops f s r s' :
      rpc lossy (rpc_MergeBlockNameTo (OtherRootName to) (RootName to)) s r s' → sync_step lossy from to (SyncMerge fid ops) (f, s) (after_merge fid ops r) (f, s')
  | sync_clear fid ops f s r s' :
      rpc lossy (rpc_ClearBlocksInName (OtherRootName to)) s r s' → sync_step lossy from to (SyncClear fid ops) (f, s) (after_clear fid ops r) (f, s').

(** [Connector.Run]: both directions at once, and what it returns when both are done. *)
Inductive run_step (lossy : bool) (left right : Connection) : sync * sync * (S * S) → sync * sync * (S * S) → Prop :=
  | run_left p q l r p' l' r' : sync_step lossy left right p (l, r) p' (l', r') → run_step lossy left right (p, q, (l, r)) (p', q, (l', r'))
  | run_right p q l r q' l' r' : sync_step lossy right left q (r, l) q' (r', l') → run_step lossy left right (p, q, (l, r)) (p, q', (l', r')).
Definition Run_result (p q : sync) : option (Z * option string) :=
  match p, q with
  | SyncDone _ _ (Some e), SyncDone _ _ _ => Some (0%Z, Some e)
  | SyncDone _ _ None, SyncDone _ _ (Some e) => Some (0%Z, Some e)
  | SyncDone _ ops1 None, SyncDone _ ops2 None => Some ((ops1 + ops2)%Z, None)
  | _, _ => None
  end.

(** ** One schedule *)

(** Goroutines one after the other, without failures. *)
Definition join_tasks (bid : string) (ops : Z) (ts : list task) : task :=
  let ops := (ops + foldr Z.add 0 (map ops_of ts))%Z in
  match head (omap err_of ts) with Some e => Finished bid ops (Some e) | None => UpUpgrade bid ops end.
Definition answer {A B : Type} (call : res (gerr A * S)) (k : gerr A → S → B) : option B :=
  match call with Ok (r, s) => Some (k r s) | _ => None end.
Fixpoint task_next (inName : string) (t : task) (w : S * S) : option (task * (S * S)) :=
  match t with
  | CopyGet bid => answer (rpc_GetBlockById bid false true w.2) (λ r s', (after_get bid r, (w.1, s')))
  | CopyFetch bid ops => answer (rpc_GetBlockById bid true false w.1) (λ r f', (after_fetch bid ops r, (f', w.2)))
  | CopyStore bid ops data => answer (rpc_StoreBlock inName (mkPB bid data BS_WEAK None) w.2) (λ r s', (after_store bid ops r, (w.1, s')))
  | UpLoop bid ops b => Some (spawn bid ops b, w)
  | UpWait bid ops ts =>
      let fix go (ts : list task) : option (list task * (S * S)) :=
        match ts with
        | [] => None
        | t :: ts' =>
            if is_finished t then (λ x, (t :: x.1, x.2)) <$> go ts'
            else (λ x, (x.1 :: ts', x.2)) <$> task_next inName t w
        end in
      if forallb is_finished ts then Some (join_tasks bid ops ts, w) else (λ x, (UpWait bid ops x.1, x.2)) <$> go ts
  | UpUpgrade bid ops => answer (rpc_UpgradeBlockNonWeak bid w.2) (λ r s', (after_upgrade bid ops r, (w.1, s')))
  | Finished _ _ _ | Crashed => None
  end.
Definition sync_next (from to : Connection) (p : sync) (w : S * S) : option (sync * (S * S)) :=
  match p with
  | SyncFrom => answer (rpc_GetBlockIdByName (RootName from) w.1) (λ r f', (after_from r, (f', w.2)))
  | SyncTo fid => answer (rpc_GetBlockIdByName (OtherRootName to) w.2) (λ r s', (after_to fid r, (w.1, s')))
  | SyncCopy fid t =>
      match after_copy fid t with
      | Some p => Some (p, w)
      | None => (λ x, (SyncCopy fid x.1, x.2)) <$> task_next (OtherRootName to) t w
      end
  | SyncName fid ops => answer (rpc_SetNameToBlockId (OtherRootName to) fid w.2) (λ r s', (after_name fid ops r, (w.1, s')))
  | SyncMerge fid ops => answer (rpc_MergeBlockNameTo (OtherRootName to) (RootName to) w.2) (λ r s', (after_merge fid ops r, (w.1, s')))
  | SyncClear fid ops => answer (rpc_ClearBlocksInName (OtherRootName to) w.2) (λ r s', (after_clear fid ops r, (w.1, s')))
  | SyncDone _ _ _ | SyncCrashed => None
  end.
Fixpoint sync_run (n : nat) (from to : Connection) (p : sync) (w : S * S) : sync * (S * S) :=
  match n with
  | O => (p, w)
  | Datatypes.S n => match sync_next from to p w with Some (p, w) => sync_run n from to p w | None => (p, w) end
  end.

Lemma answer_Some {A B} (call : S → res (gerr A * S)) s (k : gerr A → S → B) x lossy :
  answer (call s) k = Some x → ∃ r s', rpc lossy call s r s' ∧ x = k r s'.
Proof. unfold answer. destruct (call s) as [[r s']| |] eqn:E; [|done..]. intros [= <-]. exists r, s'. split; [by apply rpc_reply|done]. Qed.
Lemma join_wait bid ops ts : after_wait bid ops ts (join_tasks bid ops ts).
Proof.
  unfold join_tasks. destruct (omap err_of ts) as [|e l] eqn:E; cbn [head].
  - apply wait_ok, Forall_forall. intros t Ht. destruct (err_of t) as [e|] eqn:Ee; [|done].
    assert (e ∈ omap err_of ts) as Hin by (apply list_elem_of_omap; eauto). rewrite E in Hin. by apply elem_of_nil in Hin.
  - assert (e ∈ omap err_of ts) as (t & Ht & Ee)%list_elem_of_omap by (rewrite E; set_solver). by eapply wait_err.
Qed.
Lemma task_next_step lossy inName : ∀ t w t' w', task_next inName t w = Some (t', w') → task_step lossy inName t w t' w'.
Proof.
  fix IH 1. intros [bid|bid ops|bid ops d|bid ops b|bid ops ts|bid ops|bid ops e|] [f s] t' w' E; cbn [task_next fst snd] in E; try done.
  1-3: apply (answer_Some _ _ _ _ lossy) in E as (r & s' & Hr & [= -> ->]); by constructor.
  - injection E as <- <-. constructor.
  - destruct (forallb is_finished ts) eqn:Ef.
    { injection E as <- <-. apply step_wait; [|apply join_wait]. apply Forall_forall. rewrite forallb_forall in Ef. intros t Ht%list_elem_of_In. by apply Ef. }
    clear Ef. apply fmap_Some in E as ([ts' w1] & E & [= -> ->]). cbn [fst snd].
    assert (∃ i t t', ts !! i = Some t ∧ task_step lossy inName t (f, s) t' w1 ∧ ts' = <[i := t']> ts) as (i & t & t' & Hi & Ht & ->).
    { revert ts' E. induction ts as [|t ts IHts]; intros ts' E; [done|]. destruct (is_finished t).
      - apply fmap_Some in E as ([ts1 w2] & E & [= -> ->]). destruct (IHts _ E) as (i & x & t' & Hi & Hs & ->). by exists (Datatypes.S i), x, t'.
      - apply fmap_Some in E as ([t1 w2] & E & [= -> ->]). exists 0, t, t1. split_and!; [done|by apply IH|done]. }
    by eapply step_child.
  - apply (answer_Some _ _ _ _ lossy) in E as (r & s' & Hr & [= -> ->]). by constructor.
Qed.
Lemma sync_next_step lossy from to p w p' w' : sync_next from to p w = Some (p', w') → sync_step lossy from to p w p' w'.
Proof.
  destruct w as [f s]. destruct p as [|fid|fid t|fid ops|fid ops|fid ops|fid ops e|]; cbn [sync_next fst snd]; intros E; try done.
  3: { destruct (after_copy fid t) as [q|] eqn:Ec; [injection E as <- <-; by apply sync_copied|].
       apply fmap_Some in E as ([t' w1] & E & [= -> ->]). apply sync_copy. by apply task_next_step. }
  all: apply (answer_Some _ _ _ _ lossy) in E as (r & s' & Hr & [= -> ->]); by constructor.
Qed.
(** Left to right, then right to left. *)
Lemma sync_run_left lossy left right n p q l r p' l' r' :
  sync_run n left right p (l, r) = (p', (l', r')) → rtc (run_step lossy left right) (p, q, (l, r)) (p', q, (l', r')).
Proof.
  revert p l r. induction n as [|n IH]; intros p l r E; cbn [sync_run] in E; [simplify_eq; constructor|].
  destruct (sync_next left right p (l, r)) as [[p1 [l1 r1]]|] eqn:En; [|simplify_eq; constructor].
  eapply rtc_l; [apply run_left; by apply sync_next_step|by apply IH].
Qed.
Lemma sync_run_right lossy left right n p q l r q' l' r' :
  sync_run n right left q (r, l) = (q', (r', l')) → rtc (run_step lossy left right) (p, q, (l, r)) (p, q', (l', r')).
Proof.
  revert q l r. induction n as [|n IH]; intros q l r E; cbn [sync_run] in E; [simplify_eq; constructor|].
  destruct (sync_next right left q (r, l)) as [[q1 [r1 l1]]|] eqn:En; [|simplify_eq; constructor].
  eapply rtc_l; [apply run_right; by apply sync_next_step|by apply IH].
Qed.
End connector.

(** ** What the connector relies on *)

Section views.
Context {S : Type} (has : S → string → Prop) (refs : S → string → list string).
(** Blocks stay as they are. *)
Definition evolves (s s' : S) : Prop := ∀ id, has s id → has s' id ∧ refs s' id = refs s id.
Definition complete (s : S) (id : string) : Prop := ∀ y, y ∈ refs s id → has s y.
(** Blocks are added only with what they refer to. *)
Definition grows (inv : S → Prop) (s s' : S) : Prop := inv s' ∧ evolves s s' ∧ ∀ x, has s' x → has s x ∨ complete s' x.
(** The missing ids of an answer are the references that are not there, in order. *)
Definition covers (s : S) (id : string) (b : pbBlock) : Prop :=
  (∀ y, y ∈ refs s id → has s y ∨ y ∈ missing b) ∧ missing b `sublist_of` refs s id.
#[global] Instance evolves_preorder : PreOrder evolves.
Proof.
  split; [by intros s id|]. intros s1 s2 s3 A B id Hid. destruct (A id Hid) as [Q1 E1]. destruct (B id Q1) as [Q2 E2]. split; [done|congruence].
Qed.
End views.

Class FsClientOk (S : Type) `{FsClient S} := {
  cl_inv : S → Prop;
  cl_has : S → string → Prop;
  cl_refs : S → string → list string;
  cl_Get : ∀ id d w s r s', cl_inv s → rpc_GetBlockById id d w s = Ok (r, s') →
    cl_inv s' ∧ evolves cl_has cl_refs s s' ∧ (∀ x, cl_has s' x → cl_has s x) ∧
    ∀ b, r = inr b → pb_Id b ≠ "" → cl_has s' id ∧ (w = true → covers cl_has cl_refs s' id b);
  cl_Store : ∀ n blk s r s', cl_inv s → pb_Status blk = BS_WEAK → rpc_StoreBlock n blk s = Ok (r, s') →
    cl_inv s' ∧ evolves cl_has cl_refs s s' ∧
    ∀ b, r = inr b → cl_has s' (pb_Id blk) ∧ covers cl_has cl_refs s' (pb_Id blk) b ∧ ∀ x, cl_has s' x → cl_has s x ∨ x = pb_Id blk;
  cl_Upgrade : ∀ id s r s', cl_inv s → rpc_UpgradeBlockNonWeak id s = Ok (r, s') →
    cl_inv s' ∧ evolves cl_has cl_refs s s' ∧ (∀ x, cl_has s' x → cl_has s x) ∧
    ∀ b, r = inr b → cl_has s id → covers cl_has cl_refs s' id b;
  (* the other calls add blocks only with what they refer to *)
  cl_GetName : ∀ n s r s', cl_inv s → rpc_GetBlockIdByName n s = Ok (r, s') → grows cl_has cl_refs cl_inv s s';
  cl_SetName : ∀ n id s r s', cl_inv s → rpc_SetNameToBlockId n id s = Ok (r, s') → grows cl_has cl_refs cl_inv s s';
  cl_Merge : ∀ n n' s r s', cl_inv s → rpc_MergeBlockNameTo n n' s = Ok (r, s') → grows cl_has cl_refs cl_inv s s';
  cl_Clear : ∀ n s r s', cl_inv s → rpc_ClearBlocksInName n s = Ok (r, s') → grows cl_has cl_refs cl_inv s s'
}.

Section laws.
Context {S : Type} `{FsClientOk S}.
Abbreviation evolve := (evolves cl_has cl_refs).
Abbreviation full := (complete cl_has cl_refs).

Lemma complete_evolves s s' x : evolve s s' → cl_has s x → full s x → full s' x.
Proof. intros He Hx Hf y Hy. destruct (He x Hx) as [_ E]. rewrite E in Hy. by apply He, Hf. Qed.

Abbreviation rely := (grows cl_has cl_refs cl_inv).
#[global] Instance grows_trans : Transitive rely.
Proof.
  intros s1 s2 s3 (_ & E1 & N1) (I & E2 & N2). split_and!; [done|by etrans|]. intros x Hx. destruct (N2 x Hx) as [Hx2|]; [|by right].
  destruct (N1 x Hx2) as [|Hf]; [by left|right]. by eapply complete_evolves.
Qed.
Lemma grows_refl s : cl_inv s → rely s s.
Proof. intros Is. split_and!; [done|reflexivity|by left]. Qed.

(** ** Nothing is lost *)

(** Goroutines that hold a block whose references may be missing. *)
Fixpoint active (t : task) : list string :=
  match t with
  | UpLoop bid _ _ | UpUpgrade bid _ => [bid]
  | UpWait bid _ ts => bid :: concat (map active ts)
  | _ => []
  end.
Fixpoint clean (t : task) : bool :=
  match t with
  | UpWait _ _ ts => forallb clean ts
  | Finished _ _ (Some _) | Crashed => false
  | _ => true
  end.
(** Blocks that a goroutine found or stored are there. *)
Fixpoint grounded (s : S) (t : task) : Prop :=
  match t with
  | UpLoop bid _ _ | UpUpgrade bid _ | Finished bid _ None => cl_has s bid
  | UpWait bid _ ts => cl_has s bid ∧ foldr (λ t P, grounded s t ∧ P) True ts
  | _ => True
  end.
Lemma grounded_wait s bid ops ts : grounded s (UpWait bid ops ts) ↔ cl_has s bid ∧ Forall (grounded s) ts.
Proof. cbn [grounded]. apply and_iff_compat_l. induction ts as [|t ts IH]; cbn; [by split|]. by rewrite Forall_cons, IH. Qed.
Lemma active_wait bid ops ts x : x ∈ active (UpWait bid ops ts) ↔ x = bid ∨ ∃ i t, ts !! i = Some t ∧ x ∈ active t.
Proof.
  cbn [active]. rewrite elem_of_cons. apply or_iff_compat_l. rewrite list_elem_of_In, in_concat. setoid_rewrite in_map_iff. split.
  - intros (l & (t & <- & Ht%list_elem_of_In) & Hx%list_elem_of_In). apply list_elem_of_lookup in Ht as [i Hi]. eauto.
  - intros (i & t & Hi & Hx). exists (active t). split; [exists t; split; [done|]; by apply list_elem_of_In, (list_elem_of_lookup_2 _ i)|by apply list_elem_of_In].
Qed.
Lemma clean_child ts i t t' : ts !! i = Some t → forallb clean (<[i := t']> ts) = true → clean t' = true ∧ (clean t = true → forallb clean ts = true).
Proof.
  intros Hi Hc. rewrite forallb_forall in Hc. setoid_rewrite <- list_elem_of_In in Hc. pose proof (lookup_lt_Some _ _ _ Hi) as Hlt. split.
  - apply Hc, (list_elem_of_lookup_2 _ i). by apply list_lookup_insert_eq.
  - intros Ht. apply forallb_forall. intros x Hx%list_elem_of_In. apply list_elem_of_lookup in Hx as [j Hj]. destruct (decide (j = i)) as [->|Hne]; [congruence|].
    apply Hc, (list_elem_of_lookup_2 _ j). by rewrite list_lookup_insert_ne.
Qed.
Lemma grounded_evolves s s' : evolve s s' → ∀ t, grounded s t → grounded s' t.
Proof.
  intros He. fix IH 1. intros [bid|bid ops|bid ops d|bid ops b|bid ops ts|bid ops|bid ops [e|]|]; cbn [grounded]; try done; try apply He.
  intros [Hb Hts]. split; [by apply He|]. induction ts as [|t ts IHts]; [done|]. destruct Hts as [Ht Hts]. split; [by apply IH|by apply IHts].
Qed.

Lemma rpc_keeps {A} lossy (call : S → res (gerr A * S)) s r s' :
  rpc lossy call s r s' → cl_inv s →
  (∀ r s', call s = Ok (r, s') → cl_inv s' ∧ evolve s s') → cl_inv s' ∧ evolve s s' ∧ (∀ a, r = inr a → call s = Ok (inr a, s')).
Proof.
  intros [r0 s0 E|e _|r0 s0 e _ E] Hs Hk.
  - destruct (Hk _ _ E). split_and!; [done..|]. by intros a ->.
  - split_and!; [done|reflexivity|done].
  - destruct (Hk _ _ E). split_and!; [done..|]. done.
Qed.

(** Whatever fails, the source only answers and the target keeps its blocks. *)
Lemma task_step_inv lossy inName t w t' w' :
  task_step lossy inName t w t' w' → cl_inv w.1 → cl_inv w.2 →
  rely w.1 w'.1 ∧ (∀ x, cl_has w'.1 x → cl_has w.1 x) ∧ cl_inv w'.2 ∧ evolve w.2 w'.2 ∧ (t' ≠ Crashed → task_id t' = task_id t).
Proof.
  induction 1 as [bid f s r s' Hr|bid ops f s r f' Hr|bid ops data f s r s' Hr|bid ops b [f s]|bid ops ts i t t' w w' Hi Hstep IH|bid ops ts w Hc|bid ops ts t' w Hfin Hw|bid ops f s r s' Hr];
    intros If Is; cbn [fst snd] in *.
  - destruct (rpc_keeps _ _ _ _ _ Hr Is) as (Is' & He & _); [intros ?? E; by apply cl_Get in E as (? & ? & _)|].
    split_and!; [by apply grows_refl|done..|]. intros _. destruct r as [e|b]; [done|]. cbn [after_get]. by destruct (keqb _ _).
  - assert (rely f f' ∧ ∀ x, cl_has f' x → cl_has f x) as [Hf Hn].
    { destruct Hr as [r f' E|e _|r f' e _ E]; [|split; [by apply grows_refl|done]|]; apply cl_Get in E as (I & E & N & _); try done; (split; [split_and!|]; auto). }
    split_and!; [done..|reflexivity|]. by destruct r.
  - destruct (rpc_keeps _ _ _ _ _ Hr Is) as (Is' & He & _); [intros ?? E; by apply cl_Store in E as (? & ? & _)|].
    split_and!; [by apply grows_refl|done..|]. by destruct r.
  - split_and!; [by apply grows_refl|done|done|reflexivity|]. unfold spawn. by destruct (pb_MissingIds b).
  - destruct (IH If Is) as (? & ? & ? & ? & _). by split_and!.
  - split_and!; [by apply grows_refl|done|done|reflexivity|done].
  - split_and!; [by apply grows_refl|done|done|reflexivity|]. by destruct Hw.
  - destruct (rpc_keeps _ _ _ _ _ Hr Is) as (Is' & He & _); [intros ?? E; by apply cl_Upgrade in E as (? & ? & _)|].
    split_and!; [by apply grows_refl|done..|]. destruct r as [e|b]; [done|]. cbn [after_upgrade]. by destruct (missing b).
Qed.
Lemma clean_back lossy inName t w t' w' : task_step lossy inName t w t' w' → clean t' = true → clean t = true.
Proof.
  induction 1 as [| | | |bid ops ts i t t' w w' Hi Hstep IH|bid ops ts w Hc|bid ops ts t' w Hfin Hw|]; intros Hcl; try done.
  - destruct (clean_child _ _ _ _ Hi Hcl) as [Ht' Hall]. by apply Hall, IH.
  - destruct Hw as [Hnone|t e Ht He]; [|done]. apply forallb_forall. intros t Ht%list_elem_of_In. rewrite Forall_forall in Hfin, Hnone.
    specialize (Hfin t Ht). specialize (Hnone t Ht). by destruct t as [| | | | | |?? [?|]|].
Qed.

(** A step of an error free execution: what is new is held by a goroutine, and a goroutine lets go of complete blocks only. *)
Lemma task_step_safe lossy inName t w t' w' :
  task_step lossy inName t w t' w' → cl_inv w.1 → cl_inv w.2 → grounded w.2 t → clean t' = true →
  grounded w'.2 t' ∧
  (∀ x, cl_has w'.2 x → cl_has w.2 x ∨ x ∈ active t') ∧ ∀ x, x ∈ active t → x ∈ active t' ∨ full w'.2 x.
Proof.
  induction 1 as [bid f s r s' Hr|bid ops f s r f' Hr|bid ops data f s r s' Hr|bid ops b [f s]|bid ops ts i t t' w w' Hi Hstep IH|bid ops ts w Hc|bid ops ts t' w Hfin Hw|bid ops f s r s' Hr];
    intros If Is Hg Hcl; cbn [fst snd] in *.
  - assert (∀ r s', rpc_GetBlockById bid false true s = Ok (r, s') → cl_inv s' ∧ evolve s s') as Hk by (intros ?? E; by apply cl_Get in E as (? & ? & _)).
    destruct (rpc_keeps _ _ _ _ _ Hr Is Hk) as (Is' & He & Hok). destruct r as [e|b]; [done|].
    destruct (cl_Get _ _ _ _ _ _ Is (Hok b eq_refl)) as (_ & _ & Hback & Hb). cbn [after_get]. split_and!; try done; [..|by intros x ?%elem_of_nil].
    + destruct (keqb (pb_Id b) "") eqn:Ek; [done|]. apply keqb_neq in Ek. by apply (Hb b eq_refl).
    + intros x Hx. left. by apply Hback.
  - assert (∀ r f', rpc_GetBlockById bid true false f = Ok (r, f') → cl_inv f' ∧ evolve f f') as Hk by (intros ?? E; by apply cl_Get in E as (? & ? & _)).
    destruct (rpc_keeps _ _ _ _ _ Hr If Hk) as (If' & He & Hok). destruct r as [e|b]; [done|].
    split_and!; try done; [by left|by intros x ?%elem_of_nil].
  - assert (∀ r s', rpc_StoreBlock inName (mkPB bid data BS_WEAK None) s = Ok (r, s') → cl_inv s' ∧ evolve s s') as Hk by (intros ?? E; by apply cl_Store in E as (? & ? & _)).
    destruct (rpc_keeps _ _ _ _ _ Hr Is Hk) as (Is' & He & Hok). destruct r as [e|b]; [done|].
    destruct (cl_Store _ (mkPB bid data BS_WEAK None) _ _ _ Is eq_refl (Hok b eq_refl)) as (_ & _ & Hb). destruct (Hb b eq_refl) as (Hh & _ & Hnew). cbn [pb_Id] in *.
    split_and!; try done; [|by intros x ?%elem_of_nil]. intros x Hx. destruct (Hnew x Hx) as [| ->]; [by left|right; apply list_elem_of_singleton; reflexivity].
  - unfold spawn in *. destruct (pb_MissingIds b) as [l|]; split_and!; try done; try by left.
    + apply grounded_wait. split; [done|]. apply Forall_forall. intros t Ht. apply list_elem_of_In, in_map_iff in Ht as (y & <- & _). done.
    + intros x Hx. left. apply list_elem_of_singleton in Hx as ->. apply active_wait. by left.
  - apply grounded_wait in Hg as [Hb Hg]. pose proof (Forall_lookup_1 _ _ _ _ Hg Hi) as Hgt. cbn [clean] in Hcl.
    destruct (clean_child _ _ _ _ Hi Hcl) as [Ht' Hall]. destruct (IH If Is Hgt Ht') as (Hg' & Hnew & Hold).
    pose proof (lookup_lt_Some _ _ _ Hi) as Hlt. destruct (task_step_inv _ _ _ _ _ _ Hstep If Is) as (_ & _ & _ & He & _). split_and!.
    + apply grounded_wait. split; [by apply He|]. apply Forall_insert; [|done]. eapply Forall_impl; [exact Hg|]. intros t0. by apply grounded_evolves.
    + intros x Hx. destruct (Hnew x Hx) as [|Ha]; [by left|]. right. apply active_wait. right. exists i, t'. split; [by apply list_lookup_insert_eq|done].
    + intros x Hx. apply active_wait in Hx as [->|(j & t0 & Hj & Hx)]; [left; apply active_wait; by left|]. destruct (decide (j = i)) as [->|Hne].
      * rewrite Hi in Hj. injection Hj as <-. destruct (Hold x Hx) as [Ha|]; [left|by right]. apply active_wait. right. exists i, t'. split; [by apply list_lookup_insert_eq|done].
      * left. apply active_wait. right. exists j, t0. split; [by rewrite list_lookup_insert_ne|done].
  - done.
  - destruct Hw as [Hnone|t e Ht He]; [|done]. apply grounded_wait in Hg as [Hb Hg]. split_and!; [done|by left|].
    intros x Hx. apply active_wait in Hx as [->|(j & t0 & Hj & Hx)]; [left; set_solver|].
      pose proof (Forall_lookup_1 _ _ _ _ Hfin Hj) as Hf0. destruct t0; try discriminate Hf0. by apply elem_of_nil in Hx.
  - assert (∀ r s', rpc_UpgradeBlockNonWeak bid s = Ok (r, s') → cl_inv s' ∧ evolve s s') as Hk by (intros ?? E; by apply cl_Upgrade in E as (? & ? & _)).
    destruct (rpc_keeps _ _ _ _ _ Hr Is Hk) as (Is' & He & Hok). destruct r as [e|b]; [done|].
    destruct (cl_Upgrade _ _ _ _ Is (Hok b eq_refl)) as (_ & _ & Hback & Hcov). destruct (Hcov b eq_refl Hg) as [Hc _]. cbn [after_upgrade] in *.
    destruct (missing b) as [|y l] eqn:Em; split_and!; try done; try (by apply He); try (intros x Hx; left; by apply Hback).
    + intros x Hx. apply list_elem_of_singleton in Hx as ->. right. intros y Hy. destruct (Hc y Hy) as [|Hn%elem_of_nil]; [done|done].
    + intros x Hx. by left.
Qed.

(** Blocks whose references may be missing are held by a goroutine. *)
Definition closed_but (s : S) (A : list string) : Prop := ∀ x, cl_has s x → full s x ∨ x ∈ A.
Abbreviation closed s := (closed_but s []).
(** A block and everything below it are there. *)
Definition below (s : S) : string → string → Prop := rtc (λ x y, y ∈ cl_refs s x).
Definition delivered (s : S) (root : string) : Prop := ∀ y, below s root y → cl_has s y.

Lemma closed_delivered s root : closed s → cl_has s root → delivered s root.
Proof.
  intros Hc Hr y Hy. induction Hy as [|x y z Hxy _ IH]; [done|]. apply IH. destruct (Hc x Hr) as [Hf|Hn%elem_of_nil]; [by apply Hf|done].
Qed.
Lemma delivered_evolves s s' root : evolve s s' → delivered s root → delivered s' root.
Proof.
  intros He Hd y Hy. apply He, Hd. assert (cl_has s root) as Hr by (apply Hd; constructor).
  assert (∀ x, below s root x → below s' x y → below s root y) as Hgo; [|by apply (Hgo root); [constructor|]].
  intros x Hx Hxy. induction Hxy as [|x z y Hxz _ IH]; [done|]. apply IH; [done|]. eapply rtc_r; [exact Hx|].
  destruct (He x (Hd x Hx)) as [_ E]. by rewrite <- E.
Qed.
Lemma closed_rely s s' A : rely s s' → closed_but s A → closed_but s' A.
Proof.
  intros (_ & He & Hn) Hc x Hx. destruct (Hn x Hx) as [Hs|]; [|by left]. destruct (Hc x Hs) as [Hf|]; [left|by right]. by eapply complete_evolves.
Qed.
Lemma task_step_closed lossy inName t w t' w' :
  task_step lossy inName t w t' w' → cl_inv w.1 → cl_inv w.2 → clean t' = true →
  grounded w.2 t ∧ closed_but w.2 (active t) → grounded w'.2 t' ∧ closed_but w'.2 (active t').
Proof.
  intros Hstep If Is Hcl [Hg Hc]. destruct (task_step_safe _ _ _ _ _ _ Hstep If Is Hg Hcl) as (Hg' & Hnew & Hold). split; [done|].
  destruct (task_step_inv _ _ _ _ _ _ Hstep If Is) as (_ & _ & _ & He & _). intros x Hx. destruct (Hnew x Hx) as [Hs|]; [|by right].
  destruct (Hc x Hs) as [Hf|Ha]; [left; by eapply complete_evolves|]. destruct (Hold x Ha); [by right|by left].
Qed.

(** The state of one direction of a synchronisation; [w] is its source and its target. *)
Definition sync_ok (p : sync) (s : S) : Prop :=
  match p with
  | SyncFrom | SyncTo _ => closed s
  | SyncCopy fid t => (t ≠ Crashed → task_id t = fid) ∧ (clean t = true → grounded s t ∧ closed_but s (active t))
  | SyncName fid _ | SyncMerge fid _ | SyncClear fid _ | SyncDone fid _ None => delivered s fid
  | SyncDone _ _ (Some _) | SyncCrashed => True
  end.
Lemma sync_ok_rely p s s' : rely s s' → sync_ok p s → sync_ok p s'.
Proof.
  intros Hr. pose proof Hr as (_ & He & _). destruct p as [|fid|fid t|fid ops|fid ops|fid ops|fid ops [e|]|]; cbn [sync_ok]; try done;
    try (by apply closed_rely); try (by apply delivered_evolves).
  intros [Hid Hc]. split; [done|]. intros Hcl. destruct (Hc Hcl) as [Hg Hcb]. split; [by eapply grounded_evolves|by eapply closed_rely].
Qed.
Lemma rpc_rely {A} lossy (call : S → res (gerr A * S)) s r s' :
  rpc lossy call s r s' → cl_inv s → (∀ r s', call s = Ok (r, s') → rely s s') → rely s s'.
Proof. intros [r0 s0 E|e _|r0 s0 e _ E] Hs Hk; [by eapply Hk|by apply grows_refl|by eapply Hk]. Qed.

(** One direction keeps its state, and does to its source only what others may do. *)
Lemma sync_step_ok lossy from to p w p' w' :
  sync_step lossy from to p w p' w' → cl_inv w.1 → cl_inv w.2 → sync_ok p w.2 → rely w.1 w'.1 ∧ cl_inv w'.2 ∧ sync_ok p' w'.2.
Proof.
  intros Hstep If Is Hp. destruct Hstep as [f s r f' Hr|fid f s r s' Hr|fid t w t' w' Ht|fid t p' w Hc|fid ops f s r s' Hr|fid ops f s r s' Hr|fid ops f s r s' Hr]; cbn [fst snd] in *.
  - split_and!; [eapply rpc_rely; [exact Hr|done|]; intros; by eapply cl_GetName|done|by destruct r].
  - assert (rely s s') as Hs by (eapply rpc_rely; [exact Hr|done|]; intros; by eapply cl_GetName).
    split_and!; [by apply grows_refl|apply Hs|]. apply (closed_rely _ _ _ Hs) in Hp. destruct r; [done|]. cbn [after_to sync_ok]. by split.
  - destruct Hp as [Hid Hp]. destruct (task_step_inv _ _ _ _ _ _ Ht If Is) as (Hf & _ & Is' & _ & Hid'). split_and!; [done..|]. cbn [sync_ok]. split.
    + intros Hn. rewrite Hid' by done. apply Hid. intros ->. by inversion Ht.
    + intros Hcl. eapply task_step_closed; [exact Ht|done|done|done|]. apply Hp. by eapply clean_back.
  - split_and!; [by apply grows_refl|done|]. destruct Hp as [Hid Hp]. destruct t as [| | | | | |bid ops [e|]|]; simplify_eq/=; try done.
    destruct (Hp eq_refl) as [Hg Hcb]. rewrite <- Hid by done. by apply closed_delivered.
  - assert (rely s s') as Hs by (eapply rpc_rely; [exact Hr|done|]; intros; by eapply cl_SetName).
    split_and!; [by apply grows_refl|apply Hs|]. apply (delivered_evolves _ s') in Hp; [|apply Hs]. by destruct r as [|[]].
  - assert (rely s s') as Hs by (eapply rpc_rely; [exact Hr|done|]; intros; by eapply cl_Merge).
    split_and!; [by apply grows_refl|apply Hs|]. apply (delivered_evolves _ s') in Hp; [|apply Hs]. by destruct r as [|[]].
  - assert (rely s s') as Hs by (eapply rpc_rely; [exact Hr|done|]; intros; by eapply cl_Clear).
    split_and!; [by apply grows_refl|apply Hs|]. apply (delivered_evolves _ s') in Hp; [|apply Hs]. by destruct r as [|[]].
Qed.

(** The root that a direction has handed over to the target. *)
Definition handed_over (p : sync) : option string :=
  match p with
  | SyncName fid _ | SyncMerge fid _ | SyncClear fid _ | SyncDone fid _ None => Some fid
  | _ => None
  end.

Lemma run_ok lossy left right p q l r x :
  rtc (run_step lossy left right) (p, q, (l, r)) x → cl_inv l → cl_inv r → sync_ok p r → sync_ok q l →
  cl_inv x.2.1 ∧ cl_inv x.2.2 ∧ sync_ok x.1.1 x.2.2 ∧ sync_ok x.1.2 x.2.1.
Proof.
  intros Hrun. remember (p, q, (l, r)) as y eqn:Ey. revert p q l r Ey. induction Hrun as [y|y z x Hstep _ IH]; intros p q l r -> Il Ir Hp Hq; [done|].
  inversion Hstep as [??????? Hs|??????? Hs]; subst; destruct (sync_step_ok _ _ _ _ _ _ _ Hs) as (Hsrc & Itgt & Hp'); try done; cbn [fst snd] in *.
  - eapply IH; [done|apply Hsrc|done|done|]. by eapply sync_ok_rely.
  - eapply IH; [done|done|apply Hsrc| |done]. by eapply sync_ok_rely.
Qed.

(** C14: two servers that each hold the references of all their blocks are synchronised in both directions at once.  However
    the RPCs of the goroutines interleave, and whichever of them fail before or after the server did the work, a
    direction that names, merges or reports as synchronised a root has brought this root and every block below it to
    its target. *)
Theorem run_delivers lossy left right (l r : S) p q l' r' :
  cl_inv l → cl_inv r → closed l → closed r → rtc (run_step lossy left right) (SyncFrom, SyncFrom, (l, r)) (p, q, (l', r')) →
  (∀ fid, handed_over p = Some fid → delivered r' fid) ∧ (∀ fid, handed_over q = Some fid → delivered l' fid).
Proof.
  intros Il Ir Hl Hr Hrun. destruct (run_ok _ _ _ _ _ _ _ _ Hrun Il Ir Hr Hl) as (_ & _ & Hp & Hq). cbn [fst snd] in *.
  split; intros fid E; [destruct p as [| | | | | |?? []|]|destruct q as [| | | | | |?? []|]]; simplify_eq/=; done.
Qed.
End laws.

(** ** Every synchronisation without failures ends *)

Section liveness.
Context {S : Type} `{FsClientOk S}.
Abbreviation evolve := (evolves cl_has cl_refs).
Abbreviation full := (complete cl_has cl_refs).
Abbreviation rely := (grows cl_has cl_refs cl_inv).

(** Data that every target takes. *)
Definition accepted (id data : string) : Prop :=
  ∀ n t, cl_inv t → ∃ b t', rpc_StoreBlock n (mkPB id data BS_WEAK None) t = Ok (inr b, t').
(** Servers answer, and the id of a block determines its references. *)
Class FsClientLive : Prop := {
  live_Get : ∀ id d w s, cl_inv s → ∃ b s', rpc_GetBlockById id d w s = Ok (inr b, s');
  live_data : ∀ id s b s', cl_inv s → cl_has s id → rpc_GetBlockById id true false s = Ok (inr b, s') → accepted id (pb_Data b);
  live_Upgrade : ∀ id s, cl_inv s → ∃ b s', rpc_UpgradeBlockNonWeak id s = Ok (inr b, s') ∧ (cl_has s id → full s id → missing b = []);
  live_refs : ∀ id s s', cl_inv s → cl_inv s' → cl_has s id → cl_has s' id → cl_refs s' id = cl_refs s id
}.
Context `{!FsClientLive}.

(** [n] steps of the goroutines, with anything others may do in between. *)
Inductive runs (inName : string) : nat → task * (S * S) → task * (S * S) → Prop :=
  | runs_refl x : runs inName 0 x x
  | runs_step n t w t' w' x : task_step false inName t w t' w' → runs inName n (t', w') x → runs inName (Datatypes.S n) (t, w) x
  | runs_other n t f s f' s' x : rely f f' → rely s s' → runs inName n (t, (f', s')) x → runs inName n (t, (f, s)) x.

(** The blocks of the source below [root], and how deep they lie. *)
Context (f0 : S) (root : string) (h : string → nat).
Hypothesis Hf0 : cl_inv f0.
Hypothesis Hdel : delivered f0 root.
Hypothesis Hh : ∀ x y, below f0 root x → y ∈ cl_refs f0 x → h y < h x.
Abbreviation wanted := (below f0 root).

Fixpoint cost (n : nat) (x : string) : nat :=
  match n with O => 6 | Datatypes.S n => 6 + sum_list_with (cost n) (cl_refs f0 x) end.
Definition W (x : string) : nat := cost (h x) x.
Lemma cost_mono n n' x : n ≤ n' → cost n x ≤ cost n' x.
Proof.
  revert n' x. induction n as [|n IH]; intros n' x Hn; [destruct n'; cbn; lia|]. destruct n' as [|n']; [lia|]. cbn [cost].
  apply Nat.add_le_mono_l, sum_list_with_le. intros y _. apply IH. lia.
Qed.
Lemma W_step x : wanted x → 6 + sum_list_with W (cl_refs f0 x) ≤ W x.
Proof.
  intros Hx. unfold W at 2. destruct (h x) as [|n] eqn:En; cbn [cost].
  - destruct (cl_refs f0 x) as [|y l] eqn:El; [done|]. pose proof (Hh x y Hx ltac:(rewrite El; set_solver)). lia.
  - apply Nat.add_le_mono_l, sum_list_with_le. intros y Hy. apply cost_mono. pose proof (Hh x y Hx Hy). lia.
Qed.

Fixpoint weight (t : task) : nat :=
  match t with
  | CopyGet x => W x
  | CopyFetch x _ => W x - 1
  | CopyStore x _ _ => W x - 2
  | UpLoop _ _ b => 3 + sum_list_with W (missing b)
  | UpWait _ _ ts => 2 + sum_list_with weight ts
  | UpUpgrade _ _ => 1
  | _ => 0
  end.
Fixpoint lives (s : S) (t : task) : Prop :=
  match t with
  | CopyGet x | CopyFetch x _ => wanted x
  | CopyStore x _ d => wanted x ∧ accepted x d
  | UpLoop x _ b => wanted x ∧ cl_has s x ∧ covers cl_has cl_refs s x b
  | UpWait x _ ts => wanted x ∧ cl_has s x ∧ (∀ y, y ∈ cl_refs s x → cl_has s y ∨ y ∈ map task_id ts) ∧ foldr (λ t P, lives s t ∧ P) True ts
  | UpUpgrade x _ => wanted x ∧ cl_has s x ∧ full s x
  | Finished x _ e => cl_has s x ∧ e = None
  | Crashed => False
  end.
Lemma lives_wait s x ops ts :
  lives s (UpWait x ops ts) ↔ wanted x ∧ cl_has s x ∧ (∀ y, y ∈ cl_refs s x → cl_has s y ∨ y ∈ map task_id ts) ∧ Forall (lives s) ts.
Proof. cbn [lives]. do 3 apply and_iff_compat_l. induction ts as [|t ts IH]; cbn; [by split|]. by rewrite Forall_cons, IH. Qed.
Lemma covers_evolves s s' x b : evolve s s' → cl_has s x → covers cl_has cl_refs s x b → covers cl_has cl_refs s' x b.
Proof.
  intros He Hx [Hc Hs]. destruct (He x Hx) as [_ E]. split; [|by rewrite E]. intros y Hy. rewrite E in Hy. destruct (Hc y Hy); [left; by apply He|by right].
Qed.
Lemma lives_evolves s s' : evolve s s' → ∀ t, lives s t → lives s' t.
Proof.
  intros He. fix IH 1. intros [bid|bid ops|bid ops d|bid ops b|bid ops ts|bid ops|bid ops e|]; cbn [lives]; try done.
  - intros (Hw & Hx & Hc). split_and!; [done|by apply He|by eapply covers_evolves].
  - intros (Hw & Hx & Hc & Hts). destruct (He bid Hx) as [Hx' E]. split_and!; [done|done| |].
    + intros y Hy. rewrite E in Hy. destruct (Hc y Hy); [left; by apply He|by right].
    + clear Hc. induction ts as [|t ts IHts]; [done|]. destruct Hts as [Ht Hts]. split; [by apply IH|by apply IHts].
  - intros (Hw & Hx & Hf). split_and!; [done|by apply He|by eapply complete_evolves].
  - intros [Hx Hn]. split; [by apply He|done].
Qed.

Lemma rpc_answer {A} (call : S → res (gerr A * S)) s r s' a s1 : rpc false call s r s' → call s = Ok (inr a, s1) → r = inr a ∧ s' = s1.
Proof. intros [r0 s0 E|e|r0 s0 e ? E] E1; [|done..]. rewrite E in E1. by injection E1 as -> ->. Qed.
Lemma wanted_refs s x : cl_inv s → wanted x → cl_has s x → cl_refs s x = cl_refs f0 x.
Proof. intros Is Hx Hs. by apply live_refs; try apply Hdel. Qed.
Lemma wanted_missing s x b : cl_inv s → wanted x → cl_has s x → covers cl_has cl_refs s x b →
  sum_list_with W (missing b) ≤ W x - 6 ∧ 6 ≤ W x ∧ ∀ y, y ∈ missing b → wanted y.
Proof.
  intros Is Hx Hs [_ Hsub]. rewrite (wanted_refs s x Is Hx Hs) in Hsub. pose proof (W_step x Hx). pose proof (sum_list_with_sublist W _ _ Hsub).
  split_and!; [lia|lia|]. intros y Hy. eapply rtc_r; [exact Hx|]. by eapply sublist_in.
Qed.

Lemma live_step inName t w t' w' :
  task_step false inName t w t' w' → cl_inv w.1 → cl_inv w.2 → evolve f0 w.1 → lives w.2 t → lives w'.2 t' ∧ weight t' < weight t.
Proof.
  induction 1 as [bid f s r s' Hr|bid ops f s r f' Hr|bid ops data f s r s' Hr|bid ops b [f s]|bid ops ts i t t' w w' Hi Hstep IH|bid ops ts w Hc|bid ops ts t' w Hfin Hw|bid ops f s r s' Hr];
    intros If Is He Hl; cbn [fst snd] in *.
  - destruct (live_Get bid false true s Is) as (b & s1 & E). destruct (rpc_answer _ _ _ _ _ _ Hr E) as [-> ->]. cbn [after_get lives] in *.
    destruct (cl_Get _ _ _ _ _ _ Is E) as (Is1 & _ & _ & Hb). pose proof (W_step bid Hl). destruct (keqb (pb_Id b) "") eqn:Ek; [split; [done|cbn [weight]; lia]|].
    apply keqb_neq in Ek. destruct (Hb b eq_refl Ek) as [Hh1 Hc1]. specialize (Hc1 eq_refl).
    destruct (wanted_missing s1 bid b Is1 Hl Hh1 Hc1) as (? & ? & _). split; [done|]. cbn [weight]. lia.
  - destruct (live_Get bid true false f If) as (b & f1 & E). destruct (rpc_answer _ _ _ _ _ _ Hr E) as [-> ->]. cbn [after_fetch lives] in *.
    pose proof (W_step bid Hl). split; [|cbn [weight]; lia]. split; [done|]. eapply live_data; [exact If| |exact E]. by apply He, Hdel.
  - destruct Hl as [Hl Hacc]. destruct (Hacc inName s Is) as (b & s1 & E). destruct (rpc_answer _ _ _ _ _ _ Hr E) as [-> ->].
    destruct (cl_Store _ (mkPB bid data BS_WEAK None) _ _ _ Is eq_refl E) as (Is1 & _ & Hb). destruct (Hb b eq_refl) as (Hh1 & Hc1 & _). cbn [pb_Id] in *.
    destruct (wanted_missing s1 bid b Is1 Hl Hh1 Hc1) as (? & ? & _). split; [done|]. cbn [after_store weight]. lia.
  - destruct Hl as (Hl & Hh1 & Hc1). destruct (wanted_missing s bid b Is Hl Hh1 Hc1) as (_ & _ & Hm). unfold spawn. unfold missing in *.
    destruct Hc1 as [Hc1 _]. destruct (pb_MissingIds b) as [l|] eqn:Em; cbn beta iota in *; unfold missing in *; rewrite Em in *; cbn beta iota in *.
    + rewrite lives_wait. split_and!; [done|done| | |].
      * intros y Hy. destruct (Hc1 y Hy) as [|Hy2]; [by left|right]. by rewrite map_map, map_id.
      * apply Forall_forall. intros t Ht. apply list_elem_of_In, in_map_iff in Ht as (y & <- & Hy%list_elem_of_In). by apply Hm.
      * cbn [weight]; unfold missing; rewrite Em; cbn beta iota. assert (sum_list_with weight (map CopyGet l) = sum_list_with W l) as ->; [|lia]. clear. induction l; cbn; congruence.
    + split; [|cbn [weight]; lia]. split_and!; [done..|]. intros y Hy. by destruct (Hc1 y Hy) as [|?%elem_of_nil].
  - apply lives_wait in Hl as (Hl & Hh1 & Hc1 & Hts). pose proof (Forall_lookup_1 _ _ _ _ Hts Hi) as Ht.
    destruct (IH If Is He Ht) as [Ht' Hlt]. destruct (task_step_inv _ _ _ _ _ _ Hstep If Is) as (_ & _ & _ & Hev & Hid).
    split.
    + apply lives_wait. destruct (Hev bid Hh1) as [Hh2 E2]. split_and!; [done|done| |].
      * intros y Hy. rewrite E2 in Hy. destruct (Hc1 y Hy) as [|Hm]; [left; by apply Hev|right].
        rewrite list_fmap_insert, list_insert_id; [done|]. rewrite list_lookup_fmap, Hi. cbn. f_equal. symmetry. apply Hid. by intros ->.
      * apply Forall_insert; [|done]. eapply Forall_impl; [exact Hts|]. intros t0. by apply lives_evolves.
    + cbn [weight]. pose proof (sum_list_with_insert weight ts i t t' Hi). lia.
  - apply lives_wait in Hl as (_ & _ & _ & Hts). rewrite Forall_forall in Hts. by specialize (Hts _ Hc).
  - apply lives_wait in Hl as (Hl & Hh1 & Hc1 & Hts). rewrite Forall_forall in Hts, Hfin.
    assert (∀ t, t ∈ ts → cl_has w.2 (task_id t) ∧ err_of t = None) as Hdone.
    { intros t Ht. specialize (Hts t Ht). specialize (Hfin t Ht). by destruct t. }
    destruct Hw as [Hnone|t e Ht Herr]; [|by destruct (Hdone t Ht); congruence].
    split; [|cbn [weight]; lia]. split_and!; [done..|]. intros y Hy. destruct (Hc1 y Hy) as [|Hm]; [done|].
    apply list_elem_of_In, in_map_iff in Hm as (t & <- & Ht%list_elem_of_In). by apply Hdone.
  - destruct Hl as (Hl & Hh1 & Hf1). destruct (live_Upgrade bid s Is) as (b & s1 & E & Hm). destruct (rpc_answer _ _ _ _ _ _ Hr E) as [-> ->].
    destruct (cl_Upgrade _ _ _ _ Is E) as (_ & Hev & _). cbn [after_upgrade]. rewrite (Hm Hh1 Hf1). split; [|cbn [weight]; lia]. split; [by apply Hev|done].
Qed.

(** A goroutine that is not finished can go on. *)
Lemma live_progress inName w : cl_inv w.1 → cl_inv w.2 → evolve f0 w.1 → ∀ t, lives w.2 t → is_finished t = true ∨ ∃ t' w', task_step false inName t w t' w'.
Proof.
  destruct w as [f s]. cbn [fst snd]. intros If Is He. fix IH 1. intros [bid|bid ops|bid ops d|bid ops b|bid ops ts|bid ops|bid ops e|] Hl; [right|right|right|right| |right|by left|done].
  - destruct (live_Get bid false true s Is) as (b & s1 & E). eexists _, _. apply step_get. by apply rpc_reply.
  - destruct (live_Get bid true false f If) as (b & f1 & E). eexists _, _. apply step_fetch. by apply rpc_reply.
  - destruct Hl as [_ Hacc]. destruct (Hacc inName s Is) as (b & s1 & E). eexists _, _. apply step_store. by apply rpc_reply.
  - eexists _, _. apply step_spawn.
  - right. assert (Forall (λ t, is_finished t = true) ts ∨ ∃ i t t' w', ts !! i = Some t ∧ task_step false inName t (f, s) t' w') as [Hfin|(i & t & t' & w' & Hi & Hs)].
    { destruct Hl as (_ & _ & _ & Hts). induction ts as [|t ts IHts]; [by left|]. destruct Hts as [Ht Hts].
      destruct (IH t Ht) as [Hf|(t' & w' & Hs)]; [|right; by exists 0, t, t', w'].
      destruct (IHts Hts) as [|(i & x & t' & w' & Hi & Hs)]; [left; by constructor|right; by exists (Datatypes.S i), x, t', w']. }
    + eexists _, _. apply step_wait; [done|]. apply wait_ok. apply lives_wait in Hl as (_ & _ & _ & Hts). rewrite Forall_forall in Hts, Hfin |- *.
      intros t Ht. specialize (Hts t Ht). specialize (Hfin t Ht). destruct t; try done. by destruct Hts.
    + eexists _, _. by eapply step_child.
  - destruct (live_Upgrade bid s Is) as (b & s1 & E & _). eexists _, _. apply step_upgrade. by apply rpc_reply.
Qed.

Lemma runs_live inName n t w x :
  runs inName n (t, w) x → cl_inv w.1 → cl_inv w.2 → evolve f0 w.1 → lives w.2 t →
  cl_inv x.2.1 ∧ cl_inv x.2.2 ∧ evolve f0 x.2.1 ∧ lives x.2.2 x.1 ∧ n + weight x.1 ≤ weight t ∧ (x.1 ≠ Crashed → task_id x.1 = task_id t).
Proof.
  remember (t, w) as y eqn:Ey. intros Hr. revert t w Ey. induction Hr as [x|n t w t' w' x Hs _ IH|n t f s f' s' x Hf Hs _ IH]; intros t0 w0 Ey If Is He Hl; simplify_eq/=.
  - by split_and!.
  - destruct (live_step _ _ _ _ _ Hs If Is He Hl) as [Hl' Hw]. destruct (task_step_inv _ _ _ _ _ _ Hs If Is) as (Hf & _ & Is' & _ & Hid).
    destruct (IH _ _ eq_refl) as (? & ? & ? & ? & ? & Hid2); [apply Hf|done|etrans; [done|apply Hf]|done|]. split_and!; [done..|lia|].
    intros Hn. rewrite Hid2 by done. apply Hid. by intros ->.
  - apply (IH _ _ eq_refl); cbn; [apply Hf|apply Hs|etrans; [done|apply Hf]|]. eapply lives_evolves; [apply Hs|done].
Qed.
End liveness.

Section termination.
Context {S : Type} `{FsClientLive S}.

(** C15: over a network that loses nothing, copying a root whose blocks are all on the source ends: there is a bound on the
    number of RPCs and waits of all goroutines together, whatever their interleaving and whatever other clients add to
    both servers in between, and until the copy is finished without an error some goroutine can go on.  The depth of
    a block is a number that falls along references, which cannot form cycles, as ids are hashes. *)
Theorem copy_terminates inName (f s : S) root (h : string → nat) :
  cl_inv f → cl_inv s → delivered f root → (∀ x y, below f root x → y ∈ cl_refs f x → h y < h x) →
  ∃ N, ∀ n t w, runs inName n (CopyGet root, (f, s)) (t, w) →
    n ≤ N ∧ ((∃ ops, t = Finished root ops None) ∨ ∃ t' w', task_step false inName t w t' w').
Proof.
  intros If Is Hd Hh. exists (W f h root). intros n t w Hr.
  destruct (runs_live f root h If Hd Hh inName n _ _ _ Hr) as (If' & Is' & He & Hl & Hn & Hid); [done|done|done|constructor|]. cbn [fst snd weight] in *. split; [lia|].
  destruct (live_progress f root inName w If' Is' He t Hl) as [Hf|]; [left|by right].
  destruct t as [| | | | | |bid ops e|]; try done. destruct Hl as [_ ->]. exists ops. specialize (Hid ltac:(done)). cbn in Hid. by subst.
Qed.
End termination.
