(* ===== verification/Server.v ===== *)
(** * The server (src/server/server.go)

    The handlers of the RPC service over a storage and a tree of its own, in which the copies that a connector stores
    are kept under a name until they are merged.  The storage is here at the level of its contract: blocks by
    id with their status, open handles, and names ([Storage] models how it keeps that); blocks do not expire, since the
    tree, the names and the open handles keep them.  The file system beside the server is an interface, [ServedFs]. *)
From stdpp Require Import base list sets strings sorting gmap relations.
From Stdlib Require Import ZArith Lia Ascii.
From S2P Require Import Prelude OrderedMap Util IBNode NodeBytes BlockKey Codec Backend TreeBackend TreeStore FsState FileIO Connector.

(** ** The storage *)

Record stored : Type := mkStored { s_status : BlockStatus; s_data : string }.
Record store : Type := mkStore { st_blocks : gmap string stored; st_open : gmap string nat; st_names : gmap string string }.

Definition st_opened (id : string) (s : store) : store :=
  mkStore (st_blocks s) (<[id := Datatypes.S (default 0 (st_open s !! id))]> (st_open s)) (st_names s).
Definition st_Close (id : string) (s : store) : store :=
  mkStore (st_blocks s) (<[id := pred (default 0 (st_open s !! id))]> (st_open s)) (st_names s).
Definition st_put (id : string) (b : stored) (s : store) : store := mkStore (<[id := b]> (st_blocks s)) (st_open s) (st_names s).

(** [Storage.GetBlockById]: a handle, when the block is there. *)
Definition st_GetBlockById (id : string) (s : store) : option stored * store :=
  match st_blocks s !! id with Some b => (Some b, st_opened id s) | None => (None, s) end.
Definition st_GetBlockIdByName (name : string) (s : store) : string := default "" (st_names s !! name).
(** The block of a name must be there. *)
Definition st_SetNameToBlockId (name id : string) (s : store) : res store :=
  if negb (keqb id "") && bool_decide (st_blocks s !! id = None) then Panic "invalid memory address or nil pointer dereference"
  else Ok (mkStore (st_blocks s) (st_open s) (<[name := id]> (st_names s))).

Definition ErrWrongId : string := "Block id mismatch decode <> locally calculated".

(** What the server uses of the file system: the root block of its tree, flushed, and merging the tree of a block into
    it, with the tree of another block as the common ancestor.  Both may store blocks. *)
Class ServedFs (F : Type) := {
  fs_RootName : string;
  fs_RootBlock : F → store → res (option string * (F * store));
  fs_Merge : option string → string → F → store → res (F * store)
}.

Section server.
Context {R T F : Type} (Sum256 : string → string) (callback : string → string → list string) (codec : Codec R).
Context `{TxStore T} `{!TxRange T} `{!ServedFs F}.

(** [sv_kept] are the blocks of the Hugger, which hold a handle each. *)
Record Server : Type := mkServer { sv_store : store; sv_tree : T; sv_kept : gset string; sv_random : R; sv_fs : F }.
Definition set_store (x : store) (sv : Server) : Server := mkServer x (sv_tree sv) (sv_kept sv) (sv_random sv) (sv_fs sv).
Definition set_tree (x : T) (sv : Server) : Server := mkServer (sv_store sv) x (sv_kept sv) (sv_random sv) (sv_fs sv).

(** [iterateReferences]: the list is built from its front. *)
Definition st_refs (s : store) (id : string) : list string :=
  match st_blocks s !! id with Some b => rev (callback id (s_data b)) | None => [] end.

(** [StorageBlock.SetStatus]: a status with references needs all of them. *)
Definition st_SetStatus (id : string) (st : BlockStatus) (s : store) : bool * store :=
  match st_blocks s !! id with
  | None => (false, s)
  | Some b =>
      if (s_status b =? st)%Z then (true, s)
      else if (st <? BS_WANT_NORMAL)%Z && negb (s_status b <? BS_WANT_NORMAL)%Z &&
              negb (forallb (λ y, bool_decide (is_Some (st_blocks s !! y))) (st_refs s id))
           then (false, s)
           else (true, st_put id (mkStored st (s_data b)) s)
  end.

(** [Hugger.GetStorageBlock] without node data: a block that is there keeps its status, and a second handle is closed. *)
Definition GetStorageBlock (st : BlockStatus) (data : string) (sv : Server) : string * Server :=
  let id := Sum256 data in
  let s := sv_store sv in
  let s := match st_blocks s !! id with Some _ => s | None => st_put id (mkStored st data) s end in
  let s := st_opened id s in
  let s := if decide (id ∈ sv_kept sv) then st_Close id s else s in
  (id, mkServer s (sv_tree sv) ({[id]} ∪ sv_kept sv) (sv_random sv) (sv_fs sv)).

(** ** The handlers *)

Fixpoint missing_ids (ids : list string) (s : store) : list string * store :=
  match ids with
  | [] => ([], s)
  | id :: ids' =>
      match st_GetBlockById id s with
      | (None, s) => let '(l, s) := missing_ids ids' s in (id :: l, s)
      | (Some _, s) => missing_ids ids' (st_Close id s)
      end
  end.
Definition srv_getBlock (id : string) (wantData wantMissing : bool) (sv : Server) : gerr pbBlock * Server :=
  match st_GetBlockById id (sv_store sv) with
  | (None, s) => (inr pbBlock0, set_store s sv)
  | (Some b, s) =>
      let '(data, rnd) := if wantData then EncodeBytes codec (s_data b) id (sv_random sv) else (inr "", sv_random sv) in
      match data with
      | inl err => (inl err, mkServer (st_Close id s) (sv_tree sv) (sv_kept sv) rnd (sv_fs sv))
      | inr data =>
          let '(ms, s) := if wantMissing && (s_status b =? BS_WEAK)%Z
                          then let '(l, s) := missing_ids (st_refs s id) s in (Some l, s) else (None, s) in
          (inr (mkPB id data (s_status b) ms), mkServer (st_Close id s) (sv_tree sv) (sv_kept sv) rnd (sv_fs sv))
      end
  end.
Definition srv_GetBlockById (id : string) (wantData wantMissing : bool) (sv : Server) : res (gerr pbBlock * Server) :=
  Ok (srv_getBlock id wantData wantMissing sv).

Definition srv_ClearBlocksInName (name : string) (sv : Server) : res (gerr unit * Server) :=
  let k1 := NewBlockKeyNameBlock name "" in
  let k2 := NewBlockKeyNameEnd name in
  let! tr := tx_DeleteRange k1 k2 (sv_tree sv) in
  Ok (inr tt, set_tree tr sv).

Definition srv_GetBlockIdByName (name : string) (sv : Server) : res (gerr string * Server) :=
  let! x :=
    (if keqb name fs_RootName then
       let! r := fs_RootBlock (sv_fs sv) (sv_store sv) in
       let '(block, (f, s)) := (r : option string * (F * store)) in
       Ok (default "" block, mkServer s (sv_tree sv) (sv_kept sv) (sv_random sv) f)
     else Ok ("", sv)) in
  let '(bid, sv) := (x : string * Server) in
  if negb (keqb bid "") then Ok (inr bid, sv) else Ok (inr (st_GetBlockIdByName name (sv_store sv)), sv).

Definition srv_SetNameToBlockId (name id : string) (sv : Server) : res (gerr bool * Server) :=
  let! s := st_SetNameToBlockId name id (sv_store sv) in Ok (inr true, set_store s sv).

(** [LoadNodeByName] gives the root of the block of a name, or a new root when there is none. *)
Definition srv_MergeBlockNameTo (fromName toName : string) (sv : Server) : res (gerr bool * Server) :=
  let n0 := fromName +:+ "." +:+ toName in
  let b0 := st_GetBlockIdByName n0 (sv_store sv) in
  let b := st_GetBlockIdByName fromName (sv_store sv) in
  if keqb b "" then Panic "nonexistent src"
  else if negb (keqb toName fs_RootName) then Panic "non-fs merges not supported"
  else
    let! r := fs_Merge (if keqb b0 "" then None else Some b0) b (sv_fs sv) (sv_store sv) in
    let '(f, s) := (r : F * store) in
    let! r := fs_RootBlock f s in
    let '(block, (f, s)) := (r : option string * (F * store)) in
    match block with
    | None => Panic "invalid memory address or nil pointer dereference"
    | Some id =>
        let! s := st_SetNameToBlockId n0 id s in
        Ok (inr true, mkServer s (sv_tree sv) (sv_kept sv) (sv_random sv) f)
    end.

Definition srv_StoreBlock (name : string) (blk : pbBlock) (sv : Server) : res (gerr pbBlock * Server) :=
  let bid := pb_Id blk in
  match DecodeBytes codec (pb_Data blk) bid with
  | inl err => Ok (inl err, sv)
  | inr data =>
      let '(id, sv) := GetStorageBlock (pb_Status blk mod 256)%Z data sv in
      if negb (keqb id bid) then Ok (inl ErrWrongId, sv)
      else
        let! tr := tx_Set (NewBlockKeyNameBlock name id) id (sv_tree sv) in
        Ok (srv_getBlock bid false true (set_tree tr sv))
  end.

(** The handle is not closed. *)
Definition srv_UpgradeBlockNonWeak (bid : string) (sv : Server) : res (gerr pbBlock * Server) :=
  let sv :=
    match st_GetBlockById bid (sv_store sv) with
    | (None, s) => set_store s sv
    | (Some _, s) => set_store (st_SetStatus bid BS_NORMAL s).2 sv
    end in
  Ok (srv_getBlock bid false true sv).

#[local] Instance server_FsClient : FsClient Server := {
  rpc_GetBlockIdByName := srv_GetBlockIdByName;
  rpc_GetBlockById := srv_GetBlockById;
  rpc_StoreBlock := srv_StoreBlock;
  rpc_UpgradeBlockNonWeak := srv_UpgradeBlockNonWeak;
  rpc_SetNameToBlockId := srv_SetNameToBlockId;
  rpc_MergeBlockNameTo := srv_MergeBlockNameTo;
  rpc_ClearBlocksInName := srv_ClearBlocksInName
}.

(** ** What the connector relies on *)

Definition st_has (s : store) (id : string) : Prop := is_Some (st_blocks s !! id).
(** Ids are hashes, and a block whose references may be missing is weak. *)
Record st_ok (s : store) : Prop := {
  so_hash : ∀ id b, st_blocks s !! id = Some b → Sum256 (s_data b) = id;
  so_status : ∀ id b, st_blocks s !! id = Some b → s_status b = BS_WEAK ∨ complete st_has st_refs s id
}.
Class ServedFsOk : Prop := {
  fs_RootBlock_ok : ∀ f s o f' s', st_ok s → fs_RootBlock f s = Ok (o, (f', s')) → grows st_has st_refs st_ok s s';
  fs_Merge_ok : ∀ o b f s f' s', st_ok s → fs_Merge o b f s = Ok (f', s') → grows st_has st_refs st_ok s s'
}.
Context `{!TxStoreOk T} `{!TxRangeOk T} `{!ServedFsOk}.

Definition sv_has (sv : Server) : string → Prop := st_has (sv_store sv).
Definition sv_refs (sv : Server) : string → list string := st_refs (sv_store sv).
Record sv_ok (sv : Server) : Prop := { vo_store : st_ok (sv_store sv); vo_tree : ∃ m, tx_rep (sv_tree sv) m }.

(** *** The storage *)

Lemma same_refs s s' id : st_blocks s' = st_blocks s → st_refs s' id = st_refs s id.
Proof. intros E. unfold st_refs. by rewrite E. Qed.
Lemma same_ok s s' : st_blocks s' = st_blocks s → st_ok s → st_ok s'.
Proof.
  intros E [Hh Hs]. split; intros id b; rewrite E; [apply Hh|]. intros Hb. destruct (Hs id b Hb) as [|Hc]; [by left|right].
  intros y Hy. rewrite (same_refs s s' id E) in Hy. unfold st_has. rewrite E. by apply Hc.
Qed.
Lemma same_evolves s s' : st_blocks s' = st_blocks s → evolves st_has st_refs s s'.
Proof. intros E id Hid. unfold st_has. rewrite E. split; [done|by apply same_refs]. Qed.
Lemma same_grows s s' : st_blocks s' = st_blocks s → st_ok s → grows st_has st_refs st_ok s s'.
Proof. intros E Hs. split_and!; [by eapply same_ok|by apply same_evolves|]. intros x Hx. left. unfold st_has in *. by rewrite <- E. Qed.

(** A block that was not there, or changed its status only. *)
Lemma put_evolves id b s : (∀ b0, st_blocks s !! id = Some b0 → s_data b0 = s_data b) → evolves st_has st_refs s (st_put id b s).
Proof.
  intros Hd x [b0 Hx]. unfold st_has, st_refs. cbn. rewrite Hx. destruct (decide (x = id)) as [->|Hne].
  - rewrite lookup_insert_eq. split; [done|]. by rewrite (Hd b0 Hx).
  - rewrite lookup_insert_ne by done. rewrite Hx. by split.
Qed.
Lemma put_has id b s x : st_has (st_put id b s) x ↔ x = id ∨ st_has s x.
Proof.
  unfold st_has. cbn. destruct (decide (x = id)) as [->|Hne]; [rewrite lookup_insert_eq; split; [by left|done]|]. rewrite lookup_insert_ne by done.
  split; [by right|]. by intros [|].
Qed.
Lemma st_put_ok id b s :
  st_ok s → Sum256 (s_data b) = id → (∀ b0, st_blocks s !! id = Some b0 → s_data b0 = s_data b) →
  s_status b = BS_WEAK ∨ complete st_has st_refs (st_put id b s) id → st_ok (st_put id b s).
Proof.
  intros Hs Hh Hd Hst. split; intros x b1 Hx; cbn in Hx; apply lookup_insert_Some in Hx as [[<- <-]|[Hne Hx]]; [done|by eapply so_hash|done|].
  destruct (so_status _ Hs x b1 Hx) as [|Hc]; [by left|right]. pose proof (put_evolves id b s Hd) as He.
  intros y Hy. destruct (He x) as [_ E]; [by exists b1|]. rewrite E in Hy. by apply He, Hc.
Qed.

Lemma missing_ids_ok ids s : ∃ s', missing_ids ids s = (List.filter (λ y, negb (bool_decide (is_Some (st_blocks s !! y)))) ids, s') ∧ st_blocks s' = st_blocks s.
Proof.
  revert s. induction ids as [|id ids IH]; intros s; cbn [missing_ids List.filter]; [by exists s|]. unfold st_GetBlockById.
  destruct (st_blocks s !! id) as [b|] eqn:E; cbn.
  - destruct (IH (st_Close id (st_opened id s))) as (s' & E' & Hb). exists s'. split; [exact E'|by rewrite Hb].
  - destruct (IH s) as (s' & E' & Hb). rewrite E'. by exists s'.
Qed.
Lemma filter_sublist {A} (f : A → bool) l : List.filter f l `sublist_of` l.
Proof. induction l as [|x l IH]; cbn; [done|]. destruct (f x); by constructor. Qed.

(** An answer of [getBlock]. *)
Lemma srv_getBlock_ok id d w sv r sv' :
  sv_ok sv → srv_getBlock id d w sv = (r, sv') →
  sv_ok sv' ∧ st_blocks (sv_store sv') = st_blocks (sv_store sv) ∧
  match r with
  | inl e => d = true ∧ ∃ b, st_blocks (sv_store sv) !! id = Some b ∧ (EncodeBytes codec (s_data b) id (sv_random sv)).1 = inl e
  | inr b =>
      (st_blocks (sv_store sv) !! id = None ∧ b = pbBlock0) ∨
      ∃ x, st_blocks (sv_store sv) !! id = Some x ∧ pb_Id b = id ∧ (d = true → (EncodeBytes codec (s_data x) id (sv_random sv)).1 = inr (pb_Data b)) ∧
        (w = true → covers sv_has sv_refs sv' id b ∧ ∀ y, y ∈ missing b → ¬ sv_has sv y)
  end.
Proof.
  intros [Hs Ht]. unfold srv_getBlock, st_GetBlockById. destruct (st_blocks (sv_store sv) !! id) as [x|] eqn:Ex.
  2: { intros [= <- <-]. split_and!; [by split|done|by left]. }
  destruct (if d then _ else _) as [[e|data] rnd] eqn:Ed.
  { intros [= <- <-]. destruct d; [|done]. split_and!; [split; [by eapply same_ok; [|exact Hs]|done]|done|done|]. exists x. by rewrite Ed. }
  destruct (if w && _ then _ else _) as [ms s2] eqn:Em. intros [= <- <-].
  assert (st_blocks s2 = st_blocks (sv_store sv)) as Hb.
  { destruct (w && _); [|by injection Em as <- <-]. destruct (missing_ids_ok (st_refs (st_opened id (sv_store sv)) id) (st_opened id (sv_store sv))) as (s3 & E3 & H3).
    rewrite E3 in Em. by injection Em as <- <-. }
  split_and!; [split; [by eapply same_ok; [|exact Hs]|done]|done|]. right. exists x. split_and!; [done|done|by intros ->; rewrite Ed|]. intros ->. cbn [andb] in Em.
  set (s' := st_Close id s2). assert (st_refs s' id = st_refs (sv_store sv) id) as Er by by apply same_refs.
  assert (∀ y, st_has s' y ↔ st_has (sv_store sv) y) as Hh by (intros y; unfold st_has, s'; cbn [st_blocks st_Close]; by rewrite Hb).
  destruct (Z.eqb_spec (s_status x) BS_WEAK) as [Hw|Hw].
  - destruct (missing_ids_ok (st_refs (st_opened id (sv_store sv)) id) (st_opened id (sv_store sv))) as (s3 & E3 & H3). rewrite E3 in Em. injection Em as <- <-.
    unfold covers, missing. cbn [pb_MissingIds]. change (st_refs (st_opened id (sv_store sv)) id) with (st_refs (sv_store sv) id).
    split; [split|]; unfold sv_refs, sv_has; cbn [sv_store]; fold s'.
    + intros y Hy. rewrite Er in Hy. destruct (decide (is_Some (st_blocks (sv_store sv) !! y))) as [Hy1|Hn]; [left; by apply Hh|right].
      apply list_elem_of_In, filter_In. split; [by apply list_elem_of_In|]. apply negb_true_iff, bool_decide_eq_false. exact Hn.
    + rewrite Er. apply filter_sublist.
    + intros y Hy. apply list_elem_of_In, filter_In in Hy as [_ Hn]. by apply negb_true_iff, bool_decide_eq_false in Hn.
  - injection Em as <- <-. destruct (so_status _ Hs id x Ex) as [|Hc]; [done|].
    split; [|by intros y ?%elem_of_nil]. split; [|apply sublist_nil_l]. unfold sv_refs, sv_has. cbn [sv_store]. fold s'.
    intros y Hy. left. rewrite Er in Hy. by apply Hh, Hc.
Qed.

(** *** The laws *)

Lemma sv_grows sv sv' : sv_ok sv' → grows st_has st_refs st_ok (sv_store sv) (sv_store sv') → grows sv_has sv_refs sv_ok sv sv'.
Proof. intros Hok (_ & He & Hn). split_and!; [done|exact He|exact Hn]. Qed.
Lemma sv_same sv sv' : st_blocks (sv_store sv') = st_blocks (sv_store sv) →
  evolves sv_has sv_refs sv sv' ∧ ∀ x, sv_has sv' x → sv_has sv x.
Proof. intros E. split; [by apply same_evolves|]. intros x. unfold sv_has, st_has. by rewrite E. Qed.
Lemma covers_same sv sv' id b : st_blocks (sv_store sv') = st_blocks (sv_store sv) → covers sv_has sv_refs sv id b → covers sv_has sv_refs sv' id b.
Proof.
  intros E [Hc Hs]. unfold covers, sv_refs, sv_has, st_has in *. rewrite (same_refs (sv_store sv) (sv_store sv') id E).
  split; [|done]. intros y Hy. rewrite E. by apply Hc.
Qed.

Lemma srv_Get_law id d w sv r sv' :
  sv_ok sv → srv_GetBlockById id d w sv = Ok (r, sv') →
  sv_ok sv' ∧ evolves sv_has sv_refs sv sv' ∧ (∀ x, sv_has sv' x → sv_has sv x) ∧
  ∀ b, r = inr b → pb_Id b ≠ "" → sv_has sv' id ∧ (w = true → covers sv_has sv_refs sv' id b).
Proof.
  unfold srv_GetBlockById. intros Hok [= E]. destruct (srv_getBlock_ok _ _ _ _ _ _ Hok E) as (Hok' & Hb & Hr). destruct (sv_same sv sv' Hb) as [He Hn].
  split_and!; [done..|]. intros b ->. intros Hne. destruct Hr as [[_ ->]|(x & Hx & _ & _ & Hc)]; [done|].
  split; [unfold sv_has, st_has; rewrite Hb; by exists x|]. intros Hw. by apply Hc.
Qed.

Lemma srv_GetStorageBlock_ok st data sv id sv' :
  sv_ok sv → st = BS_WEAK → GetStorageBlock st data sv = (id, sv') →
  id = Sum256 data ∧ sv_ok sv' ∧ evolves sv_has sv_refs sv sv' ∧ sv_has sv' id ∧ (∀ x, sv_has sv' x → sv_has sv x ∨ x = id) ∧ sv_tree sv' = sv_tree sv.
Proof.
  intros [Hs Ht] -> . unfold GetStorageBlock. set (s1 := match st_blocks (sv_store sv) !! Sum256 data with Some _ => _ | None => _ end). intros [= <- <-].
  set (s2 := if decide _ then _ else _). assert (st_blocks s2 = st_blocks s1) as E2 by (unfold s2; by destruct (decide _)).
  assert (st_ok s1 ∧ evolves st_has st_refs (sv_store sv) s1 ∧ st_has s1 (Sum256 data) ∧ ∀ x, st_has s1 x → st_has (sv_store sv) x ∨ x = Sum256 data) as (H1 & He & Hh & Hn).
  { unfold s1. destruct (st_blocks (sv_store sv) !! Sum256 data) as [b|] eqn:Eb.
    - split_and!; [done|by apply same_evolves|by exists b|by left].
    - split_and!; [apply st_put_ok; [done|done|by rewrite Eb|by left]|apply put_evolves; by rewrite Eb|by apply put_has; left|]. intros x [->|]%put_has; [by right|by left]. }
  assert (∀ x, st_has s2 x ↔ st_has s1 x) as Hh2 by (intros x; unfold st_has; by rewrite E2).
  split_and!; [done|split; [by eapply same_ok|done]| |by apply Hh2| |done].
  - intros x Hx. destruct (He x Hx) as [A B]. split; [by apply Hh2|]. unfold sv_refs. cbn [sv_store]. rewrite <- B. by apply same_refs.
  - intros x Hx. apply Hn. by apply Hh2.
Qed.

Lemma srv_Store_law n blk sv r sv' :
  sv_ok sv → pb_Status blk = BS_WEAK → srv_StoreBlock n blk sv = Ok (r, sv') →
  sv_ok sv' ∧ evolves sv_has sv_refs sv sv' ∧
  ∀ b, r = inr b → sv_has sv' (pb_Id blk) ∧ covers sv_has sv_refs sv' (pb_Id blk) b ∧ ∀ x, sv_has sv' x → sv_has sv x ∨ x = pb_Id blk.
Proof.
  intros Hok Hw. unfold srv_StoreBlock. rewrite Hw. change (BS_WEAK mod 256)%Z with BS_WEAK. destruct (DecodeBytes codec (pb_Data blk) (pb_Id blk)) as [e|data].
  { intros [= <- <-]. split_and!; [done|by apply same_evolves|done]. }
  destruct (GetStorageBlock BS_WEAK data sv) as [id sv1] eqn:E1. destruct (srv_GetStorageBlock_ok _ _ _ _ _ Hok eq_refl E1) as (-> & Hok1 & He1 & Hh1 & Hn1 & _).
  destruct (keqb (Sum256 data) (pb_Id blk)) eqn:Ek; cbn [negb]; [|intros [= <- <-]; by split_and!].
  apply keqb_eq in Ek. rewrite <- Ek in *. destruct Hok1 as [Hs1 [m1 Ht1]].
  destruct (tx_Set_ok (NewBlockKeyNameBlock n (Sum256 data)) (Sum256 data) _ _ Ht1) as (t2 & Et & Ht2). rewrite Et. cbn [res_bind].
  set (sv2 := set_tree t2 sv1). assert (sv_ok sv2) as Hok2 by (split; [done|by eexists]). intros [= E].
  destruct (srv_getBlock_ok _ _ _ _ _ _ Hok2 E) as (Hok' & Hb & Hr). change (sv_store sv2) with (sv_store sv1) in Hb. destruct (sv_same sv1 sv' Hb) as [He Hn].
  split_and!; [done|by etrans|]. intros b ->. split_and!.
  - by apply He.
  - destruct Hr as [[Hnone _]|(x & _ & _ & _ & Hc)]; [|by apply Hc]. destruct Hh1 as [y Hy]. change (sv_store sv2) with (sv_store sv1) in Hnone. congruence.
  - intros x Hx. by apply Hn1, Hn.
Qed.

Lemma st_SetStatus_ok id s : st_ok s → st_ok (st_SetStatus id BS_NORMAL s).2 ∧ evolves st_has st_refs s (st_SetStatus id BS_NORMAL s).2 ∧
  ∀ x, st_has (st_SetStatus id BS_NORMAL s).2 x → st_has s x.
Proof.
  intros Hs. unfold st_SetStatus. destruct (st_blocks s !! id) as [b|] eqn:Eb; [|split_and!; [done|by apply same_evolves|done]].
  destruct (s_status b =? BS_NORMAL)%Z; [split_and!; [done|by apply same_evolves|done]|].
  destruct ((BS_NORMAL <? BS_WANT_NORMAL)%Z && _ && _) eqn:Ec; [split_and!; [done|by apply same_evolves|done]|]. cbn [snd].
  assert (∀ b0, st_blocks s !! id = Some b0 → s_data b0 = s_data (mkStored BS_NORMAL (s_data b))) as Hd by (intros b0 E; by rewrite Eb in E; injection E as <-).
  pose proof (put_evolves id (mkStored BS_NORMAL (s_data b)) s Hd) as He. split_and!; [|done|].
  - apply st_put_ok; [done|exact (so_hash _ Hs id b Eb)|done|right]. intros y Hy. destruct (He id) as [_ E]; [by exists b|]. rewrite E in Hy. apply He.
    apply andb_false_iff in Ec as [Ec|Ec].
    + destruct (so_status _ Hs id b Eb) as [Hw|Hc]; [rewrite Hw in Ec; done|by apply Hc].
    + apply negb_false_iff in Ec. rewrite forallb_forall in Ec. apply list_elem_of_In, Ec, bool_decide_eq_true in Hy. exact Hy.
  - intros x [->|]%put_has; [by exists b|done].
Qed.
Lemma srv_Upgrade_law id sv r sv' :
  sv_ok sv → srv_UpgradeBlockNonWeak id sv = Ok (r, sv') →
  sv_ok sv' ∧ evolves sv_has sv_refs sv sv' ∧ (∀ x, sv_has sv' x → sv_has sv x) ∧
  ∀ b, r = inr b → sv_has sv id → covers sv_has sv_refs sv' id b ∧ (complete sv_has sv_refs sv id → missing b = []).
Proof.
  intros [Hs Ht]. unfold srv_UpgradeBlockNonWeak, st_GetBlockById. set (sv1 := match _ with (Some _, s) => _ | (None, s) => _ end). intros [= E].
  assert (sv_ok sv1 ∧ evolves sv_has sv_refs sv sv1 ∧ ∀ x, sv_has sv1 x → sv_has sv x) as (Hok1 & He1 & Hn1).
  { unfold sv1. destruct (st_blocks (sv_store sv) !! id) as [b|] eqn:Eb; [|split_and!; [by split|by apply same_evolves|done]].
    set (s1 := st_opened id (sv_store sv)). assert (st_ok s1) as Hs1 by by eapply same_ok; [|exact Hs].
    destruct (st_SetStatus_ok id s1 Hs1) as (H1 & H2 & H3). split_and!; [by split|exact H2|exact H3]. }
  destruct (srv_getBlock_ok _ _ _ _ _ _ Hok1 E) as (Hok' & Hb & Hr). destruct (sv_same sv1 sv' Hb) as [He Hn].
  split_and!; [done|by etrans|by intros x Hx; apply Hn1, Hn|]. intros b -> Hid. destruct Hr as [[Hnone _]|(x & _ & _ & _ & Hc)].
  - destruct (He1 id Hid) as [[y Hy] _]. congruence.
  - destruct (Hc eq_refl) as [Hcov Hmiss]. split; [done|]. intros Hcomp. destruct (missing b) as [|y l] eqn:Em; [done|]. exfalso.
    apply (Hmiss y); [set_solver|]. apply He1, Hcomp. destruct Hcov as [_ Hsub]. rewrite Em in Hsub.
    destruct (He1 id Hid) as [Hid1 E1]. destruct (He id Hid1) as [_ E2]. rewrite <- E1, <- E2. eapply sublist_in; [exact Hsub|set_solver].
Qed.

Lemma srv_SetName_law n id sv r sv' : sv_ok sv → srv_SetNameToBlockId n id sv = Ok (r, sv') → grows sv_has sv_refs sv_ok sv sv'.
Proof.
  intros [Hs Ht]. unfold srv_SetNameToBlockId, st_SetNameToBlockId. destruct (_ && _); [done|]. intros [= <- <-].
  apply sv_grows; [split; [by eapply same_ok; [|exact Hs]|done]|by apply same_grows].
Qed.
Lemma srv_GetName_law n sv r sv' : sv_ok sv → srv_GetBlockIdByName n sv = Ok (r, sv') → grows sv_has sv_refs sv_ok sv sv'.
Proof.
  intros [Hs Ht]. unfold srv_GetBlockIdByName. set (x := if keqb n fs_RootName then _ else _). destruct x as [[bid sv1]| |] eqn:Ex; cbn [res_bind]; [|done..].
  assert (grows sv_has sv_refs sv_ok sv sv1) as Hg; [|destruct (negb _); by intros [= <- <-]]. subst x. destruct (keqb n fs_RootName).
  - destruct (fs_RootBlock (sv_fs sv) (sv_store sv)) as [[o [f s]]| |] eqn:Ef; [|done..]. cbn [res_bind] in Ex. injection Ex as <- <-.
    pose proof (fs_RootBlock_ok _ _ _ _ _ Hs Ef) as Hg. apply sv_grows; [split; [apply Hg|done]|done].
  - injection Ex as <- <-. apply sv_grows; [by split|by apply same_grows].
Qed.
Lemma store_grows_trans s1 s2 s3 : grows st_has st_refs st_ok s1 s2 → grows st_has st_refs st_ok s2 s3 → grows st_has st_refs st_ok s1 s3.
Proof.
  intros (_ & E1 & N1) (I & E2 & N2). split_and!; [done|by etrans|]. intros x Hx. destruct (N2 x Hx) as [Hx2|]; [|by right].
  destruct (N1 x Hx2) as [|Hf]; [by left|right]. intros y Hy. destruct (E2 x Hx2) as [_ E]. rewrite E in Hy. by apply E2, Hf.
Qed.
Lemma srv_Merge_law n n' sv r sv' : sv_ok sv → srv_MergeBlockNameTo n n' sv = Ok (r, sv') → grows sv_has sv_refs sv_ok sv sv'.
Proof.
  intros [Hs Ht]. unfold srv_MergeBlockNameTo. destruct (keqb _ ""); [done|]. destruct (negb _); [done|].
  destruct (fs_Merge _ _ _ _) as [[f s1]| |] eqn:E1; cbn [res_bind]; [|done..]. pose proof (fs_Merge_ok _ _ _ _ _ _ Hs E1) as G1. pose proof G1 as (Hs1 & _).
  destruct (fs_RootBlock f s1) as [[o [f2 s2]]| |] eqn:E2; cbn [res_bind]; [|done..]. pose proof (fs_RootBlock_ok _ _ _ _ _ Hs1 E2) as G2. pose proof G2 as (Hs2 & _).
  destruct o as [id|]; [|done]. unfold st_SetNameToBlockId. destruct (_ && _); [done|]. cbn [res_bind]. intros [= <- <-].
  pose proof (store_grows_trans _ _ _ G1 G2) as G. match goal with |- grows _ _ _ _ (mkServer ?s _ _ _ _) => assert (grows st_has st_refs st_ok s2 s) as G3 by by apply same_grows end.
  pose proof (store_grows_trans _ _ _ G G3) as G4. apply sv_grows; [split; [apply G4|done]|exact G4].
Qed.
Lemma srv_Clear_law n sv r sv' : sv_ok sv → srv_ClearBlocksInName n sv = Ok (r, sv') → grows sv_has sv_refs sv_ok sv sv'.
Proof.
  intros [Hs [m Ht]]. unfold srv_ClearBlocksInName.
  assert (kltb (NewBlockKeyNameEnd n) (NewBlockKeyNameBlock n "") = false) as Hle.
  { pose proof (name_range_complete n "" ltac:(cbn; lia)) as E. unfold in_range in E. apply andb_true_iff in E as [_ E]. by apply negb_true_iff in E. }
  destruct (tx_DeleteRange_ok _ _ _ _ Hle Ht) as (t' & E & Ht'). rewrite E. cbn [res_bind]. intros [= <- <-].
  apply sv_grows; [split; [done|by eexists]|by apply same_grows].
Qed.

#[local] Program Instance server_FsClientOk : FsClientOk Server := {
  cl_inv := sv_ok; cl_has := sv_has; cl_refs := sv_refs;
  cl_Get := srv_Get_law; cl_Store := srv_Store_law;
  cl_GetName := srv_GetName_law; cl_SetName := srv_SetName_law; cl_Merge := srv_Merge_law; cl_Clear := srv_Clear_law
}.
Next Obligation.
  intros id sv r sv' Hok E. destruct (srv_Upgrade_law id sv r sv' Hok E) as (? & ? & ? & Hb). split_and!; [done..|].
  intros b Hr Hid. by apply Hb.
Qed.

(** *** Without failures *)

Context `{!CodecOk codec} `{!CodecTotal codec} `{!Inj (=) (=) Sum256}.
Lemma srv_accepted id sv b sv' :
  sv_ok sv → sv_has sv id → srv_GetBlockById id true false sv = Ok (inr b, sv') → accepted id (pb_Data b).
Proof.
  intros Hok Hid [= E] n t Ht. destruct (srv_getBlock_ok _ _ _ _ _ _ Hok E) as (_ & _ & [[Hn _]|(x & Hx & _ & Hd & _)]).
  { destruct Hid as [y Hy]. congruence. }
  specialize (Hd eq_refl). destruct (EncodeBytes codec (s_data x) id (sv_random sv)) as [enc rnd] eqn:Ee. cbn in Hd. subst enc.
  cbn [rpc_StoreBlock server_FsClient]. unfold srv_StoreBlock. cbn [pb_Id pb_Data pb_Status]. rewrite (codec_roundtrip _ _ _ _ _ Ee).
  destruct (GetStorageBlock _ (s_data x) t) as [id' t1] eqn:E1.
  destruct (srv_GetStorageBlock_ok BS_WEAK _ _ _ _ Ht eq_refl E1) as (-> & [Hs1 [m1 Ht1]] & _ & Hh1 & _ & _).
  rewrite (so_hash _ (vo_store _ Hok) _ _ Hx), keqb_refl. cbn [negb]. destruct (tx_Set_ok (NewBlockKeyNameBlock n id) id _ _ Ht1) as (t2 & Et & _). rewrite Et. cbn [res_bind].
  destruct (srv_getBlock id false true (set_tree t2 t1)) as [r t3] eqn:Eg. destruct r as [e|b']; [|by exists b', t3].
  unfold srv_getBlock in Eg. destruct (st_GetBlockById _ _) as [[y|] s]; [|done]. by destruct (if _ && _ then _ else _).
Qed.
#[local] Instance server_FsClientLive : FsClientLive (S := Server).
Proof.
  split.
  - intros id d w sv Hok. destruct (srv_getBlock id d w sv) as [[e|b] sv'] eqn:E; [|exists b, sv'; unfold rpc_GetBlockById; cbn; unfold srv_GetBlockById; by rewrite E].
    destruct (srv_getBlock_ok _ _ _ _ _ _ Hok E) as (_ & _ & _ & x & _ & Ee). destruct (codec_total (s_data x) id (sv_random sv)) as (enc & rnd & Et). by rewrite Et in Ee.
  - apply srv_accepted.
  - intros id sv Hok. destruct (srv_UpgradeBlockNonWeak id sv) as [[r sv']| |] eqn:E; [|done..]. destruct r as [e|b].
    + unfold srv_UpgradeBlockNonWeak, srv_getBlock in E. destruct (st_GetBlockById id (sv_store (match _ with (Some _, s) => _ | (None, s) => _ end))) as [[y|] s]; [|done].
      by destruct (if _ && _ then _ else _).
    + exists b, sv'. split; [exact E|]. intros Hid Hc. destruct (srv_Upgrade_law id sv _ sv' Hok E) as (_ & _ & _ & Hb). by apply Hb.
  - intros id sv sv' [Hs _] [Hs' _] [b Hb] [b' Hb']. cbn. unfold sv_refs, st_refs. rewrite Hb, Hb'. do 2 f_equal. apply (inj Sum256).
    by rewrite (so_hash _ Hs _ _ Hb), (so_hash _ Hs' _ _ Hb').
Qed.
End server.

(** ** Two servers *)
Module ServerWitness.
(** The id of a block is its data with a mark, and a block refers to the block of its data without the first letter. *)
Definition hash (x : string) : string := "#" +:+ x.
Definition tails (id data : string) : list string :=
  match data with String _ (String c d) => [hash (String c d)] | _ => [] end.
Definition plain : Codec unit := chain_codec (CodecChain_Init []).
(** A file system that takes over the tree it merges. *)
#[local] Instance other_fs : ServedFs (option string) := {
  fs_RootName := "fs";
  fs_RootBlock := λ f s, Ok (f, (f, s));
  fs_Merge := λ _ b _ s, Ok (Some b, s)
}.
#[local] Instance other_fs_ok : ServedFsOk hash tails.
Proof. split; intros; simplify_eq/=; by apply same_grows. Qed.
#[local] Instance hash_inj : Inj (=) (=) hash.
Proof. intros x y [= E]. done. Qed.
#[local] Instance plain_ok : CodecOk plain.
Proof. apply chain_ok. constructor. Qed.
#[local] Instance plain_total : CodecTotal plain.
Proof. split. intros data ad rnd. by exists data, rnd. Qed.

Abbreviation srv := (Server (R := unit) (T := list kv) (F := option string)).
#[local] Instance client : FsClient srv := server_FsClient hash tails plain.
#[local] Instance client_ok : FsClientOk srv := server_FsClientOk hash tails plain.
#[local] Instance client_live : FsClientLive (S := srv) := server_FsClientLive hash tails plain.

Definition block (st : BlockStatus) (d : string) : string * stored := (hash d, mkStored st d).
Definition serving (bs : list (string * stored)) (root : string) : srv := mkServer (mkStore (list_to_map bs) ∅ ∅) [] ∅ tt (Some root).
Definition l0 : srv := serving [block BS_NORMAL "abc"; block BS_NORMAL "bc"; block BS_NORMAL "c"] "#abc".
Definition r0 : srv := serving [block BS_NORMAL "c"; block BS_NORMAL "dc"] "#dc".
Definition left : Connection := mkConnection "fs" "right".
Definition right : Connection := mkConnection "fs" "left".

Lemma serving_ok bs root :
  Forall (λ x, x.1 = hash (s_data x.2) ∧ Forall (λ y, y ∈ bs.*1) (tails x.1 (s_data x.2))) bs → NoDup bs.*1 →
  cl_inv (serving bs root) ∧ closed_but (serving bs root) [].
Proof.
  rewrite Forall_forall. intros Hbs Hnd.
  assert (∀ id b, st_blocks (sv_store (serving bs root)) !! id = Some b → id = hash (s_data b) ∧ ∀ y, y ∈ st_refs tails (sv_store (serving bs root)) id → st_has (sv_store (serving bs root)) y) as Hin.
  { intros id b Hb. unfold st_refs, st_has. rewrite Hb. cbn in *. apply elem_of_list_to_map_2 in Hb as Hx. destruct (Hbs _ Hx) as [E Hr]. split; [done|].
    intros y Hy. rewrite Forall_forall in Hr. apply list_elem_of_In, in_rev, list_elem_of_In in Hy. specialize (Hr y Hy).
    apply list_elem_of_fmap in Hr as ([y' b'] & -> & Hy'). exists b'. by apply elem_of_list_to_map_1. }
  split.
  - split; [|exists ∅; split; [constructor|done]]. split; intros id b Hb; destruct (Hin id b Hb) as [E Hr]; [done|right; exact Hr].
  - intros x [b Hb]. left. exact (proj2 (Hin x b Hb)).
Qed.
Ltac serving := apply serving_ok; [repeat constructor; set_solver|repeat constructor; set_solver].
Lemma l0_ok : cl_inv l0 ∧ closed_but l0 [].
Proof. serving. Qed.
Lemma r0_ok : cl_inv r0 ∧ closed_but r0 [].
Proof. serving. Qed.

(** Left to right, then right to left, to the end. *)
Definition run_left : sync * (srv * srv) := sync_run 40 left right SyncFrom (l0, r0).
Definition run_both : sync * (srv * srv) := sync_run 40 right left SyncFrom (run_left.2.2, run_left.2.1).
Lemma runs_done : run_left.1 = SyncDone "#abc" 6 None ∧ run_both.1 = SyncDone "#abc" 1 None.
Proof. split; vm_compute; reflexivity. Qed.

Lemma run_delivers_witness : delivered run_both.2.1 "#abc" ∧ delivered run_both.2.2 "#abc".
Proof.
  destruct (run_delivers true left right l0 r0 run_left.1 run_both.1 run_both.2.2 run_both.2.1) as [Hl Hr].
  - apply l0_ok.
  - apply r0_ok.
  - apply l0_ok.
  - apply r0_ok.
  - etrans.
    + apply (sync_run_left true left right 40 SyncFrom SyncFrom l0 r0 run_left.1 run_left.2.1 run_left.2.2). fold run_left. by destruct run_left as [? []].
    + apply (sync_run_right true left right 40 run_left.1 SyncFrom run_left.2.1 run_left.2.2 run_both.1 run_both.2.2 run_both.2.1). fold run_both. by destruct run_both as [? []].
  - split; [apply Hl|apply Hr]; [rewrite (proj1 runs_done)|rewrite (proj2 runs_done)]; reflexivity.
Defined.

Lemma l0_delivered : delivered l0 "#abc".
Proof. apply closed_delivered; [apply l0_ok|]. vm_compute. by eexists. Qed.
Lemma tails_shorter x y : below l0 "#abc" x → y ∈ cl_refs l0 x → String.length y < String.length x.
Proof.
  intros _. cbn. unfold sv_refs, st_refs. destruct (st_blocks (sv_store l0) !! x) as [b|] eqn:Eb; [|by intros ?%elem_of_nil].
  destruct l0_ok as [[Hs _] _]. pose proof (so_hash _ _ _ Hs _ _ Eb) as <-. intros Hy%list_elem_of_In%in_rev%list_elem_of_In.
  unfold tails in Hy. destruct (s_data b) as [|c [|c' d]]; [by apply elem_of_nil in Hy..|]. apply list_elem_of_singleton in Hy as ->. unfold hash; simpl; lia.
Qed.
Lemma copy_terminates_witness :
  ∃ N, ∀ n t w, runs "left" n (CopyGet "#abc", (l0, r0)) (t, w) →
    n ≤ N ∧ ((∃ ops, t = Finished "#abc" ops None) ∨ ∃ t' w', task_step false "left" t w t' w').
Proof.
  apply (copy_terminates "left" l0 r0 "#abc" String.length).
  - apply l0_ok.
  - apply r0_ok.
  - apply l0_delivered.
  - apply tails_shorter.
Defined.

(** A target where an earlier copy was interrupted holds weak blocks with missing references.  The next synchronisation
    looks only at the references of the root: it names and merges the root and reports success although a block
    below it is missing. *)
Definition interrupted : srv := serving [block BS_WEAK "abc"; block BS_WEAK "bc"] "".
Theorem interrupted_copy_stays_incomplete :
  (sync_run 40 left right SyncFrom (l0, interrupted)).1 = SyncDone "#abc" 1 None ∧
  st_blocks (sv_store (sync_run 40 left right SyncFrom (l0, interrupted)).2.2) !! "#c" = None.
Proof. vm_compute. by split. Qed.

(** A failed UpgradeBlockNonWeak ends the process. *)
Theorem failed_upgrade_crashes bid ops e : after_upgrade bid ops (inl e) = Crashed.
Proof. done. Qed.

(** Every UpgradeBlockNonWeak leaves a handle open. *)
Theorem upgrade_leaks_handle :
  st_open (sv_store l0) !! "#c" = None ∧
  match srv_UpgradeBlockNonWeak tails plain "#c" l0 with Ok (_, sv) => st_open (sv_store sv) !! "#c" = Some 1 | _ => False end.
Proof. vm_compute. by split. Qed.
End ServerWitness.

(** ** The references of the file system (src/fs/fs.go) *)

Module FsReferences.
Section code.
Context `{NodeMsgp}.

(** What the callback is called with, in order. *)
Definition iterateNodeReferences (nd : NodeData) : list string :=
  if negb (nd_Leafy nd) then map snd (nd_Children nd)
  else
    flat_map (λ c, if (SubType c.1 =? BST_FILE_OFFSET2EXTENT)%Z || (SubType c.1 =? BST_NAMEHASH_NAME_BLOCK)%Z then [c.2] else [])
      (nd_Children nd).
Definition BytesToNodeData (bd : string) : res (option NodeData) :=
  match bd with
  | EmptyString => Panic "index out of range"
  | String dt _ =>
      if (chr_byte dt =? BDT_EXTENT)%Z then Ok None
      else if (chr_byte dt =? BDT_NODE)%Z then NewNodeDataFromBytes bd
      else Panic "BytesToNodeData - wrong dt"
  end.
Definition iterateReferencesCallback (cache : gmap string NodeData) (id data : string) : res (list string) :=
  let! nd := match cache !! id with Some nd => Ok (Some nd) | None => BytesToNodeData data end in
  Ok (match nd with Some nd => iterateNodeReferences nd | None => [] end).

(** The cache makes no difference when it holds what was stored. *)
Lemma iterateReferences_cached cache id nd rest :
  node_UnmarshalMsg (node_MarshalMsg nd +:+ rest) = Some nd → (∀ nd', cache !! id = Some nd' → nd' = nd) →
  iterateReferencesCallback cache id (ToBytes nd +:+ rest) = Ok (iterateNodeReferences nd).
Proof.
  intros Hrt Hc. unfold iterateReferencesCallback. destruct (cache !! id) as [nd'|]; [by rewrite (Hc nd' eq_refl)|].
  assert (BytesToNodeData (ToBytes nd +:+ rest) = NewNodeDataFromBytes (ToBytes nd +:+ rest)) as ->.
  { unfold ToBytes. rewrite str_app_cons. cbn [BytesToNodeData]. rewrite byte_chr_byte. by change (_ mod 256)%Z with BDT_NODE. }
  by rewrite NewNodeDataFromBytes_app.
Qed.

(** What the tree below a delivered root needs is there: the children of its inner nodes, and the extents and named
    blocks of its leaves. *)
Theorem delivered_tree_is_whole (sv : store) (refs : string → string → list string) root id st nd key value :
  (∀ i d l, iterateReferencesCallback ∅ i d = Ok l → refs i d = l) →
  node_UnmarshalMsg (node_MarshalMsg nd +:+ "") = Some nd →
  (∀ y, rtc (λ x y, y ∈ st_refs refs sv x) root y → st_has sv y) →
  rtc (λ x y, y ∈ st_refs refs sv x) root id → st_blocks sv !! id = Some (mkStored st (ToBytes nd +:+ "")) →
  (key, value) ∈ nd_Children nd →
  nd_Leafy nd = false ∨ SubType key = BST_FILE_OFFSET2EXTENT ∨ SubType key = BST_NAMEHASH_NAME_BLOCK →
  st_has sv value.
Proof.
  intros Hrefs Hrt Hd Hb Hid Hin Hkind. apply Hd. eapply rtc_r; [exact Hb|]. unfold st_refs. rewrite Hid. cbn [s_data].
  rewrite (Hrefs id _ _ (iterateReferences_cached ∅ id nd "" Hrt ltac:(intros nd0; by rewrite lookup_empty))). apply list_elem_of_In, in_rev. rewrite rev_involutive.
  apply list_elem_of_In in Hin. unfold iterateNodeReferences. destruct (nd_Leafy nd) eqn:El; cbn [negb].
  - apply in_flat_map. exists (key, value). split; [done|]. cbn [fst snd]. destruct Hkind as [|[-> | ->]]; [done|by left|by left].
  - apply in_map_iff. by exists (key, value).
Qed.
End code.
End FsReferences.
