(* ===== verification/IBDiff.v ===== *)
(** * The differences of two sorted lists by key

    The calls of the callback of IterateDelta, as [om_diff] gives them, are one for each key
    whose value differs, in the order of the keys. *)
From stdpp Require Import base list sets strings sorting.
From Stdlib Require Import ZArith Lia.
From S2P Require Import Prelude OrderedMap IBNode IBDelta.

(** The call for key [k]. *)
Definition ev_at (l0 l : list kv) (k : string) : option kv * option kv := (pair k <$> om_get k l0, pair k <$> om_get k l).

Lemma om_get_cons k p l : om_get k (p :: l) = if decide (p.1 = k) then Some p.2 else om_get k l.
Proof.
  unfold om_get, at_key. cbn [List.filter]. destruct (decide (p.1 = k)) as [->|Hne]; [by rewrite keqb_refl|].
  by rewrite (proj2 (keqb_neq _ _)) by done.
Qed.
Lemma om_get_head k v l : om_get k ((k, v) :: l) = Some v.
Proof. by rewrite om_get_cons, decide_True. Qed.
Lemma om_get_gt k l : all_gt l k → om_get k l = None.
Proof. intros Hgt. apply om_get_None. intros v Hin. by apply Hgt, klt_irrefl in Hin. Qed.
Lemma om_get_all_gt k k' l : all_gt l k → om_get k' l ≠ None → klt k k'.
Proof.
  intros Hgt Hk'. destruct (at_key k' l) as [|p r] eqn:E; [by unfold om_get in Hk'; rewrite E in Hk'|].
  assert (p ∈ at_key k' l) as [Hin Ep]%filter_elem_of by (rewrite E; set_solver). apply keqb_eq in Ep as <-. by apply Hgt.
Qed.

Record diff_keys (l0 l : list kv) (ks : list string) : Prop := {
  dk_events : om_diff l0 l = map (ev_at l0 l) ks;
  dk_sorted : StronglySorted klt ks;
  dk_keys : ∀ k, k ∈ ks ↔ om_get k l0 ≠ om_get k l
}.

(** Keys of the tails come after a key that is before both tails. *)
Lemma diff_keys_gt l0 l ks k : diff_keys l0 l ks → all_gt l0 k → all_gt l k → ∀ k', k' ∈ ks → klt k k'.
Proof.
  intros [_ _ Hk] H0 H1 k' Hk'%Hk. destruct (om_get k' l0) eqn:E0; [eapply (om_get_all_gt k k' l0); [done|congruence]|].
  eapply (om_get_all_gt k k' l); [done|congruence].
Qed.

(** One more entry in front of one list or both. *)
Lemma diff_keys_cons l0 l l0' l' ks k es :
  diff_keys l0 l ks → all_gt l0 k → all_gt l k →
  (∀ k', k' ≠ k → om_get k' l0' = om_get k' l0 ∧ om_get k' l' = om_get k' l) →
  om_diff l0' l' = es ++ om_diff l0 l →
  es = (if decide (om_get k l0' = om_get k l') then [] else [ev_at l0' l' k]) →
  diff_keys l0' l' ((if decide (om_get k l0' = om_get k l') then [] else [k]) ++ ks).
Proof.
  intros HD H0 H1 Hrest Hdiff Hes. pose proof (diff_keys_gt _ _ _ _ HD H0 H1) as Hgt.
  assert (map (ev_at l0' l') ks = map (ev_at l0 l) ks) as Emap.
  { apply map_ext_in. intros k' Hk'%list_elem_of_In. destruct (Hrest k') as [E1 E2]; [|unfold ev_at; by rewrite E1, E2].
    intros ->. by eapply klt_irrefl, Hgt. }
  split.
  - rewrite Hdiff, (dk_events _ _ _ HD), <- Emap, Hes, map_app. by destruct (decide _).
  - destruct (decide _); [apply HD|]. cbn [app]. apply SSorted_cons; [apply HD|]. apply Forall_forall. apply Hgt.
  - intros k'. rewrite elem_of_app. destruct (decide (k' = k)) as [->|Hne].
    + assert (k ∉ ks) as Hn by (intros Hin; by eapply klt_irrefl, Hgt). destruct (decide _); [set_solver|]. split; [done|]. intros _. left. set_solver.
    + destruct (Hrest k' Hne) as [-> ->]. rewrite <- (dk_keys _ _ _ HD). destruct (decide _); set_solver.
Qed.

Lemma om_diff_keys l0 l : sorted_kvs l0 → sorted_kvs l → ∃ ks, diff_keys l0 l ks.
Proof.
  remember (length l0 + length l) as n eqn:Hn. revert l0 l Hn.
  induction n as [n IH] using lt_wf_ind. intros l0 l -> Hs0 Hs. destruct l0 as [|[k0 v0] l0], l as [|[k1 v1] l].
  - exists []. split; [done|constructor|]. intros k. set_solver.
  - apply sorted_kvs_cons in Hs as [Hgt Hs]. destruct (IH (length l) ltac:(cbn; lia) [] l) as [ks HD]; [done..|].
    eexists. apply (diff_keys_cons [] l [] ((k1, v1) :: l) ks k1 [(None, Some (k1, v1))] HD (all_gt_nil _) Hgt).
    + intros k' Hne. rewrite om_get_cons, decide_False by done. done.
    + by rewrite om_diff_nil_l.
    + unfold ev_at. by rewrite om_get_head.
  - apply sorted_kvs_cons in Hs0 as [Hgt Hs0]. destruct (IH (length l0) ltac:(cbn; lia) l0 []) as [ks HD]; [cbn; lia|done..|].
    eexists. apply (diff_keys_cons l0 [] ((k0, v0) :: l0) [] ks k0 [(Some (k0, v0), None)] HD Hgt (all_gt_nil _)).
    + intros k' Hne. rewrite om_get_cons, decide_False by done. done.
    + by rewrite om_diff_nil_r.
    + unfold ev_at. by rewrite om_get_head.
  - pose proof Hs0 as [Hgt0 Ht0]%sorted_kvs_cons. pose proof Hs as [Hgt Ht]%sorted_kvs_cons. cbn [fst] in Hgt0, Hgt.
    pose proof (om_diff_cons (k0, v0) l0 (k1, v1) l) as Ed. cbn [fst snd] in Ed. destruct (keqb k1 k0) eqn:Ek.
    + apply keqb_eq in Ek as ->. destruct (IH (length l0 + length l) ltac:(cbn; lia) l0 l) as [ks HD]; [done..|].
      eexists. apply (diff_keys_cons l0 l _ _ ks k0 (if keqb v1 v0 then [] else [(Some (k0, v0), Some (k0, v1))]) HD Hgt0 Hgt); [|done|].
      * intros k' Hne. rewrite !om_get_cons, !decide_False by done. done.
      * unfold ev_at. rewrite !om_get_head. destruct (keqb v1 v0) eqn:Ev; cbn [snd].
        -- apply keqb_eq in Ev as ->. by rewrite decide_True.
        -- apply keqb_neq in Ev. by rewrite decide_False by congruence.
    + apply keqb_neq in Ek. destruct (kltb k0 k1) eqn:Elt.
      * assert (all_gt ((k1, v1) :: l) k0) as Hgt1 by (intros p [->|Hp]%elem_of_cons; [done|eapply klt_trans; [exact Elt|by apply Hgt]]).
        destruct (IH (length l0 + S (length l)) ltac:(cbn; lia) l0 ((k1, v1) :: l)) as [ks HD]; [done..|].
        eexists. apply (diff_keys_cons l0 ((k1, v1) :: l) _ _ ks k0 [(Some (k0, v0), None)] HD Hgt0 Hgt1); [|done|].
        -- intros k' Hne. rewrite (om_get_cons k' (k0, v0)), decide_False by done. done.
        -- unfold ev_at. rewrite (om_get_gt k0 ((k1, v1) :: l)) by done. by rewrite om_get_head.
      * assert (klt k1 k0) as Hlt by (apply kltb_false in Elt as [->|]; done).
        assert (all_gt ((k0, v0) :: l0) k1) as Hgt1 by (intros p [->|Hp]%elem_of_cons; [done|eapply klt_trans; [exact Hlt|by apply Hgt0]]).
        destruct (IH (S (length l0) + length l) ltac:(cbn; lia) ((k0, v0) :: l0) l) as [ks HD]; [done..|].
        eexists. apply (diff_keys_cons ((k0, v0) :: l0) l _ _ ks k1 [(None, Some (k1, v1))] HD Hgt1 Hgt); [|done|].
        -- intros k' Hne. rewrite (om_get_cons k' (k1, v1)), decide_False by done. done.
        -- unfold ev_at. rewrite (om_get_gt k1 ((k0, v0) :: l0)) by done. by rewrite om_get_head.
Qed.
