(* ===== verification/Merge.v ===== *)
(** * Three-way merge (src/fs/merge.go)

    When the root of the tree has changed under a transaction, or a remote tree is taken over,
    [MergeTo3] applies what changed from one tree to another to a third one, the current state.
    Conflicts are decided per key or, for a remote tree, per inode, by the change time in the
    metadata. *)
From stdpp Require Import base list sets strings sorting gmap.
From Stdlib Require Import ZArith Lia.
From S2P Require Import Prelude OrderedMap Util IBNode IBStack IBTree IBRepr IBStackFacts IBLoc IBSearch IBWalk IBGet IBDelta IBDiff IBTrans IBProps BlockKey TreeBackend TreeStore FsState Inode FileIO FileRep DirRep Directory.

Inductive mergeVerdict : Type := MV_NEW | MV_EXISTING | MV_NONE.
#[export] Instance mergeVerdict_dec : EqDecision mergeVerdict.
Proof. solve_decision. Defined.
Definition is_NEW (v : mergeVerdict) : bool := match v with MV_NEW => true | _ => false end.

Section code.
Context {T : Type} `{FsEnv} `{TxStore T} `{!TxRange T}.
(** The order in which a range over a map visits it. *)
Variable range : list (Z * mergeVerdict) → list (Z * mergeVerdict).

Definition decode_meta (v : string) : res InodeMeta :=
  match UnmarshalMsg v with Some m => Ok m | None => Panic "UnmarshalMsg" end.

(** The verdict on a change of metadata from [oldV] to [newV] when the current tree has [op], and
    whether the inode is found to be a directory. *)
Definition meta_verdict (oldV newV op : option string) : res (mergeVerdict * bool) :=
  match newV, op with
  | None, None => Ok (MV_NONE, false)
  | None, Some other =>
      let! old := deref oldV in
      let! srcMeta := decode_meta old in
      let! otherMeta := decode_meta other in
      Ok (if (StCtimeNs otherMeta <=? StCtimeNs srcMeta)%Z then MV_NONE else MV_EXISTING, IsDir_mode (StMode srcMeta))
  | Some new, None => Ok (MV_NEW, false)
  | Some new, Some other =>
      let! dstMeta := decode_meta new in
      let! otherMeta := decode_meta other in
      Ok (if (StCtimeNs otherMeta <? StCtimeNs dstMeta)%Z then MV_NEW else MV_EXISTING, IsDir_mode (StMode dstMeta))
  end.

Record mstate : Type := mkMS { ms_t : T; ms_m : gmap Z mergeVerdict; ms_isdir : gset Z }.

(** The end of the callback: the change is made when the current value is the one it started from,
    or the verdict is for it. *)
Definition merge_put (v : mergeVerdict) (k : BlockKey) (oldV newV : option string) (st : mstate) : res mstate :=
  let! r := tx_Get k (ms_t st) in
  let '(cv, t) := (r : option string * T) in
  let put t := mkMS t (ms_m st) (ms_isdir st) in
  match oldV, newV with
  | _, None =>
      match cv with
      | Some c =>
          if bool_decide (oldV = Some c) || is_NEW v then let! t := tx_Delete k t in Ok (put t) else Ok (put t)
      | None => Ok (put t)
      end
  | None, Some new =>
      if bool_decide (cv = None) || is_NEW v then let! t := tx_Set k new t in Ok (put t) else Ok (put t)
  | Some old, Some new =>
      if bool_decide (cv = Some old) || is_NEW v then let! t := tx_Set k new t in Ok (put t) else Ok (put t)
  end.

(** The callback of [IterateDelta], for the change of key [k] from [oldV] to [newV]. *)
Definition merge_change (local : bool) (k : BlockKey) (oldV newV : option string) (st : mstate) : res mstate :=
  let! ino := Ino k in
  (* the verdict, or None when the change is bogus *)
  let! vst :=
    match ms_m st !! ino with
    | Some v => Ok (Some v, st)
    | None =>
        if (SubType k =? BST_META)%Z then
          let! r := tx_Get k (ms_t st) in
          let '(op, t) := (r : option string * T) in
          let! vd := meta_verdict oldV newV op in
          let '(v, d) := (vd : mergeVerdict * bool) in
          let isdir := if d then {[ino]} ∪ ms_isdir st else ms_isdir st in
          Ok (Some v, mkMS t (if local then ms_m st else <[ino := v]> (ms_m st)) isdir)
        else if negb local then Ok (None, st)
        else Ok (Some MV_NEW, st)
    end in
  let '(ov, st) := (vst : option mergeVerdict * mstate) in
  match ov with
  | None | Some MV_NONE => Ok st
  | Some v =>
      if negb local && negb (is_NEW v) && negb (bool_decide (ino ∈ ms_isdir st)) then Ok st
      else merge_put v k oldV newV st
  end.

(** The changes one after the other. *)
Fixpoint merge_changes (local : bool) (evs : list (option kv * option kv)) (st : mstate) : res mstate :=
  match evs with
  | [] => Ok st
  | (o, n) :: evs =>
      let! c := deref (match o with Some c => Some c | None => n end) in
      let! st := merge_change local c.1 (snd <$> o) (snd <$> n) st in
      merge_changes local evs st
  end.

Fixpoint delete_inodes (l : list (Z * mergeVerdict)) (t : T) : res T :=
  match l with
  | [] => Ok t
  | (ino, v) :: l =>
      match v with
      | MV_NONE =>
          let! t := tx_DeleteRange (NewBlockKey ino BST_NONE "") (NewBlockKey ino BST_LAST "") t in
          delete_inodes l t
      | _ => delete_inodes l t
      end
  end.

Definition MergeTo3 (tree : Tree) (ptr_eq : Node → Node → bool) (fuel : nat) (t : T) (src dst : Node) (local : bool) : res T :=
  let! evs := IterateDelta tree ptr_eq fuel dst src in
  let! st := merge_changes local (map kv_event evs) (mkMS t ∅ {[1%Z]}) in
  delete_inodes (range (map_to_list (ms_m st))) (ms_t st).
End code.

(** ** What a merge is to do *)

Section spec.
Context `{FsEnv}.

(** The change time and the kind in encoded metadata. *)
Definition ctime (v : string) : Z := match UnmarshalMsg v with Some m => StCtimeNs m | None => 0%Z end.
Definition kind_dir (v : string) : bool := match UnmarshalMsg v with Some m => IsDir_mode (StMode m) | None => false end.

(** The verdict on metadata that changed from [old] to [new] and is [x] in the current tree. *)
Definition verdict (old new x : option string) : mergeVerdict :=
  match new, x with
  | None, None => MV_NONE
  | None, Some o => if (ctime o <=? ctime (default "" old))%Z then MV_NONE else MV_EXISTING
  | Some _, None => MV_NEW
  | Some n, Some o => if (ctime o <? ctime n)%Z then MV_NEW else MV_EXISTING
  end.
Definition found_dir (old new x : option string) : bool :=
  match new, x with
  | None, Some _ => kind_dir (default "" old)
  | Some n, Some _ => kind_dir n
  | _, None => false
  end.

(** The value of a key whose value changed from [old] to [new] and is [x]. *)
Definition apply3 (v : mergeVerdict) (old new x : option string) : option string :=
  match v with
  | MV_NONE => x
  | MV_NEW => new
  | MV_EXISTING => if decide (x = old) then new else x
  end.

(** The values of three trees of the keys [l0], [l] and [cur]. *)
Definition local_value (l0 l : list kv) (cur : smap) (k : string) : option string :=
  let old := om_get k l0 in
  let new := om_get k l in
  if decide (old = new) then cur !! k
  else apply3 (if (SubType k =? BST_META)%Z then verdict old new (cur !! k) else MV_NEW) old new (cur !! k).

Definition inode_verdict (l0 l : list kv) (cur : smap) (ino : Z) : mergeVerdict :=
  verdict (om_get (mkey ino) l0) (om_get (mkey ino) l) (cur !! (mkey ino : string)).
Definition inode_dir (l0 l : list kv) (cur : smap) (ino : Z) : bool :=
  (ino =? 1)%Z || found_dir (om_get (mkey ino) l0) (om_get (mkey ino) l) (cur !! (mkey ino : string)).
(** A key that changed, when the inode has a verdict: directories are merged entry by entry. *)
Definition remote_step (v : mergeVerdict) (dir : bool) (old new x : option string) : option string :=
  match v with
  | MV_EXISTING => if dir then apply3 MV_EXISTING old new x else x
  | v => apply3 v old new x
  end.
(** A key of inode [ino] that changed, before inodes are deleted. *)
Definition changed_value (l0 l : list kv) (cur : smap) (ino : Z) (k : string) : option string :=
  if decide (om_get (mkey ino) l0 = om_get (mkey ino) l) then cur !! k
  else remote_step (inode_verdict l0 l cur ino) (inode_dir l0 l cur ino) (om_get k l0) (om_get k l) (cur !! k).
Definition remote_value (l0 l : list kv) (cur : smap) (ino : Z) (k : string) : option string :=
  if decide (om_get (mkey ino) l0 ≠ om_get (mkey ino) l ∧ inode_verdict l0 l cur ino = MV_NONE ∧ own ino k = true) then None
  else if decide (om_get k l0 = om_get k l) then cur !! k
  else changed_value l0 l cur ino k.

(** Metadata decodes. *)
Definition metas_ok (get : BlockKey → option string) : Prop :=
  ∀ k v, SubType k = BST_META → get k = Some v → is_Some (UnmarshalMsg v).
(** Keys as the file system makes them. *)
Definition fs_key (k : BlockKey) : Prop :=
  ∃ ino st data, in_uint64 ino ∧ (0 < st < 256)%Z ∧ k = NewBlockKey ino st data ∧ (st = BST_META → data = "").
End spec.
