(* ===== verification/MergeFacts.v ===== *)
(** * The merge against its specification

    One change, then the list of changes by induction from its end, for both modes. *)
From stdpp Require Import base list sets strings sorting gmap.
From Stdlib Require Import ZArith Lia.
From S2P Require Import Prelude OrderedMap Util IBNode IBDelta IBDiff BlockKey TreeBackend TreeStore FsState Inode FileIO FileRep DirRep Directory Merge.

Section facts.
Context {T : Type} `{FsEnv} `{TxStoreOk T} `{!TxRange T} `{!TxRangeOk T}.

(** ** One change *)

(** A key with another value, or none. *)
Definition upd (k : string) (o : option string) (m : smap) : smap :=
  match o with Some v => <[k := v]> m | None => delete k m end.
Lemma lookup_upd k o m k' : upd k o m !! k' = if decide (k' = k) then o else m !! k'.
Proof.
  destruct o; cbn; destruct (decide (k' = k)) as [->|]; by rewrite ?lookup_insert_eq, ?lookup_insert_ne, ?lookup_delete_eq, ?lookup_delete_ne.
Qed.
Lemma upd_same k m : upd k (m !! k) m = m.
Proof. apply map_eq. intros k'. rewrite lookup_upd. by destruct (decide _) as [->|]. Qed.

Definition good (o : option string) : Prop := ∀ v, o = Some v → is_Some (UnmarshalMsg v).

Lemma meta_verdict_ok old new x :
  old ≠ new → good old → good new → good x → meta_verdict old new x = Ok (verdict old new x, found_dir old new x).
Proof.
  intros Hne Ho Hn Hx. unfold meta_verdict, verdict, found_dir, ctime, kind_dir, decode_meta, good in *.
  destruct new as [n|], x as [o|]; try done.
  - destruct (Hn n) as [a Ea], (Hx o) as [b Eb]; [done..|]. by rewrite Ea, Eb.
  - destruct old as [p|]; [|done]. destruct (Ho p) as [a Ea], (Hx o) as [b Eb]; [done..|]. cbn. by rewrite Ea, Eb.
Qed.

(** The last part of the callback: the key gets the value the verdict gives it. *)
Lemma put_ok (st : mstate) m (k : string) v old new :
  tx_rep (ms_t st) m → old ≠ new → v ≠ MV_NONE →
  ∃ t', merge_put v k old new st = Ok (mkMS t' (ms_m st) (ms_isdir st)) ∧ tx_rep t' (upd k (apply3 v old new (m !! k)) m).
Proof.
  intros Ht Hne Hv. destruct (tx_Get_ok k _ m Ht) as (t1 & E1 & Ht1). unfold merge_put. rewrite E1. cbn [res_bind].
  set (ms := ms_m st). set (ds := ms_isdir st).
  assert (∀ n, ∃ t', (let! t := tx_Set k n t1 in Ok (mkMS t ms ds)) = Ok (mkMS t' ms ds) ∧ tx_rep t' (upd k (Some n) m)) as Hset.
  { intros n. destruct (tx_Set_ok k n t1 m Ht1) as (t2 & E2 & Ht2). exists t2. by rewrite E2. }
  assert (∀ c, m !! k = Some c → ∃ t', (let! t := tx_Delete k t1 in Ok (mkMS t ms ds)) = Ok (mkMS t' ms ds) ∧ tx_rep t' (upd k None m)) as Hdel.
  { intros c Hc. destruct (tx_Delete_ok k t1 m Ht1) as (t2 & E2 & Ht2); [by eexists|]. exists t2. by rewrite E2. }
  assert (∃ t', Ok (mkMS t1 ms ds) = Ok (mkMS t' ms ds) ∧ tx_rep t' (upd k (m !! k) m)) as Hsame by (exists t1; by rewrite upd_same).
  destruct v; [| |done]; cbn [is_NEW apply3].
  - destruct old as [o|], new as [n|]; try done; rewrite ?orb_true_r; try apply Hset.
    destruct (m !! k) as [c|] eqn:Ec; [rewrite ?orb_true_r; by eapply Hdel|]. exact Hsame.
  - destruct old as [o|], new as [n|]; try done.
    + case_bool_decide; cbn [orb]; [rewrite decide_True by done; apply Hset|by rewrite decide_False].
    + destruct (m !! k) as [c|] eqn:Ec; [|exact Hsame]. case_bool_decide as Eo; cbn [orb]; [rewrite decide_True by congruence; by eapply Hdel|].
      by rewrite decide_False by congruence.
    + case_bool_decide; cbn [orb]; [rewrite decide_True by done; apply Hset|by rewrite decide_False].
Qed.

(** ** Local mode *)

Lemma change_local (st : mstate) m (k : string) ino old new :
  Ino k = Ok ino → tx_rep (ms_t st) m → ms_m st = ∅ → old ≠ new →
  (SubType k = BST_META → good old ∧ good new ∧ good (m !! k)) →
  ∃ st', merge_change true k old new st = Ok st' ∧ ms_m st' = ∅ ∧
    tx_rep (ms_t st') (upd k (apply3 (if (SubType k =? BST_META)%Z then verdict old new (m !! k) else MV_NEW) old new (m !! k)) m).
Proof.
  intros Ei Ht Em Hne Hg. unfold merge_change. rewrite Ei. cbn [res_bind]. rewrite Em, lookup_empty.
  destruct (Z.eqb_spec (SubType k) BST_META) as [Es|Es].
  - destruct (tx_Get_ok k _ m Ht) as (t1 & E1 & Ht1). rewrite E1. cbn [res_bind].
    destruct (Hg Es) as (G1 & G2 & G3). rewrite meta_verdict_ok by done. cbn [res_bind].
    set (st1 := mkMS t1 ∅ _). assert (tx_rep (ms_t st1) m) as Hst1 by done.
    destruct (verdict old new (m !! k)) eqn:Ev; cbn [negb andb].
    + destruct (put_ok st1 m k MV_NEW old new) as (t' & E & Ht'); [done..|]. rewrite E. by eexists.
    + destruct (put_ok st1 m k MV_EXISTING old new) as (t' & E & Ht'); [done..|]. rewrite E. by eexists.
    + eexists. split; [reflexivity|]. split; [done|]. cbn [apply3]. by rewrite upd_same.
  - cbn [negb res_bind andb]. destruct (put_ok st m k MV_NEW old new) as (t' & E & Ht'); [done..|]. rewrite E, Em. by eexists.
Qed.

(** One call of the callback for a key that differs. *)
Lemma merge_changes_cons local l0 l k ks (st : mstate) :
  om_get k l0 ≠ om_get k l →
  merge_changes local (map (ev_at l0 l) (k :: ks)) st =
  let! st := merge_change local k (om_get k l0) (om_get k l) st in merge_changes local (map (ev_at l0 l) ks) st.
Proof.
  intros Hne. cbn [map]. unfold ev_at at 1. cbn [merge_changes].
  by destruct (om_get k l0) as [o|], (om_get k l) as [n|].
Qed.

Definition trees_ok (l0 l : list kv) (cur : smap) : Prop :=
  metas_ok (λ k, om_get k l0) ∧ metas_ok (λ k, om_get k l) ∧ metas_ok (λ k : string, cur !! k) ∧
  ∀ k, om_get k l0 ≠ om_get k l → fs_key k.

Lemma changes_local l0 l cur ks (st : mstate) m :
  trees_ok l0 l cur → StronglySorted klt ks → (∀ k, k ∈ ks → om_get k l0 ≠ om_get k l) →
  tx_rep (ms_t st) m → ms_m st = ∅ → (∀ k, k ∈ ks → m !! k = cur !! k) →
  ∃ st' m', merge_changes true (map (ev_at l0 l) ks) st = Ok st' ∧ ms_m st' = ∅ ∧ tx_rep (ms_t st') m' ∧
    ∀ k, m' !! k = if decide (k ∈ ks) then local_value l0 l cur k else m !! k.
Proof.
  intros (M0 & M1 & M2 & Hkeys). revert st m. induction ks as [|k ks IH]; intros st m Hsort Hdiff Ht Em Hcur.
  { exists st, m. split_and!; [done..|]. intros k. by rewrite decide_False by set_solver. }
  apply StronglySorted_inv in Hsort as [Hsort Hgt]. rewrite Forall_forall in Hgt.
  assert (om_get k l0 ≠ om_get k l) as Hne by (apply Hdiff; set_solver).
  assert (m !! k = cur !! k) as Ek by (apply Hcur; set_solver).
  destruct (Hkeys k Hne) as (ino & ty & data & Hino & Hty & Ekey & _).
  assert (Ino k = Ok ino) as Ei by (rewrite Ekey; by apply NewBlockKey_Ino).
  assert (k ∉ ks) as Hnin by (intros Hin; by eapply klt_irrefl, Hgt).
  destruct (change_local st m k ino (om_get k l0) (om_get k l) Ei Ht Em Hne) as (st1 & E1 & Em1 & Ht1).
  { intros Hs. rewrite Ek. split_and!; intros v Hv; [by eapply M0|by eapply M1|by eapply M2]. }
  rewrite merge_changes_cons, E1 by done. cbn [res_bind]. destruct (IH st1 _ Hsort ltac:(set_solver) Ht1 Em1) as (st' & m' & E' & Em' & Ht' & Hm').
  { intros k' Hk'. rewrite lookup_upd, decide_False by (intros ->; done). apply Hcur. set_solver. }
  exists st', m'. split_and!; [done..|]. intros k'. rewrite Hm', lookup_upd. destruct (decide (k' = k)) as [->|Hn].
  - rewrite decide_False, decide_True by set_solver. unfold local_value. by rewrite decide_False, Ek by done.
  - destruct (decide (k' ∈ ks)); [by rewrite decide_True by set_solver|by rewrite decide_False by set_solver].
Qed.

(** ** Remote mode *)

Lemma apply_verdict (st : mstate) m (k : string) ino v old new :
  tx_rep (ms_t st) m → old ≠ new →
  ∃ t', match v with
        | MV_NONE => Ok st
        | v => if negb false && negb (is_NEW v) && negb (bool_decide (ino ∈ ms_isdir st)) then Ok st else merge_put v k old new st
        end = Ok (mkMS t' (ms_m st) (ms_isdir st)) ∧
    tx_rep t' (upd k (remote_step v (bool_decide (ino ∈ ms_isdir st)) old new (m !! k)) m).
Proof.
  intros Ht Hne. assert (∃ t', Ok st = Ok (mkMS t' (ms_m st) (ms_isdir st)) ∧ tx_rep t' (upd k (m !! k) m)) as Hsame.
  { exists (ms_t st). rewrite upd_same. by destruct st. }
  destruct v; cbn [is_NEW negb andb remote_step apply3]; [|destruct (bool_decide _); cbn [negb]|]; try exact Hsame.
  - by apply (put_ok st m k MV_NEW).
  - by apply (put_ok st m k MV_EXISTING).
Qed.

(** Metadata that is changed and has been seen when the keys [ks] are left. *)
Definition seen (l0 l : list kv) (ks : list string) (ino : Z) : Prop :=
  in_uint64 ino ∧ om_get (mkey ino) l0 ≠ om_get (mkey ino) l ∧ (mkey ino : string) ∉ ks.
#[local] Instance seen_dec l0 l ks ino : Decision (seen l0 l ks ino).
Proof. unfold seen, in_uint64. apply _. Defined.

Record remote_inv (l0 l : list kv) (cur : smap) (ks : list string) (st : mstate) (m : smap) : Prop := {
  ri_rep : tx_rep (ms_t st) m;
  ri_left : ∀ k, k ∈ ks → m !! k = cur !! k;
  ri_verdicts : ∀ ino, ms_m st !! ino = if decide (seen l0 l ks ino) then Some (inode_verdict l0 l cur ino) else None;
  ri_dirs : ∀ ino, in_uint64 ino → ino ∈ ms_isdir st ↔
    ino = 1%Z ∨ seen l0 l ks ino ∧ found_dir (om_get (mkey ino) l0) (om_get (mkey ino) l) (cur !! (mkey ino : string)) = true
}.

(** The change of metadata: the inode gets its verdict. *)
Lemma mkey_SubType ino : SubType (mkey ino) = BST_META.
Proof. unfold mkey. apply NewBlockKey_SubType. unfold BST_META. lia. Qed.
Lemma mkey_Ino ino : in_uint64 ino → Ino (mkey ino) = Ok ino.
Proof. apply NewBlockKey_Ino. Qed.

Lemma change_meta l0 l cur ks (st : mstate) m ino :
  trees_ok l0 l cur → in_uint64 ino → om_get (mkey ino) l0 ≠ om_get (mkey ino) l → (mkey ino : string) ∉ ks →
  remote_inv l0 l cur ((mkey ino : string) :: ks) st m →
  ∃ st', merge_change false (mkey ino) (om_get (mkey ino) l0) (om_get (mkey ino) l) st = Ok st' ∧
    remote_inv l0 l cur ks st' (upd (mkey ino) (changed_value l0 l cur ino (mkey ino)) m).
Proof.
  intros (M0 & M1 & M2 & _) Hino Hne Hnin [Ht Hl Hv Hd]. set (k := mkey ino : string) in *.
  assert (m !! k = cur !! k) as Ek by (apply Hl; set_solver). pose proof (mkey_SubType ino : SubType k = BST_META) as Es.
  unfold merge_change. pose proof (mkey_Ino ino Hino : Ino k = Ok ino) as Ei.
  rewrite Ei. cbn [res_bind]. rewrite Hv, decide_False by (unfold seen; fold k; set_solver). rewrite Es, Z.eqb_refl.
  destruct (tx_Get_ok k _ m Ht) as (t1 & E1 & Ht1). rewrite E1. cbn [res_bind].
  rewrite meta_verdict_ok; [|done|intros v Hx; by eapply M0|intros v Hx; by eapply M1|rewrite Ek; intros v Hx; by eapply M2]. cbn [res_bind].
  set (ds := if found_dir _ _ _ then _ else _). set (st1 := mkMS t1 (<[ino := _]> (ms_m st)) ds).
  destruct (apply_verdict st1 m k ino (verdict (om_get k l0) (om_get k l) (m !! k)) (om_get k l0) (om_get k l) Ht1 Hne) as (t' & E' & Ht').
  exists (mkMS t' (ms_m st1) (ms_isdir st1)). split.
  { rewrite <- E'. by destruct (verdict _ _ _). }
  assert (∀ ino', in_uint64 ino' → ino' ≠ ino → seen l0 l ks ino' ↔ seen l0 l (k :: ks) ino') as Hseen.
  { intros ino' Hi' Hn. unfold seen. assert ((mkey ino' : string) ≠ k) by (intros E; by apply mkey_inj in E). set_solver. }
  assert (seen l0 l ks ino) as Hs by done.
  assert (∀ ino', in_uint64 ino' → ino' ∈ ds ↔ ino' = 1%Z ∨ seen l0 l ks ino' ∧ found_dir (om_get (mkey ino') l0) (om_get (mkey ino') l) (cur !! (mkey ino' : string)) = true) as Hds.
  { intros ino' Hi'. subst ds. destruct (decide (ino' = ino)) as [->|Hn].
    - fold k. rewrite <- Ek. specialize (Hd ino Hino). fold k in Hd.
      assert (ino ∈ ms_isdir st ↔ ino = 1%Z) as Hd1 by (rewrite Hd; unfold seen; fold k; set_solver).
      destruct (found_dir (om_get k l0) (om_get k l) (m !! k)) eqn:Ef; [split; [intros _; right; by split|intros _; apply elem_of_union_l, elem_of_singleton_2; done]|]. rewrite Hd1. naive_solver.
    - specialize (Hd ino' Hi'). rewrite <- (Hseen ino') in Hd by done. rewrite <- Hd.
      destruct (found_dir (om_get k l0) (om_get k l) (m !! k)); [rewrite elem_of_union, elem_of_singleton; tauto|done]. }
  split; cbn [ms_t ms_m ms_isdir st1].
  - assert (changed_value l0 l cur ino k = remote_step (verdict (om_get k l0) (om_get k l) (m !! k)) (bool_decide (ino ∈ ds)) (om_get k l0) (om_get k l) (m !! k)) as ->; [|done].
    unfold changed_value, inode_verdict, inode_dir. fold k. rewrite decide_False, Ek by done. f_equal.
    apply eq_true_iff_eq. rewrite bool_decide_eq_true, (Hds ino Hino), orb_true_iff, Z.eqb_eq. fold k. naive_solver.
  - intros k' Hk'. rewrite lookup_upd, decide_False by (intros ->; done). apply Hl. set_solver.
  - intros ino'. destruct (decide (ino' = ino)) as [->|Hn].
    + rewrite lookup_insert_eq, decide_True by done. unfold inode_verdict. fold k. by rewrite Ek.
    + rewrite lookup_insert_ne, Hv by done. destruct (decide (in_uint64 ino')) as [Hi'|Hi'].
      * destruct (decide (seen l0 l (k :: ks) ino')) as [X|X]; [rewrite decide_True by by apply Hseen|rewrite decide_False by (by rewrite Hseen)]; done.
      * rewrite !decide_False; [done| |]; by intros [? _].
  - exact Hds.
Qed.

(** The change of another key: the verdict is known when the metadata changed. *)
Lemma change_other l0 l cur ks (st : mstate) m ino ty data (k := NewBlockKey ino ty data : string) :
  in_uint64 ino → (BST_META < ty < 256)%Z → om_get k l0 ≠ om_get k l → k ∉ ks → (mkey ino : string) ∉ ks →
  remote_inv l0 l cur (k :: ks) st m →
  ∃ st', merge_change false k (om_get k l0) (om_get k l) st = Ok st' ∧
    remote_inv l0 l cur ks st' (upd k (changed_value l0 l cur ino k) m).
Proof.
  intros Hino Hty Hne Hnin Hmnin [Ht Hl Hv Hd]. unfold BST_META in Hty.
  assert (m !! k = cur !! k) as Ek by (apply Hl; left). assert (SubType k = ty) as Es by (apply NewBlockKey_SubType; lia).
  pose proof (NewBlockKey_Ino ino ty data Hino : Ino k = Ok ino) as Ei.
  assert (∀ ino', in_uint64 ino' → (mkey ino' : string) ≠ k) as Hmk.
  { intros ino' Hi' E. unfold mkey, k in E. apply NewBlockKey_inj in E as (_ & E & _); [unfold BST_META in E; lia|done|done|unfold BST_META; lia|lia]. }
  assert (∀ ino', seen l0 l ks ino' ↔ seen l0 l (k :: ks) ino') as Hseen.
  { intros ino'. unfold seen. rewrite not_elem_of_cons. specialize (Hmk ino'). tauto. }
  assert (∀ st' m', tx_rep (ms_t st') m' → ms_m st' = ms_m st → ms_isdir st' = ms_isdir st → (∀ k', k' ≠ k → m' !! k' = m !! k') → remote_inv l0 l cur ks st' m') as Hinv.
  { intros st' m' Ht' Em Ed Hm'. split; [done| | |].
    - intros k' Hk'. rewrite Hm' by (intros ->; done). apply Hl. by right.
    - intros ino'. rewrite Em, Hv. destruct (decide (seen l0 l (k :: ks) ino')) as [X|X];
        [rewrite decide_True by by apply Hseen|rewrite decide_False by (by rewrite Hseen)]; done.
    - intros ino' Hi'. rewrite Ed, Hd, Hseen by done. done. }
  assert (seen l0 l (k :: ks) ino ↔ om_get (mkey ino) l0 ≠ om_get (mkey ino) l) as Hsi.
  { rewrite <- Hseen. unfold seen. tauto. }
  unfold merge_change. rewrite Ei. cbn [res_bind]. rewrite Hv. unfold changed_value.
  destruct (decide (om_get (mkey ino) l0 = om_get (mkey ino) l)) as [Esame|Hch].
  - rewrite decide_False by (rewrite Hsi; tauto). rewrite Es. destruct (Z.eqb_spec ty BST_META); [unfold BST_META in *; lia|].
    exists st. split; [done|]. rewrite <- Ek, upd_same. by apply Hinv.
  - rewrite decide_True by by apply Hsi. cbn [res_bind].
    destruct (apply_verdict st m k ino (inode_verdict l0 l cur ino) (om_get k l0) (om_get k l) Ht Hne) as (t' & E' & Ht').
    exists (mkMS t' (ms_m st) (ms_isdir st)). split; [rewrite <- E'; by destruct (inode_verdict _ _ _ _)|].
    assert (bool_decide (ino ∈ ms_isdir st) = inode_dir l0 l cur ino) as Edir.
    { unfold inode_dir. apply eq_true_iff_eq. rewrite bool_decide_eq_true, (Hd ino Hino), orb_true_iff, Z.eqb_eq. tauto. }
    rewrite <- Edir, <- Ek. apply Hinv; [done|done|done|]. intros k' Hk'. by rewrite lookup_upd, decide_False.
Qed.

Lemma mkey_lt_key ino ty data : in_uint64 ino → (BST_META < ty < 256)%Z → klt (mkey ino) (NewBlockKey ino ty data).
Proof.
  intros Hi Hty. unfold klt, mkey. rewrite NewBlockKey_ltb by (done || (unfold BST_META in *; lia)).
  rewrite Z.eqb_refl. destruct (Z.ltb_spec BST_META ty); [by rewrite orb_true_r|lia].
Qed.

Lemma changes_remote l0 l cur ks (st : mstate) m :
  trees_ok l0 l cur → StronglySorted klt ks → (∀ k, k ∈ ks → om_get k l0 ≠ om_get k l) → remote_inv l0 l cur ks st m →
  ∃ st' m', merge_changes false (map (ev_at l0 l) ks) st = Ok st' ∧ remote_inv l0 l cur [] st' m' ∧
    (∀ k, k ∉ ks → m' !! k = m !! k) ∧
    ∀ ino ty data, in_uint64 ino → (0 < ty < 256)%Z → (NewBlockKey ino ty data : string) ∈ ks →
      m' !! (NewBlockKey ino ty data : string) = changed_value l0 l cur ino (NewBlockKey ino ty data).
Proof.
  intros Hok. revert st m. induction ks as [|k ks IH]; intros st m Hsort Hdiff Hinv.
  { exists st, m. split_and!; [done|done|done|]. intros ino ty data _ _ []%not_elem_of_nil. }
  apply StronglySorted_inv in Hsort as [Hsort Hgt]. rewrite Forall_forall in Hgt.
  assert (om_get k l0 ≠ om_get k l) as Hne by (apply Hdiff; left).
  destruct (proj2 (proj2 (proj2 Hok)) k Hne) as (ino & ty & data & Hino & Hty & Ekey & Hmeta).
  assert (k ∉ ks) as Hnin by (intros Hin; by eapply klt_irrefl, Hgt).
  assert (∃ st1, merge_change false k (om_get k l0) (om_get k l) st = Ok st1 ∧
    remote_inv l0 l cur ks st1 (upd k (changed_value l0 l cur ino k) m)) as (st1 & E1 & Hinv1).
  { destruct (decide (ty = BST_META)) as [->|Hnm].
    - rewrite (Hmeta eq_refl) in Ekey. change (NewBlockKey ino BST_META "") with (mkey ino) in Ekey. rewrite Ekey in *. by apply change_meta.
    - assert (BST_META < ty < 256)%Z as Hty' by (unfold BST_META in *; lia). rewrite Ekey in *. apply change_other; try assumption.
      intros Hin%Hgt. eapply klt_asym; [exact Hin|]. by apply mkey_lt_key. }
  rewrite merge_changes_cons, E1 by done. cbn [res_bind].
  destruct (IH st1 _ Hsort ltac:(intros; apply Hdiff; by right) Hinv1) as (st' & m' & E' & Hinv' & Hrest & Hval).
  exists st', m'. split_and!; [done|done| |].
  - intros k' [Hn1 Hn2]%not_elem_of_cons. by rewrite Hrest, lookup_upd, decide_False.
  - intros ino' ty' data' Hi' Hty' [E|Hin]%elem_of_cons; [|by apply Hval]. rewrite E, Hrest, lookup_upd, decide_True by done.
    rewrite Ekey in E. apply NewBlockKey_inj in E as (-> & _ & _); [done|done|done|lia|lia].
Qed.

(** ** Deleted inodes *)

Lemma delete_inodes_ok lst (t : T) m :
  tx_rep t m → (∀ ino v, (ino, v) ∈ lst → in_uint64 ino) →
  ∃ t' m', delete_inodes lst t = Ok t' ∧ tx_rep t' m' ∧ m' ⊆ m ∧
    (∀ k, (∀ ino, (ino, MV_NONE) ∈ lst → own ino k = false) → m' !! k = m !! k) ∧
    (∀ k ino, (ino, MV_NONE) ∈ lst → own ino k = true → m' !! k = None).
Proof.
  revert t m. induction lst as [|[ino v] lst IH]; intros t m Ht Hi.
  { exists t, m. split_and!; [done..|]. by intros k ino []%not_elem_of_nil. }
  assert (∀ ino' v', (ino', v') ∈ lst → in_uint64 ino') as Hi' by (intros; eapply Hi; by right).
  destruct (decide (v = MV_NONE)) as [->|Hv].
  - destruct (tx_DeleteRange_ok (NewBlockKey ino BST_NONE "") (NewBlockKey ino BST_LAST "") t m) as (t1 & E1 & Ht1).
    { assert (in_uint64 ino) by (eapply Hi; by left). rewrite NewBlockKey_ltb by done. by rewrite Z.ltb_irrefl, Z.eqb_refl. }
    { done. }
    destruct (IH t1 (without ino m) Ht1 Hi') as (t' & m' & E & Ht' & Hsub & Hkeep & Hdrop).
    exists t', m'. cbn [delete_inodes]. rewrite E1. cbn [res_bind]. split_and!; [done|done| | |].
    + etrans; [exact Hsub|]. apply map_filter_subseteq.
    + intros k Hk. rewrite Hkeep by (intros; apply Hk; by right). unfold without. apply option_eq. intros x. rewrite map_lookup_filter_Some.
      cbn [fst]. rewrite (Hk ino) by by left. tauto.
    + intros k ino' [[= ->]|Hin]%elem_of_cons Ho; [|by eapply Hdrop]. destruct (m' !! k) as [x|] eqn:Ex; [|done].
      eapply lookup_weaken in Ex; [|exact Hsub]. unfold without in Ex. apply map_lookup_filter_Some in Ex as [_ Ex]. cbn [fst] in Ex. congruence.
  - destruct (IH t m Ht Hi') as (t' & m' & E & Ht' & Hsub & Hkeep & Hdrop). exists t', m'. split_and!; [|done|done| |].
    + by destruct v.
    + intros k Hk. apply Hkeep. intros; apply Hk; by right.
    + intros k ino' [[= -> <-]|Hin]%elem_of_cons Ho; [done|by eapply Hdrop].
Qed.
End facts.
