(* ===== verification/MergeProps.v ===== *)
(** * Three-way merge: the theorems *)
From stdpp Require Import base list sets strings sorting gmap.
From Stdlib Require Import ZArith Lia.
From S2P Require Import Prelude OrderedMap Util IBNode IBStack IBTree IBRepr IBStackFacts IBLoc IBSearch IBWalk IBGet IBAdd IBBalance IBIterate IBCommit IBUpdate IBRange IBTrans IBDelta IBDiff IBProps BlockKey TreeBackend TreeStore FsState Inode FileIO FileRep FileRead FileWrite FsOps FileProps DirRep Directory Merge MergeFacts.

Section props.
Context `{Hsz : MsgpSizes} (tree : Tree) (B : Z) `{!TreeOk tree B}.
Context {T : Type} `{FsEnv} `{TxStoreOk T} `{!TxRange T} `{!TxRangeOk T}.
Context (ptr_eq : Node → Node → bool) (range : list (Z * mergeVerdict) → list (Z * mergeVerdict)).

(** Two trees that hold the lists [l0] and [l]; [range] visits everything once. *)
Record sources (fuel : nat) (src dst : Node) (l0 l : list kv) : Prop := {
  so_ptr : ∀ m m', ptr_eq m m' = true → m = m';
  so_range : ∀ x, range x ≡ₚ x;
  so_src : ∃ h0, TrRepr tree B (mkTransaction (root_stack src)) h0 l0;
  so_dst : ∃ h, TrRepr tree B (mkTransaction (root_stack dst)) h l;
  so_fuel : (delta_fuel l0 l ≤ fuel)%nat
}.

Lemma sources_changes fuel src dst l0 l :
  sources fuel src dst l0 l →
  ∃ evs ks, IterateDelta tree ptr_eq fuel dst src = Ok evs ∧ map kv_event evs = map (ev_at l0 l) ks ∧ diff_keys l0 l ks.
Proof.
  intros [Hp _ [h0 HR0] [h1 HR1] Hf]. destruct (IterateDelta_repr tree B ptr_eq fuel h1 h0 dst src l l0) as (evs & E & Em); [done..|].
  destruct HR0 as [r0 R0], HR1 as [r1 R1].
  destruct (om_diff_keys l0 l) as [ks Hks]; [apply (Rest_kvs_ok _ _ _ _ _ _ R0)|apply (Rest_kvs_ok _ _ _ _ _ _ R1)|].
  exists evs, ks. split_and!; [done| |done]. by rewrite Em, (dk_events _ _ _ Hks).
Qed.

(** C18: a local merge keeps the changes of both sides.  It returns, and every key has the value the
    rules give it: keys that did not change between the two trees stay, other keys take the new
    value, metadata the one with the later change time.  When no key that changed was changed by
    the other side too, and no metadata was deleted, the result is exactly the new value of the
    changed keys and the current value of the others. *)
Theorem MergeTo3_local fuel (t : T) cur src dst l0 l :
  sources fuel src dst l0 l → trees_ok l0 l cur → tx_rep t cur →
  ∃ t' m', MergeTo3 range tree ptr_eq fuel t src dst true = Ok t' ∧ tx_rep t' m' ∧
    (∀ k, m' !! k = local_value l0 l cur k) ∧
    ((∀ k, om_get k l0 ≠ om_get k l → cur !! k = om_get k l0 ∧ (SubType k = BST_META → om_get k l ≠ None)) →
     ∀ k, m' !! k = if decide (om_get k l0 = om_get k l) then cur !! k else om_get k l).
Proof.
  intros Hso Hok Ht. destruct (sources_changes _ _ _ _ _ Hso) as (evs & ks & E & Em & Hks).
  destruct (changes_local l0 l cur ks (mkMS t ∅ {[1%Z]}) cur) as (st' & m' & Ec & Emm & Ht' & Hm'); try done.
  { apply Hks. }
  { intros k. apply Hks. }
  assert (∀ k, m' !! k = local_value l0 l cur k) as Hval.
  { intros k. rewrite Hm'. destruct (decide (k ∈ ks)) as [|Hn]; [done|]. rewrite (dk_keys _ _ _ Hks) in Hn. unfold local_value.
    rewrite decide_True; [done|]. by destruct (decide (om_get k l0 = om_get k l)). }
  exists (ms_t st'), m'. split_and!; [|done|done|].
  - unfold MergeTo3. rewrite E. cbn [res_bind]. rewrite Em, Ec. cbn [res_bind]. rewrite Emm, map_to_list_empty.
    by rewrite (proj1 (Permutation_nil_r _) (so_range _ _ _ _ _ Hso [])).
  - intros Hfree k. rewrite Hval. unfold local_value. destruct (decide _) as [|Hne]; [done|]. destruct (Hfree k Hne) as [Ek Hmeta].
    rewrite Ek. destruct (Z.eqb_spec (SubType k) BST_META) as [Es|]; [|done]. specialize (Hmeta Es).
    unfold verdict. destruct (om_get k l) as [n|]; [|done]. destruct (om_get k l0) as [o|]; [|done].
    destruct (_ <? _)%Z; cbn [apply3]; [done|by rewrite decide_True].
Qed.

(** C19: a merge of a remote tree decides inode by inode.  It returns, and every key of an inode has
    the value the verdict gives it: nothing changes when the metadata did not change between the two
    trees; all keys of the inode go when its deletion wins; otherwise its changed keys take the new
    values when the new metadata wins, and stay, or are merged one by one in a directory, when it
    does not.  So an inode the other side did not touch, whose metadata was changed or created with
    a later change time, ends with the values of the new tree. *)
Theorem MergeTo3_remote fuel (t : T) cur src dst l0 l :
  sources fuel src dst l0 l → trees_ok l0 l cur → tx_rep t cur →
  ∃ t' m', MergeTo3 range tree ptr_eq fuel t src dst false = Ok t' ∧ tx_rep t' m' ∧
    ∀ ino ty data (k := NewBlockKey ino ty data : string), in_uint64 ino → (0 < ty < 256)%Z →
      m' !! k = remote_value l0 l cur ino k ∧
      (cur !! k = om_get k l0 → cur !! (mkey ino : string) = om_get (mkey ino) l0 →
       om_get (mkey ino) l0 ≠ om_get (mkey ino) l → inode_verdict l0 l cur ino = MV_NEW → m' !! k = om_get k l).
Proof.
  intros Hso Hok Ht. destruct (sources_changes _ _ _ _ _ Hso) as (evs & ks & E & Em & Hks).
  destruct (changes_remote l0 l cur ks (mkMS t ∅ {[1%Z]}) cur) as (st' & m1 & Ec & [Ht1 _ Hv _] & Hrest & Hval); try done.
  { apply Hks. }
  { intros k. apply Hks. }
  { assert (∀ ino, ¬ seen l0 l ks ino) as Hns by (intros ino (_ & Hne & Hn); apply Hn, Hks, Hne).
    split; [done|done| |]; intros ino; cbn [ms_m ms_isdir].
    - by rewrite decide_False by apply Hns.
    - intros _. rewrite elem_of_singleton. specialize (Hns ino). tauto. }
  set (lst := range (map_to_list (ms_m st'))).
  assert (∀ ino v, (ino, v) ∈ lst ↔ ms_m st' !! ino = Some v) as Hlst.
  { intros ino v. unfold lst. rewrite (so_range _ _ _ _ _ Hso). apply elem_of_map_to_list. }
  assert (∀ ino v, (ino, v) ∈ lst ↔ in_uint64 ino ∧ om_get (mkey ino) l0 ≠ om_get (mkey ino) l ∧ inode_verdict l0 l cur ino = v) as Hin.
  { intros ino v. rewrite Hlst, Hv. unfold seen. destruct (decide _) as [(H1' & H2' & _)|Hn]; [naive_solver|].
    split; [done|]. intros (H1' & H2' & _). destruct Hn. split_and!; [done|done|apply not_elem_of_nil]. }
  destruct (delete_inodes_ok lst (ms_t st') m1 Ht1) as (t' & m' & Ed & Ht' & _ & Hkeep & Hdrop).
  { intros ino v H'. by apply Hin in H' as (? & _). }
  exists t', m'. split; [unfold MergeTo3; rewrite E; cbn [res_bind]; rewrite Em, Ec; exact Ed|]. split; [done|].
  intros ino ty data k Hino Hty.
  assert (m' !! k = remote_value l0 l cur ino k) as Hk; [|split; [done|]].
  - unfold remote_value. destruct (decide _) as [(H1' & H2' & H3')|Hn]; [eapply Hdrop; [|exact H3']; by apply Hin|]. rewrite Hkeep.
    + destruct (decide (om_get k l0 = om_get k l)) as [Es|Hne]; [apply Hrest; intros Hx%(dk_keys _ _ _ Hks); done|].
      apply Hval; [done|done|]. by apply Hks.
    + intros ino' (Hi' & Hc' & Hv')%Hin. destruct (own ino' k) eqn:Eo; [|done]. unfold own, k in Eo. rewrite inode_range_keys in Eo by (done || lia).
      apply andb_true_iff in Eo as [Eo Eo2]. apply Z.eqb_eq in Eo as <-. destruct Hn. split_and!; [done|done|].
      unfold own, k. rewrite inode_range_keys by (done || lia). by rewrite Z.eqb_refl.
  - intros Ek Emk Hne Hnew. rewrite Hk. unfold remote_value, changed_value. rewrite Hnew. rewrite decide_False by (by intros (_ & ? & _)).
    destruct (decide _) as [Es|]; [by rewrite Ek, Es|]. by rewrite decide_False.
Qed.
End props.

(** ** A merge to run

    An environment in which the change time in metadata is the length of its encoding. *)
Module MergeDemo.
Import Demo DemoTr PropsWitness.

#[global] Instance env : FsEnv := {
  MarshalMsg := λ m, "";
  UnmarshalMsg := λ s, Some (mkIM (mkIMD S_IFREG 0 0 0 1 (Z.of_nat (String.length s)) 1 0 1 0) None);
  Sum256 := λ b, b;
  time_Now := λ n, (1 + Z.of_nat n)%Z;
  CreateInodeNumber := λ n, (2 + Z.of_nat n)%Z
}.

(** The metadata of inode 5 is newer in the second tree; the current tree also has another inode. *)
Definition leaf (v : string) : Node := mkNode true [mkChild (mkey 5) v None] None.
Definition l_src : list kv := [(mkey 5, "v")].
Definition l_dst : list kv := [(mkey 5, "vv")].
Definition current : list kv := [(mkey 5, "v"); (mkey 6, "w")].
Definition cur : smap := <[(mkey 5 : string) := "v"]> (<[(mkey 6 : string) := "w"]> ∅).

Lemma current_rep : list_rep current cur.
Proof.
  split; [repeat constructor|]. intros k. unfold current. rewrite !om_get_cons. cbn [fst snd]. unfold cur.
  destruct (decide (mkey 5 = k)) as [<-|]; [by rewrite lookup_insert_eq|]. rewrite lookup_insert_ne by done.
  destruct (decide (mkey 6 = k)) as [<-|]; [by rewrite lookup_insert_eq|]. by rewrite lookup_insert_ne, lookup_empty, !decide_False by done.
Qed.
Lemma kv_ok_5 v : v = "v" ∨ v = "vv" → kv_ok tree bound (mkey 5, v).
Proof. intros [-> | ->]; (split; [discriminate|]); split; vm_compute; discriminate. Qed.
Lemma demo_sources : sources tree bound node_eqb (λ x, x) 300%nat (leaf "v") (leaf "vv") l_src l_dst.
Proof.
  split.
  - intros m m'. apply node_eqb_eq.
  - done.
  - exists 0%nat. apply leaf_repr, kv_ok_5. by left.
  - exists 0%nat. apply leaf_repr, kv_ok_5. by right.
  - apply Nat.leb_le. vm_compute. reflexivity.
Qed.
Lemma demo_trees_ok : trees_ok l_src l_dst cur.
Proof.
  split_and!; [by intros k v; eexists..|]. intros k Hk. unfold l_src, l_dst in Hk. rewrite !om_get_cons in Hk. cbn [fst snd] in Hk.
  destruct (decide (mkey 5 = k)) as [<-|]; [|exfalso; apply Hk; by rewrite !decide_False]. by exists 5%Z, BST_META, "".
Qed.
End MergeDemo.
Import Demo.

Lemma MergeTo3_local_witness :
  ∃ t' m', MergeTo3 (λ x, x) Demo.tree node_eqb 300%nat MergeDemo.current (MergeDemo.leaf "v") (MergeDemo.leaf "vv") true = Ok t' ∧
    tx_rep (TxStoreOk := list_TxStoreOk) t' m' ∧
    (∀ k, m' !! k = local_value MergeDemo.l_src MergeDemo.l_dst MergeDemo.cur k) ∧
    ((∀ k, om_get k MergeDemo.l_src ≠ om_get k MergeDemo.l_dst →
       MergeDemo.cur !! k = om_get k MergeDemo.l_src ∧ (SubType k = BST_META → om_get k MergeDemo.l_dst ≠ None)) →
     ∀ k, m' !! k = if decide (om_get k MergeDemo.l_src = om_get k MergeDemo.l_dst) then MergeDemo.cur !! k else om_get k MergeDemo.l_dst).
Proof.
  apply (MergeTo3_local Demo.tree Demo.bound node_eqb (λ x, x) 300%nat MergeDemo.current MergeDemo.cur (MergeDemo.leaf "v") (MergeDemo.leaf "vv") MergeDemo.l_src MergeDemo.l_dst).
  - apply MergeDemo.demo_sources.
  - apply MergeDemo.demo_trees_ok.
  - apply MergeDemo.current_rep.
Defined.

Lemma MergeTo3_remote_witness :
  inode_verdict MergeDemo.l_src MergeDemo.l_dst MergeDemo.cur 5 = MV_NEW ∧
  ∃ t' m', MergeTo3 (λ x, x) Demo.tree node_eqb 300%nat MergeDemo.current (MergeDemo.leaf "v") (MergeDemo.leaf "vv") false = Ok t' ∧
    tx_rep (TxStoreOk := list_TxStoreOk) t' m' ∧
    ∀ ino ty data (k := NewBlockKey ino ty data : string), in_uint64 ino → (0 < ty < 256)%Z →
      m' !! k = remote_value MergeDemo.l_src MergeDemo.l_dst MergeDemo.cur ino k ∧
      (MergeDemo.cur !! k = om_get k MergeDemo.l_src → MergeDemo.cur !! (mkey ino : string) = om_get (mkey ino) MergeDemo.l_src →
       om_get (mkey ino) MergeDemo.l_src ≠ om_get (mkey ino) MergeDemo.l_dst →
       inode_verdict MergeDemo.l_src MergeDemo.l_dst MergeDemo.cur ino = MV_NEW → m' !! k = om_get k MergeDemo.l_dst).
Proof.
  split; [vm_compute; reflexivity|].
  apply (MergeTo3_remote Demo.tree Demo.bound node_eqb (λ x, x) 300%nat MergeDemo.current MergeDemo.cur (MergeDemo.leaf "v") (MergeDemo.leaf "vv") MergeDemo.l_src MergeDemo.l_dst).
  - apply MergeDemo.demo_sources.
  - apply MergeDemo.demo_trees_ok.
  - apply MergeDemo.current_rep.
Defined.

(** A local merge does not carry over the deletion of metadata: the inode stays, with its
    other keys gone. *)
Theorem local_merge_keeps_deleted_metadata :
  let xkey := NewBlockKey 5 BST_XATTR "x" in
  let l0 := [(mkey 5, "v"); (xkey, "a")] in
  ∃ st, merge_changes (T := list kv) true (om_diff l0 []) (mkMS l0 ∅ {[1%Z]}) = Ok st ∧ ms_t st = [(mkey 5, "v")].
Proof. eexists. split; [vm_compute; reflexivity|]. vm_compute. reflexivity. Qed.
