(* ===== verification/Hugger.v ===== *)
(** * Concurrent transactions (src/ibtree/hugger/hugger.go, htransaction.go)

    Any number of goroutines call [Update2], each with its own callback, while the hugger may be
    flushed.  A transaction starts at the root that is current then; a commit swaps the root if it is
    still the same pointer, and otherwise [Update2] starts again, the second time with the retry
    lock.  Steps are the accesses of the shared root, of the locks and of the set of transactions.

    A root is named by a number, its address.  The transactions an [Update2] opens are closed when
    it returns. *)
From stdpp Require Import base list gmap relations.
From Stdlib Require Import Lia.
From S2P Require Import Prelude.

Section hugger.
(** What a tree holds, and what the callback of a goroutine makes of it: [None] is a callback that
    returns false, [Some None] one that changes nothing. *)
Context {V : Type} (cb : nat → V → option (option V)).

(** [r_commits] counts the commits before this root. *)
Record treeRoot : Type := mkRoot { r_id : nat; r_node : V; r_commits : nat }.

(** Where a goroutine is in [Update2]; [first] is the flag of the code, [opened] how many
    transactions it has opened.  [since] and [r_commits] are no data of the code: they record how
    many commits there had been, for the measure of termination; no step depends on them. *)
Inductive Update2_pc : Type :=
| U_begin (first : bool) (opened : nat) (since : nat)       (* GetNestableTransaction *)
| U_callback (first : bool) (opened : nat) (tr : treeRoot)  (* cb(tr) *)
| U_commit (first : bool) (opened : nat) (tr : treeRoot) (node : option V) (* TryCommit *)
| U_lock (opened : nat) (since : nat)                       (* transactionRetryLock.Locked() *)
| U_done (result : bool).

Record Hugger : Type := mkHugger {
  h_root : treeRoot;
  h_next : nat;                       (* the next address *)
  h_flushing : bool;
  h_retryLock : option nat;
  h_threads : list Update2_pc;
  h_log : list (nat * V * V)          (* commits: goroutine, old and new content *)
}.

Definition opened_by (p : Update2_pc) : nat :=
  match p with
  | U_begin _ n _ | U_callback _ n _ | U_commit _ n _ _ | U_lock n _ => n
  | U_done _ => 0
  end.
(** The number of entries of the map of transactions. *)
Definition open_transactions (h : Hugger) : nat := sum_list_with opened_by (h_threads h).

Definition goto (t : nat) (p : Update2_pc) (h : Hugger) : Hugger :=
  mkHugger (h_root h) (h_next h) (h_flushing h) (h_retryLock h) (<[t := p]> (h_threads h)) (h_log h).
Definition set_lock (l : option nat) (h : Hugger) : Hugger :=
  mkHugger (h_root h) (h_next h) (h_flushing h) l (h_threads h) (h_log h).

(** The deferred calls: the transactions are closed and the retry lock is released. *)
Definition return_ (t : nat) (result : bool) (h : Hugger) : Hugger :=
  goto t (U_done result) (set_lock (if decide (h_retryLock h = Some t) then None else h_retryLock h) h).

(** [commit(false, false)]: whether it succeeds; [None] as node says that nothing changed. *)
Definition TryCommit (t : nat) (tr : treeRoot) (node : option V) (h : Hugger) : bool * Hugger :=
  match node with
  | None => (true, h)
  | Some v =>
      if r_id (h_root h) =? r_id tr then
        (true, mkHugger (mkRoot (h_next h) v (S (length (h_log h)))) (S (h_next h)) (h_flushing h) (h_retryLock h)
                 (h_threads h) (h_log h ++ [(t, r_node tr, v)]))
      else (false, h)
  end.

(** The next step of goroutine [t]; [None] when it waits or is done. *)
Definition Update2_step (t : nat) (h : Hugger) : option Hugger :=
  p ← h_threads h !! t;
  match p with
  | U_begin first n _ => Some (goto t (U_callback first (S n) (h_root h)) h)
  | U_callback first n tr =>
      match cb t (r_node tr) with
      | None => Some (return_ t false h)
      | Some node => Some (goto t (U_commit first n tr node) h)
      end
  | U_commit first n tr node =>
      let '(ok, h) := TryCommit t tr node h in
      if ok then Some (return_ t true h)
      else if first then Some (goto t (U_lock n (S (r_commits tr))) h)
      else Some (goto t (U_begin false n (S (r_commits tr))) h)
  | U_lock n since =>
      if decide (h_retryLock h = None) then Some (set_lock (Some t) (goto t (U_begin false n since) h)) else None
  | U_done _ => None
  end.

Inductive u_step : Hugger → Hugger → Prop :=
| u_thread t h h' : Update2_step t h = Some h' → u_step h h'.

(** [Flush]: it waits until no transaction is open and then makes a new root of the same content. *)
Inductive h_step : Hugger → Hugger → Prop :=
| h_update h h' : u_step h h' → h_step h h'
| h_flush_begin h :
    h_step h (mkHugger (h_root h) (h_next h) true (h_retryLock h) (h_threads h) (h_log h))
| h_flush_end h (new : bool) :
    h_flushing h = true → open_transactions h = 0 →
    h_step h (mkHugger (if new then mkRoot (h_next h) (r_node (h_root h)) (r_commits (h_root h)) else h_root h)
                (S (h_next h)) false (h_retryLock h) (h_threads h) (h_log h)).

Definition Hugger0 (v0 : V) (n : nat) : Hugger :=
  mkHugger (mkRoot 0 v0 0) 1 false None (replicate n (U_begin true 0 0)) [].

(** ** The invariant *)

(** The contents before and after each commit fit together. *)
Fixpoint chain (v : V) (log : list (nat * V * V)) (v' : V) : Prop :=
  match log with
  | [] => v = v'
  | (_, a, b) :: log => v = a ∧ chain b log v'
  end.
Lemma chain_app v log v' t a b : chain v log v' → v' = a → chain v (log ++ [(t, a, b)]) b.
Proof. revert v. induction log as [|[[t' a'] b'] log IH]; intros v; cbn; [by intros -> ->|]. intros [-> Hc] E. split; [done|]. by apply IH. Qed.

(** What the tree held at some time. *)
Definition contents (v0 : V) (log : list (nat * V * V)) : list V := v0 :: log.*2.
Lemma chain_last v log v' : chain v log v' → v' ∈ contents v log.
Proof.
  revert v. induction log as [|[[t a] b] log IH]; intros v; cbn; [intros ->; by left|]. intros [_ Hc%IH]. by right.
Qed.

(** The root a transaction started from: the current one, or one that a commit has replaced. *)
Definition base_ok (v0 : V) (h : Hugger) (n : nat) (tr : treeRoot) : Prop :=
  0 < n ∧ r_node tr ∈ contents v0 (h_log h) ∧ r_commits tr ≤ length (h_log h) ∧ r_id tr < h_next h ∧
  (r_id tr = r_id (h_root h) → tr = h_root h) ∧ (r_id tr ≠ r_id (h_root h) → r_commits tr < length (h_log h)).

(** What holds of a goroutine. *)
Definition pc_ok (v0 : V) (h : Hugger) (t : nat) (p : Update2_pc) : Prop :=
  match p with
  | U_begin _ _ since | U_lock _ since => since ≤ length (h_log h)
  | U_callback _ n tr => base_ok v0 h n tr
  | U_commit _ n tr node => base_ok v0 h n tr ∧ cb t (r_node tr) = Some node
  | U_done true => t ∈ (h_log h).*1.*1 ∨ ∃ a, a ∈ contents v0 (h_log h) ∧ cb t a = Some None
  | U_done false => ∃ a, a ∈ contents v0 (h_log h) ∧ cb t a = None
  end.

Record h_inv (v0 : V) (h : Hugger) : Prop := {
  hi_chain : chain v0 (h_log h) (r_node (h_root h));
  hi_root : r_commits (h_root h) = length (h_log h) ∧ r_id (h_root h) < h_next h;
  hi_log : ∀ t a b, (t, a, b) ∈ h_log h → cb t a = Some (Some b) ∧ h_threads h !! t = Some (U_done true);
  hi_once : NoDup (h_log h).*1.*1;
  hi_pc : ∀ t p, h_threads h !! t = Some p → pc_ok v0 h t p;
  hi_lock : ∀ t, h_retryLock h = Some t → ∃ n since, h_threads h !! t = Some (U_begin false n since) ∨
    (∃ tr, h_threads h !! t = Some (U_callback false n tr)) ∨ ∃ tr node, h_threads h !! t = Some (U_commit false n tr node)
}.

Lemma h_inv_init v0 n : h_inv v0 (Hugger0 v0 n).
Proof.
  split; cbn; [done|lia|by intros t a b []%not_elem_of_nil|constructor| |done].
  intros t p Hp. apply lookup_replicate in Hp as [-> _]. cbn. lia.
Qed.

(** A step of [t] that keeps the root and the log. *)
Lemma goto_inv v0 h t p p0 l :
  h_inv v0 h → h_threads h !! t = Some p0 → (∀ r, p0 ≠ U_done r) → pc_ok v0 h t p →
  (∀ t', l = Some t' → t' ≠ t → h_retryLock h = Some t') →
  (l = Some t → ∃ n since, p = U_begin false n since ∨ (∃ tr, p = U_callback false n tr) ∨ ∃ tr node, p = U_commit false n tr node) →
  h_inv v0 (set_lock l (goto t p h)).
Proof.
  intros [Hc Hr Hl Ho Hp Hk] Ht Hnd Hpc Hlk Hlt. split; cbn; [done|done| |done| |].
  - intros t' a b Hin. destruct (Hl t' a b Hin) as [E1 E2]. split; [done|]. rewrite list_lookup_insert_ne; [done|]. intros <-. rewrite Ht in E2. injection E2 as ->. by eapply Hnd.
  - intros t' p' Hp'. destruct (decide (t' = t)) as [->|Hne].
    + rewrite list_lookup_insert_eq in Hp' by (by eapply lookup_lt_Some). injection Hp' as <-. done.
    + rewrite list_lookup_insert_ne in Hp' by done. by apply Hp.
  - intros t' Et'. destruct (decide (t' = t)) as [->|Hne].
    + rewrite list_lookup_insert_eq by (by eapply lookup_lt_Some). destruct (Hlt Et') as (n & since & Hcase). exists n, since. naive_solver.
    + rewrite list_lookup_insert_ne by done. apply Hk. by apply Hlk.
Qed.

Lemma goto_set_lock h t p : goto t p h = set_lock (h_retryLock h) (goto t p h).
Proof. by destruct h. Qed.
Lemma return_eq t r h : return_ t r h = set_lock (if decide (h_retryLock h = Some t) then None else h_retryLock h) (goto t (U_done r) h).
Proof. by destruct h. Qed.

(** The lock is held by others only when [t] is at a place where the holder cannot be. *)
Lemma lock_other v0 h t p0 :
  h_inv v0 h → h_threads h !! t = Some p0 →
  match p0 with U_begin first _ _ | U_callback first _ _ | U_commit first _ _ _ => first = true | _ => True end → h_retryLock h ≠ Some t.
Proof.
  intros Hi Ht Hp0 Hk. destruct (hi_lock _ _ Hi t Hk) as (n & since & [E|[[tr E]|(tr & node & E)]]); rewrite Ht in E; injection E as ->; done.
Qed.
Lemma return_inv v0 h t r p0 :
  h_inv v0 h → h_threads h !! t = Some p0 → (∀ r, p0 ≠ U_done r) → pc_ok v0 h t (U_done r) → h_inv v0 (return_ t r h).
Proof.
  intros Hi Ht Hnd Hpc. rewrite return_eq. eapply goto_inv; [done..| |].
  - intros t' Et' Hne. by destruct (decide _).
  - destruct (decide _); done.
Qed.

(** A commit that swaps the root. *)
Lemma commit_inv v0 h t first n tr v :
  h_inv v0 h → h_threads h !! t = Some (U_commit first n tr (Some v)) → r_id (h_root h) = r_id tr →
  h_inv v0 (return_ t true (mkHugger (mkRoot (h_next h) v (S (length (h_log h)))) (S (h_next h)) (h_flushing h) (h_retryLock h)
     (h_threads h) (h_log h ++ [(t, r_node tr, v)]))).
Proof.
  intros [Hc Hr Hl Ho Hp Hk] Ht Eid. destruct (Hp _ _ Ht) as [(Hn & Hct & Hcm & Hid & Heq & _) Hcb].
  assert (tr = h_root h) as Etr by by apply Heq. assert (t < length (h_threads h)) as Hlt by by eapply lookup_lt_Some.
  assert (t ∉ (h_log h).*1.*1) as Hnot.
  { intros Hin. apply list_elem_of_fmap in Hin as ([t' a] & E & Hin). cbn in E. subst t'.
    apply list_elem_of_fmap in Hin as ([[t' a'] b] & E & Hin). cbn in E. injection E as <- <-. apply Hl in Hin as [_ Hd]. congruence. }
  assert (∀ a, a ∈ contents v0 (h_log h) → a ∈ contents v0 (h_log h ++ [(t, r_node tr, v)])) as Hmono.
  { intros a. unfold contents. rewrite fmap_app. set_solver. }
  split; cbn.
  - apply (chain_app _ _ (r_node (h_root h))); [done|by rewrite Etr].
  - rewrite length_app. cbn. lia.
  - intros t' a b Hin. destruct (decide (t' = t)) as [->|Hne].
    + rewrite list_lookup_insert_eq by done. split; [|done]. apply elem_of_app in Hin as [Hin|Hin].
      * destruct Hnot. apply list_elem_of_fmap. exists (t, a). split; [done|]. apply list_elem_of_fmap. by exists (t, a, b).
      * apply list_elem_of_singleton in Hin. injection Hin as -> ->. done.
    + rewrite list_lookup_insert_ne by done. apply elem_of_app in Hin as [Hin|Hin]; [by apply Hl|].
      apply list_elem_of_singleton in Hin. congruence.
  - rewrite !fmap_app. apply NoDup_app. split_and!; [done| |apply NoDup_singleton]. cbn. intros x Hx Hx'. apply list_elem_of_singleton in Hx' as ->. done.
  - intros t' p' Hp'. destruct (decide (t' = t)) as [->|Hne].
    + rewrite list_lookup_insert_eq in Hp' by done. injection Hp' as <-. cbn. left. rewrite !fmap_app. apply elem_of_app. right. cbn. apply list_elem_of_singleton. done.
    + rewrite list_lookup_insert_ne in Hp' by done. specialize (Hp t' p' Hp').
      assert (∀ n tr', base_ok v0 h n tr' → base_ok v0 (mkHugger (mkRoot (h_next h) v (S (length (h_log h)))) (S (h_next h)) (h_flushing h) (h_retryLock h) (h_threads h) (h_log h ++ [(t, r_node tr, v)])) n tr') as Hbase.
      { intros n' tr' (B1 & B0 & B2 & B3 & B4 & B5). unfold base_ok. cbn. rewrite length_app. cbn. split_and!; [done|by apply Hmono|lia|lia|lia|lia]. }
      destruct p' as [f n' s'|f n' tr'|f n' tr' nd|n' s'|[]]; cbn in *; rewrite ?length_app; cbn; try lia; try done.
      * by apply Hbase.
      * destruct Hp. split; [by apply Hbase|done].
      * destruct Hp as [Hp|(a & Ha & Hp)]; [left; rewrite !fmap_app; apply elem_of_app; by left|right]. exists a. split; [by apply Hmono|done].
      * destruct Hp as (a & Ha & Hp). exists a. split; [by apply Hmono|done].
  - intros t' Et'. destruct (decide (h_retryLock h = Some t)) as [|Hn']; [done|]. rewrite list_lookup_insert_ne by congruence. by apply Hk.
Qed.

Lemma base_ok_root v0 h n : h_inv v0 h → base_ok v0 h (S n) (h_root h).
Proof. intros Hi. destruct (hi_root _ _ Hi). unfold base_ok. split_and!; [lia|apply chain_last, Hi|lia|done|done|done]. Qed.

Lemma u_step_inv v0 h h' : h_inv v0 h → u_step h h' → h_inv v0 h'.
Proof.
  intros Hi Hst. destruct Hst as [t h1 h2 E]. unfold Update2_step in E. destruct (h_threads h1 !! t) as [p|] eqn:Ht; [|done]. cbn in E.
  pose proof (hi_pc _ _ Hi t p Ht) as Hpc. destruct p as [first n since|first n tr|first n tr node|n since|r].
  - injection E as <-. rewrite goto_set_lock. eapply goto_inv; [done..| |done|].
    + by eapply base_ok_root.
    + intros Hk. destruct first; [by eapply lock_other in Hk|]. exists (S n), 0. eauto.
  - destruct (cb t (r_node tr)) as [node|] eqn:Ecb; injection E as <-.
    + rewrite goto_set_lock. eapply goto_inv; [done..|done|].
      intros Hk. destruct first; [by eapply lock_other in Hk|]. exists n, 0. eauto.
    + eapply return_inv; [done..|]. exists (r_node tr). split; [apply Hpc|done].
  - destruct Hpc as [(B1 & B0 & B2 & B3 & B4 & B5) Hcb]. unfold TryCommit in E. destruct node as [v|].
    + destruct (Nat.eqb_spec (r_id (h_root h1)) (r_id tr)) as [Eid|Hid].
      * injection E as <-. by eapply commit_inv.
      * specialize (B5 ltac:(congruence)). destruct first; injection E as <-; rewrite goto_set_lock; (eapply goto_inv; [done..|cbn; lia|done|]).
        -- intros Hk. by eapply lock_other in Hk.
        -- intros Hk. exists n, (S (r_commits tr)). by left.
    + injection E as <-. eapply return_inv; [done..|]. right. by exists (r_node tr).
  - destruct (decide (h_retryLock h1 = None)); [|done]. injection E as <-. eapply goto_inv; [done..| |].
    + intros t' [= <-]. done.
    + intros _. exists n, since. by left.
  - done.
Qed.

Lemma no_open h t p : open_transactions h = 0 → h_threads h !! t = Some p → opened_by p = 0.
Proof.
  unfold open_transactions. intros Hz Hp. apply list_elem_of_lookup_2 in Hp. induction (h_threads h) as [|q qs IH]; [by apply not_elem_of_nil in Hp|].
  cbn in Hz. apply elem_of_cons in Hp as [->|Hp]; [lia|]. apply IH; [lia|done].
Qed.

Lemma h_step_inv v0 h h' : h_inv v0 h → h_step h h' → h_inv v0 h'.
Proof.
  intros Hi Hst. destruct Hst as [h h' Hu|h|h new Hf Ho]; [by eapply u_step_inv|by destruct Hi; split|].
  destruct Hi as [Hc [Hr1 Hr2] Hl Hon Hp Hk]. split; cbn; [by destruct new|destruct new; cbn; lia|done|done| |done].
  intros t p Ht. pose proof (no_open _ _ _ Ho Ht) as Hn. specialize (Hp t p Ht).
  destruct p as [first n since|first n tr|first n tr node|n since|[]]; cbn in *; try done.
  - destruct Hp as (? & _). lia.
  - destruct Hp as [(? & _) _]. lia.
Qed.

Lemma h_reachable_inv v0 n h : rtc h_step (Hugger0 v0 n) h → h_inv v0 h.
Proof.
  intros Hr. remember (Hugger0 v0 n) as h0 eqn:E0. assert (h_inv v0 h0) as Hs0 by (subst; apply h_inv_init). clear E0.
  induction Hr as [|s1 s2 s3 H12 _ IH]; [done|]. apply IH. by eapply h_step_inv.
Qed.

(** ** How long it takes *)

(** What is left of goroutine [t] when there are [n] in all. *)
Definition work (n : nat) (p : Update2_pc) : nat :=
  match p with
  | U_lock _ since => 5 * (n - since) + 4
  | U_begin _ _ since => 5 * (n - since) + 3
  | U_callback _ _ tr => 5 * (n - r_commits tr) + 2
  | U_commit _ _ tr _ => 5 * (n - r_commits tr) + 1
  | U_done _ => 0
  end.
Definition total_work (h : Hugger) : nat := sum_list_with (work (length (h_threads h))) (h_threads h).

Lemma sum_insert {A : Type} (f : A → nat) (l : list A) i x y :
  l !! i = Some x → f y < f x → sum_list_with f (<[i := y]> l) < sum_list_with f l.
Proof.
  revert i. induction l as [|z l IH]; intros [|i] Hi Hlt; try done; cbn in *; [injection Hi as ->; lia|].
  apply Nat.add_lt_mono_l. by apply IH.
Qed.

(** There are no more commits than goroutines. *)
Lemma log_length v0 h : h_inv v0 h → length (h_log h) ≤ length (h_threads h).
Proof.
  intros Hi. assert ((h_log h).*1.*1 ⊆ seq 0 (length (h_threads h))) as Hsub.
  { intros t Ht. apply elem_of_seq. split; [lia|]. cbn. apply list_elem_of_fmap in Ht as ([t' a] & -> & Ht).
    apply list_elem_of_fmap in Ht as ([[t'' a'] b] & E & Ht). cbn in E. injection E as -> ->. apply (hi_log _ _ Hi) in Ht as [_ Ht]. by eapply lookup_lt_Some. }
  pose proof (NoDup_submseteq _ _ (hi_once _ _ Hi) Hsub) as Hs. apply submseteq_length in Hs. by rewrite !length_fmap, length_seq in Hs.
Qed.

Lemma u_step_work v0 h h' : h_inv v0 h → u_step h h' → total_work h' < total_work h ∧ length (h_threads h') = length (h_threads h).
Proof.
  intros Hi Hst. destruct Hst as [t h1 h2 E]. pose proof (log_length _ _ Hi) as Hlen. unfold Update2_step in E.
  destruct (h_threads h1 !! t) as [p|] eqn:Ht; [|done]. cbn in E. pose proof (hi_pc _ _ Hi t p Ht) as Hpc.
  assert (∀ h' p', h_threads h' = <[t := p']> (h_threads h1) → work (length (h_threads h1)) p' < work (length (h_threads h1)) p →
    total_work h' < total_work h1 ∧ length (h_threads h') = length (h_threads h1)) as Hdec.
  { intros h' p' Eh Hlt. unfold total_work. rewrite Eh, length_insert. split; [|done]. by eapply sum_insert. }
  destruct p as [first n since|first n tr|first n tr node|n since|r]; cbn in Hpc.
  - injection E as <-. eapply Hdec; [reflexivity|]. cbn. destruct (hi_root _ _ Hi) as [-> _]. lia.
  - destruct (cb t (r_node tr)); injection E as <-; (eapply Hdec; [reflexivity|cbn; lia]).
  - destruct Hpc as [(B1 & B0 & B2 & B3 & B4 & B5) _]. unfold TryCommit in E. destruct node as [v|]; [|injection E as <-; eapply Hdec; [reflexivity|cbn; lia]].
    destruct (Nat.eqb_spec (r_id (h_root h1)) (r_id tr)) as [Eid|Hid]; [injection E as <-; eapply Hdec; [reflexivity|cbn; lia]|].
    specialize (B5 ltac:(congruence)). destruct first; injection E as <-; (eapply Hdec; [reflexivity|cbn; lia]).
  - destruct (decide _); [|done]. injection E as <-. eapply Hdec; [reflexivity|cbn; lia].
  - done.
Qed.

Definition is_done (p : Update2_pc) : bool := match p with U_done _ => true | _ => false end.

(** Somebody can go on unless all are done. *)
Lemma u_progress v0 h t p : h_inv v0 h → h_threads h !! t = Some p → (∀ r, p ≠ U_done r) → ∃ h', u_step h h'.
Proof.
  intros Hi Ht Hnd. assert (∀ t' p', h_threads h !! t' = Some p' → match p' with U_lock _ _ | U_done _ => False | _ => True end → ∃ h', u_step h h') as Hrun.
  { intros t' p' Ht' Hp'. assert (is_Some (Update2_step t' h)) as [h' Eh].
    { unfold Update2_step. rewrite Ht'. cbn. destruct p' as [first n since|first n tr|first n tr node|n since|r]; try done.
      - by destruct (cb t' (r_node tr)).
      - destruct (TryCommit _ _ _ _) as [[] ?]; [done|]. by destruct first. }
    exists h'. by econstructor. }
  destruct p as [first n since|first n tr|first n tr node|n since|r]; [by eapply Hrun..| |by edestruct Hnd].
  destruct (decide (h_retryLock h = None)) as [E|Hk].
  - eexists. apply (u_thread t). unfold Update2_step. rewrite Ht. cbn. by rewrite decide_True.
  - destruct (h_retryLock h) as [t'|] eqn:E; [|done]. destruct (hi_lock _ _ Hi t' E) as (n' & since' & [E'|[[tr E']|(tr & node & E')]]); by eapply Hrun.
Qed.

(** ** Properties *)

(** C16: concurrent updates are serialised.  Whatever the interleaving of any number of [Update2]
    calls and flushes, the content of the root is the initial one changed by the commits one after
    the other; each commit is the change its callback makes to the content the commit replaces, and
    no goroutine commits twice.  An [Update2] that has returned true has committed or its callback
    had nothing to change in the tree as it was at some time; one that has returned false had its
    callback refuse it. *)
Theorem updates_serialise v0 n h :
  rtc h_step (Hugger0 v0 n) h →
  chain v0 (h_log h) (r_node (h_root h)) ∧ NoDup (h_log h).*1.*1 ∧
  (∀ t a b, (t, a, b) ∈ h_log h → cb t a = Some (Some b) ∧ h_threads h !! t = Some (U_done true)) ∧
  (∀ t, h_threads h !! t = Some (U_done true) → t ∈ (h_log h).*1.*1 ∨ ∃ a, a ∈ contents v0 (h_log h) ∧ cb t a = Some None) ∧
  (∀ t, h_threads h !! t = Some (U_done false) → ∃ a, a ∈ contents v0 (h_log h) ∧ cb t a = None).
Proof.
  intros [Hc _ Hl Ho Hp _]%h_reachable_inv. split_and!; [done..| |]; intros t Ht; apply (Hp t _ Ht).
Qed.

(** C38: concurrent updates terminate.  From every reachable state on, the goroutines in [Update2]
    take a bounded number of steps however they are scheduled, although each may retry, and as long
    as one has not returned one of them can go on. *)
Theorem updates_terminate v0 n h k h' :
  rtc h_step (Hugger0 v0 n) h → nsteps u_step k h h' →
  k ≤ total_work h ∧ ((∀ t p, h_threads h' !! t = Some p → ∃ r, p = U_done r) ∨ ∃ h'', u_step h' h'').
Proof.
  intros Hi%h_reachable_inv Hk. assert (h_inv v0 h' ∧ k + total_work h' ≤ total_work h) as [Hi' Hw].
  { induction Hk as [h|k h h1 h2 H1 _ IH]; [split; [done|lia]|]. destruct (u_step_work _ _ _ Hi H1) as [Hlt _].
    destruct IH as [IH1 IH2]; [by eapply u_step_inv|]. split; [done|lia]. }
  split; [lia|]. destruct (decide (Forall (λ p, is_done p = true) (h_threads h'))) as [Hall|Hex].
  - left. intros t p Ht. eapply Forall_lookup_1 in Hall; [|exact Ht]. destruct p; try done. by eexists.
  - right. apply not_Forall_Exists in Hex; [|apply _]. apply Exists_exists in Hex as (p & Hp & Hn).
    apply list_elem_of_lookup in Hp as [t Ht]. eapply u_progress; [done..|]. intros r ->. by apply Hn.
Qed.
End hugger.

(** ** Example: two goroutines add to a number *)

Definition demo_cb (t : nat) (v : nat) : option (option nat) := Some (Some (v + 10 * S t)).
Definition run_thread (t k : nat) (h : Hugger) : Hugger := Nat.iter k (λ h, default h (Update2_step demo_cb t h)) h.
(** Both start at the same root, the first one commits, the commit of the second one fails. *)
Definition demo : Hugger := run_thread 1 2 (run_thread 0 2 (run_thread 1 1 (run_thread 0 1 (Hugger0 5 2)))).

Lemma run_thread_steps t k h : rtc (u_step demo_cb) h (run_thread t k h).
Proof.
  induction k as [|k IH]; [done|]. etrans; [exact IH|]. cbn. destruct (Update2_step demo_cb t _) as [h'|] eqn:E; cbn; [|done].
  eapply rtc_once, u_thread, E.
Qed.
Lemma hugger_demo_reachable : rtc (h_step demo_cb) (Hugger0 5 2) demo.
Proof.
  apply (rtc_subrel (u_step demo_cb)); [intros h h'; apply h_update|].
  etrans; [apply (run_thread_steps 0 1)|]. etrans; [apply (run_thread_steps 1 1)|]. etrans; [apply (run_thread_steps 0 2)|]. apply (run_thread_steps 1 2).
Qed.

Lemma updates_serialise_witness :
  h_log demo = [(0, 5, 15)] ∧ h_threads demo = [U_done true; U_lock 1 1] ∧
  chain 5 (h_log demo) (r_node (h_root demo)) ∧ NoDup (h_log demo).*1.*1 ∧
  (∀ t a b, (t, a, b) ∈ h_log demo → demo_cb t a = Some (Some b) ∧ h_threads demo !! t = Some (U_done true)) ∧
  (∀ t, h_threads demo !! t = Some (U_done true) → t ∈ (h_log demo).*1.*1 ∨ ∃ a, a ∈ contents 5 (h_log demo) ∧ demo_cb t a = Some None) ∧
  (∀ t, h_threads demo !! t = Some (U_done false) → ∃ a, a ∈ contents 5 (h_log demo) ∧ demo_cb t a = None).
Proof. split; [reflexivity|]. split; [reflexivity|]. apply (updates_serialise demo_cb 5 2 demo hugger_demo_reachable). Defined.

Lemma demo_finish : nsteps (u_step demo_cb) 1 demo (run_thread 1 1 demo).
Proof. eapply nsteps_l; [|constructor]. apply (u_thread _ 1). reflexivity. Qed.
Lemma updates_terminate_witness :
  1 ≤ total_work demo ∧
  ((∀ t p, h_threads (run_thread 1 1 demo) !! t = Some p → ∃ r, p = U_done r) ∨ ∃ h'', u_step demo_cb (run_thread 1 1 demo) h'').
Proof. apply (updates_terminate demo_cb 5 2 demo 1 (run_thread 1 1 demo)); [apply hugger_demo_reachable|apply demo_finish]. Defined.
