(* ===== verification/HuggerFlush.v ===== *)
(** * Flushing a hugger (src/ibtree/hugger/hugger.go)

    The hugger is the backend of its tree: nodes are saved as blocks of the storage and loaded
    from them, through a cache of decoded nodes.  Every block it has made since the last flush it
    holds open, so that the storage keeps it; [Flush] saves the tree, makes the name of the
    hugger refer to its root and closes everything but the block of the root.

    [Flush] is described here from the moment no transaction is open.  The storage is what the
    hugger sees of it: blocks by id, which is the hash of their bytes, the handles it has
    opened, and the name.  The storage drops blocks that are not in use: [drop] removes one that
    has no handle, is not the one of the name, and is not referred to by another block.  This happens
    at any time ([expire]): before each node is saved, and around the rest of [Flush]. *)
From stdpp Require Import base list sets strings sorting gmap.
From Stdlib Require Import ZArith Lia.
From S2P Require Import Prelude OrderedMap Util IBNode IBStack IBTree IBRepr IBStackFacts IBLoc IBSync IBPersist NodeBytes.

(** The generated encoder of nodes and the hash; [evict] is what the cache keeps of its content;
    [IterateReferencesCallback] gives the blocks a node refers to. *)
Class HuggerEnv := {
  hugger_msgp :: NodeMsgp;
  block_hash : string → string;
  evict : gmap string NodeData → gmap string NodeData;
  IterateReferencesCallback : NodeData → list string
}.
(** Of the callback, that it reports the children of an interior node. *)
Class HuggerEnvOk `{HuggerEnv} : Prop := {
  node_roundtrip : ∀ nd, node_UnmarshalMsg (node_MarshalMsg nd) = Some nd;
  block_hash_length : ∀ b, String.length (block_hash b) = hashSize;
  evict_sub : ∀ c, evict c ⊆ c;
  refers_to_children : ∀ nd p, nd_Leafy nd = false → p ∈ nd_Children nd → p.2 ∈ IterateReferencesCallback nd
}.

Section code.
Context `{HuggerEnv}.

(** ** The blocks of a hugger *)

Record hstore : Type := mkHS {
  hs_data : gmap string string;       (* blocks of the storage *)
  hs_name : option string;            (* the block RootName refers to *)
  hs_held : gmap string nat;          (* handles opened by the hugger *)
  hs_blocks : gset string;            (* the map blocks: one handle each *)
  hs_cache : gmap string NodeData     (* nodeDataCache *)
}.
Definition set_data (d : gmap string string) (s : hstore) : hstore := mkHS d (hs_name s) (hs_held s) (hs_blocks s) (hs_cache s).
Definition set_name (n : option string) (s : hstore) : hstore := mkHS (hs_data s) n (hs_held s) (hs_blocks s) (hs_cache s).
Definition set_held (m : gmap string nat) (s : hstore) : hstore := mkHS (hs_data s) (hs_name s) m (hs_blocks s) (hs_cache s).
Definition set_blocks (b : gset string) (s : hstore) : hstore := mkHS (hs_data s) (hs_name s) (hs_held s) b (hs_cache s).
Definition set_cache (c : gmap string NodeData) (s : hstore) : hstore := mkHS (hs_data s) (hs_name s) (hs_held s) (hs_blocks s) c.
Definition handles (s : hstore) (id : string) : nat := default 0 (hs_held s !! id).

Definition open (id : string) (s : hstore) : hstore := set_held (<[id := S (handles s id)]> (hs_held s)) s.
Definition close (id : string) (s : hstore) : hstore := set_held (<[id := pred (handles s id)]> (hs_held s)) s.

Definition GetCachedNodeData (id : string) (s : hstore) : option NodeData := hs_cache s !! id.
Definition SetCachedNodeData (id : string) (nd : NodeData) (s : hstore) : hstore :=
  set_cache (evict (<[id := nd]> (hs_cache s))) s.

(** *** Blocks that are not in use *)

Definition block_refs (b : string) : list string :=
  match NewNodeDataFromBytes b with Ok (Some nd) => IterateReferencesCallback nd | _ => [] end.
Definition unused (s : hstore) (id : string) : Prop :=
  handles s id = 0 ∧ hs_name s ≠ Some id ∧ map_Forall (λ _ b, id ∉ block_refs b) (hs_data s).
Inductive drop : hstore → hstore → Prop :=
| drop_block id s : unused s id → drop s (set_data (delete id (hs_data s)) s).

(** What the storage has dropped when the hugger gets to it. *)
Class Expiry := {
  expire : hstore → hstore;
  expire_drops : ∀ s, rtc drop s (expire s)
}.
Context `{Expiry}.

(** *** Saving and loading *)

(** A block with the id that exists is referred to, whatever its bytes. *)
Definition ReferOrStore (id b : string) (s : hstore) : hstore :=
  open id (match hs_data s !! id with Some _ => s | None => set_data (<[id := b]> (hs_data s)) s end).

Definition GetStorageBlock (b : string) (nd : option NodeData) (s : hstore) : string * hstore :=
  let bid := block_hash b in
  let s := ReferOrStore bid b s in
  let s := match nd with Some nd => SetCachedNodeData bid nd s | None => s end in
  let s := if decide (bid ∈ hs_blocks s) then close bid s else s in
  (bid, set_blocks ({[bid]} ∪ hs_blocks s) s).

Definition hugger_SaveNode (nd : NodeData) (s : hstore) : res (string * hstore) :=
  Ok (GetStorageBlock (ToBytes nd) (Some nd) (expire s)).

(** The node of a block. *)
Definition load_blocks (d : gmap string string) (id : string) : option NodeData :=
  b ← d !! id; match NewNodeDataFromBytes b with Ok nd => nd | _ => None end.
(** A block that does not exist or is no node panics in the code; callers that get [None] here do. *)
Definition hugger_LoadNode (s : hstore) (id : string) : option NodeData :=
  match GetCachedNodeData id s with Some nd => Some nd | None => load_blocks (hs_data s) id end.

#[global] Instance hugger_backend : TreeBackend hstore := { SaveNode := hugger_SaveNode; LoadNode := hugger_LoadNode }.

(** ** The hugger *)

Record HuggerState : Type := mkHF {
  hf_store : hstore;
  hf_root : Node * option string;             (* node and block of the root *)
  hf_oldRoot : option (Node * option string)
}.

(** The pointers of two nodes. *)
Variable ptr_eq : Node → Node → bool.

Definition close_blocks (s : hstore) : hstore := set_blocks ∅ (foldr close s (elements (hs_blocks s))).

Definition Flush (h : HuggerState) : res HuggerState :=
  let changed := match hf_oldRoot h with None => true | Some (n, _) => negb (ptr_eq n (hf_root h).1) end in
  if changed then
    let! r := CommitTo (hf_root h).1 (hf_store h) in
    let '(node, bid, s) := (r : Node * BlockId * hstore) in
    let s := expire s in
    let '(block, s) :=
      if decide (bid ∈ hs_blocks s) then (Some bid, set_blocks (hs_blocks s ∖ {[bid]}) s)
      else match hs_data s !! bid with Some _ => (Some bid, open bid s) | None => (None, s) end in
    let s := set_name (Some bid) s in
    let s := match hf_oldRoot h with Some (_, Some ob) => close ob s | _ => s end in
    Ok (mkHF (expire (close_blocks s)) (node, block) (Some (node, block)))
  else Ok (mkHF (expire (close_blocks (hf_store h))) (hf_root h) (hf_oldRoot h)).

(** The root the name refers to and its block, or a new one. *)
Definition LoadNodeByName (t : Tree) (s : hstore) : res (Node * option string) :=
  match hs_name s with
  | Some bid =>
      let! r := LoadRoot (with_backend t (hugger_LoadNode s)) bid in
      let! node := deref r in
      Ok (node, Some bid)
  | None => Ok (NewRoot, None)
  end.
Definition RootIsNew (t : Tree) (s : hstore) : res (bool * HuggerState) :=
  let! r := LoadNodeByName t s in
  let '(node, obid) := (r : Node * option string) in
  match obid with
  | Some bid =>
      let '(block, s) := match hs_data s !! bid with Some _ => (Some bid, open bid s) | None => (None, s) end in
      Ok (false, mkHF s (node, block) None)
  | None => Ok (true, mkHF s (node, None) None)
  end.
End code.

(** ** What the storage keeps *)

Section facts.
Context `{HuggerEnvOk}.

(** Cached nodes are what the blocks hold, as far as they are there, and ids are hashes. *)
Record store_ok (s : hstore) : Prop := {
  so_cache : ∀ id nd b, hs_cache s !! id = Some nd → hs_data s !! id = Some b → b = ToBytes nd;
  so_hash : ∀ id b, hs_data s !! id = Some b → id = block_hash b
}.

(** The blocks [F] keep each other: each has a handle, the name or another one of them. *)
Definition kept (s : hstore) (F : gmap string string) : Prop :=
  F ⊆ hs_data s ∧
  ∀ id b, F !! id = Some b → 0 < handles s id ∨ hs_name s = Some id ∨ ∃ id' b', F !! id' = Some b' ∧ id ∈ block_refs b'.

Lemma drop_same s s' : drop s s' → hs_held s' = hs_held s ∧ hs_name s' = hs_name s ∧ hs_blocks s' = hs_blocks s ∧ hs_cache s' = hs_cache s ∧ hs_data s' ⊆ hs_data s.
Proof. intros [id s0 _]. split_and!; [done..|]. cbn. apply delete_subseteq. Qed.
Lemma drops_same s s' : rtc drop s s' → hs_held s' = hs_held s ∧ hs_name s' = hs_name s ∧ hs_blocks s' = hs_blocks s ∧ hs_cache s' = hs_cache s ∧ hs_data s' ⊆ hs_data s.
Proof.
  induction 1 as [s|s1 s2 s3 H12 _ (E1 & E2 & E3 & E4 & E5)]; [done|]. destruct (drop_same _ _ H12) as (D1 & D2 & D3 & D4 & D5).
  split_and!; [congruence..|]. by transitivity (hs_data s2).
Qed.
Lemma drop_kept s s' F : drop s s' → kept s F → kept s' F.
Proof.
  intros [id s0 (Hh & Hn & Hr)] [Hsub Hsup]. split; [|exact Hsup]. apply map_subseteq_spec. intros id' b Hb. cbn.
  rewrite lookup_delete_ne; [by eapply lookup_weaken|]. intros ->.
  destruct (Hsup id' b Hb) as [?|[?|(id2 & b2 & Hb2 & Hin)]]; [lia|done|]. eapply lookup_weaken in Hb2; [|exact Hsub]. by apply (Hr id2 b2 Hb2).
Qed.
Lemma drops_kept s s' F : rtc drop s s' → kept s F → kept s' F.
Proof. induction 1; eauto using drop_kept. Qed.
Lemma drops_store_ok s s' : rtc drop s s' → store_ok s → store_ok s'.
Proof.
  intros (_ & _ & _ & Ec & Hd)%drops_same [Hc Hh]. split.
  - intros id nd b. rewrite Ec. intros Hid Hb. eapply Hc; [done|by eapply lookup_weaken].
  - intros id b Hb. eapply Hh, lookup_weaken; done.
Qed.
Lemma handles_held s s' id : hs_held s' = hs_held s → handles s' id = handles s id.
Proof. unfold handles. by intros ->. Qed.

Lemma NewNodeDataFromBytes_ToBytes nd : NewNodeDataFromBytes (ToBytes nd) = Ok (Some nd).
Proof. rewrite <- (str_app_nil (ToBytes nd)). apply NewNodeDataFromBytes_app. by rewrite str_app_nil, node_roundtrip. Qed.
Lemma load_blocks_mono F F' id nd : F ⊆ F' → load_blocks F id = Some nd → load_blocks F' id = Some nd.
Proof. unfold load_blocks. intros Hs. destruct (F !! id) as [b|] eqn:E; [|done]. by rewrite (lookup_weaken _ _ _ _ E Hs). Qed.
Lemma load_blocks_saved F id nd : F !! id = Some (ToBytes nd) → load_blocks F id = Some nd.
Proof. unfold load_blocks. intros ->. cbn [mbind option_bind]. by rewrite NewNodeDataFromBytes_ToBytes. Qed.
Lemma load_blocks_inv F id nd : load_blocks F id = Some nd → ∃ b, F !! id = Some b ∧ block_refs b = IterateReferencesCallback nd.
Proof.
  unfold load_blocks, block_refs. destruct (F !! id) as [b|]; [|done]. cbn [mbind option_bind]. intros Hb. exists b. split; [done|].
  destruct (NewNodeDataFromBytes b) as [o| |]; [by subst o|done..].
Qed.
(** The cache does not show. *)
Lemma LoadNode_data s id b : store_ok s → hs_data s !! id = Some b → hugger_LoadNode s id = load_blocks (hs_data s) id.
Proof.
  intros Hs Hb. unfold hugger_LoadNode, GetCachedNodeData. destruct (hs_cache s !! id) as [nd|] eqn:E; [|done].
  symmetry. apply load_blocks_saved. by rewrite Hb, (so_cache _ Hs _ _ _ E Hb).
Qed.

(** *** Saving *)

Definition block_collision (nd : NodeData) (s : hstore) : Prop :=
  ∃ b, hs_data s !! block_hash (ToBytes nd) = Some b ∧ b ≠ ToBytes nd.

Lemma GetStorageBlock_data b nd s :
  hs_data (GetStorageBlock b nd s).2 =
  match hs_data s !! block_hash b with Some _ => hs_data s | None => <[block_hash b := b]> (hs_data s) end.
Proof. unfold GetStorageBlock, ReferOrStore. destruct nd; cbn; destruct (decide _); by destruct (hs_data s !! _). Qed.
Lemma GetStorageBlock_cache b nd s :
  hs_cache (GetStorageBlock b (Some nd) s).2 = evict (<[block_hash b := nd]> (hs_cache s)).
Proof. unfold GetStorageBlock, ReferOrStore. cbn. destruct (decide _); by destruct (hs_data s !! _). Qed.
Lemma GetStorageBlock_name b nd s : hs_name (GetStorageBlock b nd s).2 = hs_name s.
Proof. unfold GetStorageBlock, ReferOrStore. destruct nd; cbn; destruct (decide _); by destruct (hs_data s !! _). Qed.

Lemma SaveNode_store_ok nd s :
  store_ok s → ¬ block_collision nd s →
  store_ok (GetStorageBlock (ToBytes nd) (Some nd) s).2 ∧
  hs_data (GetStorageBlock (ToBytes nd) (Some nd) s).2 !! block_hash (ToBytes nd) = Some (ToBytes nd) ∧
  hs_data s ⊆ hs_data (GetStorageBlock (ToBytes nd) (Some nd) s).2.
Proof.
  intros [Hc Hh] Hnc. set (bid := block_hash (ToBytes nd)).
  assert (hs_data (GetStorageBlock (ToBytes nd) (Some nd) s).2 !! bid = Some (ToBytes nd)) as Hbid.
  { rewrite GetStorageBlock_data. fold bid. destruct (hs_data s !! bid) as [b|] eqn:E; [|by rewrite lookup_insert_eq].
    rewrite E. f_equal. destruct (decide (b = ToBytes nd)) as [|Hne]; [done|]. destruct Hnc. by exists b. }
  assert (hs_data s ⊆ hs_data (GetStorageBlock (ToBytes nd) (Some nd) s).2) as Hsub.
  { rewrite GetStorageBlock_data. fold bid. destruct (hs_data s !! bid) eqn:E; [done|]. by apply insert_subseteq. }
  split; [split|done].
  - intros id nd' b Hid Hb. rewrite GetStorageBlock_cache in Hid. eapply lookup_weaken in Hid; [|apply evict_sub]. fold bid in Hid.
    apply lookup_insert_Some in Hid as [[<- <-]|[Hne Hid]]; [congruence|]. eapply Hc; [done|]. rewrite GetStorageBlock_data in Hb. fold bid in Hb.
    destruct (hs_data s !! bid); [done|]. by rewrite lookup_insert_ne in Hb.
  - intros id b Hid. rewrite GetStorageBlock_data in Hid. fold bid in Hid. destruct (hs_data s !! bid); [by apply Hh|].
    apply lookup_insert_Some in Hid as [[<- <-]|[_ Hid]]; [done|by apply Hh].
Qed.

(** *** Handles *)

(** The handles beside those of [blocks]. *)
Definition holds (s : hstore) (e : string → nat) : Prop :=
  ∀ id, handles s id = e id + if decide (id ∈ hs_blocks s) then 1 else 0.

Lemma handles_open id s id' : handles (open id s) id' = handles s id' + if decide (id' = id) then 1 else 0.
Proof.
  unfold handles at 1, open. cbn [hs_held set_held]. destruct (decide (id' = id)) as [->|]; [rewrite lookup_insert_eq; cbn; lia|].
  rewrite lookup_insert_ne by done. unfold handles. lia.
Qed.
Lemma handles_close id s id' : handles (close id s) id' = handles s id' - if decide (id' = id) then 1 else 0.
Proof.
  unfold handles at 1, close. cbn [hs_held set_held]. destruct (decide (id' = id)) as [->|]; [rewrite lookup_insert_eq; cbn; lia|].
  rewrite lookup_insert_ne by done. unfold handles. lia.
Qed.
Lemma GetStorageBlock_handles b nd s id :
  handles (GetStorageBlock b nd s).2 id = handles s id + (if decide (id = block_hash b ∧ block_hash b ∉ hs_blocks s) then 1 else 0) ∧
  hs_blocks (GetStorageBlock b nd s).2 = {[block_hash b]} ∪ hs_blocks s.
Proof.
  unfold GetStorageBlock, ReferOrStore. set (bid := block_hash b). set (s0 := match hs_data s !! bid with Some _ => s | None => _ end).
  set (s2 := match nd with Some _ => _ | None => _ end).
  assert (handles s2 id = handles s id + if decide (id = bid) then 1 else 0) as Eh.
  { transitivity (handles (open bid s0) id); [by destruct nd|]. rewrite handles_open. unfold s0. by destruct (hs_data s !! bid). }
  assert (hs_blocks s2 = hs_blocks s) as Eb by (unfold s2, s0; destruct nd; by destruct (hs_data s !! bid)).
  cbn. rewrite Eb. destruct (decide (bid ∈ hs_blocks s)) as [Hin|Hin].
  - change (handles (set_blocks _ (close bid s2)) id) with (handles (close bid s2) id). change (hs_blocks (close bid s2)) with (hs_blocks s2). rewrite handles_close, Eh, Eb.
    rewrite (decide_False (P := id = bid ∧ _)) by tauto. split; [destruct (decide _); lia|done].
  - change (handles (set_blocks _ s2) id) with (handles s2 id). rewrite Eh, ?Eb.
    rewrite (decide_ext (id = bid ∧ bid ∉ hs_blocks s) (id = bid)) by tauto. done.
Qed.
Lemma GetStorageBlock_holds b nd s e : holds s e → holds (GetStorageBlock b nd s).2 e.
Proof.
  intros Hs id. specialize (Hs id). destruct (GetStorageBlock_handles b nd s id) as [-> ->]. rewrite Hs.
  destruct (decide (id = block_hash b)) as [->|Hne].
  - rewrite (decide_True (P := block_hash b ∈ {[_]} ∪ _)) by set_solver.
    destruct (decide (block_hash b ∈ hs_blocks s)); [rewrite decide_False by tauto|rewrite decide_True by done]; lia.
  - rewrite (decide_False (P := id = _ ∧ _)) by tauto. rewrite (decide_ext (id ∈ {[block_hash b]} ∪ hs_blocks s) (id ∈ hs_blocks s)) by set_solver. lia.
Qed.
Lemma drops_holds s s' e : rtc drop s s' → holds s e → holds s' e.
Proof. intros (Eh & _ & Eb & _)%drops_same Hs id. by rewrite (handles_held s s'), Eb by done. Qed.

Lemma close_all_handles l s id :
  NoDup l → handles (foldr close s l) id = handles s id - if decide (id ∈ l) then 1 else 0.
Proof.
  induction l as [|x l IH]; intros Hnd; [cbn; rewrite decide_False by set_solver; lia|].
  apply NoDup_cons in Hnd as [Hx Hnd]. cbn [foldr]. rewrite handles_close, IH by done.
  destruct (decide (id = x)) as [->|Hne].
  - rewrite (decide_False (P := x ∈ l)), decide_True by set_solver. lia.
  - rewrite (decide_ext (id ∈ x :: l) (id ∈ l)) by set_solver. lia.
Qed.
Lemma close_blocks_handles s e id : holds s e → handles (close_blocks s) id = e id.
Proof.
  intros Hs. unfold close_blocks. change (handles (set_blocks ∅ ?s') id) with (handles s' id).
  rewrite close_all_handles by apply NoDup_elements. rewrite Hs.
  rewrite (decide_ext (id ∈ elements (hs_blocks s)) (id ∈ hs_blocks s)) by apply elem_of_elements. destruct (decide _); lia.
Qed.
Lemma close_blocks_same s :
  hs_data (close_blocks s) = hs_data s ∧ hs_cache (close_blocks s) = hs_cache s ∧ hs_name (close_blocks s) = hs_name s ∧ hs_blocks (close_blocks s) = ∅.
Proof.
  unfold close_blocks. cbn. assert (∀ l, hs_data (foldr close s l) = hs_data s ∧ hs_cache (foldr close s l) = hs_cache s ∧ hs_name (foldr close s l) = hs_name s) as Hl.
  { induction l as [|x l IH]; [done|]. exact IH. }
  destruct (Hl (elements (hs_blocks s))) as (E1 & E2 & E3). done.
Qed.
End facts.

(** What every save keeps, a commit keeps. *)
Section pres.
Context {S : Type} `{TreeBackend S} (P : S → Prop).
Hypothesis save_pres : ∀ nd s r, P s → SaveNode nd s = Ok r → P r.2.

Lemma CommitTo_pres n : ∀ s r, P s → CommitTo n s = Ok r → P r.2.
Proof.
  apply (node_ind' (λ n, ∀ s r, P s → CommitTo n s = Ok r → P r.2)
    (λ c, ∀ m, childNode c = Some m → ∀ s r, P s → CommitTo m s = Ok r → P r.2)).
  - intros leafy cl bid HQ s r Hs E. destruct bid as [bid|]; [by injection E as <-|]. rewrite CommitTo_None in E.
    apply res_bind_Ok in E as (r1 & E1 & E). assert (P r1.2) as Hr1.
    { destruct leafy; [by injection E1 as <-|]. clear E. revert s r1 Hs E1. induction HQ as [|[k v sub] cl Hc _ IH]; intros s r1 Hs E1; [by injection E1 as <-|].
      cbn [commit_children] in E1. apply res_bind_Ok in E1 as (cs & Ec & E1). apply res_bind_Ok in E1 as (rest & Er & E1). injection E1 as <-.
      cbn [snd]. eapply IH; [|exact Er]. destruct sub as [m|]; [|by injection Ec as <-].
      apply res_bind_Ok in Ec as (r2 & E2 & Ec). injection Ec as <-. cbn [snd]. by eapply Hc. }
    apply res_bind_Ok in E as (saved & E2 & E). destruct (String.length saved.1 <? 10); [done|]. injection E as <-. cbn [snd]. by eapply save_pres.
  - done.
  - intros k v m Hm m' [= <-]. exact Hm.
Qed.
End pres.

(** A state seen through [f]: the same saves, the same commit. *)
Section simulation.
Context {S S' : Type} `{TreeBackend S} `{TreeBackend S'} (f : S → S').
Definition seen {A : Type} (r : res (A * S)) : res (A * S') :=
  match r with Ok (a, s) => Ok (a, f s) | Panic msg => Panic msg | NoFuel => NoFuel end.
Hypothesis save_seen : ∀ nd s, SaveNode nd (f s) = seen (SaveNode nd s).
Definition saves_seen (l : list (NodeData * S)) : list (NodeData * S') := map (λ p, (p.1, f p.2)) l.

Definition commit_seen (n : Node) : Prop := ∀ s, CommitTo n (f s) = seen (CommitTo n s) ∧ commit_saves n (f s) = saves_seen (commit_saves n s).
Lemma commit_children_seen cl :
  Forall (λ c, ∀ m, childNode c = Some m → commit_seen m) cl →
  ∀ s, commit_children cl (f s) = seen (commit_children cl s) ∧ children_saves cl (f s) = saves_seen (children_saves cl s).
Proof.
  induction 1 as [|[k v [m|]] cl Hc _ IH]; intros s; cbn [commit_children children_saves]; [done| |].
  - destruct (Hc m eq_refl s) as [E1 E2]. rewrite E1, E2. destruct (CommitTo m s) as [[[n' bid] s1]| |]; cbn [seen res_bind fst snd].
    + destruct (IH s1) as [E3 E4]. rewrite E3, E4. unfold saves_seen. rewrite map_app. by destruct (commit_children cl s1) as [[cl' s2]| |].
    + unfold saves_seen. by rewrite map_app.
    + unfold saves_seen. by rewrite map_app.
  - cbn [res_bind fst snd]. destruct (IH s) as [E3 E4]. rewrite E3, E4. by destruct (commit_children cl s) as [[cl' s2]| |].
Qed.
Lemma CommitTo_seen n : commit_seen n.
Proof.
  apply (node_ind' commit_seen (λ c, ∀ m, childNode c = Some m → commit_seen m)); [|done|by intros k v m Hm ? [= <-]].
  intros leafy cl [bid|] HQ s; [done|]. rewrite !CommitTo_None, !commit_saves_None.
  assert ((if leafy then Ok (cl, f s) else commit_children cl (f s)) = seen (if leafy then Ok (cl, s) else commit_children cl s) ∧
          (if leafy then [] else children_saves cl (f s)) = saves_seen (if leafy then [] else children_saves cl s)) as [E1 E2].
  { destruct leafy; [done|]. by apply commit_children_seen. }
  rewrite E1, E2. destruct (if leafy then Ok (cl, s) else commit_children cl s) as [[cl' s1]| |]; cbn [seen res_bind fst snd].
  - rewrite save_seen. split; [|unfold saves_seen; by rewrite map_app]. destruct (SaveNode _ s1) as [[id s2]| |]; cbn [seen res_bind fst snd]; [|done..].
    by destruct (String.length id <? 10).
  - split; [done|]. unfold saves_seen. by rewrite map_app.
  - split; [done|]. unfold saves_seen. by rewrite map_app.
Qed.
End simulation.

(** ** A commit while blocks expire *)

(** Beside the store, the blocks that are kept; the store may have more, and lose them. *)
Section ghost.
Context `{HuggerEnvOk} `{!Expiry}.

Record gstore : Type := mkG { g_store : hstore; g_kept : gmap string string }.
#[global] Instance ghost_backend : TreeBackend gstore := {
  SaveNode := λ nd g, let! r := hugger_SaveNode nd (g_store g) in Ok (r.1, mkG r.2 (<[r.1 := ToBytes nd]> (g_kept g)));
  LoadNode := λ g, load_blocks (g_kept g)
}.
Definition blocks_held (s : hstore) : Prop := ∀ id, id ∈ hs_blocks s → 0 < handles s id.
Definition ghost_inv (g : gstore) : Prop := store_ok (g_store g) ∧ kept (g_store g) (g_kept g) ∧ blocks_held (g_store g).

Lemma save_kept nd s F :
  store_ok s → kept s F → blocks_held s → ¬ block_collision nd s →
  let s' := (GetStorageBlock (ToBytes nd) (Some nd) s).2 in
  kept s' (<[block_hash (ToBytes nd) := ToBytes nd]> F) ∧ blocks_held s' ∧ F ⊆ <[block_hash (ToBytes nd) := ToBytes nd]> F.
Proof.
  intros Hs [Hsub Hsup] Hbh Hnc s'. set (bid := block_hash (ToBytes nd)).
  destruct (SaveNode_store_ok nd s Hs Hnc) as (_ & Hbid & Hdata). fold s' bid in Hbid, Hdata.
  assert (F ⊆ <[bid := ToBytes nd]> F) as HF.
  { apply map_subseteq_spec. intros id b Hb. apply lookup_insert_Some. destruct (decide (bid = id)) as [<-|]; [left|by right]. split; [done|].
    destruct (decide (b = ToBytes nd)) as [|Hne]; [done|]. destruct Hnc. exists b. split; [by eapply lookup_weaken|done]. }
  assert (∀ id, handles s' id = handles s id + if decide (id = bid ∧ bid ∉ hs_blocks s) then 1 else 0) as Hh.
  { intros id. exact (proj1 (GetStorageBlock_handles (ToBytes nd) (Some nd) s id)). }
  assert (∀ id, handles s id ≤ handles s' id) as Hle by (intros id; rewrite Hh; lia).
  assert (0 < handles s' bid) as Hpos.
  { rewrite Hh. destruct (decide (bid ∈ hs_blocks s)) as [Hin|]; [specialize (Hbh _ Hin); lia|].
    rewrite decide_True by done. lia. }
  split_and!; [split| |done].
  - apply insert_subseteq_l; [done|]. by transitivity (hs_data s).
  - intros id b [[<- <-]|[Hne Hb]]%lookup_insert_Some; [by left|]. destruct (Hsup id b Hb) as [?|[?|(id' & b' & Hb' & Hin)]].
    + left. specialize (Hle id). lia.
    + right. left. unfold s'. by rewrite GetStorageBlock_name.
    + right. right. exists id', b'. split; [|done]. by eapply lookup_weaken.
  - intros id. destruct (GetStorageBlock_handles (ToBytes nd) (Some nd) s id) as [_ Eb]. fold s' bid in Eb. rewrite Eb.
    intros [->%elem_of_singleton|Hin]%elem_of_union; [done|]. specialize (Hbh _ Hin). specialize (Hle id). lia.
Qed.

#[global] Instance ghost_backend_ok : TreeBackendOk gstore.
Proof.
  refine {| backend_inv := ghost_inv; collision := λ nd g, block_collision nd (expire (g_store g)) |}.
  - intros g b x (Hs & [Hsub _] & _) Hl. cbn in Hl. apply load_blocks_inv in Hl as (y & Hy & _).
    eapply lookup_weaken in Hy; [|exact Hsub]. rewrite (so_hash _ Hs _ _ Hy). apply block_hash_length.
  - intros nd [s F] (Hs & Hk & Hbh) Hnc _. cbn [g_store g_kept] in *. pose proof (expire_drops s) as He.
    assert (blocks_held (expire s)) as Hbh'.
    { destruct (drops_same _ _ He) as (Eh & _ & Eb & _). intros id. rewrite Eb, (handles_held s) by done. apply Hbh. }
    pose proof (drops_store_ok _ _ He Hs) as Hs'.
    destruct (SaveNode_store_ok nd (expire s) Hs' Hnc) as (Hs2 & _ & _).
    destruct (save_kept nd (expire s) F Hs' (drops_kept _ _ _ He Hk) Hbh' Hnc) as (Hk2 & Hbh2 & HF).
    eexists _, _. split_and!; [reflexivity|done| | |].
    + apply load_blocks_saved. cbn. by rewrite lookup_insert_eq.
    + apply block_hash_length.
    + intros b x. by apply load_blocks_mono.
Defined.
End ghost.

(** ** The blocks of a tree *)

Section subtree.
Context `{HuggerEnvOk} `{Hsz : MsgpSizes} (t : Tree) (B : Z).
Abbreviation tree_of F := (with_backend t (load_blocks F)).

(** Each block of [F'] is one of [ids], or another block of [F'] refers to it. *)
Definition below (ids : list string) (F' : gmap string string) : Prop :=
  ∀ id b, F' !! id = Some b → id ∈ ids ∨ ∃ id' b', F' !! id' = Some b' ∧ id ∈ block_refs b'.
Lemma sub_union (F1 F2 F : gmap string string) : F1 ⊆ F → F2 ⊆ F → F1 ⊆ F1 ∪ F2 ∧ F2 ⊆ F1 ∪ F2 ∧ F1 ∪ F2 ⊆ F.
Proof.
  intros H1 H2. split_and!; [apply map_union_subseteq_l| |by apply map_union_least].
  apply map_subseteq_spec. intros id b Hb. apply lookup_union_Some_raw. destruct (F1 !! id) as [b1|] eqn:E; [left|by right].
  f_equal. eapply lookup_weaken in E; [|exact H1]. eapply lookup_weaken in Hb; [|exact H2]. congruence.
Qed.
Lemma below_mono (ids : list string) (F1 F2 : gmap string string) id :
  F1 ⊆ F2 → (id ∈ ids ∨ ∃ id' b', F1 !! id' = Some b' ∧ id ∈ block_refs b') → id ∈ ids ∨ ∃ id' b', F2 !! id' = Some b' ∧ id ∈ block_refs b'.
Proof. intros Hs [?|(id' & b' & Hb' & ?)]; [by left|right]. exists id', b'. split; [by eapply lookup_weaken|done]. Qed.
Lemma below_union ids ids' F1 F2 F : F1 ⊆ F → F2 ⊆ F → below ids F1 → below ids' F2 → below (ids ++ ids') (F1 ∪ F2).
Proof.
  intros H1 H2 B1 B2. destruct (sub_union F1 F2 F H1 H2) as (S1 & S2 & _).
  intros id b [Hb|[_ Hb]]%lookup_union_Some_raw; [destruct (below_mono _ _ _ _ S1 (B1 id b Hb))|destruct (below_mono _ _ _ _ S2 (B2 id b Hb))];
    [left; set_solver|by right|left; set_solver|by right].
Qed.
(** A node and the blocks below it. *)
Lemma below_node id b F1 F nd :
  F !! id = Some b → F1 ⊆ F → block_refs b = IterateReferencesCallback nd →
  below (if nd_Leafy nd then [] else map snd (nd_Children nd)) F1 → below [id] ({[id := b]} ∪ F1).
Proof.
  intros Hb H1 Hrefs B1. destruct (sub_union {[id := b]} F1 F) as (S1 & S2 & _); [by apply map_singleton_subseteq_l|done|].
  intros id' b' [[<- <-]%lookup_singleton_Some|[_ Hb']]%lookup_union_Some_raw; [left; by left|right].
  destruct (below_mono _ _ _ _ S2 (B1 id' b' Hb')) as [Hin|?]; [|done]. exists id, b.
  split; [eapply lookup_weaken; [|exact S1]; apply lookup_singleton_eq|]. rewrite Hrefs. destruct (nd_Leafy nd) eqn:El; [by apply not_elem_of_nil in Hin|].
  apply list_elem_of_fmap in Hin as (p & -> & Hp). by apply refers_to_children.
Qed.

(** The entries of a node that is not in memory need only the blocks they lead to. *)
Lemma data_children F h nd bid ls :
  Leafy (node_of_data bid nd) = (h =? 0) → Forall2 (erepr (tree_of F) B h) (Children (node_of_data bid nd)) ls →
  (∀ cl ls, Forall (λ c, childNode c = None) cl → Forall2 (erepr (tree_of F) B h) cl ls →
     ∃ F', F' ⊆ F ∧ Forall2 (erepr (tree_of F') B h) cl ls ∧ below (if h then [] else map cValue cl) F') →
  ∃ F', F' ⊆ F ∧ Forall2 (erepr (tree_of F') B h) (Children (node_of_data bid nd)) ls ∧
    below (if nd_Leafy nd then [] else map snd (nd_Children nd)) F'.
Proof.
  intros HLf HF IH. destruct (IH (Children (node_of_data bid nd)) ls) as (F' & S1 & HF' & B1); [|done|].
  { apply Forall_forall. intros x Hx. cbn in Hx. apply list_elem_of_fmap in Hx as (p & -> & _). done. }
  exists F'. split_and!; [done..|]. cbn in HLf. rewrite HLf. destruct h; [done|]. cbn in *.
  by rewrite map_map in B1.
Qed.
Lemma entries_blocks F h : ∀ cl ls,
  Forall (λ c, childNode c = None) cl → Forall2 (erepr (tree_of F) B h) cl ls →
  ∃ F', F' ⊆ F ∧ Forall2 (erepr (tree_of F') B h) cl ls ∧ below (if h then [] else map cValue cl) F'.
Proof.
  induction h as [|h IH]; intros cl ls Hcl HF.
  { exists ∅. split_and!; [apply map_empty_subseteq| |by intros id b Hb; rewrite lookup_empty in Hb]. eapply Forall2_impl; done. }
  revert Hcl. induction HF as [|c lc cl ls Hc _ IHl]; intros Hcl.
  { exists ∅. split_and!; [apply map_empty_subseteq|constructor|by intros id b Hb; rewrite lookup_empty in Hb]. }
  apply Forall_cons in Hcl as [Hcn Hcl]. destruct (IHl Hcl) as (F2 & S2 & HF2 & B2).
  apply erepr_S in Hc as (Hsz1 & Hhd & m & Hm & HLf & ls1 & HF1 & ->). unfold resolve in Hm. rewrite Hcn in Hm. cbn [backend with_backend] in Hm.
  destruct (load_blocks F (cValue c)) as [nd|] eqn:El; [|done]. injection Hm as <-.
  destruct (data_children F h nd _ ls1 HLf HF1 IH) as (F1 & S1 & HF1' & B1). pose proof (load_blocks_inv _ _ _ El) as (b & Hb & Hrefs).
  assert ({[cValue c := b]} ⊆ F) as Sb by by apply map_singleton_subseteq_l.
  destruct (sub_union _ _ _ Sb S1) as (U1 & U2 & U3). destruct (sub_union _ _ _ U3 S2) as (U4 & U5 & U6).
  pose proof (below_node _ _ _ _ _ Hb S1 Hrefs B1) as B3. pose proof (below_union _ _ _ _ _ U3 S2 B3 B2) as B4.
  exists (({[cValue c := b]} ∪ F1) ∪ F2). split_and!; [done| |exact B4]. constructor.
  - apply erepr_S. split_and!; [done..|]. exists (node_of_data (Some (cValue c)) nd). split.
    + unfold resolve. rewrite Hcn. cbn [backend with_backend]. erewrite load_blocks_mono; [done|exact U4|].
      eapply load_blocks_mono; [exact U1|]. unfold load_blocks in *. rewrite Hb in El. by rewrite lookup_singleton_eq.
    + split; [done|]. exists ls1. split; [|done]. eapply Forall2_impl; [exact HF1'|]. intros c' lc'. apply erepr_mono. intros id x.
      apply load_blocks_mono. by etransitivity.
  - eapply Forall2_impl; [exact HF2|]. intros c' lc'. apply erepr_mono. intros id x. by apply load_blocks_mono.
Qed.

(** A root that was saved, and the blocks it leads to. *)
Lemma root_blocks F h bid nd l :
  load_blocks F bid = Some nd → nrepr (tree_of F) B h (node_of_data (Some bid) nd) l →
  ∃ F', F' ⊆ F ∧ load_blocks F' bid = Some nd ∧ nrepr (tree_of F') B h (node_of_data (Some bid) nd) l ∧ below [bid] F'.
Proof.
  intros El (HLf & ls & HF & ->). destruct (data_children F h nd _ ls HLf HF (entries_blocks F h)) as (F1 & S1 & HF1 & B1).
  pose proof (load_blocks_inv _ _ _ El) as (b & Hb & Hrefs). assert ({[bid := b]} ⊆ F) as Sb by by apply map_singleton_subseteq_l.
  destruct (sub_union _ _ _ Sb S1) as (U1 & U2 & U3). exists ({[bid := b]} ∪ F1). split_and!; [done| | |by eapply below_node].
  - eapply load_blocks_mono; [exact U1|]. unfold load_blocks in *. rewrite Hb in El. by rewrite lookup_singleton_eq.
  - split; [done|]. exists ls. split; [|done]. eapply Forall2_impl; [exact HF1|]. intros c' lc'. apply erepr_mono. intros id x. by apply load_blocks_mono.
Qed.
End subtree.

(** ** Properties *)

Section props.
Context `{HuggerEnvOk} `{!Expiry} `{Hsz : MsgpSizes} (t : Tree) (B : Z) (ptr_eq : Node → Node → bool).
Hypothesis ptr_eq_sound : ∀ m m', ptr_eq m m' = true → m = m'.
Hypothesis placeholder_size : String.length (placeholderValue t) = hashSize.
Abbreviation tree_of F := (with_backend t (load_blocks F)).

(** Between flushes: the handles are those of [blocks], of the block of the old root, which the name refers to, and
    [extra] ones, which nobody closes. *)
Record hugger_ok (extra : string → nat) (h : HuggerState) : Prop := {
  ho_store : store_ok (hf_store h);
  ho_held : holds (hf_store h) (λ id, extra id + match hf_oldRoot h with Some (_, Some ob) => if decide (id = ob) then 1 else 0 | _ => 0 end);
  ho_old : ∀ n ob, hf_oldRoot h = Some (n, ob) → ∃ bid nd, ob = Some bid ∧ hs_name (hf_store h) = Some bid ∧
    load_blocks (hs_data (hf_store h)) bid = Some nd ∧ n = node_of_data (Some bid) nd
}.
(** The tree below [n] holds the list [l], and its blocks are kept. *)
Definition holds_tree (s : hstore) (ht : nat) (n : Node) (l : list kv) : Prop :=
  ∃ F, kept s F ∧ nrepr (tree_of F) B ht n l ∧ synced (load_blocks F) n.

(** The name keeps the root and what is below it, whatever expires. *)
Lemma named_root_stays s F bid nd ht l s' :
  store_ok s → hs_name s = Some bid → F ⊆ hs_data s → load_blocks F bid = Some nd → nrepr (tree_of F) B ht (node_of_data (Some bid) nd) l →
  rtc drop s s' →
  holds_tree s' ht (node_of_data (Some bid) nd) l ∧ load_blocks (hs_data s') bid = Some nd ∧
  LoadNodeByName t s' = Ok (node_of_data (Some bid) nd, Some bid) ∧
  LoadNodeByName t (set_cache ∅ s') = Ok (node_of_data (Some bid) nd, Some bid) ∧
  nrepr (tree_of (hs_data s')) B ht (node_of_data (Some bid) nd) l.
Proof.
  intros Hs Hname HF Hld Hn Hdr. destruct (root_blocks t B F ht bid nd l Hld Hn) as (F' & S' & Hld' & Hn' & Hbl).
  assert (kept s F') as Hk.
  { split; [by transitivity F|]. intros id b Hb. destruct (Hbl id b Hb) as [->%list_elem_of_singleton|?]; [right; by left|by right; right]. }
  pose proof (drops_kept _ _ _ Hdr Hk) as [Hsub Hsup]. pose proof (drops_store_ok _ _ Hdr Hs) as Hs'.
  destruct (drops_same _ _ Hdr) as (_ & En & _ & _ & _).
  assert (load_blocks (hs_data s') bid = Some nd) as Hld2 by by eapply load_blocks_mono.
  assert (hugger_LoadNode s' bid = Some nd) as Hc.
  { apply load_blocks_inv in Hld2 as Hb. destruct Hb as (b & Hb & _). by rewrite (LoadNode_data s' bid b Hs' Hb). }
  split_and!; [|done| | |].
  - exists F'. split_and!; [done|done|]. by constructor.
  - unfold LoadNodeByName. rewrite En, Hname. unfold LoadRoot. cbn [backend with_backend]. by rewrite Hc.
  - unfold LoadNodeByName. cbn [hs_name set_cache]. rewrite En, Hname. unfold LoadRoot, hugger_LoadNode, GetCachedNodeData. cbn [backend with_backend hs_cache set_cache hs_data].
    by rewrite lookup_empty, Hld2.
  - eapply nrepr_mono; [|exact Hn']. intros id x. by apply load_blocks_mono.
Qed.

(** The state after the root block was taken and the old one was closed. *)
Definition flushed (s : hstore) (bid : string) (old : option (Node * option string)) : hstore :=
  let s := if decide (bid ∈ hs_blocks s) then set_blocks (hs_blocks s ∖ {[bid]}) s else open bid s in
  let s := set_name (Some bid) s in
  match old with Some (_, Some ob) => close ob s | _ => s end.
Lemma flushed_same s bid old :
  hs_data (flushed s bid old) = hs_data s ∧ hs_cache (flushed s bid old) = hs_cache s ∧ hs_name (flushed s bid old) = Some bid.
Proof. unfold flushed. destruct (decide _), old as [[? [?|]]|]; done. Qed.
Lemma flushed_holds s bid extra old :
  holds s (λ id, extra id + match old with Some (_, Some ob) => if decide (id = ob) then 1 else 0 | _ => 0 end) →
  holds (flushed s bid old) (λ id, extra id + if decide (id = bid) then 1 else 0).
Proof.
  intros Hs id. specialize (Hs id). unfold flushed.
  set (s1 := set_name (Some bid) _).
  set (e := match old with Some (_, Some ob) => if decide (id = ob) then 1 else 0 | _ => 0 end) in Hs.
  assert (handles s1 id = extra id + e + (if decide (id = bid) then 1 else 0) + if decide (id ∈ hs_blocks s1) then 1 else 0) as E1.
  { unfold s1. destruct (decide (bid ∈ hs_blocks s)) as [Hin|Hin].
    - change (handles (set_name _ (set_blocks _ s)) id) with (handles s id). rewrite Hs. cbn [hs_blocks set_name set_blocks]. destruct (decide (id = bid)) as [->|Hne].
      + rewrite decide_True by done. rewrite decide_False by set_solver. lia.
      + rewrite (decide_ext (id ∈ hs_blocks s ∖ {[bid]}) (id ∈ hs_blocks s)) by set_solver. lia.
    - change (handles (set_name _ (open bid s)) id) with (handles (open bid s) id). rewrite handles_open, Hs. cbn [hs_blocks open set_name set_held]. lia. }
  assert (∀ ob, handles (close ob s1) id = handles s1 id - if decide (id = ob) then 1 else 0) as Hclose by (intros; apply handles_close).
  destruct old as [[n [ob|]]|]; subst e; [rewrite Hclose, E1; change (hs_blocks (close ob s1)) with (hs_blocks s1)|rewrite E1|rewrite E1];
    repeat destruct (decide _); lia.
Qed.

(** What a commit leaves, with the blocks that are kept. *)
Lemma commit_kept h extra ht l :
  hugger_ok extra h → holds_tree (hf_store h) ht (hf_root h).1 l → kvs_ok t B l →
  Forall (λ p, ¬ block_collision p.1 (expire p.2)) (commit_saves (hf_root h).1 (hf_store h)) →
  ∃ bid nd s F, CommitTo (hf_root h).1 (hf_store h) = Ok (node_of_data (Some bid) nd, bid, s) ∧ store_ok s ∧ kept s F ∧
    load_blocks F bid = Some nd ∧ nrepr (tree_of F) B ht (node_of_data (Some bid) nd) l ∧
    holds s (λ id, extra id + match hf_oldRoot h with Some (_, Some ob) => if decide (id = ob) then 1 else 0 | _ => 0 end).
Proof.
  intros [Hst Hheld _] (F0 & Hk & Hn & Hsy) Hok Hnc. pose (g := mkG (hf_store h) F0).
  assert (∀ nd (g : gstore), SaveNode nd (g_store g) = seen g_store (SaveNode nd g)) as Hsim by done.
  destruct (CommitTo_seen g_store Hsim (hf_root h).1 g) as [Ec Es]. cbn [g_store g] in Ec, Es.
  destruct (CommitTo_LoadRoot t B placeholder_size (hf_root h).1 g ht l) as (n' & bid & g' & Eg & (Hst' & Hk' & _) & Hld & Hn' & _ & _); [|done..| |].
  { split_and!; [done..|]. intros id Hin. cbn [g_store g]. rewrite Hheld, (decide_True (P := id ∈ _)) by done. lia. }
  { rewrite Es in Hnc. unfold saves_seen in Hnc. rewrite Forall_map in Hnc. exact Hnc. }
  unfold LoadRoot in Hld. cbn [backend with_backend] in Hld. destruct (LoadNode g' bid) as [nd|] eqn:El; [|done]. injection Hld as <-.
  rewrite Eg in Ec. cbn [seen] in Ec. exists bid, nd, (g_store g'), (g_kept g'). split_and!; [done..|].
  eapply (CommitTo_pres (λ s, holds s _)) in Ec; [exact Ec| |exact Hheld]. intros nd' s r Hs E. injection E as <-.
  apply GetStorageBlock_holds. eapply drops_holds; [apply expire_drops|done].
Qed.

(** Expiry between flushes does no harm. *)
Lemma drops_hugger_ok extra h s' ht l :
  hugger_ok extra h → holds_tree (hf_store h) ht (hf_root h).1 l → rtc drop (hf_store h) s' →
  hugger_ok extra (mkHF s' (hf_root h) (hf_oldRoot h)) ∧ holds_tree s' ht (hf_root h).1 l.
Proof.
  intros [Hst Hheld Hold] (F & Hk & Hn & Hsy) Hdr. destruct (drops_same _ _ Hdr) as (Eh & En & _). split.
  - split; cbn [hf_store hf_oldRoot]; [by eapply drops_store_ok|by eapply drops_holds|].
    intros n ob E. destruct (Hold n ob E) as (bid & nd & -> & Ename & Hld & ->). exists bid, nd. split_and!; [done|by rewrite En| |done].
    apply load_blocks_inv in Hld as Hb. destruct Hb as (b & Hb & _).
    assert (kept (hf_store h) {[bid := b]}) as Hkb.
    { split; [by apply map_singleton_subseteq_l|]. intros id b' [<- _]%lookup_singleton_Some. right. by left. }
    destruct (drops_kept _ _ _ Hdr Hkb) as [Hsub _]. eapply load_blocks_mono; [exact Hsub|]. unfold load_blocks in *. rewrite Hb in Hld. by rewrite lookup_singleton_eq.
  - exists F. split_and!; [by eapply drops_kept|done..].
Qed.

(** C17: a flush persists the tree, although blocks that are not in use expire all the time.  When no transaction is
    open and the blocks of the tree in memory are kept, [Flush] returns; afterwards, and after any further expiry, the
    name of the hugger refers to a block from which, with or without the node cache, a root is loaded that holds the
    same keys and values, all its nodes being there.  Of all blocks the hugger has made it holds only that one open
    (and the handles that are never closed), so that what is not part of the tree may go; it can then be flushed
    again. *)
Theorem Flush_persists (h : HuggerState) extra ht l :
  hugger_ok extra h → holds_tree (hf_store h) ht (hf_root h).1 l → kvs_ok t B l →
  Forall (λ p, ¬ block_collision p.1 (expire p.2)) (commit_saves (hf_root h).1 (hf_store h)) →
  ∃ h' bid, Flush ptr_eq h = Ok h' ∧ hugger_ok extra h' ∧ holds_tree (hf_store h') ht (hf_root h').1 l ∧
    (∀ s, rtc drop (hf_store h') s →
       LoadNodeByName t s = Ok ((hf_root h').1, Some bid) ∧ LoadNodeByName t (set_cache ∅ s) = Ok ((hf_root h').1, Some bid) ∧
       nrepr (tree_of (hs_data s)) B ht (hf_root h').1 l) ∧
    ∀ id, handles (hf_store h') id = extra id + if decide (id = bid) then 1 else 0.
Proof.
  intros Hok Ht Hkv Hnc. unfold Flush.
  assert (∀ s F bid nd blk, store_ok s → hs_name s = Some bid → F ⊆ hs_data s → load_blocks F bid = Some nd →
    nrepr (tree_of F) B ht (node_of_data (Some bid) nd) l → hs_blocks s = ∅ → (∀ id, handles s id = extra id + if decide (id = bid) then 1 else 0) →
    let h' := mkHF (expire s) (node_of_data (Some bid) nd, blk) (Some (node_of_data (Some bid) nd, Some bid)) in
    hugger_ok extra h' ∧ holds_tree (hf_store h') ht (hf_root h').1 l ∧
    (∀ s, rtc drop (hf_store h') s →
       LoadNodeByName t s = Ok ((hf_root h').1, Some bid) ∧ LoadNodeByName t (set_cache ∅ s) = Ok ((hf_root h').1, Some bid) ∧
       nrepr (tree_of (hs_data s)) B ht (hf_root h').1 l) ∧
    ∀ id, handles (hf_store h') id = extra id + if decide (id = bid) then 1 else 0) as Hend.
  { intros s F bid nd blk Hs Hname HF Hld Hn Hb Hh h'. pose proof (expire_drops s) as He. destruct (drops_same _ _ He) as (Eh & En & Eb & _).
    assert (∀ id, handles (expire s) id = extra id + if decide (id = bid) then 1 else 0) as Hh' by (intros id; by rewrite (handles_held s)).
    destruct (named_root_stays s F bid nd ht l (expire s)) as (Ht' & Hld' & _); [done..|]. split_and!; [split|done| |done].
    - by eapply drops_store_ok.
    - intros id. cbn [hf_store hf_oldRoot h']. rewrite Hh', Eb, Hb, (decide_False (P := id ∈ ∅)) by set_solver. lia.
    - intros n ob [= <- <-]. exists bid, nd. split_and!; [done|by rewrite <- Hname|done|done].
    - intros s' Hs'. destruct (named_root_stays s F bid nd ht l s') as (_ & _ & ?); [done..|by etransitivity|]. done. }
  set (changed := match hf_oldRoot h with None => true | Some (n, _) => negb (ptr_eq n (hf_root h).1) end). destruct changed eqn:Ech.
  - destruct (commit_kept h extra ht l Hok Ht Hkv Hnc) as (bid & nd & s & F & -> & Hs & Hk & Hld & Hn & Hheld). cbn [res_bind].
    pose proof (expire_drops s) as He. pose proof (drops_kept _ _ _ He Hk) as [Hsub _].
    set (s2 := flushed (expire s) bid (hf_oldRoot h)). destruct (flushed_same (expire s) bid (hf_oldRoot h)) as (E1 & E2 & E3). fold s2 in E1, E2, E3.
    destruct (close_blocks_same s2) as (C1 & C2 & C3 & C4). destruct (drops_store_ok _ _ He Hs) as [Hc Hh].
    eexists _, bid. split; [|apply (Hend (close_blocks s2) F bid nd (Some bid))].
    + destruct (load_blocks_inv _ _ _ Hld) as (b & Hb & _). subst s2. unfold flushed. destruct (decide (bid ∈ hs_blocks (expire s))); [done|].
      eapply lookup_weaken in Hb; [|exact Hsub]. by rewrite Hb.
    + split; rewrite C1, ?C2, E1, ?E2; done.
    + by rewrite C3.
    + by rewrite C1, E1.
    + done.
    + done.
    + done.
    + intros id. exact (close_blocks_handles s2 _ id (flushed_holds _ bid extra _ (drops_holds _ _ _ He Hheld))).
  - destruct Hok as [Hst Hheld Hold], Ht as (F & [Hsub _] & Hn & Hsy). destruct (hf_oldRoot h) as [[n ob]|] eqn:Eo; [|done].
    apply negb_false_iff, ptr_eq_sound in Ech. subst n. destruct (Hold _ _ eq_refl) as (bid & nd & -> & Ename & Hld & Hnode).
    destruct (close_blocks_same (hf_store h)) as (C1 & C2 & C3 & C4).
    destruct (hf_root h) as [rn blk] eqn:Er. cbn [fst] in *. subst rn. eexists _, bid.
    split; [reflexivity|apply (Hend (close_blocks (hf_store h)) (hs_data (hf_store h)) bid nd blk)].
    + destruct Hst as [Hc Hh]. split; rewrite C1, ?C2; done.
    + by rewrite C3.
    + by rewrite C1.
    + done.
    + eapply nrepr_mono; [|exact Hn]. intros id x. by apply load_blocks_mono.
    + done.
    + intros id. exact (close_blocks_handles _ _ id Hheld).
Qed.
End props.

(** ** An environment to run in *)

Module FlushDemo.
#[global] Instance henv : HuggerEnv := {
  hugger_msgp := {|
    node_MarshalMsg nd := pos_string (encode (nd_Leafy nd, nd_Children nd));
    node_UnmarshalMsg s := p ← string_pos s; (λ x : bool * list (string * string), mkNodeData x.1 x.2) <$> decode p
  |};
  block_hash := λ b, String (byte_chr (Z.of_nat (String.length b) mod 256)) (string_repeat "h" 31);
  evict := λ c, c;
  IterateReferencesCallback := λ nd, if nd_Leafy nd then [] else map snd (nd_Children nd)
}.
#[global] Instance henv_ok : HuggerEnvOk.
Proof.
  split.
  - intros nd. cbn. rewrite string_pos_string. cbn. rewrite decode_encode. by destruct nd.
  - intros b. reflexivity.
  - done.
  - intros nd p Hl Hp. cbn. rewrite Hl. by apply list_elem_of_fmap_2.
Qed.

(** A storage that drops all it can. *)
#[global] Instance unused_dec s id : Decision (unused s id).
Proof. unfold unused. apply _. Defined.
Definition sweep (s : hstore) : hstore :=
  foldr (λ id s, if decide (unused s id) then set_data (delete id (hs_data s)) s else s) s (elements (dom (hs_data s))).
#[global] Instance eager : Expiry.
Proof.
  refine {| expire := sweep |}. intros s. unfold sweep. induction (elements (dom (hs_data s))) as [|id ids IH]; [done|]. cbn [foldr].
  destruct (decide _); [|done]. eapply rtc_r; [exact IH|]. by constructor.
Defined.

#[global] Instance sizes : MsgpSizes := {| BoolSize := 1; ArrayHeaderSize := 5; StringPrefixSize := 5 |}.
Definition tree : Tree := Tree_Init 512 None.
Definition leaf : Node := mkNode true [mkChild "k" "v" None] None.
(** A tree in memory, and a block of an extent that nobody uses. *)
Definition extent : string := "x".
Definition start : HuggerState := mkHF (mkHS {[block_hash extent := extent]} None ∅ ∅ ∅) (leaf, None) None.

Lemma start_ok : hugger_ok (λ _, 0) start.
Proof.
  split; [split; [done|]|by intros id|done]. cbn. intros id b [<- <-]%lookup_singleton_Some. done.
Qed.
Lemma leaf_nrepr load : nrepr (with_backend tree load) 200 0 leaf [("k", "v")].
Proof.
  apply (nrepr_mk (with_backend tree load) 200 0 true [mkChild "k" "v" None] None [[("k", "v")]]); [done|].
  constructor; [|constructor]. apply erepr_leaf. vm_compute. split_and!; discriminate.
Qed.
Lemma start_holds_tree : holds_tree tree 200 (hf_store start) 0 leaf [("k", "v")].
Proof.
  exists ∅. split_and!; [|apply leaf_nrepr|].
  - split; [apply map_empty_subseteq|]. intros id b Hb. by rewrite lookup_empty in Hb.
  - constructor. intros c m Hc%list_elem_of_singleton. by rewrite Hc.
Qed.
End FlushDemo.

Lemma Flush_persists_witness :
  hs_data (expire (hf_store FlushDemo.start)) = ∅ ∧
  ∃ h' bid, Flush node_eqb FlushDemo.start = Ok h' ∧ hugger_ok (λ _, 0) h' ∧
    holds_tree FlushDemo.tree 200 (hf_store h') 0 (hf_root h').1 [("k", "v")] ∧
    (∀ s, rtc drop (hf_store h') s →
       LoadNodeByName FlushDemo.tree s = Ok ((hf_root h').1, Some bid) ∧
       LoadNodeByName FlushDemo.tree (set_cache ∅ s) = Ok ((hf_root h').1, Some bid) ∧
       nrepr (with_backend FlushDemo.tree (load_blocks (hs_data s))) 200 0 (hf_root h').1 [("k", "v")]) ∧
    ∀ id, handles (hf_store h') id = 0 + if decide (id = bid) then 1 else 0.
Proof.
  split; [vm_compute; reflexivity|]. apply (Flush_persists FlushDemo.tree 200 node_eqb).
  - intros m m'. apply node_eqb_eq.
  - reflexivity.
  - apply FlushDemo.start_ok.
  - apply FlushDemo.start_holds_tree.
  - split; [repeat constructor|]. constructor; [|constructor]. vm_compute. split_and!; discriminate.
  - constructor; [|constructor]. intros (b & Hb & _). vm_compute in Hb. discriminate.
Defined.

(** The handle [RootIsNew] opens on the block of a root it finds is never closed: after the first
    flush of the loaded hugger there are two. *)
Theorem loaded_root_keeps_a_handle :
  ∃ h1 h2 h3 bid, Flush node_eqb FlushDemo.start = Ok h1 ∧ hs_name (hf_store h1) = Some bid ∧
    RootIsNew FlushDemo.tree (mkHS (hs_data (hf_store h1)) (Some bid) ∅ ∅ ∅) = Ok (false, h2) ∧
    Flush node_eqb h2 = Ok h3 ∧ handles (hf_store h3) bid = 2.
Proof.
  eexists _, _, _, _. split; [vm_compute; reflexivity|]. split; [reflexivity|]. split; [vm_compute; reflexivity|]. split; vm_compute; reflexivity.
Qed.

(** Such a hugger satisfies what a flush needs, with that handle as an extra one. *)
Lemma loaded_hugger_ok `{HuggerEnvOk} `{!Expiry} (t : Tree) s isnew h bid :
  store_ok s → hs_held s = ∅ → hs_blocks s = ∅ → hs_name s = Some bid → is_Some (hs_data s !! bid) → RootIsNew t s = Ok (isnew, h) →
  hugger_ok (λ id, if decide (id = bid) then 1 else 0) h.
Proof.
  intros Hs Eh Eb En [b Hb] E. unfold RootIsNew in E. apply res_bind_Ok in E as ([node obid] & E1 & E).
  unfold LoadNodeByName in E1. rewrite En in E1. apply res_bind_Ok in E1 as (r & _ & E1). apply res_bind_Ok in E1 as (n & _ & E1). injection E1 as <- <-.
  rewrite Hb in E. injection E as <- <-. split; cbn [hf_store hf_oldRoot]; [destruct Hs; by split| |done].
  intros id. rewrite handles_open. unfold handles. rewrite Eh, lookup_empty. cbn [open set_held hs_blocks]. rewrite Eb, (decide_False (P := id ∈ ∅)) by set_solver. cbn. lia.
Qed.
