(* ===== verification/LinkedList.v ===== *)
(** * Doubly linked lists (src/xxx/list.go)

    The template of the linked lists of the program (string lists, cache entries, callbacks).
    Elements are shared by pointer and move between lists, so they live in a heap; a list is its
    two ends, its length and the elements it keeps for reuse.  [List_rep] relates a list to the
    sequence of its elements. *)
From stdpp Require Import base list gmap.
From Stdlib Require Import ZArith Lia.
From S2P Require Import Prelude.

Record YYYListElement (V : Type) : Type := mkElt { Prev : option positive; Next : option positive; Value : V }.
Arguments mkElt {V}.
Arguments Prev {V}.
Arguments Next {V}.
Arguments Value {V}.
Record YYYList : Type := mkYYYList {
  Back : option positive;
  Front : option positive;
  freeList : option positive;
  Length : Z
}.
(** The heap, and a list with it. *)
Abbreviation elements V := (gmap positive (YYYListElement V)).
Abbreviation state V := (YYYList * gmap positive (YYYListElement V))%type.

Definition List0 : YYYList := mkYYYList None None None 0.

Section linked_list.
Context {V : Type}.
Implicit Types (h : elements V) (l : YYYList).

(** ** Single accesses *)

Definition set_Prev (p : option positive) (e : YYYListElement V) := mkElt p (Next e) (Value e).
Definition set_Next (n : option positive) (e : YYYListElement V) := mkElt (Prev e) n (Value e).
Definition set_Value (v : V) (e : YYYListElement V) := mkElt (Prev e) (Next e) v.
Definition load (p : positive) h : res (YYYListElement V) := deref (h !! p).
Definition store (p : positive) (f : YYYListElement V → YYYListElement V) h : res (elements V) :=
  let! e := load p h in Ok (<[p := f e]> h).
Definition set_Back (b : option positive) (l : YYYList) := mkYYYList b (Front l) (freeList l) (Length l).
Definition set_Front (f : option positive) (l : YYYList) := mkYYYList (Back l) f (freeList l) (Length l).
Definition set_freeList (f : option positive) (l : YYYList) := mkYYYList (Back l) (Front l) f (Length l).
Definition add_Length (n : Z) (l : YYYList) := mkYYYList (Back l) (Front l) (freeList l) (Length l + n).

(** ** The methods *)

Definition getElement (v : V) (s : state V) : res (positive * state V) :=
  let '(l, h) := s in
  match freeList l with
  | None => let e := fresh (dom h : gset positive) in Ok (e, (l, <[e := mkElt None None v]> h))
  | Some e =>
      let! x := load e h in
      let l := set_freeList (Next x) l in
      let! h := store e (set_Value v) h in
      Ok (e, (l, h))
  end.

(** The values the callback is given, in order. *)
Fixpoint Iterate_loop (fuel : nat) (e : option positive) h : res (list V) :=
  match e with
  | None => Ok []
  | Some p =>
      match fuel with
      | O => NoFuel
      | S fuel' =>
          let! x := load p h in
          let! vs := Iterate_loop fuel' (Next x) h in
          Ok (Value x :: vs)
      end
  end.
Definition Iterate (s : state V) : res (list V) := Iterate_loop (size s.2) (Front s.1) s.2.

Definition PushBackElement (e : positive) (s : state V) : res (state V) :=
  let '(l, h) := s in
  let! h := store e (set_Next None) h in
  let! h := store e (set_Prev (Back l)) h in
  let! h := match Back l with Some b => store b (set_Next (Some e)) h | None => Ok h end in
  let l := match Front l with None => set_Front (Some e) l | Some _ => l end in
  Ok (add_Length 1 (set_Back (Some e) l), h).

Definition PushBack (v : V) (s : state V) : res (positive * state V) :=
  let! r := getElement v s in
  let! s := PushBackElement r.1 r.2 in
  Ok (r.1, s).

Definition PushFrontElement (e : positive) (s : state V) : res (state V) :=
  let '(l, h) := s in
  let! h := store e (set_Prev None) h in
  let! h := store e (set_Next (Front l)) h in
  let! h := match Front l with Some f => store f (set_Prev (Some e)) h | None => Ok h end in
  let l := match Back l with None => set_Back (Some e) l | Some _ => l end in
  Ok (add_Length 1 (set_Front (Some e) l), h).

Definition PushFront (v : V) (s : state V) : res (positive * state V) :=
  let! r := getElement v s in
  let! s := PushFrontElement r.1 r.2 in
  Ok (r.1, s).

Definition RemoveElement (e : positive) (s : state V) : res (state V) :=
  let '(l, h) := s in
  let! x := load e h in
  let! lh :=
    match Prev x with
    | Some p => let! h := store p (set_Next (Next x)) h in Ok (l, h)
    | None => Ok (set_Front (Next x) l, h)
    end in
  let '(l, h) := (lh : state V) in
  let! x := load e h in
  let! lh :=
    match Next x with
    | Some n => let! h := store n (set_Prev (Prev x)) h in Ok (l, h)
    | None => Ok (set_Back (Prev x) l, h)
    end in
  let '(l, h) := (lh : state V) in
  Ok (add_Length (-1) l, h).

Definition Remove (e : positive) (s : state V) : res (state V) :=
  let! s := RemoveElement e s in
  let '(l, h) := (s : state V) in
  let! h := store e (set_Prev None) h in
  let! h := store e (set_Next (freeList l)) h in
  Ok (set_freeList (Some e) l, h).
End linked_list.

(** ** What a list holds *)

Section representation.
Context {V : Type}.
Implicit Types (h : elements V) (l : YYYList) (xs ys zs : list positive).

(** Every element points to its neighbours. *)
Definition linked h xs : Prop :=
  ∀ ys x zs, xs = ys ++ x :: zs → ∃ v, h !! x = Some (mkElt (last ys) (head zs) v).

Record List_rep h l xs : Prop := mkRep {
  lr_nodup : NoDup xs;
  lr_linked : linked h xs;
  lr_Front : Front l = head xs;
  lr_Back : Back l = last xs;
  lr_Length : Length l = Z.of_nat (length xs)
}.

(** The elements kept for reuse, linked by [Next] alone. *)
Fixpoint free_rep h (f : option positive) (fs : list positive) : Prop :=
  match fs with
  | [] => f = None
  | e :: fs' => f = Some e ∧ ∃ x, h !! e = Some x ∧ free_rep h (Next x) fs'
  end.

(** The list part of [h'] is like [h] except at [ps], where the links may differ. *)
Definition differs_at (ps : list positive) h h' : Prop :=
  (∀ p, p ∉ ps → h' !! p = h !! p) ∧ ∀ p, Value <$> h' !! p = Value <$> h !! p.

Lemma differs_at_frame ps h h' l xs :
  differs_at ps h h' → (∀ p, p ∈ xs → p ∉ ps) → List_rep h l xs → List_rep h' l xs.
Proof.
  intros [Hd _] Hxs [Hnd Hl Hf Hb Hlen]. split; [done| |done..].
  intros ys x zs E. rewrite Hd; [by apply Hl|]. apply Hxs. rewrite E. set_solver.
Qed.
Lemma differs_at_free ps h h' f fs :
  differs_at ps h h' → (∀ p, p ∈ fs → p ∉ ps) → free_rep h f fs → free_rep h' f fs.
Proof.
  intros [Hd Hv]. revert f. induction fs as [|e fs IH]; intros f Hfs; cbn; [done|].
  intros (-> & x & Hx & Hr). split; [done|]. exists x. split.
  - rewrite Hd; [done|]. apply Hfs. by left.
  - apply IH; [|done]. intros p Hp. apply Hfs. by right.
Qed.
Lemma differs_at_trans ps qs h1 h2 h3 :
  differs_at ps h1 h2 → differs_at qs h2 h3 → differs_at (ps ++ qs) h1 h3.
Proof.
  intros [H1 V1] [H2 V2]. split.
  - intros p Hp. rewrite H2, H1; set_solver.
  - intros p. by rewrite V2, V1.
Qed.
Lemma differs_at_mono ps qs h h' : ps ⊆ qs → differs_at ps h h' → differs_at qs h h'.
Proof. intros Hs [H1 H2]. split; [|done]. intros p Hp. apply H1. set_solver. Qed.
Lemma differs_at_Some ps h h' p : differs_at ps h h' → is_Some (h' !! p) ↔ is_Some (h !! p).
Proof.
  intros [_ Hv]. specialize (Hv p).
  split; intros [x Hx]; rewrite Hx in Hv; [destruct (h !! p)|destruct (h' !! p)]; done || by eexists.
Qed.

Lemma linked_dom h xs p : linked h xs → p ∈ xs → is_Some (h !! p).
Proof. intros Hl (ys & zs & E)%list_elem_of_split. destruct (Hl ys p zs E) as [v ->]. by eexists. Qed.

(** ** The links after an update *)

Definition alter_at (o : option positive) (f : YYYListElement V → YYYListElement V) h : elements V :=
  match o with Some p => alter f p h | None => h end.

Lemma store_alter p f h : is_Some (h !! p) → store p f h = Ok (alter f p h).
Proof.
  intros [x Hx]. unfold store, load. rewrite Hx. cbn. f_equal. apply map_eq. intros q.
  destruct (decide (q = p)) as [->|Hne].
  - by rewrite lookup_insert_eq, lookup_alter_eq, Hx.
  - by rewrite lookup_insert_ne, lookup_alter_ne by done.
Qed.
Lemma alter_at_ne o f h p : o ≠ Some p → alter_at o f h !! p = h !! p.
Proof. destruct o as [q|]; [|done]. intros Hne. cbn. apply lookup_alter_ne. congruence. Qed.
Lemma alter_at_eq p f h : alter_at (Some p) f h !! p = f <$> h !! p.
Proof. apply lookup_alter_eq. Qed.
Lemma alter_at_differs o f h : (∀ x, Value (f x) = Value x) → differs_at (option_list o) h (alter_at o f h).
Proof.
  intros Hf. destruct o as [q|]; [|done]. split.
  - intros p Hp. apply alter_at_ne. intros [= ->]. apply Hp. by left.
  - intros p. destruct (decide (p = q)) as [->|Hne]; [|by rewrite alter_at_ne by congruence].
    rewrite alter_at_eq. destruct (h !! q); cbn; [by rewrite Hf|done].
Qed.

Lemma split_snoc ys x zs xs e :
  xs ++ [e] = ys ++ x :: zs → (zs = [] ∧ x = e ∧ ys = xs) ∨ ∃ zs', zs = zs' ++ [e] ∧ xs = ys ++ x :: zs'.
Proof.
  destruct zs as [|z zs _] using rev_ind.
  - intros [-> [= ->]]%app_inj_tail. by left.
  - rewrite app_comm_cons, app_assoc. intros [-> ->]%app_inj_tail. right. by exists zs.
Qed.
Lemma split_app ys x zs xs1 xs2 :
  xs1 ++ xs2 = ys ++ x :: zs →
  (∃ ws, xs1 = ys ++ x :: ws ∧ zs = ws ++ xs2) ∨ ∃ ws, xs2 = ws ++ x :: zs ∧ ys = xs1 ++ ws.
Proof.
  intros (k & [(-> & E)|(-> & ->)])%app_eq_app; [|by right; exists k].
  destruct k as [|y k]; cbn in E; [right; exists []; by rewrite !app_nil_r|]. injection E as -> ->. left. by exists k.
Qed.
Lemma last_elem xs p : last xs = Some p → p ∈ xs.
Proof. intros (xs' & ->)%last_Some. set_solver. Qed.
Lemma head_elem xs p : head xs = Some p → p ∈ xs.
Proof. intros (xs' & ->)%head_Some. by left. Qed.

(** ** The methods on elements *)

Lemma List0_rep h : List_rep h List0 [].
Proof. split; [constructor| |done..]. intros [] ?? ?; done. Qed.

Lemma PushBackElement_rep h l xs e :
  List_rep h l xs → is_Some (h !! e) → e ∉ xs →
  ∃ l' h', PushBackElement e (l, h) = Ok (l', h') ∧ List_rep h' l' (xs ++ [e]) ∧ freeList l' = freeList l ∧
    differs_at (xs ++ [e]) h h'.
Proof.
  intros [Hnd Hl Hf Hb Hlen] He Hin. unfold PushBackElement.
  set (h1 := alter (set_Prev (Back l)) e (alter (set_Next None) e h)).
  assert (store e (set_Next None) h = Ok (alter (set_Next None) e h)) as -> by by apply store_alter. cbn [res_bind].
  rewrite store_alter by (by rewrite lookup_alter_eq; destruct He as [x ->]; eexists). cbn [res_bind]. fold h1.
  assert (∀ p, p ≠ e → h1 !! p = h !! p) as H1 by (intros p Hp; unfold h1; by rewrite !lookup_alter_ne).
  assert (∃ v, h1 !! e = Some (mkElt (last xs) None v)) as [v Hv].
  { destruct He as [x Hx]. exists (Value x). unfold h1. by rewrite !lookup_alter_eq, Hx, <- Hb. }
  set (h2 := alter_at (last xs) (set_Next (Some e)) h1).
  assert (match Back l with Some b => store b (set_Next (Some e)) h1 | None => Ok h1 end = Ok h2) as ->.
  { unfold h2. rewrite Hb. destruct (last xs) as [b|] eqn:E; [|done]. apply store_alter.
    assert (b ∈ xs) as Hbx by by apply last_elem. rewrite H1 by (by intros ->). by eapply linked_dom. }
  cbn [res_bind]. eexists _, h2. split; [done|]. assert (last xs ≠ Some e) as Hle by (intros E; apply Hin; by apply last_elem).
  split_and!.
  - split.
    + apply NoDup_app. split_and!; [done|set_solver|apply NoDup_singleton].
    + intros ys x zs [(-> & -> & ->)|(zs' & -> & ->)]%split_snoc.
      * exists v. unfold h2. by rewrite alter_at_ne.
      * destruct (Hl ys x zs' eq_refl) as [w Hw]. assert (x ≠ e) as Hxe by (intros ->; apply Hin; set_solver).
        exists w. destruct zs' as [|z zs'].
        -- unfold h2. rewrite last_snoc, alter_at_eq, H1, Hw by done. done.
        -- unfold h2. rewrite alter_at_ne, H1, Hw by (done || (rewrite last_app_cons; cbn; intros E; apply NoDup_app in Hnd as (_ & _ & Hnd); apply NoDup_cons in Hnd as [Hnd _]; apply Hnd; by apply last_elem)). done.
    + cbn. rewrite Hf. destruct xs; cbn; done.
    + cbn. by rewrite last_snoc.
    + rewrite length_app. cbn. destruct (Front l); cbn; lia.
  - by destruct (Front l).
  - split.
    + intros p Hp. unfold h2. rewrite alter_at_ne, H1; [done|set_solver|]. intros E%last_elem. set_solver.
    + intros p. unfold h2. destruct (alter_at_differs (last xs) (set_Next (Some e)) h1) as [_ ->]; [done|].
      destruct (decide (p = e)) as [->|Hp]; [|by rewrite H1]. rewrite Hv. unfold h1 in Hv. rewrite !lookup_alter_eq in Hv.
      rewrite <- Hv. by destruct (h !! e).
Qed.

Lemma PushFrontElement_rep h l xs e :
  List_rep h l xs → is_Some (h !! e) → e ∉ xs →
  ∃ l' h', PushFrontElement e (l, h) = Ok (l', h') ∧ List_rep h' l' (e :: xs) ∧ freeList l' = freeList l ∧
    differs_at (e :: xs) h h'.
Proof.
  intros [Hnd Hl Hf Hb Hlen] He Hin. unfold PushFrontElement.
  set (h1 := alter (set_Next (Front l)) e (alter (set_Prev None) e h)).
  assert (store e (set_Prev None) h = Ok (alter (set_Prev None) e h)) as -> by by apply store_alter. cbn [res_bind].
  rewrite store_alter by (by rewrite lookup_alter_eq; destruct He as [x ->]; eexists). cbn [res_bind]. fold h1.
  assert (∀ p, p ≠ e → h1 !! p = h !! p) as H1 by (intros p Hp; unfold h1; by rewrite !lookup_alter_ne).
  assert (∃ v, h1 !! e = Some (mkElt None (head xs) v)) as [v Hv].
  { destruct He as [x Hx]. exists (Value x). unfold h1. by rewrite !lookup_alter_eq, Hx, <- Hf. }
  set (h2 := alter_at (head xs) (set_Prev (Some e)) h1).
  assert (match Front l with Some b => store b (set_Prev (Some e)) h1 | None => Ok h1 end = Ok h2) as ->.
  { unfold h2. rewrite Hf. destruct (head xs) as [b|] eqn:E; [|done]. apply store_alter.
    assert (b ∈ xs) as Hbx by by apply head_elem. rewrite H1 by (by intros ->). by eapply linked_dom. }
  cbn [res_bind]. eexists _, h2. split; [done|]. assert (head xs ≠ Some e) as Hle by (intros E; apply Hin; by apply head_elem).
  split_and!.
  - split.
    + by apply NoDup_cons.
    + intros [|y ys] x zs [= -> E].
      * exists v. unfold h2. rewrite E in *. by rewrite alter_at_ne.
      * destruct (Hl ys x zs E) as [w Hw]. assert (x ≠ y) as Hxe by (intros ->; apply Hin; set_solver).
        exists w. unfold h2. destruct ys as [|y' ys].
        -- rewrite E. cbn [head app last]. rewrite alter_at_eq, H1, Hw by done. done.
        -- rewrite alter_at_ne, H1, Hw; [done..|]. rewrite E in Hnd |- *. cbn. intros [= ->]. apply NoDup_cons in Hnd as [Hnd _]. set_solver.
    + done.
    + rewrite last_cons, <- Hb. cbn. by destruct (Back l) eqn:E.
    + cbn [length]. destruct (Back l); cbn; lia.
  - by destruct (Back l).
  - split.
    + intros p Hp. unfold h2. rewrite alter_at_ne, H1; [done|set_solver|]. intros E%head_elem. set_solver.
    + intros p. unfold h2. destruct (alter_at_differs (head xs) (set_Prev (Some e)) h1) as [_ ->]; [done|].
      destruct (decide (p = e)) as [->|Hp]; [|by rewrite H1]. rewrite Hv. unfold h1 in Hv. rewrite !lookup_alter_eq in Hv.
      rewrite <- Hv. by destruct (h !! e).
Qed.

Lemma RemoveElement_rep h l ys e zs :
  List_rep h l (ys ++ e :: zs) →
  ∃ l' h', RemoveElement e (l, h) = Ok (l', h') ∧ List_rep h' l' (ys ++ zs) ∧ freeList l' = freeList l ∧
    differs_at (ys ++ zs) h h'.
Proof.
  intros [Hnd Hl Hf Hb Hlen]. destruct (Hl ys e zs eq_refl) as [v Hv].
  assert (e ∉ ys ++ zs ∧ NoDup (ys ++ zs)) as [Hin Hnd'] by (rewrite <- Permutation_middle in Hnd; by apply NoDup_cons).
  assert (∀ p, last ys = Some p → p ∉ zs) as Hlz.
  { intros p Hp%last_elem Hz. apply NoDup_app in Hnd' as (_ & Hd & _). by apply (Hd p). }
  unfold RemoveElement, load. rewrite Hv. cbn [deref res_bind Prev Next].
  set (h1 := alter_at (last ys) (set_Next (head zs)) h). set (h2 := alter_at (head zs) (set_Prev (last ys)) h1).
  set (l1 := match last ys with None => set_Front (head zs) l | Some _ => l end).
  assert (match last ys with
          | Some p => let! h := store p (set_Next (head zs)) h in Ok (l, h)
          | None => Ok (set_Front (head zs) l, h) end = Ok (l1, h1)) as ->.
  { unfold l1, h1. destruct (last ys) as [p|] eqn:E; [|done]. rewrite store_alter; [done|]. eapply linked_dom; [done|].
    apply last_elem in E. set_solver. }
  cbn [res_bind].
  assert (h1 !! e = Some (mkElt (last ys) (head zs) v)) as Hv1 by (unfold h1; rewrite alter_at_ne; [done|]; intros E%last_elem; set_solver).
  rewrite Hv1. cbn [deref res_bind Prev Next].
  set (l2 := match head zs with None => set_Back (last ys) l1 | Some _ => l1 end).
  assert (differs_at (option_list (last ys)) h h1) as D1 by by apply alter_at_differs.
  assert (match head zs with
          | Some n => let! h := store n (set_Prev (last ys)) h1 in Ok (l1, h)
          | None => Ok (set_Back (last ys) l1, h1) end = Ok (l2, h2)) as ->.
  { unfold l2, h2. destruct (head zs) as [p|] eqn:E; [|done]. rewrite store_alter; [done|].
    apply (differs_at_Some _ _ _ _ D1). eapply linked_dom; [done|]. apply head_elem in E. set_solver. }
  cbn [res_bind]. eexists _, h2. split; [done|]. split_and!.
  - split; [done| | | |].
    + intros ys' x zs' [(ws & -> & ->)|(ws & -> & ->)]%split_app.
      * destruct (Hl ys' x (ws ++ e :: zs)) as [w Hw]; [by rewrite <- app_assoc|]. exists w. unfold h2.
        rewrite alter_at_ne. 2: { intros E%head_elem. apply NoDup_app in Hnd' as (_ & Hd & _). apply (Hd x); set_solver. }
        unfold h1. destruct ws as [|z ws].
        -- rewrite last_snoc, alter_at_eq, Hw. done.
        -- rewrite alter_at_ne, Hw; [done|]. rewrite last_app_cons, last_cons_cons. intros E%last_elem.
           rewrite <- app_assoc in Hnd. apply NoDup_app in Hnd as (_ & _ & [Hx _]%NoDup_cons). apply Hx. set_solver.
      * destruct (Hl (ys ++ e :: ws) x zs') as [w Hw]; [by rewrite <- app_assoc|]. exists w.
        assert (h1 !! x = h !! x) as H1 by (unfold h1; apply alter_at_ne; intros E%Hlz; set_solver).
        unfold h2. destruct ws as [|z ws].
        -- cbn [head app]. rewrite alter_at_eq, H1, Hw. cbn. by rewrite app_nil_r.
        -- cbn [head app]. rewrite alter_at_ne, H1, Hw.
           ++ do 2 f_equal. rewrite !last_app_cons. done.
           ++ intros [= ->]. apply NoDup_app in Hnd' as (_ & _ & [Hx _]%NoDup_cons). set_solver.
    + unfold l2, l1. cbn. destruct (last ys) as [p|] eqn:E.
      * apply last_Some in E as [ys' ->]. destruct (head zs); cbn; rewrite Hf; by destruct ys'.
      * apply last_None in E as ->. by destruct zs.
    + unfold l2, l1. cbn. destruct zs as [|z zs]; cbn.
      * rewrite app_nil_r. by destruct (last ys).
      * assert (Back l = last (ys ++ z :: zs)) as <- by (rewrite Hb, !last_app_cons; done). by destruct (last ys).
    + rewrite length_app in Hlen |- *. cbn [length] in Hlen. unfold l2, l1.
      destruct (last ys), (head zs); cbn; lia.
  - unfold l2, l1. by destruct (last ys), (head zs).
  - apply (differs_at_mono (option_list (last ys) ++ option_list (head zs))).
    + destruct (last ys) eqn:E1, (head zs) eqn:E2; try apply last_elem in E1; try apply head_elem in E2; cbn; set_solver.
    + eapply differs_at_trans; [exact D1|]. by apply alter_at_differs.
Qed.

(** ** The methods on values *)

(** A list with its spare elements, and the values it holds. *)
Record List_full (s : state V) xs (fs : list positive) (vs : list V) : Prop := mkFull {
  lf_rep : List_rep s.2 s.1 xs;
  lf_free : free_rep s.2 (freeList s.1) fs;
  lf_nodup : NoDup (xs ++ fs);
  lf_values : Forall2 (λ p v, Value <$> s.2 !! p = Some v) xs vs
}.

Lemma values_ext h h' xs vs :
  (∀ p, p ∈ xs → Value <$> h' !! p = Value <$> h !! p) →
  Forall2 (λ p v, Value <$> h !! p = Some v) xs vs → Forall2 (λ p v, Value <$> h' !! p = Some v) xs vs.
Proof.
  intros He Hv. induction Hv as [|x v xs vs Hx Hv IH]; constructor.
  - rewrite He; [done|by left].
  - apply IH. intros p Hp. apply He. by right.
Qed.

Lemma free_rep_dom h f fs p : free_rep h f fs → p ∈ fs → is_Some (h !! p).
Proof.
  revert f. induction fs as [|e fs IH]; intros f; cbn; [set_solver|]. intros (-> & x & Hx & Hr) [->|Hp]%elem_of_cons; [by eexists|by eapply IH].
Qed.
Lemma rep_ext h h' l l' xs :
  (∀ p, p ∈ xs → h' !! p = h !! p) → Front l' = Front l → Back l' = Back l → Length l' = Length l →
  List_rep h l xs → List_rep h' l' xs.
Proof.
  intros Hh E1 E2 E3 [Hnd Hl Hf Hb Hlen]. split; [done| |congruence..].
  intros ys x zs E. rewrite Hh; [by apply Hl|]. rewrite E. set_solver.
Qed.
Lemma free_rep_ext h h' f fs : (∀ p, p ∈ fs → h' !! p = h !! p) → free_rep h f fs → free_rep h' f fs.
Proof.
  revert f. induction fs as [|e fs IH]; intros f Hh; cbn; [done|]. intros (-> & x & Hx & Hr). split; [done|].
  exists x. rewrite Hh by by left. split; [done|]. apply IH; [|done]. intros p Hp. apply Hh. by right.
Qed.

(** [getElement] takes a spare element, or makes one. *)
Lemma getElement_full v s xs fs vs :
  List_full s xs fs vs →
  ∃ e s' fs', getElement v s = Ok (e, s') ∧ List_full s' xs fs' vs ∧ Value <$> s'.2 !! e = Some v ∧ e ∉ xs ++ fs'.
Proof.
  destruct s as [l h]. intros [Hr Hf Hnd Hv]. cbn in *. unfold getElement. destruct fs as [|e fs]; cbn in Hf.
  - rewrite Hf. set (e := fresh (dom h : gset positive)).
    assert (h !! e = None) as He by (apply not_elem_of_dom; apply is_fresh).
    assert (e ∉ xs) as Hex by (intros Hin; destruct (linked_dom h xs e) as [x Hx]; [by apply (lr_linked _ _ _ Hr)|done|congruence]).
    assert (∀ p, p ∈ xs → <[e := mkElt None None v]> h !! p = h !! p) as Hext by (intros p Hp; apply lookup_insert_ne; set_solver).
    eexists e, _, []. split; [done|]. split_and!.
    + split; cbn; [by eapply rep_ext; [exact Hext|..|exact Hr]|done|done|]. eapply values_ext; [|done]. intros p Hp. by rewrite Hext.
    + cbn. by rewrite lookup_insert_eq.
    + by rewrite app_nil_r.
  - destruct Hf as (-> & x & Hx & Hf). unfold load. rewrite Hx. cbn [deref res_bind]. rewrite store_alter by by eexists. cbn [res_bind].
    rewrite <- Permutation_middle in Hnd. apply NoDup_cons in Hnd as [Hin Hnd].
    assert (∀ p, p ∈ xs ++ fs → alter (set_Value v) e h !! p = h !! p) as Hext by (intros p Hp; apply lookup_alter_ne; by intros ->).
    eexists e, _, fs. split; [done|]. split_and!.
    + split; cbn; [|by eapply free_rep_ext; [|done]; intros p Hp; apply Hext; set_solver|done|].
      * eapply rep_ext; [..|exact Hr]; [|done..]. intros p Hp. apply Hext. set_solver.
      * eapply values_ext; [|done]. intros p Hp. rewrite Hext; [done|set_solver].
    + cbn. by rewrite lookup_alter_eq, Hx.
    + done.
Qed.

Lemma PushBack_full v s xs fs vs :
  List_full s xs fs vs → ∃ e s' fs', PushBack v s = Ok (e, s') ∧ List_full s' (xs ++ [e]) fs' (vs ++ [v]).
Proof.
  intros (e & [l h] & fs' & Eg & [Hr Hf Hnd Hv] & He & Hin)%(getElement_full v). cbn in *.
  unfold PushBack. rewrite Eg. cbn [res_bind fst snd].
  destruct (PushBackElement_rep h l xs e) as (l' & h' & -> & Hr' & Efl & Hd); [done|by destruct (h !! e); [eexists|]|set_solver|].
  cbn [res_bind]. eexists e, (l', h'), fs'. split; [done|]. split; cbn.
  - done.
  - rewrite Efl. eapply differs_at_free; [exact Hd| |done]. intros p Hp. apply NoDup_app in Hnd as (_ & Hdis & _). specialize (Hdis p). set_solver.
  - rewrite <- app_assoc. cbn. rewrite <- Permutation_middle. by apply NoDup_cons.
  - destruct Hd as [_ Hval]. apply Forall2_app; [by eapply values_ext; [|done]; intros|]. constructor; [by rewrite Hval|done].
Qed.

Lemma PushFront_full v s xs fs vs :
  List_full s xs fs vs → ∃ e s' fs', PushFront v s = Ok (e, s') ∧ List_full s' (e :: xs) fs' (v :: vs).
Proof.
  intros (e & [l h] & fs' & Eg & [Hr Hf Hnd Hv] & He & Hin)%(getElement_full v). cbn in *.
  unfold PushFront. rewrite Eg. cbn [res_bind fst snd].
  destruct (PushFrontElement_rep h l xs e) as (l' & h' & -> & Hr' & Efl & Hd); [done|by destruct (h !! e); [eexists|]|set_solver|].
  cbn [res_bind]. eexists e, (l', h'), fs'. split; [done|]. split; cbn.
  - done.
  - rewrite Efl. eapply differs_at_free; [exact Hd| |done]. intros p Hp. apply NoDup_app in Hnd as (_ & Hdis & _). specialize (Hdis p). set_solver.
  - by apply NoDup_cons.
  - destruct Hd as [_ Hval]. constructor; [by rewrite Hval|]. by eapply values_ext; [|done]; intros.
Qed.

Lemma Remove_full s ys e zs fs vs :
  List_full s (ys ++ e :: zs) fs vs →
  ∃ s', Remove e s = Ok s' ∧ List_full s' (ys ++ zs) (e :: fs) (delete (length ys) vs).
Proof.
  destruct s as [l h]. intros [Hr Hf Hnd Hv]. cbn in *. unfold Remove.
  destruct (RemoveElement_rep h l ys e zs) as (l' & h' & -> & Hr' & Efl & Hd); [done|]. cbn [res_bind].
  assert (is_Some (h' !! e)) as [x Hx].
  { apply (differs_at_Some _ _ _ _ Hd). eapply linked_dom; [by apply (lr_linked _ _ _ Hr)|set_solver]. }
  rewrite <- app_assoc, <- app_comm_cons, <- Permutation_middle in Hnd. apply NoDup_cons in Hnd as [Hin Hnd].
  rewrite store_alter by by eexists. cbn [res_bind]. rewrite store_alter by (rewrite lookup_alter_eq, Hx; by eexists). cbn [res_bind].
  set (h2 := alter _ e (alter _ e h')).
  assert (∀ p, p ≠ e → h2 !! p = h' !! p) as H2 by (intros p Hp; unfold h2; by rewrite !lookup_alter_ne).
  eexists. split; [done|]. rewrite app_assoc in Hnd, Hin. split; cbn.
  - eapply rep_ext; [..|exact Hr']; [|done..]. intros p Hp. apply H2. set_solver.
  - split; [done|]. unfold h2. rewrite !lookup_alter_eq, Hx. eexists. split; [done|]. cbn. fold h2. rewrite Efl.
    eapply free_rep_ext; [intros p Hp; apply H2; set_solver|]. eapply differs_at_free; [exact Hd| |done].
    intros p Hp. apply NoDup_app in Hnd as (_ & Hdis & _). specialize (Hdis p). set_solver.
  - rewrite <- Permutation_middle. by apply NoDup_cons.
  - apply Forall2_app_inv_l in Hv as (vs1 & vs2 & H1 & Hv2 & ->). inversion Hv2 as [|? v ? vs2' Hev Hv2']; subst.
    rewrite (Forall2_length _ _ _ H1), delete_middle. destruct Hd as [_ Hval].
    eapply (values_ext h); [|by apply Forall2_app]. intros p Hp. rewrite H2; [by apply Hval|set_solver].
Qed.

Lemma Iterate_loop_values h pre xs vs fuel :
  linked h (pre ++ xs) → length xs ≤ fuel → Forall2 (λ p v, Value <$> h !! p = Some v) xs vs →
  Iterate_loop fuel (head xs) h = Ok vs.
Proof.
  intros Hl Hfuel Hv. revert pre fuel Hl Hfuel. induction Hv as [|x v xs vs Hx Hv IH]; intros pre fuel Hl Hfuel; cbn in *; [by destruct fuel|].
  destruct fuel as [|fuel]; [lia|]. cbn. destruct (Hl pre x xs eq_refl) as [w Hw]. unfold load. rewrite Hw in *. cbn.
  rewrite (IH (pre ++ [x])); [|by rewrite <- app_assoc|lia]. cbn. by injection Hx as ->.
Qed.

Lemma Iterate_full s xs fs vs : List_full s xs fs vs → Iterate s = Ok vs.
Proof.
  destruct s as [l h]. intros [[Hnd Hl Hf Hb Hlen] _ _ Hv]. cbn in *. unfold Iterate. cbn. rewrite Hf.
  apply (Iterate_loop_values h []); [done| |done].
  assert (list_to_set (C := gset positive) xs ⊆ dom h) as Hs%subseteq_size.
  { intros p Hp%elem_of_list_to_set. apply elem_of_dom. by eapply linked_dom. }
  rewrite size_list_to_set, size_dom in Hs by done. exact Hs.
Qed.
End representation.

(** ** Histories *)

(** The client keeps the pointers it was given; [L_Remove i] removes the one at position [i]. *)
Inductive list_op (V : Type) : Type := L_PushBack (v : V) | L_PushFront (v : V) | L_Remove (i : nat).
Arguments L_PushBack {V}.
Arguments L_PushFront {V}.
Arguments L_Remove {V}.

Definition list_step {V} (o : list_op V) (st : list positive * state V) : res (list positive * state V) :=
  let '(xs, s) := st in
  match o with
  | L_PushBack v => let! r := PushBack v s in Ok (xs ++ [r.1], r.2)
  | L_PushFront v => let! r := PushFront v s in Ok (r.1 :: xs, r.2)
  | L_Remove i => let! e := deref (xs !! i) in let! s := Remove e s in Ok (delete i xs, s)
  end.
Fixpoint run_list {V} (ops : list (list_op V)) (st : list positive * state V) : res (list positive * state V) :=
  match ops with [] => Ok st | o :: ops' => let! st := list_step o st in run_list ops' st end.

(** What the list should hold; [None] when a position does not exist. *)
Fixpoint spec_list {V} (ops : list (list_op V)) (vs : list V) : option (list V) :=
  match ops with
  | [] => Some vs
  | L_PushBack v :: ops' => spec_list ops' (vs ++ [v])
  | L_PushFront v :: ops' => spec_list ops' (v :: vs)
  | L_Remove i :: ops' => if decide (i < length vs) then spec_list ops' (delete i vs) else None
  end.

Lemma run_list_full {V} (ops : list (list_op V)) xs s fs vs vs' :
  List_full s xs fs vs → spec_list ops vs = Some vs' →
  ∃ xs' s' fs', run_list ops (xs, s) = Ok (xs', s') ∧ List_full s' xs' fs' vs'.
Proof.
  revert xs s fs vs. induction ops as [|[v|v|i] ops IH]; intros xs s fs vs Hs; cbn [spec_list run_list list_step].
  - intros [= <-]. by exists xs, s, fs.
  - intros E. destruct (PushBack_full v _ _ _ _ Hs) as (e & s' & fs' & -> & Hs'). cbn. by eapply IH.
  - intros E. destruct (PushFront_full v _ _ _ _ Hs) as (e & s' & fs' & -> & Hs'). cbn. by eapply IH.
  - destruct (decide _) as [Hi|]; [|done]. intros E. pose proof (Forall2_length _ _ _ (lf_values _ _ _ _ Hs)) as Hlen.
    destruct (lookup_lt_is_Some_2 xs i) as [e He]; [lia|]. rewrite He. cbn [deref res_bind].
    pose proof He as (ys & zs & -> & ->)%list_elem_of_split_length.
    destruct (Remove_full _ _ _ _ _ _ Hs) as (s' & -> & Hs'). cbn [res_bind]. rewrite delete_middle. by eapply IH.
Qed.

(** C39: the linked list refines a sequence.  After any history of pushes at both ends and removals
    at existing positions, no call has panicked, and iterating gives exactly the values of the
    sequence after the same operations, in order; [Length] is its length. *)
Theorem list_refines {V : Type} (ops : list (list_op V)) (vs : list V) :
  spec_list ops [] = Some vs →
  ∃ xs s, run_list ops ([], (List0, ∅)) = Ok (xs, s) ∧ Iterate s = Ok vs ∧ Length s.1 = Z.of_nat (length vs).
Proof.
  intros E. destruct (run_list_full ops [] (List0, ∅) [] [] vs) as (xs & s & fs & -> & Hs); [|done|].
  - split; [apply List0_rep|done|constructor|constructor].
  - exists xs, s. split; [done|]. split; [by eapply Iterate_full|].
    rewrite (lr_Length _ _ _ (lf_rep _ _ _ _ Hs)), (Forall2_length _ _ _ (lf_values _ _ _ _ Hs)). done.
Qed.

Module ListWitness.
Definition ops : list (list_op Z) :=
  [L_PushBack 1%Z; L_PushBack 2%Z; L_PushFront 0%Z; L_Remove 1; L_PushBack 3%Z; L_Remove 0; L_PushFront 7%Z].

Lemma list_refines_witness :
  spec_list ops [] = Some [7; 2; 3]%Z ∧
  ∃ xs s, run_list ops ([], (List0, ∅)) = Ok (xs, s) ∧ Iterate s = Ok [7; 2; 3]%Z ∧ Length s.1 = 3%Z.
Proof. split; [vm_compute; reflexivity|]. apply (list_refines ops [7; 2; 3]%Z). vm_compute. reflexivity. Defined.
End ListWitness.
