(* ===== verification/Cart.v ===== *)
(** * The cache of decoded nodes (src/xxx/cart.go)

    CART, the clock with adaptive replacement and temporal filtering: the entries with a value are
    in [t1] and [t2], of the ones that lost it the most recent are remembered in [b1] and [b2].
    The element of an entry is part of it, so one address names both. *)
From stdpp Require Import base list gmap strings.
From Stdlib Require Import ZArith Lia.
From S2P Require Import Prelude Util LinkedList.

Inductive series : Type := T1 | T2 | B1 | B2.
#[export] Instance series_eq_dec : EqDecision series.
Proof. solve_decision. Defined.

Record XXXCartEntry (V : Type) : Type := mkCE {
  ce_key : string;
  refbit : bool;
  filterlong : bool;
  frequentbit : bool;
  ce_value : option V          (* nil is None *)
}.
Arguments mkCE {V}.
Arguments ce_key {V}.
Arguments refbit {V}.
Arguments filterlong {V}.
Arguments frequentbit {V}.
Arguments ce_value {V}.

Record XXXCart (V : Type) : Type := mkCart {
  c_cache : gmap string positive;
  c_t1 : YYYList;
  c_t2 : YYYList;
  c_b1 : YYYList;
  c_b2 : YYYList;
  c_c : Z;
  c_p : Z;
  c_q : Z;
  c_ns : Z;
  c_nl : Z;
  c_elts : gmap positive (YYYListElement positive);
  c_entries : gmap positive (XXXCartEntry V)
}.
Arguments mkCart {V}.
Arguments c_cache {V}.
Arguments c_t1 {V}.
Arguments c_t2 {V}.
Arguments c_b1 {V}.
Arguments c_b2 {V}.
Arguments c_c {V}.
Arguments c_p {V}.
Arguments c_q {V}.
Arguments c_ns {V}.
Arguments c_nl {V}.
Arguments c_elts {V}.
Arguments c_entries {V}.

Section cart.
Context {V : Type}.
Implicit Types (s : XXXCart V) (x : XXXCartEntry V).

(** ** Single accesses *)

Definition list_of (w : series) s : YYYList :=
  match w with T1 => c_t1 s | T2 => c_t2 s | B1 => c_b1 s | B2 => c_b2 s end.
Definition len (w : series) s : Z := Length (list_of w s).
Definition set_list (w : series) (l : YYYList) (h : gmap positive (YYYListElement positive)) s : XXXCart V :=
  let pick w' := if decide (w = w') then l else list_of w' s in
  mkCart (c_cache s) (pick T1) (pick T2) (pick B1) (pick B2) (c_c s) (c_p s) (c_q s) (c_ns s) (c_nl s) h (c_entries s).
Definition set_entries (es : gmap positive (XXXCartEntry V)) s : XXXCart V :=
  mkCart (c_cache s) (c_t1 s) (c_t2 s) (c_b1 s) (c_b2 s) (c_c s) (c_p s) (c_q s) (c_ns s) (c_nl s) (c_elts s) es.
Definition set_cache (m : gmap string positive) s : XXXCart V :=
  mkCart m (c_t1 s) (c_t2 s) (c_b1 s) (c_b2 s) (c_c s) (c_p s) (c_q s) (c_ns s) (c_nl s) (c_elts s) (c_entries s).
Definition set_elts (h : gmap positive (YYYListElement positive)) s : XXXCart V :=
  mkCart (c_cache s) (c_t1 s) (c_t2 s) (c_b1 s) (c_b2 s) (c_c s) (c_p s) (c_q s) (c_ns s) (c_nl s) h (c_entries s).
Definition set_nums (p q ns nl : Z) s : XXXCart V :=
  mkCart (c_cache s) (c_t1 s) (c_t2 s) (c_b1 s) (c_b2 s) (c_c s) p q ns nl (c_elts s) (c_entries s).
Definition set_p (p : Z) s := set_nums p (c_q s) (c_ns s) (c_nl s) s.
Definition set_q (q : Z) s := set_nums (c_p s) q (c_ns s) (c_nl s) s.
Definition add_ns (n : Z) s := set_nums (c_p s) (c_q s) (c_ns s + n) (c_nl s) s.
Definition add_nl (n : Z) s := set_nums (c_p s) (c_q s) (c_ns s) (c_nl s + n) s.

Definition set_refbit (b : bool) x := mkCE (ce_key x) b (filterlong x) (frequentbit x) (ce_value x).
Definition set_filterlong (b : bool) x := mkCE (ce_key x) (refbit x) b (frequentbit x) (ce_value x).
Definition set_frequentbit (b : bool) x := mkCE (ce_key x) (refbit x) (filterlong x) b (ce_value x).
Definition set_value (v : option V) x := mkCE (ce_key x) (refbit x) (filterlong x) (frequentbit x) v.

Definition entry (e : positive) s : res (XXXCartEntry V) := deref (c_entries s !! e).
Definition upd_entry (e : positive) (f : XXXCartEntry V → XXXCartEntry V) s : res (XXXCart V) :=
  let! x := entry e s in Ok (set_entries (<[e := f x]> (c_entries s)) s).
Definition list_Remove (w : series) (e : positive) s : res (XXXCart V) :=
  let! r := RemoveElement e (list_of w s, c_elts s) in Ok (set_list w r.1 r.2 s).
Definition list_PushBack (w : series) (e : positive) s : res (XXXCart V) :=
  let! r := PushBackElement e (list_of w s, c_elts s) in Ok (set_list w r.1 r.2 s).
(** [Front.Value] *)
Definition front (w : series) s : res positive :=
  let! f := deref (Front (list_of w s)) in
  let! el := load f (c_elts s) in
  Ok (Value el).
(** The division of the language. *)
Definition div (a b : Z) : res Z := if (b =? 0)%Z then Panic "integer divide by zero" else Ok (Z.quot a b).

(** ** The methods *)

Definition Cart_Init (maximumSize : Z) : XXXCart V :=
  mkCart ∅ List0 List0 List0 List0 maximumSize 0 0 0 0 ∅ ∅.

Definition Cart_Get (key : string) s : res (option V * XXXCart V) :=
  match c_cache s !! key with
  | None => Ok (None, s)
  | Some e =>
      let! x := entry e s in
      match ce_value x with
      | None => Ok (None, s)
      | Some v => let! s := upd_entry e (set_refbit true) s in Ok (Some v, s)
      end
  end.

(** The test and update of [q] that two methods share. *)
Definition grow_q s : XXXCart V :=
  if (c_c s <=? len T2 s + len B2 s + len T1 s - c_ns s)%Z
  then set_q (IMin (c_q s + 1) [(2 * c_c s - len T1 s)%Z]) s else s.

Fixpoint replace_t2 (fuel : nat) s : res (XXXCart V) :=
  match Front (c_t2 s) with
  | None => Ok s
  | Some f =>
      let! e := front T2 s in
      let! x := entry e s in
      if refbit x then
        match fuel with
        | O => NoFuel
        | S fuel' =>
            let! s := list_Remove T2 f s in
            let! s := upd_entry e (λ x, set_frequentbit false (set_refbit false x)) s in
            let! s := list_PushBack T1 e s in
            replace_t2 fuel' (grow_q s)
        end
      else Ok s
  end.

Fixpoint replace_t1 (fuel : nat) s : res (XXXCart V) :=
  match Front (c_t1 s) with
  | None => Ok s
  | Some _ =>
      let! e := front T1 s in
      let! x := entry e s in
      if filterlong x || refbit x then
        match fuel with
        | O => NoFuel
        | S fuel' =>
            if refbit x then
              let! s := list_Remove T1 e s in
              let! s := list_PushBack T1 e s in
              let! s := upd_entry e (set_refbit false) s in
              if (IMin (c_p s + 1) [len B1 s] <=? len T1 s)%Z && negb (filterlong x) then
                let! s := upd_entry e (set_filterlong true) s in
                replace_t1 fuel' (add_nl 1 (add_ns (-1) s))
              else replace_t1 fuel' s
            else
              let! s := list_Remove T1 e s in
              let! s := list_PushBack T2 e s in
              let s := set_q (IMax (c_q s - 1) [(c_c s - len T1 s)%Z]) s in
              let! s := upd_entry e (set_frequentbit true) s in
              replace_t1 fuel' s
        end
      else Ok s
  end.

(** The entry at the front of [w] loses its value and goes to [w']. *)
Definition evict (w w' : series) s : res (XXXCart V) :=
  let! e := front w s in
  let! s := upd_entry e (set_value None) s in
  let! s := list_Remove w e s in
  list_PushBack w' e s.

(** An entry of [t2] moves once; one of [t1] may be seen twice, and then moves. *)
Definition replace_fuel s : nat := S (3 * Z.to_nat (len T1 s + len T2 s)).
Definition replace s : res (XXXCart V) :=
  let! s := replace_t2 (replace_fuel s) s in
  let! s := replace_t1 (replace_fuel s) s in
  if (IMax 1 [c_p s] <=? len T1 s)%Z then
    let! s := evict T1 B1 s in Ok (add_ns (-1) s)
  else
    let! s := evict T2 B2 s in Ok (add_nl (-1) s).

(** The oldest remembered key of [w] is forgotten. *)
Definition bump (w : series) s : res (XXXCart V) :=
  let! e := front w s in
  let! x := entry e s in
  let s := set_cache (delete (ce_key x) (c_cache s)) s in
  let! f := deref (Front (list_of w s)) in
  list_Remove w f s.

(** What [Set] does to make room; [found] says that the key is remembered. *)
Definition make_room (found : bool) s : res (XXXCart V) :=
  if (len T1 s + len T2 s =? c_c s)%Z then
    let! s := replace s in
    if negb found && (c_c s <? len B1 s + len B2 s)%Z then
      if (c_q s <? len B1 s)%Z || (len B2 s =? 0)%Z then bump B1 s else bump B2 s
    else Ok s
  else Ok s.

Definition add_fresh (key : string) (v : V) s : res (XXXCart V) :=
  let e := fresh (dom (c_elts s) : gset positive) in
  let s := set_entries (<[e := mkCE key false false false (Some v)]> (c_entries s)) s in
  let s := set_cache (<[key := e]> (c_cache s)) s in
  let s := set_elts (<[e := mkElt None None e]> (c_elts s)) s in
  let! s := list_PushBack T1 e s in
  Ok (add_ns 1 s).

(** A remembered entry comes back. *)
Definition revive (e : positive) (v : V) s : res (XXXCart V) :=
  let! x := entry e s in
  let! s :=
    if negb (frequentbit x) then
      let! d := div (c_ns s) (len B1 s) in
      let s := set_p (IMin (c_p s + IMax 1 [d]) [c_c s]) s in
      let! s := upd_entry e (set_filterlong true) s in
      list_Remove B1 e s
    else
      let! s := upd_entry e (set_frequentbit false) s in
      let! d := div (c_nl s) (len B2 s) in
      let s := set_p (IMax (c_p s - IMax 1 [d]) [0%Z]) s in
      let! s := list_Remove B2 e s in
      Ok (grow_q s) in
  let! s := list_PushBack T1 e s in
  let! s := upd_entry e (λ x, set_refbit false (set_value (Some v) x)) s in
  Ok (add_nl 1 s).

(** [Set] with nil. *)
Definition Set_nil (key : string) s : res (XXXCart V) :=
  match c_cache s !! key with
  | None => Ok s
  | Some e =>
      let! x := entry e s in
      match ce_value x with
      | None => Ok s
      | Some _ =>
          let! s := list_Remove (if frequentbit x then T1 else T2) e s in
          let s := if filterlong x then add_nl (-1) s else add_ns (-1) s in
          upd_entry e (set_value None) s
      end
  end.

Definition Cart_Set (key : string) (value : option V) s : res (XXXCart V) :=
  if (c_c s =? 0)%Z then Ok s
  else
    match value with
    | None => Set_nil key s
    | Some v =>
        match c_cache s !! key with
        | None => let! s := make_room false s in add_fresh key v s
        | Some e =>
            let! x := entry e s in
            if ce_value x then upd_entry e (λ x, set_value (Some v) (set_refbit true x)) s
            else let! s := make_room true s in revive e v s
        end
    end.

Definition Cart_GetOrCreate (key : string) (factory : string → option V) s : res (option V * bool * XXXCart V) :=
  let! r := Cart_Get key s in
  let '(value, s) := (r : option V * XXXCart V) in
  match value with
  | Some v => Ok (Some v, false, s)
  | None =>
      let v := factory key in
      let! s := Cart_Set key v s in
      Ok (v, true, s)
  end.
End cart.
