(* ===== verification/CartFacts.v ===== *)
(** * The invariant of the cache

    [CartInv] relates the heap to four disjoint sequences of entries.  Moving an entry between two
    of them is the common step of all methods. *)
From stdpp Require Import base list gmap strings.
From Stdlib Require Import ZArith Lia.
From S2P Require Import Prelude Util LinkedList Cart.

Definition has_value (w : series) : bool := match w with T1 | T2 => true | _ => false end.
Definition is_frequent (w : series) : bool := match w with T2 | B2 => true | _ => false end.

(** The sequences of the four lists. *)
Abbreviation seqs := (series → list positive).
Definition put (w : series) (xs : list positive) (X : seqs) : seqs := λ w', if decide (w = w') then xs else X w'.
Lemma put_eq w xs X : put w xs X w = xs.
Proof. unfold put. by rewrite decide_True. Qed.
Lemma put_ne w w' xs X : w ≠ w' → put w xs X w' = X w'.
Proof. intros. unfold put. by rewrite decide_False. Qed.

Section facts.
Context {V : Type}.
Implicit Types (s : XXXCart V) (x : XXXCartEntry V) (X : seqs).

(** ** The lists *)

Record lists_ok s X : Prop := mkListsOk {
  lo_rep : ∀ w, List_rep (c_elts s) (list_of w s) (X w);
  lo_disj : ∀ w w' p, p ∈ X w → p ∈ X w' → w = w';
  lo_value : ∀ w p, p ∈ X w → Value <$> c_elts s !! p = Some p
}.

(** [s'] is [s] but for the lists. *)
Definition same_data s s' : Prop :=
  c_cache s' = c_cache s ∧ c_entries s' = c_entries s ∧ c_c s' = c_c s ∧ c_p s' = c_p s ∧ c_q s' = c_q s ∧
  c_ns s' = c_ns s ∧ c_nl s' = c_nl s.

Lemma list_of_set_list w w' l h s : list_of w' (set_list w l h s) = if decide (w = w') then l else list_of w' s.
Proof. by destruct w'. Qed.

Lemma lists_len s X w : lists_ok s X → len w s = Z.of_nat (length (X w)).
Proof. intros Hl. apply (lr_Length _ _ _ (lo_rep _ _ Hl w)). Qed.

Lemma lists_update s X w l' h' xs ps :
  lists_ok s X → List_rep h' l' xs → differs_at ps (c_elts s) h' →
  (∀ p, p ∈ ps → p ∈ X w ∨ ∀ w', p ∉ X w') → (∀ p, p ∈ xs → p ∈ X w ∨ ∀ w', p ∉ X w') →
  (∀ p, p ∈ xs → Value <$> c_elts s !! p = Some p) →
  lists_ok (set_list w l' h' s) (put w xs X).
Proof.
  intros [Hr Hd Hv] Hr' [Hout Hval] Hps Hxs Hvx.
  assert (∀ w' p, w ≠ w' → p ∈ X w' → p ∉ ps) as Hfr.
  { intros w' p Hne Hp Hin. destruct (Hps p Hin) as [Hw|Hn]; [|by apply (Hn w')]. by apply Hne, (Hd w w' p). }
  split.
  - intros w'. rewrite list_of_set_list. destruct (decide (w = w')) as [<-|Hne]; [by rewrite put_eq|].
    rewrite put_ne by done. eapply differs_at_frame; [split; [exact Hout|exact Hval]| |apply Hr]. intros p Hp. by apply (Hfr w').
  - intros w1 w2 p. unfold put. do 2 destruct (decide _) as [<-|?]; [done|..]; intros H1 H2.
    + destruct (Hxs p H1) as [Hw|Hn]; [by apply (Hd _ _ p)|by edestruct Hn].
    + destruct (Hxs p H2) as [Hw|Hn]; [by apply (Hd _ _ p)|by edestruct Hn].
    + by apply (Hd _ _ p).
  - intros w' p. unfold put. cbn. rewrite Hval. destruct (decide _); [apply Hvx|apply Hv].
Qed.

Lemma lists_ok_ext s s' X :
  (∀ w, list_of w s' = list_of w s) → c_elts s' = c_elts s → lists_ok s X → lists_ok s' X.
Proof. intros Hl He [Hr Hd Hv]. split; [|done|]; intros; rewrite He; rewrite ?Hl; eauto. Qed.

(** The sequences after [e] has left [w] and joined the end of [w']. *)
Definition moved (w w' : series) (ys : list positive) (e : positive) (zs : list positive) X : seqs :=
  put w' (put w (ys ++ zs) X w' ++ [e]) (put w (ys ++ zs) X).

Lemma list_Remove_ok s X w ys e zs :
  lists_ok s X → X w = ys ++ e :: zs →
  ∃ s', list_Remove w e s = Ok s' ∧ lists_ok s' (put w (ys ++ zs) X) ∧ same_data s s' ∧
    Value <$> c_elts s' !! e = Some e ∧ ∀ w', e ∉ put w (ys ++ zs) X w'.
Proof.
  intros Hl Ew. pose proof (lo_rep _ _ Hl w) as Hr. rewrite Ew in Hr.
  destruct (RemoveElement_rep _ _ _ _ _ Hr) as (l' & h' & E & Hr' & _ & Hd).
  unfold list_Remove. rewrite E. cbn [res_bind fst snd].
  assert (∀ p, p ∈ ys ++ zs → p ∈ X w) as Hsub by (intros p; rewrite Ew; set_solver).
  assert (Value <$> c_elts s !! e = Some e) as Hve by (apply (lo_value _ _ Hl w); rewrite Ew; set_solver).
  eexists. split; [done|]. split_and!; [|done| |].
  - eapply lists_update; [done|done|exact Hd|by left; apply Hsub|by left; apply Hsub|]. intros p Hp. by apply (lo_value _ _ Hl w), Hsub.
  - cbn. destruct Hd as [_ ->]. done.
  - intros w'. unfold put. destruct (decide _) as [<-|Hne].
    + pose proof (lr_nodup _ _ _ Hr) as Hnd. rewrite <- Permutation_middle in Hnd. by apply NoDup_cons in Hnd as [? _].
    + intros Hin. apply Hne, (lo_disj _ _ Hl w w' e); [rewrite Ew; set_solver|done].
Qed.

Lemma list_PushBack_ok s X w e :
  lists_ok s X → Value <$> c_elts s !! e = Some e → (∀ w', e ∉ X w') →
  ∃ s', list_PushBack w e s = Ok s' ∧ lists_ok s' (put w (X w ++ [e]) X) ∧ same_data s s'.
Proof.
  intros Hl Hv Hn. pose proof (lo_rep _ _ Hl w) as Hr.
  destruct (PushBackElement_rep _ _ _ e Hr) as (l' & h' & E & Hr' & _ & Hd); [by destruct (c_elts s !! e); [eexists|]|done|].
  unfold list_PushBack. rewrite E. cbn [res_bind fst snd]. eexists. split; [done|]. split; [|done].
  assert (∀ p, p ∈ X w ++ [e] → p ∈ X w ∨ ∀ w', p ∉ X w') as Hsub.
  { intros p [Hp| ->%list_elem_of_singleton]%elem_of_app; [by left|by right]. }
  eapply lists_update; [done|done|exact Hd|exact Hsub|exact Hsub|].
  intros p [Hp| ->%list_elem_of_singleton]%elem_of_app; [by apply (lo_value _ _ Hl w)|done].
Qed.

Lemma front_ok s X w :
  lists_ok s X →
  match X w with
  | [] => Front (list_of w s) = None
  | e :: _ => Front (list_of w s) = Some e ∧ front w s = Ok e
  end.
Proof.
  intros Hl. pose proof (lr_Front _ _ _ (lo_rep _ _ Hl w)) as Hf. destruct (X w) as [|e zs] eqn:Ew; [done|]. split; [done|].
  unfold front. rewrite Hf. cbn [head deref res_bind]. unfold load.
  assert (Value <$> c_elts s !! e = Some e) as Hv by (apply (lo_value _ _ Hl w); rewrite Ew; by left).
  destruct (c_elts s !! e) as [x|]; [|done]. cbn in *. congruence.
Qed.

(** ** The entries *)

Definition fits (w : series) x : Prop :=
  frequentbit x = is_frequent w ∧ (is_Some (ce_value x) ↔ has_value w) ∧ (is_frequent w → filterlong x = true).

Record entries_ok s X : Prop := mkEntriesOk {
  eo_entry : ∀ w p, p ∈ X w → ∃ x, c_entries s !! p = Some x ∧ fits w x ∧ c_cache s !! ce_key x = Some p;
  eo_cache : ∀ k p, c_cache s !! k = Some p → ∃ w x, p ∈ X w ∧ c_entries s !! p = Some x ∧ ce_key x = k
}.

(** What the cache answers. *)
Definition cached s (k : string) : option V := e ← c_cache s !! k; x ← c_entries s !! e; ce_value x.

Lemma upd_entry_alter e f s : is_Some (c_entries s !! e) → upd_entry e f s = Ok (set_entries (alter f e (c_entries s)) s).
Proof.
  intros [x Hx]. unfold upd_entry, entry. rewrite Hx. cbn. do 2 f_equal. apply map_eq. intros q.
  destruct (decide (q = e)) as [->|Hne]; [by rewrite lookup_insert_eq, lookup_alter_eq, Hx|by rewrite lookup_insert_ne, lookup_alter_ne].
Qed.

Lemma entries_move s s' X X' e w' f :
  entries_ok s X → c_cache s' = c_cache s → c_entries s' = alter f e (c_entries s) →
  (∀ x, ce_key (f x) = ce_key x) → (∀ x, c_entries s !! e = Some x → fits w' (f x)) →
  (∃ w, e ∈ X w) → (∀ w0 p, p ∈ X' w0 ↔ (p ≠ e ∧ p ∈ X w0) ∨ (p = e ∧ w0 = w')) →
  entries_ok s' X'.
Proof.
  intros [He Hc] Ec Ee Hk Hf [w Hw] HX. split.
  - intros w0 p [[Hne Hp]|[-> ->]]%HX.
    + destruct (He _ _ Hp) as (x & Hx & Hfx & Hcx). exists x. by rewrite Ee, Ec, lookup_alter_ne.
    + destruct (He _ _ Hw) as (x & Hx & _ & Hcx). exists (f x). rewrite Ee, Ec, lookup_alter_eq, Hx, Hk. split; [done|]. split; [by apply Hf|done].
  - intros k p. rewrite Ec. intros (w0 & x & Hp & Hx & Hkx)%Hc. destruct (decide (p = e)) as [->|Hne].
    + exists w', (f x). rewrite Ee, lookup_alter_eq, Hx, Hk. split; [apply HX; by right|done].
    + exists w0, x. rewrite Ee, lookup_alter_ne by done. split; [apply HX; by left|done].
Qed.

Lemma cached_move s s' e f :
  c_cache s' = c_cache s → c_entries s' = alter f e (c_entries s) → (∀ x, ce_value (f x) = ce_value x) →
  ∀ k, cached s' k = cached s k.
Proof.
  intros Ec Ee Hf k. unfold cached. rewrite Ec, Ee. destruct (c_cache s !! k) as [p|]; [|done]. cbn.
  destruct (decide (p = e)) as [->|Hne]; [|by rewrite lookup_alter_ne]. rewrite lookup_alter_eq. destruct (c_entries s !! e); [|done]. cbn. apply Hf.
Qed.

Lemma moved_elem s X w w' ys e zs w0 p :
  lists_ok s X → X w = ys ++ e :: zs →
  p ∈ moved w w' ys e zs X w0 ↔ (p ≠ e ∧ p ∈ X w0) ∨ (p = e ∧ w0 = w').
Proof.
  intros Hl Ew.
  assert (∀ w1, p ∈ put w (ys ++ zs) X w1 ↔ p ≠ e ∧ p ∈ X w1) as Hput.
  { intros w1. unfold put. destruct (decide (w = w1)) as [<-|Hne].
    - rewrite Ew. pose proof (lr_nodup _ _ _ (lo_rep _ _ Hl w)) as Hnd. rewrite Ew, <- Permutation_middle in Hnd.
      apply NoDup_cons in Hnd as [Hin _]. set_solver.
    - split; [|by intros []]. intros Hp. split; [|done]. intros ->. apply Hne, (lo_disj _ _ Hl w w1 e); [rewrite Ew; set_solver|done]. }
  unfold moved. unfold put at 1. destruct (decide (w' = w0)) as [<-|Hne].
  - rewrite elem_of_app, list_elem_of_singleton, Hput. naive_solver.
  - rewrite Hput. naive_solver.
Qed.

(** ** The numbers *)

(** How many of the entries [xs] satisfy [g]. *)
Definition marked (g : XXXCartEntry V → bool) (es : gmap positive (XXXCartEntry V)) (p : positive) : Prop := g <$> es !! p = Some true.
#[export] Instance marked_dec g es p : Decision (marked g es p).
Proof. unfold marked. apply _. Defined.
Definition count (g : XXXCartEntry V → bool) (es : gmap positive (XXXCartEntry V)) (xs : list positive) : Z :=
  Z.of_nat (length (filter (marked g es) xs)).
Definition is_short (x : XXXCartEntry V) : bool := negb (filterlong x).

Lemma count_app g es xs ys : count g es (xs ++ ys) = (count g es xs + count g es ys)%Z.
Proof. unfold count. rewrite filter_app, length_app. lia. Qed.
Lemma count_cons g es e xs : count g es (e :: xs) = ((if decide (marked g es e) then 1 else 0) + count g es xs)%Z.
Proof. unfold count. rewrite filter_cons. destruct (decide _); cbn [length]; lia. Qed.
Lemma count_ext g es es' xs : (∀ p, p ∈ xs → g <$> es' !! p = g <$> es !! p) → count g es' xs = count g es xs.
Proof.
  induction xs as [|e xs IH]; intros He; [done|]. rewrite !count_cons, IH by (intros p Hp; apply He; by right).
  f_equal. apply decide_ext. unfold marked. by rewrite (He e) by by left.
Qed.
Lemma count_bounds g es xs : (0 ≤ count g es xs ≤ Z.of_nat (length xs))%Z.
Proof. unfold count. pose proof (length_filter (marked g es) xs). lia. Qed.
Lemma count_alter g es f e xs : e ∉ xs → count g (alter f e es) xs = count g es xs.
Proof. intros He. apply count_ext. intros p Hp. rewrite lookup_alter_ne; [done|]. by intros ->. Qed.
Lemma marked_if g es e x (a b : Z) : es !! e = Some x → (if decide (marked g es e) then a else b) = if g x then a else b.
Proof.
  intros Hx. destruct (decide _) as [E|E]; unfold marked in E; rewrite Hx in E; cbn in E; by destruct (g x).
Qed.
Lemma count_single g es e x : es !! e = Some x → count g es [e] = (if g x then 1 else 0)%Z.
Proof. intros Hx. rewrite count_cons, (marked_if _ _ _ x) by done. change (count g es []) with 0%Z. destruct (g x); lia. Qed.

Definition tlen X : Z := Z.of_nat (length (X T1)) + Z.of_nat (length (X T2)).
Definition blen X : Z := Z.of_nat (length (X B1)) + Z.of_nat (length (X B2)).

Record nums_ok (nb : Z) s X : Prop := mkNumsOk {
  no_p : (0 ≤ c_p s ≤ c_c s)%Z;
  no_q : (0 ≤ c_q s)%Z;
  no_ns : c_ns s = count is_short (c_entries s) (X T1);
  no_nl : c_nl s = (tlen X - c_ns s)%Z;
  no_t : (tlen X ≤ c_c s)%Z;
  no_b : (blen X ≤ nb)%Z
}.

(** [nb] bounds the keys without a value that are remembered. *)
Record CartInv (nb : Z) s X : Prop := mkCartInv {
  ci_lists : lists_ok s X;
  ci_entries : entries_ok s X;
  ci_nums : nums_ok nb s X
}.

Lemma IMin_min a b : IMin a [b] = Z.min a b.
Proof. unfold IMin. cbn. destruct (Z.ltb_spec b a); lia. Qed.
Lemma IMax_max a b : IMax a [b] = Z.max a b.
Proof. unfold IMax. cbn. destruct (Z.ltb_spec a b); lia. Qed.

Lemma grow_q_spec s :
  ∃ q', grow_q s = set_q q' s ∧ ((0 ≤ c_q s)%Z → (len T1 s ≤ 2 * c_c s)%Z → (0 ≤ q')%Z).
Proof.
  unfold grow_q. destruct (_ <=? _)%Z.
  - eexists. split; [done|]. rewrite IMin_min. lia.
  - exists (c_q s). split; [by destruct s|done].
Qed.

(** [s'] answers like [s]; only [t1] and [t2] may have exchanged entries. *)
Record keeps s s' X X' : Prop := mkKeeps {
  k_c : c_c s' = c_c s;
  k_cache : c_cache s' = c_cache s;
  k_cached : ∀ k, cached s' k = cached s k;
  k_b1 : X' B1 = X B1;
  k_b2 : X' B2 = X B2;
  k_t : tlen X' = tlen X
}.
Lemma keeps_refl s X : keeps s s X X.
Proof. done. Qed.
Lemma keeps_trans s1 s2 s3 X1 X2 X3 : keeps s1 s2 X1 X2 → keeps s2 s3 X2 X3 → keeps s1 s3 X1 X3.
Proof. intros [] []. split; try congruence. Qed.

Lemma CartInv_entry nb s X w p : CartInv nb s X → p ∈ X w → ∃ x, entry p s = Ok x ∧ c_entries s !! p = Some x ∧ fits w x.
Proof. intros Hi Hp. destruct (eo_entry _ _ (ci_entries _ _ _ Hi) w p Hp) as (x & Hx & Hf & _). exists x. unfold entry. by rewrite Hx. Qed.

(** ** The first loop of [replace] *)

Lemma replace_t2_turn nb s X e zs x :
  CartInv nb s X → X T2 = e :: zs → c_entries s !! e = Some x → ce_value x ≠ None →
  ∃ s1 s2 s3, list_Remove T2 e s = Ok s1 ∧ upd_entry e (λ x, set_frequentbit false (set_refbit false x)) s1 = Ok s2 ∧
    list_PushBack T1 e s2 = Ok s3 ∧ CartInv nb (grow_q s3) (moved T2 T1 [] e zs X) ∧ keeps s (grow_q s3) X (moved T2 T1 [] e zs X).
Proof.
  intros Hi Ew Hx Hv. destruct Hi as [Hl He Hn].
  destruct (list_Remove_ok s X T2 [] e zs) as (s1 & E1 & Hl1 & Hs1 & Hv1 & Hout); [done..|].
  destruct Hs1 as (D1 & D2 & D3 & D4 & D5 & D6 & D7).
  pose (f := λ x : XXXCartEntry V, set_frequentbit false (set_refbit false x)). fold f.
  pose (s2 := set_entries (alter f e (c_entries s1)) s1).
  assert (upd_entry e f s1 = Ok s2) as E2 by (apply upd_entry_alter; rewrite D2, Hx; by eexists).
  assert (lists_ok s2 (put T2 ([] ++ zs) X)) as Hl2 by (by eapply (lists_ok_ext s1); [intros []| |]).
  destruct (list_PushBack_ok s2 _ T1 e Hl2) as (s3 & E3 & Hl3 & Hs3); [done..|]. fold (moved T2 T1 [] e zs X) in Hl3.
  destruct Hs3 as (F1 & F2 & F3 & F4 & F5 & F6 & F7). cbn in F1, F2, F3, F4, F5, F6, F7.
  exists s1, s2, s3. split_and!; [done..| |].
  - destruct (grow_q_spec s3) as (q' & -> & Hq). destruct (eo_entry _ _ He T2 e) as (x' & Hx' & Hfx & Hcx); [rewrite Ew; by left|].
    assert (x' = x) as -> by congruence. destruct Hn as [Np Nq Nns Nnl Nt Nb].
    assert (moved T2 T1 [] e zs X T1 = X T1 ++ [e]) as M1 by done. assert (moved T2 T1 [] e zs X T2 = zs) as M2 by done.
    assert (e ∉ X T1) as Hn1 by exact (Hout T1).
    assert (tlen (moved T2 T1 [] e zs X) = tlen X) as Mt by (unfold tlen; rewrite M1, M2, Ew, length_app; cbn [length]; lia).
    split.
    + by eapply (lists_ok_ext s3); [intros []| |].
    + eapply (entries_move s _ X _ e T1 f); [done|cbn; congruence|cbn; congruence|done| |exists T2; rewrite Ew; by left|].
      * intros x0 Hx0. assert (x0 = x) as -> by congruence. split_and!; [done| |done]. split; [done|]. intros _. cbn. by destruct (ce_value x); [eexists|].
      * intros w0 p. by eapply moved_elem.
    + split; cbn.
      * by rewrite F4, F3, D4, D3.
      * apply Hq; [by rewrite F5, D5|]. rewrite (lists_len s3 _ T1 Hl3), F3, D3. unfold tlen in Mt, Nt. rewrite M1, M2 in *. lia.
      * rewrite F6, F2, D6, D2, M1, count_app, count_alter, Nns by done.
        rewrite (count_single _ _ e (f x)) by by rewrite lookup_alter_eq, Hx. destruct Hfx as (_ & _ & Hlong).
        unfold is_short. cbn. rewrite Hlong by done. cbn. lia.
      * rewrite F7, F6, D7, D6, Mt. done.
      * rewrite F3, D3, Mt. done.
      * done.
  - destruct (grow_q_spec s3) as (q' & -> & _). split; cbn; try congruence; try done.
    + intros k. apply (cached_move s _ e f); cbn; congruence.
    + unfold tlen. change (moved T2 T1 [] e zs X T1) with (X T1 ++ [e]). change (moved T2 T1 [] e zs X T2) with zs.
      rewrite Ew, length_app. cbn [length]. lia.
Qed.

Lemma replace_t2_ok nb fuel s X :
  CartInv nb s X → length (X T2) ≤ fuel →
  ∃ s' X', replace_t2 fuel s = Ok s' ∧ CartInv nb s' X' ∧ keeps s s' X X'.
Proof.
  revert s X. induction fuel as [|fuel IH]; intros s X Hi Hf.
  - pose proof (front_ok s X T2 (ci_lists _ _ _ Hi)) as Hfr. destruct (X T2); [|cbn in Hf; lia]. cbn in Hfr.
    exists s, X. cbn. rewrite Hfr. auto using keeps_refl.
  - pose proof (front_ok s X T2 (ci_lists _ _ _ Hi)) as Hfr. destruct (X T2) as [|e zs] eqn:Ew; cbn in Hfr.
    { exists s, X. cbn. rewrite Hfr. auto using keeps_refl. }
    destruct Hfr as [Hfr Hfe]. cbn [replace_t2]. rewrite Hfr, Hfe. cbn [res_bind].
    destruct (CartInv_entry nb s X T2 e) as (x & -> & Hx & Hfx); [done|rewrite Ew; by left|]. cbn [res_bind].
    destruct (refbit x); [|exists s, X; auto using keeps_refl].
    destruct (replace_t2_turn nb s X e zs x) as (s1 & s2 & s3 & -> & E2 & E3 & Hi' & Hk); [done..| |].
    { destruct Hfx as (_ & Hv & _). apply not_eq_None_Some, Hv. done. }
    cbn [res_bind]. rewrite E2. cbn [res_bind]. rewrite E3. cbn [res_bind].
    destruct (IH _ _ Hi') as (s' & X' & E & Hi'' & Hk'); [change (moved T2 T1 [] e zs X T2) with zs; cbn in Hf; lia|].
    exists s', X'. split; [done|]. split; [done|]. by eapply keeps_trans.
Qed.

(** ** The second loop of [replace] *)

(** Every turn clears a mark or shortens [t1]. *)
Definition t1_work s X : Z := Z.of_nat (length (X T1)) + count refbit (c_entries s) (X T1).

(** Removing an entry and putting it into another list. *)
Lemma move_front s X w w' e zs :
  lists_ok s X → X w = e :: zs →
  ∃ s1 s2, list_Remove w e s = Ok s1 ∧ list_PushBack w' e s1 = Ok s2 ∧ lists_ok s2 (moved w w' [] e zs X) ∧ same_data s s2 ∧
    ∀ w0, e ∉ put w zs X w0.
Proof.
  intros Hl Ew. destruct (list_Remove_ok s X w [] e zs) as (s1 & E1 & Hl1 & Hs1 & Hv1 & Hout); [done..|].
  destruct (list_PushBack_ok s1 _ w' e Hl1) as (s2 & E2 & Hl2 & Hs2); [done..|].
  exists s1, s2. split_and!; [done..| |done]. unfold same_data in *. naive_solver congruence.
Qed.

Lemma rotate_ok nb s X e zs x (long : bool) s2 s' :
  CartInv nb s X → X T1 = e :: zs → c_entries s !! e = Some x → refbit x = true → (long → filterlong x = false) →
  lists_ok s2 (moved T1 T1 [] e zs X) → same_data s s2 → e ∉ zs →
  let f x := if long then set_filterlong true (set_refbit false x) else set_refbit false x in
  s' = set_nums (c_p s) (c_q s) (if long then c_ns s - 1 else c_ns s)%Z (if long then c_nl s + 1 else c_nl s)%Z
         (set_entries (alter f e (c_entries s)) s2) →
  CartInv nb s' (moved T1 T1 [] e zs X) ∧ keeps s s' X (moved T1 T1 [] e zs X) ∧
    (t1_work s' (moved T1 T1 [] e zs X) < t1_work s X)%Z.
Proof.
  intros [Hl He Hn] Ew Hx Hr Hlong Hl2 (D1 & D2 & D3 & D4 & D5 & D6 & D7) Hez f ->.
  assert (moved T1 T1 [] e zs X T1 = zs ++ [e]) as M1 by done. assert (moved T1 T1 [] e zs X T2 = X T2) as M2 by done.
  assert (tlen (moved T1 T1 [] e zs X) = tlen X) as Mt by (unfold tlen; rewrite M1, M2, Ew, length_app; cbn [length]; lia).
  destruct (eo_entry _ _ He T1 e) as (x' & Hx' & Hfx & Hcx); [rewrite Ew; by left|]. assert (x' = x) as -> by congruence.
  destruct Hn as [Np Nq Nns Nnl Nt Nb]. rewrite Ew, count_cons, (marked_if _ _ _ x) in Nns by done.
  assert (∀ g, count g (alter f e (c_entries s)) (zs ++ [e]) = count g (c_entries s) zs + (if g (f x) then 1 else 0))%Z as Hcnt.
  { intros g. rewrite count_app, count_alter by done. rewrite (count_single _ _ e (f x)); [done|]. by rewrite lookup_alter_eq, Hx. }
  split_and!.
  - split.
    + by eapply (lists_ok_ext s2); [intros []| |].
    + eapply (entries_move s _ X _ e T1 f); [done|cbn; congruence|done|by destruct long| |exists T1; rewrite Ew; by left|by intros; eapply moved_elem].
      intros x0 Hx0. assert (x0 = x) as -> by congruence. destruct Hfx as (F1 & F2 & F3). unfold f. destruct long; done.
    + split; cbn; rewrite ?Mt, ?D3; [done|done| |destruct long; lia|done|done].
      rewrite M1, Hcnt, Nns. unfold is_short, f. destruct long; cbn; [rewrite Hlong by done; cbn; lia|]. destruct (filterlong x); cbn; lia.
  - split; cbn; [done|done| |done|done|done]. intros k. apply (cached_move s _ e f); [done|done|]. intros x0. unfold f. by destruct long.
  - unfold t1_work. cbn. rewrite M1, Hcnt, Ew, length_app, count_cons, (marked_if _ _ _ x) by done. rewrite Hr. unfold f. cbn [length].
    destruct long; cbn; lia.
Qed.

Lemma promote_ok nb s X e zs x s2 s' :
  CartInv nb s X → X T1 = e :: zs → c_entries s !! e = Some x → filterlong x = true → refbit x = false →
  lists_ok s2 (moved T1 T2 [] e zs X) → same_data s s2 → e ∉ zs →
  s' = set_nums (c_p s) (IMax (c_q s - 1) [(c_c s2 - len T1 s2)%Z]) (c_ns s) (c_nl s)
         (set_entries (alter (set_frequentbit true) e (c_entries s)) s2) →
  CartInv nb s' (moved T1 T2 [] e zs X) ∧ keeps s s' X (moved T1 T2 [] e zs X) ∧
    (t1_work s' (moved T1 T2 [] e zs X) < t1_work s X)%Z.
Proof.
  intros [Hl He Hn] Ew Hx Hlong Hr Hl2 (D1 & D2 & D3 & D4 & D5 & D6 & D7) Hez ->.
  assert (moved T1 T2 [] e zs X T1 = zs) as M1 by done. assert (moved T1 T2 [] e zs X T2 = X T2 ++ [e]) as M2 by done.
  assert (tlen (moved T1 T2 [] e zs X) = tlen X) as Mt by (unfold tlen; rewrite M1, M2, Ew, length_app; cbn [length]; lia).
  destruct (eo_entry _ _ He T1 e) as (x' & Hx' & Hfx & Hcx); [rewrite Ew; by left|]. assert (x' = x) as -> by congruence.
  destruct Hn as [Np Nq Nns Nnl Nt Nb]. rewrite Ew, count_cons, (marked_if _ _ _ x) in Nns by done.
  unfold is_short at 1 in Nns. rewrite Hlong in Nns. cbn in Nns.
  split_and!.
  - split.
    + by eapply (lists_ok_ext s2); [intros []| |].
    + eapply (entries_move s _ X _ e T2); [done|cbn; congruence|done|done| |exists T1; rewrite Ew; by left|by intros; eapply moved_elem].
      intros x0 Hx0. assert (x0 = x) as -> by congruence. destruct Hfx as (F1 & F2 & F3). done.
    + split; cbn -[IMax]; rewrite ?Mt, ?D3; [done| | |done|done|done].
      * rewrite (lists_len s2 _ T1 Hl2), M1, IMax_max. unfold tlen in Nt. rewrite Ew in Nt. cbn [length] in Nt. lia.
      * rewrite M1, count_alter, Nns by done. lia.
  - split; cbn; [done|done| |done|done|done]. intros k. by apply (cached_move s _ e (set_frequentbit true)).
  - unfold t1_work. cbn. rewrite M1, count_alter, Ew, count_cons by done. cbn [length]. destruct (decide _); lia.
Qed.

Lemma replace_t1_turn nb s X e zs x fuel :
  CartInv nb s X → X T1 = e :: zs → c_entries s !! e = Some x → filterlong x || refbit x = true →
  ∃ s' X', replace_t1 (S fuel) s = replace_t1 fuel s' ∧ CartInv nb s' X' ∧ keeps s s' X X' ∧ (t1_work s' X' < t1_work s X)%Z.
Proof.
  intros Hi Ew Hx Hb. pose proof (ci_lists _ _ _ Hi) as Hl. pose proof (front_ok s X T1 Hl) as Hfr. rewrite Ew in Hfr.
  destruct Hfr as [Hfr Hfe]. cbn in Hfr. cbn [replace_t1]. rewrite Hfr, Hfe. cbn [res_bind]. unfold entry. rewrite Hx. cbn [deref res_bind].
  rewrite Hb. destruct (refbit x) eqn:Er.
  - destruct (move_front s X T1 T1 e zs Hl Ew) as (s1 & s2 & -> & E2 & Hl2 & Hs & Hout). cbn [res_bind]. rewrite E2. cbn [res_bind].
    pose proof Hs as (D1 & D2 & D3 & D4 & D5 & D6 & D7).
    rewrite upd_entry_alter by (rewrite D2, Hx; by eexists). cbn [res_bind].
    match goal with |- context [if (?a && ?b) then _ else _] => destruct (a && b) eqn:Ec end.
    + apply andb_true_iff in Ec as [_ Ec%negb_true_iff]. rewrite upd_entry_alter by (cbn; rewrite lookup_alter_eq, D2, Hx; by eexists). cbn [res_bind].
      eexists _, _. split; [reflexivity|]. eapply (rotate_ok nb s X e zs x true s2); [done..|exact (Hout T1)|].
      unfold add_nl, add_ns, set_nums, set_entries. cbn. rewrite D2, D4, D5, D6, D7. f_equal.
      by rewrite alter_alter_eq.
    + eexists _, _. split; [reflexivity|]. eapply (rotate_ok nb s X e zs x false s2); [done..|exact (Hout T1)|].
      unfold set_nums, set_entries. cbn. by rewrite D2, D4, D5, D6, D7.
  - rewrite orb_false_r in Hb. destruct (move_front s X T1 T2 e zs Hl Ew) as (s1 & s2 & -> & E2 & Hl2 & Hs & Hout). cbn [res_bind]. rewrite E2. cbn [res_bind].
    pose proof Hs as (D1 & D2 & D3 & D4 & D5 & D6 & D7).
    rewrite upd_entry_alter by (cbn; rewrite D2, Hx; by eexists). cbn [res_bind].
    eexists _, _. split; [reflexivity|]. eapply (promote_ok nb s X e zs x s2); [done..|exact (Hout T1)|].
    unfold set_q, set_nums, set_entries. cbn. by rewrite D2, D4, D5, D6, D7.
Qed.

(** Afterwards the front of [t1], if any, is short-lived and not referenced. *)
Lemma replace_t1_ok nb fuel s X :
  CartInv nb s X → (t1_work s X < Z.of_nat (S fuel))%Z →
  ∃ s' X', replace_t1 fuel s = Ok s' ∧ CartInv nb s' X' ∧ keeps s s' X X' ∧
    ∀ e zs x, X' T1 = e :: zs → c_entries s' !! e = Some x → filterlong x = false.
Proof.
  revert s X. induction fuel as [|fuel IH]; intros s X Hi Hf;
    pose proof (front_ok s X T1 (ci_lists _ _ _ Hi)) as Hfr; destruct (X T1) as [|e zs] eqn:Ew; cbn in Hfr.
  1, 3: exists s, X; cbn; rewrite Hfr; split_and!; [done|done|apply keeps_refl|]; intros ???; congruence.
  - exfalso. unfold t1_work in Hf. rewrite Ew in Hf. pose proof (count_bounds refbit (c_entries s) (e :: zs)). cbn [length] in *. lia.
  - destruct (CartInv_entry nb s X T1 e) as (x & Hex & Hx & Hfx); [done|rewrite Ew; by left|].
    destruct (filterlong x || refbit x) eqn:Eb.
    + destruct (replace_t1_turn nb s X e zs x fuel) as (s1 & X1 & -> & Hi1 & Hk1 & Hw); [done..|].
      destruct (IH s1 X1 Hi1) as (s' & X' & E & Hi' & Hk' & Hlast); [lia|]. exists s', X'. split_and!; [done|done| |done]. by eapply keeps_trans.
    + exists s, X. destruct Hfr as [Hfr Hfe]. cbn [replace_t1]. rewrite Hfr, Hfe. cbn [res_bind]. rewrite Hex. cbn [res_bind]. rewrite Eb.
      split_and!; [done|done|apply keeps_refl|]. intros e' zs' x'. rewrite Ew. intros [= <- <-]. rewrite Hx. intros [= <-].
      by apply orb_false_iff in Eb as [? _].
Qed.
End facts.
