(* ===== verification/CartProps.v ===== *)
(** * The cache: the theorems

    The methods of the cache against what it answers: a partial copy of the map of the last values
    set, never larger than its bound. *)
From stdpp Require Import base list gmap strings.
From Stdlib Require Import ZArith Lia.
From S2P Require Import Prelude Util LinkedList Cart CartFacts.

Section props.
Context {V : Type}.
Implicit Types (s : XXXCart V) (x : XXXCartEntry V) (X : seqs).

(** ** Eviction *)

(** Changing the value of an entry changes the answer for its key. *)
Lemma cached_set_value s s' X e x f v w :
  entries_ok s X → e ∈ X w → c_entries s !! e = Some x → c_cache s' = c_cache s → c_entries s' = alter f e (c_entries s) →
  ce_value (f x) = v → ∀ k, cached s' k = if decide (k = ce_key x) then v else cached s k.
Proof.
  intros He Hin Hx Ec Ee Hv k. unfold cached. rewrite Ec, Ee. destruct (eo_entry _ _ He w e Hin) as (x' & Hx' & _ & Hcx).
  assert (x' = x) as -> by congruence. destruct (decide (k = ce_key x)) as [->|Hne].
  - rewrite Hcx. cbn. by rewrite lookup_alter_eq, Hx.
  - destruct (c_cache s !! k) as [p|] eqn:Ek; [|done]. cbn. rewrite lookup_alter_ne; [done|]. intros <-.
    destruct (eo_cache _ _ He _ _ Ek) as (w' & x' & _ & Hx2 & Hk). congruence.
Qed.

Definition behind (w : series) : series := if is_frequent w then B2 else B1.

Lemma evict_ok nb s X w e zs x :
  CartInv nb s X → X w = e :: zs → has_value w → c_entries s !! e = Some x →
  ∃ s', evict w (behind w) s = Ok s' ∧ lists_ok s' (moved w (behind w) [] e zs X) ∧
    entries_ok s' (moved w (behind w) [] e zs X) ∧ c_cache s' = c_cache s ∧
    c_entries s' = alter (set_value None) e (c_entries s) ∧
    c_c s' = c_c s ∧ c_p s' = c_p s ∧ c_q s' = c_q s ∧ c_ns s' = c_ns s ∧ c_nl s' = c_nl s ∧
    ∀ k, cached s' k = if decide (k = ce_key x) then None else cached s k.
Proof.
  intros [Hl He Hn] Ew Hw Hx. pose proof (front_ok s X w Hl) as Hfr. rewrite Ew in Hfr. destruct Hfr as [_ Hfe].
  unfold evict. rewrite Hfe. cbn [res_bind]. rewrite upd_entry_alter by (rewrite Hx; by eexists). cbn [res_bind].
  set (s0 := set_entries (alter (set_value None) e (c_entries s)) s).
  assert (lists_ok s0 X) as Hl0 by (by eapply (lists_ok_ext s); [intros []| |]).
  destruct (move_front s0 X w (behind w) e zs Hl0 Ew) as (s1 & s2 & -> & E2 & Hl2 & (D1 & D2 & D3 & D4 & D5 & D6 & D7) & _).
  cbn [res_bind]. exists s2. cbn in D1, D2, D3, D4, D5, D6, D7. assert (e ∈ X w) as Hin by (rewrite Ew; by left).
  destruct (eo_entry _ _ He w e Hin) as (x' & Hx' & Hfx & Hcx). assert (x' = x) as -> by congruence.
  split_and!; [done|done| |done..|by eapply cached_set_value].
  eapply (entries_move s _ X _ e (behind w) (set_value None)); [done..| |by exists w|by intros; eapply moved_elem].
  intros x0 Hx0. assert (x0 = x) as -> by congruence. destruct Hfx as (F1 & F2 & F3). unfold behind.
  destruct w; cbn in *; try done; (split_and!; [done| |done]); (split; [by intros []|done]).
Qed.

(** What one eviction does to the invariant. *)
Definition evicted nb s X s' X' (k : string) : Prop :=
  CartInv (nb + 1) s' X' ∧ c_c s' = c_c s ∧ c_cache s' = c_cache s ∧ tlen X' = (tlen X - 1)%Z ∧ (blen X' = blen X + 1)%Z ∧
  X B1 `prefix_of` X' B1 ∧ X B2 `prefix_of` X' B2 ∧ ∀ k', cached s' k' = if decide (k' = k) then None else cached s k'.

Lemma evict_t1 nb s X e zs x :
  CartInv nb s X → X T1 = e :: zs → c_entries s !! e = Some x → filterlong x = false →
  ∃ s', evict T1 B1 s = Ok s' ∧ evicted nb s X (add_ns (-1) s') (moved T1 B1 [] e zs X) (ce_key x).
Proof.
  intros Hi E1 Hx Hlong. pose proof (ci_nums _ _ _ Hi) as [Np Nq Nns Nnl Nt Nb].
  destruct (evict_ok nb s X T1 e zs x) as (s3 & E3 & Hl3 & He3 & F1 & F2 & F3 & F4 & F5 & F6 & F7 & Hca); [done..|].
  change (behind T1) with B1 in *. set (X3 := moved T1 B1 [] e zs X) in *. exists s3. split; [done|].
  assert (X3 T1 = zs) as M1 by done. assert (X3 T2 = X T2) as M2 by done. assert (X3 B1 = X B1 ++ [e]) as M3 by done. assert (X3 B2 = X B2) as M4 by done.
  assert (tlen X3 = tlen X - 1)%Z as Mt by (unfold tlen; rewrite M1, M2, E1; cbn [length]; lia).
  assert (blen X3 = blen X + 1)%Z as Mb by (unfold blen; rewrite M3, M4, length_app; cbn [length]; lia).
  assert (e ∉ zs) as Hez.
  { pose proof (lr_nodup _ _ _ (lo_rep _ _ (ci_lists _ _ _ Hi) T1)) as Hnd. rewrite E1 in Hnd. by apply NoDup_cons in Hnd as [? _]. }
  split_and!; [|done|done|done|done|rewrite M3; by exists [e]|by rewrite M4|done].
  split; [by eapply (lists_ok_ext s3); [intros []| |]|by destruct He3|]. split; cbn; rewrite ?F3, ?F4, ?F5, ?F6, ?F7, ?Mt, ?Mb; [done|done| |lia|lia|lia].
  rewrite F2, M1, count_alter, Nns, E1, count_cons, (marked_if _ _ _ x) by done. unfold is_short. rewrite Hlong. cbn. lia.
Qed.

Lemma evict_t2 nb s X e zs x :
  CartInv nb s X → X T2 = e :: zs → c_entries s !! e = Some x →
  ∃ s', evict T2 B2 s = Ok s' ∧ evicted nb s X (add_nl (-1) s') (moved T2 B2 [] e zs X) (ce_key x).
Proof.
  intros Hi E2 Hx. pose proof (ci_nums _ _ _ Hi) as [Np Nq Nns Nnl Nt Nb].
  destruct (evict_ok nb s X T2 e zs x) as (s3 & E3 & Hl3 & He3 & F1 & F2 & F3 & F4 & F5 & F6 & F7 & Hca); [done..|].
  change (behind T2) with B2 in *. set (X3 := moved T2 B2 [] e zs X) in *. exists s3. split; [done|].
  assert (X3 T1 = X T1) as M1 by done. assert (X3 T2 = zs) as M2 by done. assert (X3 B1 = X B1) as M3 by done. assert (X3 B2 = X B2 ++ [e]) as M4 by done.
  assert (tlen X3 = tlen X - 1)%Z as Mt by (unfold tlen; rewrite M1, M2, E2; cbn [length]; lia).
  assert (blen X3 = blen X + 1)%Z as Mb by (unfold blen; rewrite M3, M4, length_app; cbn [length]; lia).
  assert (e ∉ X T1) as He1.
  { intros Hin. enough (T2 = T1) by done. apply (lo_disj _ _ (ci_lists _ _ _ Hi) T2 T1 e); [rewrite E2; by left|done]. }
  split_and!; [|done|done|done|done|by rewrite M3|rewrite M4; by exists [e]|done].
  split; [by eapply (lists_ok_ext s3); [intros []| |]|by destruct He3|]. split; cbn; rewrite ?F3, ?F4, ?F5, ?F6, ?F7, ?Mt, ?Mb; [done|done| |lia|lia|lia].
  by rewrite F2, M1, count_alter, Nns by done.
Qed.

(** [replace] on a full cache: the loops end, and one value is lost. *)
Lemma replace_ok nb s X :
  CartInv nb s X → tlen X = c_c s → (0 < c_c s)%Z → ∃ s' X' k, replace s = Ok s' ∧ evicted nb s X s' X' k.
Proof.
  intros Hi Ht Hc. unfold replace. pose proof (lists_len s X T1 (ci_lists _ _ _ Hi)) as L1. pose proof (lists_len s X T2 (ci_lists _ _ _ Hi)) as L2.
  destruct (replace_t2_ok nb (replace_fuel s) s X Hi) as (s1 & X1 & -> & Hi1 & K1); [unfold replace_fuel; rewrite L1, L2; lia|].
  cbn [res_bind]. pose proof (lists_len s1 X1 T1 (ci_lists _ _ _ Hi1)) as L3. pose proof (lists_len s1 X1 T2 (ci_lists _ _ _ Hi1)) as L4.
  destruct (replace_t1_ok nb (replace_fuel s1) s1 X1 Hi1) as (s2 & X2 & -> & Hi2 & K2 & Hlast).
  { unfold replace_fuel, t1_work. rewrite L3, L4. pose proof (count_bounds refbit (c_entries s1) (X1 T1)). lia. }
  cbn [res_bind]. pose proof (keeps_trans _ _ _ _ _ _ K1 K2) as [Kc Kca Kd Kb1 Kb2 Kt].
  rewrite (lists_len s2 X2 T1 (ci_lists _ _ _ Hi2)), IMax_max. pose proof (ci_nums _ _ _ Hi2) as [Np _ _ _ _ _].
  assert (∀ s' X' k, evicted nb s2 X2 s' X' k → evicted nb s X s' X' k) as Hev.
  { intros s' X' k (Hi' & ? & ? & ? & ? & ? & ? & Hca). unfold evicted, blen in *. rewrite Kb1, Kb2 in *.
    split_and!; [done|congruence|congruence|lia|lia|done|done|]. intros k'. by rewrite Hca, Kd. }
  destruct (Z.leb_spec (Z.max 1 (c_p s2)) (Z.of_nat (length (X2 T1)))) as [Hle|Hlt].
  - destruct (X2 T1) as [|e zs] eqn:E1; [cbn in Hle; lia|].
    destruct (CartInv_entry nb s2 X2 T1 e) as (x & _ & Hx & _); [done|rewrite E1; by left|].
    destruct (evict_t1 nb s2 X2 e zs x) as (s3 & -> & Hd); [done..|by eapply Hlast|]. cbn [res_bind].
    eexists _, _, _. split; [done|]. by eapply Hev.
  - destruct (X2 T2) as [|e zs] eqn:E2; [unfold tlen in *; rewrite E2 in *; cbn in *; lia|].
    destruct (CartInv_entry nb s2 X2 T2 e) as (x & _ & Hx & _); [done|rewrite E2; by left|].
    destruct (evict_t2 nb s2 X2 e zs x) as (s3 & -> & Hd); [done..|]. cbn [res_bind].
    eexists _, _, _. split; [done|]. by eapply Hev.
Qed.

(** ** Forgetting a key *)

Lemma bump_ok nb nb' s X w e zs :
  CartInv nb s X → X w = e :: zs → has_value w = false → (blen X - 1 ≤ nb')%Z →
  ∃ s', bump w s = Ok s' ∧ CartInv nb' s' (put w zs X) ∧ c_c s' = c_c s ∧ c_cache s' ⊆ c_cache s ∧
    tlen (put w zs X) = tlen X ∧ ∀ k, cached s' k = cached s k.
Proof.
  intros [Hl He Hn] Ew Hw Hb. pose proof (front_ok s X w Hl) as Hfr. rewrite Ew in Hfr. destruct Hfr as [Hf Hfe].
  assert (e ∈ X w) as Hin by (rewrite Ew; by left).
  destruct (eo_entry _ _ He w e Hin) as (x & Hx & Hfx & Hcx).
  unfold bump. rewrite Hfe. cbn [res_bind]. unfold entry. rewrite Hx. cbn [deref res_bind].
  set (s0 := set_cache (delete (ce_key x) (c_cache s)) s).
  assert (lists_ok s0 X) as Hl0 by (by eapply (lists_ok_ext s); [intros []| |]).
  assert (Front (list_of w s0) = Some e) as -> by (by destruct w). cbn [deref res_bind].
  destruct (list_Remove_ok s0 X w [] e zs Hl0 Ew) as (s1 & -> & Hl1 & (D1 & D2 & D3 & D4 & D5 & D6 & D7) & _ & Hout).
  cbn in D1, D2, D3, D4, D5, D6, D7, Hl1, Hout. exists s1.
  assert (∀ w', put w zs X w' = if decide (w = w') then zs else X w') as HX by done.
  assert (tlen (put w zs X) = tlen X) as Ht by (unfold tlen; rewrite !HX; by destruct w).
  split_and!; [done| |done| |done|].
  - split; [done| |].
    + split.
      * intros w' p Hp. destruct (eo_entry _ _ He w' p) as (y & Hy & Hfy & Hcy).
        { rewrite HX in Hp. destruct (decide _) as [<-|]; [rewrite Ew; by right|done]. }
        exists y. rewrite D1, D2. split_and!; [done|done|]. rewrite lookup_delete_ne; [done|]. intros Ek.
        assert (p = e) as -> by congruence. by apply (Hout w').
      * intros k p Hk. rewrite D1 in Hk. apply lookup_delete_Some in Hk as [Hne Hk].
        destruct (eo_cache _ _ He k p Hk) as (w' & y & Hp & Hy & Hky). exists w', y. rewrite D2. split_and!; [|done|done].
        rewrite HX. destruct (decide _) as [<-|]; [|done]. rewrite Ew in Hp. apply elem_of_cons in Hp as [->|Hp]; [congruence|done].
    + destruct Hn as [Np Nq Nns Nnl Nt Nb]. split; rewrite ?Ht, ?D3, ?D4, ?D5, ?D6, ?D7; [done|done| |done|done|].
      * rewrite D2, HX. destruct (decide _) as [->|]; [done|exact Nns].
      * unfold blen in *. rewrite !HX. destruct w; try done; repeat first [rewrite decide_True by done|rewrite decide_False by done]; rewrite Ew in Hb; cbn [length] in Hb; lia.
  - rewrite D1. apply delete_subseteq.
  - intros k. unfold cached. rewrite D1, D2. destruct (decide (k = ce_key x)) as [->|Hne].
    + rewrite lookup_delete_eq, Hcx. cbn. rewrite Hx. cbn. destruct Hfx as (_ & Hv & _). rewrite Hw in Hv.
      destruct (ce_value x); [|done]. by destruct (proj1 Hv).
    + by rewrite lookup_delete_ne.
Qed.

(** ** Making room *)

(** The answers of [s'] are those of [s] but for the key that was evicted, if any. *)
Definition evicts (victim : option string) s s' : Prop :=
  ∀ k, cached s' k = if decide (victim = Some k) then None else cached s k.

Lemma make_room_found s X :
  CartInv (c_c s) s X → (0 < c_c s)%Z →
  ∃ s' X' victim, make_room true s = Ok s' ∧ CartInv (c_c s + 1) s' X' ∧ c_c s' = c_c s ∧ c_cache s' = c_cache s ∧
    (tlen X' < c_c s)%Z ∧ X B1 `prefix_of` X' B1 ∧ X B2 `prefix_of` X' B2 ∧ evicts victim s s' ∧
    ((tlen X < c_c s)%Z → victim = None).
Proof.
  intros Hi Hc. pose proof (ci_nums _ _ _ Hi) as [_ _ _ _ Nt Nb]. unfold make_room.
  rewrite (lists_len s X T1 (ci_lists _ _ _ Hi)), (lists_len s X T2 (ci_lists _ _ _ Hi)). fold (tlen X).
  destruct (Z.eqb_spec (tlen X) (c_c s)) as [E|Hne].
  - destruct (replace_ok (c_c s) s X Hi E Hc) as (s' & X' & k & -> & (Hi' & Ec & Eca & Et & Eb & P1 & P2 & Hca)). cbn [res_bind negb andb].
    exists s', X', (Some k). split_and!; [done..|lia|done|done| |lia]. intros k'. rewrite Hca. apply decide_ext. split; [by intros ->|by intros [= ->]].
  - exists s, X, None. split_and!; [done| |done|done|lia|done|done|done|done].
    destruct Hi as [Hl He []]. split; [done|done|]. split; try done. lia.
Qed.

Lemma make_room_fresh s X :
  CartInv (c_c s) s X → (0 < c_c s)%Z →
  ∃ s' X' victim, make_room false s = Ok s' ∧ CartInv (c_c s) s' X' ∧ c_c s' = c_c s ∧ c_cache s' ⊆ c_cache s ∧
    (tlen X' < c_c s)%Z ∧ evicts victim s s' ∧ ((tlen X < c_c s)%Z → victim = None).
Proof.
  intros Hi Hc. pose proof (ci_nums _ _ _ Hi) as [_ _ _ _ Nt Nb]. unfold make_room.
  rewrite (lists_len s X T1 (ci_lists _ _ _ Hi)), (lists_len s X T2 (ci_lists _ _ _ Hi)). fold (tlen X).
  destruct (Z.eqb_spec (tlen X) (c_c s)) as [E|Hne]; [|by exists s, X, None; split_and!; [..|lia| |]].
  destruct (replace_ok (c_c s) s X Hi E Hc) as (s' & X' & k & -> & (Hi' & Ec & Eca & Et & Eb & P1 & P2 & Hca)). cbn [res_bind negb andb].
  assert (evicts (Some k) s s') as Hev by (intros k'; rewrite Hca; apply decide_ext; split; [by intros ->|by intros [= ->]]).
  rewrite (lists_len s' X' B1 (ci_lists _ _ _ Hi')), (lists_len s' X' B2 (ci_lists _ _ _ Hi')). fold (blen X'). rewrite Ec.
  pose proof (ci_nums _ _ _ Hi') as [_ Nq' _ _ _ _].
  destruct (Z.ltb_spec (c_c s) (blen X')) as [Hlt|Hge].
  - assert (∃ w, (if (c_q s' <? Z.of_nat (length (X' B1)))%Z || (Z.of_nat (length (X' B2)) =? 0)%Z then bump B1 s' else bump B2 s') = bump w s' ∧
      has_value w = false ∧ X' w ≠ []) as (w & -> & Hw & HX).
    { destruct (Z.ltb_spec (c_q s') (Z.of_nat (length (X' B1)))); cbn [orb].
      - exists B1. split_and!; [done|done|]. intros E'. rewrite E' in *. cbn in *. lia.
      - destruct (Z.eqb_spec (Z.of_nat (length (X' B2))) 0).
        + exists B1. split_and!; [done|done|]. intros E'. unfold blen in Hlt. rewrite E' in *. cbn in *. lia.
        + exists B2. split_and!; [done|done|]. intros E'. rewrite E' in *. cbn in *. lia. }
    destruct (X' w) as [|e zs] eqn:Ew; [done|].
    destruct (bump_ok (c_c s + 1) (c_c s) s' X' w e zs) as (s2 & -> & Hi2 & Ec2 & Eca2 & Et2 & Hca2); [done|done|done|unfold blen in *; lia|].
    exists s2, (put w zs X'), (Some k). split_and!; [done|done|congruence|by rewrite <- Eca|lia| |lia].
    intros k'. rewrite Hca2. apply Hev.
  - exists s', X', (Some k). split_and!; [done| |done|by rewrite Eca|lia|done|lia].
    destruct Hi' as [Hl He []]. split; [done|done|]. by split.
Qed.

(** ** Adding and reviving an entry *)

Lemma add_fresh_ok nb s X key v :
  CartInv nb s X → c_cache s !! key = None → (tlen X < c_c s)%Z →
  ∃ s' X', add_fresh key v s = Ok s' ∧ CartInv nb s' X' ∧ c_c s' = c_c s ∧
    ∀ k, cached s' k = if decide (k = key) then Some v else cached s k.
Proof.
  intros [Hl He Hn] Hk Ht. unfold add_fresh. set (e := fresh (dom (c_elts s) : gset positive)).
  assert (c_elts s !! e = None) as Hfresh by (apply not_elem_of_dom; apply is_fresh).
  assert (∀ w p, p ∈ X w → p ≠ e) as Hne.
  { intros w p Hp ->. pose proof (lo_value _ _ Hl w e Hp) as Hv. by rewrite Hfresh in Hv. }
  set (s0 := set_elts _ _).
  assert (lists_ok s0 X) as Hl0.
  { split; [|apply (lo_disj _ _ Hl)|].
    - intros w. eapply rep_ext; [..|apply (lo_rep _ _ Hl w)]; [|by destruct w..]. intros p Hp. apply lookup_insert_ne. intros E. by eapply Hne.
    - intros w p Hp. cbn. rewrite lookup_insert_ne; [by apply (lo_value _ _ Hl w)|]. intros E. by eapply Hne. }
  destruct (list_PushBack_ok s0 X T1 e Hl0) as (s1 & -> & Hl1 & (D1 & D2 & D3 & D4 & D5 & D6 & D7)).
  { cbn. by rewrite lookup_insert_eq. }
  { intros w Hin. by eapply Hne. }
  cbn in D1, D2, D3, D4, D5, D6, D7. cbn [res_bind]. set (X1 := put T1 (X T1 ++ [e]) X) in *.
  assert (∀ w, X1 w = if decide (T1 = w) then X T1 ++ [e] else X w) as HX by done.
  assert (tlen X1 = tlen X + 1)%Z as Mt by (unfold tlen; change (X1 T1) with (X T1 ++ [e]); change (X1 T2) with (X T2); rewrite length_app; cbn [length]; lia).
  assert (blen X1 = blen X) as Mb by done.
  exists (add_ns 1 s1), X1. split_and!; [done| |done|].
  - split; [by eapply (lists_ok_ext s1); [intros []| |]| |].
    + split; cbn.
      * intros w p Hp. rewrite D1, D2. destruct (decide (p = e)) as [->|Hpe].
        -- exists (mkCE key false false false (Some v)). rewrite !lookup_insert_eq. split_and!; [done| |done]. 
           rewrite HX in Hp. destruct (decide _) as [<-|Hw]; [|by destruct (Hne w e)]. split_and!; [done| |done]. split; [done|by eexists].
        -- destruct (eo_entry _ _ He w p) as (y & Hy & Hfy & Hcy).
           { rewrite HX in Hp. destruct (decide _) as [<-|]; [|done]. apply elem_of_app in Hp as [?|?%list_elem_of_singleton]; done. }
           exists y. rewrite lookup_insert_ne by done. split_and!; [done|done|]. rewrite lookup_insert_ne; [done|]. congruence.
      * intros k p. rewrite D1, D2. intros [[<- <-]|[Hne' Hp]]%lookup_insert_Some.
        -- exists T1, (mkCE key false false false (Some v)). rewrite lookup_insert_eq, HX. split_and!; [|done|done]. rewrite decide_True by done. set_solver.
        -- destruct (eo_cache _ _ He k p Hp) as (w & y & Hin & Hy & Hky). exists w, y. rewrite lookup_insert_ne by (intros <-; by eapply Hne).
           split_and!; [|done|done]. rewrite HX. destruct (decide _) as [<-|]; set_solver.
    + destruct Hn as [Np Nq Nns Nnl Nt Nb]. split; cbn; rewrite ?D3, ?D4, ?D5, ?D6, ?D7, ?Mt, ?Mb; [done|done| |lia|lia|done].
      rewrite D2, HX, decide_True, count_app by done. rewrite (count_single _ _ e (mkCE key false false false (Some v))) by apply lookup_insert_eq.
      rewrite Nns. f_equal. symmetry. apply count_ext. intros p Hp. rewrite lookup_insert_ne; [done|]. intros E. by eapply Hne.
  - intros k. unfold cached. cbn. rewrite D1, D2. destruct (decide (k = key)) as [->|Hkk].
    + rewrite lookup_insert_eq. cbn. by rewrite lookup_insert_eq.
    + rewrite lookup_insert_ne by done. destruct (c_cache s !! k) as [p|] eqn:Ep; [|done]. cbn. rewrite lookup_insert_ne; [done|].
      intros <-. destruct (eo_cache _ _ He k e Ep) as (w & y & Hin & _). by destruct (Hne w e).
Qed.

(** What the two branches of [revive] have in common: the state before the entry joins [t1]. *)
Lemma revive_end nb s X s1 w ys e zs x f v p' q' :
  CartInv nb s X → X w = ys ++ e :: zs → has_value w = false → c_entries s !! e = Some x → (tlen X < c_c s)%Z →
  lists_ok s1 (put w (ys ++ zs) X) → Value <$> c_elts s1 !! e = Some e → (∀ w', e ∉ put w (ys ++ zs) X w') →
  c_cache s1 = c_cache s → c_entries s1 = alter f e (c_entries s) → c_c s1 = c_c s → c_p s1 = p' → c_q s1 = q' →
  c_ns s1 = c_ns s → c_nl s1 = c_nl s → (0 ≤ p' ≤ c_c s)%Z → (0 ≤ q')%Z →
  (∀ x, ce_key (f x) = ce_key x) → frequentbit (f x) = false → filterlong (f x) = true →
  ∃ s' X', (let! s := list_PushBack T1 e s1 in let! s := upd_entry e (λ x, set_refbit false (set_value (Some v) x)) s in Ok (add_nl 1 s)) = Ok s' ∧
    CartInv (nb - 1) s' X' ∧ c_c s' = c_c s ∧ ∀ k, cached s' k = if decide (k = ce_key x) then Some v else cached s k.
Proof.
  intros [Hl He Hn] Ew Hw Hx Ht Hl1 Hv1 Hout E1 E2 E3 E4 E5 E6 E7 Hp Hq Hkey Hfreq Hlong.
  destruct (list_PushBack_ok s1 _ T1 e Hl1 Hv1 Hout) as (s2 & -> & Hl2 & (D1 & D2 & D3 & D4 & D5 & D6 & D7)). cbn [res_bind].
  fold (moved w T1 ys e zs X) in Hl2. set (X2 := moved w T1 ys e zs X) in *.
  pose (g := λ x : XXXCartEntry V, set_refbit false (set_value (Some v) x)). fold g.
  rewrite upd_entry_alter by (rewrite D2, E2, lookup_alter_eq, Hx; by eexists). cbn [res_bind].
  assert (alter g e (c_entries s2) = alter (λ x, g (f x)) e (c_entries s)) as Ee by (rewrite D2, E2; apply alter_alter_eq).
  assert (e ∈ X w) as Hin by (rewrite Ew; set_solver).
  assert (X2 T1 = X T1 ++ [e]) as M1 by (by destruct w). assert (X2 T2 = X T2) as M2 by (by destruct w).
  assert (tlen X2 = tlen X + 1)%Z as Mt by (unfold tlen; rewrite M1, M2, length_app; cbn [length]; lia).
  assert (blen X2 = blen X - 1)%Z as Mb.
  { unfold blen, X2, moved, put. destruct w; try done; repeat first [rewrite decide_True by done|rewrite decide_False by done]; rewrite Ew, !length_app; cbn [length]; lia. }
  assert (e ∉ X T1) as Hn1.
  { intros Hin1. pose proof (lo_disj _ _ Hl w T1 e Hin Hin1) as ->. done. }
  eexists _, X2. split; [reflexivity|]. destruct Hn as [Np Nq Nns Nnl Nt Nb]. split_and!.
  - split.
    + by eapply (lists_ok_ext s2); [intros []| |].
    + eapply (entries_move s _ X _ e T1 (λ x, g (f x))); [done|cbn; congruence|exact Ee|done| |by exists w|by intros; eapply moved_elem].
      intros x0 Hx0. assert (x0 = x) as -> by congruence. split_and!; [done| |done]. split; [done|by eexists].
    + split; cbn; rewrite ?Mt, ?Mb, ?D3, ?D4, ?D5, ?D6, ?D7, ?E3, ?E4, ?E5, ?E6, ?E7; [done|done| |lia|lia|lia].
      rewrite Ee, M1, count_app, count_alter by done. rewrite (count_single _ _ e (g (f x))) by (by rewrite lookup_alter_eq, Hx).
      unfold is_short at 2. cbn. rewrite Hlong. cbn. rewrite <- Nns. lia.
  - cbn. congruence.
  - eapply (cached_set_value s _ X e x (λ x, g (f x))); [done|done|done|cbn; congruence|exact Ee|done].
Qed.

Lemma revive_ok nb s X e x v w :
  CartInv nb s X → e ∈ X w → has_value w = false → c_entries s !! e = Some x → (tlen X < c_c s)%Z →
  ∃ s' X', revive e v s = Ok s' ∧ CartInv (nb - 1) s' X' ∧ c_c s' = c_c s ∧
    ∀ k, cached s' k = if decide (k = ce_key x) then Some v else cached s k.
Proof.
  intros Hi Hin Hw Hx Ht. pose proof Hin as (ys & zs & Ew)%list_elem_of_split.
  pose proof (ci_lists _ _ _ Hi) as Hl. pose proof (ci_nums _ _ _ Hi) as [Np Nq Nns Nnl Nt Nb].
  destruct (CartInv_entry nb s X w e Hi Hin) as (x' & Hex & Hx' & Hfx). assert (x' = x) as -> by congruence.
  unfold revive. rewrite Hex. cbn [res_bind]. destruct Hfx as (Hfreq & _ & Hlong). rewrite Hfreq.
  assert (0 < Z.of_nat (length (X w)))%Z as Hpos by (rewrite Ew, length_app; cbn [length]; lia).
  pose proof (count_bounds is_short (c_entries s) (X T1)) as Hcb. unfold tlen in Nnl, Nt, Ht.
  destruct w; try done; cbn [is_frequent negb].
  - unfold div. rewrite (lists_len s X B1 Hl). destruct (Z.eqb_spec (Z.of_nat (length (X B1))) 0); [lia|]. cbn [res_bind].
    set (p' := IMin _ _). rewrite upd_entry_alter by (cbn; rewrite Hx; by eexists). cbn [res_bind].
    set (s0 := set_entries _ _). assert (lists_ok s0 X) as Hl0 by (by eapply (lists_ok_ext s); [intros []| |]).
    destruct (list_Remove_ok s0 X B1 ys e zs Hl0 Ew) as (s1 & -> & Hl1 & (D1 & D2 & D3 & D4 & D5 & D6 & D7) & Hv1 & Hout). cbn [res_bind].
    eapply (revive_end nb s X s1 B1 ys e zs x (set_filterlong true) v p' (c_q s)); try done.
    unfold p'. rewrite IMin_min, IMax_max. lia.
  - rewrite upd_entry_alter by (rewrite Hx; by eexists). cbn [res_bind]. unfold div.
    change (len B2 _) with (len B2 s) at 1. rewrite (lists_len s X B2 Hl).
    destruct (Z.eqb_spec (Z.of_nat (length (X B2))) 0); [lia|]. cbn [res_bind].
    set (p' := IMax _ _). set (s0 := set_p _ _). assert (lists_ok s0 X) as Hl0 by (by eapply (lists_ok_ext s); [intros []| |]).
    destruct (list_Remove_ok s0 X B2 ys e zs Hl0 Ew) as (s1 & -> & Hl1 & (D1 & D2 & D3 & D4 & D5 & D6 & D7) & Hv1 & Hout). cbn [res_bind].
    pose proof (lists_len s1 _ T1 Hl1) as L1. change (put B2 (ys ++ zs) X T1) with (X T1) in L1. cbn in D1, D2, D3, D4, D5, D6, D7.
    destruct (grow_q_spec s1) as (q' & -> & Hq).
    eapply (revive_end nb s X (set_q q' s1) B2 ys e zs x (set_frequentbit false) v p' q'); try done; [by eapply (lists_ok_ext s1); [intros []| |]| | |by apply Hlong].
    + unfold p'. rewrite !IMax_max. cbn. pose proof (Z.quot_pos (c_nl s) (Z.of_nat (length (X B2)))). lia.
    + apply Hq; [by rewrite D5|]. rewrite L1, D3. lia.
Qed.

(** ** The methods *)

Lemma Cart_Get_ok nb s X k :
  CartInv nb s X → ∃ s', Cart_Get k s = Ok (cached s k, s') ∧ CartInv nb s' X ∧ c_c s' = c_c s ∧ ∀ k', cached s' k' = cached s k'.
Proof.
  intros Hi. unfold Cart_Get. destruct (c_cache s !! k) as [e|] eqn:Ek; [|by exists s; unfold cached; rewrite Ek].
  destruct (eo_cache _ _ (ci_entries _ _ _ Hi) k e Ek) as (w & x & Hin & Hx & Hkx).
  assert (cached s k = ce_value x) as Hc by (unfold cached; rewrite Ek; cbn; by rewrite Hx). rewrite Hc.
  unfold entry. rewrite Hx. cbn [deref res_bind]. destruct (ce_value x) as [v|]; [|by exists s].
  rewrite upd_entry_alter by (rewrite Hx; by eexists). cbn [res_bind].
  eexists. split; [reflexivity|]. destruct Hi as [Hl He Hn]. split_and!; [|done|by apply (cached_move s _ e (set_refbit true))]. split.
  - by eapply (lists_ok_ext s); [intros []| |].
  - eapply (entries_move s _ X X e w (set_refbit true)); [done..| |by exists w|].
    + intros x0 Hx0. destruct (eo_entry _ _ He w e Hin) as (x1 & Hx1 & Hf & _). assert (x1 = x0) as -> by congruence. done.
    + intros w0 p. destruct (decide (p = e)) as [->|Hne]; [|naive_solver]. split; [|naive_solver]. intros Hp. right. split; [done|]. by apply (lo_disj _ _ Hl _ _ e).
  - destruct Hn as [Np Nq Nns Nnl Nt Nb]. split; try done. cbn. rewrite Nns. apply count_ext. intros p _.
    destruct (decide (p = e)) as [->|Hne]; [rewrite lookup_alter_eq; by destruct (c_entries s !! e)|by rewrite lookup_alter_ne].
Qed.

(** Setting a value: the key is answered with it, and at most one other key is lost, only when the
    cache was full and did not hold the key. *)
Lemma Cart_Set_ok s X k v :
  CartInv (c_c s) s X → (0 < c_c s)%Z →
  ∃ s' X' victim, Cart_Set k (Some v) s = Ok s' ∧ CartInv (c_c s) s' X' ∧ c_c s' = c_c s ∧
    (∀ k', cached s' k' = if decide (k' = k) then Some v else if decide (victim = Some k') then None else cached s k') ∧
    ((tlen X < c_c s)%Z ∨ is_Some (cached s k) → victim = None).
Proof.
  intros Hi Hc. unfold Cart_Set. destruct (Z.eqb_spec (c_c s) 0); [lia|]. destruct (c_cache s !! k) as [e|] eqn:Ek.
  - destruct (eo_cache _ _ (ci_entries _ _ _ Hi) k e Ek) as (w & x & Hin & Hx & Hkx).
    assert (cached s k = ce_value x) as Hck by (unfold cached; rewrite Ek; cbn; by rewrite Hx).
    destruct (CartInv_entry _ s X w e Hi Hin) as (x' & Hex & Hx' & Hfx). assert (x' = x) as -> by congruence. rewrite Hex. cbn [res_bind].
    destruct (ce_value x) as [v0|] eqn:Ev.
    + rewrite upd_entry_alter by (rewrite Hx; by eexists). pose (f := λ x : XXXCartEntry V, set_value (Some v) (set_refbit true x)). fold f.
      eexists _, X, None. split; [reflexivity|]. destruct Hi as [Hl He Hn]. split_and!; [|done| |done].
      * split.
        -- by eapply (lists_ok_ext s); [intros []| |].
        -- eapply (entries_move s _ X X e w f); [done..| |by exists w|].
           ++ intros x0 Hx0. assert (x0 = x) as -> by congruence. destruct Hfx as (F1 & F2 & F3). split_and!; [done| |done].
              rewrite <- F2, Ev. split; by eexists.
           ++ intros w0 p. destruct (decide (p = e)) as [->|Hne]; [|naive_solver]. split; [|naive_solver]. intros Hp. right. split; [done|]. by apply (lo_disj _ _ Hl _ _ e).
        -- destruct Hn as [Np Nq Nns Nnl Nt Nb]. split; try done. cbn. rewrite Nns. apply count_ext. intros p _.
           destruct (decide (p = e)) as [->|Hne]; [rewrite lookup_alter_eq; by destruct (c_entries s !! e)|by rewrite lookup_alter_ne].
      * intros k'. rewrite (cached_set_value s _ X e x f (Some v) w He Hin Hx) by done. rewrite Hkx. by destruct (decide _).
    + assert (has_value w = false) as Hw.
      { destruct Hfx as (_ & Hv & _). rewrite Ev in Hv. destruct (has_value w); [|done]. by destruct (proj2 Hv I). }
      destruct (make_room_found s X Hi Hc) as (s1 & X1 & victim & -> & Hi1 & Ec & Eca & Ht & P1 & P2 & Hev & Hvic). cbn [res_bind].
      assert (e ∈ X1 w) as Hin1. { destruct w; try done; eapply elem_of_prefix; done. }
      destruct (eo_entry _ _ (ci_entries _ _ _ Hi1) w e Hin1) as (x1 & Hx1 & Hf1 & Hc1).
      assert (ce_key x1 = k) as Hk1.
      { rewrite Eca in Hc1. destruct (eo_cache _ _ (ci_entries _ _ _ Hi) _ _ Hc1) as (w2 & x2 & _ & Hx2 & Hk2). congruence. }
      destruct (revive_ok (c_c s + 1) s1 X1 e x1 v w) as (s2 & X2 & -> & Hi2 & Ec2 & Hca2); [done|done|done|done|by rewrite Ec|].
      exists s2, X2, victim. split_and!; [done|by replace (c_c s + 1 - 1)%Z with (c_c s) in Hi2 by lia|congruence| |].
      * intros k'. rewrite Hca2, Hk1. destruct (decide _); [done|]. apply Hev.
      * intros [?|[? E]]; [by apply Hvic|congruence].
  - destruct (make_room_fresh s X Hi Hc) as (s1 & X1 & victim & -> & Hi1 & Ec & Eca & Ht & Hev & Hvic). cbn [res_bind].
    destruct (add_fresh_ok (c_c s) s1 X1 k v) as (s2 & X2 & -> & Hi2 & Ec2 & Hca2); [done| |by rewrite Ec|].
    { destruct (c_cache s1 !! k) eqn:E; [|done]. eapply lookup_weaken in E; [|exact Eca]. congruence. }
    exists s2, X2, victim. split_and!; [done|done|congruence| |].
    + intros k'. rewrite Hca2. destruct (decide _); [done|]. apply Hev.
    + intros [?|[? E]]; [by apply Hvic|]. unfold cached in E. by rewrite Ek in E.
Qed.
End props.

(** ** Histories *)

Lemma Cart_Init_ok {V} n : (0 ≤ n)%Z → CartInv n (Cart_Init n : XXXCart V) (λ _, []).
Proof.
  intros Hn. split.
  - split; [intros w; destruct w; apply List0_rep|set_solver..].
  - split; [set_solver|]. intros k p. cbn. by rewrite lookup_empty.
  - split; cbn; lia || done.
Qed.
Lemma Cart_Init_cached {V} n k : cached (Cart_Init n : XXXCart V) k = None.
Proof. done. Qed.

(** The entries of the lists bound the map. *)
Lemma cache_size {V} nb (s : XXXCart V) X : CartInv nb s X → (Z.of_nat (size (c_cache s)) ≤ tlen X + blen X)%Z.
Proof.
  intros Hi. pose (all := X T1 ++ X T2 ++ X B1 ++ X B2). pose (ps := (map_to_list (c_cache s)).*2).
  assert (length ps ≤ length all) as Hle.
  { apply submseteq_length, NoDup_submseteq.
    - apply NoDup_fmap_2_strong; [|apply NoDup_map_to_list]. intros [k1 p1] [k2 p2] H1%elem_of_map_to_list H2%elem_of_map_to_list E. cbn in E. subst p2.
      destruct (eo_cache _ _ (ci_entries _ _ _ Hi) _ _ H1) as (w1 & x1 & _ & Hx1 & <-).
      destruct (eo_cache _ _ (ci_entries _ _ _ Hi) _ _ H2) as (w2 & x2 & _ & Hx2 & <-). congruence.
    - intros p ([k p'] & -> & Hk%elem_of_map_to_list)%list_elem_of_fmap. cbn in *.
      destruct (eo_cache _ _ (ci_entries _ _ _ Hi) _ _ Hk) as (w & _ & Hin & _). unfold all. destruct w; set_solver. }
  unfold ps, all in Hle. rewrite length_fmap, length_map_to_list, !length_app in Hle. unfold tlen, blen. lia.
Qed.

(** The calls of a client: [C_Set k None] clears the key, [C_GetOrCreate k v] has a factory that gives [v]. *)
Inductive cart_op (V : Type) : Type := C_Get (k : string) | C_Set (k : string) (v : option V) | C_GetOrCreate (k : string) (v : option V).
Arguments C_Get {V}.
Arguments C_Set {V}.
Arguments C_GetOrCreate {V}.

(** A call, with its answer and whether the value is a new one. *)
Definition cart_call {V} (op : cart_op V) (s : XXXCart V) : res (list (option V * bool) * XXXCart V) :=
  match op with
  | C_Get k => let! r := Cart_Get k s in Ok ([(r.1, false)], r.2)
  | C_Set k v => let! s := Cart_Set k v s in Ok ([], s)
  | C_GetOrCreate k v => let! r := Cart_GetOrCreate k (λ _, v) s in Ok ([r.1], r.2)
  end.
Fixpoint run_cart {V} (ops : list (cart_op V)) (s : XXXCart V) : res (list (option V * bool) * XXXCart V) :=
  match ops with
  | [] => Ok ([], s)
  | op :: ops' =>
      let! r := cart_call op s in
      let! r' := run_cart ops' r.2 in
      Ok (r.1 ++ r'.1, r'.2)
  end.

(** No call of the history clears a key that has a value in an enabled cache. *)
Definition clears_value {V} (op : cart_op V) (s : XXXCart V) : bool :=
  match op with C_Set k None => negb (c_c s =? 0)%Z && bool_decide (is_Some (cached s k)) | _ => false end.
Fixpoint clears_no_value {V} (ops : list (cart_op V)) (s : XXXCart V) : bool :=
  match ops with
  | [] => true
  | op :: ops' => negb (clears_value op s) && match cart_call op s with Ok r => clears_no_value ops' r.2 | _ => true end
  end.

(** Every answer is nothing or the value last set, and a created value is the one of the factory; [last] are the values last set. *)
Definition put_last {V} (k : string) (v : option V) (last : gmap string V) : gmap string V := partial_alter (λ _, v) k last.
Fixpoint answers_ok {V} (ops : list (cart_op V)) (outs : list (option V * bool)) (last : gmap string V) : Prop :=
  match ops, outs with
  | [], [] => True
  | C_Get k :: ops', (o, created) :: outs' => (o = None ∨ o = last !! k) ∧ created = false ∧ answers_ok ops' outs' last
  | C_Set k v :: ops', _ => answers_ok ops' outs (put_last k v last)
  | C_GetOrCreate k v :: ops', (o, true) :: outs' => o = v ∧ answers_ok ops' outs' (put_last k v last)
  | C_GetOrCreate k v :: ops', (o, false) :: outs' => is_Some o ∧ o = last !! k ∧ answers_ok ops' outs' last
  | _, _ => False
  end.

(** What the client knows of the cache. *)
Definition partial_copy {V} (s : XXXCart V) (last : gmap string V) : Prop := ∀ k, cached s k = None ∨ cached s k = last !! k.

Lemma disabled_empty {V} (s : XXXCart V) X k : CartInv (c_c s) s X → c_c s = 0%Z → cached s k = None.
Proof.
  intros Hi E. destruct (cached s k) as [v'|] eqn:Ek; [|done]. exfalso. unfold cached in Ek.
  destruct (c_cache s !! k) as [e|] eqn:Ee; [|done]. destruct (eo_cache _ _ (ci_entries _ _ _ Hi) _ _ Ee) as (w & x & Hin & _).
  pose proof (ci_nums _ _ _ Hi) as [_ _ _ _ Nt Nb]. unfold tlen, blen in *. destruct (X w) eqn:Ew; [set_solver|].
  destruct w; rewrite Ew in *; cbn [length] in *; lia.
Qed.
Lemma Set_nil_dead {V} (s : XXXCart V) X nb k : CartInv nb s X → cached s k = None → Set_nil k s = Ok s.
Proof.
  intros Hi Hk. unfold Set_nil. destruct (c_cache s !! k) as [e|] eqn:Ee; [|done].
  destruct (eo_cache _ _ (ci_entries _ _ _ Hi) _ _ Ee) as (w & x & _ & Hx & _). unfold entry. rewrite Hx. cbn [deref res_bind].
  unfold cached in Hk. rewrite Ee in Hk. cbn in Hk. rewrite Hx in Hk. cbn in Hk. by rewrite Hk.
Qed.

(** A [Set] of a value, or of nil where there is none, keeps the invariant and the copy. *)
Lemma Cart_Set_last {V} (s : XXXCart V) X k v last :
  CartInv (c_c s) s X → (0 ≤ c_c s)%Z → partial_copy s last → (v = None → c_c s = 0%Z ∨ cached s k = None) →
  ∃ s' X', Cart_Set k v s = Ok s' ∧ CartInv (c_c s) s' X' ∧ c_c s' = c_c s ∧ partial_copy s' (put_last k v last).
Proof.
  intros Hi Hc Hl Hv. unfold put_last. destruct (decide (c_c s = 0%Z)) as [E|Hne].
  { unfold Cart_Set. destruct (Z.eqb_spec (c_c s) 0); [|done]. exists s, X. split_and!; [done..|]. intros k'. left. by eapply disabled_empty. }
  destruct v as [v|].
  - destruct (Cart_Set_ok s X k v Hi) as (s1 & X1 & victim & -> & Hi1 & Ec & Hca & _); [lia|]. exists s1, X1. split_and!; [done..|].
    intros k'. rewrite Hca. destruct (decide (k' = k)) as [->|Hk]; [right; by rewrite lookup_partial_alter_eq|].
    rewrite lookup_partial_alter_ne by done. destruct (decide _); [by left|apply Hl].
  - destruct Hv as [?|Hk]; [done|done|]. exists s, X. unfold Cart_Set. rewrite (Set_nil_dead s X _ k Hi Hk).
    destruct (Z.eqb_spec (c_c s) 0); [done|]. split_and!; [done..|]. intros k'. destruct (decide (k' = k)) as [->|Hkk]; [by left|].
    rewrite lookup_partial_alter_ne by done. apply Hl.
Qed.

Lemma run_cart_ok {V} (ops : list (cart_op V)) s X last :
  CartInv (c_c s) s X → (0 ≤ c_c s)%Z → partial_copy s last → clears_no_value ops s = true →
  ∃ outs s' X', run_cart ops s = Ok (outs, s') ∧ answers_ok ops outs last ∧ CartInv (c_c s) s' X' ∧ c_c s' = c_c s.
Proof.
  revert s X last. induction ops as [|op ops IH]; intros s X last Hi Hc Hl; cbn [run_cart clears_no_value]; [intros _; by exists [], s, X|].
  intros [Hcl Hrest]%andb_true_iff. destruct op as [k|k v|k v]; cbn [cart_call clears_value] in *.
  - destruct (Cart_Get_ok _ s X k Hi) as (s1 & E1 & Hi1 & Ec & Hca). rewrite E1 in *. cbn [res_bind fst snd] in *.
    destruct (IH s1 X last) as (outs & s' & X' & -> & Ha & Hi' & Ec'); [by rewrite Ec|by rewrite Ec|intros k'; rewrite Hca; apply Hl|done|].
    cbn [res_bind]. eexists _, s', X'. split; [done|]. rewrite Ec in *. cbn. auto.
  - destruct (Cart_Set_last s X k v last Hi Hc Hl) as (s1 & X1 & E1 & Hi1 & Ec & Hl1).
    { intros ->. destruct (Z.eqb_spec (c_c s) 0); [by left|right]. cbn in Hcl. by destruct (cached s k). }
    rewrite E1 in *. cbn [res_bind fst snd] in *.
    destruct (IH s1 X1 (put_last k v last)) as (outs & s' & X' & -> & Ha & Hi' & Ec'); [by rewrite Ec|by rewrite Ec|done|done|].
    cbn [res_bind app]. rewrite Ec in *. by exists outs, s', X'.
  - unfold Cart_GetOrCreate in *. destruct (Cart_Get_ok _ s X k Hi) as (s1 & E1 & Hi1 & Ec & Hca). rewrite E1 in *. cbn [res_bind] in *.
    assert (partial_copy s1 last) as Hl0 by (intros k'; rewrite Hca; apply Hl).
    destruct (cached s k) as [v0|] eqn:Ek; cbn [res_bind fst snd] in *.
    + destruct (IH s1 X last) as (outs & s' & X' & -> & Ha & Hi' & Ec'); [by rewrite Ec|by rewrite Ec|done|done|].
      cbn [res_bind]. eexists _, s', X'. split; [done|]. rewrite Ec in *. cbn. destruct (Hl k) as [?|E]; [congruence|].
      rewrite <- E, Ek. by eauto.
    + destruct (Cart_Set_last s1 X k v last) as (s2 & X2 & E2 & Hi2 & Ec2 & Hl2); [by rewrite Ec|by rewrite Ec|done|right; by rewrite Hca|].
      rewrite E2 in *. cbn [res_bind fst snd] in *. rewrite Ec in *.
      destruct (IH s2 X2 (put_last k v last)) as (outs & s' & X' & -> & Ha & Hi' & Ec'); [by rewrite Ec2|by rewrite Ec2|done|done|].
      cbn [res_bind]. rewrite Ec2 in *. eexists _, s', X'. split; [done|]. cbn. by auto.
Qed.

(** C24: the node cache is sound and bounded.  A history of [Get], [Set] and [GetOrCreate] on a cache of size [n], in
    which no [Set] clears (sets to nil) a key that has a value, returns, although replacing an entry loops over the
    lists and divides by their lengths; every answer is nothing or the value last set for the key, and what
    [GetOrCreate] creates is the value of the factory; at most [n] values are held and at most [n] further keys
    remembered.  Clearing a key that has no value is part of the histories; clearing one that has a value breaks the
    cache ([set_nil_breaks_cart]). *)
Theorem cart_sound {V : Type} (n : Z) (ops : list (cart_op V)) :
  (0 ≤ n)%Z → clears_no_value ops (Cart_Init n) = true →
  ∃ outs s, run_cart ops (Cart_Init n) = Ok (outs, s) ∧ answers_ok ops outs ∅ ∧
    (len T1 s + len T2 s ≤ n)%Z ∧ (len B1 s + len B2 s ≤ n)%Z ∧ (Z.of_nat (size (c_cache s)) ≤ 2 * n)%Z.
Proof.
  intros Hn Hcl. destruct (run_cart_ok ops (Cart_Init n) (λ _, []) ∅) as (outs & s & X & E & Ha & Hi & Ec); [by apply Cart_Init_ok|done|by left|done|].
  cbn in Ec, Hi. pose proof (ci_nums _ _ _ Hi) as [_ _ _ _ Nt Nb]. pose proof (cache_size _ s X Hi) as Hsz. pose proof (ci_lists _ _ _ Hi) as Hl.
  exists outs, s. rewrite !(lists_len s X) by done. unfold tlen, blen in *. split_and!; [done|done|lia..].
Qed.

(** A value that was set is found, and setting it costs at most one other value.  From every
    state a client can reach, [Set] returns, the next [Get] of the key gives the value, and the
    answer of at most one other key is lost; none is, if the key was cached or the cache was not
    full. *)
Theorem cart_set_then_get {V : Type} (n : Z) (ops : list (cart_op V)) outs s (k : string) (v : V) :
  (0 < n)%Z → clears_no_value ops (Cart_Init n) = true → run_cart ops (Cart_Init n) = Ok (outs, s) →
  ∃ s' s'' victim, Cart_Set k (Some v) s = Ok s' ∧ Cart_Get k s' = Ok (Some v, s'') ∧
    (∀ k', k' ≠ k → cached s' k' = if decide (victim = Some k') then None else cached s k') ∧
    ((len T1 s + len T2 s < n)%Z ∨ is_Some (cached s k) → victim = None).
Proof.
  intros Hn Hcl E. destruct (run_cart_ok ops (Cart_Init n) (λ _, []) ∅) as (outs' & s' & X & E' & _ & Hi & Ec); [apply Cart_Init_ok; lia|cbn; lia|by left|done|].
  assert (s' = s) as -> by congruence. cbn in Ec, Hi. rewrite <- Ec in Hi.
  destruct (Cart_Set_ok s X k v Hi) as (s1 & X1 & victim & -> & Hi1 & Ec1 & Hca & Hvic); [lia|].
  destruct (Cart_Get_ok _ s1 X1 k Hi1) as (s2 & E2 & _). rewrite Hca, decide_True in E2 by done.
  exists s1, s2, victim. split_and!; [done|done| |].
  - intros k' Hk. rewrite Hca. by rewrite decide_False.
  - rewrite !(lists_len s X) by exact (ci_lists _ _ _ Hi). rewrite <- Ec. exact Hvic.
Qed.

(** Setting nil removes the entry from the list it is not in: the next [Set] of the key divides by
    the length of an empty list. *)
Theorem set_nil_breaks_cart :
  (let! s := Cart_Set "a" (Some 1%Z) (Cart_Init 2) in
   let! s := Cart_Set "a" None s in
   Cart_Set "a" (Some 2%Z) s) = Panic "integer divide by zero".
Proof. vm_compute. reflexivity. Qed.

Module CartWitness.
Definition ops : list (cart_op Z) :=
  [C_Set "a" (Some 1); C_Set "b" (Some 2); C_Get "a"; C_Set "c" (Some 3); C_Set "d" None; C_GetOrCreate "b" (Some 4); C_Get "b";
   C_GetOrCreate "e" None; C_Get "a"; C_Get "c"]%Z.

Lemma cart_sound_witness :
  clears_no_value ops (Cart_Init 2) = true ∧ ∃ outs s, run_cart ops (Cart_Init 2) = Ok (outs, s) ∧ answers_ok ops outs ∅ ∧
    (len T1 s + len T2 s ≤ 2)%Z ∧ (len B1 s + len B2 s ≤ 2)%Z ∧ (Z.of_nat (size (c_cache s)) ≤ 2 * 2)%Z.
Proof. split; [vm_compute; reflexivity|]. apply (cart_sound 2 ops); [lia|vm_compute; reflexivity]. Defined.

Lemma cart_set_then_get_witness :
  ∃ outs s, run_cart ops (Cart_Init 2) = Ok (outs, s) ∧ ∃ s' s'' victim,
    Cart_Set "d" (Some 9%Z) s = Ok s' ∧ Cart_Get "d" s' = Ok (Some 9%Z, s'') ∧
    (∀ k', k' ≠ "d"%string → cached s' k' = if decide (victim = Some k') then None else cached s k') ∧
    ((len T1 s + len T2 s < 2)%Z ∨ is_Some (cached s "d") → victim = None).
Proof.
  eexists _, _. split; [vm_compute; reflexivity|]. eapply (cart_set_then_get 2 ops); [lia|vm_compute; reflexivity..].
Defined.
End CartWitness.
