(* ===== verification/Msgp.v ===== *)
(** * The message-pack primitives the generated encoders use

    The generated files (with names ending in _greenpack_gen.go) call the library github.com/glycerine/greenpack/msgp.
    [Msgp] is what they use of it, [MsgpOk] what its documentation promises: what was appended is
    read back, in the widths of the types, and nothing that is appended starts like nil.

    A reader takes the bytes and returns a value and the rest, or an error.  Readers also
    take the library's [NilBitsStack], which makes every read return a zero value while a nil stands
    for the whole message. *)
From stdpp Require Import base list strings.
From Stdlib Require Import ZArith Lia Ascii.
From S2P Require Import Prelude OrderedMap Util Codec.

(** ** Readers *)

Definition reader (A : Type) : Type := string → gerr (A * string).
Definition rd_ret {A} (a : A) : reader A := λ bts, inr (a, bts).
Definition rd_fail {A} (err : string) : reader A := λ _, inl err.
Definition rd_bind {A B} (m : reader A) (k : A → reader B) : reader B :=
  λ bts, match m bts with inl err => inl err | inr (a, bts) => k a bts end.
Declare Scope reader_scope.
Delimit Scope reader_scope with reader.
Notation "x <~ m ; k" := (rd_bind m (λ x, k)) (at level 100, m at next level, right associativity) : reader_scope.

(** [n] elements, one after the other. *)
Fixpoint rd_n {A} (n : nat) (m : reader A) : reader (list A) :=
  match n with
  | O => rd_ret []
  | S n' => (a <~ m; l <~ rd_n n' m; rd_ret (a :: l))%reader
  end.

(** [bts[1:]] *)
Definition tail1 (bts : string) : string := match bts with EmptyString => "" | String _ bts' => bts' end.
(** The byte that starts an array of [n] elements, [n] below 16. *)
Definition fixarray (n : Z) : ascii := byte_chr (144 + n).

Class Msgp := {
  NilBits : Type;
  nbs_Init : NilBits;
  AlwaysNil : NilBits → bool;
  PushAlwaysNil : string → NilBits → string * NilBits;
  PopAlwaysNil : NilBits → string;
  PeekNil : NilBits → string → bool;
  IsNil : string → bool;
  enc_Nil : string;
  enc_Bool : bool → string;
  enc_Byte : Z → string;
  enc_Int32 : Z → string;
  enc_Uint32 : Z → string;
  enc_Uint64 : Z → string;
  enc_String : string → string;
  enc_Bytes : string → string;
  enc_ArrayHeader : Z → string;
  enc_MapHeader : Z → string;
  ReadNilBytes : NilBits → reader unit;
  ReadBoolBytes : NilBits → reader bool;
  ReadByteBytes : NilBits → reader Z;
  ReadInt32Bytes : NilBits → reader Z;
  ReadUint32Bytes : NilBits → reader Z;
  ReadUint64Bytes : NilBits → reader Z;
  ReadStringBytes : NilBits → reader string;
  ReadBytesBytes : NilBits → reader string;
  ReadArrayHeaderBytes : NilBits → reader Z;
  ReadMapHeaderBytes : NilBits → reader Z;
  NilSize : Z;
  mp_BoolSize : Z;
  ByteSize : Z;
  Int32Size : Z;
  Uint32Size : Z;
  Uint64Size : Z;
  mp_StringPrefixSize : Z;
  BytesPrefixSize : Z;
  mp_ArrayHeaderSize : Z;
  MapHeaderSize : Z
}.

(** ** Ranges of the types *)

Definition is_byte (z : Z) : Prop := (0 ≤ z < 2 ^ 8)%Z.
Definition is_int32 (z : Z) : Prop := (- 2 ^ 31 ≤ z < 2 ^ 31)%Z.
Definition is_uint32 (z : Z) : Prop := (0 ≤ z < 2 ^ 32)%Z.
Definition is_uint64 (z : Z) : Prop := (0 ≤ z < 2 ^ 64)%Z.
(** Lengths that a header can hold. *)
Definition short_string (s : string) : Prop := is_uint32 (Z.of_nat (String.length s)).
Definition short_list {A} (l : list A) : Prop := is_uint32 (Z.of_nat (length l)).

Section append.
Context `{Msgp}.
(** The functions of the library that append to a slice. *)
Definition AppendNil (o : string) : string := o +:+ enc_Nil.
Definition AppendBool (o : string) (b : bool) : string := o +:+ enc_Bool b.
Definition AppendByte (o : string) (z : Z) : string := o +:+ enc_Byte z.
Definition AppendInt32 (o : string) (z : Z) : string := o +:+ enc_Int32 z.
Definition AppendUint32 (o : string) (z : Z) : string := o +:+ enc_Uint32 z.
Definition AppendUint64 (o : string) (z : Z) : string := o +:+ enc_Uint64 z.
Definition AppendString (o : string) (s : string) : string := o +:+ enc_String s.
Definition AppendBytes (o : string) (s : string) : string := o +:+ enc_Bytes s.
Definition AppendArrayHeader (o : string) (n : Z) : string := o +:+ enc_ArrayHeader n.
Definition AppendMapHeader (o : string) (n : Z) : string := o +:+ enc_MapHeader n.
Definition append_byte (o : string) (c : ascii) : string := o +:+ String c "".

(** [msgp.Require(b, n)] only reserves room. *)
Definition Require_ (b : string) (_ : Z) : string := b.

(** The beginning and the end of every UnmarshalMsgWithCfg; the configuration is always nil.  The
    hooks of PreSave and PostLoad have no implementations. *)
Definition unmarshal_top {A} (body : NilBits → reader A) : reader A := λ bts,
  if IsNil bts then
    let '(bts, nbs) := PushAlwaysNil (tail1 bts) nbs_Init in
    match body nbs bts with
    | inl err => inl err
    | inr (z, _) => inr (z, PopAlwaysNil nbs)
    end
  else body nbs_Init bts.

(** An array header and the check of its size. *)
Definition array_of (wanted : Z) (nbs : NilBits) : reader unit :=
  (n <~ ReadArrayHeaderBytes nbs;
   if (n =? wanted)%Z then rd_ret tt else rd_fail "msgp.ArrayError")%reader.

(** A slice: its header, then its elements.  The slice read into is nil; it is resliced to no
    elements when a nil stands for it or when there are none, and stays nil. *)
Definition slice_of {A} (nbs : NilBits) (m : reader A) : reader (option (list A)) :=
  if AlwaysNil nbs then rd_ret None
  else (n <~ ReadArrayHeaderBytes nbs;
        l <~ rd_n (Z.to_nat n) m;
        rd_ret (if (n =? 0)%Z then None else Some l))%reader.

(** A byte slice; [None] when it is nil. *)
Definition bytes_of (nbs : NilBits) : reader (option string) := λ bts,
  if AlwaysNil nbs || IsNil bts then inr (None, if AlwaysNil nbs then bts else tail1 bts)
  else (b <~ ReadBytesBytes nbs; rd_ret (Some b))%reader bts.
End append.

Class MsgpOk `{Msgp} : Prop := {
  Init_AlwaysNil : AlwaysNil nbs_Init = false;
  peek_Nil : ∀ rest, PeekNil nbs_Init (enc_Nil +:+ rest) = true;
  read_Nil : ∀ rest, ReadNilBytes nbs_Init (enc_Nil +:+ rest) = inr (tt, rest);
  read_Bool : ∀ b rest, ReadBoolBytes nbs_Init (enc_Bool b +:+ rest) = inr (b, rest);
  read_Byte : ∀ z rest, is_byte z → ReadByteBytes nbs_Init (enc_Byte z +:+ rest) = inr (z, rest);
  read_Int32 : ∀ z rest, is_int32 z → ReadInt32Bytes nbs_Init (enc_Int32 z +:+ rest) = inr (z, rest);
  read_Uint32 : ∀ z rest, is_uint32 z → ReadUint32Bytes nbs_Init (enc_Uint32 z +:+ rest) = inr (z, rest);
  read_Uint64 : ∀ z rest, is_uint64 z → ReadUint64Bytes nbs_Init (enc_Uint64 z +:+ rest) = inr (z, rest);
  read_String : ∀ s rest, short_string s → ReadStringBytes nbs_Init (enc_String s +:+ rest) = inr (s, rest);
  read_Bytes : ∀ s rest, short_string s → ReadBytesBytes nbs_Init (enc_Bytes s +:+ rest) = inr (s, rest);
  read_ArrayHeader : ∀ n rest, is_uint32 n → ReadArrayHeaderBytes nbs_Init (enc_ArrayHeader n +:+ rest) = inr (n, rest);
  read_fixarray : ∀ n rest, (0 ≤ n < 16)%Z → ReadArrayHeaderBytes nbs_Init (String (fixarray n) rest) = inr (n, rest);
  read_MapHeader : ∀ n rest, is_uint32 n → ReadMapHeaderBytes nbs_Init (enc_MapHeader n +:+ rest) = inr (n, rest);
  nil_fixarray : ∀ n rest, (0 ≤ n < 16)%Z → IsNil (String (fixarray n) rest) = false;
  peek_fixarray : ∀ n rest, (0 ≤ n < 16)%Z → PeekNil nbs_Init (String (fixarray n) rest) = false;
  nil_Byte : ∀ z rest, is_byte z → IsNil (enc_Byte z +:+ rest) = false;
  nil_String : ∀ s rest, short_string s → IsNil (enc_String s +:+ rest) = false;
  nil_Bytes : ∀ s rest, short_string s → IsNil (enc_Bytes s +:+ rest) = false;
  nil_ArrayHeader : ∀ n rest, is_uint32 n → IsNil (enc_ArrayHeader n +:+ rest) = false;
  size_Nil : (Z.of_nat (String.length enc_Nil) ≤ NilSize)%Z;
  size_Bool : ∀ b, (Z.of_nat (String.length (enc_Bool b)) ≤ mp_BoolSize)%Z;
  size_Byte : ∀ z, is_byte z → (Z.of_nat (String.length (enc_Byte z)) ≤ ByteSize)%Z;
  size_Int32 : ∀ z, is_int32 z → (Z.of_nat (String.length (enc_Int32 z)) ≤ Int32Size)%Z;
  size_Uint32 : ∀ z, is_uint32 z → (Z.of_nat (String.length (enc_Uint32 z)) ≤ Uint32Size)%Z;
  size_Uint64 : ∀ z, is_uint64 z → (Z.of_nat (String.length (enc_Uint64 z)) ≤ Uint64Size)%Z;
  size_String : ∀ s, short_string s → (Z.of_nat (String.length (enc_String s)) ≤ mp_StringPrefixSize + Z.of_nat (String.length s))%Z;
  size_Bytes : ∀ s, short_string s → (Z.of_nat (String.length (enc_Bytes s)) ≤ BytesPrefixSize + Z.of_nat (String.length s))%Z;
  size_ArrayHeader : ∀ n, is_uint32 n → (Z.of_nat (String.length (enc_ArrayHeader n)) ≤ mp_ArrayHeaderSize)%Z;
  size_MapHeader : ∀ n, is_uint32 n → (Z.of_nat (String.length (enc_MapHeader n)) ≤ MapHeaderSize)%Z
}.
