(* ===== verification/Encoders.v ===== *)
(** * The generated encoders

    MarshalMsg, UnmarshalMsgWithCfg and Msgsize of every type that is stored
    (src/codec/codec_greenpack_gen.go, src/storage/storage_greenpack_gen.go,
    src/storage/tree/tree_greenpack_gen.go, src/ibtree/ibtree_greenpack_gen.go,
    src/fs/fs_greenpack_gen.go).  The program decodes into fresh variables, so the value read into
    is the zero value.  DecodeMsg and EncodeMsg, the versions on streams, are not used. *)
From stdpp Require Import base list gmap strings.
From Stdlib Require Import ZArith Lia Ascii.
From S2P Require Import Prelude OrderedMap Util IBNode Codec Backend NameInBlock TreeLocation TreeBackend FsState Msgp.
Open Scope reader_scope.

Definition strlen (s : string) : Z := Z.of_nat (String.length s).
Definition listlen {A} (l : list A) : Z := Z.of_nat (length l).
(** [uint32(len(l))] *)
Definition len32 (n : Z) : Z := (n mod 2 ^ 32)%Z.

Section encoders.
Context `{Msgp}.

(** ** codec *)

Definition CompressionType_MarshalMsg (z : CompressionType) (b : string) : string := AppendByte b z.
Definition CompressionType_UnmarshalMsg : reader CompressionType :=
  unmarshal_top (λ nbs, v <~ ReadByteBytes nbs; rd_ret v).
Definition CompressionType_Msgsize (z : CompressionType) : Z := ByteSize.

Definition CompressedData_Msgsize (z : CompressedData) : Z := (1 + ByteSize + BytesPrefixSize + strlen (RawData z))%Z.
Definition CompressedData_MarshalMsg (z : CompressedData) (b : string) : string :=
  let o := Require_ b (CompressedData_Msgsize z) in
  let o := append_byte o (fixarray 2) in
  let o := AppendByte o (cd_CompressionType z) in
  AppendBytes o (RawData z).
Definition CompressedData_UnmarshalMsg : reader CompressedData := unmarshal_top (λ nbs,
  _ <~ array_of 2 nbs;
  ct <~ ReadByteBytes nbs;
  rd <~ bytes_of nbs;
  rd_ret (mkCompressedData ct (default "" rd))).

Definition EncryptedData_Msgsize (z : EncryptedData) : Z :=
  (1 + BytesPrefixSize + strlen (Nonce z) + BytesPrefixSize + strlen (EncryptedDataBytes z))%Z.
Definition EncryptedData_MarshalMsg (z : EncryptedData) (b : string) : string :=
  let o := Require_ b (EncryptedData_Msgsize z) in
  let o := append_byte o (fixarray 2) in
  let o := AppendBytes o (Nonce z) in
  AppendBytes o (EncryptedDataBytes z).
Definition EncryptedData_UnmarshalMsg : reader EncryptedData := unmarshal_top (λ nbs,
  _ <~ array_of 2 nbs;
  n <~ bytes_of nbs;
  ed <~ bytes_of nbs;
  rd_ret (mkEncryptedData (default "" n) (default "" ed))).

(** ** storage *)

Definition BlockStatus_MarshalMsg (z : BlockStatus) (b : string) : string := AppendByte b z.
Definition BlockStatus_UnmarshalMsg : reader BlockStatus := unmarshal_top (λ nbs, v <~ ReadByteBytes nbs; rd_ret v).
Definition BlockStatus_Msgsize (z : BlockStatus) : Z := ByteSize.

Definition BlockMetadata_Msgsize (z : BlockMetadata) : Z := (1 + Int32Size + ByteSize)%Z.
Definition BlockMetadata_MarshalMsg (z : BlockMetadata) (b : string) : string :=
  let o := Require_ b (BlockMetadata_Msgsize z) in
  let o := append_byte o (fixarray 2) in
  let o := AppendInt32 o (RefCount z) in
  AppendByte o (Status z).
Definition BlockMetadata_UnmarshalMsg : reader BlockMetadata := unmarshal_top (λ nbs,
  _ <~ array_of 2 nbs;
  rc <~ ReadInt32Bytes nbs;
  st <~ ReadByteBytes nbs;
  rd_ret (mkMeta rc st)).

(** Go visits the entries of a map in any order: [order]. *)
Definition NameMapBlock_Msgsize (order : namemap → list (string * string)) (z : namemap) : Z :=
  (1 + MapHeaderSize +
   foldr (λ kv s, mp_StringPrefixSize + strlen kv.1 + mp_StringPrefixSize + strlen kv.2 + s) 0 (order z))%Z.
Definition NameMapBlock_MarshalMsg (order : namemap → list (string * string)) (z : namemap) (b : string) : string :=
  let o := Require_ b (NameMapBlock_Msgsize order z) in
  let o := append_byte o (fixarray 1) in
  let o := AppendMapHeader o (len32 (Z.of_nat (size z))) in
  foldl (λ o kv, AppendString (AppendString o kv.1) kv.2) o (order z).
Definition NameMapBlock_UnmarshalMsg : reader namemap := unmarshal_top (λ nbs,
  _ <~ array_of 1 nbs;
  if AlwaysNil nbs then rd_ret ∅
  else
    n <~ ReadMapHeaderBytes nbs;
    kvs <~ rd_n (Z.to_nat n) (k <~ ReadStringBytes nbs; v <~ ReadStringBytes nbs; rd_ret (k, v));
    rd_ret (foldl (λ (m : namemap) kv, <[kv.1 := kv.2]> m) ∅ kvs)).

(** ** storage/tree *)

Definition LocationEntry_Msgsize (z : LocationEntry) : Z := (1 + Uint64Size + Uint64Size)%Z.
Definition LocationEntry_MarshalMsg (z : LocationEntry) (b : string) : string :=
  let o := Require_ b (LocationEntry_Msgsize z) in
  let o := append_byte o (fixarray 2) in
  let o := AppendUint64 o (Offset z) in
  AppendUint64 o (Size z).
(** The fields of an entry, as they are inlined where entries are parts of other types. *)
Definition entry_fields (nbs : NilBits) : reader LocationEntry :=
  _ <~ array_of 2 nbs;
  o <~ ReadUint64Bytes nbs;
  s <~ ReadUint64Bytes nbs;
  rd_ret (mkLE o s).
Definition append_entry (o : string) (le : LocationEntry) : string :=
  AppendUint64 (AppendUint64 (append_byte o (fixarray 2)) (Offset le)) (Size le).
Definition LocationEntry_UnmarshalMsg : reader LocationEntry := unmarshal_top entry_fields.

Definition LocationSlice_Msgsize (z : LocationSlice) : Z :=
  (mp_ArrayHeaderSize + listlen z * (33 + Uint64Size + Uint64Size))%Z.
Definition LocationSlice_MarshalMsg (z : LocationSlice) (b : string) : string :=
  let o := Require_ b (LocationSlice_Msgsize z) in
  let o := AppendArrayHeader o (len32 (listlen z)) in
  foldl append_entry o z.
Definition LocationSlice_UnmarshalMsg : reader (option LocationSlice) :=
  unmarshal_top (λ nbs, slice_of nbs (entry_fields nbs)).

Definition BlockData_Msgsize (z : BlockData) : Z :=
  (1 + BlockMetadata_Msgsize (bd_Meta z) + mp_ArrayHeaderSize + listlen (bd_Location z) * (33 + Uint64Size + Uint64Size))%Z.
Definition BlockData_MarshalMsg (z : BlockData) (b : string) : string :=
  let o := Require_ b (BlockData_Msgsize z) in
  let o := append_byte o (fixarray 2) in
  let o := BlockMetadata_MarshalMsg (bd_Meta z) o in
  let o := AppendArrayHeader o (len32 (listlen (bd_Location z))) in
  foldl append_entry o (bd_Location z).
Definition BlockData_UnmarshalMsg : reader BlockData := unmarshal_top (λ nbs,
  _ <~ array_of 2 nbs;
  md <~ BlockMetadata_UnmarshalMsg;
  ls <~ slice_of nbs (entry_fields nbs);
  rd_ret (mkBlockData md (default [] ls))).

Definition OpEntry_Msgsize (z : OpEntry) : Z := (1 + 1 + Uint64Size + Uint64Size + mp_BoolSize)%Z.
Definition OpEntry_MarshalMsg (z : OpEntry) (b : string) : string :=
  let o := Require_ b (OpEntry_Msgsize z) in
  let o := append_byte o (fixarray 2) in
  let o := append_entry o (op_Location z) in
  AppendBool o (op_Free z).
Definition OpEntry_UnmarshalMsg : reader OpEntry := unmarshal_top (λ nbs,
  _ <~ array_of 2 nbs;
  le <~ entry_fields nbs;
  f <~ ReadBoolBytes nbs;
  rd_ret (mkOpEntry le f)).

Definition OpSlice_Msgsize (z : list OpEntry) : Z := (mp_ArrayHeaderSize + foldr (λ op s, OpEntry_Msgsize op + s) 0 z)%Z.
Definition OpSlice_MarshalMsg (z : list OpEntry) (b : string) : string :=
  let o := Require_ b (OpSlice_Msgsize z) in
  let o := AppendArrayHeader o (len32 (listlen z)) in
  foldl (λ o op, OpEntry_MarshalMsg op o) o z.
Definition OpSlice_UnmarshalMsg : reader (option (list OpEntry)) := unmarshal_top (λ nbs, slice_of nbs OpEntry_UnmarshalMsg).

Definition Superblock_Msgsize (z : Superblock) : Z :=
  (1 + Uint64Size + Uint64Size + Uint64Size +
   mp_ArrayHeaderSize + listlen (RootLocation z) * (33 + Uint64Size + Uint64Size) +
   mp_ArrayHeaderSize + foldr (λ op s, OpEntry_Msgsize op + s) 0 (Pending z) +
   mp_ArrayHeaderSize + listlen (default [] (PendingLocation z)) * (33 + Uint64Size + Uint64Size))%Z.
Definition Superblock_MarshalMsg (z : Superblock) (b : string) : string :=
  let o := Require_ b (Superblock_Msgsize z) in
  let o := append_byte o (fixarray 6) in
  let o := AppendUint64 o (Generation z) in
  let o := AppendUint64 o (BytesUsed z) in
  let o := AppendUint64 o (BytesTotal z) in
  let o := AppendArrayHeader o (len32 (listlen (RootLocation z))) in
  let o := foldl append_entry o (RootLocation z) in
  let o := AppendArrayHeader o (len32 (listlen (Pending z))) in
  let o := foldl (λ o op, OpEntry_MarshalMsg op o) o (Pending z) in
  let o := AppendArrayHeader o (len32 (listlen (default [] (PendingLocation z)))) in
  foldl append_entry o (default [] (PendingLocation z)).
Definition Superblock_UnmarshalMsg : reader Superblock := unmarshal_top (λ nbs,
  _ <~ array_of 6 nbs;
  g <~ ReadUint64Bytes nbs;
  bu <~ ReadUint64Bytes nbs;
  bt <~ ReadUint64Bytes nbs;
  rl <~ slice_of nbs (entry_fields nbs);
  pe <~ slice_of nbs OpEntry_UnmarshalMsg;
  pl <~ slice_of nbs (entry_fields nbs);
  rd_ret (mkSB g bu bt (default [] rl) (default [] pe) pl)).

(** ** ibtree *)

Definition Key_Msgsize (z : Key) : Z := (mp_StringPrefixSize + strlen z)%Z.
Definition Key_MarshalMsg (z : Key) (b : string) : string := AppendString b z.
Definition Key_UnmarshalMsg : reader Key := unmarshal_top (λ nbs, v <~ ReadStringBytes nbs; rd_ret v).

Definition NodeDataChild_Msgsize (z : Key * string) : Z := (1 + mp_StringPrefixSize + strlen z.1 + mp_StringPrefixSize + strlen z.2)%Z.
Definition child_fields (nbs : NilBits) : reader (Key * string) :=
  _ <~ array_of 2 nbs;
  k <~ ReadStringBytes nbs;
  v <~ ReadStringBytes nbs;
  rd_ret (k, v).
Definition NodeDataChild_MarshalMsg (z : Key * string) (b : string) : string :=
  let o := Require_ b (NodeDataChild_Msgsize z) in
  AppendString (AppendString (append_byte o (fixarray 2)) z.1) z.2.
Definition NodeDataChild_UnmarshalMsg : reader (Key * string) := unmarshal_top child_fields.

(** The children are pointers, which may be nil. *)
Definition NodeData_Msgsize (leafy : bool) (children : list (option (Key * string))) : Z :=
  (1 + mp_BoolSize + mp_ArrayHeaderSize +
   foldr (λ oc s, match oc with None => NilSize | Some c => NodeDataChild_Msgsize c end + s) 0 children)%Z.
Definition NodeData_MarshalMsg (leafy : bool) (children : list (option (Key * string))) (b : string) : string :=
  let o := Require_ b (NodeData_Msgsize leafy children) in
  let o := append_byte o (fixarray 2) in
  let o := AppendBool o leafy in
  let o := AppendArrayHeader o (len32 (listlen children)) in
  foldl (λ o oc,
    match oc with
    | None => AppendNil o
    | Some c => AppendString (AppendString (append_byte o (fixarray 2)) c.1) c.2
    end) o children.
(** The pointer read into is nil. *)
Definition child_pointer (nbs : NilBits) : reader (option (Key * string)) := λ bts,
  if PeekNil nbs bts then (_ <~ ReadNilBytes nbs; rd_ret None) bts
  else (c <~ child_fields nbs; rd_ret (Some c)) bts.
Definition NodeData_UnmarshalMsg : reader (bool * list (option (Key * string))) := unmarshal_top (λ nbs,
  _ <~ array_of 2 nbs;
  l <~ ReadBoolBytes nbs;
  cl <~ slice_of nbs (child_pointer nbs);
  rd_ret (l, default [] cl)).

(** ** fs *)

Definition BlockSubType_MarshalMsg (z : Z) (b : string) : string := AppendByte b z.
Definition BlockSubType_UnmarshalMsg : reader Z := unmarshal_top (λ nbs, v <~ ReadByteBytes nbs; rd_ret v).
Definition BlockSubType_Msgsize (z : Z) : Z := ByteSize.

Definition InodeMetaData_Msgsize (z : InodeMetaData) : Z :=
  (1 + Uint32Size + Uint32Size + Uint32Size + Uint32Size + Uint64Size + Uint64Size + Uint64Size + Uint64Size + Uint32Size + Uint64Size)%Z.
Definition InodeMetaData_MarshalMsg (z : InodeMetaData) (b : string) : string :=
  let o := Require_ b (InodeMetaData_Msgsize z) in
  let o := append_byte o (fixarray 10) in
  let o := AppendUint32 o (StMode z) in
  let o := AppendUint32 o (StRdev z) in
  let o := AppendUint32 o (StUid z) in
  let o := AppendUint32 o (StGid z) in
  let o := AppendUint64 o (StAtimeNs z) in
  let o := AppendUint64 o (StCtimeNs z) in
  let o := AppendUint64 o (StMtimeNs z) in
  let o := AppendUint64 o (StSize z) in
  let o := AppendUint32 o (StNlink z) in
  AppendUint64 o (ParentIno z).
Definition InodeMetaData_UnmarshalMsg : reader InodeMetaData := unmarshal_top (λ nbs,
  _ <~ array_of 10 nbs;
  mode <~ ReadUint32Bytes nbs;
  rdev <~ ReadUint32Bytes nbs;
  uid <~ ReadUint32Bytes nbs;
  gid <~ ReadUint32Bytes nbs;
  a <~ ReadUint64Bytes nbs;
  c <~ ReadUint64Bytes nbs;
  m <~ ReadUint64Bytes nbs;
  sz <~ ReadUint64Bytes nbs;
  nl <~ ReadUint32Bytes nbs;
  par <~ ReadUint64Bytes nbs;
  rd_ret (mkIMD mode rdev uid gid a c m sz nl par)).

(** A nil slice is encoded like an empty one. *)
Definition InodeMeta_Msgsize (z : InodeMeta) : Z :=
  (1 + InodeMetaData_Msgsize (im_data z) + BytesPrefixSize + listlen (content (im_Data z)))%Z.
Definition InodeMeta_MarshalMsg (z : InodeMeta) (b : string) : string :=
  let o := Require_ b (InodeMeta_Msgsize z) in
  let o := append_byte o (fixarray 2) in
  let o := InodeMetaData_MarshalMsg (im_data z) o in
  AppendBytes o (String.string_of_list_ascii (content (im_Data z))).
Definition InodeMeta_UnmarshalMsg : reader InodeMeta := unmarshal_top (λ nbs,
  _ <~ array_of 2 nbs;
  md <~ InodeMetaData_UnmarshalMsg;
  d <~ bytes_of nbs;
  rd_ret (mkIM md (String.list_ascii_of_string <$> d))).
End encoders.
