(* ===== verification/EncoderProps.v ===== *)
(** * The generated encoders: round trips and sizes

    [reads m e a]: the reader [m] takes [e] off the front of any bytes and returns [a].  The readers
    of the types are sequences of readers, so their round trips compose; so do the
    bounds of [Msgsize]. *)
From stdpp Require Import base list gmap strings.
From Stdlib Require Import ZArith Lia Ascii.
From S2P Require Import Prelude OrderedMap Util IBNode Codec Backend NameInBlock TreeLocation TreeBackend FsState Msgp Encoders.
Open Scope reader_scope.

(** ** Strings *)

Lemma strlen_app a b : strlen (a +:+ b) = (strlen a + strlen b)%Z.
Proof. unfold strlen. rewrite str_length_app. lia. Qed.
Lemma strlen_nonneg a : (0 ≤ strlen a)%Z.
Proof. unfold strlen. lia. Qed.

(** The encodings of a list one after the other. *)
Definition cat {A} (f : A → string) (l : list A) : string := foldr (λ a s, f a +:+ s) "" l.
Lemma foldl_cat {A} (g : string → A → string) f (l : list A) o :
  (∀ o a, g o a = o +:+ f a) → foldl g o l = o +:+ cat f l.
Proof.
  intros Hg. revert o. induction l as [|a l IH]; intros o; cbn; [by rewrite str_app_nil|].
  rewrite IH, Hg. apply str_app_assoc.
Qed.

(** ** Reading what was written *)

Section reads.
Context `{MsgpOk}.

Definition reads {A} (m : reader A) (e : string) (a : A) : Prop := ∀ rest, m (e +:+ rest) = inr (a, rest).

Lemma reads_ret {A} (a : A) : reads (rd_ret a) "" a.
Proof. done. Qed.
Lemma reads_bind {A B} (m : reader A) (k : A → reader B) e1 e2 a b :
  reads m e1 a → reads (k a) e2 b → reads (x <~ m; k x) (e1 +:+ e2) b.
Proof. intros H1 H2 rest. unfold rd_bind. by rewrite str_app_assoc, H1, H2. Qed.
Lemma reads_last {A B} (m : reader A) (f : A → B) e a b : reads m e a → b = f a → reads (x <~ m; rd_ret (f x)) e b.
Proof. intros H1 -> rest. unfold rd_bind. by rewrite H1. Qed.

Lemma reads_top {A} (body : NilBits → reader A) e a :
  (∀ rest, IsNil (e +:+ rest) = false) → reads (body nbs_Init) e a → reads (unmarshal_top body) e a.
Proof. intros Hn Hb rest. unfold unmarshal_top. by rewrite Hn, Hb. Qed.

Lemma reads_array n : (0 ≤ n < 16)%Z → reads (array_of n nbs_Init) (String (fixarray n) "") tt.
Proof.
  intros Hn rest. unfold array_of, rd_bind. change (String (fixarray n) "" +:+ rest) with (String (fixarray n) rest).
  rewrite read_fixarray by done. by rewrite Z.eqb_refl.
Qed.
Lemma top_array n e rest : (0 ≤ n < 16)%Z → IsNil ((String (fixarray n) "" +:+ e) +:+ rest) = false.
Proof. intros Hn. rewrite str_app_assoc. by apply (nil_fixarray n). Qed.

Lemma reads_n {A} (m : reader A) f l : Forall (λ a, reads m (f a) a) l → reads (rd_n (length l) m) (cat f l) l.
Proof.
  induction 1 as [|a l Ha Hl IH]; [done|]. cbn [length rd_n cat foldr].
  eapply reads_bind; [exact Ha|]. by eapply reads_last.
Qed.

Lemma len32_short {A} (l : list A) : short_list l → len32 (listlen l) = listlen l.
Proof. intros Hl. unfold len32. apply Z.mod_small. exact Hl. Qed.

(** A slice, with nil for the empty one. *)
Definition slice {A} (l : list A) : option (list A) := match l with [] => None | _ => Some l end.
Lemma default_slice {A} (l : list A) : default [] (slice l) = l.
Proof. by destruct l. Qed.

Lemma reads_slice {A} (m : reader A) f l :
  short_list l → Forall (λ a, reads m (f a) a) l →
  reads (slice_of nbs_Init m) (enc_ArrayHeader (len32 (listlen l)) +:+ cat f l) (slice l).
Proof.
  intros Hl Hf. unfold slice_of. rewrite Init_AlwaysNil, len32_short by done.
  eapply reads_bind; [intros rest; by apply read_ArrayHeader|].
  eapply reads_last; [unfold listlen; rewrite Nat2Z.id; by apply reads_n|]. unfold listlen. by destruct l.
Qed.

Lemma reads_bytes s : short_string s → reads (bytes_of nbs_Init) (enc_Bytes s) (Some s).
Proof.
  intros Hs rest. unfold bytes_of. rewrite Init_AlwaysNil, nil_Bytes by done. cbn [orb].
  unfold rd_bind. by rewrite read_Bytes.
Qed.

(** ** The types *)

Definition entry_wf (le : LocationEntry) : Prop := is_uint64 (Offset le) ∧ is_uint64 (Size le).
Definition entries_wf (ls : LocationSlice) : Prop := short_list ls ∧ Forall entry_wf ls.
Definition op_wf (op : OpEntry) : Prop := entry_wf (op_Location op).
Definition ops_wf (ops : list OpEntry) : Prop := short_list ops ∧ Forall op_wf ops.
Definition meta_wf (m : BlockMetadata) : Prop := is_int32 (RefCount m) ∧ is_byte (Status m).
Definition block_wf (bd : BlockData) : Prop := meta_wf (bd_Meta bd) ∧ entries_wf (bd_Location bd).
Definition superblock_wf (sb : Superblock) : Prop :=
  is_uint64 (Generation sb) ∧ is_uint64 (BytesUsed sb) ∧ is_uint64 (BytesTotal sb) ∧ entries_wf (RootLocation sb) ∧
  ops_wf (Pending sb) ∧ entries_wf (default [] (PendingLocation sb)).
Definition imd_wf (m : InodeMetaData) : Prop :=
  is_uint32 (StMode m) ∧ is_uint32 (StRdev m) ∧ is_uint32 (StUid m) ∧ is_uint32 (StGid m) ∧ is_uint64 (StAtimeNs m) ∧
  is_uint64 (StCtimeNs m) ∧ is_uint64 (StMtimeNs m) ∧ is_uint64 (StSize m) ∧ is_uint32 (StNlink m) ∧ is_uint64 (ParentIno m).
Definition child_wf (c : Key * string) : Prop := short_string c.1 ∧ short_string c.2.
Definition children_wf (cl : list (option (Key * string))) : Prop := short_list cl ∧ Forall (λ oc, ∀ c, oc = Some c → child_wf c) cl.

(** The bytes of each type. *)
Definition enc_array (n : Z) (fields : string) : string := String (fixarray n) "" +:+ fields.
Definition enc_entry (le : LocationEntry) : string := enc_array 2 (enc_Uint64 (Offset le) +:+ enc_Uint64 (Size le)).
Definition enc_list {A} (f : A → string) (l : list A) : string := enc_ArrayHeader (len32 (listlen l)) +:+ cat f l.
Definition enc_meta (m : BlockMetadata) : string := enc_array 2 (enc_Int32 (RefCount m) +:+ enc_Byte (Status m)).
Definition enc_block (bd : BlockData) : string := enc_array 2 (enc_meta (bd_Meta bd) +:+ enc_list enc_entry (bd_Location bd)).
Definition enc_op (op : OpEntry) : string := enc_array 2 (enc_entry (op_Location op) +:+ enc_Bool (op_Free op)).
Definition enc_superblock (sb : Superblock) : string :=
  enc_array 6 (enc_Uint64 (Generation sb) +:+ (enc_Uint64 (BytesUsed sb) +:+ (enc_Uint64 (BytesTotal sb) +:+
    (enc_list enc_entry (RootLocation sb) +:+ (enc_list enc_op (Pending sb) +:+ enc_list enc_entry (default [] (PendingLocation sb))))))).
Definition enc_imd (m : InodeMetaData) : string :=
  enc_array 10 (enc_Uint32 (StMode m) +:+ (enc_Uint32 (StRdev m) +:+ (enc_Uint32 (StUid m) +:+ (enc_Uint32 (StGid m) +:+
    (enc_Uint64 (StAtimeNs m) +:+ (enc_Uint64 (StCtimeNs m) +:+ (enc_Uint64 (StMtimeNs m) +:+ (enc_Uint64 (StSize m) +:+
      (enc_Uint32 (StNlink m) +:+ enc_Uint64 (ParentIno m)))))))))).
Definition enc_inode (m : InodeMeta) : string :=
  enc_array 2 (enc_imd (im_data m) +:+ enc_Bytes (String.string_of_list_ascii (content (im_Data m)))).
Definition enc_child (c : Key * string) : string := enc_array 2 (enc_String c.1 +:+ enc_String c.2).
Definition enc_pointer (oc : option (Key * string)) : string := match oc with None => enc_Nil | Some c => enc_child c end.
Definition enc_node (leafy : bool) (cl : list (option (Key * string))) : string := enc_array 2 (enc_Bool leafy +:+ enc_list enc_pointer cl).
Definition enc_compressed (z : CompressedData) : string := enc_array 2 (enc_Byte (cd_CompressionType z) +:+ enc_Bytes (RawData z)).
Definition enc_encrypted (z : EncryptedData) : string := enc_array 2 (enc_Bytes (Nonce z) +:+ enc_Bytes (EncryptedDataBytes z)).
Definition enc_pair (kv : string * string) : string := enc_String kv.1 +:+ enc_String kv.2.
Definition enc_names (order : namemap → list (string * string)) (m : namemap) : string :=
  enc_array 1 (enc_MapHeader (len32 (Z.of_nat (size m))) +:+ cat enc_pair (order m)).

(** *** What MarshalMsg appends *)

Ltac marshals := intros; cbv delta [Require_ AppendNil AppendBool AppendByte AppendInt32 AppendUint32 AppendUint64 AppendString AppendBytes AppendArrayHeader AppendMapHeader append_byte enc_array enc_list] beta zeta; rewrite ?str_app_assoc; reflexivity.

Lemma append_entry_enc o le : append_entry o le = o +:+ enc_entry le.
Proof. unfold append_entry, enc_entry. marshals. Qed.
Lemma marshal_meta m b : BlockMetadata_MarshalMsg m b = b +:+ enc_meta m.
Proof. unfold BlockMetadata_MarshalMsg, enc_meta. marshals. Qed.
Lemma marshal_op op b : OpEntry_MarshalMsg op b = b +:+ enc_op op.
Proof. unfold OpEntry_MarshalMsg, enc_op. rewrite append_entry_enc. marshals. Qed.
Lemma marshal_block bd b : BlockData_MarshalMsg bd b = b +:+ enc_block bd.
Proof.
  unfold BlockData_MarshalMsg, enc_block. rewrite (foldl_cat _ enc_entry), marshal_meta by apply append_entry_enc. marshals.
Qed.
Lemma marshal_superblock sb b : Superblock_MarshalMsg sb b = b +:+ enc_superblock sb.
Proof.
  unfold Superblock_MarshalMsg, enc_superblock. rewrite !(foldl_cat append_entry enc_entry) by apply append_entry_enc.
  rewrite (foldl_cat (λ o op, OpEntry_MarshalMsg op o) enc_op) by (intros; apply marshal_op). marshals.
Qed.
Lemma marshal_ops ops b : OpSlice_MarshalMsg ops b = b +:+ enc_list enc_op ops.
Proof. unfold OpSlice_MarshalMsg. rewrite (foldl_cat _ enc_op) by (intros; apply marshal_op). marshals. Qed.
Lemma marshal_locations ls b : LocationSlice_MarshalMsg ls b = b +:+ enc_list enc_entry ls.
Proof. unfold LocationSlice_MarshalMsg. rewrite (foldl_cat _ enc_entry) by apply append_entry_enc. marshals. Qed.
Lemma marshal_imd m b : InodeMetaData_MarshalMsg m b = b +:+ enc_imd m.
Proof. unfold InodeMetaData_MarshalMsg, enc_imd. marshals. Qed.
Lemma marshal_inode m b : InodeMeta_MarshalMsg m b = b +:+ enc_inode m.
Proof. unfold InodeMeta_MarshalMsg, enc_inode. rewrite marshal_imd. marshals. Qed.
Lemma marshal_node leafy cl b : NodeData_MarshalMsg leafy cl b = b +:+ enc_node leafy cl.
Proof.
  unfold NodeData_MarshalMsg, enc_node. rewrite (foldl_cat _ enc_pointer); [marshals|].
  intros o [c|]; unfold enc_pointer, enc_child; marshals.
Qed.
Lemma marshal_compressed z b : CompressedData_MarshalMsg z b = b +:+ enc_compressed z.
Proof. unfold CompressedData_MarshalMsg, enc_compressed. marshals. Qed.
Lemma marshal_encrypted z b : EncryptedData_MarshalMsg z b = b +:+ enc_encrypted z.
Proof. unfold EncryptedData_MarshalMsg, enc_encrypted. marshals. Qed.
Lemma marshal_names order m b : NameMapBlock_MarshalMsg order m b = b +:+ enc_names order m.
Proof.
  unfold NameMapBlock_MarshalMsg, enc_names. rewrite (foldl_cat _ enc_pair); [marshals|]. intros o kv. unfold enc_pair. marshals.
Qed.

(** *** What UnmarshalMsg reads *)

Ltac rd_prim :=
  first [ eassumption
        | apply reads_array; lia
        | apply reads_bytes; assumption
        | intros rest; apply read_Bool
        | intros rest; apply read_Byte; assumption
        | intros rest; apply read_Int32; assumption
        | intros rest; apply read_Uint32; assumption
        | intros rest; apply read_Uint64; assumption
        | intros rest; apply read_String; assumption ].
(** A record: an array header, then the fields. *)
Ltac rd_fields := repeat (eapply reads_bind; [rd_prim|]); eapply reads_last; [rd_prim|].
Ltac rd_top := apply reads_top; [intros rest; apply top_array; lia|].

Lemma reads_entry le : entry_wf le → reads (entry_fields nbs_Init) (enc_entry le) le.
Proof. intros [H1 H2]. unfold entry_fields, enc_entry, enc_array. rd_fields. by destruct le. Qed.
Lemma reads_entries ls : entries_wf ls → reads (slice_of nbs_Init (entry_fields nbs_Init)) (enc_list enc_entry ls) (slice ls).
Proof. intros [Hl Hf]. apply reads_slice; [done|]. eapply Forall_impl; [exact Hf|]. apply reads_entry. Qed.
Lemma reads_meta m : meta_wf m → reads BlockMetadata_UnmarshalMsg (enc_meta m) m.
Proof. intros [H1 H2]. rd_top. unfold enc_meta, enc_array. rd_fields. by destruct m. Qed.
Lemma reads_block bd : block_wf bd → reads BlockData_UnmarshalMsg (enc_block bd) bd.
Proof.
  intros [H1%reads_meta H2%reads_entries]. rd_top. unfold enc_block, enc_array. rd_fields. rewrite default_slice. by destruct bd.
Qed.
Lemma reads_op op : op_wf op → reads OpEntry_UnmarshalMsg (enc_op op) op.
Proof. intros H1%reads_entry. rd_top. unfold enc_op, enc_array. rd_fields. by destruct op. Qed.
Lemma reads_ops ops : ops_wf ops → reads (slice_of nbs_Init OpEntry_UnmarshalMsg) (enc_list enc_op ops) (slice ops).
Proof. intros [Hl Hf]. apply reads_slice; [done|]. eapply Forall_impl; [exact Hf|]. apply reads_op. Qed.
(** A superblock comes back with nil for an empty list of pending locations. *)
Lemma reads_superblock sb :
  superblock_wf sb →
  reads Superblock_UnmarshalMsg (enc_superblock sb)
    (mkSB (Generation sb) (BytesUsed sb) (BytesTotal sb) (RootLocation sb) (Pending sb) (slice (default [] (PendingLocation sb)))).
Proof.
  intros (H1 & H2 & H3 & H4%reads_entries & H5%reads_ops & H6%reads_entries). rd_top. unfold enc_superblock, enc_array.
  rd_fields. by rewrite !default_slice.
Qed.
Lemma reads_ops_top ops : ops_wf ops → reads OpSlice_UnmarshalMsg (enc_list enc_op ops) (slice ops).
Proof.
  intros Hw. apply reads_top; [|by apply reads_ops]. intros rest. unfold enc_list. rewrite str_app_assoc. apply nil_ArrayHeader.
  rewrite len32_short; apply Hw.
Qed.
Lemma reads_locations_top ls : entries_wf ls → reads LocationSlice_UnmarshalMsg (enc_list enc_entry ls) (slice ls).
Proof.
  intros Hw. apply reads_top; [|by apply reads_entries]. intros rest. unfold enc_list. rewrite str_app_assoc. apply nil_ArrayHeader.
  rewrite len32_short; apply Hw.
Qed.
Lemma reads_imd m : imd_wf m → reads InodeMetaData_UnmarshalMsg (enc_imd m) m.
Proof. intros (H1 & H2 & H3 & H4 & H5 & H6 & H7 & H8 & H9 & H10). rd_top. unfold enc_imd, enc_array. rd_fields. by destruct m. Qed.
Lemma reads_inode m :
  imd_wf (im_data m) → short_string (String.string_of_list_ascii (content (im_Data m))) →
  reads InodeMeta_UnmarshalMsg (enc_inode m) (mkIM (im_data m) (Some (content (im_Data m)))).
Proof.
  intros H1%reads_imd H2. rd_top. unfold enc_inode, enc_array. rd_fields. cbn. by rewrite String.list_ascii_of_string_of_list_ascii.
Qed.
Lemma reads_child c : child_wf c → reads (child_fields nbs_Init) (enc_child c) c.
Proof. intros [H1 H2]. unfold child_fields, enc_child, enc_array. rd_fields. by destruct c. Qed.
Lemma reads_pointer oc : (∀ c, oc = Some c → child_wf c) → reads (child_pointer nbs_Init) (enc_pointer oc) oc.
Proof.
  intros Hw rest. unfold child_pointer. destruct oc as [c|]; cbn [enc_pointer].
  - unfold enc_child, enc_array. rewrite str_app_assoc. change (String (fixarray 2) "" +:+ ?e) with (String (fixarray 2) e).
    rewrite peek_fixarray by lia. unfold rd_bind at 1. specialize (reads_child c (Hw c eq_refl) rest).
    unfold enc_child, enc_array. rewrite str_app_assoc. intros E. change (String (fixarray 2) "" +:+ ?e) with (String (fixarray 2) e) in E. by rewrite E.
  - rewrite peek_Nil. unfold rd_bind. by rewrite read_Nil.
Qed.
Lemma reads_node leafy cl : children_wf cl → reads NodeData_UnmarshalMsg (enc_node leafy cl) (leafy, cl).
Proof.
  intros [Hl Hf]. assert (reads (slice_of nbs_Init (child_pointer nbs_Init)) (enc_list enc_pointer cl) (slice cl)) as H1.
  { apply reads_slice; [done|]. eapply Forall_impl; [exact Hf|]. apply reads_pointer. }
  rd_top. unfold enc_node, enc_array. rd_fields. by rewrite default_slice.
Qed.
Lemma reads_compressed z : is_byte (cd_CompressionType z) → short_string (RawData z) → reads CompressedData_UnmarshalMsg (enc_compressed z) z.
Proof. intros H1 H2. rd_top. unfold enc_compressed, enc_array. rd_fields. by destruct z. Qed.
Lemma reads_encrypted z : short_string (Nonce z) → short_string (EncryptedDataBytes z) → reads EncryptedData_UnmarshalMsg (enc_encrypted z) z.
Proof. intros H1 H2. rd_top. unfold enc_encrypted, enc_array. rd_fields. by destruct z. Qed.

Definition names_wf (m : namemap) : Prop :=
  is_uint32 (Z.of_nat (size m)) ∧ ∀ k v, m !! k = Some v → short_string k ∧ short_string v.

Lemma foldl_insert (l : list (string * string)) (m0 : namemap) :
  NoDup l.*1 → (∀ k, k ∈ l.*1 → m0 !! k = None) → foldl (λ (m : namemap) kv, <[kv.1 := kv.2]> m) m0 l = list_to_map l ∪ m0.
Proof.
  revert m0. induction l as [|[k v] l IH]; intros m0 Hnd Hd; cbn; [by rewrite map_empty_union|].
  apply NoDup_cons in Hnd as [Hk Hnd]. rewrite IH; [|done|].
  - rewrite <- insert_union_l, insert_union_r; [done|]. by apply not_elem_of_list_to_map_1.
  - intros k' Hk'. rewrite lookup_insert_ne by set_solver. apply Hd. set_solver.
Qed.

Lemma reads_names order m :
  order m ≡ₚ map_to_list m → names_wf m → reads NameMapBlock_UnmarshalMsg (enc_names order m) m.
Proof.
  intros Hp [Hs Hw]. rd_top. unfold enc_names, enc_array. eapply reads_bind; [rd_prim|]. cbn beta. rewrite Init_AlwaysNil.
  assert (len32 (Z.of_nat (size m)) = Z.of_nat (length (order m))) as El.
  { unfold len32. rewrite Z.mod_small by exact Hs. by rewrite Hp, length_map_to_list. }
  rewrite El. assert (size m = length (order m)) as Esz by by rewrite Hp, length_map_to_list.
  eapply reads_bind; [intros rest; apply read_MapHeader; by rewrite <- Esz|]. rewrite Nat2Z.id.
  eapply reads_last.
  - apply reads_n. apply Forall_forall. intros [k v] Hin. rewrite Hp in Hin. apply elem_of_map_to_list, Hw in Hin as [H1 H2]. cbn in H1, H2. unfold enc_pair. cbn [fst snd]. rd_fields. done.
  - assert (NoDup (order m).*1) as Hnd by (rewrite Hp; apply NoDup_fst_map_to_list).
    rewrite foldl_insert, map_union_empty by (done || set_solver).
    rewrite (list_to_map_proper _ (map_to_list m)) by done. symmetry. apply list_to_map_to_list.
Qed.

(** ** Sizes *)

Lemma strlen_cat {A} (f : A → string) (g : A → Z) l :
  Forall (λ a, strlen (f a) ≤ g a)%Z l → (strlen (cat f l) ≤ foldr (λ a s, g a + s) 0 l)%Z.
Proof. induction 1 as [|a l Ha Hl IH]; cbn; [done|]. fold (cat f l). rewrite strlen_app. lia. Qed.
Lemma strlen_cat_const {A} (f : A → string) c l :
  Forall (λ a, strlen (f a) ≤ c)%Z l → (strlen (cat f l) ≤ listlen l * c)%Z.
Proof. unfold listlen. induction 1 as [|a l Ha Hl IH]; cbn [cat foldr length]; [done|]. fold (cat f l). rewrite strlen_app. lia. Qed.
Lemma strlen_array n e : strlen (enc_array n e) = (1 + strlen e)%Z.
Proof. unfold enc_array. rewrite strlen_app. done. Qed.
Lemma strlen_list {A} (f : A → string) l b :
  short_list l → (strlen (cat f l) ≤ b)%Z → (strlen (enc_list f l) ≤ mp_ArrayHeaderSize + b)%Z.
Proof.
  intros Hl Hb. unfold enc_list. rewrite strlen_app, len32_short by done. pose proof (size_ArrayHeader _ Hl). unfold strlen, listlen in *. lia.
Qed.

Lemma strlen_entry le : entry_wf le → (strlen (enc_entry le) ≤ 1 + Uint64Size + Uint64Size)%Z.
Proof.
  intros [H1%size_Uint64 H2%size_Uint64]. unfold enc_entry. rewrite strlen_array, strlen_app. unfold strlen. lia.
Qed.
Lemma strlen_entries ls : entries_wf ls → (strlen (enc_list enc_entry ls) ≤ mp_ArrayHeaderSize + listlen ls * (33 + Uint64Size + Uint64Size))%Z.
Proof.
  intros [Hl Hf]. apply strlen_list; [done|]. apply strlen_cat_const. eapply Forall_impl; [exact Hf|]. intros le Hle%strlen_entry. cbn in Hle |- *. lia.
Qed.
Lemma strlen_meta m : meta_wf m → (strlen (enc_meta m) ≤ BlockMetadata_Msgsize m)%Z.
Proof.
  intros [H1%size_Int32 H2%size_Byte]. unfold enc_meta, BlockMetadata_Msgsize. rewrite strlen_array, strlen_app. unfold strlen. lia.
Qed.
Lemma strlen_op op : op_wf op → (strlen (enc_op op) ≤ OpEntry_Msgsize op)%Z.
Proof.
  intros H1%strlen_entry. pose proof (size_Bool (op_Free op)). unfold enc_op, OpEntry_Msgsize. rewrite strlen_array, strlen_app. unfold strlen in *. lia.
Qed.
Lemma strlen_ops ops : ops_wf ops → (strlen (enc_list enc_op ops) ≤ OpSlice_Msgsize ops)%Z.
Proof. intros [Hl Hf]. apply strlen_list; [done|]. apply strlen_cat. eapply Forall_impl; [exact Hf|]. apply strlen_op. Qed.
Lemma strlen_block bd : block_wf bd → (strlen (enc_block bd) ≤ BlockData_Msgsize bd)%Z.
Proof.
  intros [H1%strlen_meta H2%strlen_entries]. unfold enc_block, BlockData_Msgsize. rewrite strlen_array, strlen_app. lia.
Qed.
Lemma strlen_superblock sb : superblock_wf sb → (strlen (enc_superblock sb) ≤ Superblock_Msgsize sb)%Z.
Proof.
  intros (H1%size_Uint64 & H2%size_Uint64 & H3%size_Uint64 & H4%strlen_entries & H5%strlen_ops & H6%strlen_entries).
  unfold enc_superblock, Superblock_Msgsize, OpSlice_Msgsize in *. rewrite strlen_array, !strlen_app. unfold strlen in *. lia.
Qed.
Lemma strlen_imd m : imd_wf m → (strlen (enc_imd m) ≤ InodeMetaData_Msgsize m)%Z.
Proof.
  intros (H1%size_Uint32 & H2%size_Uint32 & H3%size_Uint32 & H4%size_Uint32 & H5%size_Uint64 & H6%size_Uint64 & H7%size_Uint64 & H8%size_Uint64 & H9%size_Uint32 & H10%size_Uint64).
  unfold enc_imd, InodeMetaData_Msgsize. rewrite strlen_array, !strlen_app. unfold strlen. lia.
Qed.
Lemma strlen_of_list l : strlen (String.string_of_list_ascii l) = listlen l.
Proof. unfold strlen, listlen. induction l as [|c l IH]; cbn; lia. Qed.
Lemma strlen_inode m :
  imd_wf (im_data m) → short_string (String.string_of_list_ascii (content (im_Data m))) → (strlen (enc_inode m) ≤ InodeMeta_Msgsize m)%Z.
Proof.
  intros H1%strlen_imd H2%size_Bytes. unfold enc_inode, InodeMeta_Msgsize. rewrite strlen_array, strlen_app, <- strlen_of_list. unfold strlen in *. lia.
Qed.
Lemma strlen_pointer oc :
  (∀ c, oc = Some c → child_wf c) → (strlen (enc_pointer oc) ≤ match oc with None => NilSize | Some c => NodeDataChild_Msgsize c end)%Z.
Proof.
  destruct oc as [c|]; cbn [enc_pointer]; [|intros _; apply size_Nil]. intros Hw. destruct (Hw c eq_refl) as [H1%size_String H2%size_String].
  unfold enc_child, NodeDataChild_Msgsize. rewrite strlen_array, strlen_app. unfold strlen in *. lia.
Qed.
Lemma strlen_node leafy cl : children_wf cl → (strlen (enc_node leafy cl) ≤ NodeData_Msgsize leafy cl)%Z.
Proof.
  intros [Hl Hf]. pose proof (size_Bool leafy). unfold enc_node, NodeData_Msgsize. rewrite strlen_array, strlen_app.
  assert (strlen (enc_list enc_pointer cl) ≤ mp_ArrayHeaderSize +
    foldr (λ oc s, match oc with None => NilSize | Some c => NodeDataChild_Msgsize c end + s) 0 cl)%Z as H2.
  { apply strlen_list; [done|]. apply (strlen_cat _ (λ oc, match oc with None => NilSize | Some c => NodeDataChild_Msgsize c end)).
    eapply Forall_impl; [exact Hf|]. apply strlen_pointer. }
  unfold strlen in *. lia.
Qed.
Lemma strlen_compressed z : is_byte (cd_CompressionType z) → short_string (RawData z) → (strlen (enc_compressed z) ≤ CompressedData_Msgsize z)%Z.
Proof.
  intros H1%size_Byte H2%size_Bytes. unfold enc_compressed, CompressedData_Msgsize. rewrite strlen_array, strlen_app. unfold strlen in *. lia.
Qed.
Lemma strlen_encrypted z : short_string (Nonce z) → short_string (EncryptedDataBytes z) → (strlen (enc_encrypted z) ≤ EncryptedData_Msgsize z)%Z.
Proof.
  intros H1%size_Bytes H2%size_Bytes. unfold enc_encrypted, EncryptedData_Msgsize. rewrite strlen_array, strlen_app. unfold strlen in *. lia.
Qed.
Lemma strlen_names order m : order m ≡ₚ map_to_list m → names_wf m → (strlen (enc_names order m) ≤ NameMapBlock_Msgsize order m)%Z.
Proof.
  intros Hp [Hs Hw]. unfold enc_names, NameMapBlock_Msgsize. rewrite strlen_array, strlen_app.
  assert (len32 (Z.of_nat (size m)) = Z.of_nat (size m)) as -> by (apply Z.mod_small; exact Hs). pose proof (size_MapHeader _ Hs).
  assert (strlen (cat enc_pair (order m)) ≤ foldr (λ kv s, mp_StringPrefixSize + strlen kv.1 + mp_StringPrefixSize + strlen kv.2 + s) 0 (order m))%Z as H2.
  { apply (strlen_cat _ (λ kv, mp_StringPrefixSize + strlen kv.1 + mp_StringPrefixSize + strlen kv.2)%Z). apply Forall_forall. intros [k v] Hin.
    rewrite Hp in Hin. apply elem_of_map_to_list, Hw in Hin as [Hk%size_String Hv%size_String]. unfold enc_pair. cbn [fst snd]. rewrite strlen_app. unfold strlen in *. lia. }
  unfold strlen in *. lia.
Qed.
End reads.

(** ** The theorems *)

(** C23: everything that is stored survives its generated encoder.  For each stored type,
    UnmarshalMsg applied to what MarshalMsg appends, followed by any other bytes, returns the value
    and leaves the other bytes, whenever the fields are in the ranges of their types; an empty or
    nil slice of bytes comes back empty, and an empty list of pending locations as nil. *)
Theorem encoders_roundtrip `{MsgpOk} (rest : string) :
  (∀ z, is_byte (cd_CompressionType z) → short_string (RawData z) →
    CompressedData_UnmarshalMsg (CompressedData_MarshalMsg z "" +:+ rest) = inr (z, rest)) ∧
  (∀ z, short_string (Nonce z) → short_string (EncryptedDataBytes z) →
    EncryptedData_UnmarshalMsg (EncryptedData_MarshalMsg z "" +:+ rest) = inr (z, rest)) ∧
  (∀ z, meta_wf z → BlockMetadata_UnmarshalMsg (BlockMetadata_MarshalMsg z "" +:+ rest) = inr (z, rest)) ∧
  (∀ order z, order z ≡ₚ map_to_list z → names_wf z →
    NameMapBlock_UnmarshalMsg (NameMapBlock_MarshalMsg order z "" +:+ rest) = inr (z, rest)) ∧
  (∀ z, block_wf z → BlockData_UnmarshalMsg (BlockData_MarshalMsg z "" +:+ rest) = inr (z, rest)) ∧
  (∀ z, entries_wf z → LocationSlice_UnmarshalMsg (LocationSlice_MarshalMsg z "" +:+ rest) = inr (slice z, rest)) ∧
  (∀ z, ops_wf z → OpSlice_UnmarshalMsg (OpSlice_MarshalMsg z "" +:+ rest) = inr (slice z, rest)) ∧
  (∀ z, superblock_wf z → Superblock_UnmarshalMsg (Superblock_MarshalMsg z "" +:+ rest) =
    inr (mkSB (Generation z) (BytesUsed z) (BytesTotal z) (RootLocation z) (Pending z) (slice (default [] (PendingLocation z))), rest)) ∧
  (∀ leafy cl, children_wf cl → NodeData_UnmarshalMsg (NodeData_MarshalMsg leafy cl "" +:+ rest) = inr ((leafy, cl), rest)) ∧
  (∀ z, imd_wf (im_data z) → short_string (String.string_of_list_ascii (content (im_Data z))) →
    InodeMeta_UnmarshalMsg (InodeMeta_MarshalMsg z "" +:+ rest) = inr (mkIM (im_data z) (Some (content (im_Data z))), rest)).
Proof.
  split_and!; intros; rewrite ?marshal_compressed, ?marshal_encrypted, ?marshal_meta, ?marshal_names, ?marshal_block, ?marshal_locations,
    ?marshal_ops, ?marshal_superblock, ?marshal_node, ?marshal_inode; cbn [String.app].
  - by apply reads_compressed.
  - by apply reads_encrypted.
  - by apply reads_meta.
  - by apply reads_names.
  - by apply reads_block.
  - by apply reads_locations_top.
  - by apply reads_ops_top.
  - by apply reads_superblock.
  - by apply reads_node.
  - by apply reads_inode.
Qed.

(** C40: Msgsize is an upper bound, as its comment says.  For each stored type, MarshalMsg appends
    at most as many bytes as Msgsize computes, so the room it reserves suffices; the sizes of
    tree nodes, on which splitting and merging decide, bound the blocks that are written. *)
Theorem msgsize_bounds `{MsgpOk} :
  (∀ z, is_byte (cd_CompressionType z) → short_string (RawData z) → (strlen (CompressedData_MarshalMsg z "") ≤ CompressedData_Msgsize z)%Z) ∧
  (∀ z, short_string (Nonce z) → short_string (EncryptedDataBytes z) → (strlen (EncryptedData_MarshalMsg z "") ≤ EncryptedData_Msgsize z)%Z) ∧
  (∀ z, meta_wf z → (strlen (BlockMetadata_MarshalMsg z "") ≤ BlockMetadata_Msgsize z)%Z) ∧
  (∀ order z, order z ≡ₚ map_to_list z → names_wf z → (strlen (NameMapBlock_MarshalMsg order z "") ≤ NameMapBlock_Msgsize order z)%Z) ∧
  (∀ z, block_wf z → (strlen (BlockData_MarshalMsg z "") ≤ BlockData_Msgsize z)%Z) ∧
  (∀ z, entries_wf z → (strlen (LocationSlice_MarshalMsg z "") ≤ LocationSlice_Msgsize z)%Z) ∧
  (∀ z, ops_wf z → (strlen (OpSlice_MarshalMsg z "") ≤ OpSlice_Msgsize z)%Z) ∧
  (∀ z, superblock_wf z → (strlen (Superblock_MarshalMsg z "") ≤ Superblock_Msgsize z)%Z) ∧
  (∀ leafy cl, children_wf cl → (strlen (NodeData_MarshalMsg leafy cl "") ≤ NodeData_Msgsize leafy cl)%Z) ∧
  (∀ z, imd_wf (im_data z) → short_string (String.string_of_list_ascii (content (im_Data z))) →
    (strlen (InodeMeta_MarshalMsg z "") ≤ InodeMeta_Msgsize z)%Z).
Proof.
  split_and!; intros; rewrite ?marshal_compressed, ?marshal_encrypted, ?marshal_meta, ?marshal_names, ?marshal_block, ?marshal_locations,
    ?marshal_ops, ?marshal_superblock, ?marshal_node, ?marshal_inode; cbn [String.app].
  - by apply strlen_compressed.
  - by apply strlen_encrypted.
  - by apply strlen_meta.
  - by apply strlen_names.
  - by apply strlen_block.
  - by apply strlen_entries.
  - by apply strlen_ops.
  - by apply strlen_superblock.
  - by apply strlen_node.
  - by apply strlen_inode.
Qed.

(** ** A concrete library

    The wide formats of MessagePack, which satisfy what is asked of the library. *)
Module WideMsgp.
Definition tag (t : Z) (s : string) : string := String (byte_chr t) s.
Definition rd_tag (t : Z) : reader unit := λ bts,
  match bts with
  | String c bts' => if (chr_byte c =? t)%Z then inr (tt, bts') else inl "msgp.TypeError"
  | EmptyString => inl "msgp.ErrShortBytes"
  end.
Definition rd_be (n : nat) : reader Z := λ bts,
  match be_read n bts, str_from bts n with
  | Ok z, Ok bts' => inr (z, bts')
  | _, _ => inl "msgp.ErrShortBytes"
  end.
Definition rd_str (n : nat) : reader string := λ bts,
  match str_to bts n, str_from bts n with
  | Ok s, Ok bts' => inr (s, bts')
  | _, _ => inl "msgp.ErrShortBytes"
  end.
Definition signed32 (z : Z) : Z := if (z <? 2147483648)%Z then z else (z - 4294967296)%Z.
(** Nothing is read while a nil stands for the message. *)
Definition unless_nil {A} (zero : A) (m : reader A) (nbs : list string) : reader A :=
  match nbs with [] => m | _ => rd_ret zero end.
Definition rd_header (nbs : list string) : reader Z := λ bts,
  match bts with
  | String c bts' =>
      if (144 <=? chr_byte c)%Z && (chr_byte c <=? 159)%Z then inr ((chr_byte c - 144)%Z, bts')
      else (_ <~ rd_tag 221; rd_be 4) bts
  | EmptyString => inl "msgp.ErrShortBytes"
  end.
Definition first_is (t : Z) (bts : string) : bool :=
  match bts with String c _ => (chr_byte c =? t)%Z | EmptyString => false end.

#[export] Instance wide : Msgp := {
  NilBits := list string;
  nbs_Init := [];
  AlwaysNil := λ nbs, match nbs with [] => false | _ => true end;
  PushAlwaysNil := λ bts nbs, (bts, bts :: nbs);
  PopAlwaysNil := λ nbs, default "" (head nbs);
  PeekNil := λ nbs bts, match nbs with [] => first_is 192 bts | _ => true end;
  IsNil := first_is 192;
  enc_Nil := tag 192 "";
  enc_Bool b := tag (if b then 195 else 194) "";
  enc_Byte z := tag 204 (be_bytes 1 z);
  enc_Int32 z := tag 210 (be_bytes 4 z);
  enc_Uint32 z := tag 206 (be_bytes 4 z);
  enc_Uint64 z := tag 207 (be_bytes 8 z);
  enc_String s := tag 219 (be_bytes 4 (strlen s) +:+ s);
  enc_Bytes s := tag 198 (be_bytes 4 (strlen s) +:+ s);
  enc_ArrayHeader n := tag 221 (be_bytes 4 n);
  enc_MapHeader n := tag 223 (be_bytes 4 n);
  ReadNilBytes := unless_nil tt (rd_tag 192);
  ReadBoolBytes := unless_nil false (λ bts, if first_is 195 bts then inr (true, tail1 bts) else (_ <~ rd_tag 194; rd_ret false) bts);
  ReadByteBytes := unless_nil 0%Z (_ <~ rd_tag 204; rd_be 1);
  ReadInt32Bytes := unless_nil 0%Z (_ <~ rd_tag 210; z <~ rd_be 4; rd_ret (signed32 z));
  ReadUint32Bytes := unless_nil 0%Z (_ <~ rd_tag 206; rd_be 4);
  ReadUint64Bytes := unless_nil 0%Z (_ <~ rd_tag 207; rd_be 8);
  ReadStringBytes := unless_nil "" (_ <~ rd_tag 219; n <~ rd_be 4; rd_str (Z.to_nat n));
  ReadBytesBytes := unless_nil "" (_ <~ rd_tag 198; n <~ rd_be 4; rd_str (Z.to_nat n));
  ReadArrayHeaderBytes := rd_header;
  ReadMapHeaderBytes := unless_nil 0%Z (_ <~ rd_tag 223; rd_be 4);
  NilSize := 1; mp_BoolSize := 1; ByteSize := 2; Int32Size := 5; Uint32Size := 5; Uint64Size := 9;
  mp_StringPrefixSize := 5; BytesPrefixSize := 5; mp_ArrayHeaderSize := 5; MapHeaderSize := 5
}.

Lemma rd_be_bytes n z s : (0 ≤ z < width n)%Z → rd_be n (be_bytes n z +:+ s) = inr (z, s).
Proof.
  intros Hz. unfold rd_be. rewrite be_read_bytes by done. rewrite <- (be_bytes_length n z) at 2. by rewrite str_from_app.
Qed.
Lemma rd_str_bytes s rest : rd_str (String.length s) (s +:+ rest) = inr (s, rest).
Proof. unfold rd_str. by rewrite str_to_app, str_from_app. Qed.
Lemma rd_string_enc t s rest :
  (0 ≤ t < 256)%Z → short_string s →
  (_ <~ rd_tag t; n <~ rd_be 4; rd_str (Z.to_nat n)) (tag t (be_bytes 4 (strlen s) +:+ s) +:+ rest) = inr (s, rest).
Proof.
  intros Ht Hs. unfold tag. rewrite str_app_cons. unfold rd_bind at 1. cbn [rd_tag]. rewrite byte_chr_byte, Z.mod_small, Z.eqb_refl by done.
  unfold rd_bind. rewrite str_app_assoc, rd_be_bytes by exact Hs. unfold strlen. rewrite Nat2Z.id. apply rd_str_bytes.
Qed.
Lemma rd_int_enc t n z rest :
  (0 ≤ t < 256)%Z → (0 ≤ z < width n)%Z → (_ <~ rd_tag t; rd_be n) (tag t (be_bytes n z) +:+ rest) = inr (z, rest).
Proof.
  intros Ht Hz. unfold tag. rewrite str_app_cons. unfold rd_bind. cbn [rd_tag]. rewrite byte_chr_byte, Z.mod_small, Z.eqb_refl by done.
  by apply rd_be_bytes.
Qed.
Lemma first_is_tag t t' s : (0 ≤ t' < 256)%Z → first_is t (String (byte_chr t') s) = (t' =? t)%Z.
Proof. intros Ht. cbn [first_is]. by rewrite byte_chr_byte, Z.mod_small. Qed.

#[export] Instance wide_ok : MsgpOk.
Proof.
  split.
  - done.
  - done.
  - done.
  - by intros [].
  - intros z rest Hz. by apply (rd_int_enc 204 1).
  - intros z rest [H1 H2]. cbn -[be_bytes rd_tag rd_be tag]. unfold tag. rewrite str_app_cons. unfold rd_bind at 1. cbn [rd_tag].
    rewrite byte_chr_byte, Z.mod_small, Z.eqb_refl by lia. unfold rd_bind.
    rewrite (be_bytes_mod 4 z (z mod 2 ^ 32)) by (change (width 4) with (2 ^ 32)%Z; by rewrite Z.mod_mod by lia).
    rewrite rd_be_bytes by (apply Z.mod_pos_bound; done). unfold rd_ret, signed32. do 2 f_equal.
    destruct (decide (0 ≤ z)%Z); [rewrite Z.mod_small by lia; destruct (Z.ltb_spec z 2147483648); lia|].
    rewrite <- (Z_mod_plus_full z 1), Z.mod_small by lia. destruct (Z.ltb_spec (z + 1 * 2 ^ 32) 2147483648); lia.
  - intros z rest Hz. by apply (rd_int_enc 206 4).
  - intros z rest Hz. by apply (rd_int_enc 207 8).
  - intros s rest Hs. by apply (rd_string_enc 219).
  - intros s rest Hs. by apply (rd_string_enc 198).
  - intros n rest Hn. cbn -[be_bytes rd_tag rd_be]. unfold tag. rewrite str_app_cons. cbn [rd_header]. rewrite byte_chr_byte. change (221 mod 256)%Z with 221%Z. cbn [Z.leb andb Z.compare].
    by apply (rd_int_enc 221 4).
  - intros n rest Hn. cbn. unfold fixarray. rewrite byte_chr_byte, Z.mod_small by lia.
    destruct (Z.leb_spec 144 (144 + n)); [|lia]. destruct (Z.leb_spec (144 + n) 159); [|lia]. cbn. do 2 f_equal. lia.
  - intros n rest Hn. by apply (rd_int_enc 223 4).
  - intros n rest Hn. cbn [IsNil wide]. unfold fixarray. rewrite first_is_tag by lia. apply Z.eqb_neq. lia.
  - intros n rest Hn. cbn [PeekNil wide nbs_Init]. unfold fixarray. rewrite first_is_tag by lia. apply Z.eqb_neq. lia.
  - done.
  - done.
  - done.
  - done.
  - done.
  - by intros [].
  - intros z _. cbn [enc_Byte wide tag String.length]. rewrite be_bytes_length. done.
  - intros z _. cbn [enc_Int32 wide tag String.length]. rewrite be_bytes_length. done.
  - intros z _. cbn [enc_Uint32 wide tag String.length]. rewrite be_bytes_length. done.
  - intros z _. cbn [enc_Uint64 wide tag String.length]. rewrite be_bytes_length. done.
  - intros s _. cbn [enc_String wide tag String.length mp_StringPrefixSize]. rewrite str_length_app, be_bytes_length. lia.
  - intros s _. cbn [enc_Bytes wide tag String.length BytesPrefixSize]. rewrite str_length_app, be_bytes_length. lia.
  - intros z _. cbn [enc_ArrayHeader wide tag String.length]. rewrite be_bytes_length. done.
  - intros z _. cbn [enc_MapHeader wide tag String.length]. rewrite be_bytes_length. done.
Qed.
End WideMsgp.

Module EncoderWitness.
Import WideMsgp.
Definition sb : Superblock :=
  mkSB 3 131072 1048576 [mkLE 65536 4096] [mkOpEntry (mkLE 70144 512) true; mkOpEntry (mkLE 65536 4608) false] None.
Lemma sb_wf : superblock_wf sb.
Proof.
  unfold superblock_wf, entries_wf, ops_wf, op_wf, entry_wf, short_list, is_uint64, is_uint32. cbn.
  split_and!; try lia; repeat (apply Forall_cons; split; [cbn; lia|]); apply Forall_nil; done.
Qed.
Definition children : list (option (Key * string)) := [Some ("a", "1"); None; Some ("b", "")].
Lemma children_ok : children_wf children.
Proof.
  unfold children_wf, child_wf, short_list, short_string, is_uint32. cbn. split; [lia|].
  repeat (apply Forall_cons; split; [intros ? [= <-] || done; cbn; lia|]). apply Forall_nil. done.
Qed.

Lemma encoders_roundtrip_witness :
  Superblock_UnmarshalMsg (Superblock_MarshalMsg sb "" +:+ "tail") = inr (sb, "tail") ∧
  NodeData_UnmarshalMsg (NodeData_MarshalMsg true children "" +:+ "tail") = inr ((true, children), "tail").
Proof.
  destruct (encoders_roundtrip "tail") as (_ & _ & _ & _ & _ & _ & _ & Hsb & Hnd & _).
  split; [exact (Hsb sb sb_wf)|exact (Hnd true children children_ok)].
Defined.

Lemma msgsize_bounds_witness :
  (strlen (Superblock_MarshalMsg sb "") ≤ Superblock_Msgsize sb)%Z ∧
  (strlen (NodeData_MarshalMsg true children "") ≤ NodeData_Msgsize true children)%Z.
Proof.
  destruct msgsize_bounds as (_ & _ & _ & _ & _ & _ & _ & Hsb & Hnd & _).
  split; [exact (Hsb sb sb_wf)|exact (Hnd true children children_ok)].
Defined.
End EncoderWitness.
