(* ===== verification/TreeFlush.v ===== *)
(** * The tree backend: nodes, flushing and starting (src/storage/tree/tree.go)

    The backend keeps the nodes of its own tree on the device it describes: a node is saved where
    the allocator says, and its id is its location.  [tree_Flush] saves the tree while it already
    works on a temporary copy whose free space changes with every saved node, frees the nodes that
    only the previous tree had, and writes a superblock with the location of the root and the log of
    what the copy did.  [tree_Init] finds the best superblock of a device and applies its log. *)
From stdpp Require Import base list sets strings sorting gmap.
From Stdlib Require Import ZArith Lia Ascii.
From S2P Require Import Prelude OrderedMap Util IBNode IBStack IBTree IBPersist NodeBytes LinkedList Cart Codec Backend TreeLocation TreeBackend.

(** ** What the backend uses of transactions, beyond their operations

    [tx_NewTransaction load root] is a transaction on the tree under [root], whose stored nodes are
    loaded by [load]. *)
Class TxNodes (T : Type) := {
  tx_NewTransaction : (BlockId → option NodeData) → Node → T;
  tx_Root : T → res Node
}.

(** The generated encoders of superblocks and logs, and whether mlog prints anything. *)
Class TreeEnv := {
  tree_msgp :: NodeMsgp;
  sb_MarshalMsg : Superblock → gerr string;
  sb_UnmarshalMsg : string → gerr Superblock;
  ops_MarshalMsg : list OpEntry → gerr string;
  ops_UnmarshalMsg : string → gerr (list OpEntry);
  mlog_IsEnabled : bool
}.

(** ** State

    The fields that [TreeBackend.treeBackend] leaves out. *)
Record nodeBackend (T R : Type) : Type := mkNB {
  nb : treeBackend T R;
  savedRoot : Node;
  unchangedRoot : Node;
  rootBlockId : BlockId;
  nodeDataCache : XXXCart NodeData;
  currentMap : gset string;
  superIndex : Z
}.
Arguments mkNB {T R} _ _ _ _ _ _ _.
Arguments nb {T R} _.
Arguments savedRoot {T R} _.
Arguments unchangedRoot {T R} _.
Arguments rootBlockId {T R} _.
Arguments nodeDataCache {T R} _.
Arguments currentMap {T R} _.
Arguments superIndex {T R} _.

Definition sb_Generation (f : Z → Z) (s : Superblock) : Superblock :=
  mkSB (f (Generation s)) (BytesUsed s) (BytesTotal s) (RootLocation s) (Pending s) (PendingLocation s).
Definition sb_RootLocation (l : LocationSlice) (s : Superblock) : Superblock :=
  mkSB (Generation s) (BytesUsed s) (BytesTotal s) l (Pending s) (PendingLocation s).
Definition sb_PendingLocation (l : option LocationSlice) (s : Superblock) : Superblock :=
  mkSB (Generation s) (BytesUsed s) (BytesTotal s) (RootLocation s) (Pending s) l.

Section code.
Context {T R : Type} `{TxStore T} `{TxNodes T} `{TreeEnv} (codec : Codec R).
(** The pointers of two nodes. *)
Context (ptr_eq : Node → Node → bool).
Abbreviation nbackend := (nodeBackend T R).

Definition upd_nb (f : treeBackend T R → treeBackend T R) (self : nbackend) : nbackend :=
  mkNB (f (nb self)) (savedRoot self) (unchangedRoot self) (rootBlockId self) (nodeDataCache self)
    (currentMap self) (superIndex self).
(** A method of [treeBackend] on the whole. *)
Definition on_nb (f : treeBackend T R → res (treeBackend T R)) (self : nbackend) : res nbackend :=
  let! b := f (nb self) in Ok (upd_nb (λ _, b) self).
Definition set_nodeDataCache (c : XXXCart NodeData) (self : nbackend) : nbackend :=
  mkNB (nb self) (savedRoot self) (unchangedRoot self) (rootBlockId self) c (currentMap self) (superIndex self).
Definition set_currentMap (c : gset string) (self : nbackend) : nbackend :=
  mkNB (nb self) (savedRoot self) (unchangedRoot self) (rootBlockId self) (nodeDataCache self) c (superIndex self).
Definition set_saved (root : Node) (bid : BlockId) (self : nbackend) : nbackend :=
  mkNB (nb self) root (unchangedRoot self) bid (nodeDataCache self) (currentMap self) (superIndex self).
Definition set_unchanged (root : Node) (self : nbackend) : nbackend :=
  mkNB (nb self) (savedRoot self) root (rootBlockId self) (nodeDataCache self) (currentMap self) (superIndex self).
Definition set_superIndex (i : Z) (self : nbackend) : nbackend :=
  mkNB (nb self) (savedRoot self) (unchangedRoot self) (rootBlockId self) (nodeDataCache self) (currentMap self) i.
Definition set_flushing (v : bool) (self : nbackend) : nbackend :=
  upd_nb (λ b, mkTB (sb b) (t b) (p b) v (rnd b)) self.

(** ** Nodes *)

(** A child that refers past the end of the device. *)
Fixpoint sanity_entries (s : Z) (ls : LocationSlice) : res unit :=
  match ls with
  | [] => Ok tt
  | le :: ls' => if (s <? Offset le)%Z then Panic "Out of bounds location in child" else sanity_entries s ls'
  end.
Fixpoint sanity_children (s : Z) (cl : list (Key * string)) : res unit :=
  match cl with
  | [] => Ok tt
  | c :: cl' =>
      let! ls := NewLocationSliceFromBlockId c.2 in
      let! _ := sanity_entries s ls in
      sanity_children s cl'
  end.
Definition sanityCheckNodeData (s : Z) (nd : option NodeData) : res unit :=
  if negb mlog_IsEnabled then Ok tt
  else
    let! nd := deref nd in
    if nd_Leafy nd then Ok tt else sanity_children s (nd_Children nd).

Definition tree_LoadNode (id : BlockId) (self : nbackend) : res (option NodeData * nbackend) :=
  let! r := Cart_Get id (nodeDataCache self) in
  let self := set_nodeDataCache r.2 self in
  match r.1 with
  | Some nd => Ok (Some nd, self)
  | None =>
      let! ls := NewLocationSliceFromBlockId id in
      let! b := ReadData codec ls (nb self) in
      let! nd := NewNodeDataFromBytes (default "" b) in
      let! _ := sanityCheckNodeData (file_Size (p (nb self))) nd in
      let! c := Cart_Set id nd (nodeDataCache self) in
      Ok (nd, set_nodeDataCache c self)
  end.

Definition mark_current (ids : list string) (self : nbackend) : nbackend :=
  set_currentMap (list_to_set ids ∪ currentMap self) self.

Definition tree_SaveNode (nd : NodeData) (self : nbackend) : res (BlockId * nbackend) :=
  let self := if nd_Leafy nd then self else mark_current (map snd (nd_Children nd)) self in
  match EncodeBytes codec (ToBytes nd) "" (rnd (nb self)) with
  | (inl err, _) => Panic "SaveNode unable to encode data"
  | (inr b, rnd') =>
      let! r := allocateSlice (Z.of_nat (String.length b)) (set_rnd rnd' (nb self)) in
      let! tb := WriteData r.1 b r.2 in
      let bid := ToBlockId (default [] r.1) in
      let self := mark_current [bid] (upd_nb (λ _, tb) self) in
      let! c := Cart_Set bid (Some nd) (nodeDataCache self) in
      Ok (bid, set_nodeDataCache c self)
  end.

(** The nodes a transaction can load now. *)
Definition load_of (self : nbackend) (id : BlockId) : option NodeData :=
  match tree_LoadNode id self with Ok r => r.1 | _ => None end.

#[export] Instance tree_nodes : TreeBackend nbackend :=
  {| SaveNode := tree_SaveNode; LoadNode := load_of |}.

Definition newTransaction (root : Node) (self : nbackend) : nbackend :=
  upd_nb (set_t (tx_NewTransaction (load_of self) root)) self.

(** ** Flushing *)

(** The loop over the children of a node. *)
Fixpoint purge_children (purge : NodeData → BlockId → nbackend → res nbackend) (cl : list (Key * string))
  (self : nbackend) : res nbackend :=
  match cl with
  | [] => Ok self
  | c :: cl' =>
      let bid2 := c.2 in
      let! r := tree_LoadNode bid2 self in
      let! nd2 := deref r.1 in
      let! self := purge nd2 bid2 r.2 in
      purge_children purge cl' self
  end.

(** The nodes of the old tree that are not part of the new one are freed; [fuel] bounds the depth. *)
Fixpoint purgeNonCurrent (fuel : nat) (nd : NodeData) (bid : BlockId) (self : nbackend) : res nbackend :=
  match fuel with
  | O => NoFuel
  | S fuel' =>
      if keqb bid "" then Ok self
      else
        let! _ := sanityCheckNodeData (file_Size (p (nb self))) (Some nd) in
        if decide (bid ∈ currentMap self) then Ok self
        else
          let! self :=
            if nd_Leafy nd then Ok self
            else purge_children (purgeNonCurrent fuel') (nd_Children nd) self in
          let! ls := NewLocationSliceFromBlockId bid in
          on_nb (freeSlice ls) self
  end.

(** [b, err := v.MarshalMsg(nil)], then [self.Codec.EncodeBytes(b, nil)]. *)
Definition encode (m : gerr string) (self : nbackend) : res (string * nbackend) :=
  match m with
  | inl err => Panic err
  | inr b =>
      match EncodeBytes codec b "" (rnd (nb self)) with
      | (inl err, _) => Panic err
      | (inr b, rnd') => Ok (b, upd_nb (set_rnd rnd') self)
      end
  end.

(** The log is written to space of its own, which grows until the log with this very allocation
    fits. *)
Fixpoint offload_loop (fuel : nat) (s : Z) (self : nbackend) : res (option LocationSlice * nbackend) :=
  match fuel with
  | O => NoFuel
  | S fuel' =>
      let! r := allocateSlice s (nb self) in
      let self := upd_nb (λ _, r.2) self in
      let! e := encode (ops_MarshalMsg (Pending (sb (nb self)))) self in
      let '(b, self) := (e : string * nbackend) in
      if (Z.of_nat (String.length b) <=? s)%Z then
        let! self := on_nb (WriteData r.1 b) self in Ok (r.1, self)
      else
        let! self := on_nb (freeSlice (default [] r.1)) self in
        offload_loop fuel' (Z.of_nat (String.length b) + 1234) self
  end.

(** The two turns of the loop around the superblock; what is returned is [pending]. *)
Definition writeSuperblock (fuel : nat) (ofs : Z) (self : nbackend) : res (list OpEntry * nbackend) :=
  let! e := encode (sb_MarshalMsg (sb (nb self))) self in
  let '(b, self) := (e : string * nbackend) in
  let n := Z.of_nat (String.length b) in
  if (n <=? superBlockSize)%Z then
    let! self := on_nb (WriteData (Some [mkLE ofs n]) b) self in Ok ([], self)
  else
    let! r := offload_loop fuel (n + 1234) self in
    let pending := Pending (sb (nb r.2)) in
    let self := upd_nb (upd_sb (λ s, sb_Pending (λ _, []) (sb_PendingLocation r.1 s))) r.2 in
    let! e := encode (sb_MarshalMsg (sb (nb self))) self in
    let '(b, self) := (e : string * nbackend) in
    let n := Z.of_nat (String.length b) in
    if (n <=? superBlockSize)%Z then
      let! self := on_nb (WriteData (Some [mkLE ofs n]) b) self in Ok (pending, self)
    else Panic "Too large superblock".

(** The tree is saved, and what only the old one had is freed. *)
Definition flushNodes (fuel : nat) (root : Node) (self : nbackend) : res (Node * BlockId * nbackend) :=
  let self := newTransaction root (set_flushing true self) in
  let! r := CommitTo root self in
  let '(newRoot, bid, self) := (r : Node * BlockId * nbackend) in
  let! self := purgeNonCurrent fuel (data_of_node (savedRoot self)) (rootBlockId self) self in
  Ok (newRoot, bid, self).

(** The superblock of the new tree, before it is written, and where it goes. *)
Definition nextSuperblock (bid : BlockId) (self : nbackend) : res (Z * nbackend) :=
  let! root := NewLocationSliceFromBlockId bid in
  let self := upd_nb (upd_sb (λ s, sb_RootLocation root (sb_Generation (λ g, wrap64 (g + 1)) s))) self in
  let self := set_superIndex (superIndex self + 1)%Z self in
  let! n := numberOfSuperBlocks (nb self) in
  if n =? 0 then Panic "integer divide by zero"
  else Ok (superBlockOffset (Z.to_nat (Z.rem (superIndex self) (Z.of_nat n))), self).

(** The new tree replaces the temporary one, and the log is applied to it. *)
Definition finishFlush (newRoot : Node) (bid : BlockId) (pending : list OpEntry) (self : nbackend) : res nbackend :=
  let self := set_saved newRoot bid self in
  let self := newTransaction newRoot self in
  let self := set_flushing false self in
  let! self :=
    match PendingLocation (sb (nb self)) with
    | None => Ok self
    | Some ls =>
        let self := upd_nb (upd_sb (sb_Pending (λ _, pending))) self in
        let! self := on_nb (freeSlice ls) self in
        Ok (upd_nb (upd_sb (sb_PendingLocation None)) self)
    end in
  let! self := on_nb flushPending self in
  let! root := tx_Root (t (nb self)) in
  Ok (set_currentMap ∅ (set_unchanged root self)).

Definition tree_Flush (fuel : nat) (self : nbackend) : res nbackend :=
  let! root := tx_Root (t (nb self)) in
  if ptr_eq root (unchangedRoot self) then Ok self
  else
    let! r := flushNodes fuel root self in
    let '(newRoot, bid, self) := (r : Node * BlockId * nbackend) in
    let! r := nextSuperblock bid self in
    let! r := writeSuperblock fuel r.1 r.2 in
    finishFlush newRoot bid r.1 r.2.

(** ** Starting *)

(** A superblock as it is read, or nothing when it is invalid or older than [best]. *)
Fixpoint append_free (ls : LocationSlice) (self : nbackend) : nbackend :=
  match ls with
  | [] => self
  | le :: ls' => append_free ls' (upd_nb (λ b, add_used (- BlockSize le) (appendOp le true b)) self)
  end.
Definition readSuperblock (i : nat) (best : option Superblock) (self : nbackend) : res (option Superblock * nbackend) :=
  let! b := ReadData codec [mkLE (superBlockOffset i) superBlockSize] (nb self) in
  match b with
  | None => Ok (best, self)
  | Some b =>
      match sb_UnmarshalMsg b with
      | inl _ => Ok (best, self)
      | inr s =>
          if match best with Some bs => (Generation s <? Generation bs)%Z | None => false end then Ok (best, self)
          else
            match PendingLocation s with
            | None | Some [] => Ok (Some s, self)
            | Some ls =>
                let! b := ReadData codec ls (nb self) in
                match b with
                | None => Ok (best, self)
                | Some b =>
                    match ops_UnmarshalMsg b with
                    | inl _ => Ok (best, self)
                    | inr os =>
                        Ok (Some (sb_PendingLocation None (sb_Pending (λ _, os) s)), append_free ls self)
                    end
                end
            end
      end
  end.
Fixpoint init_loop (slots : list nat) (best : option Superblock) (self : nbackend) : res (option Superblock * nbackend) :=
  match slots with
  | [] => Ok (best, self)
  | i :: slots' => let! r := readSuperblock i best self in init_loop slots' r.1 r.2
  end.

(** The backend before it has looked at the device [f].  The transaction is nil until the end of
    [Init], and not used before. *)
Definition newTreeBackend (cacheSize : Z) (f : inMemoryFile) (r : R) : nbackend :=
  mkNB (mkTB (mkSB 0 0 0 [] [] None) (tx_NewTransaction (λ _, None) NewRoot) f false r)
    NewRoot NewRoot "" (Cart_Init (IOr cacheSize [1234%Z])) ∅ 0.

Definition tree_Init (cacheSize : Z) (f : inMemoryFile) (r : R) : res nbackend :=
  let self := newTreeBackend cacheSize f r in
  let! n := calculateNumberOfSuperBlocks (file_Size f) in
  let! r := init_loop (seq 0 n) None self in
  let '(best, self) := (r : option Superblock * nbackend) in
  match best with
  | None => Ok (newTransaction NewRoot (set_unchanged NewRoot (set_saved NewRoot "" self)))
  | Some s =>
      let bid := ToBlockId (RootLocation s) in
      let! r := tree_LoadNode bid self in
      let! nd := deref r.1 in
      let root := node_of_data (Some bid) nd in
      let self := upd_nb (upd_sb (λ _, s)) (set_saved root bid r.2) in
      let self := newTransaction root (set_unchanged root self) in
      on_nb flushPending self
  end.

End code.
