(* ===== verification/TreeNodes.v ===== *)
(** * Trees of stored nodes

    [ntree] describes a tree that is entirely stored: the ids of its nodes and its entries.  When
    the keys are distinct no node occurs twice, although nothing in the nodes themselves says so.
    [purge_ids] is what purgeNonCurrent frees of such a tree; it meets no node below a current one
    and misses no other.  [flat] describes trees that are partly in memory. *)
From stdpp Require Import base list sets strings sorting gmap.
From Stdlib Require Import ZArith Lia.
From S2P Require Import Prelude OrderedMap Util IBNode IBStack IBTree IBSync.

Abbreviation nodemap := (gmap string NodeData).

(** ** Stored trees *)

Fixpoint ntree (N : nodemap) (h : nat) (bid : string) (ids : list string) (l : list kv) : Prop :=
  ∃ nd, N !! bid = Some nd ∧
  match h with
  | O => nd_Leafy nd = true ∧ ids = [bid] ∧ l = nd_Children nd
  | S h' =>
      nd_Leafy nd = false ∧ nd_Children nd ≠ [] ∧
      ∃ parts, Forall2 (λ c part, part.2 ≠ [] ∧ ntree N h' c.2 part.1 part.2) (nd_Children nd) parts ∧
        ids = bid :: concat parts.*1 ∧ l = concat parts.*2
  end.

Lemma ntree_root N h bid ids l : ntree N h bid ids l → ∃ ids', ids = bid :: ids'.
Proof. destruct h; [intros (nd & _ & _ & -> & _)|intros (nd & _ & _ & _ & parts & _ & -> & _)]; eauto. Qed.
Lemma ntree_root_in N h bid ids l : ntree N h bid ids l → bid ∈ ids.
Proof. intros [ids' ->]%ntree_root. by left. Qed.

(** A stored tree is a function of its root. *)
Lemma ntree_fun N h h' bid ids ids' l l' :
  ntree N h bid ids l → ntree N h' bid ids' l' → h = h' ∧ ids = ids' ∧ l = l'.
Proof.
  revert h' bid ids ids' l l'. induction h as [|h IH]; intros h' bid ids ids' l l'.
  - intros (nd & Hnd & Hl & -> & ->). destruct h' as [|h'].
    + intros (nd' & Hnd' & _ & -> & ->). by simplify_eq.
    + intros (nd' & Hnd' & Hl' & _). simplify_eq. congruence.
  - intros (nd & Hnd & Hl & Hne & parts & HF & -> & ->). destruct h' as [|h'].
    + intros (nd' & Hnd' & Hl' & _). simplify_eq. congruence.
    + intros (nd' & Hnd' & _ & _ & parts' & HF' & -> & ->). simplify_eq.
      assert (parts = parts' ∧ (nd_Children nd ≠ [] → h = h')) as [-> Hh]; [|by rewrite Hh].
      clear Hnd Hl Hne. revert parts' HF'. induction HF as [|c part cl parts [_ Hc] HF IHF]; intros parts' HF'.
      * by inversion HF'.
      * apply Forall2_cons_inv_l in HF' as (part' & parts'' & [_ Hc'] & HF' & ->).
        destruct (IH _ _ _ _ _ _ Hc Hc') as (-> & E1 & E2). destruct part, part'. cbn in *. subst.
        by destruct (IHF _ HF') as [-> _].
Qed.

Lemma elem_of_concat {A} (x : A) ls : x ∈ concat ls ↔ ∃ l, x ∈ l ∧ l ∈ ls.
Proof.
  induction ls as [|l ls IH]; cbn [concat]; [split; [by intros []%not_elem_of_nil|]; by intros (l & _ & []%not_elem_of_nil)|].
  rewrite elem_of_app, IH. setoid_rewrite elem_of_cons. naive_solver.
Qed.

(** The children of an inner node, one by one. *)
Lemma ntree_part (N : nodemap) h (cl : list (Key * string)) parts x :
  Forall2 (λ c part, part.2 ≠ [] ∧ ntree N h c.2 part.1 part.2) cl parts →
  x ∈ concat parts.*1 → ∃ c part, c ∈ cl ∧ part ∈ parts ∧ x ∈ part.1 ∧ part.2 ≠ [] ∧ ntree N h c.2 part.1 part.2.
Proof.
  intros HF Hx. rewrite elem_of_concat in Hx. destruct Hx as (ids & Hx & Hids).
  apply list_elem_of_fmap in Hids as (part & -> & Hpart).
  apply list_elem_of_lookup in Hpart as (i & Hi). destruct (Forall2_lookup_r _ _ _ _ _ HF Hi) as (c & Hc & Hne & Hn).
  exists c, part. split_and!; try done; by eapply list_elem_of_lookup_2.
Qed.

Lemma part_sub {A B} (parts : list (list A * list B)) part : part ∈ parts → part.1 ⊆ concat parts.*1 ∧ part.2 ⊆ concat parts.*2.
Proof.
  intros Hp. split; intros x Hx; apply elem_of_concat; eexists; (split; [exact Hx|]); by apply list_elem_of_fmap_2.
Qed.

(** Every node of a tree is the root of a stored tree, which is lower unless it is the root. *)
Lemma ntree_sub N h bid ids l id :
  ntree N h bid ids l → id ∈ ids →
  ∃ h' ids' l', ntree N h' id ids' l' ∧ ids' ⊆ ids ∧ l' ⊆ l ∧ (id = bid ∨ h' < h ∧ l' ≠ []).
Proof.
  revert bid ids l. induction h as [|h IH]; intros bid ids l Hn Hid.
  - pose proof Hn as (nd & _ & _ & -> & _). apply list_elem_of_singleton in Hid as ->. exists 0, [bid], l. by split_and!; [..|left].
  - pose proof Hn as (nd & Hnd & Hl & Hne & parts & HF & -> & ->). apply elem_of_cons in Hid as [->|Hid].
    + exists (S h), (bid :: concat parts.*1), (concat parts.*2). by split_and!; [..|left].
    + destruct (ntree_part _ _ _ _ _ HF Hid) as (c & part & Hc & Hp & Hx & Hpne & Hpn).
      destruct (part_sub _ _ Hp) as [Hs1 Hs2]. destruct (IH _ _ _ Hpn Hx) as (h' & ids' & l' & Hn' & Hi' & Hl' & Hor).
      exists h', ids', l'. split_and!; [done|set_solver|set_solver|right].
      destruct Hor as [->|[Hlt Hn2]]; [|split; [lia|done]].
      destruct (ntree_fun _ _ _ _ _ _ _ _ Hn' Hpn) as (-> & _ & ->). split; [lia|done].
Qed.

Lemma concat_NoDup_split {A B} (parts : list (list A * list B)) i j part part' (f : B → A) b :
  NoDup (f <$> concat parts.*2) → parts !! i = Some part → parts !! j = Some part' →
  b ∈ part.2 → b ∈ part'.2 → i = j.
Proof.
  revert i j. induction parts as [|q parts IH]; intros i j Hnd Hi Hj Hb Hb'; [done|].
  cbn [fmap list_fmap concat] in Hnd. rewrite fmap_app in Hnd. apply NoDup_app in Hnd as (_ & Hdis & Hnd).
  assert (∀ k part0, parts !! k = Some part0 → b ∈ part0.2 → b ∈ concat parts.*2) as Hin.
  { intros k part0 Hk Hb0. apply (part_sub parts part0); [by eapply list_elem_of_lookup_2|done]. }
  destruct i as [|i], j as [|j]; cbn in Hi, Hj; simplify_eq; try done.
  - destruct (Hdis (f b)); [by apply list_elem_of_fmap_2|]. apply list_elem_of_fmap_2. by eapply Hin.
  - destruct (Hdis (f b)); [by apply list_elem_of_fmap_2|]. apply list_elem_of_fmap_2. by eapply Hin.
  - f_equal. by eapply IH.
Qed.

(** Different children of a node have no node in common. *)
Lemma ntree_siblings (N : nodemap) h (cl : list (Key * string)) parts i j part part' id :
  Forall2 (λ c part, part.2 ≠ [] ∧ ntree N h c.2 part.1 part.2) cl parts →
  NoDup (fst <$> concat parts.*2) →
  parts !! i = Some part → parts !! j = Some part' → id ∈ part.1 → id ∈ part'.1 → i = j.
Proof.
  intros HF Hnd Hi Hj Hx Hx'.
  destruct (Forall2_lookup_r _ _ _ _ _ HF Hi) as (c & _ & Hne & Hn).
  destruct (Forall2_lookup_r _ _ _ _ _ HF Hj) as (c' & _ & Hne' & Hn').
  destruct (ntree_sub _ _ _ _ _ _ Hn Hx) as (h1 & ids1 & l1 & H1 & _ & Hs1 & Ho1).
  destruct (ntree_sub _ _ _ _ _ _ Hn' Hx') as (h2 & ids2 & l2 & H2 & _ & Hs2 & _).
  destruct (ntree_fun _ _ _ _ _ _ _ _ H1 H2) as (<- & <- & <-).
  assert (l1 ≠ []) as Hl1.
  { destruct Ho1 as [->|[_ ?]]; [|done]. by destruct (ntree_fun _ _ _ _ _ _ _ _ H1 Hn) as (_ & _ & ->). }
  destruct l1 as [|b l1]; [done|]. apply (concat_NoDup_split parts i j part part' fst b); set_solver.
Qed.

Lemma NoDup_concat {A} (ls : list (list A)) :
  Forall NoDup ls → (∀ i j l l' x, ls !! i = Some l → ls !! j = Some l' → x ∈ l → x ∈ l' → i = j) → NoDup (concat ls).
Proof.
  induction 1 as [|l ls Hl HF IH]; intros Hd; [by apply NoDup_nil_2|]. cbn [concat]. apply NoDup_app. split_and!; [done| |].
  - intros x Hx Hx'. rewrite elem_of_concat in Hx'. destruct Hx' as (l' & Hx' & [j Hj]%list_elem_of_lookup).
    by specialize (Hd 0 (S j) l l' x eq_refl Hj Hx Hx').
  - apply IH. intros i j l1 l2 x Hi Hj H1 H2. by injection (Hd (S i) (S j) l1 l2 x Hi Hj H1 H2).
Qed.

(** With distinct keys no node occurs twice. *)
Lemma ntree_NoDup N h bid ids l : ntree N h bid ids l → NoDup l.*1 → NoDup ids.
Proof.
  revert bid ids l. induction h as [|h IH]; intros bid ids l.
  - intros (nd & _ & _ & -> & _) _. apply NoDup_singleton.
  - intros Hn Hnd. pose proof Hn as (nd & Hb & Hl & Hne & parts & HF & -> & ->). apply NoDup_cons. split.
    + intros Hin. destruct (ntree_part _ _ _ _ _ HF Hin) as (c & part & _ & _ & Hx & _ & Hpn).
      destruct (ntree_sub _ _ _ _ _ _ Hpn Hx) as (h' & ids' & l' & Hn' & _ & _ & Hor).
      destruct (ntree_fun _ _ _ _ _ _ _ _ Hn Hn') as (<- & _ & _).
      destruct Hor as [->|[? _]]; [|lia]. destruct (ntree_fun _ _ _ _ _ _ _ _ Hn Hpn). lia.
    + apply NoDup_concat.
      * apply Forall_forall. intros ids Hids. apply list_elem_of_fmap in Hids as (part & -> & Hp).
        apply list_elem_of_lookup in Hp as [i Hi]. destruct (Forall2_lookup_r _ _ _ _ _ HF Hi) as (c & _ & _ & Hpn).
        apply (IH _ _ _ Hpn). apply list_elem_of_lookup_2 in Hi.
        apply (list_elem_of_fmap_2 snd), list_elem_of_split in Hi as (l1 & l2 & E). rewrite E in Hnd.
        rewrite concat_app in Hnd. cbn [concat] in Hnd. rewrite !fmap_app in Hnd.
        apply NoDup_app in Hnd as (_ & _ & Hnd). by apply NoDup_app in Hnd as (? & _).
      * intros i j l1 l2 x Hi Hj Hx Hx'. rewrite list_lookup_fmap in Hi, Hj.
        destruct (parts !! i) as [p1|] eqn:E1, (parts !! j) as [p2|] eqn:E2; try done. cbn in Hi, Hj. simplify_eq.
        by eapply (ntree_siblings N h _ parts i j p1 p2 x).
Qed.

(** A tree depends on its own nodes only. *)
Lemma ntree_restrict N N' h bid ids l :
  ntree N h bid ids l → (∀ id, id ∈ ids → N' !! id = N !! id) → ntree N' h bid ids l.
Proof.
  revert bid ids l. induction h as [|h IH]; intros bid ids l.
  - intros (nd & Hb & Hl & -> & ->) HN. exists nd. rewrite HN by (by left). done.
  - intros (nd & Hb & Hl & Hne & parts & HF & -> & ->) HN. exists nd. rewrite HN by (by left). split_and!; [done..|].
    exists parts. split_and!; [|done..]. assert (∀ part, part ∈ parts → ∀ id, id ∈ part.1 → N' !! id = N !! id) as HN'.
    { intros part Hp id Hid. apply HN. right. by apply (part_sub parts part). }
    clear -HF HN' IH. induction HF as [|c part cl parts [Hpne Hpn] HF IHF]; constructor.
    + split; [done|]. apply IH; [done|]. apply HN'. by left.
    + apply IHF. intros q Hq. apply HN'. by right.
Qed.

Lemma ntree_mono N N' h bid ids l : N ⊆ N' → ntree N h bid ids l → ntree N' h bid ids l.
Proof.
  intros HN Hn. apply (ntree_restrict N N'); [done|]. intros id Hid.
  destruct (ntree_sub _ _ _ _ _ _ Hn Hid) as (h' & ids' & l' & Hn' & _).
  assert (is_Some (N !! id)) as [nd Hnd]. { destruct h'; destruct Hn' as (nd & -> & _); eauto. }
  rewrite Hnd. by eapply lookup_weaken.
Qed.

Lemma ntree_dom N h bid ids l : ntree N h bid ids l → ∀ id, id ∈ ids → is_Some (N !! id).
Proof.
  intros Hn id Hid. destruct (ntree_sub _ _ _ _ _ _ Hn Hid) as (h' & ids' & l' & Hn' & _).
  destruct h'; destruct Hn' as (nd & -> & _); eauto.
Qed.

(** ** What is freed of a tree *)

Fixpoint purge_ids (N : nodemap) (cur : gset string) (h : nat) (bid : string) : list string :=
  if decide (bid ∈ cur) then []
  else
    match N !! bid with
    | None => []
    | Some nd =>
        (match h with
         | O => []
         | S h' => concat (map (λ c, purge_ids N cur h' c.2) (nd_Children nd))
         end) ++ [bid]
    end.

Lemma purge_ids_sub N cur h bid ids l : ntree N h bid ids l → purge_ids N cur h bid ⊆ ids.
Proof.
  revert bid ids l. induction h as [|h IH]; intros bid ids l.
  - intros (nd & Hb & _ & -> & _). cbn [purge_ids]. rewrite Hb. destruct (decide _); set_solver.
  - intros (nd & Hb & _ & _ & parts & HF & -> & _). cbn [purge_ids]. rewrite Hb. destruct (decide _); [set_solver|].
    intros x Hx. apply elem_of_app in Hx as [Hx|Hx]; [|set_solver]. right.
    apply elem_of_concat in Hx as (ids & Hx & Hids). apply list_elem_of_fmap in Hids as (c & -> & [i Hi]%list_elem_of_lookup).
    destruct (Forall2_lookup_l _ _ _ _ _ HF Hi) as (part & Hp & _ & Hpn).
    apply (part_sub parts part); [by eapply list_elem_of_lookup_2|]. by apply (IH _ _ _ Hpn).
Qed.

(** No freed node lies below a current one. *)
Lemma purge_ids_safe N cur h bid ids l id r hr idsr lr :
  ntree N h bid ids l → NoDup l.*1 → id ∈ purge_ids N cur h bid →
  r ∈ ids → r ∈ cur → ntree N hr r idsr lr → id ∉ idsr.
Proof.
  revert bid ids l. induction h as [|h IH]; intros bid ids l Hn Hnd Hid Hr Hcur Hnr Hin.
  - pose proof Hn as (nd & Hb & _ & -> & _). apply list_elem_of_singleton in Hr as ->.
    cbn [purge_ids] in Hid. rewrite decide_True in Hid by done. set_solver.
  - pose proof Hn as (nd & Hb & _ & _ & parts & HF & -> & ->). cbn [purge_ids] in Hid. rewrite Hb in Hid.
    destruct (decide (bid ∈ cur)) as [|Hbc]; [set_solver|].
    apply elem_of_cons in Hr as [->|Hr]; [done|]. apply elem_of_concat in Hr as (ids & Hr & Hids).
    apply list_elem_of_fmap in Hids as (part & -> & [j Hj]%list_elem_of_lookup).
    destruct (Forall2_lookup_r _ _ _ _ _ HF Hj) as (c' & Hc' & _ & Hpn).
    assert (idsr ⊆ part.1) as Hsub.
    { destruct (ntree_sub _ _ _ _ _ _ Hpn Hr) as (h' & ids' & l' & Hn' & Hs & _).
      by destruct (ntree_fun _ _ _ _ _ _ _ _ Hn' Hnr) as (_ & -> & _). }
    apply elem_of_app in Hid as [Hid|Hid]; [|apply list_elem_of_singleton in Hid as ->].
    + apply elem_of_concat in Hid as (ids & Hid & Hids). apply list_elem_of_fmap in Hids as (c & -> & [i Hi]%list_elem_of_lookup).
      destruct (Forall2_lookup_l _ _ _ _ _ HF Hi) as (part' & Hp' & _ & Hpn').
      assert (i = j) as ->.
      { apply (ntree_siblings N h _ parts i j part' part id HF Hnd Hp' Hj); [by apply (purge_ids_sub N cur h _ _ _ Hpn')|set_solver]. }
      simplify_eq. apply (IH _ _ _ Hpn); try done.
      apply (list_elem_of_lookup_2 parts), (list_elem_of_fmap_2 snd), list_elem_of_split in Hj as (l1 & l2 & E). rewrite E, concat_app in Hnd.
      cbn [concat] in Hnd. rewrite !fmap_app in Hnd.
      apply NoDup_app in Hnd as (_ & _ & Hnd). by apply NoDup_app in Hnd as (? & _).
    + destruct (ntree_sub _ _ _ _ _ _ Hpn (Hsub _ Hin)) as (h' & ids' & l' & Hn' & _ & _ & Hor).
      destruct (ntree_fun _ _ _ _ _ _ _ _ Hn Hn') as (<- & _ & _).
      destruct Hor as [->|[? _]]; [|lia]. destruct (ntree_fun _ _ _ _ _ _ _ _ Hn Hpn). lia.
Qed.

(** Every other node is freed. *)
Lemma purge_ids_complete N cur h bid ids l id :
  ntree N h bid ids l → id ∈ ids → id ∉ purge_ids N cur h bid →
  ∃ r hr idsr lr, r ∈ ids ∧ r ∈ cur ∧ ntree N hr r idsr lr ∧ id ∈ idsr.
Proof.
  revert bid ids l. induction h as [|h IH]; intros bid ids l Hn Hid Hnp.
  - pose proof Hn as (nd & Hb & _ & -> & _). apply list_elem_of_singleton in Hid as ->. cbn [purge_ids] in Hnp. rewrite Hb in Hnp.
    destruct (decide (bid ∈ cur)) as [|]; [|set_solver]. exists bid, 0, [bid], l. set_solver.
  - pose proof Hn as (nd & Hb & _ & _ & parts & HF & -> & ->). cbn [purge_ids] in Hnp. rewrite Hb in Hnp.
    destruct (decide (bid ∈ cur)) as [Hc|Hbc].
    { exists bid, (S h), (bid :: concat parts.*1), (concat parts.*2). split_and!; [by left|done..]. }
    apply not_elem_of_app in Hnp as [Hnp Hne]. apply elem_of_cons in Hid as [->|Hid]; [set_solver|].
    apply elem_of_concat in Hid as (ids & Hid & Hids). apply list_elem_of_fmap in Hids as (part & -> & [j Hj]%list_elem_of_lookup).
    destruct (Forall2_lookup_r _ _ _ _ _ HF Hj) as (c & Hc & _ & Hpn).
    destruct (IH _ _ _ Hpn Hid) as (r & hr & idsr & lr & Hr & Hcur & Hnr & Hx).
    { intros Hp. apply Hnp, elem_of_concat. eexists. split; [exact Hp|].
      apply (list_elem_of_fmap_2 (λ c, purge_ids N cur h c.2)). by eapply list_elem_of_lookup_2. }
    exists r, hr, idsr, lr. split_and!; try done. right. apply (part_sub parts part); [by eapply list_elem_of_lookup_2|done].
Qed.

(** The nodes that are left when those in [dead] are freed. *)
Definition live (N : nodemap) (dead : gset string) : nodemap := filter (λ x, x.1 ∉ dead) N.

Lemma live_lookup N dead id : live N dead !! id = if decide (id ∈ dead) then None else N !! id.
Proof.
  unfold live. destruct (decide (id ∈ dead)).
  - apply map_lookup_filter_None. right. intros x _. cbn. set_solver.
  - destruct (N !! id) as [nd|] eqn:E.
    + by apply map_lookup_filter_Some.
    + apply map_lookup_filter_None. by left.
Qed.
Lemma live_empty N : live N ∅ = N.
Proof. apply map_eq. intros id. by rewrite live_lookup, decide_False by set_solver. Qed.
Lemma live_delete N dead id : delete id (live N dead) = live N ({[id]} ∪ dead).
Proof.
  apply map_eq. intros id'. rewrite live_lookup. destruct (decide (id' = id)) as [->|Hne].
  - by rewrite lookup_delete_eq, decide_True by set_solver.
  - rewrite lookup_delete_ne, live_lookup by done. repeat destruct (decide _); done || set_solver.
Qed.

(** ** Trees that are partly in memory *)

Definition sub_of (load : BlockId → option NodeData) (c : NodeDataChild) : option Node :=
  match childNode c with
  | Some m => Some m
  | None => node_of_data (Some (cValue c)) <$> load (cValue c)
  end.

Fixpoint flat (load : BlockId → option NodeData) (h : nat) (n : Node) (l : list kv) : Prop :=
  match h with
  | O => Leafy n = true ∧ Forall (λ c, childNode c = None) (Children n) ∧ l = map pair_of_child (Children n)
  | S h' =>
      Leafy n = false ∧ Children n ≠ [] ∧
      ∃ ls, Forall2 (λ c lc, lc ≠ [] ∧ ∃ m, sub_of load c = Some m ∧ flat load h' m lc) (Children n) ls ∧ l = concat ls
  end.

Lemma flat_mono load load' h n l :
  (∀ b x, load b = Some x → load' b = Some x) → flat load h n l → flat load' h n l.
Proof.
  intros Hl. revert n l. induction h as [|h IH]; intros n l; [done|].
  intros (H1 & H2 & ls & HF & ->). split_and!; [done..|]. exists ls. split; [|done].
  eapply Forall2_impl; [exact HF|]. intros c lc (Hne & m & Hm & Hf). split; [done|]. exists m. split; [|by apply IH].
  unfold sub_of in *. destruct (childNode c); [done|]. destruct (load (cValue c)) as [nd|] eqn:E; [|done].
  by rewrite (Hl _ _ E).
Qed.

(** The nodes that are stored, as a function that loads them. *)
Abbreviation stored N := (λ b, (N : nodemap) !! b).

Lemma pairs_of_children (l : list kv) : map pair_of_child (map child_of_pair l) = l.
Proof. induction l as [|[k v] l IH]; [done|]. cbn [map]. by rewrite IH. Qed.

(** A stored tree as a node whose children are loaded, and back. *)
Lemma flat_ntree (N : nodemap) h bid nd l :
  N !! bid = Some nd → flat (stored N) h (node_of_data (Some bid) nd) l → ∃ ids, ntree N h bid ids l.
Proof.
  revert bid nd l. induction h as [|h IH]; intros bid nd l Hb.
  - intros (H1 & _ & ->). exists [bid], nd. split_and!; [done..|]. cbn [node_of_data Children]. by rewrite pairs_of_children.
  - intros (H1 & H2 & ls & HF & ->). cbn in H1, H2, HF.
    assert (∃ parts, Forall2 (λ c part, part.2 ≠ [] ∧ ntree N h c.2 part.1 part.2) (nd_Children nd) parts ∧ parts.*2 = ls) as (parts & HF' & <-).
    { clear H1 H2 Hb. revert ls HF. induction (nd_Children nd) as [|c cl IHc]; intros ls HF.
      - inversion HF; subst. exists []. by split.
      - cbn [map] in HF. apply Forall2_cons_inv_l in HF as (lc & ls' & (Hne & m & Hm & Hf) & HF & ->).
        unfold sub_of in Hm. cbn in Hm. destruct (N !! c.2) as [nd'|] eqn:E; [|done]. injection Hm as <-.
        destruct (IH _ _ _ E Hf) as [ids Hn]. destruct (IHc _ HF) as (parts & HF' & <-).
        exists ((ids, lc) :: parts). split; [by constructor|done]. }
    eexists _, nd. split_and!; [done|done|by intros E; rewrite E in H2|]. exists parts. by split_and!.
Qed.

Lemma ntree_flat (N : nodemap) h bid nd ids l :
  N !! bid = Some nd → ntree N h bid ids l → flat (stored N) h (node_of_data (Some bid) nd) l.
Proof.
  revert bid nd ids l. induction h as [|h IH]; intros bid nd ids l Hb.
  - intros (nd' & Hb' & Hl & _ & ->). simplify_eq. split_and!; [done| |].
    + cbn. apply Forall_forall. intros c Hc. apply list_elem_of_fmap in Hc as (p & -> & _). done.
    + cbn [node_of_data Children]. by rewrite pairs_of_children.
  - intros (nd' & Hb' & Hl & Hne & parts & HF & _ & ->). simplify_eq. cbn [flat node_of_data Leafy Children].
    split_and!; [done|by destruct (nd_Children nd)|]. exists parts.*2. split; [|done]. clear Hne Hl Hb.
    induction HF as [|c part cl parts [Hpne Hpn] HF IHF]; [constructor|]. cbn [map fmap list_fmap]. constructor; [|done].
    split; [done|]. unfold sub_of. cbn [child_of_pair childNode cValue].
    assert (is_Some (N !! c.2)) as [nd2 E]. { eapply (ntree_dom _ _ _ _ _ Hpn). by eapply ntree_root_in. }
    rewrite E. eexists. split; [done|]. by eapply IH.
Qed.
