(* ===== verification/TreeDisk.v ===== *)
(** * The device of the tree backend, byte by byte

    A file is read as if zero bytes followed it ([byte]).  A write changes the bytes of its entry
    and no other, so whatever lies in another extent or in a superblock stays. *)
From stdpp Require Import base list sets strings sorting gmap.
From Stdlib Require Import ZArith Lia Ascii.
From S2P Require Import Prelude OrderedMap Util IBNode IBStack IBTree Codec Backend TreeLocation TreeBackend TreeStore TreeAlloc TreeBlocks.

(** ** Bytes *)

Definition byte (f : list ascii) (i : nat) : ascii := default zero (f !! i).
Definition bytes (f : list ascii) (o n : nat) : list ascii := map (byte f) (seq o n).

Lemma bytes_length f o n : length (bytes f o n) = n.
Proof. unfold bytes. by rewrite length_map, length_seq. Qed.
Lemma bytes_lookup f o n i : i < n → bytes f o n !! i = Some (byte f (o + i)).
Proof. intros Hi. unfold bytes. by rewrite list_lookup_fmap, lookup_seq_lt. Qed.
Lemma bytes_app f o n k : bytes f o (n + k) = bytes f o n ++ bytes f (o + n) k.
Proof. unfold bytes. by rewrite seq_app, map_app. Qed.
Lemma byte_range_ext f f' o n : (∀ i, o ≤ i < o + n → byte f' i = byte f i) → bytes f' o n = bytes f o n.
Proof. intros H. apply map_ext_in. intros i Hi%in_seq. by apply H. Qed.

Lemma zeros_lookup n i : zeros n !! i = if decide (i < n) then Some zero else None.
Proof.
  revert i. induction n as [|n IH]; intros [|i]; cbn [zeros repeat lookup list_lookup]; [done..|].
  unfold zeros in IH. rewrite IH. repeat destruct (decide _); done || lia.
Qed.

Lemma read_entry_bytes (f : list ascii) o s :
  (0 ≤ o ≤ file_Size f)%Z → read_entry f (mkLE o s) = Ok (bytes f (Z.to_nat o) (Z.to_nat s)).
Proof.
  intros Ho. unfold read_entry, file_Size in *. cbn [Offset Size]. rewrite <- (Z2Nat.id o) at 1 by lia.
  rewrite slice_from_Ok by lia. cbn [res_bind]. f_equal. apply list_eq. intros i.
  destruct (decide (i < Z.to_nat s)) as [Hi|Hi].
  - rewrite bytes_lookup by done. unfold byte. rewrite lookup_app, lookup_take_lt, lookup_drop by done.
    destruct (f !! (Z.to_nat o + i)) as [c|] eqn:E; [done|]. rewrite zeros_lookup, length_take, length_drop, decide_True; [done|].
    apply lookup_ge_None in E. lia.
  - rewrite !lookup_ge_None_2; [done|rewrite bytes_length; lia|].
    unfold zeros. rewrite length_app, repeat_length, length_take. lia.
Qed.

Lemma ReadData_bytes f o s :
  (0 ≤ o ≤ file_Size f)%Z →
  file_ReadData f [mkLE o s] = Ok (String.string_of_list_ascii (bytes f (Z.to_nat o) (Z.to_nat s))).
Proof.
  intros Ho. unfold file_ReadData. cbn [read_entries]. rewrite read_entry_bytes by done. cbn [res_bind]. by rewrite app_nil_r.
Qed.

(** Writing, byte by byte. *)
Lemma write_bytes (f : list ascii) o data :
  (0 ≤ o)%Z → (o + Z.of_nat (String.length data) < 2 ^ 64)%Z →
  let n := String.length data in
  ∃ f', file_WriteData f [mkLE o (Z.of_nat n)] data = Ok f' ∧
    bytes f' (Z.to_nat o) n = String.list_ascii_of_string data ∧
    (∀ i, ¬ (o ≤ Z.of_nat i < o + Z.of_nat n)%Z → byte f' i = byte f i) ∧
    file_Size f' = Z.max (file_Size f) (o + Z.of_nat n).
Proof.
  intros Ho Hw n. unfold file_WriteData. cbn [write_entries]. unfold write_entry, wrap64. cbn [Offset Size].
  rewrite Z.mod_small by lia. set (d := String.list_ascii_of_string data).
  assert (length d = n) as Hd by apply string_list_length.
  rewrite slice_to_Ok, slice_from_Ok by lia. cbn [res_bind write_entries]. rewrite take_ge by lia.
  set (b := if (_ <? _)%Z then _ else _). unfold file_Size in *.
  assert (length b = Nat.max (length f) (Z.to_nat o + n)) as Hb.
  { subst b. destruct (Z.ltb_spec (Z.of_nat (length f)) (o + Z.of_nat n)); [|lia].
    unfold zeros. rewrite length_app, repeat_length. lia. }
  assert (∀ i, default zero (b !! i) = byte f i) as Hbf.
  { intros i. subst b. destruct (_ <? _)%Z; [|done]. unfold byte. rewrite lookup_app. destruct (f !! i); [done|].
    rewrite zeros_lookup. by destruct (decide _). }
  eexists. split; [done|]. split_and!.
  - apply list_eq. intros i. destruct (decide (i < n)) as [Hi|Hi].
    + rewrite bytes_lookup by done. unfold byte. rewrite copy_at_lookup, decide_True by lia.
      replace (Z.to_nat o + i - Z.to_nat o) with i by lia. destruct (d !! i) eqn:E; [done|]. apply lookup_ge_None in E. lia.
    + rewrite !lookup_ge_None_2; [done|lia|rewrite bytes_length; lia].
  - intros i Hi. unfold byte at 1. rewrite copy_at_lookup, decide_False by lia. apply Hbf.
  - rewrite copy_at_length by lia. lia.
Qed.

(** ** Space that is written *)

Section alloc.
Context {T R : Type} `{TxStoreOk T}.
Abbreviation backend := (treeBackend T R).

(** The device after a write to a new used extent: [f'] differs from [f] there only. *)
Definition wrote (f f' : list ascii) (o : Z) (data : string) : Prop :=
  bytes f' (Z.to_nat o) (String.length data) = String.list_ascii_of_string data ∧
  (∀ i, ¬ (o ≤ Z.of_nat i < o + Z.of_nat (String.length data))%Z → byte f' i = byte f i) ∧
  file_Size f' = Z.max (file_Size f) (o + Z.of_nat (String.length data)).

Lemma alloc_write enc (self : backend) E m :
  alloc_inv self E m → enc ≠ "" → room (Z.of_nat (String.length enc)) self →
  let n := Z.of_nat (String.length enc) in
  ∃ s1 o E' m' f', allocateSlice n self = Ok (Some [mkLE o n], s1) ∧
    WriteData (Some [mkLE o n]) enc s1 = Ok (set_p f' s1) ∧ alloc_inv (set_p f' s1) E' m' ∧
    trans self m s1 m' ∧ one_more_used E o n E' ∧ wrote (p self) f' o enc ∧
    (0 < n ≤ rounded n)%Z ∧ E' !! o = Some (rounded n, Used).
Proof.
  intros HI Hne Hroom n.
  assert (0 < n < 2 ^ 60)%Z as Hn. { split; [destruct enc; [done|cbn in n; lia]|apply Hroom]. }
  destruct (allocateSlice_ok n self E m HI (proj1 Hn) Hroom) as (s1 & E' & m' & o & Ea & HI1 & Htr & Hused).
  pose proof (rounded_spec n Hn) as [Hrs _]. assert (E' !! o = Some (rounded n, Used)) as Ho by (apply Hused; by left).
  pose proof (alloc_small _ _ _ HI1 _ _ _ Ho) as Hsm.
  destruct (write_bytes (p s1) o enc) as (f' & Ew & Hby & Hrest & Hsize); [lia|unfold n in *; lia|].
  exists s1, o, E', m', f'. split; [done|]. unfold WriteData. simpl default. fold n in Ew. rewrite Ew. cbn [res_bind].
  split; [done|]. destruct Htr as [(Hp & Hfields) Hlog]. rewrite Hp in *. split_and!; try done; [destruct HI1; by split|lia|lia].
Qed.

(** The bytes of another used extent stay. *)
Lemma wrote_used f f' o enc E total o' s' :
  wrote f f' o enc → ext_ok E total → E !! o = Some (rounded (Z.of_nat (String.length enc)), Used) →
  (Z.of_nat (String.length enc) ≤ rounded (Z.of_nat (String.length enc)))%Z →
  E !! o' = Some (s', Used) → o ≠ o' → bytes f' (Z.to_nat o') (Z.to_nat s') = bytes f (Z.to_nat o') (Z.to_nat s').
Proof.
  intros (_ & Hrest & _) HE Ho Hn Ho' Hne. apply byte_range_ext. intros i Hi. apply Hrest.
  pose proof (eo_in _ _ HE _ _ _ Ho'). destruct (eo_disjoint _ _ HE _ _ _ _ _ _ Ho Ho' Hne); lia.
Qed.

(** Superblocks lie apart from what is allocated, also those that the device does not have yet. *)
Lemma superBlockOffset_le_mono i j : i ≤ j → j ≤ 10 → (superBlockOffset i ≤ superBlockOffset j)%Z.
Proof.
  intros Hij Hj. induction Hij as [|j Hij IH]; [lia|]. pose proof (superBlockOffset_facts j). unfold superBlockSize in *. lia.
Qed.

Lemma slot_apart (self : backend) E m o s i :
  alloc_inv self E m → E !! o = Some (s, Used) → i ≤ 10 →
  (o + s ≤ superBlockOffset i ∨ superBlockOffset i + superBlockSize ≤ o)%Z.
Proof.
  intros HI Ho Hi. pose proof (ai_total _ _ _ HI) as [Ht _]. destruct (sb_count_spec _ Ht) as (n & Hn & Hn11 & Hall & Hc).
  pose proof (eo_in _ _ (ai_ext _ _ _ HI) _ _ _ Ho) as Hin. destruct (decide (i < n)) as [Hlt|Hge].
  - pose proof (ai_super _ _ _ HI n i Hn Hlt) as Hs.
    destruct (eo_disjoint _ _ (ai_ext _ _ _ HI) _ _ _ _ _ _ Ho Hs); [|lia..]. intros ->. rewrite Hs in Ho. done.
  - pose proof (superBlockOffset_le_mono n i). destruct Hc as [[? ?]|[? ?]]; lia.
Qed.

End alloc.
