(* ===== verification/TreeSave.v ===== *)
(** * Saving, loading and freeing nodes on the device

    [node_inv] extends the invariants of the allocator and of the blocks with the nodes that are
    live: each lies in a used extent of its own, its id is its location, its bytes decode to it, and
    the cache holds nothing else for its id.  It also says what the superblock areas hold. *)
From stdpp Require Import base list sets strings sorting gmap.
From Stdlib Require Import ZArith Lia Ascii.
From S2P Require Import Prelude OrderedMap Util IBNode IBStack IBTree IBSync IBPersist NodeBytes LinkedList Cart CartFacts CartProps Codec Backend TreeLocation TreeBackend TreeStore TreeAlloc TreeBlocks TreeNodes TreeFlush TreeDisk.

(** A codec that finds what it encoded also when other bytes follow it. *)
Class CodecPrefix {R : Type} (c : Codec R) : Prop := {
  codec_prefix : ∀ data rnd enc rnd' rest, EncodeBytes c data "" rnd = (inr enc, rnd') →
    ∃ rest', DecodeBytes c (enc +:+ rest) "" = inr (data +:+ rest');
  codec_nonempty : ∀ data rnd enc rnd', EncodeBytes c data "" rnd = (inr enc, rnd') → data ≠ "" → enc ≠ ""
}.

(** What the generated encoders promise for values in the ranges of their types. *)
Class TreeEnvOk `{TreeEnv} := {
  node_encodable : NodeData → Prop;
  sb_encodable : Superblock → Prop;
  node_prefix : ∀ nd rest, node_encodable nd → node_UnmarshalMsg (node_MarshalMsg nd +:+ rest) = Some nd;
  sb_prefix : ∀ s, sb_encodable s → PendingLocation s = None →
    ∃ b, sb_MarshalMsg s = inr b ∧ ∀ rest, sb_UnmarshalMsg (b +:+ rest) = inr s
}.

Section save.
Context {T R : Type} `{TxStoreOk T} `{TxNodes T} `{TreeEnvOk}.
Context (codec : Codec R) `{!CodecOk codec} `{!CodecTotal codec} `{!CodecPrefix codec}.
Context (unmarshal : string → gerr BlockData).
Abbreviation nbackend := (nodeBackend T R).
Abbreviation str := String.string_of_list_ascii.

(** ** The invariant *)

(** The superblock in some bytes, if there is one. *)
Definition parse_sb (b : string) : option Superblock :=
  match DecodeBytes codec b "" with
  | inl _ => None
  | inr d => match sb_UnmarshalMsg d with inl _ => None | inr s => Some s end
  end.
Definition slot (f : list ascii) (i : nat) : string :=
  str (bytes f (Z.to_nat (superBlockOffset i)) (Z.to_nat superBlockSize)).
Lemma slot_bytes f i : slot f i = str (bytes f (Z.to_nat (superBlockOffset i)) (Z.to_nat superBlockSize)).
Proof. reflexivity. Qed.
Lemma slot_ext f f' i :
  i ≤ 10 → (∀ j, (superBlockOffset i ≤ Z.of_nat j < superBlockOffset i + superBlockSize)%Z → byte f' j = byte f j) →
  slot f' i = slot f i.
Proof.
  intros Hi Hj. apply (f_equal str), byte_range_ext. intros j Hin. apply Hj. pose proof (superBlockOffset_facts i Hi).
  assert (0 < superBlockSize)%Z by done. lia.
Qed.
Definition slots_ok (f : list ascii) (g : Z) : Prop :=
  ∀ i s, i ≤ 10 → parse_sb (slot f i) = Some s → (Generation s ≤ g)%Z ∧ PendingLocation s = None.

Definition node_at (f : list ascii) (o s : Z) (nd : NodeData) : Prop :=
  ∃ d, DecodeBytes codec (str (bytes f (Z.to_nat o) (Z.to_nat s))) "" = inr d ∧
    NewNodeDataFromBytes d = Ok (Some nd).

Definition nodes_ok (f : list ascii) (E : extents) (B : gmap string BlockData) (N : nodemap) : Prop :=
  ∀ id nd, N !! id = Some nd → ∃ o s, id = ToBlockId [mkLE o s] ∧ E !! o = Some (s, Used) ∧
    (o ≤ file_Size f)%Z ∧ node_at f o s nd ∧
    ∀ id' bd le, B !! id' = Some bd → le ∈ bd_Location bd → Offset le ≠ o.

Definition cache_ok (c : XXXCart NodeData) (N : nodemap) : Prop :=
  (∃ X, CartInv (c_c c) c X) ∧ (0 < c_c c)%Z ∧
  ∀ id nd, N !! id = Some nd → cached c id = None ∨ cached c id = Some nd.

Record node_inv (s : nbackend) (N : nodemap) (E : extents) (m : smap) (B : gmap string BlockData) (bm : blockmap) : Prop := {
  ni_alloc : alloc_inv (nb s) E m;
  ni_blocks : blocks_ok unmarshal (p (nb s)) E m B;
  ni_view : blocks_view codec (nb s) B bm;
  ni_nodes : nodes_ok (p (nb s)) E B N;
  ni_cache : cache_ok (nodeDataCache s) N;
  ni_slots : slots_ok (p (nb s)) (Generation (sb (nb s)));
  ni_size : (file_Size (p (nb s)) < 2 ^ 60)%Z
}.

(** The log of what happened to the free space, and what stays. *)
Definition logged (b : treeBackend T R) (m : smap) (b' : treeBackend T R) (m' : smap) : Prop :=
  (flushing b' = flushing b ∧ Generation (sb b') = Generation (sb b) ∧
   RootLocation (sb b') = RootLocation (sb b) ∧ PendingLocation (sb b') = PendingLocation (sb b)) ∧
  ∃ ops, Pending (sb b') = Pending (sb b) ++ (if flushing b then ops else []) ∧ m' = replay ops m ∧ replayable ops m.

Lemma trans_logged b m b' m' : trans b m b' m' → logged b m b' m'.
Proof. intros [(_ & Hf & _ & Hg & Hl & Hq) Hlog]. by split. Qed.
Lemma logged_trans b1 m1 b2 m2 b3 m3 : logged b1 m1 b2 m2 → logged b2 m2 b3 m3 → logged b1 m1 b3 m3.
Proof.
  intros [(Hf & Hg & Hl & Hq) (ops & Ho & -> & Hrp)] [(Hf' & Hg' & Hl' & Hq') (ops' & Ho' & -> & Hrp')].
  split; [split_and!; congruence|]. exists (ops ++ ops'). split_and!.
  - rewrite Ho', Ho, Hf. destruct (flushing b1); by rewrite <- app_assoc.
  - unfold replay. by rewrite fold_left_app.
  - by apply replayable_app.
Qed.
Lemma logged_refl b m b' :
  flushing b' = flushing b → sb b' = sb b → logged b m b' m.
Proof.
  intros Hf Hs. unfold logged. rewrite Hs. split; [done|]. exists []. split_and!; [|done..]. destruct (flushing b); by rewrite app_nil_r.
Qed.

(** ** Ids *)

Lemma ToBlockId_rounded o n : (0 < n < 2 ^ 60)%Z → ToBlockId [mkLE o n] = ToBlockId [mkLE o (rounded n)].
Proof.
  intros Hn. cbn [ToBlockId]. rewrite !ToKeySO_eq. cbn [Offset]. pose proof (rounded_spec n Hn) as [_ Ha].
  by rewrite (BlockSize_aligned o (rounded n) Ha), BlockSize_offset.
Qed.

(** An extent the way an id describes it. *)
Definition small (o s : Z) : Prop := (0 ≤ o ∧ 0 < s ∧ s mod 512 = 0 ∧ o + s < 2 ^ 62)%Z.

Lemma ToBlockId_slice o s : small o s → NewLocationSliceFromBlockId (ToBlockId [mkLE o s]) = Ok [mkLE o s].
Proof.
  intros (Ho & Hs & Ha & Hb). unfold NewLocationSliceFromBlockId, locationEntryEncodedLength.
  rewrite ToBlockId_length. change (16 * length [mkLE o s]) with 16. cbn [Nat.eqb Nat.modulo negb].
  change (16 / 16) with (length [mkLE o s]). change (negb _) with false. cbv iota.
  rewrite location_loop_ok.
  - cbn [map]. by rewrite (BlockSize_aligned o s Ha).
  - apply Forall_singleton. rewrite (BlockSize_aligned o s Ha). cbn [Offset]. unfold in_uint64. lia.
Qed.
Lemma ToBlockId_inj o s o' s' : small o s → small o' s' → ToBlockId [mkLE o s] = ToBlockId [mkLE o' s'] → o = o' ∧ s = s'.
Proof.
  intros Hs Hs' E. pose proof (ToBlockId_slice o s Hs) as E1. rewrite E, (ToBlockId_slice o' s' Hs') in E1. by injection E1.
Qed.
Lemma ToBlockId_one_length o s : String.length (ToBlockId [mkLE o s]) = 16.
Proof. by rewrite ToBlockId_length. Qed.

Lemma used_small (b : treeBackend T R) E m o s k : alloc_inv b E m → E !! o = Some (s, k) → small o s.
Proof. intros HI Ho. pose proof (alloc_small _ _ _ HI _ _ _ Ho). done. Qed.

(** A node that is somewhere in the file. *)
Definition placed (f : list ascii) (id : string) : Prop :=
  ∃ o s, id = ToBlockId [mkLE o s] ∧ small o s ∧ (o ≤ file_Size f)%Z.
Definition sane (f : list ascii) (nd : NodeData) : Prop :=
  nd_Leafy nd = false → Forall (λ c, placed f c.2) (nd_Children nd).

Lemma sanity_ok f nd : sane f nd → sanityCheckNodeData (file_Size f) (Some nd) = Ok tt.
Proof.
  intros Hs. unfold sanityCheckNodeData. destruct mlog_IsEnabled; [|done]. cbn [negb deref res_bind].
  destruct (nd_Leafy nd) eqn:El; [done|]. specialize (Hs El). induction Hs as [|c cl (o & s & E & Hsm & Ho) _ IH]; [done|].
  cbn [sanity_children]. rewrite E, ToBlockId_slice by done. cbn [res_bind sanity_entries Offset].
  destruct (Z.ltb_spec (file_Size f) o); [lia|]. exact IH.
Qed.

Lemma inv_small s N E m B bm : node_inv s N E m B bm → ext_small E.
Proof. intros HI. eapply alloc_small, HI. Qed.
Lemma nodes_placed s N E m B bm id nd : node_inv s N E m B bm → N !! id = Some nd → placed (p (nb s)) id.
Proof.
  intros HI Hid. destruct (ni_nodes _ _ _ _ _ _ HI id nd Hid) as (o & sz & -> & Ho & Hf & _).
  exists o, sz. split_and!; [done|by eapply used_small, Ho; apply HI|done].
Qed.

(** ** Steps that keep the invariant *)

Lemma byte_lookup (f f' : list ascii) i : i < length f → length f ≤ length f' → byte f' i = byte f i → f' !! i = f !! i.
Proof.
  intros Hi Hl. unfold byte. destruct (lookup_lt_is_Some_2 f i Hi) as [c E]. destruct (lookup_lt_is_Some_2 f' i) as [c' E']; [lia|].
  rewrite E, E'. by intros [= ->].
Qed.

(** Other fields of the backend do not matter. *)
Lemma node_inv_ext s s' N E m B bm :
  node_inv s N E m B bm → sb (nb s') = sb (nb s) → t (nb s') = t (nb s) → p (nb s') = p (nb s) →
  nodeDataCache s' = nodeDataCache s → node_inv s' N E m B bm.
Proof.
  intros HI Hs Ht Hp Hc. split; rewrite ?Hs, ?Hp, ?Hc.
  - destruct (ni_alloc _ _ _ _ _ _ HI). split; rewrite ?Hs, ?Ht; done.
  - apply HI.
  - intros id. pose proof (ni_view _ _ _ _ _ _ HI id) as Hv. destruct (B !! id); [|done]. unfold ReadData in *. by rewrite Hp.
  - apply HI.
  - apply HI.
  - apply HI.
  - apply HI.
Qed.

(** Something was written to a new extent. *)
Lemma node_inv_write s s1 f' N E E' m m' B bm o enc :
  node_inv s N E m B bm → let n := Z.of_nat (String.length enc) in
  alloc_inv (set_p f' s1) E' m' → trans (nb s) m s1 m' → one_more_used E o n E' → wrote (p (nb s)) f' o enc →
  (n ≤ rounded n)%Z → E' !! o = Some (rounded n, Used) →
  node_inv (upd_nb (λ _, set_p f' s1) s) N E' m' B bm.
Proof.
  intros HI n HA Htr [Hfresh Hused] Hw Hn Ho. pose proof Hw as (_ & Hrest & Hsize). fold n in Hrest, Hsize.
  destruct Htr as [(_ & _ & _ & Hg & _) (ops & _ & Hm' & _)].
  pose proof (ni_alloc _ _ _ _ _ _ HI) as HA0. pose proof (eo_in _ _ (ai_ext _ _ _ HA) _ _ _ Ho) as Hin.
  pose proof (ai_total _ _ _ HA) as Ht.
  assert (length (p (nb s)) ≤ length f') as Hlen by (unfold file_Size in Hsize; lia).
  assert (∀ id bd le, B !! id = Some bd → le ∈ bd_Location bd →
    le_in (p (nb s)) E le ∧ E' !! Offset le = Some (BlockSize le, Used) ∧ Offset le ≠ o) as Hold.
  { intros id bd le Hbd Hle. destruct (bo_in _ _ _ _ _ (ni_blocks _ _ _ _ _ _ HI) id bd Hbd) as [HF _].
    rewrite Forall_forall in HF. pose proof (HF le Hle) as Hle_in. split; [done|]. destruct Hle_in as (HE & _). split.
    - apply Hused. by right.
    - intros Eo. rewrite Eo in HE. by eapply Hfresh. }
  split; cbn [nb upd_nb p set_p nodeDataCache sb].
  - exact HA.
  - eapply blocks_ok_step; [apply HI|done| |].
    + intros id. rewrite Hm'. apply replay_block.
    + intros id bd le Hbd Hle. destruct (Hold id bd le Hbd Hle) as ((HE & _) & HE' & _). by rewrite HE, HE'.
  - intros id. pose proof (ni_view _ _ _ _ _ _ HI id) as Hv. destruct (B !! id) as [bd|] eqn:Eb; [|done].
    destruct Hv as (d & Hd & Hr). exists d. split; [done|]. rewrite <- Hr.
    apply (ReadData_frame codec _ _ _ E); [by eapply (bo_in _ _ _ _ _ (ni_blocks _ _ _ _ _ _ HI))|done|].
    intros le i Hle Hi. destruct (Hold id bd le Eb Hle) as ((_ & L1 & L2 & L3) & HE & Hne).
    cbn [p set_p]. apply byte_lookup; [unfold file_Size in L3; lia|done|]. apply Hrest.
    destruct (eo_disjoint _ _ (ai_ext _ _ _ HA) _ _ _ _ _ _ HE Ho Hne); lia.
  - intros id nd Hid. destruct (ni_nodes _ _ _ _ _ _ HI id nd Hid) as (o' & s' & -> & Ho' & Hf & (d & Hd & Hnd) & Hb).
    exists o', s'. split_and!; [done|apply Hused; by right|lia| |done]. exists d. split; [|done].
    rewrite (wrote_used _ _ o enc E' _ o' s' Hw (ai_ext _ _ _ HA)); [done|done|done|apply Hused; by right|].
    intros ->. by eapply Hfresh.
  - apply HI.
  - intros i sb0 Hi Hsb. rewrite Hg. apply (ni_slots _ _ _ _ _ _ HI i sb0 Hi). rewrite <- Hsb.
    apply (f_equal parse_sb). symmetry. apply slot_ext; [exact Hi|]. intros j Hj. apply Hrest.
    destruct (slot_apart _ _ _ _ _ i HA Ho Hi); lia.
  - pose proof (ni_size _ _ _ _ _ _ HI). lia.
Qed.

(** The file changed outside of the used extents. *)
Lemma node_inv_file s f' N E m B bm :
  node_inv s N E m B bm → (file_Size (p (nb s)) ≤ file_Size f' < 2 ^ 60)%Z →
  (∀ o sz i, E !! o = Some (sz, Used) → (o ≤ Z.of_nat i < o + sz)%Z → byte f' i = byte (p (nb s)) i) →
  slots_ok f' (Generation (sb (nb s))) → node_inv (upd_nb (set_p f') s) N E m B bm.
Proof.
  intros HI Hsz Hby Hslots. assert (length (p (nb s)) ≤ length f') as Hlen by (unfold file_Size in Hsz; lia).
  split; cbn [nb upd_nb p set_p nodeDataCache sb].
  - destruct (ni_alloc _ _ _ _ _ _ HI). by split.
  - by eapply blocks_ok_step; [apply HI| | |].
  - intros id. pose proof (ni_view _ _ _ _ _ _ HI id) as Hv. destruct (B !! id) as [bd|] eqn:Eb; [|done].
    destruct Hv as (d & Hd & Hr). exists d. split; [done|]. rewrite <- Hr.
    destruct (bo_in _ _ _ _ _ (ni_blocks _ _ _ _ _ _ HI) id bd Eb) as [HF _].
    apply (ReadData_frame codec _ _ _ E); [done|done|]. intros le i Hle Hi. rewrite Forall_forall in HF.
    destruct (HF le Hle) as (HE & L1 & L2 & L3). unfold file_Size in L3. cbn [p set_p].
    apply byte_lookup; [lia|done|]. apply (Hby (Offset le) (BlockSize le)); [done|lia].
  - intros id nd Hid. destruct (ni_nodes _ _ _ _ _ _ HI id nd Hid) as (o & sz & -> & Ho & Hf & (d & Hd & Hnd) & Hb).
    exists o, sz. split_and!; [done|done|lia| |done]. exists d. split; [|done]. rewrite <- Hd. do 2 f_equal. apply byte_range_ext.
    intros i Hi. pose proof (inv_small _ _ _ _ _ _ HI _ _ _ Ho). apply (Hby o sz); [done|lia].
  - apply HI.
  - exact Hslots.
  - lia.
Qed.

(** ** Loading *)

Lemma cache_get c N id :
  cache_ok c N → ∃ c', Cart_Get id c = Ok (cached c id, c') ∧ cache_ok c' N.
Proof.
  intros ([X HX] & Hc & Hok). destruct (Cart_Get_ok _ c X id HX) as (c' & E & HX' & Ec & Hca).
  exists c'. split; [done|]. split_and!; [by exists X; rewrite Ec|by rewrite Ec|]. intros id' nd Hid. rewrite Hca. by apply Hok.
Qed.

Lemma cache_set c N id nd :
  cache_ok c N → ∃ c', Cart_Set id (Some nd) c = Ok c' ∧ cache_ok c' (<[id := nd]> N).
Proof.
  intros ([X HX] & Hc & Hok). destruct (Cart_Set_ok c X id nd HX Hc) as (c' & X' & victim & E & HX' & Ec & Hca & _).
  exists c'. split; [done|]. split_and!; [by exists X'; rewrite Ec|by rewrite Ec|]. intros id' nd' Hid. rewrite Hca.
  destruct (decide (id' = id)) as [->|Hne]; [rewrite lookup_insert_eq in Hid; right; congruence|].
  rewrite lookup_insert_ne in Hid by done. destruct (decide (victim = Some id')); [by left|by apply Hok].
Qed.

Lemma cache_sub c N N' : cache_ok c N → N' ⊆ N → cache_ok c N'.
Proof. intros (HX & Hc & Hok) Hs. split_and!; [done..|]. intros id nd Hid. apply Hok. by eapply lookup_weaken. Qed.

Lemma node_inv_cache s c N E m B bm : node_inv s N E m B bm → cache_ok c N → node_inv (set_nodeDataCache c s) N E m B bm.
Proof. intros [] Hc. by split. Qed.

(** A live node is loaded, from the cache or from its place. *)
Lemma load_live (s : nbackend) N E B id nd :
  nodes_ok (p (nb s)) E B N → cache_ok (nodeDataCache s) N → ext_small E → N !! id = Some nd → sane (p (nb s)) nd →
  ∃ c, tree_LoadNode codec id s = Ok (Some nd, set_nodeDataCache c s) ∧ cache_ok c N.
Proof.
  intros HN HC HE Hid Hsane. unfold tree_LoadNode. destruct (cache_get _ _ id HC) as (c & E1 & Hc).
  rewrite E1. cbn [res_bind fst snd]. destruct HC as (_ & _ & Hok).
  destruct (Hok id nd Hid) as [->| ->]; [|by exists c].
  destruct (HN id nd Hid) as (o & sz & -> & Ho & Hf & (d & Hd & Hnd) & _).
  assert (small o sz) as Hsm by exact (HE _ _ _ Ho).
  rewrite ToBlockId_slice by done. cbn [res_bind set_nodeDataCache nb]. unfold ReadData.
  rewrite ReadData_bytes by (destruct Hsm; lia). cbn [res_bind]. rewrite Hd. cbn [res_bind]. change (default "" (Some d)) with d. rewrite Hnd. cbn [res_bind].
  rewrite sanity_ok by done. cbn [res_bind nodeDataCache set_nodeDataCache].
  destruct (cache_set c N (ToBlockId [mkLE o sz]) nd Hc) as (c' & -> & Hc'). cbn [res_bind]. exists c'. split; [done|].
  by rewrite insert_id in Hc'.
Qed.
Lemma tree_LoadNode_ok s N E m B bm id nd :
  node_inv s N E m B bm → N !! id = Some nd → sane (p (nb s)) nd →
  ∃ c, tree_LoadNode codec id s = Ok (Some nd, set_nodeDataCache c s) ∧ cache_ok c N.
Proof.
  intros HI. apply (load_live s N E B id nd); [apply HI..|]. by eapply alloc_small, HI.
Qed.

(** ** Saving *)

(** The node can be encoded, and there is room for it. *)
Definition save_accepts (nd : NodeData) (s : nbackend) : Prop :=
  node_encodable nd ∧
  ∀ enc rnd', EncodeBytes codec (ToBytes nd) "" (rnd (nb s)) = (inr enc, rnd') →
    room (Z.of_nat (String.length enc)) (nb s).

(** What saving a node leaves alone. *)
Definition same_saved (s s' : nbackend) : Prop :=
  savedRoot s' = savedRoot s ∧ unchangedRoot s' = unchangedRoot s ∧ rootBlockId s' = rootBlockId s ∧
  superIndex s' = superIndex s.

Definition marked (nd : NodeData) (bid : string) (cur : gset string) : gset string :=
  {[bid]} ∪ ((if nd_Leafy nd then ∅ else list_to_set (map snd (nd_Children nd))) ∪ cur).

Lemma str_app_list a b : str (a ++ b) = str a +:+ str b.
Proof. induction a as [|c a IH]; [done|]. cbn. by rewrite IH. Qed.

Lemma tree_SaveNode_ok nd s N E m B bm :
  node_inv s N E m B bm → save_accepts nd s →
  ∃ bid s' E' m', tree_SaveNode codec nd s = Ok (bid, s') ∧ node_inv s' (<[bid := nd]> N) E' m' B bm ∧
    N !! bid = None ∧ String.length bid = 16 ∧ logged (nb s) m (nb s') m' ∧ same_saved s s' ∧
    currentMap s' = marked nd bid (currentMap s).
Proof.
  intros HI [Henc Hroom]. unfold tree_SaveNode.
  set (s0 := if nd_Leafy nd then s else _).
  assert (nb s0 = nb s ∧ nodeDataCache s0 = nodeDataCache s ∧ same_saved s s0 ∧
    currentMap s0 = (if nd_Leafy nd then ∅ else list_to_set (map snd (nd_Children nd))) ∪ currentMap s) as (Hnb & Hc0 & Hsame & Hcur).
  { subst s0. destruct (nd_Leafy nd); split_and!; try done. by rewrite union_empty_l_L. }
  clearbody s0. rewrite Hnb.
  destruct (codec_total (ToBytes nd) "" (rnd (nb s))) as (enc & rnd' & Ee). rewrite Ee.
  pose proof (codec_nonempty _ _ _ _ Ee ltac:(done)) as Hne.
  assert (node_inv (upd_nb (set_rnd rnd') s) N E m B bm) as HI0 by (eapply node_inv_ext; [exact HI|done..]).
  destruct (alloc_write enc (set_rnd rnd' (nb s)) E m (ni_alloc _ _ _ _ _ _ HI0) Hne (Hroom _ _ Ee))
    as (s1 & o & E' & m' & f' & Ea & Ew & HA & Htr & Hused & Hw & Hn & Ho).
  rewrite Ea. cbn [res_bind fst snd]. rewrite Ew. cbn [res_bind]. set (n := Z.of_nat (String.length enc)) in *.
  simpl default. set (bid := ToBlockId [mkLE o n]).
  pose proof (node_inv_write _ s1 f' N E E' m m' B bm o enc HI0 HA Htr Hused Hw (proj2 Hn) Ho) as HI1.
  destruct (cache_set (nodeDataCache s) N bid nd (ni_cache _ _ _ _ _ _ HI)) as (c & Ec & Hc).
  cbn [nodeDataCache mark_current set_currentMap upd_nb]. rewrite Hc0, Ec. cbn [res_bind].
  pose proof (used_small _ _ _ _ _ _ HA Ho) as Hsm. pose proof (ai_total _ _ _ HA) as Ht.
  assert (0 < n < 2 ^ 60)%Z as Hn'. { split; [lia|]. apply (Hroom _ _ Ee). }
  assert (bid = ToBlockId [mkLE o (rounded n)]) as Hbid by (by apply ToBlockId_rounded).
  eexists bid, _, E', m'. split; [done|]. split_and!.
  - split; cbn [nb set_nodeDataCache mark_current set_currentMap upd_nb nodeDataCache]; try apply HI1; [|exact Hc].
    intros id nd' [[<- <-]|[Hne' Hid]]%lookup_insert_Some.
    + exists o, (rounded n). split_and!; [done|done|pose proof (ni_size _ _ _ _ _ _ HI1); destruct Hw as (_ & _ & Hsz); cbn [p set_p]; lia| |].
      * destruct Hw as (Hby & _). unfold node_at. cbn [p set_p].
        replace (Z.to_nat (rounded n)) with (String.length enc + (Z.to_nat (rounded n) - String.length enc)) by lia.
        rewrite bytes_app, Hby, str_app_list, string_list_id.
        destruct (codec_prefix _ _ _ _ (str (bytes f' (Z.to_nat o + String.length enc) (Z.to_nat (rounded n) - String.length enc))) Ee) as (rest' & ->).
        eexists. split; [done|]. apply NewNodeDataFromBytes_app. by apply node_prefix.
      * intros id' bd le Hbd Hle Eo. destruct (bo_in _ _ _ _ _ (ni_blocks _ _ _ _ _ _ HI) id' bd Hbd) as [HF _].
        rewrite Forall_forall in HF. destruct (HF le Hle) as (HE & _). rewrite Eo in HE. by eapply (proj1 Hused).
    + by apply (ni_nodes _ _ _ _ _ _ HI1).
  - destruct (N !! bid) as [nd'|] eqn:EN; [|done]. exfalso.
    destruct (ni_nodes _ _ _ _ _ _ HI bid nd' EN) as (o' & sz & Eid & Ho' & _). rewrite Hbid in Eid.
    apply ToBlockId_inj in Eid as [<- _]; [|done|by eapply used_small, Ho'; apply HI]. by eapply (proj1 Hused).
  - apply ToBlockId_one_length.
  - by apply trans_logged in Htr.
  - done.
  - cbn [currentMap set_nodeDataCache mark_current set_currentMap upd_nb]. rewrite Hcur. unfold marked. by rewrite list_to_set_singleton_L.
Qed.

(** ** Freeing *)

Lemma free_node_ok s N E m B bm id nd :
  node_inv s N E m B bm → N !! id = Some nd →
  ∃ ls b' E' m', NewLocationSliceFromBlockId id = Ok ls ∧ freeSlice ls (nb s) = Ok b' ∧
    node_inv (upd_nb (λ _, b') s) (delete id N) E' m' B bm ∧ trans (nb s) m b' m'.
Proof.
  intros HI Hid. destruct (ni_nodes _ _ _ _ _ _ HI id nd Hid) as (o & sz & -> & Ho & _ & _ & Hb).
  pose proof (ni_alloc _ _ _ _ _ _ HI) as HA. pose proof (used_small _ _ _ _ _ _ HA Ho) as Hsm.
  assert (BlockSize (mkLE o sz) = sz) as Hbs by (apply BlockSize_aligned; by destruct Hsm as (_ & _ & ? & _)).
  destruct (freeSlice_ok [mkLE o sz] (nb s) E m HA) as (b' & m' & Ef & HA' & Htr).
  { apply NoDup_singleton. }
  { apply Forall_singleton. by rewrite Hbs. }
  cbn [free_ext fold_left Offset] in HA'. rewrite Hbs in HA'.
  exists [mkLE o sz], b', (<[o := (sz, Free)]> E), m'. rewrite ToBlockId_slice by done. split_and!; [done..| |done].
  destruct Htr as [(Hp & _ & _ & Hg & _) (ops & _ & Hm' & _)].
  assert (∀ id' bd le, B !! id' = Some bd → le ∈ bd_Location bd → <[o := (sz, Free)]> E !! Offset le = E !! Offset le) as Hle.
  { intros id' bd le Hbd Hle. rewrite lookup_insert_ne; [done|]. intros Eo. by eapply (Hb id' bd le). }
  split; cbn [nb upd_nb nodeDataCache]; rewrite ?Hp, ?Hg; try apply HI.
  - exact HA'.
  - eapply blocks_ok_step; [apply HI|done| |done]. intros id'. rewrite Hm'. apply replay_block.
  - intros id'. pose proof (ni_view _ _ _ _ _ _ HI id') as Hv. destruct (B !! id'); [|done]. unfold ReadData in *. by rewrite Hp.
  - intros id' nd' [Hne Hid']%lookup_delete_Some.
    destruct (ni_nodes _ _ _ _ _ _ HI id' nd' Hid') as (o' & sz' & -> & Ho' & Hf & Hat & Hb').
    exists o', sz'. split_and!; [done| |done..]. rewrite lookup_insert_ne; [done|]. intros <-. rewrite Ho in Ho'. by injection Ho' as <-.
  - eapply cache_sub; [apply HI|]. apply delete_subseteq.
Qed.

Section purge.
Context (N : nodemap) (f : list ascii).
Hypothesis Hplaced : ∀ id nd, N !! id = Some nd → placed f id ∧ sane f nd.

(** The outcome for a part of the old tree. *)
Definition purges (s : nbackend) (dead : gset string) (m : smap) (B : gmap string BlockData) (bm : blockmap)
  (ids : list string) (r : res nbackend) : Prop :=
  ∃ s' E' m', r = Ok s' ∧ node_inv s' (live N (dead ∪ list_to_set ids)) E' m' B bm ∧
    logged (nb s) m (nb s') m' ∧ same_saved s s' ∧ currentMap s' = currentMap s ∧ p (nb s') = p (nb s).

Lemma purge_children_ok h (purge : NodeData → BlockId → nbackend → res nbackend) cl parts cur s dead E m B bm :
  (∀ c part nd s dead E m, c ∈ cl → part ∈ parts → ntree N h c.2 part.1 part.2 → NoDup part.2.*1 → N !! c.2 = Some nd →
     node_inv s (live N dead) E m B bm → p (nb s) = f → currentMap s = cur →
     (∀ id, id ∈ part.1 → id ∉ dead) → purges s dead m B bm (purge_ids N cur h c.2) (purge nd c.2 s)) →
  Forall2 (λ c part, part.2 ≠ [] ∧ ntree N h c.2 part.1 part.2) cl parts → NoDup (concat parts.*1) →
  NoDup (concat parts.*2).*1 →
  node_inv s (live N dead) E m B bm → p (nb s) = f → currentMap s = cur →
  (∀ id, id ∈ concat parts.*1 → id ∉ dead) →
  purges s dead m B bm (concat (map (λ c, purge_ids N cur h c.2) cl)) (purge_children codec purge cl s).
Proof.
  intros Hpurge HF. revert s dead E m Hpurge. induction HF as [|c part cl parts [_ Hc] HF IH]; intros s dead E m Hpurge Hnd Hnd2 HI Hf Hcur Hdead.
  - exists s, E, m. split_and!; try done; [|by apply logged_refl]. cbn [map concat list_to_set]. by rewrite union_empty_r_L.
  - cbn [purge_children]. cbn [fmap list_fmap concat] in Hnd, Hdead, Hnd2. apply NoDup_app in Hnd as (_ & Hdis & Hnd).
    rewrite fmap_app in Hnd2. apply NoDup_app in Hnd2 as (Hk1 & _ & Hk2).
    assert (is_Some (N !! c.2)) as [nd EN]. { eapply ntree_dom; [exact Hc|]. by eapply ntree_root_in. }
    assert (c.2 ∉ dead) as Hcd. { apply Hdead, elem_of_app. left. by eapply ntree_root_in. }
    destruct (tree_LoadNode_ok s _ E m B bm c.2 nd HI) as (cc & El & Hcc).
    { by rewrite live_lookup, decide_False. }
    { rewrite Hf. by apply (Hplaced c.2). }
    rewrite El. cbn [res_bind fst snd deref]. pose proof (node_inv_cache _ cc _ _ _ _ _ HI Hcc) as HI0.
    destruct (Hpurge c part nd (set_nodeDataCache cc s) dead E m) as (s1 & E1 & m1 & -> & HI1 & Hl1 & Hs1 & Hc1 & Hp1); try done; [by left|by left| |].
    { intros id Hid. apply Hdead, elem_of_app. by left. }
    cbn [res_bind].
    destruct (IH s1 (dead ∪ list_to_set (purge_ids N cur h c.2)) E1 m1) as (s2 & E2 & m2 & -> & HI2 & Hl2 & Hs2 & Hc2 & Hp2); try done.
    + intros c' part' nd' s' dead' E' m' Hin Hin'. apply Hpurge; by right.
    + by rewrite Hp1.
    + by rewrite Hc1.
    + intros id Hid [Hd|Hd]%elem_of_union; [by apply (Hdead id); [apply elem_of_app; right|]|].
      apply elem_of_list_to_set in Hd. apply (Hdis id); [by apply (purge_ids_sub _ cur _ _ _ _ Hc)|done].
    + exists s2, E2, m2. split_and!; [done| | | |by rewrite Hc2|by rewrite Hp2].
      * cbn [map concat]. rewrite list_to_set_app_L, (assoc_L (∪)). done.
      * by eapply logged_trans.
      * destruct Hs1 as (?&?&?&?), Hs2 as (?&?&?&?). split_and!; cbn in *; congruence.
Qed.

Lemma purge_ok fuel h bid nd ids l s dead E m B bm :
  ntree N h bid ids l → NoDup l.*1 → N !! bid = Some nd → h < fuel →
  node_inv s (live N dead) E m B bm → p (nb s) = f → (∀ id, id ∈ ids → id ∉ dead) →
  purges s dead m B bm (purge_ids N (currentMap s) h bid) (purgeNonCurrent codec fuel nd bid s).
Proof.
  revert h bid nd ids l s dead E m. induction fuel as [|fuel IH]; intros h bid nd ids l s dead E m Hn Hnd EN Hh HI Hf Hdead; [lia|].
  cbn [purgeNonCurrent]. destruct (Hplaced bid nd EN) as [Hpl Hsane].
  assert (keqb bid "" = false) as ->.
  { destruct Hpl as (o & sz & -> & _). pose proof (ToBlockId_one_length o sz) as Hlen. by destruct (ToBlockId [mkLE o sz]). }
  rewrite Hf, sanity_ok by done. cbn [res_bind].
  assert (bid ∈ ids) as Hbid by (by eapply ntree_root_in).
  destruct h as [|h].
  - pose proof Hn as (nd' & EN' & Hl & -> & _). assert (nd' = nd) as -> by congruence. clear EN'. cbn [purge_ids]. rewrite EN. destruct (decide _) as [Hin|Hin].
    { exists s, E, m. split_and!; try done; [|by apply logged_refl]. cbn [list_to_set]. by rewrite union_empty_r_L. }
    rewrite Hl. cbn [res_bind app].
    destruct (free_node_ok s _ E m B bm bid nd HI) as (ls & b' & E' & m' & -> & Ef & HI' & Htr).
    { rewrite live_lookup, decide_False; [done|]. by apply Hdead. }
    cbn [res_bind]. unfold on_nb. rewrite Ef. cbn [res_bind]. eexists _, E', m'. split; [done|]. split_and!; try done.
    + rewrite live_delete in HI'. by rewrite list_to_set_singleton_L, (comm_L (∪)).
    + by apply trans_logged.
    + cbn [nb upd_nb]. by destruct Htr as [(-> & _) _].
  - pose proof Hn as (nd' & EN' & Hl & Hne & parts & HF & -> & ->). assert (nd' = nd) as -> by congruence. clear EN'. cbn [purge_ids]. rewrite EN. destruct (decide _) as [Hin|Hin].
    { exists s, E, m. split_and!; try done; [|by apply logged_refl]. cbn [list_to_set]. by rewrite union_empty_r_L. }
    rewrite Hl. pose proof (ntree_NoDup _ _ _ _ _ Hn Hnd) as Hnids. apply NoDup_cons in Hnids as [Hbni Hnids].
    destruct (purge_children_ok h (purgeNonCurrent codec fuel) (nd_Children nd) parts (currentMap s) s dead E m B bm)
      as (s1 & E1 & m1 & -> & HI1 & Hl1 & Hs1 & Hc1 & Hp1); try done.
    { intros c part nd2 s2 dead2 E2 m2 _ _ Hc2 Hk2 Ec2 HI2 Hf2 Hcur2 Hd2. rewrite <- Hcur2.
      eapply (IH h c.2 nd2 part.1 part.2); done || lia. }
    { intros id Hid. apply Hdead. by right. }
    cbn [res_bind].
    destruct (free_node_ok s1 _ E1 m1 B bm bid nd HI1) as (ls & b' & E' & m' & -> & Ef & HI' & Htr).
    { rewrite live_lookup, decide_False; [done|]. intros [Hd|Hd]%elem_of_union; [by apply (Hdead bid)|]. apply Hbni.
      apply elem_of_list_to_set in Hd. apply elem_of_concat in Hd as (l0 & Hx & Hl0). apply list_elem_of_fmap in Hl0 as (c & -> & [i Hi]%list_elem_of_lookup).
      destruct (Forall2_lookup_l _ _ _ _ _ HF Hi) as (part & Hp & _ & Hpn).
      apply (part_sub parts part); [by eapply list_elem_of_lookup_2|]. by apply (purge_ids_sub _ (currentMap s) _ _ _ _ Hpn). }
    cbn [res_bind]. unfold on_nb. rewrite Ef. cbn [res_bind]. eexists _, E', m'. split; [done|]. split_and!; try done.
    + rewrite live_delete in HI'. rewrite list_to_set_app_L, list_to_set_singleton_L, (assoc_L (∪)), (comm_L (∪)). exact HI'.
    + eapply logged_trans; [exact Hl1|]. by apply trans_logged.
    + cbn. destruct Htr as [(-> & _) _]. done.
Qed.
End purge.

(** ** Committing a tree *)

Section commit.
(** The nodes that are stored before the commit. *)
Context (N0 : nodemap).
Abbreviation nodes := (tree_nodes codec (T := T)).

(** [id] lies below a node that was stored before and satisfies [P]. *)
Definition lies_below (P : string → Prop) (id : string) : Prop :=
  ∃ r hr idsr lr, P r ∧ ntree N0 hr r idsr lr ∧ id ∈ idsr.

Definition commit_accepts (n : Node) (s : nbackend) : Prop :=
  Forall (λ x, save_accepts x.1 x.2) (@commit_saves _ nodes n s).

(** What a commit did to the nodes: [ids] are those of the new tree; the ones that were stored before lie
    below a node that is current or one of [roots], and only nodes of the new tree became current. *)
Record commits (s : nbackend) (N : nodemap) (m : smap) (B : gmap string BlockData) (bm : blockmap)
  (ids : list string) (roots : list string) (s' : nbackend) (N' : nodemap) (E' : extents) (m' : smap) : Prop := {
  cm_inv : node_inv s' N' E' m' B bm;
  cm_sub : N ⊆ N';
  cm_log : logged (nb s) m (nb s') m';
  cm_same : same_saved s s';
  cm_dom : ∀ id, is_Some (N' !! id) → is_Some (N !! id) ∨ id ∈ ids;
  cm_cover : ∀ id, id ∈ ids → is_Some (N0 !! id) → lies_below (λ r, r ∈ currentMap s' ∨ r ∈ roots) id;
  cm_cur : currentMap s ⊆ currentMap s';
  cm_new : ∀ r, r ∈ currentMap s' → r ∈ currentMap s ∨ r ∈ ids
}.

Definition commit_ok (n : Node) : Prop :=
  ∀ s N E m B bm h l, N0 ⊆ N → node_inv s N E m B bm → flat (stored N0) h n l → synced (stored N0) n → commit_accepts n s →
  ∃ bid nd s' N' E' m' ids, @CommitTo _ nodes n s = Ok (node_of_data (Some bid) nd, bid, s') ∧
    ntree N' h bid ids l ∧ N' !! bid = Some nd ∧ (blockId n = None → N !! bid = None) ∧
    commits s N m B bm ids [bid] s' N' E' m'.

Lemma commits_refl s N E m B bm ids roots :
  node_inv s N E m B bm → (∀ id, id ∈ ids → is_Some (N0 !! id) → lies_below (λ r, r ∈ currentMap s ∨ r ∈ roots) id) →
  commits s N m B bm ids roots s N E m.
Proof. intros HI Hc. split; try done; [by apply logged_refl|by left|by left]. Qed.

Lemma commits_trans s1 s2 s3 N1 N2 N3 E2 E3 m1 m2 m3 B bm ids ids' roots roots' :
  commits s1 N1 m1 B bm ids roots s2 N2 E2 m2 → commits s2 N2 m2 B bm ids' roots' s3 N3 E3 m3 →
  commits s1 N1 m1 B bm (ids ++ ids') (roots ++ roots') s3 N3 E3 m3.
Proof.
  intros C1 C2. split.
  - apply C2.
  - etrans; [apply C1|apply C2].
  - eapply logged_trans; [apply C1|apply C2].
  - destruct (cm_same _ _ _ _ _ _ _ _ _ _ _ C1) as (?&?&?&?), (cm_same _ _ _ _ _ _ _ _ _ _ _ C2) as (?&?&?&?). split_and!; congruence.
  - intros id [Hid|Hid]%(cm_dom _ _ _ _ _ _ _ _ _ _ _ C2); [|right; apply elem_of_app; by right].
    destruct (cm_dom _ _ _ _ _ _ _ _ _ _ _ C1 id Hid); [by left|right; apply elem_of_app; by left].
  - intros id [Hid|Hid]%elem_of_app Hs.
    + destruct (cm_cover _ _ _ _ _ _ _ _ _ _ _ C1 id Hid Hs) as (r & hr & idsr & lr & Hr & Hn & Hin). exists r, hr, idsr, lr.
      split_and!; [|done..]. destruct Hr as [Hr|Hr]; [left; by apply (cm_cur _ _ _ _ _ _ _ _ _ _ _ C2)|right; apply elem_of_app; by left].
    + destruct (cm_cover _ _ _ _ _ _ _ _ _ _ _ C2 id Hid Hs) as (r & hr & idsr & lr & Hr & Hn & Hin). exists r, hr, idsr, lr.
      split_and!; [|done..]. destruct Hr; [by left|right; apply elem_of_app; by right].
  - etrans; [apply C1|apply C2].
  - intros r [Hr|Hr]%(cm_new _ _ _ _ _ _ _ _ _ _ _ C2); [|right; apply elem_of_app; by right].
    destruct (cm_new _ _ _ _ _ _ _ _ _ _ _ C1 r Hr); [by left|right; apply elem_of_app; by left].
Qed.

Lemma commit_children_ok h cl ls s N E m B bm :
  Forall (λ c, ∀ n, childNode c = Some n → commit_ok n) cl →
  N0 ⊆ N → node_inv s N E m B bm →
  Forall2 (λ c lc, lc ≠ [] ∧ ∃ n, sub_of (stored N0) c = Some n ∧ flat (stored N0) h n lc) cl ls →
  Forall (csynced (stored N0)) cl →
  Forall (λ x, save_accepts x.1 x.2) (@children_saves _ nodes cl s) →
  ∃ cl' s' N' E' m' parts, @commit_children _ nodes cl s = Ok (cl', s') ∧ Forall (λ c, childNode c = None) cl' ∧
    Forall2 (λ c part, part.2 ≠ [] ∧ ntree N' h (cValue c) part.1 part.2) cl' parts ∧ parts.*2 = ls ∧
    commits s N m B bm (concat parts.*1) (map cValue cl') s' N' E' m'.
Proof.
  intros HQ. revert s N E m ls. induction HQ as [|[k v sub] cl Hq HQ IH]; intros s N E m ls HN HI HF Hsy Hacc.
  - inversion HF; subst. exists [], s, N, E, m, []. split_and!; try done. by apply commits_refl; [|intros id []%not_elem_of_nil].
  - apply Forall2_cons_inv_l in HF as (lc & ls' & (Hne & n & Hsub & Hfl) & HF & ->). apply Forall_cons in Hsy as [Hs1 Hs2].
    assert (∃ c' s1 N1 E1 m1 ids, match sub with
              | Some n => let! r := @CommitTo _ nodes n s in Ok (mkChild k r.1.2 None, r.2)
              | None => Ok (mkChild k v sub, s)
              end = Ok (c', s1) ∧ childNode c' = None ∧ ntree N1 h (cValue c') ids lc ∧
              commits s N m B bm ids [cValue c'] s1 N1 E1 m1 ∧
              Forall (λ x, save_accepts x.1 x.2) (@children_saves _ nodes cl s1))
      as (c' & s1 & N1 & E1 & m1 & ids & Hstep & Hc' & Hn1 & C1 & Hacc1).
    { destruct sub as [n'|].
      - injection Hsub as ->. cbn [children_saves] in Hacc. apply Forall_app in Hacc as [Ha1 Ha2].
        destruct (Hq n eq_refl s N E m B bm h lc HN HI Hfl (Hs1 n eq_refl) Ha1) as (bid & nd & s1 & N1 & E1 & m1 & ids & Ec & Hn1 & _ & _ & C1).
        rewrite Ec in Ha2 |- *. cbn [res_bind fst snd]. by eexists _, s1, N1, E1, m1, ids.
      - unfold sub_of in Hsub. cbn in Hsub. destruct (N0 !! v) as [nd|] eqn:EN; [|done]. injection Hsub as <-.
        destruct (flat_ntree N0 h v nd lc EN Hfl) as [ids Hn0]. eexists _, s, N, E, m, ids. split; [done|].
        split_and!; [done|by eapply ntree_mono| |done]. apply commits_refl; [done|]. intros id Hid _.
        exists v, h, ids, lc. split_and!; [right; by left|done..]. }
    cbn [commit_children]. rewrite Hstep. cbn [res_bind fst snd].
    destruct (IH s1 N1 E1 m1 ls') as (cl' & s2 & N2 & E2 & m2 & parts & -> & Hcl' & HF2 & <- & C2); try done.
    { etrans; [exact HN|apply C1]. }
    { apply C1. }
    cbn [res_bind fst snd]. exists (c' :: cl'), s2, N2, E2, m2, ((ids, lc) :: parts). split_and!; [done|by constructor| |done|].
    + constructor; [|done]. split; [done|]. eapply ntree_mono; [apply C2|done].
    + exact (commits_trans _ _ _ _ _ _ _ _ _ _ _ _ _ _ _ _ _ C1 C2).
Qed.

(** The new node over children that are stored. *)
Lemma save_over h s N E m B bm leafy cl l ids :
  N0 ⊆ N → node_inv s N E m B bm → save_accepts (mkNodeData leafy (map pair_of_child cl)) s →
  (∀ N' bid, N ⊆ N' → N' !! bid = Some (mkNodeData leafy (map pair_of_child cl)) → ntree N' h bid (bid :: ids) l) →
  (leafy = true ∧ ids = [] ∨ leafy = false ∧ ∀ r, r ∈ map cValue cl → r ∈ ids) →
  ∃ bid s' N' E' m', tree_SaveNode codec (mkNodeData leafy (map pair_of_child cl)) s = Ok (bid, s') ∧
    String.length bid = 16 ∧ N !! bid = None ∧ N' !! bid = Some (mkNodeData leafy (map pair_of_child cl)) ∧
    ntree N' h bid (bid :: ids) l ∧ node_inv s' N' E' m' B bm ∧ N ⊆ N' ∧ logged (nb s) m (nb s') m' ∧ same_saved s s' ∧
    (∀ id, is_Some (N' !! id) → is_Some (N !! id) ∨ id = bid) ∧ currentMap s ⊆ currentMap s' ∧
    (∀ r, r ∈ currentMap s' → r ∈ currentMap s ∨ r ∈ bid :: ids) ∧
    (leafy = false → ∀ r, r ∈ map cValue cl → r ∈ currentMap s').
Proof.
  intros HN HI Hacc Hn Hids. set (nd := mkNodeData _ _) in *.
  destruct (tree_SaveNode_ok nd s N E m B bm HI Hacc) as (bid & s' & E' & m' & Es & HI' & Hfresh & Hlen & Hlog & Hsame & Hcur).
  assert (map snd (nd_Children nd) = map cValue cl) as Hv by (cbn; by rewrite map_map).
  assert (N ⊆ <[bid := nd]> N) as Hsub by (by apply insert_subseteq).
  exists bid, s', (<[bid := nd]> N), E', m'. rewrite Hcur. unfold marked. rewrite Hv. split_and!; try done.
  - by rewrite lookup_insert_eq.
  - apply Hn; [done|]. by rewrite lookup_insert_eq.
  - intros id. destruct (decide (id = bid)) as [->|Hne]; [by right|]. rewrite lookup_insert_ne by done. by left.
  - set_solver.
  - intros r. destruct Hids as [[Hl ->]|[Hl Hids]]; cbn [nd_Leafy nd]; rewrite Hl; [set_solver|].
    rewrite !elem_of_union, elem_of_list_to_set, elem_of_singleton. intros [->|[Hr|Hr]]; [right; by left| |by left]. right. right. by apply Hids.
  - intros Hl r Hr. cbn [nd_Leafy nd]. rewrite Hl. apply elem_of_union. right. apply elem_of_union. left. by apply elem_of_list_to_set.
Qed.

Lemma CommitTo_ok n : commit_ok n.
Proof.
  apply (node_ind' commit_ok (λ c, ∀ m, childNode c = Some m → commit_ok m)); [|done|by intros k v m Hm m' [= <-]].
  intros leafy cl bid0 HQ s N E m B bm h l HN HI Hfl Hsy Hacc. destruct bid0 as [b|].
  { inversion Hsy as [|b' nd EN]; subst. change (flat (stored N0) h (node_of_data (Some b) nd) l) in Hfl.
    destruct (flat_ntree N0 h b nd l EN Hfl) as [ids Hn0]. exists b, nd, s, N, E, m, ids. split_and!; try done.
    - by eapply ntree_mono.
    - by eapply lookup_weaken.
    - apply commits_refl; [done|]. intros id Hid _. exists b, h, ids, l. split_and!; [right; by left|done..]. }
  unfold commit_accepts in Hacc. rewrite commit_saves_None in Hacc. apply Forall_app in Hacc as [Ha1 Ha2].
  pose proof (synced_children _ _ Hsy) as Hcs. cbn [Children] in Hcs. setoid_rewrite CommitTo_None.
  destruct h as [|h].
  - destruct Hfl as (Hl & Hnone & ->). cbn [Leafy Children] in *. subst leafy. cbn [res_bind fst snd].
    apply Forall_cons in Ha2 as [Ha2 _]. cbn [fst snd] in Ha2.
    destruct (save_over 0 s N E m B bm true cl (map pair_of_child cl) [] HN HI Ha2) as
      (bid & s' & N' & E' & m' & Es & Hlen & Hfresh & Hbid & Hn & HI' & Hsub & Hlog & Hsame & Hdom & Hcur & Hnew & _); [|by left|].
    { intros N' bid _ Hb. eexists. split; [exact Hb|]. done. }
    cbn [SaveNode nodes]. rewrite Es. cbn [res_bind fst snd]. rewrite Hlen. cbn [Nat.ltb Nat.leb].
    eexists bid, _, s', N', E', m', [bid]. split_and!; [by rewrite (map_data_children true cl)|exact Hn|exact Hbid|done|].
    split; try done.
    + intros id Hid. destruct (Hdom id Hid) as [| ->]; [by left|right; by left].
    + intros id Hid%list_elem_of_singleton [x Hx]. subst id. eapply lookup_weaken in Hx; [|exact HN]. congruence.
  - destruct Hfl as (Hl & Hne & ls & HF & ->). cbn [Leafy Children] in *. subst leafy.
    destruct (commit_children_ok h cl ls s N E m B bm HQ HN HI HF Hcs Ha1) as (cl' & s1 & N1 & E1 & m1 & parts & Ec & Hnone & HF1 & <- & C1).
    rewrite Ec in Ha2 |- *. cbn [res_bind fst snd] in Ha2 |- *. apply Forall_cons in Ha2 as [Ha2 _]. cbn [fst snd] in Ha2.
    assert (cl' ≠ []) as Hne'. { intros ->. inversion HF1; subst. apply Hne. by inversion HF. }
    destruct (save_over (S h) s1 N1 E1 m1 B bm false cl' (concat parts.*2) (concat parts.*1)) as
      (bid & s' & N' & E' & m' & Es & Hlen & Hfresh & Hbid & Hn & HI' & Hsub & Hlog & Hsame & Hdom & Hcur & Hnew & Hmk); [| |done| | |].
    { etrans; [exact HN|apply C1]. }
    { apply C1. }
    { intros N' bid HN' Hb. eexists. split; [exact Hb|]. split_and!; [done|cbn; by destruct cl'|]. exists parts. split_and!; [|done..]. cbn [nd_Children].
      clear -HF1 HN'. induction HF1 as [|c part cl parts [Hpne Hpn] HF IH]; [constructor|]. constructor; [|done]. split; [done|]. by eapply ntree_mono. }
    { right. split; [done|]. intros r Hr. apply list_elem_of_fmap in Hr as (c & -> & [i Hi]%list_elem_of_lookup).
      destruct (Forall2_lookup_l _ _ _ _ _ HF1 Hi) as (part & Hp & _ & Hpn).
      apply (part_sub parts part); [by eapply list_elem_of_lookup_2|]. by eapply ntree_root_in. }
    cbn [SaveNode nodes]. rewrite Es. cbn [res_bind fst snd]. rewrite Hlen. cbn [Nat.ltb Nat.leb].
    eexists bid, _, s', N', E', m', _. split_and!; [by rewrite (map_data_children false cl')|exact Hn|exact Hbid| |].
    { intros _. destruct (N !! bid) as [x|] eqn:Ex; [|done]. eapply lookup_weaken in Ex; [|apply C1]. congruence. }
    split.
    + done.
    + etrans; [apply C1|done].
    + eapply logged_trans; [apply C1|done].
    + destruct (cm_same _ _ _ _ _ _ _ _ _ _ _ C1) as (?&?&?&?), Hsame as (?&?&?&?). split_and!; congruence.
    + intros id Hid. destruct (Hdom id Hid) as [Hid1| ->]; [|right; by left].
      destruct (cm_dom _ _ _ _ _ _ _ _ _ _ _ C1 id Hid1); [by left|right; by right].
    + intros id Hid Hs. apply elem_of_cons in Hid as [->|Hid].
      { destruct Hs as [x Hx]. assert (N0 ⊆ N1) as Hsub1 by (etrans; [exact HN|apply C1]).
        eapply lookup_weaken in Hx; [|exact Hsub1]. congruence. }
      destruct (cm_cover _ _ _ _ _ _ _ _ _ _ _ C1 id Hid Hs) as (r & hr & idsr & lr & Hr & Hnr & Hin). exists r, hr, idsr, lr.
      split_and!; [left|done..]. destruct Hr as [Hr|Hr]; [by apply Hcur|by apply Hmk].
    + etrans; [apply C1|done].
    + intros r [Hr|Hr]%Hnew; [|by right].
      destruct (cm_new _ _ _ _ _ _ _ _ _ _ _ C1 r Hr); [by left|right; by right].
Qed.
End commit.

End save.

(** A superblock area is never computed in a proof. *)
#[global] Opaque slot.
