(* ===== verification/TreeRecover.v ===== *)
(** * Flushing the tree backend and starting from its device

    [tree_inv] is the invariant between calls: the live nodes are exactly those of the tree that
    was saved last.  A flush establishes it for the new tree, and leaves a superblock from which
    [tree_Init] finds the same blocks and the same free space again. *)
From stdpp Require Import base list sets strings sorting gmap.
From Stdlib Require Import ZArith Lia Ascii.
From S2P Require Import Prelude OrderedMap Util IBNode IBStack IBTree IBSync IBPersist NodeBytes LinkedList Cart CartFacts CartProps Codec Backend TreeLocation TreeBackend TreeStore TreeAlloc TreeBlocks TreeProps TreeNodes TreeFlush TreeDisk TreeSave.

(** What the backend relies on of the transactions it makes.  For every set [N] of stored nodes they
    are a store; the root of a transaction is a tree over those nodes, with an id exactly on what is
    stored; a transaction on such a tree has its content. *)
Class TxNodesOk (T : Type) `{TxStore T} `{TxNodes T} := {
  nodes_store : nodemap → TxStoreOk T;
  tx_height : nat;
  tx_Root_ok : ∀ N t m, @tx_rep T _ (nodes_store N) t m →
    ∃ n h l, tx_Root t = Ok n ∧ flat (stored N) h n l ∧ h ≤ tx_height ∧ list_rep l m ∧ synced (stored N) n;
  tx_New_ok : ∀ N (load : BlockId → option NodeData) n h l m, (∀ b x, N !! b = Some x → load b = Some x) →
    flat (stored N) h n l → h ≤ tx_height → list_rep l m → synced (stored N) n →
    @tx_rep T _ (nodes_store N) (tx_NewTransaction load n) m
}.

Lemma list_rep_NoDup l m : list_rep l m → NoDup l.*1.
Proof.
  intros [Hs _]. clear m. induction l as [|p l IH]; [by apply NoDup_nil_2|]. apply sorted_kvs_cons in Hs as [Hgt Hs].
  cbn [fmap list_fmap]. apply NoDup_cons. split; [|by apply IH]. intros (q & E & Hq)%list_elem_of_fmap.
  apply (klt_irrefl p.1). rewrite E at 2. by apply Hgt.
Qed.

(** The children of a stored node are stored. *)
Lemma ntree_closed N h bid ids l id nd c :
  ntree N h bid ids l → id ∈ ids → N !! id = Some nd → nd_Leafy nd = false → c ∈ nd_Children nd → c.2 ∈ ids.
Proof.
  intros Hn Hid EN Hl Hc. destruct (ntree_sub _ _ _ _ _ _ Hn Hid) as (h' & ids' & l' & Hn' & Hsub & _).
  destruct h' as [|h'].
  - destruct Hn' as (nd' & EN' & Hl' & _). simplify_eq. congruence.
  - destruct Hn' as (nd' & EN' & _ & _ & parts & HF & -> & _). simplify_eq. apply list_elem_of_lookup in Hc as [i Hi].
    destruct (Forall2_lookup_l _ _ _ _ _ HF Hi) as (part & Hp & _ & Hpn). apply Hsub. right.
    apply (part_sub parts part); [by eapply list_elem_of_lookup_2|]. by eapply ntree_root_in.
Qed.

Section recover.
Context {T R : Type} `{TxNodesOk T} `{TreeEnvOk}.
Context (codec : Codec R) `{!CodecOk codec} `{!CodecTotal codec} `{!CodecPrefix codec}.
Context (unmarshal : string → gerr BlockData) (ptr_eq : Node → Node → bool).
Abbreviation nbackend := (nodeBackend T R).
Abbreviation inv_on N := (node_inv (H0 := nodes_store N) codec unmarshal).

(** ** The invariant between calls *)

(** The saved tree: [l] are its entries, [ids] its nodes, and there are no others. *)
Definition saved_tree (N : nodemap) (bid : BlockId) (root : Node) (h : nat) (l : list kv) : Prop :=
  ∃ ids nd, ntree N h bid ids l ∧ NoDup l.*1 ∧ N !! bid = Some nd ∧ root = node_of_data (Some bid) nd ∧ h ≤ tx_height ∧
    ∀ id, is_Some (N !! id) ↔ id ∈ ids.
Definition saved_ok (s : nbackend) (N : nodemap) : Prop :=
  rootBlockId s = "" ∧ N = ∅ ∨ ∃ h l, saved_tree N (rootBlockId s) (savedRoot s) h l.

Record idle (s : nbackend) : Prop := {
  id_flushing : flushing (nb s) = false;
  id_pending : Pending (sb (nb s)) = [];
  id_location : PendingLocation (sb (nb s)) = None;
  id_current : currentMap s = ∅;
  id_index : (0 ≤ superIndex s)%Z
}.

Definition tree_inv (s : nbackend) (bm : blockmap) : Prop :=
  ∃ N E m B, inv_on N s N E m B bm ∧ saved_ok s N ∧ idle s.

Lemma saved_sane s N E m B bm bid root h l f :
  inv_on N s N E m B bm → saved_tree N bid root h l → p (nb s) = f →
  ∀ id nd, N !! id = Some nd → placed f id ∧ sane f nd.
Proof.
  intros HI (ids & nd0 & Hn & _ & _ & _ & _ & Hids) <- id nd EN. split; [by eapply (nodes_placed (H0 := nodes_store N)), EN|].
  intros Hl. apply Forall_forall. intros c Hc. assert (c.2 ∈ ids) as Hin. { eapply ntree_closed; [exact Hn| |done..]. apply Hids. eauto. }
  apply Hids in Hin as [x Hx]. by eapply (nodes_placed (H0 := nodes_store N)), Hx.
Qed.

(** What a transaction loads are the stored nodes. *)
Lemma load_of_stored s N E B :
  nodes_ok codec (p (nb s)) E B N → cache_ok (nodeDataCache s) N → ext_small E →
  (∀ id nd, N !! id = Some nd → sane (p (nb s)) nd) → ∀ b x, N !! b = Some x → load_of codec (T := T) s b = Some x.
Proof.
  intros HN HC HE Hs b x Hb. destruct (load_live codec s N E B b x HN HC HE Hb (Hs b x Hb)) as (c & Ec & _).
  unfold load_of. by rewrite Ec.
Qed.

(** A new transaction on a tree over the stored nodes. *)
Lemma inv_newTransaction s N N' E m m' B bm root h l :
  inv_on N' s N E m' B bm → flat (stored N) h root l → h ≤ tx_height → list_rep l m → synced (stored N) root →
  (∀ id nd, N !! id = Some nd → sane (p (nb s)) nd) →
  @tx_rep T _ (nodes_store N) (t (nb (newTransaction codec root s))) m.
Proof.
  intros HI Hfl Hh Hl Hsy Hsane. unfold newTransaction. cbn [nb upd_nb t set_t].
  eapply tx_New_ok; [|done..]. apply (load_of_stored s N E B); [apply HI..|by apply (inv_small (H0 := nodes_store N') codec unmarshal s N E m' B bm)|done].
Qed.

(** The allocator under another transaction. *)
Lemma alloc_inv_tx N N' (b b' : treeBackend T R) E m m' :
  alloc_inv (H0 := nodes_store N) b E m' → sb b' = sb b → @tx_rep T _ (nodes_store N') (t b') m → m = m' →
  alloc_inv (H0 := nodes_store N') b' E m.
Proof. intros [] Hs Ht ->. split; rewrite ?Hs; done. Qed.

(** ** The tree is saved *)

(** After the nodes are saved and the old ones freed: the log says how the free space changed. *)
Record flushed (s s' : nbackend) (m m' : smap) : Prop := {
  fl_flushing : flushing (nb s') = true;
  fl_gen : Generation (sb (nb s')) = Generation (sb (nb s));
  fl_location : PendingLocation (sb (nb s')) = None;
  fl_index : superIndex s' = superIndex s;
  fl_replay : m' = replay (Pending (sb (nb s'))) m;
  fl_replayable : replayable (Pending (sb (nb s'))) m
}.

(** The start of a flush: the same backend, on a temporary transaction. *)
Lemma flush_start N s E m B bm root h l :
  inv_on N s N E m B bm → saved_ok s N →
  flat (stored N) h root l → h ≤ tx_height → list_rep l m → synced (stored N) root →
  inv_on N (newTransaction codec root (set_flushing true s)) N E m B bm.
Proof.
  intros HI Hsv Hfl Hh Hl Hsy.
  assert (inv_on N (set_flushing true s) N E m B bm) as HI0 by (eapply (node_inv_ext (H0 := nodes_store N)); [exact HI|done..]).
  assert (∀ id nd, N !! id = Some nd → sane (p (nb (set_flushing true s))) nd) as Hsane.
  { destruct Hsv as [[_ ->]|(h0 & l0 & Hsv)]; [by intros id nd []%lookup_empty_Some|].
    intros id nd Hid. by eapply (saved_sane s). }
  pose proof (inv_newTransaction _ N N E m m B bm root h l HI0 Hfl Hh Hl Hsy Hsane) as Ht.
  split; try apply HI0. eapply alloc_inv_tx; [apply HI0|done|exact Ht|done].
Qed.

(** What is live after the old tree is purged is the new tree. *)
Lemma purge_leaves_new (N N' : nodemap) (cur : gset string) h l bid ids h0 l0 bid0 ids0 :
  ntree N h0 bid0 ids0 l0 → NoDup l0.*1 → (∀ id, is_Some (N !! id) ↔ id ∈ ids0) → N ⊆ N' →
  ntree N' h bid ids l → (∀ id, is_Some (N' !! id) → is_Some (N !! id) ∨ id ∈ ids) →
  (∀ id, id ∈ ids → is_Some (N !! id) → lies_below N (λ r, r ∈ cur) id) → (∀ r, r ∈ cur → r ∈ ids) →
  let dead := list_to_set (purge_ids N' cur h0 bid0) in
  (∀ id, is_Some (live N' dead !! id) ↔ id ∈ ids) ∧ ntree (live N' dead) h bid ids l.
Proof.
  intros Hn0 Hnd0 Hids0 HN Hn Hdom Hcov Hcur dead.
  pose proof (ntree_mono _ _ _ _ _ _ HN Hn0) as Hn0'.
  assert (∀ id, id ∈ ids → id ∉ dead) as Hlive.
  { intros id Hid Hd. apply elem_of_list_to_set in Hd.
    assert (is_Some (N !! id)) as HsN. { apply Hids0. by apply (purge_ids_sub _ _ _ _ _ _ Hn0' _ Hd). }
    destruct (Hcov id Hid HsN) as (r & hr & idsr & lr & Hr & Hnr & Hin).
    apply (purge_ids_safe N' cur h0 bid0 ids0 l0 id r hr idsr lr); try done; [|by eapply ntree_mono].
    apply Hids0. eapply ntree_dom; [exact Hnr|]. by eapply ntree_root_in. }
  split; [|apply (ntree_restrict N'); [done|]; intros id Hid; rewrite live_lookup, decide_False; [done|by apply Hlive]].
  intros id. rewrite live_lookup. split.
  - destruct (decide (id ∈ dead)) as [|Hnd]; [by intros []|]. intros [Hs|Hs]%Hdom; [|done].
    assert (id ∈ ids0) as Hin0 by (by apply Hids0).
    destruct (purge_ids_complete N' cur h0 bid0 ids0 l0 id Hn0' Hin0) as (r & hr & idsr & lr & _ & Hrc & Hnr & Hin).
    { intros Hp. apply Hnd. by apply elem_of_list_to_set. }
    apply Hcur in Hrc. destruct (ntree_sub _ _ _ _ _ _ Hn Hrc) as (h2 & ids2 & l2 & Hn2 & Hsub & _).
    destruct (ntree_fun _ _ _ _ _ _ _ _ Hn2 Hnr) as (_ & -> & _). by apply Hsub.
  - intros Hid. rewrite decide_False by (by apply Hlive). by apply (ntree_dom _ _ _ _ _ Hn).
Qed.

Lemma flushNodes_ok fuel s N E m B bm root h l :
  inv_on N s N E m B bm → saved_ok s N → idle s →
  flat (stored N) h root l → h ≤ tx_height → list_rep l m → synced (stored N) root → blockId root = None →
  commit_accepts codec root (newTransaction codec root (set_flushing true s)) → tx_height < fuel →
  ∃ bid nd s' N' E' m', flushNodes codec fuel root s = Ok (node_of_data (Some bid) nd, bid, s') ∧
    inv_on N s' N' E' m' B bm ∧ saved_tree N' bid (node_of_data (Some bid) nd) h l ∧ flushed s s' m m'.
Proof.
  intros HI Hsv Hidle Hfl Hh Hl Hsy Hnew Hacc Hfuel. pose proof (list_rep_NoDup _ _ Hl) as Hkeys.
  pose proof (flush_start N s E m B bm root h l HI Hsv Hfl Hh Hl Hsy) as HI0. unfold flushNodes.
  set (s0 := newTransaction codec root (set_flushing true s)) in *.
  destruct (CommitTo_ok (H0 := nodes_store N) codec unmarshal N root s0 N E m B bm h l) as
    (bid & nd & s1 & N1 & E1 & m1 & ids & -> & Hn & Hbid & Hfresh & C); [done..|]. cbn [res_bind].
  destruct (cm_same _ _ _ _ _ _ _ _ _ _ _ _ _ _ C) as (Hsr & _ & Hrb & Hsi). cbn in Hsr, Hrb, Hsi. rewrite Hsr, Hrb.
  destruct (cm_log _ _ _ _ _ _ _ _ _ _ _ _ _ _ C) as [(Hf1 & Hg1 & _ & Hq1) (ops1 & Ho1 & Hm1 & Hr1)].
  cbn in Hf1, Hg1, Hq1, Ho1. rewrite (id_pending _ Hidle) in Ho1. rewrite (id_location _ Hidle) in Hq1. cbn [app] in Ho1.
  assert (∀ r, r ∈ currentMap s1 → r ∈ ids) as Hcur.
  { intros r Hr. destruct (cm_new _ _ _ _ _ _ _ _ _ _ _ _ _ _ C r Hr) as [Hr0|]; [|done]. cbn in Hr0. rewrite (id_current _ Hidle) in Hr0. set_solver. }
  destruct Hsv as [[Hroot ->]|(h0 & l0 & Hsv)].
  - (* the first flush *)
    rewrite Hroot. destruct fuel as [|fuel]; [lia|]. cbn [purgeNonCurrent res_bind]. change (keqb "" "") with true. cbn [res_bind].
    exists bid, nd, s1, N1, E1, m1. split_and!; [done|apply C| |].
    + exists ids, nd. split_and!; try done. intros id. split; [|by apply (ntree_dom _ _ _ _ _ Hn)].
      intros Hs. destruct (cm_dom _ _ _ _ _ _ _ _ _ _ _ _ _ _ C id Hs) as [[x []%lookup_empty_Some]|]; done.
    + split; [done..|by rewrite Ho1|by rewrite Ho1].
  - destruct Hsv as (ids0 & nd0 & Hn0 & Hnd0 & Hb0 & -> & Hh0 & Hids0).
    assert (data_of_node (node_of_data (Some (rootBlockId s)) nd0) = nd0) as ->.
    { destruct nd0 as [lf cl]. unfold data_of_node, node_of_data. cbn. by rewrite pairs_of_children. }
    assert (∀ id, id ∈ ids → is_Some (N !! id) → lies_below N (λ r, r ∈ currentMap s1) id) as Hcov.
    { intros id Hid Hs. destruct (cm_cover _ _ _ _ _ _ _ _ _ _ _ _ _ _ C id Hid Hs) as (r & hr & idsr & lr & Hr & Hnr & Hin).
      exists r, hr, idsr, lr. split_and!; [|done..]. destruct Hr as [|Hr]; [done|]. apply list_elem_of_singleton in Hr as ->.
      destruct (ntree_dom _ _ _ _ _ Hnr bid) as [x Hx]; [by eapply ntree_root_in|]. rewrite Hfresh in Hx; done. }
    pose proof (cm_inv _ _ _ _ _ _ _ _ _ _ _ _ _ _ C) as HI1. pose proof (cm_sub _ _ _ _ _ _ _ _ _ _ _ _ _ _ C) as HN1.
    destruct (purge_leaves_new N N1 (currentMap s1) h l bid ids h0 l0 (rootBlockId s) ids0) as [Hids' Hn']; try done.
    { apply C. }
    assert (∀ id x, N1 !! id = Some x → placed (p (nb s1)) id ∧ sane (p (nb s1)) x) as Hpl.
    { intros id x Hx. assert (∀ id, is_Some (N1 !! id) → placed (p (nb s1)) id) as Hp1.
      { intros id' [x' Hx']. by eapply (nodes_placed (H0 := nodes_store N)), Hx'. }
      split; [by apply Hp1; eauto|]. intros Hlf. apply Forall_forall. intros c Hc. apply Hp1.
      destruct (cm_dom _ _ _ _ _ _ _ _ _ _ _ _ _ _ C id ltac:(eauto)) as [[x0 Hx0]|Hid].
      - assert (x0 = x) as -> by (eapply lookup_weaken in Hx0; [|exact HN1]; congruence).
        assert (c.2 ∈ ids0) as Hin. { eapply ntree_closed; [exact Hn0| |exact Hx0|done..]. apply Hids0. eauto. }
        apply Hids0 in Hin as [y Hy]. exists y. by eapply lookup_weaken.
      - apply (ntree_dom _ _ _ _ _ Hn). exact (ntree_closed N1 h bid ids l id x c Hn Hid Hx Hlf Hc). }
    destruct (purge_ok (H0 := nodes_store N) codec unmarshal N1 (p (nb s1)) Hpl fuel h0 (rootBlockId s) nd0 ids0 l0 s1 ∅ E1 m1 B bm)
      as (s2 & E2 & m2 & -> & HI2 & Hlog & Hsame & Hc2 & _); try done.
    { by eapply ntree_mono. }
    { by eapply lookup_weaken. }
    { lia. }
    { by rewrite live_empty. }
    rewrite union_empty_l_L in HI2. cbn [res_bind]. eexists bid, nd, s2, _, E2, m2. split; [done|]. split_and!; [exact HI2| |].
    + exists ids, nd. split_and!; try done. rewrite live_lookup, decide_False; [done|].
      intros Hd. pose proof (Hids' bid) as Hb. rewrite live_lookup, decide_True in Hb by done.
      destruct Hb as [_ Hb]. destruct Hb as [? ?]; [by eapply ntree_root_in|done].
    + destruct Hlog as [(Hf2 & Hg2 & _ & Hq2) (ops2 & Ho2 & Hm2 & Hr2)], Hsame as (_ & _ & _ & Hsi2).
      rewrite Hf1 in Hf2, Ho2. split; try congruence.
      * rewrite Ho2, Ho1. rewrite Hm2, Hm1. unfold replay. by rewrite fold_left_app.
      * rewrite Ho2, Ho1. apply replayable_app; [done|]. by rewrite <- Hm1.
Qed.

(** ** The superblock is written *)

Lemma inv_root_location N s N' E m B bm bid nd :
  inv_on N s N' E m B bm → N' !! bid = Some nd →
  ∃ root, NewLocationSliceFromBlockId bid = Ok root ∧ ToBlockId root = bid ∧ (0 < BytesTotal (sb (nb s)))%Z.
Proof.
  intros HI Hb. destruct (ni_nodes _ _ _ _ _ _ _ _ HI bid nd Hb) as (o & sz & -> & Ho & _).
  pose proof (inv_small (H0 := nodes_store N) codec unmarshal s N' E m B bm HI _ _ _ Ho) as Hsm.
  pose proof (eo_in _ _ (ai_ext _ _ _ (ni_alloc _ _ _ _ _ _ _ _ HI)) _ _ _ Ho).
  exists [mkLE o sz]. split_and!; [by apply ToBlockId_slice|done|lia].
Qed.

Lemma nextSuperblock_ok N s N' E m B bm bid nd :
  inv_on N s N' E m B bm → N' !! bid = Some nd → (0 ≤ superIndex s)%Z → (0 ≤ Generation (sb (nb s)) < 2 ^ 64 - 1)%Z →
  ∃ root si n s', nextSuperblock bid s = Ok (superBlockOffset si, s') ∧ ToBlockId root = bid ∧
    sb_count (BytesTotal (sb (nb s))) n ∧ si < n ∧ si ≤ 10 ∧ inv_on N s' N' E m B bm ∧
    nb s' = upd_sb (λ x, sb_RootLocation root (sb_Generation (λ g, g + 1)%Z x)) (nb s) ∧
    superIndex s' = (superIndex s + 1)%Z ∧ slots_ok codec (p (nb s)) (Generation (sb (nb s))).
Proof.
  intros HI Hb Hsi Hg. destruct (inv_root_location N s N' E m B bm bid nd HI Hb) as (root & Er & Eid & Hpos).
  unfold nextSuperblock. rewrite Er. cbn [res_bind]. pose proof (ai_total _ _ _ (ni_alloc _ _ _ _ _ _ _ _ HI)) as Ht.
  destruct (sb_count_spec _ (proj1 Ht)) as (n & Hn & Hn11 & _ & Hc). unfold sb_count in Hn.
  set (s1 := set_superIndex _ _).
  change (numberOfSuperBlocks (nb s1)) with (calculateNumberOfSuperBlocks (BytesTotal (sb (nb s)))). rewrite Hn. cbn [res_bind].
  destruct (Nat.eqb_spec n 0) as [->|Hn0]; [lia|].
  assert (wrap64 (Generation (sb (nb s)) + 1) = Generation (sb (nb s)) + 1)%Z as Hw by (apply wrap_small; unfold in_uint64; lia).
  assert (nb s1 = upd_sb (λ x, sb_RootLocation root (sb_Generation (λ g, g + 1)%Z x)) (nb s)) as Hs1.
  { unfold s1, upd_sb, sb_RootLocation, sb_Generation. cbn. by rewrite Hw. }
  change (superIndex s1) with (superIndex s + 1)%Z.
  pose proof (Z.rem_bound_pos (superIndex s + 1) (Z.of_nat n)).
  eexists root, _, n, s1. split; [done|]. split_and!; try done; [lia..| |apply HI].
  split; rewrite ?Hs1; cbn [upd_sb sb p sb_RootLocation sb_Generation Generation]; try apply HI.
  - destruct (ni_alloc _ _ _ _ _ _ _ _ HI). by split.
  - intros i x Hi Hx. destruct (ni_slots _ _ _ _ _ _ _ _ HI i x Hi Hx). split; [lia|done].
Qed.

(** The superblock fits into its area. *)
Definition sb_fits (s : nbackend) : Prop :=
  sb_encodable (sb (nb s)) ∧
  ∀ b enc rnd', sb_MarshalMsg (sb (nb s)) = inr b → EncodeBytes codec b "" (rnd (nb s)) = (inr enc, rnd') →
    (Z.of_nat (String.length enc) ≤ superBlockSize)%Z.

Lemma writeSuperblock_ok fuel N s N' E m B bm si n g :
  inv_on N s N' E m B bm → sb_count (BytesTotal (sb (nb s))) n → si < n → si ≤ 10 → sb_fits s →
  PendingLocation (sb (nb s)) = None → slots_ok codec (p (nb s)) g → (g < Generation (sb (nb s)))%Z →
  ∃ f' rnd', writeSuperblock codec fuel (superBlockOffset si) s = Ok ([], upd_nb (set_p f') (upd_nb (set_rnd rnd') s)) ∧
    inv_on N (upd_nb (set_p f') (upd_nb (set_rnd rnd') s)) N' E m B bm ∧
    parse_sb codec (slot f' si) = Some (sb (nb s)) ∧ (superBlockOffset si ≤ file_Size f')%Z ∧
    ∀ i x, i ≤ 10 → i ≠ si → parse_sb codec (slot f' i) = Some x → (Generation x ≤ g)%Z ∧ PendingLocation x = None.
Proof.
  intros HI Hn Hsi Hsi10 [Henc Hfits] Hloc Hslots Hg. unfold writeSuperblock.
  destruct (sb_prefix (sb (nb s)) Henc Hloc) as (b & Eb & Hdec). rewrite Eb. unfold encode.
  destruct (codec_total b "" (rnd (nb s))) as (enc & rnd' & Ee). rewrite Ee. cbn [res_bind].
  pose proof (Hfits b enc rnd' Eb Ee) as Hlen. destruct (Z.leb_spec (Z.of_nat (String.length enc)) superBlockSize); [|lia].
  pose proof (superBlockOffset_facts si Hsi10) as Hof. pose proof (ni_alloc _ _ _ _ _ _ _ _ HI) as HA.
  pose proof (ai_super _ _ _ HA n si Hn Hsi) as Hsup. pose proof (eo_in _ _ (ai_ext _ _ _ HA) _ _ _ Hsup) as Hin.
  pose proof (ai_total _ _ _ HA) as Ht.
  destruct (write_bytes (p (nb s)) (superBlockOffset si) enc) as (f' & Ew & Hby & Hrest & Hsz); [lia|lia|].
  unfold on_nb, WriteData. simpl default. cbn [nb upd_nb p set_rnd]. rewrite Ew. cbn [res_bind].
  assert (∀ i, i ≤ 10 → i ≠ si → slot f' i = slot (p (nb s)) i) as Hother.
  { intros i Hi Hne. apply slot_ext; [done|]. intros j Hj. apply Hrest.
    destruct (decide (i < si)).
    - pose proof (superBlockOffset_facts i Hi). pose proof (superBlockOffset_le_mono (S i) si). lia.
    - pose proof (superBlockOffset_le_mono (S si) i). lia. }
  assert (parse_sb codec (slot f' si) = Some (sb (nb s))) as Hnew.
  { unfold parse_sb. rewrite slot_bytes. replace (Z.to_nat superBlockSize) with (String.length enc + (Z.to_nat superBlockSize - String.length enc)) by lia.
    rewrite bytes_app, Hby, str_app_list, string_list_id.
    destruct (codec_prefix _ _ _ _ (String.string_of_list_ascii (bytes f' (Z.to_nat (superBlockOffset si) + String.length enc)
      (Z.to_nat superBlockSize - String.length enc))) Ee) as (rest' & ->). by rewrite Hdec. }
  exists f', rnd'. split_and!; [done| |done|lia|].
  - apply (node_inv_file (H0 := nodes_store N)).
    + eapply (node_inv_ext (H0 := nodes_store N)); [exact HI|done..].
    + cbn [nb upd_nb p set_rnd]. pose proof (ni_size _ _ _ _ _ _ _ _ HI). lia.
    + intros o sz i Ho Hi. cbn [nb upd_nb p set_rnd]. apply Hrest.
      destruct (slot_apart (H0 := nodes_store N) _ _ _ _ _ si HA Ho Hsi10); lia.
    + cbn [nb upd_nb sb set_rnd]. intros i x Hi Hx. destruct (decide (i = si)) as [->|Hne].
      * rewrite Hnew in Hx. injection Hx as <-. split; [lia|done].
      * rewrite Hother in Hx by done. destruct (Hslots i x Hi Hx). split; [lia|done].
  - intros i x Hi Hne Hx. rewrite Hother in Hx by done. by apply (Hslots i x Hi).
Qed.

(** ** The log is applied to the saved tree *)

Lemma saved_tree_flat N bid root h l : saved_tree N bid root h l → flat (stored N) h root l ∧ synced (stored N) root ∧ h ≤ tx_height.
Proof. intros (ids & nd & Hn & _ & Hb & -> & Hh & _). split_and!; [by eapply ntree_flat|by constructor|done]. Qed.

(** A transaction on the saved tree. *)
Lemma saved_transaction N0 N s0 (s : nbackend) E m m' B bm bid root h l :
  inv_on N0 s0 N E m' B bm → saved_tree N bid root h l → list_rep l m → p (nb s) = p (nb s0) → cache_ok (nodeDataCache s) N →
  @tx_rep T _ (nodes_store N) (t (nb (newTransaction codec root s))) m.
Proof.
  intros HI Hsv Hl Hp HC. destruct (saved_tree_flat _ _ _ _ _ Hsv) as (Hfl & Hsy & Hh).
  cbn [nb newTransaction upd_nb t set_t]. eapply tx_New_ok; [|done..]. apply (load_of_stored s N E B); [|done| |].
  - rewrite Hp. apply HI.
  - by apply (inv_small (H0 := nodes_store N0) codec unmarshal s0 N E m' B bm).
  - rewrite Hp. destruct Hsv as (ids & nd0 & Hn & _ & _ & _ & _ & Hids). intros id nd EN Hlf. apply Forall_forall. intros c Hc.
    assert (c.2 ∈ ids) as [z Hz]%Hids. { eapply ntree_closed; [exact Hn| |done..]. apply Hids. eauto. }
    by eapply (nodes_placed (H0 := nodes_store N0)), Hz.
Qed.

(** With the log applied, it has the free space of the backend. *)
Lemma apply_log N0 N s0 (s : nbackend) E m ops m' B bm :
  inv_on N0 s0 N E m' B bm → @tx_rep T _ (nodes_store N) (t (nb s)) m → m' = replay ops m → replayable ops m →
  sb (nb s) = sb_Pending (λ _, ops) (sb (nb s0)) → p (nb s) = p (nb s0) → cache_ok (nodeDataCache s) N →
  ∃ y, on_nb flushPending s = Ok (upd_nb (λ b, upd_sb (sb_Pending (λ _, [])) (set_t y b)) s) ∧
    inv_on N (upd_nb (λ b, upd_sb (sb_Pending (λ _, [])) (set_t y b)) s) N E m' B bm.
Proof.
  intros HI Ht Hm' Hr Hs Hp HC. unfold on_nb, flushPending.
  assert (Pending (sb (nb s)) = ops) as Hpe by (by rewrite Hs). rewrite Hpe.
  destruct (flush_ops_ok (H0 := nodes_store N) ops (nb s) m Ht Hr) as (y & Ey & Hy).
  rewrite Ey. cbn [res_bind]. exists y. split; [done|]. rewrite <- Hm' in Hy.
  pose proof (ni_alloc _ _ _ _ _ _ _ _ HI) as HA.
  split; cbn [nb upd_nb upd_sb set_t sb p nodeDataCache]; rewrite ?Hp.
  - destruct HA. split; cbn [sb t upd_sb set_t]; rewrite ?Hs; done.
  - apply HI.
  - intros id. pose proof (ni_view _ _ _ _ _ _ _ _ HI id) as Hv. destruct (B !! id); [|done]. unfold ReadData in *. cbn [p upd_sb set_t]. by rewrite Hp.
  - apply HI.
  - exact HC.
  - rewrite Hs. apply HI.
  - apply HI.
Qed.

(** What a flush leaves behind: [sb'] is in slot [si], and is newer than what the other slots hold. *)
Definition recoverable (f : list ascii) (si : nat) (sb' : Superblock) : Prop :=
  si ≤ 10 ∧ (superBlockOffset si ≤ file_Size f)%Z ∧ parse_sb codec (slot f si) = Some sb' ∧ PendingLocation sb' = None ∧
  (∀ i x, i ≤ 10 → i ≠ si → parse_sb codec (slot f i) = Some x → (Generation x < Generation sb')%Z ∧ PendingLocation x = None).

(** What a flush needs: the nodes can be saved, and the superblock fits. *)
Definition flush_accepts (fuel : nat) (root : Node) (s : nbackend) : Prop :=
  commit_accepts codec root (newTransaction codec root (set_flushing true s)) ∧
  (0 ≤ Generation (sb (nb s)) < 2 ^ 64 - 1)%Z ∧
  ∀ r r', flushNodes codec fuel root s = Ok r → nextSuperblock r.1.2 r.2 = Ok r' → sb_fits r'.2.

Lemma tree_Flush_ok fuel s N E m B bm root :
  inv_on N s N E m B bm → saved_ok s N → idle s → tx_Root (t (nb s)) = Ok root → blockId root = None →
  ptr_eq root (unchangedRoot s) = false → flush_accepts fuel root s → tx_height < fuel →
  ∃ s' si sb' N' E' m' ops h l, tree_Flush codec ptr_eq fuel s = Ok s' ∧
    inv_on N' s' N' E' m' B bm ∧ idle s' ∧ saved_tree N' (rootBlockId s') (savedRoot s') h l ∧
    list_rep l m ∧ m' = replay ops m ∧ replayable ops m ∧
    recoverable (p (nb s')) si sb' ∧ sb' = sb_Pending (λ _, ops) (sb (nb s')) ∧ rootBlockId s' = ToBlockId (RootLocation sb').
Proof.
  intros HI Hsv Hidle Hroot Hnew Hptr (Hacc & Hgen & Hfits) Hfuel.
  destruct (tx_Root_ok N _ _ (ai_rep _ _ _ (ni_alloc _ _ _ _ _ _ _ _ HI))) as (n & h & l & En & Hfl & Hh & Hl & Hsy).
  assert (n = root) as -> by congruence. unfold tree_Flush. rewrite Hroot. cbn [res_bind]. rewrite Hptr.
  destruct (flushNodes_ok fuel s N E m B bm root h l HI Hsv Hidle Hfl Hh Hl Hsy Hnew Hacc Hfuel)
    as (bid & nd & s1 & N1 & E1 & m1 & Ef & HI1 & Hsv1 & [F1 F2 F3 F4 F5 F6]).
  rewrite Ef. cbn [res_bind].
  assert (N1 !! bid = Some nd) as Hbid.
  { destruct Hsv1 as (ids & nd' & _ & _ & Hb & E0 & _). destruct nd as [lf cl], nd' as [lf' cl']. unfold node_of_data in E0. cbn in E0.
    injection E0 as -> Ecl. apply (f_equal (map pair_of_child)) in Ecl. rewrite !pairs_of_children in Ecl. by subst. }
  destruct (nextSuperblock_ok N s1 N1 E1 m1 B bm bid nd HI1 Hbid) as (root1 & si & n & s2 & En2 & Eid & Hn & Hsi & Hsi10 & HI2 & Hnb2 & Hidx2 & Hsl);
    [rewrite F4; apply Hidle|by rewrite F2|].
  rewrite En2. cbn [res_bind fst snd]. pose proof (Hfits _ _ Ef En2) as Hfit. cbn [fst snd] in Hfit.
  destruct (writeSuperblock_ok fuel N s2 N1 E1 m1 B bm si n (Generation (sb (nb s1))) HI2) as (f' & rnd' & Ew & HI3 & Hpar & Hof & Hoth);
    [by rewrite Hnb2|exact Hsi|exact Hsi10|exact Hfit|by rewrite Hnb2|rewrite Hnb2; exact Hsl|rewrite Hnb2; cbn; lia|].
  rewrite Ew. cbn [res_bind fst snd]. unfold finishFlush.
  set (s3 := upd_nb (set_p f') (upd_nb (set_rnd rnd') s2)) in *.
  set (s4 := set_flushing false (newTransaction codec (node_of_data (Some bid) nd) (set_saved (node_of_data (Some bid) nd) bid s3))).
  assert (PendingLocation (sb (nb s4)) = None) as Hloc4 by (cbn; rewrite Hnb2; cbn; done).
  rewrite Hloc4. cbn [res_bind].
  pose proof (saved_transaction N N1 s3 (set_saved (node_of_data (Some bid) nd) bid s3) E1 m m1 B bm bid _ h l HI3 Hsv1 Hl eq_refl (ni_cache _ _ _ _ _ _ _ _ HI3)) as Ht4.
  destruct (apply_log N N1 s3 s4 E1 m (Pending (sb (nb s1))) m1 B bm HI3 Ht4 F5 F6) as (y & Ey & HI5); [|done|apply HI3|].
  { cbn. rewrite Hnb2. cbn. by destruct (sb (nb s1)). }
  rewrite Ey. cbn [res_bind]. set (s6 := upd_nb _ s4) in *.
  destruct (tx_Root_ok N1 _ _ (ai_rep _ _ _ (ni_alloc _ _ _ _ _ _ _ _ HI5))) as (rt & _ & _ & Ert & _). rewrite Ert. cbn [res_bind].
  set (s7 := set_currentMap ∅ (set_unchanged rt s6)).
  exists s7, si, (sb (nb s2)), N1, E1, m1, (Pending (sb (nb s1))), h, l.
  split; [done|].
  split; [eapply (node_inv_ext (H0 := nodes_store N1)); [exact HI5|done..]|].
  split; [split; try done; cbn; rewrite Hidx2, F4; pose proof (id_index _ Hidle); lia|].
  split; [exact Hsv1|]. split; [exact Hl|]. split; [exact F5|]. split; [exact F6|]. split.
  - split; [exact Hsi10|]. split; [exact Hof|]. split; [exact Hpar|]. split; [by rewrite Hnb2|].
    intros i x Hi Hne Hx. destruct (Hoth i x Hi Hne Hx). split; [|done]. rewrite Hnb2. cbn. lia.
  - split; [cbn; rewrite Hnb2; done|]. rewrite Hnb2. done.
Qed.

(** ** Starting from the device *)

Lemma readSuperblock_ok i best (s : nbackend) :
  i ≤ 10 → (superBlockOffset i ≤ file_Size (p (nb s)))%Z →
  (∀ x, parse_sb codec (slot (p (nb s)) i) = Some x → PendingLocation x = None) →
  readSuperblock codec i best s =
  Ok (match parse_sb codec (slot (p (nb s)) i) with
      | None => best
      | Some x => if match best with Some bs => (Generation x <? Generation bs)%Z | None => false end then best else Some x
      end, s).
Proof.
  intros Hi Ho Hx. pose proof (superBlockOffset_facts i Hi) as Hof. unfold readSuperblock, ReadData.
  rewrite ReadData_bytes by lia. cbn [res_bind]. rewrite <- slot_bytes. unfold parse_sb in *.
  destruct (DecodeBytes codec (slot (p (nb s)) i) "") as [|d]; [done|]. cbn [res_bind].
  destruct (sb_UnmarshalMsg d) as [|x]; [done|]. destruct (match best with Some bs => _ | None => false end); [done|].
  by rewrite (Hx x eq_refl).
Qed.

Lemma init_loop_ok slots best (s : nbackend) si sb' :
  recoverable (p (nb s)) si sb' → (∀ i, i ∈ slots → i ≤ 10 ∧ (superBlockOffset i ≤ file_Size (p (nb s)))%Z) → NoDup slots →
  (si ∈ slots ∧ (∀ x, best = Some x → (Generation x < Generation sb')%Z)) ∨ (si ∉ slots ∧ best = Some sb') →
  init_loop codec slots best s = Ok (Some sb', s).
Proof.
  intros (Hsi & Ho & Hp & Hloc & Hoth). revert best. induction slots as [|i slots IH]; intros best Hs Hnd Hor.
  - destruct Hor as [[[]%not_elem_of_nil _]|[_ ->]]. done.
  - cbn [init_loop]. destruct (Hs i) as [Hi Hio]; [by left|]. apply NoDup_cons in Hnd as [Hni Hnd].
    assert (∀ j, j ∈ slots → j ≤ 10 ∧ (superBlockOffset j ≤ file_Size (p (nb s)))%Z) as Hs' by (intros j Hj; apply Hs; by right).
    destruct (decide (i = si)) as [->|Hne].
    + rewrite readSuperblock_ok; [|done..|intros x Hx; congruence]. rewrite Hp. cbn [res_bind fst snd].
      destruct Hor as [[_ Hbest]|[Hn _]]; [|destruct Hn; by left].
      assert (match best with Some bs => (Generation sb' <? Generation bs)%Z | None => false end = false) as ->.
      { destruct best as [bs|]; [|done]. apply Z.ltb_ge. pose proof (Hbest bs eq_refl). lia. }
      apply IH; [done..|]. by right.
    + rewrite readSuperblock_ok; [|done..|intros x Hx; by apply (Hoth i x)]. cbn [res_bind fst snd]. apply IH; [done..|].
      destruct Hor as [[Hin Hbest]|[Hn ->]].
      * left. split; [by apply elem_of_cons in Hin as [|]|]. destruct (parse_sb codec (slot (p (nb s)) i)) as [y|] eqn:Ey; [|done].
        destruct (match best with Some bs => _ | None => false end); [done|]. intros x [= <-]. by apply (Hoth i y).
      * right. split; [by intros Hin; apply Hn; right|]. destruct (parse_sb codec (slot (p (nb s)) i)) as [y|] eqn:Ey; [|done].
        destruct (Hoth i y Hi Hne Ey) as [Hlt _]. apply Z.ltb_lt in Hlt. by rewrite Hlt.
Qed.

Lemma cache_new N : cache_ok (Cart_Init 1234) N.
Proof.
  split_and!; [exists (λ _, []); by apply Cart_Init_ok|done|]. intros id nd _. left. apply Cart_Init_cached.
Qed.

Lemma tree_Init_ok cacheSize r N0 s N E m ops m' B bm h l si sb' :
  inv_on N0 s N E m' B bm → saved_tree N (ToBlockId (RootLocation sb')) (savedRoot s) h l → list_rep l m →
  m' = replay ops m → replayable ops m → recoverable (p (nb s)) si sb' → sb' = sb_Pending (λ _, ops) (sb (nb s)) →
  ∃ s', tree_Init codec cacheSize (p (nb s)) r = Ok s' ∧ inv_on N s' N E m' B bm ∧ idle s' ∧
    saved_tree N (rootBlockId s') (savedRoot s') h l ∧ sb (nb s') = sb_Pending (λ _, []) sb' ∧ p (nb s') = p (nb s).
Proof.
  intros HI Hsv Hl Hm' Hr Hrec Esb. pose proof (ni_size _ _ _ _ _ _ _ _ HI) as Hsz. pose proof Hrec as (Hsi & Hof & _ & Hloc & _).
  pose proof Hsv as (ids & nd & Hn & _ & Hb & Eroot & Hh & Hids). set (bid := ToBlockId (RootLocation sb')) in *.
  assert (0 < file_Size (p (nb s)))%Z as Hpos.
  { destruct (ni_nodes _ _ _ _ _ _ _ _ HI bid nd Hb) as (o & sz & _ & Ho & Hf & _). pose proof (ni_alloc _ _ _ _ _ _ _ _ HI) as HA.
    pose proof (eo_in _ _ (ai_ext _ _ _ HA) _ _ _ Ho).
    destruct (slot_apart (H0 := nodes_store N0) _ _ _ _ _ 0 HA Ho) as [Hx|Hx]; [lia|change (superBlockOffset 0) with 0%Z in Hx; lia|].
    change (superBlockOffset 0 + superBlockSize)%Z with 65536%Z in Hx. lia. }
  unfold tree_Init. destruct (sb_count_spec (file_Size (p (nb s)))) as (n & Hcnt & Hn11 & Hall & Hc); [lia|].
  unfold sb_count in Hcnt. rewrite Hcnt. cbn [res_bind]. set (s0 := newTreeBackend cacheSize (p (nb s)) r).
  assert (si < n) as Hsin.
  { destruct Hc as [[? ?]|[Hlt Hn0]]; [lia|]. destruct (decide (si < n)); [done|]. pose proof (superBlockOffset_le_mono n si). lia. }
  rewrite (init_loop_ok (seq 0 n) None s0 si sb'); [|done| |apply NoDup_seq|left; split; [apply elem_of_seq; lia|done]].
  2: { intros i Hi%elem_of_seq. split; [lia|]. apply Hall. lia. }
  cbn [res_bind]. fold bid.
  destruct (load_live codec s0 N E B bid nd) as (c & Ec & Hc0); [apply HI|apply cache_new|by apply (inv_small (H0 := nodes_store N0) codec unmarshal s N E m' B bm)|done| |].
  { intros Hlf. apply Forall_forall. intros ch Hch. assert (ch.2 ∈ ids) as [z Hz]%Hids. { eapply ntree_closed; [exact Hn| |done..]. apply Hids. eauto. }
    change (placed (p (nb s)) ch.2). by eapply (nodes_placed (H0 := nodes_store N0)), Hz. }
  rewrite Ec. cbn [res_bind fst snd deref].
  set (s1 := set_unchanged (node_of_data (Some bid) nd) (upd_nb (upd_sb (λ _, sb')) (set_saved (node_of_data (Some bid) nd) bid (set_nodeDataCache c s0)))).
  rewrite Eroot in Hsv.
  pose proof (saved_transaction N0 N s s1 E m m' B bm bid _ h l HI Hsv Hl eq_refl Hc0) as Ht1.
  destruct (apply_log N0 N s (newTransaction codec (node_of_data (Some bid) nd) s1) E m ops m' B bm HI Ht1 Hm' Hr Esb eq_refl Hc0) as (y & Ey & HIy).
  rewrite Ey. eexists. split; [done|]. split_and!; [exact HIy| |exact Hsv|done|done].
  split; done.
Qed.

End recover.
