(* ===== verification/TreeKeep.v ===== *)
(** * The block operations keep the nodes

    StoreBlock, UpdateBlock and DeleteBlock on a device that also holds the nodes of the tree. *)
From stdpp Require Import base list sets strings sorting gmap.
From Stdlib Require Import ZArith Lia Ascii.
From S2P Require Import Prelude OrderedMap Util IBNode IBStack IBTree IBSync IBPersist NodeBytes LinkedList Cart CartFacts CartProps Codec Backend TreeLocation TreeBackend TreeStore TreeAlloc TreeBlocks TreeNodes TreeFlush TreeDisk TreeSave.

Section keep.
Context {T R : Type} `{TxStoreOk T} `{TreeEnv}.
Context (codec : Codec R) `{!CodecOk codec} `{!CodecTotal codec}.
Context (marshal : BlockData → gerr string) (unmarshal : string → gerr BlockData).
Hypothesis marshal_ok : ∀ bd, ∃ b, marshal bd = inr b ∧ unmarshal b = inr bd.
Abbreviation nbackend := (nodeBackend T R).
Abbreviation node_inv := (node_inv codec unmarshal).

(** A call on the blocks, in the whole backend. *)
Definition with_nb (s : nbackend) (b : treeBackend T R) : nbackend := upd_nb (λ _, b) s.

(** The table gets or changes an entry. *)
Lemma node_inv_entry (s : nbackend) N E m B bm id bd b d x :
  node_inv s N E m B bm → alloc_inv (set_t x (nb s)) E (<[pre "b" id := b]> m) → unmarshal b = inr bd →
  Forall (le_in (p (nb s)) E) (bd_Location bd) → NoDup (map Offset (bd_Location bd)) →
  (∀ id' bd' le le', B !! id' = Some bd' → id' ≠ id → le ∈ bd_Location bd → le' ∈ bd_Location bd' → Offset le ≠ Offset le') →
  (∀ o sz le nid nd, N !! nid = Some nd → nid = ToBlockId [mkLE o sz] → E !! o = Some (sz, Used) → le ∈ bd_Location bd → Offset le ≠ o) →
  ReadData codec (bd_Location bd) (nb s) = Ok (Some d) →
  node_inv (with_nb s (set_t x (nb s))) N E (<[pre "b" id := b]> m) (<[id := bd]> B) (<[id := (bd_Meta bd, d)]> bm).
Proof.
  intros HI HA Hu HF Hnd Hown Hnodes Hread. split; cbn [nb with_nb upd_nb p set_t nodeDataCache sb]; try apply HI.
  - exact HA.
  - apply blocks_ok_insert; try done. apply HI.
  - intros id'. destruct (decide (id' = id)) as [->|Hne].
    + rewrite !lookup_insert_eq. exists d. split; [done|]. exact Hread.
    + rewrite !lookup_insert_ne by done. exact (ni_view _ _ _ _ _ _ _ _ HI id').
  - intros nid nd Hnid. destruct (ni_nodes _ _ _ _ _ _ _ _ HI nid nd Hnid) as (o & sz & Eid & Ho & Hf & Hat & Hb).
    exists o, sz. split_and!; try done. intros id' bd' le [[<- <-]|[_ Hbd]]%lookup_insert_Some Hle; [|by eapply Hb].
    by eapply (Hnodes o sz le nid nd).
Qed.

(** The slice for some data, written; no data needs no space. *)
Lemma node_alloc_write enc (s : nbackend) N E m B bm :
  node_inv s N E m B bm → room (Z.of_nat (String.length enc)) (nb s) →
  ∃ s1 ls b2 E' m', allocateSlice (Z.of_nat (String.length enc)) (nb s) = Ok (Some ls, s1) ∧
    WriteData (Some ls) enc s1 = Ok b2 ∧ node_inv (with_nb s b2) N E' m' B bm ∧
    file_ReadData (p b2) ls = Ok enc ∧ Forall (le_in (p b2) E') ls ∧ NoDup (map Offset ls) ∧
    (∀ le sz, le ∈ ls → E !! Offset le ≠ Some (sz, Used)) ∧
    (flushing b2 = flushing (nb s) ∧ (flushing (nb s) = false → Pending (sb b2) = Pending (sb (nb s))) ∧ PendingLocation (sb b2) = PendingLocation (sb (nb s))) ∧
    (∀ o sz, E !! o = Some (sz, Used) → E' !! o = Some (sz, Used)).
Proof.
  intros HI Hroom. destruct (decide (enc = "")) as [->|Hne].
  { exists (nb s), [], (set_p (p (nb s)) (nb s)), E, m. split_and!; try done.
    - by eapply node_inv_ext; [exact HI|..].
    - by apply NoDup_nil_2.
    - intros le sz []%not_elem_of_nil. }
  destruct (alloc_write enc (nb s) E m (ni_alloc _ _ _ _ _ _ _ _ HI) Hne Hroom) as (s1 & o & E' & m' & f' & Ea & Ew & HA & Htr & Hused & Hw & Hn & Ho).
  set (n := Z.of_nat (String.length enc)) in *.
  pose proof (node_inv_write codec unmarshal s s1 f' N E E' m m' B bm o enc HI HA Htr Hused Hw (proj2 Hn) Ho) as HI1.
  pose proof (inv_small codec unmarshal _ _ _ _ _ _ HI1 _ _ _ Ho) as Hsm. destruct Hw as (Hby & _ & Hsz).
  exists s1, [mkLE o n], (set_p f' s1), E', m'. split_and!; try done.
  - cbn [p set_p]. rewrite ReadData_bytes by lia. unfold n. rewrite Nat2Z.id, Hby. by rewrite string_list_id.
  - apply Forall_singleton. split_and!; cbn [Offset Size p set_p]; [by rewrite BlockSize_offset|lia..|rewrite BlockSize_offset; lia|].
    fold n in Hsz. lia.
  - apply NoDup_singleton.
  - intros le sz ->%list_elem_of_singleton. cbn [Offset]. apply (proj1 Hused).
  - cbn [flushing set_p]. by destruct Htr as [(_ & -> & _) _].
  - intros Hf. destruct Htr as [_ (ops & Hp & _)]. cbn [sb set_p]. by rewrite Hp, Hf, app_nil_r.
  - cbn [sb set_p]. by destruct Htr as [(_ & _ & _ & _ & _ & ->) _].
  - intros o' sz' Ho'. apply (proj2 Hused). by right.
Qed.

(** What the operations leave alone. *)
Definition quiet (s s' : nbackend) : Prop :=
  same_saved s s' ∧ currentMap s' = currentMap s ∧ flushing (nb s') = flushing (nb s) ∧
  (flushing (nb s) = false → Pending (sb (nb s')) = Pending (sb (nb s))) ∧ PendingLocation (sb (nb s')) = PendingLocation (sb (nb s)).

Lemma node_StoreBlock bl (s : nbackend) N E m B bm d :
  node_inv s N E m B bm → bm !! Id bl = None → Data bl = Some d → tree_accepts codec bl (nb s) →
  ∃ b' E' m' B', tree_StoreBlock codec marshal bl (nb s) = Ok b' ∧
    node_inv (with_nb s b') N E' m' B' (<[Id bl := (Meta bl, d)]> bm) ∧ quiet s (with_nb s b').
Proof.
  intros HI Hnone Hd Hacc. unfold tree_StoreBlock. rewrite Hd. cbn [deref res_bind].
  destruct (codec_total d "" (rnd (nb s))) as (enc & rnd' & Henc). rewrite Henc.
  assert (node_inv (upd_nb (set_rnd rnd') s) N E m B bm) as HI0 by (eapply node_inv_ext; [exact HI|done..]).
  destruct (node_alloc_write enc (upd_nb (set_rnd rnd') s) N E m B bm HI0 (Hacc d enc rnd' Hd Henc))
    as (s1 & ls & b2 & E' & m' & Ea & Ew & HI2 & Hrd & Hin & Hnd & Hfresh & Hq & Hold).
  cbn [nb upd_nb] in Ea. rewrite Ea. cbn [res_bind fst snd]. rewrite Ew. cbn [res_bind]. change (default [] (Some ls)) with ls.
  destruct (setBlockData_ok marshal unmarshal marshal_ok (Id bl) (mkBlockData (Meta bl) ls) b2 E' m' (ni_alloc _ _ _ _ _ _ _ _ HI2)) as (x & b & Es & Hu & HA3).
  exists (set_t x b2), E', (<[pre "b" (Id bl) := b]> m'), (<[Id bl := mkBlockData (Meta bl) ls]> B). split; [exact Es|]. split; [|by split].
  apply (node_inv_entry (with_nb (upd_nb (set_rnd rnd') s) b2) N E' m' B bm (Id bl) (mkBlockData (Meta bl) ls) b d x HI2 HA3 Hu); try done.
  - intros id' bd' le le' Hb' Hne Hle Hle' Eo. destruct (bo_in _ _ _ _ _ (ni_blocks _ _ _ _ _ _ _ _ HI) id' bd' Hb') as [HF _].
    rewrite Forall_forall in HF. destruct (HF le' Hle') as (HE & _). rewrite <- Eo in HE. by eapply Hfresh.
  - intros o sz le nid nd Hnid Eid Ho Hle Eo. destruct (ni_nodes _ _ _ _ _ _ _ _ HI nid nd Hnid) as (o' & sz' & Eid' & Ho' & _).
    rewrite Eid in Eid'. apply ToBlockId_inj in Eid' as [<- <-].
    + rewrite <- Eo in Ho'. by eapply Hfresh.
    + by eapply (inv_small codec unmarshal _ _ _ _ _ _ HI2), Ho.
    + by eapply (inv_small codec unmarshal _ _ _ _ _ _ HI), Ho'.
  - unfold ReadData. cbn [nb with_nb upd_nb bd_Location]. rewrite Hrd. cbn [res_bind]. by rewrite (codec_roundtrip _ _ _ _ _ Henc).
Qed.

Lemma node_getBlockData id (s : nbackend) N E m B bm :
  node_inv s N E m B bm → ∃ x, getBlockData unmarshal id (nb s) = Ok (B !! id, set_t x (nb s)) ∧ node_inv (with_nb s (set_t x (nb s))) N E m B bm.
Proof.
  intros HI. unfold getBlockData. destruct (st_Get_ok "b" id (t (nb s)) m (ai_rep _ _ _ (ni_alloc _ _ _ _ _ _ _ _ HI))) as (x & E1 & Hx).
  unfold blockTree. rewrite E1. cbn [res_bind fst snd]. exists x. pose proof (bo_table _ _ _ _ _ (ni_blocks _ _ _ _ _ _ _ _ HI) id) as Hb. split.
  - destruct (B !! id) as [bd|]; [|by rewrite Hb]. by destruct Hb as (b & -> & ->).
  - split; cbn [nb with_nb upd_nb p set_t nodeDataCache sb]; try apply HI. apply alloc_inv_lookup; [apply HI|done].
Qed.

Lemma node_UpdateBlock bl (s : nbackend) N E m B bm md d :
  node_inv s N E m B bm → bm !! Id bl = Some (md, d) →
  ∃ b' m' B', tree_UpdateBlock marshal unmarshal bl (nb s) = Ok (1%Z, b') ∧
    node_inv (with_nb s b') N E m' B' (<[Id bl := (Meta bl, d)]> bm) ∧ quiet s (with_nb s b').
Proof.
  intros HI Hbm. unfold tree_UpdateBlock. destruct (node_getBlockData (Id bl) s N E m B bm HI) as (x & E1 & HI1). rewrite E1. cbn [res_bind fst snd].
  pose proof (ni_view _ _ _ _ _ _ _ _ HI (Id bl)) as Hv. destruct (B !! Id bl) as [bd|] eqn:Eb; [|congruence]. cbn [deref res_bind].
  destruct Hv as (d' & Hbm' & Hr). assert (d' = d) as -> by congruence.
  destruct (setBlockData_ok marshal unmarshal marshal_ok (Id bl) (mkBlockData (Meta bl) (bd_Location bd)) (set_t x (nb s)) E m (ni_alloc _ _ _ _ _ _ _ _ HI1)) as (y & b & Es & Hu & HA2).
  rewrite Es. cbn [res_bind]. eexists _, _, _. split; [done|]. split; [|by split].
  destruct (bo_in _ _ _ _ _ (ni_blocks _ _ _ _ _ _ _ _ HI) _ _ Eb) as [HF Hnd].
  apply (node_inv_entry (with_nb s (set_t x (nb s))) N E m B bm (Id bl) (mkBlockData (Meta bl) (bd_Location bd)) b d y HI1 HA2 Hu); try done.
  - intros id' bd' le le' Hb' Hne Hle Hle' Eo. apply Hne. symmetry. by eapply (bo_own _ _ _ _ _ (ni_blocks _ _ _ _ _ _ _ _ HI)).
  - intros o sz le nid nd Hnid Eid Ho Hle. destruct (ni_nodes _ _ _ _ _ _ _ _ HI nid nd Hnid) as (o' & sz' & Eid' & Ho' & _ & _ & Hb).
    rewrite Eid in Eid'. apply ToBlockId_inj in Eid' as [<- <-]; [by eapply (Hb (Id bl) bd)|..].
    + by eapply (inv_small codec unmarshal _ _ _ _ _ _ HI), Ho.
    + by eapply (inv_small codec unmarshal _ _ _ _ _ _ HI), Ho'.
Qed.

Lemma node_DeleteBlock bl (s : nbackend) N E m B bm x0 :
  node_inv s N E m B bm → bm !! Id bl = Some x0 →
  ∃ b' E' m' B', tree_DeleteBlock unmarshal bl (nb s) = Ok b' ∧
    node_inv (with_nb s b') N E' m' B' (delete (Id bl) bm) ∧ quiet s (with_nb s b').
Proof.
  intros HI Hbm. unfold tree_DeleteBlock. destruct (node_getBlockData (Id bl) s N E m B bm HI) as (x1 & E1 & HI1). rewrite E1. cbn [res_bind fst snd].
  pose proof (ni_view _ _ _ _ _ _ _ _ HI (Id bl)) as Hv. destruct (B !! Id bl) as [bd|] eqn:Eb; [|congruence].
  destruct (bo_in _ _ _ _ _ (ni_blocks _ _ _ _ _ _ _ _ HI) _ _ Eb) as [HF Hnd].
  destruct (freeSlice_ok (bd_Location bd) (set_t x1 (nb s)) E m (ni_alloc _ _ _ _ _ _ _ _ HI1) Hnd) as (s2 & m2 & E2 & HA2 & Htr).
  { eapply Forall_impl; [done|]. by intros le [? _]. }
  destruct Htr as [(Hp2 & Hf2 & _ & Hg2 & _ & Hq2) (ops & Ho2 & Hm2 & _)]. cbn [p sb flushing set_t] in Hp2, Hf2, Hg2, Hq2, Ho2.
  rewrite E2. cbn [res_bind]. pose proof (bo_table _ _ _ _ _ (ni_blocks _ _ _ _ _ _ _ _ HI) (Id bl)) as Htab. rewrite Eb in Htab.
  destruct Htab as (b & Hb & _).
  destruct (st_Delete_ok "b" (Id bl) (t s2) m2 (ai_rep _ _ _ HA2)) as (x & E3 & Hx).
  { rewrite Hm2, replay_block, Hb. eauto. }
  unfold blockTree. rewrite E3. cbn [res_bind]. exists (set_t x s2), (free_ext (bd_Location bd) E), (delete (pre "b" (Id bl)) m2), (delete (Id bl) B).
  split; [done|]. split.
  2: { split_and!; try done. cbn. intros Hf. by rewrite Ho2, Hf, app_nil_r. }
  split; cbn [nb with_nb upd_nb p set_t nodeDataCache sb]; rewrite ?Hp2, ?Hg2; try apply HI.
  - destruct HA2. split; [exact Hx| |done..]. destruct ai_free as [HS HO]. split; by apply free_part_other_del.
  - pose proof (ni_blocks _ _ _ _ _ _ _ _ HI) as HB. split.
    + intros id. destruct (decide (id = Id bl)) as [->|Hne]; [by rewrite !lookup_delete_eq|].
      rewrite !lookup_delete_ne by (done || (intros [= ?]; congruence)). rewrite Hm2, replay_block. apply (bo_table _ _ _ _ _ HB).
    + intros id bd' [Hne Hbd']%lookup_delete_Some. destruct (bo_in _ _ _ _ _ HB id bd' Hbd') as [HF' Hnd'].
      split; [|done]. apply Forall_forall. intros le Hle. rewrite Forall_forall in HF'. destruct (HF' le Hle) as (L1 & L2). split; [|done].
      destruct (free_ext_lookup (bd_Location bd) E (Offset le)) as [->|Hin]; [done|].
      apply list_elem_of_fmap in Hin as (le' & Eo & Hle'). destruct Hne. by eapply (bo_own _ _ _ _ _ HB).
    + intros id1 bd1 le1 id2 bd2 le2 [_ L1]%lookup_delete_Some [_ L2]%lookup_delete_Some. by apply (bo_own _ _ _ _ _ HB).
  - intros id. destruct (decide (id = Id bl)) as [->|Hne]; [by rewrite !lookup_delete_eq|].
    rewrite !lookup_delete_ne by done. pose proof (ni_view _ _ _ _ _ _ _ _ HI id) as Hv'. destruct (B !! id) as [bd'|]; [|done].
    destruct Hv' as (d' & ? & Hr'). exists d'. split; [done|]. unfold ReadData in *. cbn [p set_t]. by rewrite Hp2.
  - intros nid nd Hnid. destruct (ni_nodes _ _ _ _ _ _ _ _ HI nid nd Hnid) as (o & sz & Eid & Ho & Hf & Hat & Hown).
    exists o, sz. split_and!; try done.
    + destruct (free_ext_lookup (bd_Location bd) E o) as [->|Hin]; [done|].
      apply list_elem_of_fmap in Hin as (le & Eo & Hle). by destruct (Hown (Id bl) bd le Eb Hle).
    + intros id' bd' le [_ Hbd']%lookup_delete_Some. by apply (Hown id' bd').
Qed.

End keep.
