(* ===== verification/TreeDevice.v ===== *)
(** * Histories on a device

    Any sequence of block operations, flushes and restarts on a device behaves as a map from ids to
    metadata and data.  A restart throws away everything in memory and starts from the device. *)
From stdpp Require Import base list sets strings sorting gmap.
From Stdlib Require Import ZArith Lia Ascii.
From S2P Require Import Prelude OrderedMap Util IBNode IBStack IBTree IBSync IBPersist NodeBytes LinkedList Cart CartFacts CartProps Codec Backend TreeLocation TreeBackend TreeStore TreeAlloc TreeBlocks TreeProps TreeNodes TreeFlush TreeDisk TreeSave TreeRecover TreeKeep.

Section device.
Context {T R : Type} `{TxNodesOk T} `{TreeEnvOk}.
Context (codec : Codec R) `{!CodecOk codec} `{!CodecTotal codec} `{!CodecPrefix codec}.
Context (marshal : BlockData → gerr string) (unmarshal : string → gerr BlockData).
Hypothesis marshal_ok : ∀ bd, ∃ b, marshal bd = inr b ∧ unmarshal b = inr bd.
Context (ptr_eq : Node → Node → bool) (fuel : nat).
Abbreviation nbackend := (nodeBackend T R).

(** ** Calls *)

Inductive dev_op : Type :=
| DStore (bl : Block)
| DUpdate (bl : Block)
| DDelete (bl : Block)
| DFlush
| DRestart (cacheSize : Z) (r : R).

Definition run_op (op : dev_op) (s : nbackend) : res nbackend :=
  match op with
  | DStore bl => on_nb (tree_StoreBlock codec marshal bl) s
  | DUpdate bl => on_nb (λ b, let! r := tree_UpdateBlock marshal unmarshal bl b in Ok r.2) s
  | DDelete bl => on_nb (tree_DeleteBlock unmarshal bl) s
  | DFlush => tree_Flush codec ptr_eq fuel s
  | DRestart cacheSize r =>
      let! s := tree_Flush codec ptr_eq fuel s in
      tree_Init codec cacheSize (p (nb s)) r
  end.
Fixpoint run_ops (ops : list dev_op) (s : nbackend) : res nbackend :=
  match ops with
  | [] => Ok s
  | op :: ops' => let! s := run_op op s in run_ops ops' s
  end.

(** What the calls mean. *)
Definition spec_op (op : dev_op) (bm : blockmap) : blockmap :=
  match op with
  | DStore bl => <[Id bl := (Meta bl, default "" (Data bl))]> bm
  | DUpdate bl => alter (λ x, (Meta bl, x.2)) (Id bl) bm
  | DDelete bl => delete (Id bl) bm
  | DFlush | DRestart _ _ => bm
  end.

(** There is something to flush, and it can be written. *)
Definition flushable (s : nbackend) : Prop :=
  ∀ root, tx_Root (t (nb s)) = Ok root →
    blockId root = None ∧ ptr_eq root (unchangedRoot s) = false ∧ flush_accepts codec fuel root s.
(** The root is the one of the last flush. *)
Definition unchanged (s : nbackend) : Prop :=
  ∀ root, tx_Root (t (nb s)) = Ok root → ptr_eq root (unchangedRoot s) = true.

Definition accepts (op : dev_op) (s : nbackend) (bm : blockmap) : Prop :=
  match op with
  | DStore bl => bm !! Id bl = None ∧ is_Some (Data bl) ∧ tree_accepts codec bl (nb s)
  | DUpdate bl | DDelete bl => is_Some (bm !! Id bl)
  | DFlush => unchanged s ∨ flushable s
  | DRestart _ _ => flushable s
  end.
Fixpoint all_accepted (ops : list dev_op) (s : nbackend) (bm : blockmap) : Prop :=
  match ops with
  | [] => True
  | op :: ops' => accepts op s bm ∧ ∀ s', run_op op s = Ok s' → all_accepted ops' s' (spec_op op bm)
  end.

(** ** Each call *)

Lemma quiet_idle (s s' : nbackend) N : quiet s s' → idle s → saved_ok s N → idle s' ∧ saved_ok s' N.
Proof.
  intros ((Q1 & Q2 & Q3 & Q4) & Q5 & Q6 & Q7 & Q8) [I1 I2 I3 I4 I5] Hsv. split; [split; congruence || (rewrite ?Q7; congruence) || lia|].
  unfold saved_ok. by rewrite Q1, Q3.
Qed.

Lemma inv_tx_Root s bm : tree_inv codec unmarshal s bm → ∃ root, tx_Root (t (nb s)) = Ok root.
Proof.
  intros (N & E & m & B & HI & _). destruct (tx_Root_ok N _ _ (ai_rep _ _ _ (ni_alloc _ _ _ _ _ _ _ _ HI))) as (n & _ & _ & En & _). eauto.
Qed.

Lemma flush_and_init s bm cacheSize r :
  tree_inv codec unmarshal s bm → flushable s → tx_height < fuel →
  ∃ s' s'', tree_Flush codec ptr_eq fuel s = Ok s' ∧ tree_inv codec unmarshal s' bm ∧
    tree_Init codec cacheSize (p (nb s')) r = Ok s'' ∧ tree_inv codec unmarshal s'' bm ∧
    sb (nb s'') = sb (nb s') ∧ p (nb s'') = p (nb s').
Proof.
  intros HT Hfl Hfuel. destruct (inv_tx_Root s bm HT) as [root Hroot]. destruct (Hfl root Hroot) as (Hnew & Hptr & Hacc).
  destruct HT as (N & E & m & B & HI & Hsv & Hidle).
  destruct (tree_Flush_ok codec unmarshal ptr_eq fuel s N E m B bm root HI Hsv Hidle Hroot Hnew Hptr Hacc Hfuel)
    as (s' & si & sb' & N' & E' & m' & ops & h & l & Ef & HI' & Hidle' & Hsv' & Hl & Hm' & Hr & Hrec & Esb & Hrb).
  destruct (tree_Init_ok codec unmarshal cacheSize r N' s' N' E' m ops m' B bm h l si sb' HI') as (s'' & Ei & HI'' & Hidle'' & Hsv'' & Hsb & Hp);
    [by rewrite <- Hrb|exact Hl|exact Hm'|exact Hr|exact Hrec|exact Esb|].
  exists s', s''. split; [done|]. split; [exists N', E', m', B; split_and!; [done|right; eauto|done]|].
  split; [done|]. split; [exists N', E', m', B; split_and!; [done|right; eauto|done]|]. split; [|done].
  rewrite Hsb, Esb. pose proof (id_pending _ Hidle') as Hp'. destruct (sb (nb s')). cbn in *. by rewrite Hp'.
Qed.

Lemma run_op_ok op s bm :
  tree_inv codec unmarshal s bm → accepts op s bm → tx_height < fuel →
  ∃ s', run_op op s = Ok s' ∧ tree_inv codec unmarshal s' (spec_op op bm).
Proof.
  intros HT Hacc Hfuel. destruct op as [bl|bl|bl| |cs r]; cbn [run_op spec_op accepts] in *.
  - destruct HT as (N & E & m & B & HI & Hsv & Hidle). destruct Hacc as (Hnone & [d Hd] & Hroom).
    destruct (node_StoreBlock (H0 := nodes_store N) codec marshal unmarshal marshal_ok bl s N E m B bm d HI Hnone Hd Hroom) as (b' & E' & m' & B' & Es & HI' & Hq).
    unfold on_nb. rewrite Es. cbn [res_bind]. eexists. split; [done|]. rewrite Hd. destruct (quiet_idle _ _ N Hq Hidle Hsv).
    exists N, E', m', B'. done.
  - destruct HT as (N & E & m & B & HI & Hsv & Hidle). destruct Hacc as [[md d] Hbm].
    destruct (node_UpdateBlock (H0 := nodes_store N) codec marshal unmarshal marshal_ok bl s N E m B bm md d HI Hbm) as (b' & m' & B' & Es & HI' & Hq).
    unfold on_nb. rewrite Es. cbn [res_bind]. eexists. split; [done|]. destruct (quiet_idle _ _ N Hq Hidle Hsv).
    replace (alter _ _ bm) with (<[Id bl := (Meta bl, d)]> bm); [by exists N, E, m', B'|].
    apply map_eq. intros id. destruct (decide (id = Id bl)) as [->|Hne].
    + by rewrite lookup_insert_eq, lookup_alter_eq, Hbm.
    + by rewrite lookup_insert_ne, lookup_alter_ne.
  - destruct HT as (N & E & m & B & HI & Hsv & Hidle). destruct Hacc as [x0 Hbm].
    destruct (node_DeleteBlock (H0 := nodes_store N) codec unmarshal bl s N E m B bm x0 HI Hbm) as (b' & E' & m' & B' & Es & HI' & Hq).
    unfold on_nb. rewrite Es. cbn [res_bind]. eexists. split; [done|]. destruct (quiet_idle _ _ N Hq Hidle Hsv). by exists N, E', m', B'.
  - destruct Hacc as [Hun|Hfl].
    + destruct (inv_tx_Root s bm HT) as [root Hroot]. exists s. split; [|done]. unfold tree_Flush. rewrite Hroot. cbn [res_bind].
      by rewrite (Hun root Hroot).
    + destruct (inv_tx_Root s bm HT) as [root Hroot]. destruct (Hfl root Hroot) as (Hnew & Hptr & Hacc).
      destruct HT as (N & E & m & B & HI & Hsv & Hidle).
      destruct (tree_Flush_ok codec unmarshal ptr_eq fuel s N E m B bm root HI Hsv Hidle Hroot Hnew Hptr Hacc Hfuel)
        as (s' & si & sb' & N' & E' & m' & ops & h & l & Ef & HI' & Hidle' & Hsv' & _).
      exists s'. split; [done|]. exists N', E', m', B. split_and!; [done|right; eauto|done].
  - destruct (flush_and_init s bm cs r HT Hacc Hfuel) as (s' & s'' & -> & _ & Ei & HT'' & _). cbn [res_bind]. by exists s''.
Qed.

Lemma run_ops_ok ops s bm :
  tree_inv codec unmarshal s bm → all_accepted ops s bm → tx_height < fuel →
  ∃ s', run_ops ops s = Ok s' ∧ tree_inv codec unmarshal s' (foldl (λ bm op, spec_op op bm) bm ops).
Proof.
  intros HT Hacc Hfuel. revert s bm HT Hacc. induction ops as [|op ops IH]; intros s bm HT Hacc; [by exists s|].
  destruct Hacc as [Ha Hrest]. destruct (run_op_ok op s bm HT Ha Hfuel) as (s1 & E1 & HT1). cbn [run_ops foldl]. rewrite E1. cbn [res_bind].
  apply IH; [done|]. by apply Hrest.
Qed.

(** What a client reads in a state of the invariant. *)
Lemma inv_reads s bm b :
  tree_inv codec unmarshal s bm → ∃ b', tree_GetBlockData codec unmarshal b (nb s) = Ok (snd <$> bm !! Id b, b').
Proof.
  intros (N & E & m & B & HI & _). destruct (node_getBlockData (H0 := nodes_store N) codec unmarshal (Id b) s N E m B bm HI) as (x & E1 & _).
  unfold tree_GetBlockData. rewrite E1. cbn [res_bind fst snd]. exists (set_t x (nb s)).
  pose proof (ni_view _ _ _ _ _ _ _ _ HI (Id b)) as Hv. destruct (B !! Id b) as [bd|]; [|by rewrite Hv].
  destruct Hv as (d & -> & Hr). unfold ReadData in *. cbn [p set_t]. by rewrite Hr.
Qed.

(** ** A device without content *)

Hypothesis sb_zeros : parse_sb codec (String.string_of_list_ascii (zeros (Z.to_nat superBlockSize))) = None.

Lemma slot_empty i : slot [] i = String.string_of_list_ascii (zeros (Z.to_nat superBlockSize)).
Proof.
  rewrite slot_bytes. generalize (Z.to_nat (superBlockOffset i)), (Z.to_nat superBlockSize). intros o n. f_equal. revert o.
  induction n as [|n IH]; intros o; [done|]. cbn [bytes seq map zeros repeat]. unfold zeros in IH. rewrite <- (IH (S o)). done.
Qed.

Lemma init_empty cacheSize r : ∃ s, tree_Init codec cacheSize [] r = Ok s ∧ tree_inv codec unmarshal s ∅.
Proof.
  eexists. split; [done|]. exists ∅, ∅, ∅, ∅. split_and!; [|by left|by split].
  assert (list_rep [] (∅ : smap)) as Hl0 by apply list_rep_nil.
  split; cbn [nb newTransaction set_unchanged set_saved upd_nb newTreeBackend p sb nodeDataCache].
  - split; cbn [t sb set_t BytesTotal BytesUsed].
    + eapply (tx_New_ok ∅ _ NewRoot 0 []); [by intros b x []%lookup_empty_Some|by split_and!|lia|exact Hl0|].
      constructor. intros c m []%not_elem_of_nil.
    + split; intros k v; rewrite lookup_empty; split; try done; intros (_ & o & sz & Ho & _); done.
    + split; [done|done|]. apply ext_sum_empty.
    + by rewrite ext_sum_empty.
    + done.
    + intros n i [= <-] Hi. lia.
  - split; [intros id; by rewrite !lookup_empty|intros id bd []%lookup_empty_Some|intros id bd le id' bd' le' []%lookup_empty_Some].
  - intros id. by rewrite lookup_empty.
  - intros id nd []%lookup_empty_Some.
  - apply cache_new.
  - intros i x Hi Hx. rewrite slot_empty, sb_zeros in Hx. done.
  - done.
Qed.
End device.

(** * Transactions that share stored leaves

    A small implementation of [TxNodes]: the entries of a transaction in groups of three, each a
    leaf under one root.  A group that equals a leaf the transaction started with is that leaf, so a
    flush keeps some nodes of the old tree and frees others.  It satisfies [TxNodesOk]. *)

(** The entries, and the stored leaves that were there at the start. *)
Record chunked : Type := mkChunked { entries : list kv; leaves : list (string * list kv) }.

Definition on_entries (c : chunked) (r : res (list kv)) : res chunked :=
  let! l := r in Ok (mkChunked l (leaves c)).
#[export] Instance chunked_TxStore : TxStore chunked := {
  tx_Get k c := Ok (om_get k (entries c), c);
  tx_NextKey k c := Ok (om_next k (entries c), c);
  tx_PrevKey k c := Ok (om_prev k (entries c), c);
  tx_Set k v c := on_entries c (tx_Set k v (entries c));
  tx_Delete k c := on_entries c (tx_Delete k (entries c))
}.

Fixpoint groups (l : list kv) : list (list kv) :=
  match l with
  | [] => []
  | [a] => [[a]]
  | [a; b] => [[a; b]]
  | a :: b :: c :: l' => [a; b; c] :: groups l'
  end.
Definition leaf_of (q : list kv) : Node := mkNode true (map child_of_pair q) None.
Definition group_child (st : list (string * list kv)) (q : list kv) : NodeDataChild :=
  let k := match q with [] => "" | e :: _ => e.1 end in
  match list_find (λ x, x.2 = q) st with
  | Some (_, (id, _)) => mkChild k id None
  | None => mkChild k "" (Some (leaf_of q))
  end.

(** A child of the root: its entries, with its id when it is stored. *)
Definition read_child (load : BlockId → option NodeData) (c : NodeDataChild) : chunked :=
  match childNode c with
  | Some m => mkChunked (map pair_of_child (Children m)) []
  | None =>
      match load (cValue c) with
      | Some nd => mkChunked (nd_Children nd) [(cValue c, nd_Children nd)]
      | None => mkChunked [] []
      end
  end.

#[export] Instance chunked_TxNodes : TxNodes chunked := {
  tx_NewTransaction load n :=
    if Leafy n then mkChunked (map pair_of_child (Children n)) []
    else
      let rs := map (read_child load) (Children n) in
      mkChunked (concat (map entries rs)) (concat (map leaves rs));
  tx_Root c :=
    Ok (match entries c with
        | [] => NewRoot
        | l => mkNode false (map (group_child (leaves c)) (groups l)) None
        end)
}.

(** ** The laws *)

Lemma groups_ind (P : list kv → Prop) :
  P [] → (∀ a, P [a]) → (∀ a b, P [a; b]) → (∀ a b c l, P l → P (a :: b :: c :: l)) → ∀ l, P l.
Proof. intros H0 H1 H2 H3. fix IH 1. intros [|a [|b [|c l]]]; [apply H0|apply H1|apply H2|apply H3, IH]. Qed.
Lemma groups_concat l : concat (groups l) = l.
Proof. induction l as [| | |a b c l IH] using groups_ind; [done..|]. cbn [groups concat app]. by rewrite IH. Qed.
Lemma groups_nonempty l : Forall (λ q, q ≠ []) (groups l).
Proof. induction l as [| | |a b c l IH] using groups_ind; repeat (constructor; try done). Qed.
Lemma groups_nil l : groups l = [] → l = [].
Proof. by destruct l as [|a [|b [|c l]]]. Qed.

Definition leaves_ok (N : nodemap) (st : list (string * list kv)) : Prop :=
  ∀ id q, (id, q) ∈ st → N !! id = Some (mkNodeData true q).
Definition chunked_rep (N : nodemap) (c : chunked) (m : smap) : Prop := list_rep (entries c) m ∧ leaves_ok N (leaves c).

#[export] Program Instance chunked_TxStoreOk (N : nodemap) : TxStoreOk chunked := {| tx_rep := chunked_rep N |}.
Next Obligation. intros N k c m [[Hs Hm] Hl]. exists c. simpl. rewrite Hm. done. Qed.
Next Obligation.
  intros N k v c m [Hr Hl]. destruct (tx_Set_ok (TxStoreOk := list_TxStoreOk) k v _ _ Hr) as (l' & E & Hr'). exists (mkChunked l' (leaves c)). split; [|done].
  change (on_entries c (tx_Set k v (entries c)) = Ok (mkChunked l' (leaves c))). by rewrite E.
Qed.
Next Obligation.
  intros N k c m [Hr Hl] Hk. destruct (tx_Delete_ok (TxStoreOk := list_TxStoreOk) k _ _ Hr Hk) as (l' & E & Hr'). exists (mkChunked l' (leaves c)). split; [|done].
  change (on_entries c (tx_Delete k (entries c)) = Ok (mkChunked l' (leaves c))). by rewrite E.
Qed.
Next Obligation. intros N k c m [Hr Hl]. eexists _, c. split_and!; [done..|by apply om_next_is_next]. Qed.

Lemma leaf_entries q : map pair_of_child (Children (leaf_of q)) = q.
Proof. apply pairs_of_children. Qed.
Lemma leaf_flat N bid q : flat (stored N) 0 (mkNode true (map child_of_pair q) bid) q.
Proof.
  split_and!; [done| |by cbn [Children]; rewrite pairs_of_children]. apply Forall_forall. intros c (x & -> & _)%list_elem_of_fmap. done.
Qed.
Lemma leaf_synced N q : synced (stored N) (leaf_of q).
Proof. constructor. intros c m (x & -> & _)%list_elem_of_fmap. done. Qed.

Lemma group_child_ok N st q :
  leaves_ok N st → ∃ m, sub_of (stored N) (group_child st q) = Some m ∧ flat (stored N) 0 m q ∧ csynced (stored N) (group_child st q).
Proof.
  intros Hst. unfold group_child, sub_of, csynced. destruct (list_find _ st) as [[i [id q']]|] eqn:E.
  - apply list_find_Some in E as (Hi & Hq & _). cbn in Hq. subst q'. cbn [childNode cValue].
    rewrite (Hst id q) by (by eapply list_elem_of_lookup_2). eexists. split_and!; [done|apply leaf_flat|done].
  - cbn [childNode]. eexists. split_and!; [done|apply leaf_flat|]. intros m [= <-]. apply leaf_synced.
Qed.

Lemma Root_flat N c m : chunked_rep N c m →
  ∃ n h l, tx_Root c = Ok n ∧ flat (stored N) h n l ∧ h ≤ 1 ∧ list_rep l m ∧ synced (stored N) n.
Proof.
  intros [Hr Hl]. destruct c as [l st]. cbn [entries leaves] in *. destruct (decide (l = [])) as [->|Hne].
  - exists NewRoot, 0, []. split_and!; [done|by split_and!|lia|done|]. constructor. intros c x []%not_elem_of_nil.
  - exists (mkNode false (map (group_child st) (groups l)) None), 1, l. split_and!; [by destruct l| |lia|done|].
    + split_and!; [done|by intros E%map_eq_nil%groups_nil|]. exists (groups l). split; [|by rewrite groups_concat].
      apply Forall2_fmap_l, Forall_Forall2_diag. eapply Forall_impl; [apply groups_nonempty|]. intros q Hq. split; [done|].
      destruct (group_child_ok N st q Hl) as (x & ? & ? & _). eauto.
    + apply synced_mk. apply Forall_fmap, Forall_true. intros q. by destruct (group_child_ok N st q Hl) as (x & _ & _ & ?).
Qed.

Lemma read_child_ok N load c lc m :
  (∀ b x, N !! b = Some x → load b = Some x) → sub_of (stored N) c = Some m → flat (stored N) 0 m lc →
  entries (read_child load c) = lc ∧ leaves_ok N (leaves (read_child load c)).
Proof.
  intros Hload Hm (Hlf & _ & ->). unfold sub_of, read_child in *. destruct (childNode c) as [m'|]; cbn [entries leaves].
  - injection Hm as ->. split; [done|]. by intros id q []%not_elem_of_nil.
  - destruct (N !! cValue c) as [nd|] eqn:E; [|done]. injection Hm as <-. rewrite (Hload _ _ E). cbn [entries leaves].
    cbn in Hlf. split; [by cbn; rewrite pairs_of_children|]. intros id q [= -> ->]%list_elem_of_singleton.
    rewrite E. destruct nd as [lf cl]. cbn in *. by subst.
Qed.

Lemma New_rep N load n h l m :
  (∀ b x, N !! b = Some x → load b = Some x) → flat (stored N) h n l → h ≤ 1 → list_rep l m →
  chunked_rep N (tx_NewTransaction load n) m.
Proof.
  intros Hload Hfl Hh Hl. destruct h as [|[|h]]; [| |lia]; cbn [tx_NewTransaction chunked_TxNodes].
  - destruct Hfl as (-> & _ & ->). split; [done|]. by intros id q []%not_elem_of_nil.
  - destruct Hfl as (-> & _ & ls & HF & ->).
    assert (concat (map entries (map (read_child load) (Children n))) = concat ls ∧
      leaves_ok N (concat (map leaves (map (read_child load) (Children n))))) as [He Hst]; [|by split; [rewrite <- He in Hl|]].
    clear Hl. induction HF as [|c lc cl ls (_ & x & Hx & Hf) HF [IH1 IH2]]; [split; [done|]; by intros id q []%not_elem_of_nil|].
    destruct (read_child_ok N load c lc x Hload Hx Hf) as [E1 E2]. cbn [map concat]. rewrite E1, IH1. split; [done|].
    intros id q [Hq|Hq]%elem_of_app; [by apply E2|by apply IH2].
Qed.

#[export] Instance chunked_ok : TxNodesOk chunked.
Proof.
  refine {| nodes_store := chunked_TxStoreOk; tx_height := 1 |}.
  - apply Root_flat.
  - intros N load n h l m Hload Hfl Hh Hl _. by eapply New_rep.
Defined.
