(* ===== verification/TreeDurable.v ===== *)
(** * The tree backend on its device

    The generated encoders give what [TreeFlush] asks of encoders, for every msgp library that round
    trips; a chain of codecs decodes what is followed by other bytes when its members do.  With
    them: a history of calls, flushes and restarts on an empty device is a history on a map, and
    what was flushed is found again. *)
From stdpp Require Import base list sets strings sorting gmap.
From Stdlib Require Import ZArith Lia Ascii.
From S2P Require Import Prelude OrderedMap Util IBNode IBStack IBTree IBSync IBPersist NodeBytes LinkedList Cart Codec Backend TreeLocation TreeBackend TreeStore TreeAlloc TreeBlocks TreeProps TreeNodes TreeFlush TreeDisk TreeSave TreeRecover TreeKeep TreeDevice Msgp Encoders EncoderProps.

(** ** Encoders *)

Section encoders.
Context `{Msgp}.

(** A child that is nil would be dereferenced. *)
#[export] Instance gen_NodeMsgp : NodeMsgp := {
  node_MarshalMsg nd := NodeData_MarshalMsg (nd_Leafy nd) (map Some (nd_Children nd)) "";
  node_UnmarshalMsg b :=
    match NodeData_UnmarshalMsg b with
    | inl _ => None
    | inr (leafy, cl, _) => mkNodeData leafy <$> mapM id cl
    end
}.
Definition value {A} (r : gerr (A * string)) : gerr A := match r with inl err => inl err | inr (a, _) => inr a end.
#[export] Instance gen_TreeEnv : TreeEnv := {
  sb_MarshalMsg s := inr (Superblock_MarshalMsg s "");
  sb_UnmarshalMsg b := value (Superblock_UnmarshalMsg b);
  ops_MarshalMsg os := inr (OpSlice_MarshalMsg os "");
  ops_UnmarshalMsg b := match value (OpSlice_UnmarshalMsg b) with inl err => inl err | inr os => inr (default [] os) end;
  mlog_IsEnabled := true
}.

Lemma mapM_Some {A} (l : list A) : mapM id (map Some l) = Some l.
Proof. induction l as [|a l IH]; [done|]. cbn. by rewrite IH. Qed.

#[export] Program Instance gen_TreeEnvOk `{!MsgpOk} : TreeEnvOk := {|
  node_encodable nd := children_wf (map Some (nd_Children nd));
  sb_encodable := superblock_wf
|}.
Next Obligation.
  intros Hok nd rest Hw. cbn [node_UnmarshalMsg node_MarshalMsg gen_TreeEnv tree_msgp gen_NodeMsgp].
  rewrite marshal_node. change ("" +:+ ?e) with e. rewrite (reads_node (nd_Leafy nd) _ Hw rest). rewrite mapM_Some. by destruct nd.
Qed.
Next Obligation.
  intros Hok s Hw Hloc. eexists. split; [done|]. intros rest. cbn [sb_UnmarshalMsg gen_TreeEnv].
  rewrite marshal_superblock. change ("" +:+ ?e) with e. rewrite (reads_superblock s Hw rest). cbn [value]. rewrite Hloc. by destruct s as [? ? ? ? ? []].
Qed.
End encoders.

(** ** Codecs *)

Section codecs.
Context {R : Type}.

#[export] Instance chain_prefix (cs : list (Codec R)) :
  TCForall CodecPrefix cs → CodecPrefix (chain_codec (CodecChain_Init cs)).
Proof.
  intros HF. constructor; cbn [EncodeBytes DecodeBytes chain_codec]; unfold Chain_EncodeBytes, Chain_DecodeBytes, CodecChain_Init; cbn [codecs reverseCodecs].
  - induction HF as [|c cs Hc Hcs IH]; intros data rnd enc rnd' rest; cbn [rev encode_loop decode_loop].
    { intros [= -> _]. by exists rest. }
    rewrite encode_loop_app. destruct (encode_loop (rev cs) data "" rnd) as [[err|mid] rnd1] eqn:E; [done|].
    cbn [encode_loop]. destruct (EncodeBytes c mid "" rnd1) as [[err|ret] rnd2] eqn:Ec; [done|]. intros [= -> ->].
    destruct (codec_prefix _ _ _ _ rest Ec) as [rest1 ->]. by eapply IH.
  - induction HF as [|c cs Hc Hcs IH]; intros data rnd enc rnd'; cbn [rev encode_loop]; [by intros [= -> _]|].
    rewrite encode_loop_app. destruct (encode_loop (rev cs) data "" rnd) as [[err|mid] rnd1] eqn:E; [done|].
    cbn [encode_loop]. destruct (EncodeBytes c mid "" rnd1) as [[err|ret] rnd2] eqn:Ec; [done|]. intros [= -> ->] Hne.
    eapply codec_nonempty; [exact Ec|]. by eapply IH.
Qed.

(** An encrypting codec whose marshaller ignores what follows. *)
Lemma encrypting_prefix (rand_Read : nat → R → gerr string * R) marshal unmarshal (gcm : AEAD) :
  (∀ ed b rest, marshal ed = inr b → unmarshal (b +:+ rest) = inr ed) → (∀ ed, marshal ed ≠ inr "") →
  (∀ nonce data ad, Open gcm nonce (Seal gcm nonce data ad) ad = inr data) →
  CodecPrefix (EncryptingCodec rand_Read marshal unmarshal gcm).
Proof.
  intros Hm Hne Hopen. constructor; cbn [EncodeBytes DecodeBytes EncryptingCodec]; unfold Encrypting_EncodeBytes, Encrypting_DecodeBytes.
  - intros data rnd enc rnd' rest. destruct (rand_Read _ rnd) as [[err|nonce] rnd1]; [done|]. intros [= Em _].
    rewrite (Hm _ _ rest Em). cbn [Nonce EncryptedDataBytes]. rewrite Hopen. exists "". by rewrite str_app_nil.
  - intros data rnd enc rnd'. destruct (rand_Read _ rnd) as [[err|nonce] rnd1]; [done|]. intros [= Em _] _ ->. by eapply Hne.
Qed.
End codecs.

(** ** Histories *)

(** C6: the tree backend on an empty device.  Any history of StoreBlock, UpdateBlock, DeleteBlock, Flush and
    restarts (Flush, everything in memory thrown away, Init on the device), each call admitted in the state it meets,
    runs without a panic, and afterwards GetBlockData returns for every id exactly what the history says: the data
    stored last, or nothing.  Saved nodes and superblocks never get in the way of blocks, and purging frees no node
    that the new tree still uses. *)
Theorem device_history {T R : Type} `{TxNodesOk T} `{TreeEnvOk} (codec : Codec R) `{!CodecOk codec} `{!CodecTotal codec} `{!CodecPrefix codec}
  (marshal : BlockData → gerr string) (unmarshal : string → gerr BlockData) (ptr_eq : Node → Node → bool) (fuel : nat) (cacheSize : Z) (r : R)
  (s0 : nodeBackend T R) (ops : list dev_op) :
  (∀ bd, ∃ b, marshal bd = inr b ∧ unmarshal b = inr bd) →
  parse_sb codec (String.string_of_list_ascii (zeros (Z.to_nat superBlockSize))) = None →
  tx_height < fuel → tree_Init codec cacheSize [] r = Ok s0 → all_accepted codec marshal unmarshal ptr_eq fuel ops s0 ∅ →
  ∃ s, run_ops codec marshal unmarshal ptr_eq fuel ops s0 = Ok s ∧
    ∀ b, ∃ b', tree_GetBlockData codec unmarshal b (nb s) = Ok (snd <$> foldl (λ bm op, spec_op op bm) ∅ ops !! Id b, b').
Proof.
  intros Hmar Hz Hfuel Hinit Hacc. destruct (init_empty codec unmarshal Hz cacheSize r) as (s & E & HT). rewrite Hinit in E. injection E as <-.
  destruct (run_ops_ok codec marshal unmarshal Hmar ptr_eq fuel ops s0 ∅ HT Hacc Hfuel) as (s' & Er & HT').
  exists s'. split; [done|]. intros b. by apply inv_reads.
Qed.

(** C7: what was flushed is found again.  In a state of the invariant whose tree has changed, Flush
    returns, and Init on what the device holds then returns a backend with the very superblock
    of the one that flushed (generation, space used and in all, location of the root, an empty log) and
    the same data for every id, whatever cache size and random source it starts with. *)
Theorem flush_then_init {T R : Type} `{TxNodesOk T} `{TreeEnvOk} (codec : Codec R) `{!CodecOk codec} `{!CodecTotal codec} `{!CodecPrefix codec}
  (unmarshal : string → gerr BlockData) (ptr_eq : Node → Node → bool) (fuel : nat) (cacheSize : Z) (r : R)
  (s : nodeBackend T R) (bm : blockmap) :
  tree_inv codec unmarshal s bm → flushable codec ptr_eq fuel s → tx_height < fuel →
  ∃ s' s'', tree_Flush codec ptr_eq fuel s = Ok s' ∧ tree_Init codec cacheSize (p (nb s')) r = Ok s'' ∧
    sb (nb s'') = sb (nb s') ∧ tree_inv codec unmarshal s'' bm ∧
    ∀ b, ∃ b' b'', tree_GetBlockData codec unmarshal b (nb s') = Ok (snd <$> bm !! Id b, b') ∧
      tree_GetBlockData codec unmarshal b (nb s'') = Ok (snd <$> bm !! Id b, b'').
Proof.
  intros HT Hfl Hfuel. destruct (flush_and_init codec unmarshal ptr_eq fuel s bm cacheSize r HT Hfl Hfuel)
    as (s' & s'' & Ef & HT' & Ei & HT'' & Hsb & _).
  exists s', s''. split_and!; try done. intros b.
  destruct (inv_reads codec unmarshal s' bm b HT') as [b' E1]. destruct (inv_reads codec unmarshal s'' bm b HT'') as [b'' E2]. eauto.
Qed.

(** ** Concrete devices

    The conditions of the theorems can be computed: [all_acceptedb] decides [all_accepted] for the
    encoders above and a codec without members. *)
Module DeviceWitness.
Import WideMsgp TreeWitness.
#[local] Existing Instance nop_ok.
#[local] Existing Instance nop_total.
#[local] Instance nop_prefix : CodecPrefix nop.
Proof. apply chain_prefix. constructor. Qed.
Abbreviation state := (nodeBackend chunked unit).

Definition uint (n : Z) (z : Z) : bool := ((0 <=? z) && (z <? 2 ^ n))%Z.
Definition shortb (n : nat) : bool := uint 32 (Z.of_nat n).
Definition node_wfb (nd : NodeData) : bool :=
  shortb (length (nd_Children nd)) &&
  forallb (λ c, shortb (String.length c.1) && shortb (String.length c.2)) (nd_Children nd).
Definition entry_wfb (le : LocationEntry) : bool := uint 64 (Offset le) && uint 64 (Size le).
Definition sb_wfb (s : Superblock) : bool :=
  uint 64 (Generation s) && uint 64 (BytesUsed s) && uint 64 (BytesTotal s) &&
  (shortb (length (RootLocation s)) && forallb entry_wfb (RootLocation s)) &&
  (shortb (length (Pending s)) && forallb (λ op, entry_wfb (op_Location op)) (Pending s)) &&
  (shortb (length (default [] (PendingLocation s))) && forallb entry_wfb (default [] (PendingLocation s))).
Definition roomb (size : Z) (b : treeBackend chunked unit) : bool :=
  ((size <? 2 ^ 60) && (BytesTotal (sb b) + 12 * (rounded size + superBlockSize) <? 2 ^ 60))%Z.
Definition saveb (x : NodeData * state) : bool :=
  node_wfb x.1 && roomb (Z.of_nat (String.length (ToBytes x.1))) (nb x.2).
Definition sb_fitsb (s : state) : bool :=
  sb_wfb (sb (nb s)) && (Z.of_nat (String.length (Superblock_MarshalMsg (sb (nb s)) "")) <=? superBlockSize)%Z.
Definition flushableb (fuel : nat) (s : state) : bool :=
  match tx_Root (t (nb s)) with
  | Ok root =>
      negb (bool_decide (is_Some (blockId root))) && negb (node_eqb root (unchangedRoot s)) &&
      forallb saveb (@commit_saves _ (tree_nodes nop) root (newTransaction nop root (set_flushing true s))) &&
      ((0 <=? Generation (sb (nb s))) && (Generation (sb (nb s)) <? 2 ^ 64 - 1))%Z &&
      match flushNodes nop fuel root s with
      | Ok (_, bid, s1) => match nextSuperblock bid s1 with Ok r => sb_fitsb r.2 | _ => true end
      | _ => true
      end
  | _ => true
  end.
Definition acceptsb (fuel : nat) (op : dev_op (R := unit)) (s : state) (bm : blockmap) : bool :=
  match op with
  | DStore bl =>
      bool_decide (bm !! Id bl = None) &&
      match Data bl with Some d => roomb (Z.of_nat (String.length d)) (nb s) | None => false end
  | DUpdate bl | DDelete bl => bool_decide (is_Some (bm !! Id bl))
  | DFlush | DRestart _ _ => flushableb fuel s
  end.
Fixpoint all_acceptedb (fuel : nat) (ops : list (dev_op (R := unit))) (s : state) (bm : blockmap) : bool :=
  match ops with
  | [] => true
  | op :: ops' =>
      acceptsb fuel op s bm &&
      match run_op nop marshal unmarshal node_eqb fuel op s with
      | Ok s' => all_acceptedb fuel ops' s' (spec_op op bm)
      | _ => true
      end
  end.

Lemma uint_spec n z : uint n z = true → (0 ≤ z < 2 ^ n)%Z.
Proof. unfold uint. intros [?%Z.leb_le ?%Z.ltb_lt]%andb_true_iff. done. Qed.
Lemma forallb_Forall {A} (f : A → bool) (P : A → Prop) l : (∀ a, f a = true → P a) → forallb f l = true → Forall P l.
Proof. intros Hf Hl. apply Forall_forall. intros a Ha. apply Hf. eapply forallb_forall; [exact Hl|]. by apply list_elem_of_In. Qed.
Lemma entry_wfb_spec le : entry_wfb le = true → entry_wf le.
Proof. intros [?%uint_spec ?%uint_spec]%andb_true_iff. done. Qed.
Lemma node_wfb_spec nd : node_wfb nd = true → node_encodable nd.
Proof.
  intros [H1%uint_spec H2]%andb_true_iff. split; [by red; rewrite length_map|]. apply Forall_fmap.
  eapply forallb_Forall; [|exact H2]. intros c [?%uint_spec ?%uint_spec]%andb_true_iff x [= <-]. done.
Qed.
Lemma sb_wfb_spec s : sb_wfb s = true → superblock_wf s.
Proof.
  unfold sb_wfb. rewrite !andb_true_iff. intros (((((H1%uint_spec & H2%uint_spec) & H3%uint_spec) & H4 & H5) & H6 & H7) & H8 & H9).
  apply uint_spec in H4, H6, H8. split_and!; try done; (split; [done|]); eapply forallb_Forall; [|done| |done| |done].
  - apply entry_wfb_spec.
  - intros op. apply entry_wfb_spec.
  - apply entry_wfb_spec.
Qed.
Lemma roomb_spec n b : roomb n b = true → room n b.
Proof. intros [?%Z.ltb_lt ?%Z.ltb_lt]%andb_true_iff. done. Qed.
Lemma saveb_spec x : saveb x = true → save_accepts nop x.1 x.2.
Proof. intros [H1%node_wfb_spec H2%roomb_spec]%andb_true_iff. split; [done|]. by intros enc rnd' [= <- _]. Qed.
Lemma sb_fitsb_spec s : sb_fitsb s = true → sb_fits nop s.
Proof. intros [H1%sb_wfb_spec H2%Z.leb_le]%andb_true_iff. split; [done|]. by intros b enc rnd' [= <-] [= <- _]. Qed.
Lemma flushableb_spec fuel s : flushableb fuel s = true → flushable nop node_eqb fuel s.
Proof.
  unfold flushableb. intros Hb root Hr. rewrite Hr in Hb. rewrite !andb_true_iff, !negb_true_iff in Hb.
  destruct Hb as ((((H1%bool_decide_eq_false & H2) & H3) & H4%Z.leb_le & H5%Z.ltb_lt) & H6).
  split_and!; [by apply eq_None_not_Some|done|split_and!; [|done..|]].
  - by eapply forallb_Forall; [apply saveb_spec|].
  - intros [[n bid] s1] r' Ef En. rewrite Ef in H6. cbn [fst snd] in En. rewrite En in H6. by apply sb_fitsb_spec.
Qed.
Lemma acceptsb_spec fuel op s bm : acceptsb fuel op s bm = true → accepts nop node_eqb fuel op s bm.
Proof.
  destruct op as [bl|bl|bl| |cs r]; cbn [acceptsb accepts]; [|apply bool_decide_eq_true..|intros ?%flushableb_spec; by right|apply flushableb_spec].
  rewrite andb_true_iff, bool_decide_eq_true. destruct (Data bl) as [d|] eqn:Hd; [|by intros [_ ?]].
  intros [H1 H2%roomb_spec]. split_and!; [done|eauto|]. intros d' enc rnd' Hd' [= <- _]. congruence.
Qed.
Lemma all_acceptedb_spec fuel ops s bm :
  all_acceptedb fuel ops s bm = true → all_accepted nop marshal unmarshal node_eqb fuel ops s bm.
Proof.
  revert s bm. induction ops as [|op ops IH]; intros s bm; cbn [all_acceptedb all_accepted]; [done|].
  intros [H1%acceptsb_spec H2]%andb_true_iff. split; [done|]. intros s' Er. rewrite Er in H2. by apply IH.
Qed.

Lemma zeros_no_superblock : parse_sb nop (String.string_of_list_ascii (zeros (Z.to_nat superBlockSize))) = None.
Proof. vm_compute. reflexivity. Qed.

(** Blocks are stored, flushed, changed and flushed again; the second tree shares leaves with the first. *)
Definition block (id data : string) : Block := with_Data (Some data) (new_Block id).
Definition history : list (dev_op (R := unit)) :=
  [DStore (block "a" "one"); DStore (block "b" "two"); DStore (block "c" "three"); DFlush;
   DDelete (block "b" ""); DUpdate (with_Meta (mkMeta 2 BS_NORMAL) (block "a" "")); DRestart 8 tt;
   DStore (block "b" "four"); DRestart 0 tt].
Definition s0 : state :=
  match tree_Init nop 100 [] tt with Ok s => s | _ => newTreeBackend 0 [] tt end.

Lemma device_history_witness :
  ∃ s, run_ops nop marshal unmarshal node_eqb 5 history s0 = Ok s ∧
    ∀ b, ∃ b', tree_GetBlockData nop unmarshal b (nb s) =
      Ok (snd <$> foldl (λ bm op, spec_op op bm) ∅ history !! Id b, b').
Proof.
  apply (device_history nop marshal unmarshal node_eqb 5 100 tt s0 history block_marshal_ok zeros_no_superblock).
  - cbn. lia.
  - vm_compute. reflexivity.
  - apply all_acceptedb_spec. vm_compute. reflexivity.
Defined.

(** The state in which the last restart finds the backend. *)
Definition before : list (dev_op (R := unit)) := take 8 history.
Definition s1 : state := match run_ops nop marshal unmarshal node_eqb 5 before s0 with Ok s => s | _ => s0 end.
Lemma s1_inv : tree_inv nop unmarshal s1 (foldl (λ bm op, spec_op op bm) ∅ before).
Proof.
  destruct (init_empty nop unmarshal zeros_no_superblock 100 tt) as (s & E & HT).
  assert (s = s0) as ->. { unfold s0. rewrite E. reflexivity. }
  destruct (run_ops_ok nop marshal unmarshal block_marshal_ok node_eqb 5 before s0 ∅ HT) as (s' & Er & HT').
  - apply all_acceptedb_spec. vm_compute. reflexivity.
  - cbn. lia.
  - unfold s1. rewrite Er. exact HT'.
Qed.
Lemma flush_then_init_witness :
  ∃ s' s'', tree_Flush nop node_eqb 5 s1 = Ok s' ∧ tree_Init nop 8 (p (nb s')) tt = Ok s'' ∧ sb (nb s'') = sb (nb s').
Proof.
  destruct (flush_then_init nop unmarshal node_eqb 5 8 tt s1 _ s1_inv) as (s' & s'' & E1 & E2 & E3 & _).
  - apply flushableb_spec. vm_compute. reflexivity.
  - cbn. lia.
  - exists s', s''. exact (conj E1 (conj E2 E3)).
Defined.

(** *** What a crash finds *)

(** "a" is stored and flushed, deleted, and "b" is stored; nothing is flushed after that. *)
Definition crash : list (dev_op (R := unit)) :=
  [DStore (block "a" "first"); DFlush; DDelete (block "a" ""); DStore (block "b" "other")].
(** DeleteBlock gives the space of a flushed block back at once, and StoreBlock writes over it although the last
    superblock still refers to it: a restart without a flush finds the deleted block, with the data of the other one. *)
Theorem unflushed_delete_overwrites :
  (let! s := run_ops nop marshal unmarshal node_eqb 5 crash s0 in
   let! s' := tree_Init nop 8 (p (nb s)) tt in
   let! a := tree_GetBlockData nop unmarshal (block "a" "") (nb s') in
   let! b := tree_GetBlockData nop unmarshal (block "b" "") (nb s') in
   Ok (a.1, b.1)) = Ok (Some "other", None).
Proof. vm_compute. reflexivity. Qed.
End DeviceWitness.
