(* ===== verification/MapRunner.v ===== *)
(** * Serialised callbacks (src/util/maprunner.go)

    A MapRunner runs callbacks in goroutines; callbacks with the same key run one after the
    other.  The methods lock the whole object, so each is one step; a goroutine that runs
    callbacks goes through [run]: a callback, then [checkMore] for the next one. *)
From stdpp Require Import base list sets strings gmap.
From Stdlib Require Import ZArith Lia.
From S2P Require Import Prelude.

Section runner.
Context {K : Type} `{Countable K} {C : Type}.

Record MapRunner : Type := mkMR {
  busy : gset K;
  blockedPerTarget : gmap K (list C);
  initialized : bool;      (* the maps are made *)
  closing : bool;
  closed : bool;
  Ran : nat;
  Queued : nat
}.
Definition MapRunner0 : MapRunner := mkMR ∅ ∅ false false false 0 0.

(** ** The methods *)

(** [true] when the callback was queued behind one that runs. *)
Definition queueOrReserve (key : K) (cb : C) (self : MapRunner) : res (bool * MapRunner) :=
  if decide (key ∈ busy self) then
    let l := default [] (blockedPerTarget self !! key) in
    Ok (true, mkMR (busy self) (<[key := l ++ [cb]]> (blockedPerTarget self)) true (closing self) (closed self)
                (Ran self) (S (Queued self)))
  else if closed self then Panic "Attempt to .Run() on closed MapRunner"
  else Ok (false, mkMR ({[key]} ∪ busy self) (blockedPerTarget self) true (closing self) (closed self)
                    (S (Ran self)) (Queued self)).

(** The next callback, and whether a waiting [Close] is woken. *)
Definition checkMore (key : K) (self : MapRunner) : option C * bool * MapRunner :=
  match default [] (blockedPerTarget self !! key) with
  | [] => (None, closing self,
           mkMR (busy self ∖ {[key]}) (delete key (blockedPerTarget self)) (initialized self) (closing self)
             (closed self) (Ran self) (Queued self))
  | cb :: l => (Some cb, false,
                mkMR (busy self) (<[key := l]> (blockedPerTarget self)) (initialized self) (closing self)
                  (closed self) (Ran self) (Queued self))
  end.

(** One check of the loop of [Close]: whether it is done. *)
Definition Close_check (self : MapRunner) : bool * MapRunner :=
  if negb (initialized self) then (true, self)
  else if decide (busy self = ∅) then
    (true, mkMR (busy self) (blockedPerTarget self) (initialized self) true (closed self) (Ran self) (Queued self))
  else
    (false, mkMR (busy self) (blockedPerTarget self) (initialized self) true true (Ran self) (Queued self)).

(** ** Goroutines *)

(** [threads] are the goroutines in [run], each with its key and the callback it is in.  The
    rest is history: what was given to [Call] or [Go], what was started, what has finished, each in
    order. *)
Record System : Type := mkSystem {
  runner : MapRunner;
  threads : list (K * C);
  given : list (K * C);
  started : list (K * C);
  finished : list (K * C)
}.
Definition System0 : System := mkSystem MapRunner0 [] [] [] [].

Inductive mr_step : System → System → Prop :=
(* Call or Go, when the key is busy *)
| mr_queue key cb mr' s :
    queueOrReserve key cb (runner s) = Ok (true, mr') →
    mr_step s (mkSystem mr' (threads s) (given s ++ [(key, cb)]) (started s) (finished s))
(* Call or Go, when it is not: a goroutine runs the callback *)
| mr_start key cb mr' s :
    queueOrReserve key cb (runner s) = Ok (false, mr') →
    mr_step s (mkSystem mr' ((key, cb) :: threads s) (given s ++ [(key, cb)]) (started s ++ [(key, cb)]) (finished s))
(* a callback returns and the goroutine goes on with the next one *)
| mr_next key cb cb' sig mr' ts1 ts2 s :
    threads s = ts1 ++ (key, cb) :: ts2 → checkMore key (runner s) = (Some cb', sig, mr') →
    mr_step s (mkSystem mr' (ts1 ++ (key, cb') :: ts2) (given s) (started s ++ [(key, cb')]) (finished s ++ [(key, cb)]))
(* or ends *)
| mr_end key cb sig mr' ts1 ts2 s :
    threads s = ts1 ++ (key, cb) :: ts2 → checkMore key (runner s) = (None, sig, mr') →
    mr_step s (mkSystem mr' (ts1 ++ ts2) (given s) (started s) (finished s ++ [(key, cb)]))
| mr_close fin mr' s :
    Close_check (runner s) = (fin, mr') →
    mr_step s (mkSystem mr' (threads s) (given s) (started s) (finished s)).

(** The steps that do not need a client: a callback returns. *)
Inductive mr_return : System → System → Prop :=
| ret_next key cb cb' sig mr' ts1 ts2 s :
    threads s = ts1 ++ (key, cb) :: ts2 → checkMore key (runner s) = (Some cb', sig, mr') →
    mr_return s (mkSystem mr' (ts1 ++ (key, cb') :: ts2) (given s) (started s ++ [(key, cb')]) (finished s ++ [(key, cb)]))
| ret_end key cb sig mr' ts1 ts2 s :
    threads s = ts1 ++ (key, cb) :: ts2 → checkMore key (runner s) = (None, sig, mr') →
    mr_return s (mkSystem mr' (ts1 ++ ts2) (given s) (started s) (finished s ++ [(key, cb)])).

Lemma mr_return_step s s' : mr_return s s' → mr_step s s'.
Proof. intros []; [by eapply mr_next|by eapply mr_end]. Qed.

(** ** The invariant *)

(** The callbacks of a key in a history. *)
Definition of_key (key : K) (l : list (K * C)) : list C := snd <$> filter (λ p, p.1 = key) l.

Lemma of_key_app key l1 l2 : of_key key (l1 ++ l2) = of_key key l1 ++ of_key key l2.
Proof. unfold of_key. by rewrite filter_app, fmap_app. Qed.
Lemma of_key_one key k cb : of_key key [(k, cb)] = if decide (k = key) then [cb] else [].
Proof. unfold of_key. rewrite filter_cons. cbn [fst]. by destruct (decide (k = key)). Qed.

Definition waiting (mr : MapRunner) (key : K) : list C := default [] (blockedPerTarget mr !! key).

Record mr_inv (s : System) : Prop := {
  mi_busy : ∀ key, key ∈ busy (runner s) ↔ key ∈ (threads s).*1;
  mi_nodup : NoDup (threads s).*1;
  mi_idle : ∀ key, key ∉ busy (runner s) → waiting (runner s) key = [];
  mi_fifo : ∀ key, of_key key (given s) = of_key key (started s) ++ waiting (runner s) key;
  mi_current : ∀ key, of_key key (started s) = of_key key (finished s) ++ of_key key (threads s)
}.
Lemma mr_inv_init : mr_inv System0.
Proof. split; cbn; try done. - intros key. set_solver. - constructor. Qed.

Lemma of_key_threads key k cb ts1 ts2 :
  of_key key (ts1 ++ (k, cb) :: ts2) = of_key key ts1 ++ (if decide (k = key) then [cb] else []) ++ of_key key ts2.
Proof. change ((k, cb) :: ts2) with ([(k, cb)] ++ ts2). by rewrite !of_key_app, of_key_one. Qed.

Lemma of_key_none key (ts : list (K * C)) : key ∉ ts.*1 → of_key key ts = [].
Proof.
  intros Hn. unfold of_key. induction ts as [|[k c] ts IH]; [done|]. rewrite fmap_cons in Hn.
  apply not_elem_of_cons in Hn as [Hne Hn]. rewrite filter_cons. cbn in *. rewrite decide_False by done. by apply IH.
Qed.

(** Only one goroutine has the key. *)
Lemma of_key_single key cb ts1 ts2 :
  NoDup (ts1 ++ (key, cb) :: ts2).*1 → of_key key ts1 = [] ∧ of_key key ts2 = [].
Proof.
  rewrite fmap_app, fmap_cons. intros (_ & H1 & [H2 _]%NoDup_cons)%NoDup_app.
  split; apply of_key_none; [|done]. intros Hin. specialize (H1 key Hin). set_solver.
Qed.

Lemma waiting_insert mr bl key key' l b c1 c2 i r q :
  bl = <[key := l]> (blockedPerTarget mr) →
  waiting (mkMR b bl i c1 c2 r q) key' = if decide (key' = key) then l else waiting mr key'.
Proof.
  intros ->. unfold waiting. cbn. destruct (decide (key' = key)) as [->|]; [by rewrite lookup_insert_eq|by rewrite lookup_insert_ne].
Qed.

Lemma mr_return_inv s s' : mr_inv s → mr_return s s' → mr_inv s'.
Proof.
  intros [Hb Hnd Hidle Hfifo Hcur] Hst. destruct Hst as [key cb cb' sig mr' ts1 ts2 s Ets Ec|key cb sig mr' ts1 ts2 s Ets Ec];
    unfold checkMore in Ec; fold (waiting (runner s) key) in Ec; rewrite Ets in *;
    destruct (of_key_single _ _ _ _ Hnd) as [Hk1 Hk2];
    (destruct (waiting (runner s) key) as [|cb0 l] eqn:Ew; [|]; try done); injection Ec as <- <- <- || injection Ec as <- <-.
  - split; cbn [runner threads given started finished busy].
    + intros k. rewrite Hb. by rewrite !fmap_app.
    + rewrite fmap_app in *. done.
    + intros k Hk. erewrite waiting_insert by done. destruct (decide (k = key)) as [->|]; [|by apply Hidle].
      destruct Hk. apply Hb. rewrite fmap_app. set_solver.
    + intros k. erewrite waiting_insert by done. rewrite of_key_app, of_key_one, Hfifo, <- app_assoc.
      destruct (decide (k = key)) as [->|Hne]; [by rewrite decide_True, Ew|by rewrite decide_False by done].
    + intros k. rewrite (of_key_threads k key cb0 ts1 ts2), !(of_key_app _ _ [_]), !of_key_one, Hcur, of_key_threads.
      destruct (decide (key = k)) as [<-|]; [by rewrite Hk1, Hk2, <- !app_assoc|by rewrite !app_nil_r].
  - split; cbn [runner threads given started finished busy].
    + intros k. rewrite elem_of_difference, Hb, !fmap_app, fmap_cons, !elem_of_app, elem_of_cons, elem_of_singleton. cbn.
      rewrite fmap_app, fmap_cons in Hnd. apply NoDup_app in Hnd as (_ & Hd & [Hn _]%NoDup_cons). cbn in *.
      split; [tauto|]. intros [Hin|Hin]; (split; [tauto|intros ->]); [|done]. apply (Hd _ Hin). left.
    + rewrite fmap_app, fmap_cons in Hnd. rewrite fmap_app. apply NoDup_app in Hnd as (H1 & H2 & [_ H3]%NoDup_cons).
      apply NoDup_app. split_and!; [done| |done]. intros x Hx Hx2. apply (H2 x Hx). right. done.
    + intros k Hk. unfold waiting. cbn. destruct (decide (k = key)) as [->|]; [by rewrite lookup_delete_eq|].
      rewrite lookup_delete_ne by done. apply Hidle. set_solver.
    + intros k. rewrite Hfifo. f_equal. unfold waiting in *. cbn. destruct (decide (k = key)) as [->|]; [by rewrite lookup_delete_eq|by rewrite lookup_delete_ne].
    + intros k. rewrite of_key_app, of_key_one, Hcur, of_key_threads, of_key_app. destruct (decide (key = k)) as [<-|]; [|by rewrite app_nil_r].
      rewrite Hk1, Hk2. cbn [app]. by rewrite !app_nil_r.
Qed.

Lemma mr_step_inv s s' : mr_inv s → mr_step s s' → mr_inv s'.
Proof.
  intros Hs Hst. destruct Hst as [key cb mr' s E|key cb mr' s E|key cb cb' sig mr' ts1 ts2 s E1 E2|key cb sig mr' ts1 ts2 s E1 E2|fin mr' s E];
    [| |eapply mr_return_inv; [done|by eapply ret_next]|eapply mr_return_inv; [done|by eapply ret_end]|];
    destruct Hs as [Hb Hnd Hidle Hfifo Hcur].
  - unfold queueOrReserve in E. destruct (decide _) as [Hin|]; [|by destruct (closed _)]. injection E as <-.
    split; cbn [runner threads given started finished busy]; try done.
    + intros k Hk. erewrite waiting_insert by done. destruct (decide (k = key)) as [->|]; [done|by apply Hidle].
    + intros k. erewrite waiting_insert by done. rewrite of_key_app, of_key_one, Hfifo.
      destruct (decide (k = key)) as [->|Hne]; [by rewrite decide_True, app_assoc|by rewrite decide_False, app_nil_r].
  - unfold queueOrReserve in E. destruct (decide _) as [|Hin]; [done|]. destruct (closed _); [done|]. injection E as <-.
    split; cbn [runner threads given started finished busy].
    + intros k. rewrite elem_of_union, elem_of_singleton, Hb, fmap_cons, elem_of_cons. done.
    + apply NoDup_cons. split; [by rewrite <- Hb|done].
    + intros k Hk. apply Hidle. set_solver.
    + intros k. rewrite !of_key_app, Hfifo, of_key_one. change (waiting _ k) with (waiting (runner s) k).
      destruct (decide (key = k)) as [<-|]; [|by rewrite !app_nil_r]. rewrite (Hidle key Hin). by rewrite !app_nil_r.
    + intros k. change ((key, cb) :: threads s) with ([(key, cb)] ++ threads s). rewrite !of_key_app, Hcur, of_key_one.
      destruct (decide (key = k)) as [<-|]; [|by rewrite app_nil_r]. rewrite Hb in Hin.
      by rewrite (of_key_none _ _ Hin), app_nil_r.
  - unfold Close_check in E. destruct (negb _); [by injection E as <- <-|]. destruct (decide _); injection E as <- <-; by split.
Qed.

Lemma mr_reachable_inv s : rtc mr_step System0 s → mr_inv s.
Proof.
  intros Hr. remember System0 as s0 eqn:E0. assert (mr_inv s0) as Hs0 by (subst; apply mr_inv_init). clear E0.
  induction Hr as [|s1 s2 s3 H12 _ IH]; [done|]. apply IH. by eapply mr_step_inv.
Qed.

(** ** Histories *)

Lemma of_key_cons_inv key c l r :
  of_key key l = c :: r →
  ∃ a b, l = a ++ (key, c) :: b ∧ of_key key (a ++ b) = r ∧ ∀ k, k ≠ key → of_key k (a ++ b) = of_key k l.
Proof.
  induction l as [|[k c'] l IH]; [done|]. change ((k, c') :: l) with ([(k, c')] ++ l). rewrite of_key_app, of_key_one.
  destruct (decide (k = key)) as [->|Hne]; cbn [app].
  - intros [= -> Hr]. exists [], l. split_and!; [done|done|]. intros k Hk. cbn [app].
    change ((key, c) :: l) with ([(key, c)] ++ l). by rewrite of_key_app, of_key_one, decide_False by done.
  - intros (a & b & -> & Hr & Hk)%IH. exists ((k, c') :: a), b. split_and!; [done| |].
    + change (((k, c') :: a) ++ b) with ([(k, c')] ++ (a ++ b)). by rewrite of_key_app, of_key_one, decide_False.
    + intros k' Hk'. change (((k, c') :: a) ++ b) with ([(k, c')] ++ (a ++ b)).
      change ((k, c') :: a ++ (key, c) :: b) with ([(k, c')] ++ (a ++ (key, c) :: b)). by rewrite !(of_key_app k' [_]), Hk.
Qed.

(** A history that is, key by key, the start of another one holds no more callbacks. *)
Lemma of_key_prefix_submseteq l1 l2 : (∀ key, of_key key l1 `prefix_of` of_key key l2) → l1 ⊆+ l2.
Proof.
  revert l1. induction l2 as [|[k c] l2 IH]; intros l1 Hp.
  - destruct l1 as [|[k c] l1]; [done|]. specialize (Hp k). change ((k, c) :: l1) with ([(k, c)] ++ l1) in Hp.
    rewrite of_key_app, of_key_one, decide_True in Hp by done. by apply prefix_nil_inv in Hp.
  - assert (∀ k', of_key k' ((k, c) :: l2) = (if decide (k = k') then [c] else []) ++ of_key k' l2) as Hc.
    { intros k'. change ((k, c) :: l2) with ([(k, c)] ++ l2). by rewrite of_key_app, of_key_one. }
    destruct (of_key k l1) as [|c' r] eqn:E1.
    + apply submseteq_cons, IH. intros k'. specialize (Hp k'). rewrite Hc in Hp.
      destruct (decide (k = k')) as [<-|]; [rewrite E1; apply prefix_nil|done].
    + pose proof (Hp k) as Hk. rewrite Hc, E1, decide_True in Hk by done. cbn [app] in Hk.
      assert (c' = c) as -> by by eapply prefix_cons_inv_1.
      apply of_key_cons_inv in E1 as (a & b & -> & Hr & Hne). rewrite <- Permutation_middle. apply submseteq_skip, IH.
      intros k'. destruct (decide (k = k')) as [<-|]; [rewrite Hr; by eapply prefix_cons_inv_2|].
      rewrite Hne by done. specialize (Hp k'). by rewrite Hc, decide_False in Hp.
Qed.

Lemma mr_inv_finished s : mr_inv s → length (finished s) ≤ length (given s).
Proof.
  intros [_ _ _ Hfifo Hcur]. apply submseteq_length, of_key_prefix_submseteq. intros key.
  rewrite Hfifo, Hcur, <- app_assoc. by apply prefix_app_r.
Qed.

(** As long as a callback runs, one can return. *)
Lemma mr_return_exists s : threads s ≠ [] → ∃ s', mr_return s s'.
Proof.
  destruct (threads s) as [|[key cb] ts] eqn:Ets; [done|intros _].
  destruct (checkMore key (runner s)) as [[[cb'|] sig] mr'] eqn:Ec; eexists;
    [eapply (ret_next key cb cb' sig mr' [] ts)|eapply (ret_end key cb sig mr' [] ts)]; by eauto.
Qed.
Lemma mr_return_counts s s' : mr_return s s' → given s' = given s ∧ length (finished s') = S (length (finished s)).
Proof. intros []; cbn; rewrite length_app; cbn; split; [done|lia|done|lia]. Qed.
(** When nothing runs, every callback that was given has run. *)
Lemma mr_idle s : mr_inv s → threads s = [] → finished s ≡ₚ given s ∧ busy (runner s) = ∅.
Proof.
  intros [Hb _ Hidle Hfifo Hcur] Ht. rewrite Ht in *.
  assert (busy (runner s) = ∅) as Hbusy by (apply set_eq; intros k; rewrite Hb; set_solver).
  split; [|done].
  assert (∀ key, of_key key (given s) = of_key key (finished s)) as E.
  { intros key. rewrite Hfifo, Hcur, (Hidle key) by (rewrite Hbusy; set_solver). cbn. by rewrite !app_nil_r. }
  apply (anti_symm submseteq); apply of_key_prefix_submseteq; intros key; by rewrite E.
Qed.

(** ** Properties *)

(** C34: whatever callers and goroutines do, no two goroutines are in callbacks of the same key, and
    the callbacks of a key start in the order they were given, each after the one before it has
    returned; those that have not started are exactly the queue of the key. *)
Theorem callbacks_serialised s :
  rtc mr_step System0 s →
  NoDup (threads s).*1 ∧
  (∀ key, of_key key (given s) = of_key key (started s) ++ waiting (runner s) key) ∧
  (∀ key, of_key key (started s) = of_key key (finished s) ++ of_key key (threads s)).
Proof. by intros [_ Hnd _ Hfifo Hcur]%mr_reachable_inv. Qed.

End runner.
Arguments MapRunner K {_ _} C.
Arguments System K {_ _} C.

(** ** Closing *)

(** The goroutines in [Close] beside those that run callbacks: [c_waiting] in [died.Wait], [c_woken] woken and about to
    check again, [c_returned] done.  The end of the callbacks of a key signals [died] when somebody has begun to close. *)
Section closing.
Context {K : Type} `{Countable K} {C : Type}.
Abbreviation Sys := (System K C).

Record CSystem : Type := mkCS { c_sys : Sys; c_waiting : nat; c_woken : nat; c_returned : nat }.
Definition CSystem0 : CSystem := mkCS System0 0 0 0.
Definition set_runner (mr : MapRunner K C) (s : Sys) : Sys := mkSystem mr (threads s) (given s) (started s) (finished s).

(** [died.Signal()], when it is called, wakes one goroutine. *)
Definition died_Signal (sig : bool) (s : CSystem) : CSystem :=
  match sig, c_waiting s with
  | true, S w => mkCS (c_sys s) w (S (c_woken s)) (c_returned s)
  | _, _ => s
  end.
(** A goroutine in the loop of [Close]: it checks, and returns or waits. *)
Definition Close_turn (s : CSystem) : CSystem :=
  let '(fin, mr') := Close_check (runner (c_sys s)) in
  let y := set_runner mr' (c_sys s) in
  if (fin : bool) then mkCS y (c_waiting s) (c_woken s) (S (c_returned s)) else mkCS y (S (c_waiting s)) (c_woken s) (c_returned s).
Definition unwoken (s : CSystem) : CSystem := mkCS (c_sys s) (c_waiting s) (pred (c_woken s)) (c_returned s).
Definition set_sys (y : Sys) (s : CSystem) : CSystem := mkCS y (c_waiting s) (c_woken s) (c_returned s).

(** Steps that need no client: a callback returns, and its goroutine goes on or ends; a woken [Close] checks. *)
Inductive c_run : CSystem → CSystem → Prop :=
| c_next key cb cb' sig mr' ts1 ts2 s :
    threads (c_sys s) = ts1 ++ (key, cb) :: ts2 → checkMore key (runner (c_sys s)) = (Some cb', sig, mr') →
    c_run s (died_Signal sig (set_sys (mkSystem mr' (ts1 ++ (key, cb') :: ts2) (given (c_sys s)) (started (c_sys s) ++ [(key, cb')])
                                       (finished (c_sys s) ++ [(key, cb)])) s))
| c_end key cb sig mr' ts1 ts2 s :
    threads (c_sys s) = ts1 ++ (key, cb) :: ts2 → checkMore key (runner (c_sys s)) = (None, sig, mr') →
    c_run s (died_Signal sig (set_sys (mkSystem mr' (ts1 ++ ts2) (given (c_sys s)) (started (c_sys s)) (finished (c_sys s) ++ [(key, cb)])) s))
| c_check s : 0 < c_woken s → c_run s (Close_turn (unwoken s)).

(** All steps, with at most [max] calls of [Close] at a time. *)
Inductive c_step (max : nat) : CSystem → CSystem → Prop :=
| c_alone s s' : c_run s s' → c_step max s s'
| c_queue key cb mr' s :
    queueOrReserve key cb (runner (c_sys s)) = Ok (true, mr') →
    c_step max s (set_sys (mkSystem mr' (threads (c_sys s)) (given (c_sys s) ++ [(key, cb)]) (started (c_sys s)) (finished (c_sys s))) s)
| c_start key cb mr' s :
    queueOrReserve key cb (runner (c_sys s)) = Ok (false, mr') →
    c_step max s (set_sys (mkSystem mr' ((key, cb) :: threads (c_sys s)) (given (c_sys s) ++ [(key, cb)])
                             (started (c_sys s) ++ [(key, cb)]) (finished (c_sys s))) s)
| c_Close s : c_waiting s + c_woken s < max → c_step max s (Close_turn s).

(** Nobody waits without a callback that will wake it. *)
Record c_inv (s : CSystem) : Prop := {
  ci_mr : mr_inv (c_sys s);
  ci_one : c_waiting s + c_woken s ≤ 1;
  ci_wait : 0 < c_waiting s → closing (runner (c_sys s)) = true ∧ busy (runner (c_sys s)) ≠ ∅
}.

Lemma died_Signal_sys sig s : c_sys (died_Signal sig s) = c_sys s.
Proof. unfold died_Signal. by destruct sig, (c_waiting s). Qed.
Lemma died_Signal_counts sig s :
  c_waiting (died_Signal sig s) + c_woken (died_Signal sig s) = c_waiting s + c_woken s ∧
  c_returned (died_Signal sig s) = c_returned s ∧ c_woken (died_Signal sig s) ≤ S (c_woken s) ∧
  c_waiting (died_Signal sig s) = if sig then pred (c_waiting s) else c_waiting s.
Proof. unfold died_Signal. destruct sig, (c_waiting s) eqn:E; cbn; rewrite ?E; lia. Qed.

Lemma checkMore_closing key (mr mr' : MapRunner K C) o sig :
  checkMore key mr = (o, sig, mr') → closing mr' = closing mr ∧
    match o with Some _ => busy mr' = busy mr | None => sig = closing mr end.
Proof. unfold checkMore. destruct (default [] _); intros [= <- <- <-]; done. Qed.
Lemma queueOrReserve_closing key cb (mr mr' : MapRunner K C) q :
  queueOrReserve key cb mr = Ok (q, mr') → closing mr' = closing mr ∧ busy mr ⊆ busy mr'.
Proof.
  unfold queueOrReserve. destruct (decide _); [intros [= _ <-]; cbn; set_solver|]. destruct (closed mr); [done|].
  intros [= _ <-]. cbn. set_solver.
Qed.
Lemma Close_turn_inv s : c_inv s → c_waiting s = 0 → c_woken s = 0 → c_inv (Close_turn s).
Proof.
  intros [Hm _ _] Hw Hk. unfold Close_turn. destruct (Close_check (runner (c_sys s))) as [fin mr'] eqn:E.
  assert (mr_inv (set_runner mr' (c_sys s))) as Hm' by (eapply mr_step_inv; [exact Hm|by eapply mr_close]).
  destruct fin; split; cbn; try done; [lia|lia|lia|]. intros _. unfold Close_check in E.
  destruct (negb _); [done|]. destruct (decide _); [done|]. by injection E as <-.
Qed.
Lemma c_run_inv s s' : c_inv s → c_run s s' → c_inv s'.
Proof.
  intros Hs Hst. pose proof Hs as [Hm Ho Hw]. destruct Hst as [key cb cb' sig mr' ts1 ts2 s Et Ec|key cb sig mr' ts1 ts2 s Et Ec|s Hk].
  - destruct (checkMore_closing _ _ _ _ _ Ec) as [Ecl Eb]. destruct (died_Signal_counts sig (set_sys (mkSystem mr' (ts1 ++ (key, cb') :: ts2)
      (given (c_sys s)) (started (c_sys s) ++ [(key, cb')]) (finished (c_sys s) ++ [(key, cb)])) s)) as (E1 & _ & _ & E2).
    split; rewrite ?died_Signal_sys, ?E1; cbn in *; [eapply mr_return_inv; [exact Hm|by eapply ret_next]|done|].
    rewrite E2, Ecl, Eb. intros Hp. apply Hw. destruct sig; lia.
  - destruct (checkMore_closing _ _ _ _ _ Ec) as [Ecl ->]. destruct (died_Signal_counts (closing (runner (c_sys s))) (set_sys (mkSystem mr'
      (ts1 ++ ts2) (given (c_sys s)) (started (c_sys s)) (finished (c_sys s) ++ [(key, cb)])) s)) as (E1 & _ & _ & E2).
    split; rewrite ?died_Signal_sys, ?E1; cbn in *; [eapply mr_return_inv; [exact Hm|by eapply ret_end]|done|].
    rewrite E2. destruct (closing (runner (c_sys s))) eqn:E; [lia|]. intros Hp. by destruct (Hw Hp).
  - apply Close_turn_inv; [|cbn; lia|cbn; lia]. split; cbn; [done|lia|lia].
Qed.
Lemma c_step_inv s s' : c_inv s → c_step 1 s s' → c_inv s'.
Proof.
  intros Hs Hst. destruct Hst as [s s' Hr|key cb mr' s E|key cb mr' s E|s Hmax]; [by eapply c_run_inv| | |].
  - destruct Hs as [Hm Ho Hw]. destruct (queueOrReserve_closing _ _ _ _ _ E) as [Ecl Eb].
    split; cbn; [eapply mr_step_inv; [exact Hm|by apply mr_queue]|done|]. rewrite Ecl. intros Hp. destruct (Hw Hp). set_solver.
  - destruct Hs as [Hm Ho Hw]. destruct (queueOrReserve_closing _ _ _ _ _ E) as [Ecl Eb].
    split; cbn; [eapply mr_step_inv; [exact Hm|by apply mr_start]|done|]. rewrite Ecl. intros Hp. destruct (Hw Hp). set_solver.
  - apply Close_turn_inv; [done|lia|lia].
Qed.
Lemma c_reachable_inv s : rtc (c_step 1) CSystem0 s → c_inv s.
Proof.
  assert (∀ a, rtc (c_step 1) a s → c_inv a → c_inv s) as Hr by (induction 1; [done|]; eauto using c_step_inv).
  intros Hs. apply (Hr _ Hs). split; cbn; [apply mr_inv_init|lia|lia].
Qed.

(** The callbacks that have not returned, twice, as each may wake a [Close], and the woken ones. *)
Definition c_work (s : CSystem) : nat := 2 * (length (given (c_sys s)) - length (finished (c_sys s))) + c_woken s.
Definition c_closes (s : CSystem) : nat := c_waiting s + c_woken s + c_returned s.
Lemma c_run_counts s s' :
  c_inv s → c_run s s' → given (c_sys s') = given (c_sys s) ∧ c_closes s' = c_closes s ∧ c_work s' < c_work s.
Proof.
  intros Hs Hr. pose proof (c_run_inv s s' Hs Hr) as [Hm' _ _]. apply mr_inv_finished in Hm'. revert Hm'. unfold c_work, c_closes.
  destruct Hr as [key cb cb' sig mr' ts1 ts2 s Et Ec|key cb sig mr' ts1 ts2 s Et Ec|s Hk].
  1,2: match goal with |- context [died_Signal ?g ?x] => destruct (died_Signal_counts g x) as (E1 & E2 & E3 & _) end;
    rewrite died_Signal_sys, E2; cbn in *; rewrite length_app; cbn; intros; split_and!; [done|lia|lia].
  intros _. unfold Close_turn. cbn. destruct (Close_check _) as [fin mr']. destruct fin; cbn; split_and!; [done|lia|lia|done|lia|lia].
Qed.
Lemma c_runs_counts n s s' :
  c_inv s → nsteps c_run n s s' → c_inv s' ∧ given (c_sys s') = given (c_sys s) ∧ c_closes s' = c_closes s ∧ n + c_work s' ≤ c_work s.
Proof.
  intros Hs Hn. induction Hn as [s|n s1 s2 s3 H12 _ IH]; [done|]. destruct (c_run_counts _ _ Hs H12) as (E1 & E2 & Hlt).
  destruct IH as (Hi & E3 & E4 & Hle); [by eapply c_run_inv|]. split_and!; [done|congruence|congruence|lia].
Qed.
Lemma c_progress s :
  c_inv s → threads (c_sys s) = [] ∧ c_waiting s = 0 ∧ c_woken s = 0 ∨ ∃ s', c_run s s'.
Proof.
  intros [Hm _ Hw]. destruct (c_woken s) eqn:Ek; [|right; eexists; apply c_check; lia].
  destruct (threads (c_sys s)) as [|[key cb] ts] eqn:Et.
  - left. destruct (mr_idle _ Hm Et) as [_ Hb]. destruct (c_waiting s); [done|]. by destruct Hw as [_ Hne]; [lia|].
  - right. destruct (checkMore key (runner (c_sys s))) as [[[cb'|] sig] mr'] eqn:Ec; eexists;
      [by eapply (c_next key cb cb' sig mr' [] ts)|by eapply (c_end key cb sig mr' [] ts)].
Qed.

(** C35: a MapRunner finishes, and so does a [Close].  With at most one call of [Close] at a time, from every reachable
    state on, if no new callback is given, there are at most so many returns of callbacks and checks of a woken [Close];
    as long as a callback runs or a [Close] has not returned there is another one; and in the end all that was given
    has run, no key is busy, and every [Close] has returned: the signal at the end of the last key is not lost. *)
Theorem callbacks_all_run s n s' :
  rtc (c_step 1) CSystem0 s → nsteps c_run n s s' →
  n ≤ c_work s ∧
  (finished (c_sys s') ≡ₚ given (c_sys s) ∧ busy (runner (c_sys s')) = ∅ ∧ c_waiting s' = 0 ∧ c_woken s' = 0 ∧
     c_returned s' = c_waiting s + c_woken s + c_returned s ∨ ∃ s'', c_run s' s'').
Proof.
  intros Hs%c_reachable_inv Hn. destruct (c_runs_counts _ _ _ Hs Hn) as (Hs' & Eg & Ec & Hle). split; [lia|].
  destruct (c_progress s' Hs') as [(Ht & Hw & Hk)|]; [left|by right]. destruct (mr_idle _ (ci_mr _ Hs') Ht) as [Hp Hb]. rewrite Eg in Hp.
  unfold c_closes in Ec. split_and!; [done..|lia].
Qed.
End closing.
Arguments CSystem K {_ _} C.

(** ** Examples *)

(** Callback 10 of key 1 runs, 11 of key 1 waits behind it and 20 of key 2 runs beside it. *)
Definition demo_steps : list (System nat nat → System nat nat) :=
  let call key cb s :=
    match queueOrReserve key cb (runner s) with
    | Ok (q, mr') => mkSystem mr' (if (q : bool) then threads s else (key, cb) :: threads s) (given s ++ [(key, cb)])
                       (if q then started s else started s ++ [(key, cb)]) (finished s)
    | _ => s
    end in
  [call 1 10; call 1 11; call 2 20].
Definition demo : System nat nat := foldl (λ s f, f s) System0 demo_steps.

Lemma demo_reachable : rtc mr_step System0 demo.
Proof.
  eapply rtc_l; [eapply (mr_start 1 10); reflexivity|].
  eapply rtc_l; [eapply (mr_queue 1 11); reflexivity|].
  eapply rtc_l; [eapply (mr_start 2 20); reflexivity|]. apply rtc_refl.
Qed.

Lemma callbacks_serialised_witness :
  of_key 1 (started demo) = [10] ∧ waiting (runner demo) 1 = [11] ∧
  NoDup (threads demo).*1 ∧
  (∀ key, of_key key (given demo) = of_key key (started demo) ++ waiting (runner demo) key) ∧
  (∀ key, of_key key (started demo) = of_key key (finished demo) ++ of_key key (threads demo)).
Proof. split; [reflexivity|]. split; [reflexivity|]. apply (callbacks_serialised demo demo_reachable). Defined.

(** A [Close] comes while they run, and waits. *)
Definition cdemo : CSystem nat nat := Close_turn (mkCS demo 0 0 0).
Lemma cdemo_reachable : rtc (c_step 1) CSystem0 cdemo.
Proof.
  eapply rtc_l; [eapply (c_start 1 1 10); reflexivity|].
  eapply rtc_l; [eapply (c_queue 1 1 11); reflexivity|].
  eapply rtc_l; [eapply (c_start 1 2 20); reflexivity|].
  eapply rtc_l; [apply (c_Close 1); cbn; lia|]. apply rtc_refl.
Qed.
(** Callback 10 returns, 11 is next. *)
Definition cdemo' : CSystem nat nat :=
  match checkMore 1 (runner (c_sys cdemo)) with
  | (Some cb', sig, mr') =>
      died_Signal sig (set_sys (mkSystem mr' [(2, 20); (1, cb')] (given demo) (started demo ++ [(1, cb')]) [(1, 10)]) cdemo)
  | _ => cdemo
  end.
Lemma cdemo_returns : nsteps c_run 1 cdemo cdemo'.
Proof. eapply nsteps_l; [eapply (c_next 1 10 11 _ _ [(2, 20)] [] cdemo); reflexivity|constructor]. Qed.

Lemma callbacks_all_run_witness :
  c_waiting cdemo = 1 ∧ 1 ≤ 6 ∧
  (finished (c_sys cdemo') ≡ₚ given (c_sys cdemo) ∧ busy (runner (c_sys cdemo')) = ∅ ∧ c_waiting cdemo' = 0 ∧ c_woken cdemo' = 0 ∧
     c_returned cdemo' = 1 ∨ ∃ s'', c_run cdemo' s'').
Proof. split; [reflexivity|]. apply (callbacks_all_run cdemo 1 cdemo'); [apply cdemo_reachable|apply cdemo_returns]. Defined.

(** Two calls of [Close] that wait for one key: its end signals once, one returns, and the other one waits for ever. *)
Theorem second_close_hangs :
  ∃ s : CSystem nat nat, rtc (c_step 2) CSystem0 s ∧ c_waiting s = 1 ∧ c_returned s = 1 ∧ busy (runner (c_sys s)) = ∅ ∧
    ∀ s', ¬ c_run s s'.
Proof.
  pose (mr b c := mkMR (K := nat) (C := nat) b ∅ true c c 1 0).
  pose (end_ := mkSystem (mkMR (K := nat) (C := nat) ∅ ∅ true true true 1 0) [] [(1, 10)] [(1, 10)] [(1, 10)]).
  exists (mkCS end_ 1 0 1). split_and!; try done.
  - eapply rtc_l; [eapply (c_start 2 1 10); reflexivity|]. eapply rtc_l; [apply (c_Close 2); cbn; lia|].
    eapply rtc_l; [apply (c_Close 2); vm_compute; lia|].
    eapply rtc_l; [apply c_alone; eapply (c_end 1 10 _ _ [] []); reflexivity|].
    eapply rtc_l; [apply c_alone, c_check; vm_compute; lia|]. apply rtc_refl.
  - intros s' Hr. remember (mkCS end_ 1 0 1) as s eqn:E. destruct Hr as [key cb cb' sig mr' ts1 ts2 s Et _|key cb sig mr' ts1 ts2 s Et _|s Hk];
      subst s; cbn in *; [by destruct ts1|by destruct ts1|lia].
Qed.

(** [Close] of a MapRunner that is idle does not close it: callbacks are run afterwards. *)
Example close_idle_stays_open :
  let mr := snd (Close_check (mkMR ∅ ∅ true false false 1 0)) in
  closed mr = false ∧ ∃ mr', queueOrReserve (K := nat) (C := nat) 1 10 mr = Ok (false, mr').
Proof. split; [reflexivity|]. eexists. reflexivity. Qed.
