(* ===== verification/Limiter.v ===== *)
(** * Limited parallelism (src/util/limiter.go)

    A ParallelLimiter hands out at most [LimitTotal] execution slots; who does not get its slots
    waits on a condition variable.  The methods hold the lock except in [cond.Wait], so a step is
    what happens between two waits. *)
From stdpp Require Import base list relations.
From Stdlib Require Import ZArith Lia.
From S2P Require Import Prelude.
Open Scope Z_scope.

Section limiter.
(** [runtime.NumCPU] *)
Variable NumCPU : Z.

Definition DefaultPerCPU : Z := 1.

Record ParallelLimiter : Type := mkLimiter {
  LimitPerCPU : Z;
  LimitTotal : Z;
  running : Z;
  initialized : bool
}.

Definition init (self : ParallelLimiter) : ParallelLimiter :=
  if LimitTotal self =? 0 then
    let per := if LimitPerCPU self =? 0 then DefaultPerCPU else LimitPerCPU self in
    mkLimiter per (NumCPU * per) (running self) true
  else mkLimiter (LimitPerCPU self) (LimitTotal self) (running self) true.

Definition ensure_init (self : ParallelLimiter) : ParallelLimiter := if initialized self then self else init self.

(** One turn of the loop of [Limited2]: [None] waits. *)
Definition try_reserve (count : Z) (self : ParallelLimiter) : option ParallelLimiter :=
  if LimitTotal self <? running self + count then None
  else Some (mkLimiter (LimitPerCPU self) (LimitTotal self) (running self + count) (initialized self)).
(** The function [Limited2] returns. *)
Definition unlock (count : Z) (self : ParallelLimiter) : ParallelLimiter :=
  mkLimiter (LimitPerCPU self) (LimitTotal self) (running self - count) (initialized self).
(** The slots [Exclusive] asks for: [LimitTotal] as it is before the call of [Limited2]. *)
Definition Exclusive_count (self : ParallelLimiter) : Z := LimitTotal self.

(** ** Goroutines *)

(** Each goroutine by the slots it asks for: those that have them, those in [cond.Wait], and those
    that were woken and have not looked again. *)
Record LSystem : Type := mkLSystem {
  limiter : ParallelLimiter;
  holders : list Z;
  waiters : list Z;
  woken : list Z
}.

(** A goroutine that is about to look. *)
Definition look (count : Z) (l : ParallelLimiter) (hs ws ks : list Z) : LSystem :=
  match try_reserve count l with
  | Some l' => mkLSystem l' (count :: hs) ws ks
  | None => mkLSystem l hs (ws ++ [count]) ks
  end.

Inductive l_step (P : ParallelLimiter → Z → Prop) : LSystem → LSystem → Prop :=
(* a call of Limited2 *)
| l_enter count s :
    P (limiter s) count → l_step P s (look count (ensure_init (limiter s)) (holders s) (waiters s) (woken s))
(* a woken goroutine looks again *)
| l_look count ks1 ks2 s :
    woken s = ks1 ++ count :: ks2 → l_step P s (look count (limiter s) (holders s) (waiters s) (ks1 ++ ks2))
(* the slots are given back; Signal wakes one waiter *)
| l_unlock_wake count hs1 hs2 w ws1 ws2 s :
    holders s = hs1 ++ count :: hs2 → waiters s = ws1 ++ w :: ws2 →
    l_step P s (mkLSystem (unlock count (limiter s)) (hs1 ++ hs2) (ws1 ++ ws2) (woken s ++ [w]))
| l_unlock count hs1 hs2 s :
    holders s = hs1 ++ count :: hs2 → waiters s = [] →
    l_step P s (mkLSystem (unlock count (limiter s)) (hs1 ++ hs2) [] (woken s)).

(** What the callers ask for: [Limited] and [Go] one slot, [Exclusive] all of them. *)
Definition asks (l : ParallelLimiter) (count : Z) : Prop := count = 1 ∨ count = Exclusive_count l.
Definition asks_one (l : ParallelLimiter) (count : Z) : Prop := count = 1.

Definition fresh (perCPU total : Z) : LSystem := mkLSystem (mkLimiter perCPU total 0 false) [] [] [].

(** ** Invariants *)

Definition total (l : list Z) : Z := foldr Z.add 0 l.
Lemma total_app l1 l2 : total (l1 ++ l2) = total l1 + total l2.
Proof. unfold total. induction l1; cbn in *; lia. Qed.

Lemma total_cons c l : total (c :: l) = c + total l.
Proof. done. Qed.
Arguments total : simpl never.

Record l_inv (lim : Z) (s : LSystem) : Prop := {
  li_limit : LimitTotal (ensure_init (limiter s)) = lim;
  li_init : initialized (limiter s) = false → holders s = [] ∧ waiters s = [] ∧ woken s = [];
  li_running : running (limiter s) = total (holders s);
  li_bound : running (limiter s) ≤ lim;
  li_counts : Forall (λ c, 0 ≤ c ≤ lim) (holders s ++ waiters s ++ woken s);
  li_wake : waiters s ≠ [] → holders s ≠ [] ∨ woken s ≠ []
}.

Lemma ensure_init_running l : running (ensure_init l) = running l.
Proof. unfold ensure_init, init. by destruct (initialized l), (LimitTotal l =? 0). Qed.
Lemma ensure_init_initialized l : initialized (ensure_init l) = true.
Proof. unfold ensure_init, init. by destruct (initialized l) eqn:?, (LimitTotal l =? 0). Qed.
Lemma ensure_init_done l : initialized l = true → ensure_init l = l.
Proof. unfold ensure_init. by intros ->. Qed.

(** The limit of a fresh limiter. *)
Definition limit_of (perCPU t : Z) : Z :=
  if t =? 0 then NumCPU * (if perCPU =? 0 then DefaultPerCPU else perCPU) else t.
Lemma l_inv_fresh perCPU t : 0 < limit_of perCPU t → l_inv (limit_of perCPU t) (fresh perCPU t).
Proof.
  intros Hlim. split; cbn [fresh limiter holders waiters woken running app]; [|done|done|lia|constructor|done].
  unfold ensure_init, init, limit_of. cbn. by destruct (t =? 0).
Qed.

(** The shared part of a call and of a woken goroutine. *)
Lemma look_inv lim count l hs ws ks :
  0 < lim → 0 ≤ count ≤ lim → initialized l = true → LimitTotal l = lim → running l = total hs → running l ≤ lim →
  Forall (λ c, 0 ≤ c ≤ lim) (hs ++ ws ++ ks) → (ws ≠ [] → hs ≠ [] ∨ ks ≠ [] ∨ running l + count ≤ lim) →
  l_inv lim (look count l hs ws ks).
Proof.
  intros Hl Hc Hi Ht Hr Hb Hall Hw. unfold look, try_reserve. rewrite Ht. destruct (Z.ltb_spec lim (running l + count)) as [Hlt|Hge].
  - split; cbn; [by rewrite ensure_init_done|by rewrite Hi|done|done| |].
    + rewrite !Forall_app in *. rewrite Forall_singleton. tauto.
    + intros _. left. intros ->. unfold total in Hr; cbn in Hr; lia.
  - split; cbn; [by rewrite ensure_init_done|by rewrite Hi|rewrite total_cons; lia|lia|by constructor|by left].
Qed.

Lemma l_step_inv lim s s' : 0 < lim → l_inv lim s → l_step asks s s' → l_inv lim s'.
Proof.
  intros Hl [Hlim Hinit Hrun Hb Hc Hw] Hst.
  assert (∀ c l1 l2, holders s = l1 ++ c :: l2 ∨ woken s = l1 ++ c :: l2 → initialized (limiter s) = true) as Hi.
  { intros c l1 l2 E. destruct (initialized _); [done|]. destruct (Hinit eq_refl) as (Eh & _ & Ek).
    rewrite Eh, Ek in E. destruct E as [E|E]; by destruct l1. }
  destruct Hst as [count s Hask|count ks1 ks2 s E|count hs1 hs2 w ws1 ws2 s E1 E2|count hs1 hs2 s E1 E2].
  - apply look_inv; [done| |apply ensure_init_initialized|done|by rewrite ensure_init_running|by rewrite ensure_init_running|done|naive_solver].
    destruct Hask as [->| ->]; [lia|]. unfold Exclusive_count. revert Hlim. unfold ensure_init, init.
    destruct (initialized _); [lia|]. destruct (Z.eqb_spec (LimitTotal (limiter s)) 0); cbn; lia.
  - assert (initialized (limiter s) = true) as Hin by (eapply Hi; by right).
    rewrite ensure_init_done in Hlim by done. rewrite E in *. rewrite !Forall_app, Forall_cons in Hc.
    apply look_inv; try done; [tauto|rewrite !Forall_app; tauto|].
    intros _. destruct (holders s) eqn:Eh; [|by left]. right. right. unfold total in Hrun; cbn in Hrun. destruct Hc as (_ & _ & _ & Hc & _). lia.
  - assert (initialized (limiter s) = true) as Hin by (eapply Hi; by left).
    rewrite ensure_init_done in Hlim by done. rewrite E1, E2 in *. rewrite !Forall_app, !Forall_cons in Hc. rewrite total_app, total_cons in Hrun.
    split; cbn; [by rewrite ensure_init_done|by rewrite Hin|rewrite total_app; lia|lia| |].
    + rewrite !Forall_app, Forall_singleton. tauto.
    + intros _. right. by destruct (woken s).
  - assert (initialized (limiter s) = true) as Hin by (eapply Hi; by left).
    rewrite ensure_init_done in Hlim by done. rewrite E1, E2 in *. rewrite !Forall_app, !Forall_cons in Hc. rewrite total_app, total_cons in Hrun.
    split; cbn; [by rewrite ensure_init_done|by rewrite Hin|rewrite total_app; lia|lia| |done].
    rewrite !Forall_app. tauto.
Qed.

Lemma l_reachable_inv perCPU t s :
  0 < limit_of perCPU t → rtc (l_step asks) (fresh perCPU t) s → l_inv (limit_of perCPU t) s.
Proof.
  intros Hlim Hr. remember (fresh perCPU t) as s0 eqn:E0.
  assert (l_inv (limit_of perCPU t) s0) as Hs0 by (subst; by apply l_inv_fresh). clear E0.
  induction Hr as [|s1 s2 s3 H12 _ IH]; [done|]. apply IH. by eapply l_step_inv.
Qed.

(** Who only ever asks for one slot: no slot is free while somebody waits and nobody was woken. *)
Definition busy_inv (s : LSystem) : Prop :=
  Forall (λ c, c = 1) (holders s ++ waiters s ++ woken s) ∧
  (waiters s ≠ [] → LimitTotal (limiter s) ≤ running (limiter s) + Z.of_nat (length (woken s))).

Lemma look_busy l hs ws ks :
  Forall (λ c, c = 1) (hs ++ ws ++ ks) → (ws ≠ [] → LimitTotal l ≤ running l + 1 + Z.of_nat (length ks)) →
  busy_inv (look 1 l hs ws ks).
Proof.
  intros Hall Hw. unfold look, try_reserve, busy_inv. destruct (Z.ltb_spec (LimitTotal l) (running l + 1)); cbn.
  - split; [|lia]. rewrite !Forall_app in *. rewrite Forall_singleton. tauto.
  - split; [by constructor|done].
Qed.

Lemma l_step_busy s s' : busy_inv s → (initialized (limiter s) = false → waiters s = []) → l_step asks_one s s' → busy_inv s'.
Proof.
  intros [Hall Hw] Hin Hst. destruct Hst as [count s ->|count ks1 ks2 s E|count hs1 hs2 w ws1 ws2 s E1 E2|count hs1 hs2 s E1 E2].
  - apply look_busy; [done|]. intros Hne. destruct (initialized (limiter s)) eqn:Ei; [|by rewrite Hin in Hne].
    rewrite ensure_init_done by done. specialize (Hw Hne). lia.
  - rewrite E in *. rewrite !Forall_app, !Forall_cons in Hall. destruct Hall as (H1 & H2 & H3 & -> & H4).
    apply look_busy; [rewrite !Forall_app; tauto|]. intros Hne. specialize (Hw Hne). rewrite !length_app in *. cbn in Hw. lia.
  - rewrite E1, E2 in *. rewrite !Forall_app, !Forall_cons in Hall. destruct Hall as ((H1 & -> & H2) & (H3 & -> & H4) & H5).
    split; cbn; [rewrite !Forall_app, Forall_singleton; tauto|]. intros _. rewrite length_app. cbn.
    assert (ws1 ++ 1 :: ws2 ≠ []) as Hne by by destruct ws1. specialize (Hw Hne). lia.
  - rewrite E1, E2 in *. split; cbn; [|done]. rewrite !Forall_app, !Forall_cons in *. tauto.
Qed.

Lemma asks_one_asks s s' : l_step asks_one s s' → l_step asks s s'.
Proof. intros []; [apply l_enter; by left|by apply l_look|by eapply l_unlock_wake|by apply l_unlock]. Qed.
Lemma l_reachable_busy perCPU t s :
  0 < limit_of perCPU t → rtc (l_step asks_one) (fresh perCPU t) s → l_inv (limit_of perCPU t) s ∧ busy_inv s.
Proof.
  intros Hlim Hr. remember (fresh perCPU t) as s0 eqn:E0.
  assert (l_inv (limit_of perCPU t) s0 ∧ busy_inv s0) as Hs0.
  { subst. split; [by apply l_inv_fresh|]. by split; [constructor|]. }
  clear E0. induction Hr as [|s1 s2 s3 H12 _ IH]; [done|]. apply IH. destruct Hs0 as [Hi Hbz]. split.
  - eapply l_step_inv; [done..|by apply asks_one_asks].
  - eapply l_step_busy; [done| |done]. intros Hn. by destruct (li_init _ _ Hi Hn) as (_ & Hw & _).
Qed.

(** Without new calls. *)
Definition asks_none (l : ParallelLimiter) (count : Z) : Prop := False.
Lemma asks_none_asks s s' : l_step asks_none s s' → l_step asks s s'.
Proof. intros []; [done|by apply l_look|by eapply l_unlock_wake|by apply l_unlock]. Qed.
(** A return of slots ends a goroutine and wakes at most one, a look is the end of a wake-up. *)
Definition work_left (s : LSystem) : nat := 2 * (length (holders s) + length (waiters s) + length (woken s)) + length (woken s).
Lemma drain_decreases s s' : l_step asks_none s s' → (work_left s' < work_left s)%nat.
Proof.
  intros [count s0 []|count ks1 ks2 s0 E|count hs1 hs2 w ws1 ws2 s0 E1 E2|count hs1 hs2 s0 E1 E2]; unfold work_left.
  - rewrite E. unfold look. destruct (try_reserve _ _); cbn; rewrite !length_app; cbn; lia.
  - rewrite E1, E2. cbn. rewrite !length_app. cbn. lia.
  - rewrite E1, E2. cbn. rewrite !length_app. cbn. lia.
Qed.
Lemma drain_steps lim n s s' :
  0 < lim → l_inv lim s → nsteps (l_step asks_none) n s s' → l_inv lim s' ∧ (n + work_left s' ≤ work_left s)%nat.
Proof.
  intros Hl Hs Hn. induction Hn as [s|n s1 s2 s3 H12 _ IH]; [split; [done|lia]|]. pose proof (drain_decreases _ _ H12).
  destruct IH as [Hi Hle]; [eapply l_step_inv; [done..|by apply asks_none_asks]|]. split; [done|lia].
Qed.
Lemma drain_progress lim s :
  l_inv lim s → holders s = [] ∧ waiters s = [] ∧ woken s = [] ∨ ∃ s', l_step asks_none s s'.
Proof.
  intros [_ _ _ _ _ Hw]. destruct (woken s) as [|k ks] eqn:Ek.
  2:{ right. eexists. by apply (l_look asks_none k [] ks). }
  destruct (holders s) as [|h hs] eqn:Eh.
  - left. destruct (waiters s); [done|]. by destruct Hw.
  - right. destruct (waiters s) as [|w ws] eqn:Ew; eexists; [by apply (l_unlock asks_none h [] hs)|by apply (l_unlock_wake asks_none h [] hs w [] ws)].
Qed.

(** ** Properties *)

(** C36: never more than [LimitTotal] slots are in use, whatever mixture of [Limited], [Go] and
    [Exclusive] is called, and there is no deadlock: as long as someone waits, someone else has slots
    or was woken, and whoever looks while nobody has any slot gets what it asks for.  Once no new
    calls come, everybody is served: there are at most so many looks and returns of slots, and while
    anybody has slots or waits for them there is a next one.  With new calls all the time an
    [Exclusive] may wait for ever ([exclusive_starves]). *)
Theorem limiter_bounds_and_progress perCPU t s :
  0 < limit_of perCPU t → rtc (l_step asks) (fresh perCPU t) s →
  running (limiter s) = total (holders s) ∧ total (holders s) ≤ limit_of perCPU t ∧
  (waiters s ≠ [] → holders s ≠ [] ∨ woken s ≠ []) ∧
  (∀ c, c ∈ woken s → holders s = [] → is_Some (try_reserve c (limiter s))) ∧
  ∀ n s', nsteps (l_step asks_none) n s s' →
    (n ≤ work_left s)%nat ∧ (holders s' = [] ∧ waiters s' = [] ∧ woken s' = [] ∨ ∃ s'', l_step asks_none s' s'').
Proof.
  intros Hl Hr. pose proof (l_reachable_inv _ _ _ Hl Hr) as Hinv. pose proof Hinv as [Hlim Hinit Hrun Hb Hc Hw]. split_and!; [done|lia|done| |].
  - intros c Hin Hh. rewrite !Forall_app in Hc. destruct Hc as (_ & _ & Hc). rewrite Forall_forall in Hc. specialize (Hc c Hin).
    destruct (initialized (limiter s)) eqn:Ei; [|destruct (Hinit eq_refl) as (_ & _ & E); rewrite E in Hin; by apply not_elem_of_nil in Hin].
    rewrite ensure_init_done in Hlim by done. rewrite Hh in Hrun. unfold try_reserve. rewrite Hrun, Hlim.
    change (total []) with 0. destruct (Z.ltb_spec (limit_of perCPU t) (0 + c)); [lia|by eexists].
  - intros n s' Hn. destruct (drain_steps _ _ _ _ Hl Hinv Hn) as [Hinv' Hle]. split; [lia|]. by apply (drain_progress (limit_of perCPU t)).
Qed.

(** With [Limited] and [Go] alone no slot is left free: while somebody waits, the slots in use
    and the goroutines just woken are at least [LimitTotal], and whoever looks while a slot is free
    gets it. *)
Theorem limiter_no_idle_slot perCPU t s :
  0 < limit_of perCPU t → rtc (l_step asks_one) (fresh perCPU t) s → waiters s ≠ [] →
  limit_of perCPU t ≤ Z.of_nat (length (holders s)) + Z.of_nat (length (woken s)).
Proof.
  intros Hl Hr Hne. destruct (l_reachable_busy _ _ _ Hl Hr) as [[Hlim Hinit Hrun Hb _ _] [Hone Hbusy]]. specialize (Hbusy Hne).
  destruct (initialized (limiter s)) eqn:Ei; [|by destruct (Hinit eq_refl) as (_ & E & _)].
  rewrite ensure_init_done in Hlim by done. rewrite Hlim, Hrun in Hbusy.
  assert (total (holders s) = Z.of_nat (length (holders s))) as E; [|lia].
  apply Forall_app in Hone as [Hone _]. clear -Hone. induction Hone as [|c hs -> _ IH]; [done|]. rewrite total_cons. cbn [length]. lia.
Qed.
End limiter.

(** ** Examples *)

(** One slot; one goroutine has it, another waits. *)
Definition demo : LSystem := mkLSystem (mkLimiter 0 1 1 true) [1] [1] [].
Lemma limiter_demo_reachable : rtc (l_step 8 asks) (fresh 0 1) demo ∧ rtc (l_step 8 asks_one) (fresh 0 1) demo.
Proof.
  split; (eapply rtc_l; [apply (l_enter 8 _ 1); first [by left|reflexivity]|]; eapply rtc_l; [apply (l_enter 8 _ 1); first [by left|reflexivity]|]; apply rtc_refl).
Qed.

Lemma limiter_bounds_and_progress_witness :
  running (limiter demo) = total (holders demo) ∧ total (holders demo) ≤ limit_of 8 0 1 ∧
  (waiters demo ≠ [] → holders demo ≠ [] ∨ woken demo ≠ []) ∧
  (∀ c, c ∈ woken demo → holders demo = [] → is_Some (try_reserve c (limiter demo))) ∧
  ∀ n s', nsteps (l_step 8 asks_none) n demo s' →
    (n ≤ 4)%nat ∧ (holders s' = [] ∧ waiters s' = [] ∧ woken s' = [] ∨ ∃ s'', l_step 8 asks_none s' s'').
Proof. apply (limiter_bounds_and_progress 8 0 1 demo); [reflexivity|apply limiter_demo_reachable]. Defined.

Lemma limiter_no_idle_slot_witness : limit_of 8 0 1 ≤ Z.of_nat (length (holders demo)) + Z.of_nat (length (woken demo)).
Proof. apply (limiter_no_idle_slot 8 0 1 demo); [reflexivity|apply limiter_demo_reachable|discriminate]. Defined.

(** The first [Exclusive] of a limiter whose limit is not set asks for no slot at all, so that it
    excludes nobody: here it runs beside a second one. *)
Theorem exclusive_before_init_excludes_nobody :
  ∃ s, rtc (l_step 4 asks) (fresh 0 0) s ∧ holders s = [4; 0] ∧ running (limiter s) = LimitTotal (limiter s).
Proof.
  exists (mkLSystem (mkLimiter 1 4 4 true) [4; 0] [] []). split; [|done].
  eapply rtc_l; [apply (l_enter 4 _ 0); by right|]. eapply rtc_l; [apply (l_enter 4 _ 4); by right|]. apply rtc_refl.
Qed.

(** Two slots, one in use, and an [Exclusive] waits.  Another caller takes the free slot, one of the
    two returns, the [Exclusive] is woken and finds a slot in use: this can go on for ever. *)
Definition starving : LSystem := mkLSystem (mkLimiter 0 2 1 true) [1] [2] [].
Theorem exclusive_starves : rtc (l_step 8 asks) (fresh 0 2) starving ∧ tc (l_step 8 asks) starving starving.
Proof.
  split.
  - eapply rtc_l; [apply (l_enter 8 _ 1); by left|]. eapply rtc_l; [apply (l_enter 8 _ 2); by right|]. apply rtc_refl.
  - eapply tc_l; [apply (l_enter 8 _ 1); by left|]. cbn.
    eapply tc_l; [apply (l_unlock_wake 8 _ 1 [] [1] 2 [] []); reflexivity|]. cbn.
    apply tc_once. apply (l_look 8 _ 2 [] []). reflexivity.
Qed.
