(* ===== verification/Locks.v ===== *)
(** * Locks (src/util/locked.go, src/util/lockedmap.go)

    RMutexLocked is a recursive mutex built from two plain ones and an atomic owner field; its
    methods interleave at every access of the shared fields.  MutexLockedMap keeps a mutex per name
    while somebody uses the name. *)
From stdpp Require Import base list gmap functions relations strings.
From Stdlib Require Import ZArith Lia.
From S2P Require Import Prelude.

(** ** RMutexLocked *)

Module RMutex.

(** Where a goroutine is in [Lock] or [Unlock]: what it does next. *)
Inductive PC : Type :=
| Idle
(* Lock *)
| LWantOwner      (* the owner field was ours: ownerMut.Lock *)
| LCheck          (* owning_gid = self.owner *)
| LInc            (* timesOwned++ *)
| LIncUnlock      (* ownerMut.Unlock, return *)
| LElseUnlock     (* ownerMut.Unlock, not ours after all *)
| LMut            (* mut.Lock *)
| LStore          (* owner = gid *)
| LWantSet        (* ownerMut.Lock *)
| LSet            (* timesOwned = 1 *)
| LSetUnlock      (* ownerMut.Unlock, return *)
(* Unlock *)
| UWant           (* ownerMut.Lock *)
| UDec            (* timesOwned-- *)
| UTest           (* timesOwned == 0 *)
| UStore          (* owner = 0 *)
| UMut            (* mut.Unlock *)
| UEnd.           (* ownerMut.Unlock, return *)
#[global] Instance PC_dec : EqDecision PC.
Proof. solve_decision. Defined.

(** [mut] and [ownerMut] with the goroutine that locked them; [depth] is how often a goroutine has
    locked the mutex without a matching call of [Unlock]. *)
Record RMutexLocked : Type := mkRM {
  mut : option N;
  ownerMut : option N;
  owner : N;
  timesOwned : Z;
  pc : N → PC;
  depth : N → nat
}.
Definition RMutex0 : RMutexLocked := mkRM None None 0%N 0 (λ _, Idle) (λ _, 0).

(** A goroutine goes on to [p]. *)
Definition goto (g : N) (p : PC) (s : RMutexLocked) : RMutexLocked :=
  mkRM (mut s) (ownerMut s) (owner s) (timesOwned s) (<[g := p]> (pc s)) (depth s).
Definition set_mut (x : option N) (s : RMutexLocked) : RMutexLocked :=
  mkRM x (ownerMut s) (owner s) (timesOwned s) (pc s) (depth s).
Definition set_ownerMut (x : option N) (s : RMutexLocked) : RMutexLocked :=
  mkRM (mut s) x (owner s) (timesOwned s) (pc s) (depth s).
Definition set_owner (x : N) (s : RMutexLocked) : RMutexLocked :=
  mkRM (mut s) (ownerMut s) x (timesOwned s) (pc s) (depth s).
Definition set_times (x : Z) (s : RMutexLocked) : RMutexLocked :=
  mkRM (mut s) (ownerMut s) (owner s) x (pc s) (depth s).
Definition set_depth (g : N) (d : nat) (s : RMutexLocked) : RMutexLocked :=
  mkRM (mut s) (ownerMut s) (owner s) (timesOwned s) (pc s) (<[g := d]> (depth s)).

(** [Lock] by goroutine [g], up to its first branch. *)
Definition Lock (g : N) (s : RMutexLocked) : RMutexLocked :=
  goto g (if decide (owner s = g) then LWantOwner else LMut) s.
(** [Unlock], called by a goroutine that has the lock. *)
Definition Unlock (g : N) (s : RMutexLocked) : RMutexLocked := set_depth g (pred (depth s g)) (goto g UWant s).

(** The next access of goroutine [g]; [None] when it has to wait or has nothing to do. *)
Definition next (g : N) (s : RMutexLocked) : option RMutexLocked :=
  let acquire_owner p := if decide (ownerMut s = None) then Some (goto g p (set_ownerMut (Some g) s)) else None in
  match pc s g with
  | Idle => None
  | LWantOwner => acquire_owner LCheck
  | LCheck => Some (goto g (if decide (owner s = g) then LInc else LElseUnlock) s)
  | LInc => Some (goto g LIncUnlock (set_times (timesOwned s + 1) s))
  | LIncUnlock => Some (set_depth g (S (depth s g)) (goto g Idle (set_ownerMut None s)))
  | LElseUnlock => Some (goto g LMut (set_ownerMut None s))
  | LMut => if decide (mut s = None) then Some (goto g LStore (set_mut (Some g) s)) else None
  | LStore => Some (goto g LWantSet (set_owner g s))
  | LWantSet => acquire_owner LSet
  | LSet => Some (goto g LSetUnlock (set_times 1 s))
  | LSetUnlock => Some (set_depth g (S (depth s g)) (goto g Idle (set_ownerMut None s)))
  | UWant => acquire_owner UDec
  | UDec => Some (goto g UTest (set_times (timesOwned s - 1) s))
  | UTest => Some (goto g (if decide (timesOwned s = 0%Z) then UStore else UEnd) s)
  | UStore => Some (goto g UMut (set_owner 0 s))
  | UMut => Some (goto g UEnd (set_mut None s))
  | UEnd => Some (goto g Idle (set_ownerMut None s))
  end.

(** Goroutine ids start at 1. *)
Inductive step : RMutexLocked → RMutexLocked → Prop :=
| step_Lock g s : g ≠ 0%N → pc s g = Idle → step s (Lock g s)
| step_Unlock g s : pc s g = Idle → 0 < depth s g → step s (Unlock g s)
| step_next g s s' : next g s = Some s' → step s s'.

(** *** The invariant *)

Definition in_ownerMut (p : PC) : bool :=
  match p with
  | LCheck | LInc | LIncUnlock | LElseUnlock | LSet | LSetUnlock | UDec | UTest | UStore | UMut | UEnd => true
  | _ => false
  end.
(** Whether a goroutine at [p] with depth [d] has [mut]. *)
Definition in_mut (p : PC) (d : nat) : bool :=
  match p with LStore | LWantSet | LSet | LSetUnlock | UWant | UDec | UTest | UStore | UMut => true | _ => 0 <? d end.
(** Whether its id is in the owner field. *)
Definition in_owner (p : PC) (d : nat) : bool :=
  match p with LStore | UMut => false | _ => in_mut p d end.
(** What the depth has to be, and how far [timesOwned] is ahead of it. *)
Definition depth_ok (p : PC) (d : nat) : Prop :=
  match p with
  | LWantOwner | LCheck | LInc | LIncUnlock => 0 < d
  | LElseUnlock => False
  | LMut | LStore | LWantSet | LSet | LSetUnlock | UStore | UMut => d = 0
  | _ => True
  end.
Definition times_ahead (p : PC) : option Z :=
  match p with
  | LStore | LWantSet | LSet | UMut => None
  | LIncUnlock | LSetUnlock | UWant | UDec => Some 1%Z
  | _ => Some 0%Z
  end.

Record inv (s : RMutexLocked) : Prop := {
  inv_ownerMut : ∀ g, in_ownerMut (pc s g) = true ↔ ownerMut s = Some g;
  inv_mut : ∀ g, in_mut (pc s g) (depth s g) = true ↔ mut s = Some g;
  inv_owner : ∀ g, g ≠ 0%N → in_owner (pc s g) (depth s g) = true ↔ owner s = g;
  inv_depth : ∀ g, depth_ok (pc s g) (depth s g);
  inv_times : ∀ g a, mut s = Some g → times_ahead (pc s g) = Some a → timesOwned s = (Z.of_nat (depth s g) + a)%Z;
  inv_zero : pc s 0%N = Idle ∧ depth s 0%N = 0
}.
Lemma inv_init : inv RMutex0.
Proof. by split; cbn. Qed.

#[local] Arguments Nat.ltb : simpl never.

(** A step of [g] changes its own part of the state; what it says of the others has to stay. *)
Lemma inv_update g p d s s' :
  inv s → g ≠ 0%N →
  (∀ g', pc s' g' = if decide (g' = g) then p else pc s g') →
  (∀ g', depth s' g' = if decide (g' = g) then d else depth s g') →
  (in_ownerMut p = true ↔ ownerMut s' = Some g) → (∀ g', g' ≠ g → ownerMut s' = Some g' ↔ ownerMut s = Some g') →
  (in_mut p d = true ↔ mut s' = Some g) → (∀ g', g' ≠ g → mut s' = Some g' ↔ mut s = Some g') →
  (in_owner p d = true ↔ owner s' = g) → (∀ g', g' ≠ 0%N → g' ≠ g → owner s' = g' ↔ owner s = g') →
  depth_ok p d →
  (∀ a, mut s' = Some g → times_ahead p = Some a → timesOwned s' = (Z.of_nat d + a)%Z) →
  (∀ g', g' ≠ g → mut s = Some g' → timesOwned s' = timesOwned s) →
  inv s'.
Proof.
  intros [I1 I2 I3 I4 I5 [I6 I7]] Hg Hpc Hd A1 B1 A2 B2 A3 B3 A4 A5 B5.
  split; [intros g'; rewrite Hpc|intros g'; rewrite Hpc, Hd|intros g' Hg'; rewrite Hpc, Hd|intros g'; rewrite Hpc, Hd
         |intros g' a; rewrite Hpc, Hd|by rewrite Hpc, Hd, decide_False, decide_False]; destruct (decide (g' = g)) as [->|Hne]; try done.
  - by rewrite B1.
  - by rewrite B2.
  - rewrite B3 by done. by apply I3.
  - by apply A5.
  - intros Hm Ht. apply B2 in Hm; [|done]. rewrite (B5 g') by done. by eapply I5.
Qed.

Lemma in_owner_in_mut p d : in_owner p d = true → in_mut p d = true.
Proof. by destruct p. Qed.
Lemma inv_others s g g' : inv s → mut s = Some g → g' ≠ 0%N → g' ≠ g → owner s ≠ g'.
Proof.
  intros I Hm H0 Hne Ho. apply (inv_owner s I g' H0), in_owner_in_mut, (inv_mut s I g') in Ho. congruence.
Qed.

(** What the invariant says about the goroutine that steps. *)
Ltac at_goroutine g Hp :=
  match goal with
  | [ I : inv ?s, Hg : g ≠ 0%N |- _ ] =>
      generalize (inv_ownerMut s I g) (inv_mut s I g) (inv_owner s I g Hg) (inv_depth s I g) (λ a, inv_times s I g a);
      rewrite Hp; cbn [in_ownerMut in_mut in_owner depth_ok times_ahead]; 
      let Ht := fresh "Htimes" in intros Hom Hmut Hown Hdep Ht;
      (pose proof (λ H, Ht _ H eq_refl) as Htimes' || idtac); clear Ht
  end.
Ltac pointwise :=
  let g' := fresh in intros g'; cbn; unfold insert, fn_insert; repeat destruct (decide _); by subst.
(** The conditions of [inv_update] at a concrete program counter. *)
Ltac local_step g p d := eapply (inv_update g p d); [done|done|pointwise|pointwise|cbn..]; try done.

Ltac crush :=
  rewrite ?Nat.ltb_lt in *; intros; simplify_eq; intuition (subst; first [congruence|lia|by exfalso; eapply inv_others]).

Lemma step_inv s s' : inv s → step s s' → inv s'.
Proof.
  intros I Hst. destruct Hst as [g s1 Hg Hp|g s1 Hp Hd|g s1 s2 Hn].
  - at_goroutine g Hp. unfold Lock. destruct (decide (owner s1 = g)) as [E|E]; [local_step g LWantOwner (depth s1 g)|local_step g LMut (depth s1 g)].
    all: crush.
  - assert (g ≠ 0%N) as Hg by (intros ->; destruct (inv_zero _ I); lia). at_goroutine g Hp. local_step g UWant (pred (depth s1 g)).
    all: crush.
  - assert (g ≠ 0%N) as Hg by (intros ->; destruct (inv_zero _ I) as [E _]; unfold next in Hn; by rewrite E in Hn).
    unfold next in Hn. destruct (pc s1 g) eqn:Hp; try done; at_goroutine g Hp;
      repeat (match type of Hn with context [decide ?P] => destruct (decide P) end); try done; injection Hn as <-;
      match goal with
         | |- inv (goto g ?p _) => local_step g p (depth s1 g)
         | |- inv (set_depth g ?d (goto g ?p _)) => local_step g p d
         end; crush.
Qed.

Lemma reachable_inv s : rtc step RMutex0 s → inv s.
Proof.
  intros Hr. remember RMutex0 as s0 eqn:E0. assert (inv s0) as Hs0 by (subst; apply inv_init). clear E0.
  induction Hr as [|s1 s2 s3 H12 _ IH]; [done|]. apply IH. by eapply step_inv.
Qed.

Lemma in_ownerMut_next s g : in_ownerMut (pc s g) = true → is_Some (next g s).
Proof. unfold next. destruct (pc s g); done. Qed.
(** A goroutine in a method steps, or waits for one of the two mutexes. *)
Lemma next_cases s g :
  pc s g ≠ Idle → is_Some (next g s) ∨ ownerMut s ≠ None ∨ pc s g = LMut ∧ mut s ≠ None.
Proof.
  intros Hp. unfold next. destruct (pc s g); try done; try (by left); destruct (decide _); first [by left|by right; left|by right; right].
Qed.

(** C37: a recursive mutex excludes.  However the methods of any number of goroutines interleave, two
    goroutines never both have it; whoever has it can lock it again without waiting for [mut], and
    [timesOwned] is how often it has done so whenever no method of its is in progress. *)
Theorem rmutex_exclusive s :
  rtc step RMutex0 s →
  (∀ g1 g2, 0 < depth s g1 → 0 < depth s g2 → g1 = g2) ∧
  (∀ g, 0 < depth s g → pc s g ≠ LMut ∧ (pc s g = Idle → pc (Lock g s) g = LWantOwner ∧ timesOwned s = Z.of_nat (depth s g))).
Proof.
  intros I%reachable_inv.
  assert (∀ g, 0 < depth s g → in_mut (pc s g) (depth s g) = true) as Hd by (intros g Hg; unfold in_mut; destruct (pc s g); by apply Nat.ltb_lt || done).
  split.
  - intros g1 g2 H1%Hd H2%Hd. apply (inv_mut s I) in H1, H2. congruence.
  - intros g Hg. pose proof (inv_depth s I g) as Hd0. split; [intros E; rewrite E in Hd0; cbn in Hd0; lia|]. intros Hp.
    assert (g ≠ 0%N) as H0 by (intros ->; destruct (inv_zero _ I); lia). at_goroutine g Hp. apply Nat.ltb_lt in Hg.
    apply Hown in Hg as Ho. apply Hmut in Hg as Hm. split; [|rewrite (Htimes' Hm); lia].
    unfold Lock. cbn. by rewrite fn_lookup_insert, decide_True.
Qed.

(** Nobody is stuck in a recursive mutex: when a goroutine is in [Lock] or [Unlock], some
    goroutine that is in one of them can go on, or one that is in neither has the mutex. *)
Theorem rmutex_progress s g :
  rtc step RMutex0 s → pc s g ≠ Idle →
  (∃ g', pc s g' ≠ Idle ∧ is_Some (next g' s)) ∨ (∃ g', pc s g' = Idle ∧ 0 < depth s g').
Proof.
  intros I%reachable_inv Hp.
  assert (ownerMut s ≠ None → ∃ g', pc s g' ≠ Idle ∧ is_Some (next g' s)) as Howner.
  { destruct (ownerMut s) as [g'|] eqn:E; [|done]. intros _. apply (inv_ownerMut s I) in E. exists g'.
    split; [by intros Hi; rewrite Hi in E|by apply in_ownerMut_next]. }
  destruct (next_cases s g Hp) as [Hn|[Ho|[E Hm]]]; [left; by exists g|by left; apply Howner|].
  destruct (mut s) as [g'|] eqn:Em; [|done]. apply (inv_mut s I) in Em. pose proof (inv_depth s I g') as Hd.
  destruct (decide (pc s g' = Idle)) as [Hi|Hi].
  - right. exists g'. rewrite Hi in Em. cbn in Em. apply Nat.ltb_lt in Em. done.
  - left. destruct (next_cases s g' Hi) as [Hn|[Ho|[E' _]]]; [by exists g'|by apply Howner|].
    rewrite E' in Em, Hd. cbn in Em, Hd. apply Nat.ltb_lt in Em. lia.
Qed.

(** *** Example: goroutine 1 has the lock twice, 2 waits for it. *)
Definition run_next (g : N) (n : nat) (s : RMutexLocked) : RMutexLocked :=
  Nat.iter n (λ s, default s (next g s)) s.
Definition demo : RMutexLocked := Lock 2 (run_next 1 4 (Lock 1 (run_next 1 5 (Lock 1 RMutex0)))).

Lemma run_next_steps g n s : rtc step s (run_next g n s).
Proof.
  induction n as [|n IH]; [done|]. etrans; [exact IH|]. cbn. destruct (next g _) as [s'|] eqn:E; cbn; [|done].
  eapply rtc_once, step_next, E.
Qed.
Lemma rmutex_demo_reachable : rtc step RMutex0 demo.
Proof.
  eapply rtc_l; [by apply (step_Lock 1)|]. etrans; [apply (run_next_steps 1 5)|].
  eapply rtc_l; [by apply (step_Lock 1)|]. etrans; [apply (run_next_steps 1 4)|].
  eapply rtc_l; [by apply (step_Lock 2)|]. done.
Qed.

Lemma rmutex_exclusive_witness :
  depth demo 1 = 2 ∧
  (∀ g1 g2, 0 < depth demo g1 → 0 < depth demo g2 → g1 = g2) ∧
  (∀ g, 0 < depth demo g → pc demo g ≠ LMut ∧
    (pc demo g = Idle → pc (Lock g demo) g = LWantOwner ∧ timesOwned demo = Z.of_nat (depth demo g))).
Proof. split; [reflexivity|]. apply (rmutex_exclusive demo rmutex_demo_reachable). Defined.
Lemma rmutex_progress_witness :
  pc demo 2 = LMut ∧
  ((∃ g', pc demo g' ≠ Idle ∧ is_Some (next g' demo)) ∨ (∃ g', pc demo g' = Idle ∧ 0 < depth demo g')).
Proof. split; [reflexivity|]. apply (rmutex_progress demo 2); [apply rmutex_demo_reachable|discriminate]. Defined.
End RMutex.

(** ** MutexLockedMap *)

Module LockedMap.
Section map.
Context {K : Type} `{Countable K}.

(** The map [m] from names to mutexes (by address), the users [q] of each name; [held] are the
    mutexes that are locked, [fresh] the next address. *)
Record MutexLockedMap : Type := mkMLM {
  m : gmap K nat;
  q : gmap K nat;
  held : gset nat;
  fresh : nat
}.
Definition MutexLockedMap0 : MutexLockedMap := mkMLM ∅ ∅ ∅ 0.

Definition GetLockedByName (name : K) (self : MutexLockedMap) : option nat := m self !! name.

(** [Locked] until it waits for the mutex, which is returned. *)
Definition Locked_enter (name : K) (self : MutexLockedMap) : nat * MutexLockedMap :=
  let n := default 0 (q self !! name) in
  match m self !! name with
  | Some ll => (ll, mkMLM (m self) (<[name := S n]> (q self)) (held self) (fresh self))
  | None => (fresh self, mkMLM (<[name := fresh self]> (m self)) (<[name := S n]> (q self)) (held self) (S (fresh self)))
  end.
(** [ll.Locked()] *)
Definition Locked_lock (ll : nat) (self : MutexLockedMap) : option MutexLockedMap :=
  if decide (ll ∈ held self) then None else Some (mkMLM (m self) (q self) ({[ll]} ∪ held self) (fresh self)).
(** The function [Locked] returns. *)
Definition Locked_release (name : K) (ll : nat) (self : MutexLockedMap) : MutexLockedMap :=
  let n := pred (default 0 (q self !! name)) in
  if decide (n = 0) then mkMLM (delete name (m self)) (delete name (q self)) (held self) (fresh self)
  else mkMLM (m self) (<[name := n]> (q self)) (held self ∖ {[ll]}) (fresh self).

(** A goroutine that uses a name: the mutex it was given and whether it has it. *)
Record user : Type := mkUser { u_name : K; u_mutex : nat; u_has : bool }.

Inductive lm_step : MutexLockedMap * list user → MutexLockedMap * list user → Prop :=
| lm_enter name ll s us s' :
    Locked_enter name s = (ll, s') → lm_step (s, us) (s', mkUser name ll false :: us)
| lm_lock name ll us1 us2 s s' :
    Locked_lock ll s = Some s' →
    lm_step (s, us1 ++ mkUser name ll false :: us2) (s', us1 ++ mkUser name ll true :: us2)
| lm_release name ll us1 us2 s :
    lm_step (s, us1 ++ mkUser name ll true :: us2) (Locked_release name ll s, us1 ++ us2).

Definition users_of (name : K) (us : list user) : list user := filter (λ u, u_name u = name) us.
Definition holders_of (name : K) (us : list user) : list user := filter (λ u, u_name u = name ∧ u_has u = true) us.

#[local] Arguments users_of : simpl never.
#[local] Arguments holders_of : simpl never.

Record lm_inv (s : MutexLockedMap) (us : list user) : Prop := {
  lm_users : ∀ name, default 0 (q s !! name) = length (users_of name us);
  lm_used : ∀ name, is_Some (m s !! name) ↔ 0 < length (users_of name us);
  lm_same : ∀ u, u ∈ us → m s !! u_name u = Some (u_mutex u);
  lm_inj : ∀ n1 n2 ll, m s !! n1 = Some ll → m s !! n2 = Some ll → n1 = n2;
  lm_fresh : ∀ name ll, m s !! name = Some ll → ll < fresh s;
  lm_held_fresh : ∀ ll, ll ∈ held s → ll < fresh s;
  lm_held : ∀ name ll, m s !! name = Some ll → length (holders_of name us) = if decide (ll ∈ held s) then 1 else 0
}.
Lemma lm_inv_init : lm_inv MutexLockedMap0 [].
Proof.
  split; cbn; [done| |set_solver|done|done|set_solver|done]. intros name. rewrite lookup_empty.
  split; [by intros []|unfold users_of; cbn; lia].
Qed.

Lemma users_len name us1 u us2 :
  length (users_of name (us1 ++ u :: us2)) = (if decide (u_name u = name) then 1 else 0) + length (users_of name (us1 ++ us2)).
Proof. unfold users_of. rewrite !filter_app, !length_app, filter_cons. destruct (decide (u_name u = name)); cbn; lia. Qed.
Lemma holders_len name us1 u us2 :
  length (holders_of name (us1 ++ u :: us2)) =
  (if decide (u_name u = name ∧ u_has u = true) then 1 else 0) + length (holders_of name (us1 ++ us2)).
Proof. unfold holders_of. rewrite !filter_app, !length_app, filter_cons. destruct (decide _); cbn; lia. Qed.
Lemma users_cons name u us :
  length (users_of name (u :: us)) = (if decide (u_name u = name) then 1 else 0) + length (users_of name us).
Proof. apply (users_len name []). Qed.
Lemma holders_cons name u us :
  length (holders_of name (u :: us)) = (if decide (u_name u = name ∧ u_has u = true) then 1 else 0) + length (holders_of name us).
Proof. apply (holders_len name []). Qed.
Lemma holders_users name us : length (holders_of name us) ≤ length (users_of name us).
Proof.
  unfold holders_of, users_of. induction us as [|u us IH]; [done|]. rewrite !filter_cons.
  destruct (decide (u_name u = name ∧ _)) as [[H1 H2]|]; [rewrite decide_True by done; cbn; lia|]. destruct (decide _); cbn; lia.
Qed.
Lemma elem_of_mid (us1 us2 : list user) u u' : u ∈ us1 ++ us2 → u ∈ us1 ++ u' :: us2.
Proof. rewrite !elem_of_app, elem_of_cons. tauto. Qed.

Lemma lm_enter_inv name ll s s' us :
  lm_inv s us → Locked_enter name s = (ll, s') → lm_inv s' (mkUser name ll false :: us).
Proof.
  intros [Iu Ius Isame Iinj Ifr Ihf Ih] E. unfold Locked_enter in E.
  assert (∀ n b, default 0 (<[name := S (default 0 (q s !! name))]> (q s) !! n) = length (users_of n (mkUser name ll b :: us))) as Hq.
  { intros n b. rewrite users_cons. cbn. rewrite <- Iu. destruct (decide (name = n)) as [->|];
      [by rewrite lookup_insert_eq|by rewrite lookup_insert_ne]. }
  assert (∀ n, length (holders_of n (mkUser name ll false :: us)) = length (holders_of n us)) as Hh.
  { intros n. rewrite holders_cons. cbn. rewrite decide_False by (by intros []). done. }
  destruct (m s !! name) as [ll0|] eqn:Em; injection E as <- <-; (split; cbn; [by intros; apply Hq| | | | | |]).
  - intros n. rewrite users_cons, Ius. cbn. destruct (decide (name = n)) as [->|]; [|done].
    split; [lia|]. intros _. apply Ius. by eexists.
  - intros u [->|Hu]%elem_of_cons; [done|by apply Isame].
  - done.
  - done.
  - done.
  - intros n l Hl. rewrite Hh. by apply Ih.
  - intros n. rewrite users_cons, lookup_insert_is_Some, Ius. cbn. destruct (decide (name = n)) as [->|]; naive_solver lia.
  - intros u [->|Hu]%elem_of_cons; cbn; [by rewrite lookup_insert_eq|]. rewrite lookup_insert_ne; [by apply Isame|].
    intros ->. apply Isame in Hu. congruence.
  - intros n1 n2 l. rewrite !lookup_insert_Some. intros [[<- <-]|[? H1]] [[<- E]|[? H2]]; try done.
    + apply Ifr in H2. lia.
    + subst. apply Ifr in H1. lia.
    + by eapply Iinj.
  - intros n l. rewrite lookup_insert_Some. intros [[<- <-]|[? H1]]; [lia|]. apply Ifr in H1. lia.
  - intros l Hl. apply Ihf in Hl. lia.
  - intros n l. rewrite lookup_insert_Some, Hh. intros [[<- <-]|[? H1]]; [|by apply Ih].
    rewrite decide_False by (intros Hin%Ihf; lia). pose proof (holders_users name us) as Hle.
    assert (length (users_of name us) = 0); [|lia]. destruct (length (users_of name us)) eqn:El; [done|].
    destruct (proj2 (Ius name)) as [? ?]; [lia|congruence].
Qed.

Lemma lm_lock_inv name ll us1 us2 s s' :
  lm_inv s (us1 ++ mkUser name ll false :: us2) → Locked_lock ll s = Some s' → lm_inv s' (us1 ++ mkUser name ll true :: us2).
Proof.
  intros [Iu Ius Isame Iinj Ifr Ihf Ih] E. unfold Locked_lock in E. destruct (decide (ll ∈ held s)) as [|Hn]; [done|]. injection E as <-.
  assert (m s !! name = Some ll) as Hm by (apply (Isame (mkUser name ll false)); rewrite elem_of_app, elem_of_cons; tauto).
  split; cbn; [| | |done|done| |].
  - intros n. by rewrite Iu, !users_len.
  - intros n. by rewrite Ius, !users_len.
  - intros u. rewrite elem_of_app, elem_of_cons. intros [Hu|[->|Hu]]; [|done|]; apply Isame; rewrite elem_of_app, elem_of_cons; tauto.
  - intros l [->%elem_of_singleton|Hl]%elem_of_union; [by eapply Ifr|by apply Ihf].
  - intros n l Hl. specialize (Ih n l Hl). rewrite holders_len in *. cbn in *. rewrite decide_False in Ih by (by intros []).
    destruct (decide (name = n)) as [->|Hne].
    + rewrite decide_True by done. rewrite Hm in Hl. injection Hl as <-. rewrite decide_False in Ih by done.
      rewrite decide_True by set_solver. lia.
    + rewrite decide_False by (by intros []). cbn in Ih. cbn. rewrite Ih. assert (l ≠ ll) as Hll by (intros ->; apply Hne; by eapply Iinj).
      apply decide_ext. set_solver.
Qed.

Lemma lm_release_inv name ll us1 us2 s :
  lm_inv s (us1 ++ mkUser name ll true :: us2) → lm_inv (Locked_release name ll s) (us1 ++ us2).
Proof.
  intros [Iu Ius Isame Iinj Ifr Ihf Ih].
  assert (m s !! name = Some ll) as Hm by (apply (Isame (mkUser name ll true)); rewrite elem_of_app, elem_of_cons; tauto).
  assert (∀ n, length (users_of n (us1 ++ us2)) = if decide (n = name) then pred (default 0 (q s !! name)) else default 0 (q s !! n)) as Hu.
  { intros n. rewrite !Iu, !users_len. cbn. destruct (decide (n = name)) as [->|]; [by rewrite decide_True|by rewrite decide_False]. }
  unfold Locked_release. destruct (decide _) as [E0|E0].
  - assert (∀ n, n ≠ name → m s !! n = delete name (m s) !! n) as Hd by (intros; by rewrite lookup_delete_ne).
    split; cbn.
    + intros n. rewrite Hu. destruct (decide (n = name)) as [->|]; [by rewrite lookup_delete_eq|by rewrite lookup_delete_ne].
    + intros n. rewrite Hu. destruct (decide (n = name)) as [->|]; [rewrite lookup_delete_eq, E0|rewrite lookup_delete_ne, Ius, Iu by done; done].
      split; [by intros []|lia].
    + intros u Hin. rewrite lookup_delete_ne; [by apply Isame, elem_of_mid|]. intros Hname. specialize (Hu name). rewrite decide_True, E0 in Hu by done.
      apply nil_length_inv in Hu. assert (u ∈ users_of name (us1 ++ us2)) as Hx by (by apply list_elem_of_filter). rewrite Hu in Hx. by apply not_elem_of_nil in Hx.
    + intros n1 n2 l [_ H1]%lookup_delete_Some [_ H2]%lookup_delete_Some. by eapply Iinj.
    + intros n l [_ H1]%lookup_delete_Some. by eapply Ifr.
    + done.
    + intros n l [Hne H1]%lookup_delete_Some. specialize (Ih n l H1). rewrite holders_len in Ih. cbn in Ih.
      by rewrite decide_False in Ih by (by intros []).
  - split; cbn; [| | |done|done| |].
    + intros n. rewrite Hu. destruct (decide (n = name)) as [->|]; [by rewrite lookup_insert_eq|by rewrite lookup_insert_ne].
    + intros n. rewrite Hu. destruct (decide (n = name)) as [->|]; [|by rewrite Ius, Iu]. split; [lia|by eexists].
    + intros u Hin. by apply Isame, elem_of_mid.
    + intros l [Hl _]%elem_of_difference. by apply Ihf.
    + intros n l Hl. specialize (Ih n l Hl). rewrite holders_len in Ih. cbn in Ih. destruct (decide (name = n)) as [->|Hne].
      * rewrite decide_True in Ih by done. rewrite Hm in Hl. injection Hl as <-. rewrite (decide_False (P := ll ∈ held s ∖ {[ll]})) by set_solver.
        destruct (decide (ll ∈ held s)); lia.
      * rewrite decide_False in Ih by (by intros []). cbn in Ih. rewrite Ih. assert (l ≠ ll) as Hll by (intros ->; apply Hne; by eapply Iinj).
        apply decide_ext. set_solver.
Qed.

Lemma lm_reachable_inv s us : rtc lm_step (MutexLockedMap0, []) (s, us) → lm_inv s us.
Proof.
  intros Hr. set (P := λ st : MutexLockedMap * list user, lm_inv st.1 st.2).
  assert (P (MutexLockedMap0, [])) as H0 by apply lm_inv_init. change (P (s, us)). revert H0.
  generalize dependent (s, us). clear s us. induction 1 as [|st1 st2 st3 H12 _ IH]; [done|]. intros HP. apply IH.
  destruct H12 as [name ll s us s' E|name ll us1 us2 s s' E|name ll us1 us2 s];
    [by eapply lm_enter_inv|by eapply lm_lock_inv|by eapply lm_release_inv].
Qed.

(** Whatever goroutines do, at most one at a time is between [Locked] of a name and the call of
    the function it returned; a waiting one can lock its mutex as soon as nobody is (although the
    last user of a name drops the mutex still locked); a name nobody uses is not in the map. *)
Theorem lockedmap_exclusive s us name :
  rtc lm_step (MutexLockedMap0, []) (s, us) →
  length (holders_of name us) ≤ 1 ∧
  (∀ u, u ∈ us → u_name u = name → holders_of name us = [] → is_Some (Locked_lock (u_mutex u) s)) ∧
  (users_of name us = [] → GetLockedByName name s = None).
Proof.
  intros [Iu Ius Isame Iinj Ifr Ihf Ih]%lm_reachable_inv. split_and!.
  - destruct (m s !! name) as [ll|] eqn:Em; [rewrite (Ih name ll Em); destruct (decide _); lia|].
    pose proof (holders_users name us) as Hle. destruct (length (users_of name us)) eqn:El; [lia|].
    destruct (proj2 (Ius name)) as [? ?]; [lia|congruence].
  - intros u Hu <- Hnone. apply Isame in Hu. specialize (Ih _ _ Hu). rewrite Hnone in Ih. unfold Locked_lock.
    destruct (decide _); [done|by eexists].
  - intros Hnone. unfold GetLockedByName. destruct (m s !! name) eqn:Em; [|done].
    assert (0 < length (users_of name us)) as Hlt by (apply Ius; by eexists). rewrite Hnone in Hlt. cbn in Hlt. lia.
Qed.
End map.

(** Goroutine A has name 7, B waits for it. *)
Definition lm_demo : MutexLockedMap (K := nat) * list user :=
  (mkMLM {[7 := 0]} {[7 := 2]} {[0]} 1, [mkUser 7 0 false; mkUser 7 0 true]).
Lemma lm_demo_reachable : rtc lm_step (MutexLockedMap0, []) lm_demo.
Proof.
  eapply rtc_l; [apply (lm_enter 7 0); reflexivity|].
  eapply rtc_l; [apply (lm_lock 7 0 [] []); reflexivity|].
  eapply rtc_l; [apply (lm_enter 7 0); reflexivity|]. apply rtc_refl.
Qed.
Lemma lockedmap_exclusive_witness :
  length (holders_of 7 lm_demo.2) ≤ 1 ∧
  (∀ u, u ∈ lm_demo.2 → u_name u = 7 → holders_of 7 lm_demo.2 = [] → is_Some (Locked_lock (u_mutex u) lm_demo.1)) ∧
  (users_of 7 lm_demo.2 = [] → GetLockedByName 7 lm_demo.1 = None).
Proof. apply (lockedmap_exclusive lm_demo.1 lm_demo.2 7). apply lm_demo_reachable. Defined.
End LockedMap.

(** ** Plain mutexes with checks *)

(** [MutexLocked]: with debugging on, the owner is kept beside the mutex, set after it is taken and cleared before it is
    released.  Goroutines, access by access; ids are not 0. *)
Module Mutex.
Inductive pc_t : Type :=
  | M_idle
  | M_check      (* [Lock], about to look at the owner *)
  | M_wait       (* about to take the mutex *)
  | M_own        (* has it, about to store the owner *)
  | M_in         (* [Lock] has returned *)
  | M_given      (* after [ClearOwner]: the mutex is left to another goroutine *)
  | M_clear      (* [Unlock], about to clear the owner *)
  | M_release.   (* about to release the mutex *)
Record MutexLocked : Type := mkMutex { m_mu : option N; m_owner : N; m_pc : gmap N pc_t }.
Definition MutexLocked0 : MutexLocked := mkMutex None 0 ∅.
Definition m_at (g : N) (s : MutexLocked) : pc_t := default M_idle (m_pc s !! g).
Definition m_goto (g : N) (p : pc_t) (mu : option N) (owner : N) (s : MutexLocked) : MutexLocked :=
  mkMutex mu owner (<[g := p]> (m_pc s)).

Definition AssertLocked (debugging : bool) (g : N) (s : MutexLocked) : res unit :=
  if debugging && negb (m_owner s =? g)%N then Panic "Not locked by us" else Ok tt.
(** The next access of a goroutine; [None] when it has to wait, or is not in a call. *)
Definition m_next (debugging : bool) (g : N) (s : MutexLocked) : option (res MutexLocked) :=
  match m_at g s with
  | M_idle | M_in | M_given => None
  | M_check =>
      Some (if debugging && (m_owner s =? g)%N then Panic "Double lock by us"
            else Ok (m_goto g M_wait (m_mu s) (m_owner s) s))
  | M_wait =>
      match m_mu s with
      | Some _ => None
      | None => Some (Ok (m_goto g (if debugging then M_own else M_in) (Some g) (m_owner s) s))
      end
  | M_own => Some (Ok (m_goto g M_in (m_mu s) g s))
  | M_clear => Some (Ok (m_goto g M_release (m_mu s) (if debugging then 0%N else m_owner s) s))
  | M_release => Some (Ok (m_goto g M_idle None (m_owner s) s))
  end.
Inductive m_step (debugging : bool) : MutexLocked → MutexLocked → Prop :=
  | m_Lock g s : g ≠ 0%N → m_at g s = M_idle → m_step debugging s (m_goto g M_check (m_mu s) (m_owner s) s)
  | m_Unlock g s : m_at g s = M_in → m_step debugging s (m_goto g M_clear (m_mu s) (m_owner s) s)
  | m_ClearOwner g s :
      m_at g s = M_in → m_step debugging s (m_goto g M_given (m_mu s) (if debugging then 0%N else m_owner s) s)
  (* [UpdateOwner] in the goroutine that goes on with the mutex of [g] *)
  | m_UpdateOwner g h s :
      h ≠ 0%N → m_at g s = M_given → m_at h s = M_idle →
      m_step debugging s (m_goto h M_in (Some h) (if debugging then h else m_owner s) (m_goto g M_idle None (m_owner s) s))
  | m_access g s s' : m_next debugging g s = Some (Ok s') → m_step debugging s s'.

(** The goroutine is past the acquisition of the mutex. *)
Definition has_mu (p : pc_t) : bool := match p with M_own | M_in | M_given | M_clear | M_release => true | _ => false end.
(** And its id is stored. *)
Definition is_owner (p : pc_t) : bool := match p with M_in | M_clear => true | _ => false end.
Record m_inv (debugging : bool) (s : MutexLocked) : Prop := {
  mi_mu : ∀ g, has_mu (m_at g s) = true ↔ m_mu s = Some g;
  mi_zero : m_at 0 s = M_idle;
  mi_own : ∀ g, m_at g s = M_own → debugging = true;
  mi_owner : m_owner s = match m_mu s with Some g => if debugging && is_owner (m_at g s) then g else 0%N | None => 0%N end
}.
Lemma m_at_goto g h p mu o s : m_at h (m_goto g p mu o s) = if decide (g = h) then p else m_at h s.
Proof. unfold m_at, m_goto. cbn. destruct (decide (g = h)) as [->|]; by rewrite ?lookup_insert_eq, ?lookup_insert_ne by done. Qed.

(** A step of [g] that leaves the mutex to whoever [g] may leave it to. *)
Lemma m_inv_goto d g p mu o s :
  m_inv d s → g ≠ 0%N → (if has_mu p then mu = Some g else mu ≠ Some g) →
  (mu = m_mu s ∨ mu = None ∧ m_mu s = Some g ∨ mu = Some g ∧ m_mu s = None) → (p = M_own → d = true) →
  o = (match mu with Some h => if d && is_owner (if decide (g = h) then p else m_at h s) then h else 0%N | None => 0%N end) →
  m_inv d (m_goto g p mu o s).
Proof.
  intros [Hmu Hz Hd Ho] Hg Hp Hcase Hpd Hown. split; cbn [m_mu m_owner m_goto].
  - intros h. rewrite m_at_goto. destruct (decide (g = h)) as [<-|Hne].
    + destruct (has_mu p); [by subst|]. split; [done|]. by intros ?%Hp.
    + rewrite Hmu. destruct Hcase as [->|[[-> ->]|[-> ->]]]; [done|split; congruence|split; congruence].
  - rewrite m_at_goto. by rewrite decide_False by done.
  - intros h. rewrite m_at_goto. destruct (decide (g = h)); [done|apply Hd].
  - subst o. destruct mu as [h|]; [|done]. by rewrite m_at_goto.
Qed.
Lemma m_at_nonzero d g s : m_inv d s → m_at g s ≠ M_idle → g ≠ 0%N.
Proof. intros [_ Hz _ _] Hg ->. done. Qed.
(** A step of a goroutine that has the mutex and keeps it. *)
Lemma m_inv_keep d g p o s :
  m_inv d s → has_mu (m_at g s) = true → has_mu p = true → (p = M_own → d = true) → o = (if d && is_owner p then g else 0%N) →
  m_inv d (m_goto g p (m_mu s) o s).
Proof.
  intros Hi Hg Hp Hpd Ho. assert (m_mu s = Some g) as Em by by apply Hi. apply m_inv_goto; [done| | |by left|done|].
  - apply (m_at_nonzero d g s Hi). intros E. by rewrite E in Hg.
  - by rewrite Hp.
  - rewrite Em. by rewrite decide_True.
Qed.
(** And of one that does not have it. *)
Lemma m_inv_out d g p s :
  m_inv d s → g ≠ 0%N → has_mu (m_at g s) = false → has_mu p = false → m_inv d (m_goto g p (m_mu s) (m_owner s) s).
Proof.
  intros Hi Hz Hg Hp. pose proof Hi as [Hmu _ _ Ho]. assert (m_mu s ≠ Some g) as Hne by (intros E; apply Hmu in E; congruence).
  apply m_inv_goto; [done|done|by rewrite Hp|by left|by intros ->|]. rewrite Ho. destruct (m_mu s) as [h|]; [|done]. rewrite decide_False; congruence.
Qed.
Lemma m_owner_given d g s : m_inv d s → m_at g s = M_given → m_owner s = 0%N ∧ m_mu s = Some g.
Proof.
  intros [Hmu _ _ Ho] E. assert (m_mu s = Some g) as Em by (apply Hmu; by rewrite E). rewrite Ho, Em, E. by rewrite andb_false_r.
Qed.
Lemma m_inv_access d g s s' : m_inv d s → m_next d g s = Some (Ok s') → m_inv d s'.
Proof.
  intros Hi. pose proof Hi as [Hmu _ Hown Ho]. pose proof (m_at_nonzero d g s Hi) as Hg. specialize (Hmu g). unfold m_next.
  destruct (m_at g s) eqn:Ep; try done; specialize (Hg ltac:(done)).
  - destruct (d && _); [done|]. intros [= <-]. apply m_inv_out; [done..|by rewrite Ep|done].
  - destruct (m_mu s) eqn:Em; [done|]. intros [= <-]. apply m_inv_goto; [done|done|by destruct d|by right; right|by destruct d|].
    rewrite Ho, decide_True by done. by destruct d.
  - intros [= <-]. apply m_inv_keep; [done|by rewrite Ep|done|done|]. by rewrite (Hown g Ep).
  - intros [= <-]. apply m_inv_keep; [done|by rewrite Ep|done|done|]. rewrite andb_false_r. destruct d; [done|]. rewrite Ho. by destruct (m_mu s).
  - intros [= <-]. assert (m_mu s = Some g) as Em by by apply Hmu. apply m_inv_goto; [done|done|done|by right; left|done|].
    rewrite Ho, Em, Ep. by rewrite andb_false_r.
Qed.
Lemma m_inv_step d s s' : m_inv d s → m_step d s s' → m_inv d s'.
Proof.
  intros Hi Hs. revert Hi. destruct Hs as [g s Hg Ep|g s Ep|g s Ep|g h s Hh Eg Eh|g s s' E]; intros Hi.
  - apply m_inv_out; [done|done|by rewrite Ep|done].
  - apply m_inv_keep; [done|by rewrite Ep|done|done|]. pose proof Hi as [Hmu _ _ ->]. cbn.
    assert (m_mu s = Some g) as -> by (apply Hmu; by rewrite Ep). by rewrite Ep.
  - apply m_inv_keep; [done|by rewrite Ep|done|done|]. rewrite andb_false_r. pose proof Hi as [_ _ _ ->]. destruct d; [done|]. by destruct (m_mu s).
  - destruct (m_owner_given d g s Hi Eg) as [Eo Em].
    assert (m_inv d (m_goto g M_idle None (m_owner s) s)) as Hi2.
    { apply m_inv_goto; [done|apply (m_at_nonzero d g s Hi); by rewrite Eg|done|by right; left|done|done]. }
    apply m_inv_goto; [done|done|done|by right; right|done|]. rewrite decide_True by done. cbn. rewrite Eo. by destruct d.
  - by eapply m_inv_access.
Qed.
Lemma m_inv_0 d : m_inv d MutexLocked0.
Proof.
  assert (∀ g, m_at g MutexLocked0 = M_idle) as E by (intros g; exact (f_equal (default M_idle) (lookup_empty g))).
  split; [|by rewrite E|intros g; by rewrite E|done]. intros g. by rewrite E.
Qed.

(** The mutex excludes, and its checks are right: with debugging on, the goroutine that has the mutex passes
    [AssertLocked] and every other one fails it, a [Lock] of a goroutine that does not have it never panics, and a
    second [Lock] of the one that has it panics, where it would wait for itself for ever. *)
Theorem mutexlocked_checks debugging s :
  rtc (m_step debugging) MutexLocked0 s →
  (∀ g h, has_mu (m_at g s) = true → has_mu (m_at h s) = true → g = h) ∧
  (∀ g, m_at g s = M_in → AssertLocked debugging g s = Ok tt) ∧
  (∀ g, g ≠ 0%N → is_owner (m_at g s) = false → AssertLocked true g s = Ok tt → debugging = false) ∧
  (∀ g, m_at g s = M_check → ∃ s', m_next debugging g s = Some (Ok s')) ∧
  (∀ g, m_at g s = M_in → debugging = true → m_owner s = g).
Proof.
  assert (∀ a, rtc (m_step debugging) a s → m_inv debugging a → m_inv debugging s) as Hr by (induction 1; [done|]; eauto using m_inv_step).
  intros Hs. pose proof (Hr _ Hs (m_inv_0 debugging)) as Hi. pose proof Hi as [Hmu Hz Hown Ho].
  assert (∀ g, m_at g s = M_in → m_owner s = if debugging then g else 0%N) as Hin.
  { intros g Eg. rewrite Ho. assert (m_mu s = Some g) as -> by (apply Hmu; by rewrite Eg). rewrite Eg. by rewrite andb_true_r. }
  split_and!.
  - intros g h Hg%Hmu Hh%Hmu. congruence.
  - intros g Eg. unfold AssertLocked. rewrite (Hin g Eg). destruct debugging; [|done]. by rewrite N.eqb_refl.
  - intros g Hg Hno. unfold AssertLocked. cbn. destruct (N.eqb_spec (m_owner s) g) as [<-|]; [|done]. intros _. rewrite Ho in Hg, Hno.
    destruct (m_mu s) as [h|]; [|done]. destruct debugging; [|done]. cbn in Hg, Hno. destruct (is_owner (m_at h s)) eqn:E; [|done]. congruence.
  - intros g Eg. unfold m_next. rewrite Eg. assert (m_owner s ≠ g) as Hne.
    { intros <-. rewrite Ho in Eg. destruct (m_mu s) as [h|] eqn:Em; [|congruence]. assert (has_mu (m_at h s) = true) as Hh by by apply Hmu.
      destruct (debugging && is_owner (m_at h s)); [by rewrite Eg in Hh|congruence]. }
    rewrite (proj2 (N.eqb_neq _ _) Hne), andb_false_r. by eexists.
  - intros g Eg ->. by apply Hin.
Qed.
End Mutex.
