(* ===== verification/Channels.v ===== *)
(** * Channels, futures and free lists (src/xxx/ichannel.go, future.go, atomiclist.go, src/storage/maprunnerbackend.go)

    The templates for communication between goroutines, as steps of any number of goroutines: what happens under a lock
    is one step, and an atomic access is one.  The history of calls is kept beside the state.  The instances the
    program generates from the templates are at the end of each part, and so is the backend that runs the operations
    of another one in goroutines. *)
From stdpp Require Import base list sets strings gmap relations.
From Stdlib Require Import ZArith Lia.
From S2P Require Import Prelude LinkedList Backend MapRunner IBNode Cart FsState.

(** ** Unbounded channels *)

Module IChannel.
Section code.
Context {V : Type}.

(** The goroutine: not started, about to take the lock, in [cond.Wait], or at the send on [receiveChannel]. *)
Inductive goroutine : Type := G_none | G_loop | G_waiting | G_sending (value : V).
Record YYYIChannel : Type := mkIC {
  ic_list : LinkedList.state V;
  started : bool;
  ic_pc : goroutine;
  sent : list V;
  received : list V
}.
Definition IChannel0 : YYYIChannel := mkIC (List0, ∅) false G_none [] [].

Definition start (self : YYYIChannel) : YYYIChannel :=
  if started self then self else mkIC (ic_list self) true G_loop (sent self) (received self).
(** [cond.Signal] wakes the goroutine if it waits; it then starts its loop again. *)
Definition signal (pc : goroutine) : goroutine := match pc with G_waiting => G_loop | _ => pc end.
Definition Send (value : V) (self : YYYIChannel) : res YYYIChannel :=
  let self := start self in
  let pc := match Front (ic_list self).1 with None => signal (ic_pc self) | Some _ => ic_pc self end in
  let! r := PushBack value (ic_list self) in
  Ok (mkIC r.2 (started self) pc (sent self ++ [value]) (received self)).
(** A turn of the loop of the goroutine. *)
Definition turn (self : YYYIChannel) : res YYYIChannel :=
  match Front (ic_list self).1 with
  | None => Ok (mkIC (ic_list self) (started self) G_waiting (sent self) (received self))
  | Some item =>
      let! l := RemoveElement item (ic_list self) in
      let! x := LinkedList.load item (l : LinkedList.state V).2 in
      Ok (mkIC l (started self) (G_sending (Value x)) (sent self) (received self))
  end.
(** [Receive], and the receive from [Channel], meet the goroutine at its send. *)
Definition receive (self : YYYIChannel) : option (V * YYYIChannel) :=
  match ic_pc self with
  | G_sending v => Some (v, mkIC (ic_list self) (started self) G_loop (sent self) (received self ++ [v]))
  | _ => None
  end.

Inductive step : YYYIChannel → YYYIChannel → Prop :=
  | step_Send v c c' : Send v c = Ok c' → step c c'
  | step_Start c : step c (start c)
  | step_turn c c' : ic_pc c = G_loop → turn c = Ok c' → step c c'
  | step_receive c v c' : receive c = Some (v, c') → step c c'.

(** ** What the channel holds *)

Definition held (pc : goroutine) : list V := match pc with G_sending v => [v] | _ => [] end.
Record ok (c : YYYIChannel) (vs : list V) : Prop := {
  co_list : ∃ xs fs, List_full (ic_list c) xs fs vs;
  co_sent : sent c = received c ++ held (ic_pc c) ++ vs;
  co_started : started c = false ↔ ic_pc c = G_none;
  co_none : ic_pc c = G_none → vs = [];
  co_waiting : ic_pc c = G_waiting → vs = []
}.

Lemma RemoveElement_full (s : LinkedList.state V) e xs fs v vs :
  List_full s (e :: xs) fs (v :: vs) →
  ∃ s', RemoveElement e s = Ok s' ∧ List_full s' xs fs vs ∧ ∃ x, s'.2 !! e = Some x ∧ Value x = v.
Proof.
  destruct s as [l h]. intros [Hr Hf Hnd Hv]. cbn in *.
  destruct (RemoveElement_rep h l [] e xs Hr) as (l' & h' & E & Hr' & Efl & Hd).
  apply NoDup_cons in Hnd as [_ Hnd]. apply Forall2_cons in Hv as [He Hv]. exists (l', h'). split; [exact E|]. split.
  - split; cbn; [done| |done|].
    + rewrite Efl. eapply differs_at_free; [exact Hd| |done]. intros p Hp. apply NoDup_app in Hnd as (_ & Hdis & _).
      specialize (Hdis p). set_solver.
    + destruct Hd as [_ Hval]. eapply values_ext; [|exact Hv]. intros p _. apply Hval.
  - destruct Hd as [_ Hval]. cbn. rewrite <- Hval in He. destruct (h' !! e) as [x|]; [|done]. exists x. split; [done|]. by injection He.
Qed.
Lemma Front_full (s : LinkedList.state V) xs fs vs :
  List_full s xs fs vs → match Front s.1 with None => xs = [] ∧ vs = [] | Some e => ∃ xs' v vs', xs = e :: xs' ∧ vs = v :: vs' end.
Proof.
  intros [Hr _ _ Hv]. rewrite (lr_Front _ _ _ Hr). destruct Hv as [|e v xs vs He Hv]; cbn; [done|]. by eexists _, _, _.
Qed.

Lemma ok_0 : ok IChannel0 [].
Proof. split; [|done..]. exists [], []. split; cbn; [apply List0_rep|done|constructor|constructor]. Qed.
Lemma ok_start c vs : ok c vs → ok (start c) vs ∧ started (start c) = true.
Proof.
  intros Hc. unfold start. destruct (started c) eqn:E; [done|]. split; [|done]. destruct Hc as [Hl Hs [Hn _] Hno _].
  specialize (Hn E). specialize (Hno Hn). subst vs. split; cbn; [done| |split; discriminate|discriminate|discriminate].
  by rewrite Hs, Hn.
Qed.
Lemma ok_Send v c vs : ok c vs → ∃ c', Send v c = Ok c' ∧ ok c' (vs ++ [v]).
Proof.
  intros [Hc Est]%ok_start. unfold Send. set (d := start c) in *. destruct Hc as [(xs & fs & Hl) Hs Hn Hno Hw].
  pose proof (Front_full _ _ _ _ Hl) as Hf. destruct (PushBack_full v _ _ _ _ Hl) as (e & s' & fs' & -> & Hl').
  cbn [res_bind snd]. eexists. split; [done|]. assert (ic_pc d ≠ G_none) as Hne by (intros E; apply Hn in E; congruence).
  assert (∀ pc, held (signal pc) = held pc) as Hsig by by intros [].
  split; cbn; [by eauto| |..].
  - rewrite Hs. destruct (Front _); rewrite ?Hsig; by rewrite <- !app_assoc.
  - rewrite Est. split; [done|]. destruct (Front _), (ic_pc d); cbn; done.
  - destruct (Front _), (ic_pc d); cbn; done.
  - destruct (Front _).
    + intros E. rewrite (Hw E) in Hf. destruct Hf as (? & ? & ? & _ & [=]).
    + by destruct (ic_pc d).
Qed.
Lemma ok_turn c vs : ok c vs → ic_pc c = G_loop → ∃ c' vs', turn c = Ok c' ∧ ok c' vs'.
Proof.
  intros [(xs & fs & Hl) Hs Hn Hno Hw] Epc. assert (started c = true) as Est by (destruct (started c); [done|]; exfalso; rewrite Epc in Hn; discriminate (proj1 Hn eq_refl)).
  pose proof (Front_full _ _ _ _ Hl) as Hf. unfold turn. destruct (Front _) as [e|].
  - destruct Hf as (xs' & v & vs' & -> & ->). destruct (RemoveElement_full _ _ _ _ _ _ Hl) as (s' & -> & Hl' & x & Ex & Ev).
    cbn [res_bind]. unfold LinkedList.load. rewrite Ex. cbn [deref res_bind]. eexists _, vs'. split; [done|].
    split; cbn; [by eauto|by rewrite Hs, Epc, Ev|by rewrite Est|done|done].
  - destruct Hf as [-> ->]. eexists _, []. split; [done|]. split; cbn; [by eauto|by rewrite Hs, Epc|by rewrite Est|done|done].
Qed.
Lemma ok_receive c vs v c' : ok c vs → receive c = Some (v, c') → ok c' vs.
Proof.
  intros [Hl Hs Hn Hno Hw]. unfold receive. destruct (ic_pc c) as [| | |x] eqn:Epc; try done. intros [= -> <-].
  split; cbn; [done| |split; [|done]; intros E%Hn; done|done|done]. rewrite Hs. by rewrite <- app_assoc.
Qed.
Lemma ok_step c c' vs : ok c vs → step c c' → ∃ vs', ok c' vs'.
Proof.
  intros Hc Hs. revert Hc. destruct Hs as [v d d' E|d|d d' Epc E|d v d' E]; intros Hc.
  - destruct (ok_Send v d vs Hc) as (? & E' & Hc'). rewrite E in E'. injection E' as <-. by eauto.
  - exists vs. by apply ok_start.
  - destruct (ok_turn d vs Hc Epc) as (? & vs' & E' & Hc'). rewrite E in E'. injection E' as <-. by eauto.
  - exists vs. by eapply ok_receive.
Qed.
Lemma reachable_ok c : rtc step IChannel0 c → ∃ vs, ok c vs.
Proof.
  assert (∀ a, rtc step a c → (∃ vs, ok a vs) → ∃ vs, ok c vs) as Hr.
  { induction 1 as [|a b c Hs _ IH]; [done|]. intros [vs Ha]. apply IH. by eapply ok_step. }
  intros Hs. apply (Hr _ Hs). exists []. apply ok_0.
Qed.

(** ** Nothing is lost, repeated or reordered *)

(** C27: The channel never blocks a sender and delivers in order.  In every state that sends, starts, turns of the
    goroutine and receives lead to, what was sent is what was received, then the value the goroutine offers, then the
    list, in order; a send succeeds; a goroutine that waits for the condition has nothing to deliver, so no wake-up is
    lost; and as long as a value was sent and not received, the goroutine offers one to the next receiver, at once or
    after its next turn, and it is the oldest. *)
Theorem ichannel_fifo c :
  rtc step IChannel0 c →
  ∃ queue, Iterate (ic_list c) = Ok queue ∧ sent c = received c ++ held (ic_pc c) ++ queue ∧
    (∀ v, ∃ c', Send v c = Ok c') ∧
    (ic_pc c = G_waiting → sent c = received c) ∧
    (sent c ≠ received c → ∃ c' v rest, (c' = c ∨ ic_pc c = G_loop ∧ turn c = Ok c') ∧
       ic_pc c' = G_sending v ∧ sent c = received c ++ v :: rest).
Proof.
  intros [vs Hc]%reachable_ok. pose proof Hc as [(xs & fs & Hl) Hs Hn Hno Hw]. exists vs. split; [by eapply Iterate_full|].
  split; [done|]. split; [intros v; destruct (ok_Send v c vs Hc) as (c' & E & _); eauto|]. split.
  - intros E. by rewrite Hs, E, (Hw E), !app_nil_r.
  - intros Hne. destruct (ic_pc c) as [| | |x] eqn:Epc; cbn [held app] in Hs.
    + destruct Hne. by rewrite Hs, (Hno eq_refl), app_nil_r.
    + destruct (ok_turn c vs Hc Epc) as (c' & vs' & E & [_ Hs' _ _ Hw']).
      assert (sent c' = sent c ∧ received c' = received c ∧ (ic_pc c' = G_waiting ∨ ∃ v, ic_pc c' = G_sending v)) as (E1 & E2 & E3).
      { revert E. unfold turn. destruct (Front _); [|intros [= <-]; by auto]. destruct (RemoveElement _ _) as [l'| |]; [|done..].
        cbn. destruct (LinkedList.load _ _); cbn; [|done..]. intros [= <-]; cbn; eauto. }
      rewrite E1, E2 in Hs'. destruct E3 as [E3|[v E3]].
      * destruct Hne. by rewrite Hs', E3, (Hw' E3), !app_nil_r.
      * exists c', v, vs'. rewrite Hs', E3. by auto.
    + destruct Hne. by rewrite Hs, (Hw eq_refl), app_nil_r.
    + exists c, x, vs. by auto.
Qed.
End code.
Arguments goroutine : clear implicits.
Arguments YYYIChannel : clear implicits.
End IChannel.

(** ** The start of a channel *)

(** [Start] looks at [started] without the lock.  A receiver, access by access: [started] and [receiveChannel] are set
    one after the other by the goroutine that holds the lock. *)
Module ChannelStart.
Inductive pc_t : Type :=
  | R_Start                      (* about to read [started], without the lock *)
  | R_lock                       (* about to take the lock *)
  | R_locked                     (* in [start], about to test [started] *)
  | R_started                    (* [started] is set, [receiveChannel] is not *)
  | R_unlock                     (* about to release the lock *)
  | R_read                       (* about to read [receiveChannel] *)
  | R_receive (made : bool).     (* receiving, from the channel or from nil *)
Record st : Type := mkSt { s_started : bool; s_made : bool; s_lock : option nat; s_pc : gmap nat pc_t }.
Definition at_pc (g : nat) (s : st) : pc_t := default R_Start (s_pc s !! g).
Definition goto (g : nat) (p : pc_t) (s : st) : st := mkSt (s_started s) (s_made s) (s_lock s) (<[g := p]> (s_pc s)).
(** The next start_access of goroutine [g]; [None] when it has to wait. *)
Definition start_access (g : nat) (s : st) : option st :=
  match at_pc g s with
  | R_Start => Some (goto g (if s_started s then R_read else R_lock) s)
  | R_lock => match s_lock s with
              | None => Some (goto g R_locked (mkSt (s_started s) (s_made s) (Some g) (s_pc s)))
              | Some _ => None
              end
  | R_locked => Some (if s_started s then goto g R_unlock s
                      else goto g R_started (mkSt true (s_made s) (s_lock s) (s_pc s)))
  | R_started => Some (goto g R_unlock (mkSt (s_started s) true (s_lock s) (s_pc s)))
  | R_unlock => Some (goto g R_read (mkSt (s_started s) (s_made s) None (s_pc s)))
  | R_read => Some (goto g (R_receive (s_made s)) s)
  | R_receive _ => None
  end.
Definition st0 : st := mkSt false false None ∅.
Definition run (gs : list nat) : option st := foldl (λ os g, s ← os; start_access g s) (Some st0) gs.

(** The first receiver gets the channel when it is alone.  A second one that comes between the two assignments finds
    [started] set, reads a nil channel, and receives from nil for ever, whatever is sent. *)
Theorem second_receiver_gets_nil :
  (at_pc 1 <$> run [1; 1; 1; 1; 1; 1] = Some (R_receive true)) ∧
  ∃ s, run [1; 1; 1; 2; 2] = Some s ∧ at_pc 2 s = R_receive false ∧ start_access 2 s = None.
Proof. split; [reflexivity|]. eexists. split; [reflexivity|]. by split. Qed.
End ChannelStart.

(** ** A lock-free free list *)

(** [XXXAtomicList]: goroutines that get and put, access by access.  Elements are never changed once made and memory
    is only reused when nothing refers to it, so a new element is fresh. *)
Module AtomicList.
Section code.
Context {V : Type}.

Record xxxAtomicListElement : Type := mkAE { value : V; next : option positive }.
(** [count] counts the swaps that succeeded and is remembered with each load. *)
Inductive pc_t : Type :=
  | A_idle
  | Get_load
  | Get_swap (v : positive) (count : nat)
  | Put_load (x : V)
  | Put_swap (v : option positive) (e : positive) (count : nat).
Inductive event : Type := E_Put (x : V) | E_Get (x : V) | E_New.
Record XXXAtomicList : Type := mkAL {
  pointer : option positive;
  heap : gmap positive xxxAtomicListElement;
  pcs : gmap nat pc_t;
  swaps : nat;
  log : list event        (* what took effect, in order *)
}.
Definition AtomicList0 : XXXAtomicList := mkAL None ∅ ∅ 0 [].
Definition at_pc (g : nat) (s : XXXAtomicList) : pc_t := default A_idle (pcs s !! g).
Definition goto (g : nat) (p : pc_t) (s : XXXAtomicList) : XXXAtomicList :=
  mkAL (pointer s) (heap s) (<[g := p]> (pcs s)) (swaps s) (log s).
Definition note (e : event) (s : XXXAtomicList) : XXXAtomicList := mkAL (pointer s) (heap s) (pcs s) (swaps s) (log s ++ [e]).
Definition swap (p : option positive) (s : XXXAtomicList) : XXXAtomicList := mkAL p (heap s) (pcs s) (S (swaps s)) (log s).

(** The next access of a goroutine that is in [Get] or [Put]. *)
Definition al_access (g : nat) (s : XXXAtomicList) : res XXXAtomicList :=
  match at_pc g s with
  | A_idle => Ok s
  | Get_load =>
      match pointer s with
      | None => Ok (goto g A_idle (note E_New s))
      | Some v => Ok (goto g (Get_swap v (swaps s)) s)
      end
  | Get_swap v _ =>
      let! e := deref (heap s !! v) in
      if decide (pointer s = Some v) then Ok (goto g A_idle (note (E_Get (value e)) (swap (next e) s)))
      else Ok (goto g Get_load s)
  | Put_load x =>
      let v := pointer s in
      let e := fresh (dom (heap s) : gset positive) in
      Ok (goto g (Put_swap v e (swaps s)) (mkAL (pointer s) (<[e := mkAE x v]> (heap s)) (pcs s) (swaps s) (log s)))
  | Put_swap v e _ =>
      let! x := deref (heap s !! e) in
      if decide (pointer s = v) then Ok (goto g A_idle (note (E_Put (value x)) (swap (Some e) s)))
      else Ok (goto g (Put_load (value x)) s)
  end.
Inductive step : XXXAtomicList → XXXAtomicList → Prop :=
  | step_Get g s : at_pc g s = A_idle → step s (goto g Get_load s)
  | step_Put g x s : at_pc g s = A_idle → step s (goto g (Put_load x) s)
  | step_access g s s' : al_access g s = Ok s' → step s s'.

(** ** A stack *)

(** What a log means: [New] is only called on an empty stack. *)
Definition replay1 `{EqDecision V} (e : event) (st : list V) : option (list V) :=
  match e, st with
  | E_Put x, _ => Some (x :: st)
  | E_Get x, y :: st' => if decide (x = y) then Some st' else None
  | E_New, [] => Some []
  | _, _ => None
  end.
Definition replay `{EqDecision V} (es : list event) : option (list V) := foldl (λ o e, st ← o; replay1 e st) (Some []) es.
Fixpoint chain (h : gmap positive xxxAtomicListElement) (p : option positive) (st : list V) : Prop :=
  match st with
  | [] => p = None
  | x :: st' => ∃ e n, p = Some e ∧ h !! e = Some (mkAE x n) ∧ chain h n st'
  end.

Lemma chain_mono h h' p st : h ⊆ h' → chain h p st → chain h' p st.
Proof.
  intros Hh. revert p. induction st as [|x st IH]; intros p; cbn; [done|]. intros (e & n & -> & He & Hc).
  exists e, n. split; [done|]. split; [by eapply lookup_weaken|by apply IH].
Qed.
Context `{EqDecision V}.
Lemma replay_snoc es e st : replay es = Some st → replay (es ++ [e]) = replay1 e st.
Proof. unfold replay. rewrite foldl_app. intros ->. done. Qed.

(** What a goroutine knows of the list: the pointer it saw is still there unless somebody has swapped since. *)
Definition knows (s : XXXAtomicList) (p : pc_t) : Prop :=
  match p with
  | A_idle | Get_load | Put_load _ => True
  | Get_swap v n => is_Some (heap s !! v) ∧ n ≤ swaps s ∧ (n = swaps s → pointer s = Some v)
  | Put_swap v e n => (∃ x, heap s !! e = Some (mkAE x v)) ∧ n ≤ swaps s ∧ (n = swaps s → pointer s = v)
  end.
Record inv (s : XXXAtomicList) : Prop := {
  ai_stack : ∃ st, replay (log s) = Some st ∧ chain (heap s) (pointer s) st;
  ai_knows : ∀ g, knows s (at_pc g s)
}.

Lemma at_goto g h p (s : XXXAtomicList) : at_pc h (goto g p s) = if decide (g = h) then p else at_pc h s.
Proof. unfold at_pc, goto. cbn. destruct (decide (g = h)) as [->|]; by rewrite ?lookup_insert_eq, ?lookup_insert_ne by done. Qed.
(** What others know survives a step that only adds elements and, if it moves the pointer, counts a swap. *)
Definition moves (s s' : XXXAtomicList) : Prop :=
  heap s ⊆ heap s' ∧ (swaps s' = swaps s ∧ pointer s' = pointer s ∨ swaps s < swaps s').
Lemma knows_moves s s' p : moves s s' → knows s p → knows s' p.
Proof.
  intros [Hh Hm]. destruct p as [| |v n|x|v e n]; cbn; try done.
  - intros ([y Hy] & Hn & Hp). split; [eexists; by eapply lookup_weaken|]. destruct Hm as [[-> ->]|Hlt]; [done|]. split; lia.
  - intros ([x Hx] & Hn & Hp). split; [eexists; by eapply lookup_weaken|]. destruct Hm as [[-> ->]|Hlt]; [done|]. split; lia.
Qed.
Lemma al_inv_goto s s' g p :
  inv s → moves s s' → pcs s' = pcs s → (∃ st, replay (log s') = Some st ∧ chain (heap s') (pointer s') st) → knows s' p →
  inv (goto g p s').
Proof.
  intros [_ Hk] Hm Epc Hst Hp. split; [exact Hst|]. intros h. rewrite at_goto. destruct (decide (g = h)) as [_|_]; [by destruct p|].
  assert (knows s' (at_pc h s')) as Hk'; [|by destruct (at_pc h s')].
  unfold at_pc. rewrite Epc. eapply knows_moves; [exact Hm|apply Hk].
Qed.
Lemma moves_refl s : moves s s.
Proof. split; [done|]. by left. Qed.

(** Every access succeeds and keeps the invariant. *)
Lemma al_inv_access g s : inv s → ∃ s', al_access g s = Ok s' ∧ inv s'.
Proof.
  intros Hi. pose proof Hi as [(st & Hr & Hc) Hk]. specialize (Hk g). unfold al_access. destruct (at_pc g s) as [| |v n|x|v e n]; cbn in Hk.
  - by exists s.
  - destruct (pointer s) as [v|] eqn:Ep.
    + eexists. split; [done|]. apply (al_inv_goto s); [done|apply moves_refl|done|rewrite Ep; by eauto|].
      destruct st as [|x st]; [by cbn in Hc|]. destruct Hc as (? & ? & [= <-] & He & _). cbn. split_and!; [by eexists|done|done].
    + eexists. split; [done|]. apply (al_inv_goto s); [done|split; [done|by left]|done| |done]. destruct st as [|x st]; [|by destruct Hc as (? & ? & ? & _)].
      exists []. cbn [log note pointer heap]. by rewrite (replay_snoc _ _ _ Hr), Ep.
  - destruct Hk as ([[x n'] Hv] & Hn & Hp). rewrite Hv. cbn. destruct (decide (pointer s = Some v)) as [Ep|Ep]; eexists; (split; [done|]).
    + apply (al_inv_goto s); [done|split; [done|right; cbn; lia]|done| |done].
      destruct st as [|y st]; cbn in Hc; [congruence|]. destruct Hc as (e & n'' & E1 & E2 & Hc).
      assert (e = v) as -> by congruence. rewrite Hv in E2. injection E2 as -> ->. exists st. cbn [log note swap pointer heap value next].
      rewrite (replay_snoc _ _ _ Hr). cbn. by rewrite decide_True.
    + apply (al_inv_goto s); [done|apply moves_refl|done|by eauto|done].
  - set (e := fresh (dom (heap s) : gset positive)).
    assert (heap s !! e = None) as He by (apply not_elem_of_dom; apply is_fresh). eexists. split; [done|].
    apply (al_inv_goto s); [done|split; cbn; [by apply insert_subseteq|by left]|done| |].
    + exists st. cbn. split; [done|]. eapply chain_mono; [|done]. by apply insert_subseteq.
    + cbn. split_and!; [|done|done]. exists x. by rewrite lookup_insert_eq.
  - destruct Hk as ([x Hx] & Hn & Hp). rewrite Hx. cbn. destruct (decide (pointer s = v)) as [Ep|Ep]; eexists; (split; [done|]).
    + apply (al_inv_goto s); [done|split; [done|right; cbn; lia]|done| |done]. exists (x :: st). cbn [log note swap pointer heap value].
      rewrite (replay_snoc _ _ _ Hr). cbn. split; [done|]. exists e, v. split_and!; [done..|]. by rewrite <- Ep.
    + apply (al_inv_goto s); [done|apply moves_refl|done|by eauto|done].
Qed.
Lemma al_inv_step s s' : inv s → step s s' → inv s'.
Proof.
  intros Hi Hs. revert Hi. destruct Hs as [g s _|g x s _|g s s' E]; intros Hi.
  1,2: apply (al_inv_goto s); [done|apply moves_refl|done|apply Hi|done].
  destruct (al_inv_access g s Hi) as (s2 & E2 & Hi2). congruence.
Qed.
Lemma al_inv_0 : inv AtomicList0.
Proof. split; [by exists []|]. intros g. assert (at_pc g AtomicList0 = A_idle) as -> by exact (f_equal (default A_idle) (lookup_empty g)). done. Qed.
Lemma reachable_inv_list s : rtc step AtomicList0 s → inv s.
Proof. intros Hs. pose proof al_inv_0 as H0. induction Hs as [|a b c Hab _ IH]; [done|]. apply IH. by eapply al_inv_step. Qed.

(** C28: the free list is a stack, without locks.  Whatever accesses of whatever goroutines interleave, the calls that
    took effect are, in the order of their swaps, a run of a stack in which [New] is only called when the stack is
    empty, and the list in memory is that stack: nothing that was put is lost or handed out twice.  No access fails,
    and a swap that has to be tried again means that another goroutine has swapped since the load. *)
Theorem atomiclist_is_stack s :
  rtc step AtomicList0 s →
  (∃ st, replay (log s) = Some st ∧ chain (heap s) (pointer s) st) ∧
  (∀ g, ∃ s', al_access g s = Ok s') ∧
  (∀ g v n, at_pc g s = Get_swap v n → n = swaps s → ∃ s', al_access g s = Ok s' ∧ at_pc g s' = A_idle) ∧
  (∀ g v e n, at_pc g s = Put_swap v e n → n = swaps s → ∃ s', al_access g s = Ok s' ∧ at_pc g s' = A_idle).
Proof.
  intros Hi%reachable_inv_list. pose proof Hi as [Hst Hk]. split; [done|].
  split; [intros g; destruct (al_inv_access g s Hi) as (s' & E & _); eauto|]. split.
  - intros g v n E Hn. specialize (Hk g). rewrite E in Hk. destruct Hk as ([x Hx] & _ & Hp). unfold al_access. rewrite E, Hx. cbn.
    rewrite decide_True by auto. eexists. split; [done|]. rewrite at_goto. by rewrite decide_True.
  - intros g v e n E Hn. specialize (Hk g). rewrite E in Hk. destruct Hk as ([x Hx] & _ & Hp). unfold al_access. rewrite E, Hx. cbn.
    rewrite decide_True by auto. eexists. split; [done|]. rewrite at_goto. by rewrite decide_True.
Qed.
End code.
Arguments xxxAtomicListElement : clear implicits.
Arguments event : clear implicits.
Arguments XXXAtomicList : clear implicits.
End AtomicList.

(** ** Futures *)

(** [YYYFuture]: what happens under the lock between two waits is one step.  A callback is the value its call returns;
    it runs under the lock. *)
Module Future.
Section code.
Context {V : Type}.
Record YYYFuture : Type := mkFuture {
  ValueCallback : option V;
  v : option V;
  called : bool;
  vset : bool;
  cond_L : bool;             (* [cond.L] is set *)
  waiting : list nat;        (* in [cond.Wait] *)
  woken : list nat;          (* after a broadcast, about to test [vset] again *)
  calls : nat;               (* of the callback *)
  got : list (nat * option V)
}.
Definition Future0 : YYYFuture := mkFuture None None false false false [] [] 0 [].

Definition set (x : V) (self : YYYFuture) : YYYFuture :=
  let w := cond_L self in
  mkFuture (ValueCallback self) (Some x) (called self) true (cond_L self) (if w then [] else waiting self)
    (if w then woken self ++ waiting self else woken self) (calls self) (got self).
Definition Set_ (x : V) (self : YYYFuture) : YYYFuture := set x self.
Definition SetCallback (cb : V) (self : YYYFuture) : YYYFuture :=
  mkFuture (Some cb) (v self) (called self) (vset self) (cond_L self) (waiting self) (woken self) (calls self) (got self).
(** The loop of [Get]: return the value, or wait. *)
Definition Get_loop (g : nat) (self : YYYFuture) : YYYFuture :=
  if vset self then
    mkFuture (ValueCallback self) (v self) (called self) (vset self) (cond_L self) (waiting self) (woken self) (calls self)
      (got self ++ [(g, v self)])
  else
    mkFuture (ValueCallback self) (v self) (called self) (vset self) true (waiting self ++ [g]) (woken self) (calls self)
      (got self).
Definition Future_Get (g : nat) (self : YYYFuture) : YYYFuture :=
  let self :=
    match ValueCallback self with
    | Some value =>
        if negb (vset self) && negb (called self) then
          set value (mkFuture (ValueCallback self) (v self) true (vset self) (cond_L self) (waiting self) (woken self)
                       (S (calls self)) (got self))
        else self
    | None => self
    end in
  Get_loop g self.
Inductive step : YYYFuture → YYYFuture → Prop :=
  | step_Set x f : step f (Set_ x f)
  | step_SetCallback cb f : step f (SetCallback cb f)
  | step_Get g f : step f (Future_Get g f)
  | step_wake g f ws1 ws2 : woken f = ws1 ++ g :: ws2 →
      step f (Get_loop g (mkFuture (ValueCallback f) (v f) (called f) (vset f) (cond_L f) (waiting f) (ws1 ++ ws2) (calls f) (got f))).

Record inv (f : YYYFuture) : Prop := {
  fi_calls : calls f = if called f then 1 else 0;
  fi_called : called f = true → vset f = true;
  fi_v : vset f = true ↔ is_Some (v f);
  fi_cond : waiting f ≠ [] → cond_L f = true;
  fi_waiting : vset f = true → waiting f = [];
  fi_woken : vset f = false → woken f = [];
  fi_got : ∀ g o, (g, o) ∈ got f → is_Some o
}.
Lemma future_inv_set x f (n : nat) (c : bool) :
  inv f → n = (if c then 1 else 0) →
  inv (set x (mkFuture (ValueCallback f) (v f) c (vset f) (cond_L f) (waiting f) (woken f) n (got f))).
Proof.
  intros [H1 H2 H3 H4 H5 H6 H7] Hn. split; cbn; try done.
  - destruct (cond_L f); [done|]. intros Hw. by rewrite H4 in *.
  - intros _. destruct (cond_L f) eqn:E; [done|]. destruct (waiting f); [done|]. by specialize (H4 ltac:(done)).
Qed.
Lemma future_inv_loop g f ws :
  inv f → (vset f = false → ws = []) →
  inv (Get_loop g (mkFuture (ValueCallback f) (v f) (called f) (vset f) (cond_L f) (waiting f) ws (calls f) (got f))).
Proof.
  intros [H1 H2 H3 H4 H5 H6 H7] Hws. unfold Get_loop. cbn. destruct (vset f) eqn:E; split; cbn; try done.
  intros g' o [Hin|Hin]%elem_of_app; [by eapply H7|]. apply list_elem_of_singleton in Hin as [= -> ->]. by apply H3.
Qed.
Lemma future_inv_step f f' : inv f → step f f' → inv f'.
Proof.
  intros Hf Hs. revert Hf. destruct Hs as [x f|cb f|g f|g f ws1 ws2 Hw]; intros Hf.
  - destruct f. by apply (future_inv_set x _ _ _ Hf), Hf.
  - by destruct Hf; split.
  - unfold Future_Get. assert (∀ f2, inv f2 → inv (Get_loop g f2)) as Hl by (intros f2 H2; destruct f2; apply (future_inv_loop g _ _ H2), H2).
    apply Hl. destruct (ValueCallback f) as [x|] eqn:Ecb; [|done]. destruct (vset f) eqn:Ev, (called f) eqn:Ec; try done.
    cbn. rewrite <- Ecb, <- Ev. apply (future_inv_set x f _ true Hf). destruct Hf as [-> _ _ _ _ _ _]. by rewrite Ec.
  - apply future_inv_loop; [done|]. intros E. destruct Hf as [_ _ _ _ _ Hf _]. specialize (Hf E). rewrite Hf in Hw. by destruct ws1.
Qed.

(** A future calls its callback at most once; nobody waits for a value that is there, and whoever was woken gets it. *)
Theorem future_no_lost_wakeup f :
  rtc step Future0 f →
  calls f ≤ 1 ∧ (vset f = true → waiting f = []) ∧ (woken f ≠ [] → is_Some (v f)) ∧ (∀ g o, (g, o) ∈ got f → is_Some o).
Proof.
  assert (∀ a, rtc step a f → inv a → inv f) as Hr by (induction 1; [done|]; eauto using future_inv_step).
  intros Hs. destruct (Hr _ Hs) as [H1 H2 H3 H4 H5 H6 H7]; [split; cbn; try done; intros ? ? Hin; by apply elem_of_nil in Hin|].
  split; [rewrite H1; destruct (called f); lia|]. split; [done|]. split; [|done]. intros Hw. apply H3.
  destruct (vset f); [done|]. by rewrite H6 in Hw.
Qed.
End code.
Arguments YYYFuture : clear implicits.
End Future.

(** ** Backends that run in goroutines *)

(** [mapRunnerBackend]: each call is a goroutine of the limiter, which hands the operation to the MapRunner under the id
    of the block; reads wait for a future.  Blocks are copied, so their values are fixed when the call is made. *)
Module MapRunnerBackend.
Section code.
Context {S : Type} (Backend : BlockBackend S).

(** A read has the number of its future. *)
Inductive mrb_call : Type :=
  | C_DeleteBlock (b : Block)
  | C_GetBlockData (b : Block) (fut : nat)
  | C_GetBlockById (id : string) (fut : nat)
  | C_StoreBlock (b : Block)
  | C_UpdateBlock (b : Block).
Inductive reply : Type := R_data (d : option string) | R_block (b : option Block).
Definition call_key (c : mrb_call) : string :=
  match c with C_DeleteBlock b | C_GetBlockData b _ | C_StoreBlock b | C_UpdateBlock b => Id b | C_GetBlockById id _ => id end.
(** The callback: the operation of the backend, and the future it sets. *)
Definition run_call (c : mrb_call) (s : S) : res (S * option (nat * reply)) :=
  match c with
  | C_DeleteBlock b => let! s := be_DeleteBlock Backend b s in Ok (s, None)
  | C_GetBlockData b fut => let! r := be_GetBlockData Backend b s in Ok (r.2, Some (fut, R_data r.1))
  | C_GetBlockById id fut =>
      let! r := be_GetBlockById Backend id s in Ok (r.2, Some (fut, R_block (with_hasBackend true <$> r.1)))
  | C_StoreBlock b => let! s := be_StoreBlock Backend b s in Ok (s, None)
  | C_UpdateBlock b => let! r := be_UpdateBlock Backend b s in Ok (r.2, None)
  end.

Record mapRunnerBackend : Type := mkMRB {
  mr : System string mrb_call;
  pl : list mrb_call;               (* the goroutines of the limiter that have not reached [mr.Call] *)
  be : S;
  futs : gmap nat reply;
  issued : list mrb_call            (* the calls that were made, in order *)
}.
Definition mrb_new (s : S) : mapRunnerBackend := mkMRB System0 [] s ∅ [].

Inductive mrb_step : mapRunnerBackend → mapRunnerBackend → Prop :=
  (* a call: [pl.Go] starts its goroutine *)
  | step_call c m : mrb_step m (mkMRB (mr m) (c :: pl m) (be m) (futs m) (issued m ++ [c]))
  (* a goroutine reaches [mr.Call]: it is queued behind another one, or runs *)
  | step_queue c pl1 pl2 r' m :
      pl m = pl1 ++ c :: pl2 → queueOrReserve (call_key c) c (runner (mr m)) = Ok (true, r') →
      mrb_step m (mkMRB (mkSystem r' (threads (mr m)) (given (mr m) ++ [(call_key c, c)]) (started (mr m)) (finished (mr m)))
                (pl1 ++ pl2) (be m) (futs m) (issued m))
  | step_reserve c pl1 pl2 r' m :
      pl m = pl1 ++ c :: pl2 → queueOrReserve (call_key c) c (runner (mr m)) = Ok (false, r') →
      mrb_step m (mkMRB (mkSystem r' ((call_key c, c) :: threads (mr m)) (given (mr m) ++ [(call_key c, c)])
                       (started (mr m) ++ [(call_key c, c)]) (finished (mr m)))
                (pl1 ++ pl2) (be m) (futs m) (issued m))
  (* a callback runs and returns, and its goroutine goes on or ends *)
  | step_return key c mr' s' a m :
      run_call c (be m) = Ok (s', a) → mr_return (mr m) mr' → finished mr' = finished (mr m) ++ [(key, c)] →
      mrb_step m (mkMRB mr' (pl m) s' (match a with Some (fut, r) => <[fut := r]> (futs m) | None => futs m end) (issued m)).

(** Calls one after the other. *)
Definition run_calls (cs : list mrb_call) (s : S) : res S := foldl (λ rs c, let! s := rs in let! r := run_call c s in Ok r.1) (Ok s) cs.
Record inv (s0 : S) (m : mapRunnerBackend) : Prop := {
  mb_runner : mr_inv (mr m);
  mb_issued : issued m ≡ₚ pl m ++ (given (mr m)).*2;
  mb_backend : run_calls (finished (mr m)).*2 s0 = Ok (be m)
}.
Lemma run_calls_snoc cs c s0 s s' a : run_calls cs s0 = Ok s → run_call c s = Ok (s', a) → run_calls (cs ++ [c]) s0 = Ok s'.
Proof. unfold run_calls. rewrite foldl_app. cbn. intros -> E. cbn. by rewrite E. Qed.
Lemma mrb_inv_new s0 : inv s0 (mrb_new s0).
Proof. split; [apply mr_inv_init|done|done]. Qed.
Lemma mrb_inv_step s0 m m' : inv s0 m → mrb_step m m' → inv s0 m'.
Proof.
  intros Hm Hs. revert Hm. destruct Hs as [c m|c pl1 pl2 r' m Hpl E|c pl1 pl2 r' m Hpl E|key c mr' s' a m E Hret Hfin]; intros [Hr Hi Hb].
  - split; cbn; [done| |done]. rewrite Hi. solve_Permutation.
  - split; cbn; [|rewrite Hi, Hpl, fmap_app; cbn; solve_Permutation|done]. eapply mr_step_inv; [exact Hr|by apply mr_queue].
  - split; cbn; [|rewrite Hi, Hpl, fmap_app; cbn; solve_Permutation|done]. eapply mr_step_inv; [exact Hr|by apply mr_start].
  - split; cbn; [by eapply mr_return_inv| |].
    + destruct (mr_return_counts _ _ Hret) as [-> _]. done.
    + rewrite Hfin, fmap_app. by eapply run_calls_snoc.
Qed.

(** Whatever the goroutines do, the backend underneath is where the calls that finished bring it one after the other, no
    two of them on the same block at a time, and when nothing is left to run, every call has run once. *)
Theorem mapRunnerBackend_runs_all s0 m :
  rtc mrb_step (mrb_new s0) m →
  run_calls (finished (mr m)).*2 s0 = Ok (be m) ∧ NoDup (threads (mr m)).*1 ∧
  (pl m = [] → threads (mr m) = [] → (finished (mr m)).*2 ≡ₚ issued m).
Proof.
  assert (∀ a, rtc mrb_step a m → inv s0 a → inv s0 m) as Hr by (induction 1; [done|]; eauto using mrb_inv_step).
  intros Hs. destruct (Hr _ Hs (mrb_inv_new s0)) as [Hm Hi Hb]. split; [done|]. split; [apply Hm|]. intros Hpl Ht.
  destruct (mr_idle _ Hm Ht) as [Hp _]. by rewrite Hi, Hpl, Hp.
Qed.
End code.

(** The order of two calls is not kept: the goroutine of the second may reach the MapRunner first.  A block that was
    stored and then deleted stays. *)
Definition example_block : Block := with_Data (Some "data") (new_Block "id").
Definition example_store : mrb_call := C_StoreBlock example_block.
Definition example_delete : mrb_call := C_DeleteBlock example_block.
Definition example_runner (busy : gset string) (ran : nat) : MapRunner string mrb_call := mkMR busy ∅ (bool_decide (ran ≠ 0)) false false ran 0.
Definition example_state (busy : bool) (ran : nat) (ts gs ss fs pl : list mrb_call) (be : InMemory.inMemoryBackend) : mapRunnerBackend :=
  mkMRB (mkSystem (example_runner (if busy then {["id"]} else ∅) ran) (pair "id" <$> ts) (pair "id" <$> gs) (pair "id" <$> ss)
           (pair "id" <$> fs)) pl be ∅ [example_store; example_delete].
Definition stored_state : InMemory.inMemoryBackend := InMemory.mkInMemory {["id" := with_hasBackend true example_block]} ∅.
Lemma step_to {S} (Backend : BlockBackend S) m m1 m2 : mrb_step Backend m m1 → m1 = m2 → mrb_step Backend m m2.
Proof. by intros ? <-. Qed.

Theorem delete_overtakes_store :
  ∃ m, rtc (mrb_step InMemory.backend) (mrb_new InMemory.NewInMemoryBackend) m ∧ issued m = [example_store; example_delete] ∧
    pl m = [] ∧ threads (mr m) = [] ∧ InMemory.id2Block (be m) !! "id" = Some (with_hasBackend true example_block).
Proof.
  pose (s0 := InMemory.NewInMemoryBackend). pose (d := example_delete). pose (t := example_store).
  exists (example_state false 2 [] [d; t] [d; t] [d; t] [] stored_state). split; [|vm_compute; done].
  eapply rtc_l; [apply (step_call _ t)|].
  apply (rtc_l _ _ (example_state false 0 [] [] [] [] [d; t] s0)); [eapply step_to; [apply (step_call _ d)|vm_compute; reflexivity]|].
  apply (rtc_l _ _ (example_state true 1 [d] [d] [d] [] [t] s0)).
  { eapply step_to; [eapply (step_reserve _ d [] [t]); [|vm_compute]; reflexivity|vm_compute; reflexivity]. }
  apply (rtc_l _ _ (example_state false 1 [] [d] [d] [d] [t] s0)).
  { eapply step_to; [eapply (step_return _ "id" d); [vm_compute; reflexivity|eapply (ret_end "id" d _ _ [] []); [|vm_compute]; reflexivity|reflexivity]|].
    vm_compute; reflexivity. }
  apply (rtc_l _ _ (example_state true 2 [t] [d; t] [d; t] [d] [] s0)).
  { eapply step_to; [eapply (step_reserve _ t [] []); [|vm_compute]; reflexivity|vm_compute; reflexivity]. }
  apply rtc_once. eapply step_to; [eapply (step_return _ "id" t); [vm_compute; reflexivity|eapply (ret_end "id" t _ _ [] []); [|vm_compute]; reflexivity|reflexivity]|].
  vm_compute; reflexivity.
Qed.
End MapRunnerBackend.

(** ** The instances *)

(** The generated files are the templates with the name of a type put in: the methods of the template at that type. *)
Module Generated.
Record ListMethods (V : Type) : Type := mkListMethods {
  l_getElement : V → LinkedList.state V → res (positive * LinkedList.state V);
  l_Iterate : LinkedList.state V → res (list V);
  l_PushBackElement : positive → LinkedList.state V → res (LinkedList.state V);
  l_PushBack : V → LinkedList.state V → res (positive * LinkedList.state V);
  l_PushFrontElement : positive → LinkedList.state V → res (LinkedList.state V);
  l_PushFront : V → LinkedList.state V → res (positive * LinkedList.state V);
  l_RemoveElement : positive → LinkedList.state V → res (LinkedList.state V);
  l_Remove : positive → LinkedList.state V → res (LinkedList.state V)
}.
Definition list_methods (V : Type) : ListMethods V :=
  mkListMethods V getElement Iterate PushBackElement PushBack PushFrontElement PushFront RemoveElement Remove.
Definition StringList : ListMethods string := list_methods string.
Definition MapRunnerCallbackList (MapRunnerCallback : Type) : ListMethods MapRunnerCallback := list_methods MapRunnerCallback.
Definition deleteNotifyList : ListMethods deleteNotify := list_methods deleteNotify.
(** Lists of pointers to entries. *)
Definition NodeDataCartEntryList : ListMethods positive := list_methods positive.
Definition XXXCartEntryList : ListMethods positive := list_methods positive.

Definition NodeDataCart : Type := XXXCart NodeData.
Definition NodeDataCart_Init : Z → NodeDataCart := Cart_Init.
Definition NodeDataCart_Get : string → NodeDataCart → res (option NodeData * NodeDataCart) := Cart_Get.
Definition NodeDataCart_GetOrCreate : string → (string → option NodeData) → NodeDataCart → res (option NodeData * bool * NodeDataCart) :=
  Cart_GetOrCreate.
Definition NodeDataCart_Set : string → option NodeData → NodeDataCart → res NodeDataCart := Cart_Set.
Definition NodeDataCart_replace : NodeDataCart → res NodeDataCart := replace.

Record FutureMethods (V : Type) : Type := mkFutureMethods {
  f_Get : nat → Future.YYYFuture V → Future.YYYFuture V;
  f_Set : V → Future.YYYFuture V → Future.YYYFuture V;
  f_set : V → Future.YYYFuture V → Future.YYYFuture V;
  f_SetCallback : V → Future.YYYFuture V → Future.YYYFuture V
}.
Definition ByteSliceFuture : FutureMethods (option string) :=
  mkFutureMethods _ Future.Future_Get Future.Set_ Future.set Future.SetCallback.
Definition BlockPointerFuture : FutureMethods (option Block) :=
  mkFutureMethods _ Future.Future_Get Future.Set_ Future.set Future.SetCallback.

Record IChannelMethods (V : Type) : Type := mkIChannelMethods {
  i_start : IChannel.YYYIChannel V → IChannel.YYYIChannel V;
  i_turn : IChannel.YYYIChannel V → res (IChannel.YYYIChannel V);
  i_Send : V → IChannel.YYYIChannel V → res (IChannel.YYYIChannel V);
  i_receive : IChannel.YYYIChannel V → option (V * IChannel.YYYIChannel V)
}.
Definition deleteNotifyIChannel : IChannelMethods deleteNotify :=
  mkIChannelMethods _ IChannel.start IChannel.turn IChannel.Send IChannel.receive.
End Generated.

(** ** Examples *)

Module ChannelWitness.
Definition note1 : deleteNotify := mkDeleteNotify 1 5 "a".
Definition note2 : deleteNotify := mkDeleteNotify 1 6 "b".
(** Two notes are sent, the goroutine takes the first. *)
Definition sent2 : res (IChannel.YYYIChannel deleteNotify) :=
  let! c := IChannel.Send note1 IChannel.IChannel0 in let! c := IChannel.Send note2 c in IChannel.turn c.
Definition demo : IChannel.YYYIChannel deleteNotify := match sent2 with Ok c => c | _ => IChannel.IChannel0 end.
Lemma ichannel_demo_reachable : rtc IChannel.step IChannel.IChannel0 demo.
Proof.
  eapply rtc_l; [apply (IChannel.step_Send note1); vm_compute; reflexivity|].
  eapply rtc_l; [apply (IChannel.step_Send note2); vm_compute; reflexivity|].
  eapply rtc_l; [apply IChannel.step_turn; vm_compute; reflexivity|]. vm_compute. apply rtc_refl.
Qed.
Lemma ichannel_fifo_witness :
  IChannel.ic_pc demo = IChannel.G_sending note1 ∧
  ∃ queue, Iterate (IChannel.ic_list demo) = Ok queue ∧ IChannel.sent demo = IChannel.received demo ++ IChannel.held (IChannel.ic_pc demo) ++ queue.
Proof.
  split; [vm_compute; reflexivity|].
  destruct (IChannel.ichannel_fifo demo ichannel_demo_reachable) as (queue & E & Hs & _). exists queue. by split.
Defined.

(** Goroutines 1 and 2 put; 2 loads before 1 swaps, and has to try again. *)
Definition puts : list nat := [1; 2; 1; 2; 2; 2].
Definition alist0 : AtomicList.XXXAtomicList Z :=
  AtomicList.goto 2 (AtomicList.Put_load 20%Z) (AtomicList.goto 1 (AtomicList.Put_load 10%Z) AtomicList.AtomicList0).
Definition alist : AtomicList.XXXAtomicList Z :=
  foldl (λ s g, match AtomicList.al_access g s with Ok s' => s' | _ => s end) alist0 puts.
Lemma alist_reachable : rtc AtomicList.step AtomicList.AtomicList0 alist.
Proof.
  eapply rtc_l; [apply (AtomicList.step_Put 1 10%Z); reflexivity|]. eapply rtc_l; [apply (AtomicList.step_Put 2 20%Z); reflexivity|].
  assert (∀ gs (s : AtomicList.XXXAtomicList Z), rtc AtomicList.step s (foldl (λ s g, match AtomicList.al_access g s with Ok s' => s' | _ => s end) s gs)) as Hr.
  { induction gs as [|g gs IH]; intros s; cbn; [apply rtc_refl|]. destruct (AtomicList.al_access g s) as [s'| |] eqn:E; [|apply IH..].
    eapply rtc_l; [by eapply AtomicList.step_access|apply IH]. }
  apply (Hr puts).
Qed.
Lemma atomiclist_is_stack_witness :
  AtomicList.replay (AtomicList.log alist) = Some [20%Z; 10%Z] ∧
  ∃ st, AtomicList.replay (AtomicList.log alist) = Some st ∧ AtomicList.chain (AtomicList.heap alist) (AtomicList.pointer alist) st.
Proof.
  split; [vm_compute; reflexivity|]. apply (AtomicList.atomiclist_is_stack alist alist_reachable).
Defined.
End ChannelWitness.
